(* ===== verification/_CoqProject ===== *)
-Q . S2P
Prelude.v
IntUtil.v
Difficulty.v
Keccak.v
KeccakSpec.v
KeccakProofs.v
TreeHash.v
Random.v
CInt.v
BitField.v
ChaCha.v
Blake256.v
BlakeProofs.v
Oaes.v
AesSpec.v
Aesb.v
OaesProofs.v
IntSqrt.v
Groestl.v
GroestlProofs.v
GroestlStream.v
SlowHash.v
SlowPortable.v
SlowX86.v
SlowArm.v
SlowSpec.v
SlowProofs.v
SlowAes.v
SlowTheorems.v
SlowArmProofs.v
Fe.v
FeProofs.v
Primality.v
FeField.v
Sc.v
ScProofs.v
Ge.v
GeProofs.v
EdAssoc.v
EdGroup.v
GeMult.v
GeMultProofs.v
GeCodec.v
GeSpec.v
GeData.v
GeDataProofs.v
GeHash.v
GroupOrder.v
Crypto.v
CryptoProofs.v
RingProofs.v
Stream.v
Types.v
Binary.v
StreamCodec.v
Base58.v
Hex.v
TxExtra.v
Amounts.v
Currency.v
BlockStore.v
ChainIndex.v
Validate.v
ChainPush.v
TxBuild.v
Account.v
Checkpoints.v
Block.v
BlockIndex.v
ChainState.v
MinerTx.v
Semantic.v
