(* ===== verification/Prelude.v ===== *)
(** * A verification development for a Cryptonote node

    The program is a Cryptonote node.  Its cryptographic core in C is
    src/src/crypto: arithmetic of the field of 2^255 - 19 and of the scalars
    modulo the group order, the Edwards curve with its encodings and scalar
    multiplications, keys, signatures and ring signatures, the hashes (Keccak,
    the tree hash, BLAKE-256, Groestl and the slow hash of the proof of work
    with its AES), the stream cipher, the random generator and the difficulty.
    On it stand the data of the node in C++ (src/src/cryptonote, stream,
    common): transactions and blocks with their binary forms, addresses as
    text, amounts and rewards, the checks of transactions, and the main chain
    with its indexes.  A transaction is built with keys and ring signatures,
    checked against the outputs of the chain, and pushed in a block whose hash
    commits to it; blocks are linked, paid within the money supply and popped
    when the chain is reorganised.

    ** Files: the cryptographic core

    - Prelude: unsigned words ([wrap]) and signed words ([swrap]) as [Z], byte
      strings with their little-endian value [le], congruence [eqmod] as a
      setoid, list lemmas, notations (scope [cn_scope]), hint base [cn].
    - IntUtil: util.h ([mul128], [div128_32]).
    - Difficulty: difficulty.c ([check_hash], [next_difficulty]); [qsort] of
      the C library is the class [QSort] with its documented contract.
    - Keccak, KeccakSpec, KeccakProofs: keccak.c and hash.c; the step mappings
      of FIPS 202 as reference; the incremental interface against the one-shot
      sponge.
    - TreeHash: tree-hash.c, refined to a Merkle tree; binding.
    - Random: random.c as a state machine with reachability.
    - CInt: C integer arithmetic as a type class with four instances: wrapping
      machine words, checked words ([None] on overflow), exact integers, and
      intervals.  One definition of each limb function runs in all four; the
      interval run, evaluated once, shows that machine, checked and exact runs
      agree on all inputs within bounds.
    - BitField: bit fields of an integer, for loads and stores of limbs.
    - ChaCha: chacha.c as a stream cipher.  Blake256, BlakeProofs: blake256.c
      with its HMAC.  Groestl, GroestlProofs, GroestlStream: groestl.c.
    - Oaes, AesSpec, Aesb, OaesProofs: oaes_lib.c and aesb.c against FIPS 197.
    - IntSqrt: variant2_int_sqrt.h.
    - SlowHash, SlowPortable, SlowX86, SlowArm: the versions of slow-hash.c;
      SlowSpec, SlowProofs, SlowAes, SlowTheorems, SlowArmProofs: the algorithm
      on blocks and the agreement of all versions with it.
    - Fe, FeProofs: the [fe_*] functions; values modulo 2^255 - 19 and limb
      bounds.  Primality: 2^255 - 19 is prime (Pocklington certificates
      evaluated on bigZ).  FeField: inversion and square roots.
    - Sc, ScProofs: the [sc_*] functions modulo the group order.
    - Ge, GeProofs: points in the five coordinate systems, refined to extended
      Edwards coordinates.  EdAssoc, EdGroup: the curve is an abelian group
      (class [AbelianGroup]), completeness and associativity included.
    - GeMult, GeMultProofs: digit recodings and all scalar multiplications.
    - GeCodec: encoding and decoding of points.
    - GeSpec: what the point functions compute in the group.
    - GeData, GeDataProofs: the precomputed tables and the proof that they
      hold the multiples of the base point.
    - GeHash: hashing to the curve.  GroupOrder: the order of the curve.
    - Crypto, CryptoProofs, RingProofs: crypto.c; keys, derivations,
      signatures and ring signatures.

    ** Files: the node

    - Stream: stream/reader, writer, crypto.h, cryptonote.h; the classes
      [Readable] and [Format] state that what is written is read back and that
      nothing else is read.  Types: cryptonote/types.h.  Binary: the binary
      serialization (transaction/serializer/basics.cpp).  StreamCodec: the
      stream operators of stored blocks.  BlockStore: blockchain/block.hpp,
      refined to a list: in the cache for any items, from the files for items
      that are read back as written, which those of the program are not.
    - Base58, Hex: common/base58.cpp, binary.h, hex.cpp.  TxExtra:
      TransactionExtra.cpp.  Account: account.cpp.
    - Amounts: sums, fees, penalty, decimal parts and offsets.  Currency:
      currency.cpp.  MinerTx: [constructMinerTx].  Semantic: the checks of
      core.cpp on a transaction alone.
    - ChainIndex: pushing and popping a transaction in the indexes of
      blockchain.cpp.  Validate: the checks of a transaction against the chain.
      ChainPush: the part of [pushBlock] that changes the indexes.  Checkpoints:
      checkpoints.cpp, hardfork.cpp.  Block: block_entry.cpp.  BlockIndex:
      block_index and the indexes by time, count and height.  ChainState: the
      whole [pushBlock] and [popBlock] as steps on the state of the main chain.
    - TxBuild: [constructTransaction] and finding the outputs of an account.

    ** Correspondence

    Every function of the source is one definition with its name (a loop in it
    another one); a structure written through a pointer is returned; a C array
    or vector is a list, a map a [gmap]; [fe] is a list of ten limbs.  A failed
    [assert], an exception and an access out of range are error values ([None],
    [Stop], [Asserted], [Crashed]) apart from the result [false] where both
    occur; [abort] is the outcome [Aborted].  Random functions are in the state
    monad [rand] over the pool of random.c, failing ones in [result].  Code the
    source repeats in several functions (the reduction chain of the [sc_*], the
    carries of [fe_mul] and [fe_sq]) is one definition per stage.  The machine
    is little-endian with two's complement and arithmetic right shift.  The
    current time, the outcomes of allocations and the order [std::sort] gives
    to equal elements are arguments.

    ** What the theorems show

    Field and scalar code: value, bounds of the result, absence of overflow.
    Points: each function computes the group operation of the curve, encoding
    and decoding are inverse; scalar multiplications compute the multiples in
    the group.  Signatures and ring signatures are accepted when made with the
    keys, and what acceptance means.  Hashes and ciphers: agreement with the
    standards, independence of chunking, all versions of the slow hash agree.
    Formats: round trips, and only canonical strings are read.  Addresses and
    base 58: bijections.  Money: exact sums, rewards and fees, and the supply
    as an invariant, as long as the fees burnt by size penalties are covered by
    generated coins, which no code checks; what happens otherwise is part of
    the theorem.  Chain: pushing is atomic but for one error path, popping
    undoes it, and the invariant of the main chain by induction on its steps
    (above the last checkpoint every block has its work, below it only the
    hashes at the checkpoints themselves are compared); the hash of a block binds all of it; sparse chains lead to a common block.
    End to end: a constructed transaction is accepted by the chain and found by
    its receiver, and so is the miner's.

    ** Fuel and bounds

    Loops over arrays are folds.  The absorbing loop of [keccak] takes fuel;
    [keccak_fuel] (message length + 1) is enough for every block size except
    zero, where no fuel is.  [pow_loop] takes 63 doublings of a 64-bit word.
    [level_loop] and [random_loop] take the count and the length as fuel.
    A varint of 64 bits takes ten turns, the decimal digits of one twenty, the
    sparse chain of a 32-bit height 33; parsing an extra takes its length.
    Field elements are bounded by [fbnd k], k percent of the reduced limb
    size: 110 for stored points, 220 and 330 for inputs of encodings and
    products, as the comments of the source require.  The slow hash is proved
    for scratchpads of 16 * 2^k bytes, k from 3 to 28; the source has k = 17.
    The theorems on pushing and popping blocks ([block_ok]) are for blocks of
    at most 2^16 transactions, as the index of a transaction in its block has
    16 bits and wraps beyond, and for chains of at most [getPoolSize] = 1024
    blocks since the storage was created: up to there the block storage answers
    from memory as a list does, beyond it reads blocks back changed
    ([stored_block_corrupted]).

    ** Not modelled

    JH and Skein are parameters of the slow hash.  Big-endian byte swapping in
    util.h, [oaes_get_seed] and the allocation on Windows.  Reading
    /dev/urandom (an argument of [init_random]).  Of the node: the memory pool,
    alternative chains and the switch to them, caches and their files, message
    queues, the miner, p2p, RPC, wallets and the system layer: threads,
    observers, network and database glue around the code modelled here. *)

From Stdlib Require Export ZArith Lia ZifyBool ZifyNat.
From stdpp Require Export base list numbers.

#[global] Open Scope Z_scope.

Create HintDb cn discriminated.

(** ** Notations *)

Declare Scope cn_scope.
Delimit Scope cn_scope with cn.

Notation "a .^ b" := (Z.lxor a b) (at level 50, left associativity) : cn_scope.
Notation "a .& b" := (Z.land a b) (at level 40, left associativity) : cn_scope.
Notation "a .| b" := (Z.lor a b) (at level 50, left associativity) : cn_scope.
Notation "a .>> n" := (Z.shiftr a n) (at level 48, left associativity) : cn_scope.
Notation "a .<< n" := (Z.shiftl a n) (at level 48, left associativity) : cn_scope.
Notation "x |> f" := (f x) (at level 62, left associativity, only parsing) : cn_scope.
Open Scope cn_scope.

(** ** Unsigned machine words

    An unsigned [w]-bit integer is a [Z] in [0, 2^w); C's unsigned
    arithmetic reduces modulo [2^w]. *)

Definition wrap (w x : Z) : Z := x mod 2 ^ w.
Abbreviation u8 := (wrap 8).
Abbreviation u16 := (wrap 16).
Abbreviation u32 := (wrap 32).
Abbreviation u64 := (wrap 64).

(** Two's complement signed reading of the low [w] bits. *)
Definition swrap (w x : Z) : Z := (x + 2 ^ (w - 1)) mod 2 ^ w - 2 ^ (w - 1).
Abbreviation i8 := (swrap 8).
Abbreviation i32 := (swrap 32).
Abbreviation i64 := (swrap 64).

Definition is_word (w x : Z) : Prop := 0 <= x < 2 ^ w.
Abbreviation is_u8 := (is_word 8).
Abbreviation is_u32 := (is_word 32).
Abbreviation is_u64 := (is_word 64).

#[global] Instance is_word_dec w x : Decision (is_word w x).
Proof. unfold is_word. apply _. Defined.

Lemma wrap_word w x : 0 <= w -> is_word w (wrap w x).
Proof. intros. apply Z.mod_pos_bound. lia. Qed.

Lemma wrap_small w x : is_word w x -> wrap w x = x.
Proof. apply Z.mod_small. Qed.

Lemma wrap_wrap w x : wrap w (wrap w x) = wrap w x.
Proof. apply Zmod_mod. Qed.

Lemma wrap_add_l w x y : wrap w (wrap w x + y) = wrap w (x + y).
Proof. apply Zplus_mod_idemp_l. Qed.

Lemma wrap_add_r w x y : wrap w (x + wrap w y) = wrap w (x + y).
Proof. apply Zplus_mod_idemp_r. Qed.

Lemma swrap_small w x : 0 < w -> - 2 ^ (w - 1) <= x < 2 ^ (w - 1) -> swrap w x = x.
Proof.
  intros. unfold swrap. rewrite Z.mod_small; [lia|].
  replace (2 ^ w) with (2 * 2 ^ (w - 1)); [lia|].
  rewrite <- Z.pow_succ_r by lia. f_equal. lia.
Qed.

Lemma i8_small x : - 2 ^ 7 <= x < 2 ^ 7 -> i8 x = x.
Proof. apply (swrap_small 8). lia. Qed.

Lemma i32_small x : - 2 ^ 31 <= x < 2 ^ 31 -> i32 x = x.
Proof. apply (swrap_small 32). lia. Qed.

Lemma i64_small x : - 2 ^ 63 <= x < 2 ^ 63 -> i64 x = x.
Proof. apply (swrap_small 64). lia. Qed.

Lemma land_word w x y : 0 <= w -> is_word w x -> 0 <= y -> is_word w (x .& y).
Proof.
  intros Hw [Hx Hx'] Hy. split; [apply Z.land_nonneg; lia|].
  apply Z.le_lt_trans with x; [|lia]. clear w Hw Hx'.
  apply Z.ldiff_le; [lia|]. apply Z.bits_inj'. intros n Hn.
  rewrite Z.ldiff_spec, Z.land_spec, Z.bits_0.
  destruct (Z.testbit x n), (Z.testbit y n); reflexivity.
Qed.

Lemma word_iff_bits w x :
  0 <= w -> is_word w x <-> 0 <= x /\ forall n, w <= n -> Z.testbit x n = false.
Proof.
  intros Hw. split.
  - intros [H0 H1]. split; [lia|]. intros n Hn.
    destruct (Z.eq_dec x 0) as [->|]; [apply Z.bits_0|].
    apply Z.bits_above_log2; [lia|]. apply Z.lt_le_trans with w; [|lia].
    apply Z.log2_lt_pow2; lia.
  - intros [H0 H1]. split; [lia|]. destruct (Z.eq_dec x 0) as [->|]; [lia|].
    apply Z.log2_lt_pow2; [lia|]. apply Z.nle_gt. intros Hle.
    specialize (H1 _ Hle). rewrite Z.bit_log2 in H1; [discriminate|lia].
Qed.

Lemma lor_word w x y : 0 <= w -> is_word w x -> is_word w y -> is_word w (x .| y).
Proof.
  intros Hw Hx Hy. apply word_iff_bits in Hx as [? Hx], Hy as [? Hy]; [|lia..].
  apply word_iff_bits; [lia|]. split; [apply Z.lor_nonneg; lia|].
  intros n Hn. by rewrite Z.lor_spec, Hx, Hy.
Qed.

Lemma lxor_word w x y : 0 <= w -> is_word w x -> is_word w y -> is_word w (x .^ y).
Proof.
  intros Hw Hx Hy. apply word_iff_bits in Hx as [? Hx], Hy as [? Hy]; [|lia..].
  apply word_iff_bits; [lia|]. split; [apply Z.lxor_nonneg; lia|].
  intros n Hn. by rewrite Z.lxor_spec, Hx, Hy.
Qed.

Lemma shiftr_word w x n : 0 <= n -> is_word w x -> is_word w (x .>> n).
Proof.
  intros Hn [H0 H1]. rewrite Z.shiftr_div_pow2 by lia. split.
  - apply Z.div_pos; lia.
  - apply Z.le_lt_trans with x; [|lia].
    apply Z.div_le_upper_bound; [lia|]. nia.
Qed.

#[export] Hint Resolve land_word lor_word lxor_word shiftr_word wrap_word : cn.

(** Disjoint bits add. *)
Lemma lor_shiftl_add a b n : 0 <= n -> is_word n a -> a .| (b .<< n) = a + b * 2 ^ n.
Proof.
  intros Hn Ha. rewrite <- Z.shiftl_mul_pow2 by lia.
  rewrite <- Z.lxor_lor; [rewrite Z.add_nocarry_lxor; [done|]|];
    apply Z.bits_inj'; intros i Hi; rewrite Z.land_spec, Z.bits_0;
    apply word_iff_bits in Ha as [? Ha]; try lia;
    (destruct (Z.lt_ge_cases i n);
      [rewrite (Z.shiftl_spec_low b) by lia; apply andb_false_r
      |rewrite (Ha i) by lia; reflexivity]).
Qed.

Lemma land_mask x n : 0 <= n -> x .& (2 ^ n - 1) = x mod 2 ^ n.
Proof. intros. rewrite <- Z.land_ones by lia. by rewrite Z.ones_equiv, Z.sub_1_r. Qed.

(** ** Byte strings

    A byte is a [Z] in [0, 256), a buffer a list of bytes.  [le] reads a
    buffer as a little-endian number, [le_bytes n] writes [n] bytes. *)

Abbreviation byte := Z (only parsing).
Abbreviation bytes := (list Z) (only parsing).

Definition is_bytes (bs : bytes) : Prop := Forall is_u8 bs.
Definition is_bytes_n (n : nat) (bs : bytes) : Prop := is_bytes bs /\ length bs = n.
Abbreviation is_b32 := (is_bytes_n 32).

(** ** Buffers *)

(** [memcpy(buf + off, src, length src)]. *)
Definition memcpy (buf : bytes) (off : nat) (src : bytes) : bytes :=
  take off buf ++ src ++ drop (off + length src) buf.

Lemma length_memcpy buf off src :
  (off + length src <= length buf)%nat -> length (memcpy buf off src) = length buf.
Proof.
  intros. unfold memcpy. rewrite !length_app, length_take, length_drop. lia.
Qed.

Lemma take_memcpy buf off src :
  (off + length src <= length buf)%nat ->
  take (off + length src) (memcpy buf off src) = take off buf ++ src.
Proof.
  intros. unfold memcpy. rewrite app_assoc.
  rewrite <- (take_app_length (take off buf ++ src) (drop (off + length src) buf)) at 2.
  f_equal. rewrite length_app, length_take. lia.
Qed.

Fixpoint le (bs : bytes) : Z :=
  match bs with [] => 0 | b :: t => b + 256 * le t end.

Fixpoint le_bytes (n : nat) (x : Z) : bytes :=
  match n with O => [] | S n => (x mod 256) :: le_bytes n (x / 256) end.

Lemma length_le_bytes n x : length (le_bytes n x) = n.
Proof. revert x; induction n; intros; simpl; [done|]. by rewrite IHn. Qed.

Lemma le_bytes_is_bytes n x : is_bytes (le_bytes n x).
Proof.
  revert x; induction n; intros; simpl; constructor; [|apply IHn].
  apply (Z.mod_pos_bound x 256). lia.
Qed.

Lemma le_app xs ys : le (xs ++ ys) = le xs + 256 ^ Z.of_nat (length xs) * le ys.
Proof.
  induction xs as [|x xs IH]; simpl length; [rewrite Z.pow_0_r; simpl; lia|].
  rewrite Nat2Z.inj_succ, Z.pow_succ_r by lia. simpl. rewrite IH. ring.
Qed.

Lemma le_bound bs : is_bytes bs -> 0 <= le bs < 256 ^ Z.of_nat (length bs).
Proof.
  induction 1 as [|b bs [H0 H1] Hf IH]; [simpl; lia|].
  simpl length. rewrite Nat2Z.inj_succ, Z.pow_succ_r by lia. simpl.
  change (2 ^ 8) with 256 in H1. lia.
Qed.

Lemma le_le_bytes n x : le (le_bytes n x) = x mod 256 ^ Z.of_nat n.
Proof.
  revert x; induction n as [|n IH]; intros x; simpl le; [by rewrite Z.mod_1_r|].
  rewrite IH, Nat2Z.inj_succ, Z.pow_succ_r by lia.
  rewrite Z.rem_mul_r by lia. ring.
Qed.

Lemma le_bytes_le bs : is_bytes bs -> le_bytes (length bs) (le bs) = bs.
Proof.
  induction 1 as [|b bs [H0 H1] Hf IH]; simpl; [done|].
  change (2 ^ 8) with 256 in H1.
  rewrite (Z.mul_comm 256), Z.mod_add, Z.div_add by lia.
  rewrite Z.mod_small, Z.div_small by lia. by rewrite Z.add_0_l, IH.
Qed.

Lemma le_bytes_app a b x : le_bytes (a + b) x = le_bytes a x ++ le_bytes b (x / 256 ^ Z.of_nat a).
Proof.
  revert x. induction a as [|a IH]; intros x; [by rewrite Z.div_1_r|]. cbn [Nat.add le_bytes app]. f_equal.
  rewrite IH, Nat2Z.inj_succ, Z.pow_succ_r, Z.div_div by lia. done.
Qed.

Lemma le_bytes_mod n x : le_bytes n (x mod 256 ^ Z.of_nat n) = le_bytes n x.
Proof.
  rewrite <- le_le_bytes. rewrite <- (length_le_bytes n x) at 1. apply le_bytes_le, le_bytes_is_bytes.
Qed.

(** A 64-bit word written as two 32-bit words. *)
Lemma le_bytes_words lo hi : is_u32 lo -> le_bytes 4 lo ++ le_bytes 4 hi = le_bytes 8 (lo + 2 ^ 32 * hi).
Proof.
  intros [L0 L1]. rewrite (le_bytes_app 4 4). change (256 ^ Z.of_nat 4) with (2 ^ 32). rewrite <- (le_bytes_mod 4 (lo + _)).
  change (256 ^ Z.of_nat 4) with (2 ^ 32). rewrite (Z.mul_comm (2 ^ 32)), Z.mod_add, Z.div_add by lia. by rewrite Z.mod_small, Z.div_small by lia.
Qed.

Lemma le_inj xs ys :
  is_bytes xs -> is_bytes ys -> length xs = length ys -> le xs = le ys -> xs = ys.
Proof.
  intros Hx Hy Hl He. rewrite <- (le_bytes_le xs), <- (le_bytes_le ys) by done.
  by rewrite Hl, He.
Qed.

Lemma wrap_lxor w x y : 0 <= w -> wrap w (x .^ y) = wrap w x .^ wrap w y.
Proof.
  intros Hw. unfold wrap. apply Z.bits_inj'. intros n Hn. rewrite Z.lxor_spec, <- !Z.land_ones by done.
  rewrite !Z.land_spec, Z.lxor_spec. by destruct (Z.testbit x n), (Z.testbit y n), (Z.testbit (Z.ones w) n).
Qed.

Lemma le_bytes_lxor n x y : le_bytes n (x .^ y) = zip_with Z.lxor (le_bytes n x) (le_bytes n y).
Proof.
  revert x y. induction n as [|n IH]; intros x y; [done|]. cbn [le_bytes zip_with]. f_equal.
  - by apply (wrap_lxor 8).
  - rewrite <- IH. f_equal. change 256 with (2 ^ 8). rewrite <- !Z.shiftr_div_pow2 by lia. apply Z.shiftr_lxor.
Qed.

(** ** Lists *)

Lemma mjoin_cons {A} (x : list A) l : mjoin (x :: l) = x ++ mjoin l.
Proof. reflexivity. Qed.

Lemma mjoin_app {A} (l k : list (list A)) : mjoin (l ++ k) = mjoin l ++ mjoin k.
Proof. induction l; simpl; [done|]. by rewrite IHl, app_assoc. Qed.

Lemma drop_lookup_total `{Inhabited A} (l : list A) n :
  (n < length l)%nat -> drop n l = l !!! n :: drop (S n) l.
Proof. intros Hn. apply drop_S. by apply list_lookup_lookup_total_lt. Qed.

Lemma take_lookup_total `{Inhabited A} (l : list A) n :
  (n < length l)%nat -> take (S n) l = take n l ++ [l !!! n].
Proof. intros Hn. apply take_S_r. by apply list_lookup_lookup_total_lt. Qed.

Lemma sixteen (x : list Z) : length x = 16%nat -> exists a b c d e f g h i j k l m n o p,
  x = [a; b; c; d; e; f; g; h; i; j; k; l; m; n; o; p].
Proof.
  intros H. do 16 (destruct x as [|? x]; [discriminate|]). destruct x; [|discriminate].
  by repeat eexists.
Qed.

Lemma zip_lxor_bytes l k : is_bytes l -> is_bytes k -> is_bytes (zip_with Z.lxor l k).
Proof.
  intros Hl. revert k. induction Hl as [|x l Hx Hl IH]; intros [|y k] Hk; cbn; try constructor.
  - apply Forall_cons_1 in Hk as [Hy _]. apply (lxor_word 8); [lia|exact Hx|exact Hy].
  - apply Forall_cons_1 in Hk as [_ Hk]. by apply IH.
Qed.

Lemma foldl_seq_ext {A} (f g : A -> nat -> A) x a n :
  (forall y i, (a <= i < a + n)%nat -> f y i = g y i) -> foldl f x (seq a n) = foldl g x (seq a n).
Proof.
  revert x a. induction n as [|n IH]; intros x a H; [done|]. cbn [seq foldl]. rewrite H by lia.
  apply IH. intros. apply H. lia.
Qed.

Lemma is_bytes_take n m c : is_bytes_n n c -> (m <= n)%nat -> is_bytes_n m (take m c).
Proof. intros [Hb Hl] H. split; [by apply Forall_take|rewrite length_take; lia]. Qed.
Lemma is_bytes_drop n m c : is_bytes_n n c -> is_bytes_n (n - m) (drop m c).
Proof. intros [Hb Hl]. split; [by apply Forall_drop|rewrite length_drop; lia]. Qed.
Lemma is_bytes_app n m c d : is_bytes_n n c -> is_bytes_n m d -> is_bytes_n (n + m) (c ++ d).
Proof. intros [Hb Hl] [Hb' Hl']. split; [by apply Forall_app|rewrite length_app; lia]. Qed.

(** ** Checked bytes *)

(** A property of bytes is checked on all 256. *)
Definition all_bytes : bytes := Z.of_nat <$> seq 0 256.

Lemma byte_all (P : Z -> bool) : forallb P all_bytes = true -> forall b, is_u8 b -> P b = true.
Proof.
  intros H b [H0 H1]. rewrite forallb_forall in H. apply H. apply list_elem_of_In, list_elem_of_fmap.
  exists (Z.to_nat b). change (2 ^ 8) with 256 in H1. split; [lia|]. apply elem_of_seq. lia.
Qed.

Definition byteb (b : Z) : bool := (0 <=? b) && (b <? 256).
Lemma byteb_u8 b : byteb b = true -> is_u8 b.
Proof. unfold byteb, is_word. change (2 ^ 8) with 256. lia. Qed.

Lemma bytes_forallb l : forallb byteb l = true -> is_bytes l.
Proof. intros H. apply list.Forall_forall. intros x Hx. apply byteb_u8. rewrite forallb_forall in H. by apply H, list_elem_of_In. Qed.

Lemma bytes_check_n n l : (length l =? n)%nat && forallb byteb l = true -> is_bytes_n n l.
Proof. intros [Hl%Nat.eqb_eq Hb]%andb_true_iff. split; [by apply bytes_forallb|done]. Qed.

(** ** Congruence *)

Definition eqmod (m a b : Z) : Prop := a mod m = b mod m.
Notation "a =[ m ]= b" := (eqmod m a b) (at level 70, no associativity) : cn_scope.

#[global] Instance eqmod_equiv m : Equivalence (eqmod m).
Proof. split; unfold eqmod; repeat intro; congruence. Qed.

Lemma eqmod_divide m a b : m <> 0 -> a =[m]= b <-> (m | a - b).
Proof.
  intros Hm. unfold eqmod. rewrite <- Z.mod_divide by done. split; intros H.
  - by rewrite Zminus_mod, H, Z.sub_diag, Z.mod_0_l.
  - apply Z.mod_divide in H as [k Hk]; [|done].
    replace a with (b + k * m) by lia. by rewrite Z.mod_add.
Qed.

Lemma eqmod_mul_intro m k a b : m <> 0 -> a = b + k * m -> a =[m]= b.
Proof. intros Hm ->. unfold eqmod. by rewrite Z.mod_add. Qed.

#[global] Instance eqmod_add m : Proper (eqmod m ==> eqmod m ==> eqmod m) Z.add.
Proof. intros a a' Ha b b' Hb. unfold eqmod in *. by rewrite Zplus_mod, Ha, Hb, <- Zplus_mod. Qed.
#[global] Instance eqmod_sub m : Proper (eqmod m ==> eqmod m ==> eqmod m) Z.sub.
Proof. intros a a' Ha b b' Hb. unfold eqmod in *. by rewrite Zminus_mod, Ha, Hb, <- Zminus_mod. Qed.
#[global] Instance eqmod_mul m : Proper (eqmod m ==> eqmod m ==> eqmod m) Z.mul.
Proof. intros a a' Ha b b' Hb. unfold eqmod in *. by rewrite Zmult_mod, Ha, Hb, <- Zmult_mod. Qed.
#[global] Instance eqmod_opp m : Proper (eqmod m ==> eqmod m) Z.opp.
Proof. intros a a' Ha. rewrite <- (Z.sub_0_l a), <- (Z.sub_0_l a'). by apply eqmod_sub. Qed.
#[global] Instance eqmod_pow m : Proper (eqmod m ==> eq ==> eqmod m) Z.pow.
Proof.
  intros a a' Ha b ? <-. destruct (Z.lt_ge_cases b 0); [by rewrite !Z.pow_neg_r|].
  pattern b. apply natlike_ind; [done| |done]. intros x Hx IH.
  rewrite !Z.pow_succ_r by done. apply eqmod_mul; [done|exact IH].
Qed.

Lemma eqmod_mod m a : a mod m =[m]= a.
Proof. apply Zmod_mod. Qed.

Lemma eqmod_small m a b : 0 <= a < m -> 0 <= b < m -> a =[m]= b -> a = b.
Proof. unfold eqmod. intros. rewrite <- (Z.mod_small a m), <- (Z.mod_small b m) by done. done. Qed.
