(* ===== verification/IntUtil.v ===== *)
(** * Integer helpers of src/src/crypto/util.h

    Rotations, the 64x64 -> 128 bit product [mul128] and the
    128/32 bit long division [div128_32], on unsigned words kept as [Z]
    with their wrap-around written out.  The machine is little-endian, so
    [swap64le] and [swap32le] are the identity. *)

From S2P Require Import Prelude.

Definition rol32 (x r : Z) : Z := u32 (x .<< (r .& 31)) .| (x .>> (- r .& 31)).

Definition rol64 (x r : Z) : Z := u64 (x .<< (r .& 63)) .| (x .>> (- r .& 63)).

Definition hi_dword (val : Z) : Z := val .>> 32.

Definition lo_dword (val : Z) : Z := val .& 0xFFFFFFFF.

(** [mul128 multiplier multiplicand] is the pair (returned low word,
    [*product_hi]). *)
Definition mul128 (multiplier multiplicand : Z) : Z * Z :=
  let a := hi_dword multiplier in
  let b := lo_dword multiplier in
  let c := hi_dword multiplicand in
  let d := lo_dword multiplicand in
  let ac := u64 (a * c) in
  let ad := u64 (a * d) in
  let bc := u64 (b * c) in
  let bd := u64 (b * d) in
  let adbc := u64 (ad + bc) in
  let adbc_carry := if adbc <? ad then 1 else 0 in
  let product_lo := u64 (bd + u64 (adbc .<< 32)) in
  let product_lo_carry := if product_lo <? bd then 1 else 0 in
  let product_hi :=
    u64 (u64 (u64 (ac + (adbc .>> 32)) + u64 (adbc_carry .<< 32)) + product_lo_carry) in
  (product_lo, product_hi).

(** Returns (quotient, new [*remainder]); the remainder is stored in 32 bits. *)
Definition div_with_reminder (dividend divisor remainder : Z) : Z * Z :=
  let dividend := dividend .| u64 (remainder .<< 32) in
  (dividend / divisor, u32 (dividend mod divisor)).

(** Returns ([*quotient_hi], [*quotient_lo], remainder). *)
Definition div128_32 (dividend_hi dividend_lo divisor : Z) : Z * Z * Z :=
  let '(q3, r3) := div_with_reminder (hi_dword dividend_hi) divisor 0 in
  let '(q2, r2) := div_with_reminder (lo_dword dividend_hi) divisor r3 in
  let '(q1, r1) := div_with_reminder (hi_dword dividend_lo) divisor r2 in
  let '(q0, r0) := div_with_reminder (lo_dword dividend_lo) divisor r1 in
  (u64 (q3 .<< 32) .| q2, u64 (q1 .<< 32) .| q0, r0).

(** ** Words split in halves *)

Lemma hi_dword_eq x : hi_dword x = x / 2 ^ 32.
Proof. unfold hi_dword. by rewrite Z.shiftr_div_pow2. Qed.

Lemma lo_dword_eq x : lo_dword x = x mod 2 ^ 32.
Proof. unfold lo_dword. change 0xFFFFFFFF with (2 ^ 32 - 1). by rewrite land_mask. Qed.

Lemma dword_split x :
  is_u64 x ->
  x = x / 2 ^ 32 * 2 ^ 32 + x mod 2 ^ 32 /\
  0 <= x / 2 ^ 32 < 2 ^ 32 /\ 0 <= x mod 2 ^ 32 < 2 ^ 32.
Proof.
  intros [H0 H1]. split; [|split].
  - rewrite Z.mul_comm. by apply Z.div_mod.
  - split; [by apply Z.div_pos|]. apply Z.div_lt_upper_bound; lia.
  - by apply Z.mod_pos_bound.
Qed.

Lemma mul128_ok a b :
  is_u64 a -> is_u64 b ->
  let '(lo, hi) := mul128 a b in
  is_u64 lo /\ is_u64 hi /\ hi * 2 ^ 64 + lo = a * b /\
  u64 (hi_dword a * hi_dword b) <= hi.
Proof.
  intros Ha Hb. unfold mul128. rewrite !hi_dword_eq, !lo_dword_eq.
  destruct (dword_split a Ha) as (Ea & Ha1 & Ha0), (dword_split b Hb) as (Eb & Hb1 & Hb0).
  revert Ea Ha1 Ha0 Eb Hb1 Hb0.
  generalize (a / 2 ^ 32), (a mod 2 ^ 32), (b / 2 ^ 32), (b mod 2 ^ 32).
  intros a1 a0 b1 b0 -> ? ? -> ? ?. clear Ha Hb.
  rewrite !(wrap_small 64 (_ * _)) by (unfold is_word; nia).
  rewrite !Z.shiftl_mul_pow2, !Z.shiftr_div_pow2 by lia.
  assert (0 <= a1 * b0 <= (2 ^ 32 - 1) * (2 ^ 32 - 1)) by nia.
  assert (0 <= a0 * b1 <= (2 ^ 32 - 1) * (2 ^ 32 - 1)) by nia.
  assert (0 <= a0 * b0 <= (2 ^ 32 - 1) * (2 ^ 32 - 1)) by nia.
  assert (0 <= a1 * b1 <= (2 ^ 32 - 1) * (2 ^ 32 - 1)) by nia.
  assert (E : (a1 * 2 ^ 32 + a0) * (b1 * 2 ^ 32 + b0)
    = a1 * b1 * 2 ^ 64 + (a1 * b0 + a0 * b1) * 2 ^ 32 + a0 * b0) by ring.
  rewrite E. clear E.
  set (ad := a1 * b0) in *. set (bc := a0 * b1) in *.
  set (bd := a0 * b0) in *. set (ac := a1 * b1) in *. clearbody ad bc bd ac.
  unfold wrap, is_word.
  destruct (Z.ltb_spec ((ad + bc) mod 2 ^ 64) ad);
    destruct (Z.ltb_spec ((bd + ((ad + bc) mod 2 ^ 64 * 2 ^ 32) mod 2 ^ 64) mod 2 ^ 64) bd);
    Z.to_euclidean_division_equations; lia.
Qed.

Lemma div_with_reminder_ok dw d r :
  is_u32 dw -> 0 < d < 2 ^ 32 -> 0 <= r < d ->
  let '(q, r') := div_with_reminder dw d r in
  is_u32 q /\ 0 <= r' < d /\ r * 2 ^ 32 + dw = q * d + r'.
Proof.
  intros Hdw Hd Hr. unfold div_with_reminder.
  rewrite wrap_small.
  2:{ rewrite Z.shiftl_mul_pow2 by lia. unfold is_word. lia. }
  rewrite lor_shiftl_add by (done || lia).
  set (n := dw + r * 2 ^ 32). unfold is_word in *.
  assert (Hn : 0 <= n < d * 2 ^ 32) by (unfold n; nia).
  pose proof (Z.mod_pos_bound n d) as Hm. pose proof (Z.div_mod n d) as He.
  rewrite wrap_small by (unfold is_word; lia). split_and!;
    first [lia | apply Z.div_pos; lia | apply Z.div_lt_upper_bound; lia].
Qed.

Lemma join_dwords hi lo :
  is_u32 hi -> is_u32 lo ->
  is_u64 (u64 (hi .<< 32) .| lo) /\ u64 (hi .<< 32) .| lo = hi * 2 ^ 32 + lo.
Proof.
  unfold is_word. intros Hh Hl.
  rewrite wrap_small by (rewrite Z.shiftl_mul_pow2 by lia; unfold is_word; lia).
  rewrite Z.lor_comm, lor_shiftl_add by (unfold is_word; lia). lia.
Qed.

Lemma dword_halves x : is_u64 x -> is_u32 (hi_dword x) /\ is_u32 (lo_dword x) /\
  x = hi_dword x * 2 ^ 32 + lo_dword x.
Proof.
  intros Hx. rewrite hi_dword_eq, lo_dword_eq.
  by destruct (dword_split x Hx) as (? & ? & ?).
Qed.

(** Schoolbook division in base [2^32]: quotient and remainder are exact. *)
Lemma div128_32_ok hi lo d :
  is_u64 hi -> is_u64 lo -> 0 < d < 2 ^ 32 ->
  let '(qhi, qlo, r) := div128_32 hi lo d in
  is_u64 qhi /\ is_u64 qlo /\ 0 <= r < d /\
  hi * 2 ^ 64 + lo = (qhi * 2 ^ 64 + qlo) * d + r.
Proof.
  intros Hhi Hlo Hd. unfold div128_32.
  destruct (dword_halves hi Hhi) as (H3 & H2 & Ehi).
  destruct (dword_halves lo Hlo) as (H1 & H0 & Elo).
  pose proof (div_with_reminder_ok (hi_dword hi) d 0 H3 Hd) as D3.
  destruct (div_with_reminder (hi_dword hi) d 0) as [q3 r3].
  destruct D3 as (? & ? & E3); [lia|].
  pose proof (div_with_reminder_ok (lo_dword hi) d r3 H2 Hd) as D2.
  destruct (div_with_reminder (lo_dword hi) d r3) as [q2 r2].
  destruct D2 as (? & ? & E2); [lia|].
  pose proof (div_with_reminder_ok (hi_dword lo) d r2 H1 Hd) as D1.
  destruct (div_with_reminder (hi_dword lo) d r2) as [q1 r1].
  destruct D1 as (? & ? & E1); [lia|].
  pose proof (div_with_reminder_ok (lo_dword lo) d r1 H0 Hd) as D0.
  destruct (div_with_reminder (lo_dword lo) d r1) as [q0 r0].
  destruct D0 as (? & ? & E0); [lia|].
  destruct (join_dwords q3 q2) as [Wh Eh], (join_dwords q1 q0) as [Wl El]; try done.
  split; [done|]. split; [done|]. split; [done|].
  rewrite Eh, El, Ehi, Elo. clear -E3 E2 E1 E0.
  lia.
Qed.

(** ** Claims *)

(** [mul128] returns the two words of the exact 128-bit product of two
    64-bit words; no carry is lost. *)
Theorem mul128_exact a b : is_u64 a -> is_u64 b ->
  let '(lo, hi) := mul128 a b in is_u64 lo /\ is_u64 hi /\ hi * 2 ^ 64 + lo = a * b.
Proof.
  intros Ha Hb. pose proof (mul128_ok a b Ha Hb) as H. destruct (mul128 a b). tauto.
Qed.

Lemma mul128_exact_witness :
  let '(lo, hi) := mul128 (2 ^ 64 - 1) (2 ^ 64 - 1) in
  is_u64 lo /\ is_u64 hi /\ hi * 2 ^ 64 + lo = (2 ^ 64 - 1) * (2 ^ 64 - 1).
Proof. apply (mul128_exact (2 ^ 64 - 1) (2 ^ 64 - 1)); vm_compute; intuition congruence. Defined.

(** [div128_32] is the long division of a 128-bit number by a non-zero
    32-bit divisor: the quotient words and the remainder are exact. *)
Theorem div128_32_exact hi lo d : is_u64 hi -> is_u64 lo -> 0 < d < 2 ^ 32 ->
  let '(qhi, qlo, r) := div128_32 hi lo d in
  is_u64 qhi /\ is_u64 qlo /\
  qhi * 2 ^ 64 + qlo = (hi * 2 ^ 64 + lo) / d /\ r = (hi * 2 ^ 64 + lo) mod d.
Proof.
  intros Hh Hl Hd. pose proof (div128_32_ok hi lo d Hh Hl Hd) as H.
  destruct (div128_32 hi lo d) as [[qhi qlo] r]. destruct H as (? & ? & Hr & ->).
  split_and!; [done|done|..].
  - rewrite Z.div_add_l, (Z.div_small r) by lia. lia.
  - by rewrite Z.add_comm, Z.mod_add, Z.mod_small by lia.
Qed.

Lemma div128_32_exact_witness :
  let '(qhi, qlo, r) := div128_32 (2 ^ 64 - 1) 12345 (2 ^ 32 - 5) in
  is_u64 qhi /\ is_u64 qlo /\
  qhi * 2 ^ 64 + qlo = ((2 ^ 64 - 1) * 2 ^ 64 + 12345) / (2 ^ 32 - 5) /\
  r = ((2 ^ 64 - 1) * 2 ^ 64 + 12345) mod (2 ^ 32 - 5).
Proof.
  apply (div128_32_exact (2 ^ 64 - 1) 12345 (2 ^ 32 - 5)); vm_compute; intuition congruence.
Defined.
