(* ===== verification/Difficulty.v ===== *)
(** * Proof-of-work difficulty: src/src/crypto/difficulty.c

    [check_hash] decides whether a 256-bit hash satisfies a difficulty
    with 64-bit words and explicit carries; [next_difficulty] computes the
    next block's difficulty from the timestamps and the cumulative
    difficulties of a window of blocks.  [next_difficulty] ends in an
    error value where one of the [assert]s of the code fails.  [qsort] is
    the C library's: it is a parameter of the model and its documented
    behaviour is the hypothesis [qsort_spec]. *)

From stdpp Require Import sorting.
From S2P Require Import Prelude IntUtil.

(** ** check_hash *)

(** The [__int128] branch: (low, high). *)
Definition mul (a b : Z) : Z * Z :=
  let res := a * b in (u64 res, u64 (res .>> 64)).

Definition cadd (a b : Z) : bool := u64 (a + b) <? a.

Definition cadc (a b : Z) (c : bool) : bool :=
  (u64 (a + b) <? a) || (c && (u64 (a + b) =? 2 ^ 64 - 1)).

(** [((const uint64_t * )hash)[i]] on a little-endian machine. *)
Definition word64 (bs : bytes) (i : nat) : Z := le (take 8 (drop (8 * i) bs)).

Definition check_hash (hash : bytes) (difficulty : Z) : bool :=
  let '(top, high) := mul (word64 hash 3) difficulty in
  if negb (high =? 0) then false else
  let '(low, cur) := mul (word64 hash 0) difficulty in
  let '(low, high) := mul (word64 hash 1) difficulty in
  let carry := cadd cur low in
  let cur := high in
  let '(low, high) := mul (word64 hash 2) difficulty in
  let carry := cadc cur low carry in
  let carry := cadc high top carry in
  negb carry.

Lemma mul_ok a b :
  is_u64 a -> is_u64 b ->
  let '(lo, hi) := mul a b in
  is_u64 lo /\ is_u64 hi /\ hi * 2 ^ 64 + lo = a * b.
Proof.
  intros [Ha Ha'] [Hb Hb']. unfold mul, is_word.
  assert (0 <= a * b < 2 ^ 64 * 2 ^ 64) as [H0 H1] by nia.
  rewrite (wrap_small 64 (_ .>> _)); rewrite Z.shiftr_div_pow2 by lia.
  - unfold wrap. pose proof (Z.mod_pos_bound (a * b) (2 ^ 64)).
    pose proof (Z.div_mod (a * b) (2 ^ 64)).
    assert (0 <= a * b / 2 ^ 64 < 2 ^ 64); [|lia].
    split; [apply Z.div_pos; lia|apply Z.div_lt_upper_bound; lia].
  - split; [apply Z.div_pos; lia|apply Z.div_lt_upper_bound; lia].
Qed.

(** The two branches of the [#if] compute the same product. *)
Lemma mul_mul128 a b : is_u64 a -> is_u64 b -> mul a b = mul128 a b.
Proof.
  intros Ha Hb. pose proof (mul_ok a b Ha Hb) as H. pose proof (mul128_ok a b Ha Hb) as H'.
  destruct (mul a b) as [lo hi], (mul128 a b) as [lo' hi'].
  destruct H as ([? ?] & [? ?] & ?), H' as ([? ?] & [? ?] & ? & ?).
  assert (hi = hi') as -> by nia. f_equal; lia.
Qed.

Lemma cadd_ok a b :
  is_u64 a -> is_u64 b -> cadd a b = (2 ^ 64 <=? a + b).
Proof.
  unfold is_word, cadd, wrap. intros. destruct (Z.leb_spec (2 ^ 64) (a + b)).
  - replace ((a + b) mod 2 ^ 64) with (a + b - 2 ^ 64); [lia|].
    rewrite <- (Z.mod_small (a + b - 2 ^ 64) (2 ^ 64)) by lia.
    rewrite <- Zminus_mod_idemp_r, Z_mod_same_full. f_equal. lia.
  - rewrite Z.mod_small; lia.
Qed.

Lemma cadc_ok a b c :
  is_u64 a -> is_u64 b -> cadc a b c = (2 ^ 64 <=? a + b + Z.b2z c).
Proof.
  intros Ha Hb. unfold cadc. pose proof (cadd_ok a b Ha Hb) as E. unfold cadd in E.
  rewrite E. unfold is_word, wrap in *. destruct (Z.leb_spec (2 ^ 64) (a + b)).
  - destruct c; simpl; lia.
  - rewrite Z.mod_small by lia. destruct c; simpl; lia.
Qed.

Lemma word64_u64 bs i : is_bytes bs -> length bs = 32%nat -> (i < 4)%nat -> is_u64 (word64 bs i).
Proof.
  intros Hb Hl Hi. unfold word64.
  assert (He : length (take 8 (drop (8 * i) bs)) = 8%nat)
    by (rewrite length_take, length_drop; lia).
  pose proof (le_bound (take 8 (drop (8 * i) bs))) as H. rewrite He in H.
  apply H. apply Forall_take, Forall_drop, Hb.
Qed.

Lemma le_words bs : length bs = 32%nat ->
  le bs = word64 bs 0 + 2 ^ 64 * word64 bs 1 + 2 ^ 128 * word64 bs 2 + 2 ^ 192 * word64 bs 3.
Proof.
  intros Hl. do 33 (destruct bs as [|? bs]; try discriminate Hl).
  unfold word64. simpl. ring.
Qed.

(** The boolean of the code is the mathematical test [hash * difficulty < 2^256]. *)
Lemma check_hash_spec hash difficulty :
  is_bytes hash -> length hash = 32%nat -> is_u64 difficulty ->
  check_hash hash difficulty = (le hash * difficulty <? 2 ^ 256).
Proof.
  intros Hb Hl Hd. rewrite (le_words hash Hl). unfold check_hash.
  pose proof (mul_ok _ _ (word64_u64 hash 0 Hb Hl ltac:(lia)) Hd) as M0.
  pose proof (mul_ok _ _ (word64_u64 hash 1 Hb Hl ltac:(lia)) Hd) as M1.
  pose proof (mul_ok _ _ (word64_u64 hash 2 Hb Hl ltac:(lia)) Hd) as M2.
  pose proof (mul_ok _ _ (word64_u64 hash 3 Hb Hl ltac:(lia)) Hd) as M3.
  destruct (mul (word64 hash 0) difficulty) as [l0 h0].
  destruct (mul (word64 hash 1) difficulty) as [l1 h1].
  destruct (mul (word64 hash 2) difficulty) as [l2 h2].
  destruct (mul (word64 hash 3) difficulty) as [l3 h3].
  destruct M0 as (? & ? & E0), M1 as (? & ? & E1), M2 as (? & ? & E2), M3 as (? & ? & E3).
  match goal with |- _ = (?a <? _) =>
    replace a with (l0 + 2 ^ 64 * (h0 + l1) + 2 ^ 128 * (h1 + l2) + 2 ^ 192 * (h2 + l3)
                    + 2 ^ 256 * h3) by lia end.
  rewrite cadd_ok, !cadc_ok by done. unfold is_word in *. clear -H H0 H1 H2 H3 H4 H5 H6.
  destruct (Z.eqb_spec h3 0); simpl negb; cbv iota; [|symmetry; apply Z.ltb_ge; lia].
  destruct (Z.leb_spec (2 ^ 64) (h0 + l1)); cbn [Z.b2z];
    (match goal with |- context [(2 ^ 64 <=? h1 + l2 + ?c)] =>
       destruct (Z.leb_spec (2 ^ 64) (h1 + l2 + c)) end); cbn [Z.b2z];
    (match goal with |- context [(2 ^ 64 <=? h2 + l3 + ?c)] =>
       destruct (Z.leb_spec (2 ^ 64) (h2 + l3 + c)) end); cbn [negb]; symmetry;
    first [apply Z.ltb_ge; lia | apply Z.ltb_lt; lia].
Qed.

(** ** next_difficulty *)

(** [difficulty_config_t]. *)
Record difficulty_config := {
  target : Z; (* uint8_t *)
  cut : Z;    (* uint8_t *)
  lag : Z;    (* uint16_t *)
  window : Z; (* uint32_t *)
}.

(** The comparison function handed to [qsort]: it reads the low four bytes
    of each 64-bit timestamp as an [int] and subtracts. *)
Definition compare (a b : Z) : Z := i32 (i32 a - i32 b).

(** A comparison function that orders the elements of [l], as the C
    standard requires of [qsort]'s argument. *)
Record orders (cmp : Z -> Z -> Z) (l : list Z) : Prop := {
  orders_opp a b : a ∈ l -> b ∈ l -> (cmp a b <= 0 <-> 0 <= cmp b a);
  orders_trans a b c :
    a ∈ l -> b ∈ l -> c ∈ l -> cmp a b <= 0 -> cmp b c <= 0 -> cmp a c <= 0;
}.

(** The documented contract of the C library's [qsort]. *)
Class QSort := {
  qsort : (Z -> Z -> Z) -> list Z -> list Z;
  qsort_perm cmp l : orders cmp l -> qsort cmp l ≡ₚ l;
  qsort_sorted cmp l :
    orders cmp l -> StronglySorted (fun a b => cmp a b <= 0) (qsort cmp l);
}.

Section next_difficulty.
Context `{QSort}.

(** The indices kept after trimming [cut] outliers at both ends. *)
Definition cut_range (config : difficulty_config) (length : Z) : Z * Z :=
  let kept := u32 (window config - 2 * cut config) in
  if length <=? kept then (0, length)
  else let cutBegin := (length - kept + 1) / 2 in (cutBegin, cutBegin + kept).

(** [None] is a failed [assert].  The timestamps array is sorted in place
    (only its first [timestamps_length] entries); the sorted array is
    returned beside the difficulty. *)
Definition next_difficulty (timestamps : list Z) (timestamps_length : Z)
    (cumulativeDifficulties : list Z) (config : difficulty_config)
    : option (Z * list Z) :=
  if negb (2 <=? window config) then None else
  let timestamps_length :=
    if window config <? timestamps_length then u16 (window config) else timestamps_length in
  let length := timestamps_length in
  if negb (length <=? window config) then None else
  if length <=? 1 then Some (1, timestamps) else
  let n := Z.to_nat timestamps_length in
  let timestamps := qsort compare (take n timestamps) ++ drop n timestamps in
  if negb (2 * cut config <=? u32 (window config - 2)) then None else
  let '(cutBegin, cutEnd) := cut_range config length in
  if negb ((cutBegin + 2 <=? cutEnd) && (cutEnd <=? length)) then None else
  let at_ (l : list Z) (i : Z) := l !!! Z.to_nat i in
  let timeSpan := u64 (at_ timestamps (cutEnd - 1) - at_ timestamps cutBegin) in
  let timeSpan := if timeSpan =? 0 then 1 else timeSpan in
  let totalWork :=
    u64 (at_ cumulativeDifficulties (cutEnd - 1) - at_ cumulativeDifficulties cutBegin) in
  if negb (0 <? totalWork) then None else
  let '(low, high) := mul128 totalWork (target config) in
  if negb (high =? 0) || (u64 (low + timeSpan - 1) <? low) then Some (0, timestamps)
  else Some (u64 (low + timeSpan - 1) / timeSpan, timestamps).
End next_difficulty.

(** ** Correctness of next_difficulty *)

Record config_ok (config : difficulty_config) : Prop := {
  config_target : is_u8 (target config);
  config_cut : is_u8 (cut config);
  config_window : is_u32 (window config);
  config_kept : 2 * cut config <= window config - 2;
}.

(** A timestamp read as an [int] keeps its value (until the year 2038). *)
Definition small_time (t : Z) : Prop := 0 <= t < 2 ^ 31.

Lemma compare_small a b : small_time a -> small_time b -> compare a b = a - b.
Proof.
  unfold small_time, compare. intros. rewrite !i32_small by (rewrite ?i32_small; lia).
  done.
Qed.

Lemma compare_orders l : Forall small_time l -> orders compare l.
Proof.
  rewrite list.Forall_forall. intros Hl.
  split.
  - intros a b Ha Hb. rewrite !compare_small by auto. lia.
  - intros a b c Ha Hb Hc. rewrite !compare_small by auto. lia.
Qed.

Lemma qsort_small `{QSort} l : Forall small_time l -> qsort compare l = merge_sort (≤) l.
Proof.
  intros Hl. pose proof (compare_orders l Hl) as Ho.
  pose proof (qsort_perm compare l Ho) as Hp.
  apply (StronglySorted_unique (≤)).
  - assert (Hs : Forall small_time (qsort compare l)) by (by rewrite Hp).
    pose proof (qsort_sorted compare l Ho) as HS. clear Hp Ho Hl.
    induction HS as [|a q HS IH Ha]; [constructor|].
    inversion_clear Hs as [|? ? Hs1 Hs2]. constructor.
    + by apply IH.
    + rewrite list.Forall_forall in Ha, Hs2 |- *. intros x Hx. specialize (Ha x Hx).
      rewrite compare_small in Ha by auto. lia.
  - apply StronglySorted_merge_sort; apply _.
  - by rewrite Hp, merge_sort_Permutation.
Qed.

(** The cut keeps the middle of the sorted window: at least two entries,
    at most one more cut at the front than at the back. *)
Lemma cut_range_ok config n :
  config_ok config -> 2 <= n <= window config ->
  let '(b, e) := cut_range config n in
  0 <= b /\ b + 2 <= e <= n /\
  e - b = Z.min n (window config - 2 * cut config) /\ 0 <= b - (n - e) <= 1.
Proof.
  intros [Ht Hc Hw Hk] Hn. unfold cut_range, is_word in *.
  rewrite wrap_small by (unfold is_word; lia).
  destruct (Z.leb_spec n (window config - 2 * cut config)); [lia|].
  Z.to_euclidean_division_equations. lia.
Qed.

(** The retarget rule: work done in the kept range times the target block
    time, divided by the time the range took, rounded up; [0] where the
    rounded-up dividend does not fit 64 bits. *)
Definition retarget (ts cd : list Z) (range : Z * Z) (target : Z) : Z :=
  let '(b, e) := range in
  let span := Z.max 1 (ts !!! Z.to_nat (e - 1) - ts !!! Z.to_nat b) in
  let work := cd !!! Z.to_nat (e - 1) - cd !!! Z.to_nat b in
  let num := work * target + span - 1 in
  if num <? 2 ^ 64 then num / span else 0.

Lemma StronglySorted_lookup_total (R : relation Z) (l : list Z) i j :
  StronglySorted R l -> (i < j < length l)%nat -> R (l !!! i) (l !!! j).
Proof.
  intros HS. revert i j. induction HS as [|x l HS IH Hx]; intros i j Hij; simpl in *; [lia|].
  destruct j as [|j]; [lia|]. destruct i as [|i]; simpl.
  - rewrite Forall_lookup_total in Hx. apply Hx. lia.
  - apply IH. lia.
Qed.

Lemma Forall_lookup_total_lt (P : Z -> Prop) (l : list Z) i :
  Forall P l -> (i < length l)%nat -> P (l !!! i).
Proof. rewrite Forall_lookup_total. auto. Qed.

Lemma retarget_code low target span :
  is_u64 low -> is_u8 target -> 0 < span < 2 ^ 64 ->
  (let '(lo, hi) := mul128 low target in
   if negb (hi =? 0) || (u64 (lo + span - 1) <? lo) then 0
   else u64 (lo + span - 1) / span) =
  (if low * target + span - 1 <? 2 ^ 64 then (low * target + span - 1) / span else 0).
Proof.
  intros Hl Ht Hs. assert (Ht' : is_u64 target) by (unfold is_word in *; lia).
  pose proof (mul128_ok low target Hl Ht') as M.
  destruct (mul128 low target) as [lo hi]. destruct M as ([? ?] & [? ?] & E & _).
  rewrite <- E. unfold wrap. destruct (Z.eqb_spec hi 0) as [->|]; simpl negb; simpl orb.
  - rewrite Z.mul_0_l, Z.add_0_l. destruct (Z.ltb_spec (lo + span - 1) (2 ^ 64)).
    + rewrite Z.mod_small by lia. destruct (Z.ltb_spec (lo + span - 1) lo); [lia|done].
    + replace ((lo + span - 1) mod 2 ^ 64) with (lo + span - 1 - 2 ^ 64).
      * destruct (Z.ltb_spec (lo + span - 1 - 2 ^ 64) lo); [done|lia].
      * rewrite <- (Z.mod_small (lo + span - 1 - 2 ^ 64) (2 ^ 64)) by lia.
        rewrite <- Zminus_mod_idemp_r, Z_mod_same_full. f_equal. lia.
  - destruct (Z.ltb_spec (hi * 2 ^ 64 + lo + span - 1) (2 ^ 64)); [nia|done].
Qed.

Section next_difficulty_correct.
Context `{QSort}.

(** Every branch of [next_difficulty] on a well-formed window. *)
Lemma next_difficulty_spec ts cd config :
  config_ok config -> Forall small_time ts -> Z.of_nat (length ts) < 2 ^ 16 ->
  length cd = length ts -> Forall is_u64 cd -> StronglySorted Z.lt cd ->
  let n := Z.min (Z.of_nat (length ts)) (window config) in
  2 <= n ->
  let sorted := merge_sort (≤) (take (Z.to_nat n) ts) in
  next_difficulty ts (Z.of_nat (length ts)) cd config =
  Some (retarget sorted cd (cut_range config n) (target config),
        sorted ++ drop (Z.to_nat n) ts).
Proof.
  intros Hc Hts Hlen Hcd Hcdw Hcds n Hn sorted. unfold next_difficulty.
  pose proof Hc as [Ht _ Hw Hk]. unfold is_word in Hw.
  assert (E2 : (2 <=? window config) = true) by lia. rewrite E2. simpl negb. cbv iota.
  replace (if window config <? Z.of_nat (length ts) then u16 (window config)
           else Z.of_nat (length ts)) with n.
  2:{ destruct (Z.ltb_spec (window config) (Z.of_nat (length ts)));
        [rewrite wrap_small by (unfold is_word; lia)|]; lia. }
  replace (n <=? window config) with true by lia. simpl negb. cbv iota.
  replace (n <=? 1) with false by lia. cbv iota zeta.
  rewrite qsort_small by (by apply Forall_take). fold sorted.
  assert (Hsl : Z.of_nat (length sorted) = n).
  { unfold sorted. rewrite merge_sort_Permutation, length_take. lia. }
  replace (2 * cut config <=? u32 (window config - 2)) with true
    by (rewrite wrap_small by (unfold is_word; lia); lia). simpl negb. cbv iota.
  pose proof (cut_range_ok config n Hc ltac:(lia)) as Hr.
  destruct (cut_range config n) as [b e]. destruct Hr as (Hb & He & _ & _).
  replace ((b + 2 <=? e) && (e <=? n)) with true by lia. simpl negb. cbv iota.
  rewrite !lookup_total_app_l by lia.
  assert (Hss : Forall small_time sorted).
  { unfold sorted. rewrite merge_sort_Permutation. by apply Forall_take. }
  assert (Hs : StronglySorted (≤) sorted) by (apply StronglySorted_merge_sort; apply _).
  pose proof (StronglySorted_lookup_total _ _ (Z.to_nat b) (Z.to_nat (e - 1)) Hs ltac:(lia)) as Hle.
  pose proof (Forall_lookup_total_lt _ _ (Z.to_nat b) Hss ltac:(lia)) as Hb1.
  pose proof (Forall_lookup_total_lt _ _ (Z.to_nat (e - 1)) Hss ltac:(lia)) as He1.
  pose proof (StronglySorted_lookup_total _ _ (Z.to_nat b) (Z.to_nat (e - 1)) Hcds ltac:(lia)) as Hlt.
  pose proof (Forall_lookup_total_lt _ _ (Z.to_nat b) Hcdw ltac:(lia)) as Hb2.
  pose proof (Forall_lookup_total_lt _ _ (Z.to_nat (e - 1)) Hcdw ltac:(lia)) as He2.
  unfold retarget, small_time in *.
  set (t1 := sorted !!! Z.to_nat b) in *. set (t2 := sorted !!! Z.to_nat (e - 1)) in *.
  set (c1 := cd !!! Z.to_nat b) in *. set (c2 := cd !!! Z.to_nat (e - 1)) in *.
  unfold is_word in Hb2, He2.
  rewrite !(wrap_small 64 (_ - _)) by (unfold is_word; lia).
  replace (if t2 - t1 =? 0 then 1 else t2 - t1) with (Z.max 1 (t2 - t1))
    by (destruct (Z.eqb_spec (t2 - t1) 0); lia).
  replace (0 <? c2 - c1) with true by lia. simpl negb. cbv iota.
  rewrite <- (retarget_code (c2 - c1)) by (unfold is_word in *; lia).
  destruct (mul128 (c2 - c1) (target config)) as [lo hi].
  by destruct (negb _ || _).
Qed.
End next_difficulty_correct.

(** ** An implementation of [qsort]'s contract *)

Section InsertionSort.
Context (cmp : Z -> Z -> Z).

Fixpoint insert_sorted (x : Z) (l : list Z) : list Z :=
  match l with
  | [] => [x]
  | y :: l => if cmp x y <=? 0 then x :: y :: l else y :: insert_sorted x l
  end.

Definition insertion_sort (l : list Z) : list Z := foldr insert_sorted [] l.

Lemma insert_sorted_perm x l : insert_sorted x l ≡ₚ x :: l.
Proof.
  induction l as [|y l IH]; cbn [insert_sorted]; [done|].
  destruct (cmp x y <=? 0); [done|]. rewrite IH. apply Permutation_swap.
Qed.

Lemma insertion_sort_perm l : insertion_sort l ≡ₚ l.
Proof. induction l as [|x l IH]; cbn; [done|]. by rewrite insert_sorted_perm, IH. Qed.

Lemma orders_incl l k : orders cmp l -> k ⊆ l -> orders cmp k.
Proof.
  intros [Ho Ht] Hk. split; intros; [apply Ho; by apply Hk|].
  apply (Ht a b c); [by apply Hk..|done|done].
Qed.

Lemma insert_sorted_sorted x l : orders cmp (x :: l) ->
  StronglySorted (fun a b => cmp a b <= 0) l ->
  StronglySorted (fun a b => cmp a b <= 0) (insert_sorted x l).
Proof.
  intros Ho HS. induction HS as [|y l HS IH Hy]; cbn [insert_sorted]; [by repeat constructor|].
  assert (Hx : x ∈ x :: y :: l) by constructor.
  assert (Hy' : y ∈ x :: y :: l) by (repeat constructor).
  destruct (Z.leb_spec (cmp x y) 0) as [Hxy|Hxy].
  - constructor; [by constructor|]. constructor; [done|]. rewrite list.Forall_forall in Hy |- *.
    intros z Hz. apply (orders_trans _ _ Ho x y z); [..|done|by apply Hy]; [done|done|].
    by do 2 constructor.
  - constructor.
    + apply IH, (orders_incl (x :: y :: l)); [done|]. intros z Hz.
      apply elem_of_cons in Hz as [->|]; [constructor|by do 2 constructor].
    + rewrite insert_sorted_perm. constructor; [|done].
      pose proof (orders_opp _ _ Ho x y Hx Hy'). lia.
Qed.

Lemma insertion_sort_sorted l : orders cmp l ->
  StronglySorted (fun a b => cmp a b <= 0) (insertion_sort l).
Proof.
  induction l as [|x l IH]; intros Ho; cbn; [constructor|]. apply insert_sorted_sorted.
  - eapply orders_incl; [exact Ho|]. intros z Hz. by rewrite insertion_sort_perm in Hz.
  - apply IH. eapply orders_incl; [exact Ho|]. intros z Hz. by constructor.
Qed.
End InsertionSort.

#[global] Instance qsort_insertion : QSort := {|
  qsort := insertion_sort;
  qsort_perm cmp l _ := insertion_sort_perm cmp l;
  qsort_sorted := insertion_sort_sorted;
|}.

(** ** Claims *)

(** [check_hash] accepts a hash exactly when hash times difficulty, the
    hash read as a 256-bit little-endian number, is below 2^256; the chain of
    64-bit products and carries decides the 320-bit comparison. *)
Theorem check_hash_correct hash difficulty : is_b32 hash -> is_u64 difficulty ->
  check_hash hash difficulty = (le hash * difficulty <? 2 ^ 256).
Proof. intros [Hb Hl] Hd. by apply check_hash_spec. Qed.

Lemma check_hash_correct_witness :
  check_hash (replicate 31 0 ++ [1]) 255 = (2 ^ 248 * 255 <? 2 ^ 256).
Proof.
  change (2 ^ 248) with (le (replicate 31 0 ++ [1])).
  apply (check_hash_correct (replicate 31 0 ++ [1]) 255);
    [split; [repeat constructor; lia|reflexivity]|vm_compute; intuition congruence].
Defined.

(** C37: for a window of two or more blocks with timestamps before 2038 and
    strictly increasing 64-bit cumulative difficulties, [next_difficulty]
    passes its assertions, whatever correct [qsort] the C library has: it
    leaves the window's timestamps sorted, and returns the work of the kept
    middle range times the target, divided by the time span of the range and
    rounded up, or 0 when that dividend exceeds 64 bits. *)
Theorem next_difficulty_retarget `{QSort} ts cd config :
  config_ok config -> Forall small_time ts -> Z.of_nat (length ts) < 2 ^ 16 ->
  length cd = length ts -> Forall is_u64 cd -> StronglySorted Z.lt cd ->
  let n := Z.min (Z.of_nat (length ts)) (window config) in
  2 <= n ->
  let sorted := merge_sort (≤) (take (Z.to_nat n) ts) in
  next_difficulty ts (Z.of_nat (length ts)) cd config =
  Some (retarget sorted cd (cut_range config n) (target config),
        sorted ++ drop (Z.to_nat n) ts).
Proof. apply next_difficulty_spec. Qed.

(** Six blocks, the two most extreme timestamps cut. *)
Definition config6 : difficulty_config := {| target := 120; cut := 1; lag := 0; window := 6 |}.
Definition ts6 : list Z := [1000; 900; 1120; 1300; 1200; 5000].
Definition cd6 : list Z := [10; 20; 40; 80; 160; 320].

Lemma next_difficulty_retarget_witness :
  next_difficulty ts6 6 cd6 config6 = Some (retarget (merge_sort (≤) ts6) cd6 (1, 5) 120, merge_sort (≤) ts6)
  /\ retarget (merge_sort (≤) ts6) cd6 (1, 5) 120 = 56.
Proof.
  split; [|vm_compute; reflexivity].
  apply (next_difficulty_retarget ts6 cd6 config6);
    [split; vm_compute; intuition congruence
    |repeat constructor; vm_compute; intuition congruence
    |vm_compute; reflexivity|reflexivity
    |repeat constructor; vm_compute; intuition congruence
    |repeat constructor; vm_compute; intuition congruence
    |vm_compute; intuition congruence].
Defined.

(** [compare] truncates each timestamp to an [int] before subtracting, so
    from 2^31 seconds on (January 2038) it is not an ordering: it puts 2^31
    before and after 0, and 2^32 before 1; [qsort]'s contract is void there. *)
Theorem compare_not_ordering :
  ~ orders compare [0; 2 ^ 31] /\ compare 0 (2 ^ 31) < 0 /\ compare (2 ^ 31) 0 < 0 /\
  compare (2 ^ 32) 1 < 0.
Proof.
  split_and!; [|vm_compute; reflexivity..]. intros [Ho _].
  pose proof (Ho 0 (2 ^ 31) ltac:(constructor) ltac:(repeat constructor)) as [H _].
  by apply H.
Qed.
