(* ===== verification/Keccak.v ===== *)
(** * Keccak: src/src/crypto/keccak.c and src/src/crypto/hash.c

    The permutation [keccakf], the one-shot sponge [keccak] with its
    precondition checks, the incremental interface [keccak_init],
    [keccak_update], [keccak_finish] and the hashes built on them.  The
    state is a list of 25 lanes (64-bit words).  [local_abort] is the
    [Aborted] outcome, and [OutOfFuel] marks a loop that has not finished
    within the given number of iterations. *)

From S2P Require Import Prelude.

Inductive outcome (A : Type) : Type :=
  | Done (a : A)
  | Aborted
  | OutOfFuel.
Arguments Done {A} _.
Arguments Aborted {A}.
Arguments OutOfFuel {A}.

(** ** Constants *)

Definition keccakf_rndc : list Z :=
  [ 0x0000000000000001; 0x0000000000008082; 0x800000000000808a;
    0x8000000080008000; 0x000000000000808b; 0x0000000080000001;
    0x8000000080008081; 0x8000000000008009; 0x000000000000008a;
    0x0000000000000088; 0x0000000080008009; 0x000000008000000a;
    0x000000008000808b; 0x800000000000008b; 0x8000000000008089;
    0x8000000000008003; 0x8000000000008002; 0x8000000000000080;
    0x000000000000800a; 0x800000008000000a; 0x8000000080008081;
    0x8000000000008080; 0x0000000080000001; 0x8000000080008008 ].

Definition keccakf_rotc : list Z :=
  [ 1; 3; 6; 10; 15; 21; 28; 36; 45; 55; 2; 14;
    27; 41; 56; 8; 25; 43; 62; 18; 39; 61; 20; 44 ].

Definition keccakf_piln : list nat :=
  [ 10; 7; 11; 17; 18; 3; 5; 16; 8; 21; 24; 4;
    15; 23; 19; 13; 12; 2; 20; 14; 22; 9; 6; 1 ]%nat.

Definition KECCAK_ROUNDS : nat := 24.
Definition HASH_SIZE : nat := 32.
Definition HASH_DATA_AREA : nat := 136.
Definition KECCAK_FINALIZED : Z := 0x80000000.
Definition KECCAK_BLOCKLEN : nat := 136.
Definition KECCAK_WORDS : nat := 17.
Definition KECCAK_DIGESTSIZE : nat := 32.

(** ** The permutation *)

(** The macro [ROTL64]. *)
Definition ROTL64 (x y : Z) : Z := u64 (x .<< y) .| (x .>> (64 - y)).

Definition not64 (x : Z) : Z := u64 (Z.lnot x).

Definition theta (st : list Z) : list Z :=
  let bc := (fun i : nat => st !!! i .^ st !!! (i + 5)%nat .^ st !!! (i + 10)%nat
                            .^ st !!! (i + 15)%nat .^ st !!! (i + 20)%nat) <$> seq 0 5 in
  foldl (fun st i =>
    let t := bc !!! ((i + 4) mod 5)%nat .^ ROTL64 (bc !!! ((i + 1) mod 5)%nat) 1 in
    foldl (fun st j => <[(j + i)%nat := st !!! (j + i)%nat .^ t]> st) st [0; 5; 10; 15; 20]%nat)
    st (seq 0 5).

(** One iteration of the rho-pi loop on the state and the lane in flight. *)
Definition rho_pi_step (s : list Z * Z) (i : nat) : list Z * Z :=
  let '(st, t) := s in
  let j := keccakf_piln !!! i in
  let bc0 := st !!! j in
  (<[j := ROTL64 t (keccakf_rotc !!! i)]> st, bc0).

Definition rho_pi (st : list Z) : list Z :=
  (foldl rho_pi_step (st, st !!! 1%nat) (seq 0 24)).1.

Definition chi (st : list Z) : list Z :=
  foldl (fun st j =>
    let bc := (fun i => st !!! (j + i)%nat) <$> seq 0 5 in
    foldl (fun st i =>
      <[(j + i)%nat := st !!! (j + i)%nat
          .^ (not64 (bc !!! ((i + 1) mod 5)%nat) .& bc !!! ((i + 2) mod 5)%nat)]> st)
      st (seq 0 5))
    st [0; 5; 10; 15; 20]%nat.

Definition iota (rc : Z) (st : list Z) : list Z := <[0%nat := st !!! 0%nat .^ rc]> st.

Definition keccakf (st : list Z) (rounds : nat) : list Z :=
  foldl (fun st round => iota (keccakf_rndc !!! round) (chi (rho_pi (theta st))))
    st (seq 0 rounds).

(** ** The one-shot sponge *)

(** The bytes of a list of lanes in memory, and [((uint64_t * ) in)[i]]. *)
Definition state_bytes (st : list Z) : bytes := mjoin (le_bytes 8 <$> st).
Definition lane (bs : bytes) (i : nat) : Z := le (take 8 (drop (8 * i) bs)).

(** [for (i = 0; i < n; i++) st[i] ^= swap64le(block[i]);] *)
Definition xor_lanes (n : nat) (st : list Z) (block : bytes) : list Z :=
  foldl (fun st i => <[i := st !!! i .^ lane block i]> st) st (seq 0 n).

(** The absorbing loop over whole blocks of [rsiz] bytes. *)
Fixpoint absorb (fuel rsiz : nat) (st : list Z) (inp : bytes) : option (list Z * bytes) :=
  match fuel with
  | O => None
  | S fuel =>
      if (rsiz <=? length inp)%nat then
        absorb fuel rsiz (keccakf (xor_lanes (rsiz / 8) st inp) KECCAK_ROUNDS) (drop rsiz inp)
      else Some (st, inp)
  end.

(** The last block: the message tail, [0x01], zeros, and [0x80] or-ed into
    the last byte. *)
Definition pad_block (rsiz : nat) (tail : bytes) : bytes :=
  let temp := tail ++ [1] ++ replicate (rsiz - (length tail + 1)) 0 in
  <[(rsiz - 1)%nat := temp !!! (rsiz - 1)%nat .| 0x80]> temp.

Definition keccak (fuel : nat) (inp : bytes) (mdlen : Z) : outcome bytes :=
  if (mdlen <=? 0) || ((100 <? mdlen) && negb (mdlen =? 200)) then Aborted else
  let rsiz := if mdlen =? 200 then HASH_DATA_AREA else Z.to_nat (200 - 2 * mdlen) in
  let rsizw := (rsiz / 8)%nat in
  match absorb fuel rsiz (replicate 25 0) inp with
  | None => OutOfFuel
  | Some (st, inp) =>
      let inlen := length inp in
      if (144 <=? inlen + 1)%nat || (rsiz <? inlen)%nat || (144 <=? rsiz - inlen + inlen + 1)%nat
         || (rsiz =? 0)%nat || (144 <=? rsiz - 1)%nat || (144 <? rsizw * 8)%nat
      then Aborted else
      let st := keccakf (xor_lanes rsizw st (pad_block rsiz inp)) KECCAK_ROUNDS in
      if negb (mdlen mod 8 =? 0) then Aborted
      else Done (state_bytes (take (Z.to_nat (mdlen / 8)) st))
  end.

(** Enough iterations for every message whose block size is not zero. *)
Definition keccak_fuel (inp : bytes) : nat := S (length inp).

Definition keccak1600 (fuel : nat) (inp : bytes) : outcome bytes := keccak fuel inp 200.

(** ** The incremental interface *)

Record KECCAK_CTX := mkctx {
  hash : list Z;      (* uint64_t hash[25] *)
  message : bytes;    (* uint64_t message[17], accessed as 136 chars *)
  rest : Z;           (* size_t *)
}.

(** [KECCAK_PROCESS_BLOCK]. *)
Definition KECCAK_PROCESS_BLOCK (st : list Z) (block : bytes) : list Z :=
  keccakf (xor_lanes KECCAK_WORDS st block) KECCAK_ROUNDS.

Definition keccak_init : KECCAK_CTX :=
  mkctx (replicate 25 0) (replicate KECCAK_BLOCKLEN 0) 0.

Definition finalized (ctx : KECCAK_CTX) : bool :=
  negb (rest ctx .& KECCAK_FINALIZED =? 0).

(** The loop over whole blocks; an unaligned input goes through
    [ctx->message]. *)
Fixpoint update_blocks (fuel : nat) (is_aligned : bool) (h : list Z) (msg inp : bytes)
    : list Z * bytes * bytes :=
  match fuel with
  | O => (h, msg, inp)
  | S fuel =>
      if (KECCAK_BLOCKLEN <=? length inp)%nat then
        let msg' := if is_aligned then msg else memcpy msg 0 (take KECCAK_BLOCKLEN inp) in
        let block := if is_aligned then inp else msg' in
        update_blocks fuel is_aligned (KECCAK_PROCESS_BLOCK h block) msg'
          (drop KECCAK_BLOCKLEN inp)
      else (h, msg, inp)
  end.

(** [is_aligned] is what [IS_ALIGNED_64(in)] says of the input pointer. *)
Definition keccak_update (is_aligned : bool) (ctx : KECCAK_CTX) (inp : bytes)
    : outcome KECCAK_CTX :=
  if finalized ctx then Aborted else
  let inlen := length inp in
  let idx := Z.to_nat (rest ctx) in
  let rest' := u64 (rest ctx + Z.of_nat inlen) mod Z.of_nat KECCAK_BLOCKLEN in
  let bulk (h : list Z) (msg inp : bytes) : outcome KECCAK_CTX :=
    let '(h, msg, inp) := update_blocks (length inp) is_aligned h msg inp in
    let msg := if (length inp =? 0)%nat then msg else memcpy msg 0 inp in
    Done (mkctx h msg rest') in
  if (idx =? 0)%nat then bulk (hash ctx) (message ctx) inp else
  let left := (KECCAK_BLOCKLEN - idx)%nat in
  let msg := memcpy (message ctx) idx (take (if (inlen <? left)%nat then inlen else left) inp) in
  if (inlen <? left)%nat then Done (mkctx (hash ctx) msg rest')
  else bulk (KECCAK_PROCESS_BLOCK (hash ctx) msg) msg (drop left inp).

(** The context after the call and the 32 bytes written to [md]. *)
Definition keccak_finish (ctx : KECCAK_CTX) : KECCAK_CTX * bytes :=
  let ctx :=
    if finalized ctx then ctx else
    let r := Z.to_nat (rest ctx) in
    let msg := memcpy (message ctx) r (replicate (KECCAK_BLOCKLEN - r) 0) in
    let msg := <[r := msg !!! r .| 0x01]> msg in
    let msg := <[(KECCAK_BLOCKLEN - 1)%nat := msg !!! (KECCAK_BLOCKLEN - 1)%nat .| 0x80]> msg in
    mkctx (KECCAK_PROCESS_BLOCK (hash ctx) msg) msg KECCAK_FINALIZED in
  (ctx, state_bytes (take (KECCAK_DIGESTSIZE / 8) (hash ctx))).

(** ** hash.c *)

(** [union hash_state] is a list of 25 lanes, its byte view [state_bytes]. *)
Definition hash_permutation (state : list Z) : list Z := keccakf state 24.

Definition hash_process (buf : bytes) : outcome bytes := keccak1600 (keccak_fuel buf) buf.

Definition cn_fast_hash (data : bytes) : outcome bytes :=
  match hash_process data with
  | Done state => Done (take HASH_SIZE state)
  | Aborted => Aborted
  | OutOfFuel => OutOfFuel
  end.
