(* ===== verification/KeccakSpec.v ===== *)
(** * Keccak-f[1600] as the standard defines it, and the proof that
    [keccakf] computes it

    The step mappings theta, rho, pi, chi and iota of FIPS 202 (section
    3.2) on lanes addressed by coordinates, the rotation offsets and the
    round constants from their recurrences (the walk of algorithm 2, the
    linear feedback shift register of algorithm 5) and not from tables. *)

From S2P Require Import Prelude Keccak.

Module Spec.

(** Lane (x, y) is word [x + 5 y] of the state. *)
Definition lanes (A : nat -> nat -> Z) : list Z :=
  (fun k => A (k mod 5)%nat (k / 5)%nat) <$> seq 0 25.
Definition at_ (st : list Z) (x y : nat) : Z := st !!! (x mod 5 + 5 * (y mod 5))%nat.

Definition rot (n : nat) (x : Z) : Z := if (n =? 0)%nat then x else ROTL64 x (Z.of_nat n).

Definition theta (A : nat -> nat -> Z) (x y : nat) : Z :=
  let C x := A x 0%nat .^ A x 1%nat .^ A x 2%nat .^ A x 3%nat .^ A x 4%nat in
  A x y .^ (C (x + 4)%nat .^ rot 1 (C (x + 1)%nat)).

(** Algorithm 2: starting at (1, 0), the t-th lane visited is rotated by
    (t+1)(t+2)/2; the walk goes from (x, y) to (y, 2x + 3y). *)
Fixpoint rho_walk (fuel t x y : nat) : list (nat * nat * nat) :=
  match fuel with
  | O => []
  | S fuel => (x, y, (((t + 1) * (t + 2)) / 2) mod 64)%nat
              :: rho_walk fuel (t + 1) y ((2 * x + 3 * y) mod 5)
  end.

Definition rho_offset (x y : nat) : nat :=
  match List.find (fun '(x', y', _) => (x' =? x) && (y' =? y))%nat (rho_walk 24 0 1 0) with
  | Some (_, _, o) => o
  | None => 0
  end.

Definition rho (A : nat -> nat -> Z) (x y : nat) : Z :=
  rot (rho_offset (x mod 5) (y mod 5)) (A x y).

Definition pi (A : nat -> nat -> Z) (x y : nat) : Z := A (x + 3 * y)%nat x.

Definition chi (A : nat -> nat -> Z) (x y : nat) : Z :=
  A x y .^ (not64 (A (x + 1)%nat y) .& A (x + 2)%nat y).

Definition iota (rc : Z) (A : nat -> nat -> Z) (x y : nat) : Z :=
  if ((x mod 5 =? 0) && (y mod 5 =? 0))%nat then A x y .^ rc else A x y.

(** Algorithm 5: the register is eight bits, bit 0 first. *)
Definition lfsr_step (R : list bool) : list bool :=
  let out := nth 7 R false in
  let R := false :: take 7 R in
  (fun '(i, b) => if bool_decide (i ∈ [0; 4; 5; 6]%nat) then xorb b out else b)
    <$> zip (seq 0 8) R.

Definition rc_bit (t : nat) : bool :=
  nth 0 (Nat.iter (t mod 255) lfsr_step [true; false; false; false; false; false; false; false])
    false.

Definition round_constant (ir : nat) : Z :=
  foldl (fun acc j => if rc_bit (j + 7 * ir) then acc + 2 ^ (2 ^ Z.of_nat j - 1) else acc)
    0 (seq 0 7).

(** A step mapping applied to the whole state. *)
Definition step (f : (nat -> nat -> Z) -> nat -> nat -> Z) (st : list Z) : list Z :=
  lanes (f (at_ st)).

Definition round (ir : nat) (st : list Z) : list Z :=
  st |> step theta |> step rho |> step pi |> step chi |> step (iota (round_constant ir)).

(** Keccak-f[1600]: rounds 0 to 23. *)
Definition keccak_f (st : list Z) : list Z := foldl (fun st ir => round ir st) st (seq 0 24).

End Spec.

Lemma length_25 (st : list Z) : length st = 25%nat ->
  exists a0 a1 a2 a3 a4 a5 a6 a7 a8 a9 a10 a11 a12 a13 a14 a15 a16 a17 a18 a19 a20 a21 a22 a23 a24,
    st = [a0; a1; a2; a3; a4; a5; a6; a7; a8; a9; a10; a11; a12; a13; a14; a15; a16; a17; a18;
          a19; a20; a21; a22; a23; a24].
Proof.
  intros Hl. do 26 (destruct st as [|? st]; try discriminate Hl). repeat eexists.
Qed.

Ltac lanewise Hl :=
  apply length_25 in Hl;
  destruct Hl as (a0&a1&a2&a3&a4&a5&a6&a7&a8&a9&a10&a11&a12&a13&a14&a15&a16&a17&a18&a19&a20
    &a21&a22&a23&a24&->);
  cbv -[Z.lxor ROTL64 not64 Z.land Z.of_nat Spec.round_constant]; reflexivity.

Lemma theta_spec st : length st = 25%nat -> theta st = Spec.step Spec.theta st.
Proof. intros Hl. lanewise Hl. Qed.

Lemma rho_pi_spec st :
  length st = 25%nat -> rho_pi st = Spec.step Spec.pi (Spec.step Spec.rho st).
Proof. intros Hl. lanewise Hl. Qed.

Lemma chi_spec st : length st = 25%nat -> chi st = Spec.step Spec.chi st.
Proof. intros Hl. lanewise Hl. Qed.

Lemma iota_spec rc st : length st = 25%nat -> iota rc st = Spec.step (Spec.iota rc) st.
Proof. intros Hl. lanewise Hl. Qed.

Lemma length_step f st : length (Spec.step f st) = 25%nat.
Proof. reflexivity. Qed.

Lemma round_constant_spec ir : (ir < 24)%nat -> keccakf_rndc !!! ir = Spec.round_constant ir.
Proof. intros. do 24 (destruct ir as [|ir]; [vm_compute; reflexivity|]). lia. Qed.

(** One round of the loop body is one round of the standard. *)
Lemma keccakf_round ir st :
  length st = 25%nat -> (ir < 24)%nat ->
  iota (keccakf_rndc !!! ir) (chi (rho_pi (theta st))) = Spec.round ir st.
Proof.
  intros Hl Hir. rewrite round_constant_spec by done.
  rewrite theta_spec, rho_pi_spec, chi_spec, iota_spec; done.
Qed.

(** C35: the 24-round [keccakf] is the permutation Keccak-f[1600] of the
    standard on every 25-lane state. *)
Theorem keccakf_is_keccak_f1600 st :
  length st = 25%nat -> keccakf st KECCAK_ROUNDS = Spec.keccak_f st.
Proof.
  unfold keccakf, Spec.keccak_f, KECCAK_ROUNDS. intros Hl.
  assert (Hr : Forall (fun ir => (ir < 24)%nat) (seq 0 24))
    by (apply list.Forall_forall; intros x Hx; apply elem_of_seq in Hx; lia).
  revert st Hl. induction Hr as [|ir l Hir _ IH]; intros st Hl; simpl; [done|].
  rewrite keccakf_round by done. by apply IH.
Qed.

Lemma keccakf_is_keccak_f1600_witness :
  keccakf (replicate 25 0) KECCAK_ROUNDS = Spec.keccak_f (replicate 25 0).
Proof. apply (keccakf_is_keccak_f1600 (replicate 25 0)). reflexivity. Defined.
