(* ===== verification/KeccakProofs.v ===== *)
(** * Properties of the sponge, the incremental interface and hash.c *)

From S2P Require Import Prelude Keccak.

(** ** Lists and lanes *)

Lemma length_foldl {A B} (f : list A -> B -> list A) l st :
  (forall st i, length (f st i) = length st) -> length (foldl f st l) = length st.
Proof. intros Hf. revert st. induction l; intros; simpl; [done|]. by rewrite IHl, Hf. Qed.

Lemma length_theta st : length (theta st) = length st.
Proof. apply length_foldl; intros; apply length_foldl; intros; apply length_insert. Qed.

Lemma length_chi st : length (chi st) = length st.
Proof. apply length_foldl; intros; apply length_foldl; intros; apply length_insert. Qed.

Lemma length_rho_pi st : length (rho_pi st) = length st.
Proof.
  unfold rho_pi. generalize (seq 0 24), (st !!! 1%nat). intros l. revert st.
  induction l as [|i l IH]; intros st t; [done|]. cbn [foldl].
  unfold rho_pi_step at 2. by rewrite IH, length_insert.
Qed.

Lemma length_keccakf st n : length (keccakf st n) = length st.
Proof.
  apply length_foldl. intros. unfold iota.
  by rewrite length_insert, length_chi, length_rho_pi, length_theta.
Qed.

Lemma length_xor_lanes n st block : length (xor_lanes n st block) = length st.
Proof. apply length_foldl. intros. apply length_insert. Qed.

Lemma state_bytes_cons x st : state_bytes (x :: st) = le_bytes 8 x ++ state_bytes st.
Proof. reflexivity. Qed.

Lemma length_state_bytes st : length (state_bytes st) = (8 * length st)%nat.
Proof.
  induction st as [|x st IH]; [done|].
  rewrite state_bytes_cons, length_app, length_le_bytes, IH. simpl length. lia.
Qed.

Lemma take_state_bytes k st : take (8 * k) (state_bytes st) = state_bytes (take k st).
Proof.
  revert st. induction k as [|k IH]; intros st; [by rewrite Nat.mul_0_r|].
  destruct st as [|x st]; [done|].
  rewrite firstn_cons, !state_bytes_cons, <- IH.
  replace (8 * S k)%nat with (length (le_bytes 8 x) + 8 * k)%nat by (rewrite length_le_bytes; lia).
  by rewrite take_app_add.
Qed.

Lemma lane_app_l x y i : (8 * i + 8 <= length x)%nat -> lane (x ++ y) i = lane x i.
Proof.
  intros. unfold lane. by rewrite drop_app_le, take_app_le by (rewrite ?length_drop; lia).
Qed.

(** Only the first [8 n] bytes of a block are read. *)
Lemma xor_lanes_app n st x y : (8 * n <= length x)%nat ->
  xor_lanes n st (x ++ y) = xor_lanes n st x.
Proof.
  intros Hx. unfold xor_lanes.
  assert (Hl : Forall (fun i => (8 * i + 8 <= length x)%nat) (seq 0 n))
    by (apply list.Forall_forall; intros i Hi; apply elem_of_seq in Hi; lia).
  revert st. induction Hl as [|i l Hi _ IH]; intros st; simpl; [done|].
  by rewrite lane_app_l, IH.
Qed.

(** From here on the permutation is a black box. *)
#[local] Opaque keccakf xor_lanes.

(** ** The absorbing loop terminates *)

Lemma absorb_fuel rsiz fuel st inp :
  (0 < rsiz)%nat -> (length inp < fuel)%nat ->
  absorb fuel rsiz st inp = absorb (S (length inp)) rsiz st inp.
Proof.
  intros Hr. revert fuel st inp.
  assert (H : forall n fuel st inp, (length inp <= n)%nat -> (length inp < fuel)%nat ->
    absorb fuel rsiz st inp = absorb (S (length inp)) rsiz st inp); [|eauto].
  induction n as [|n IH]; intros fuel st inp Hn Hf; (destruct fuel as [|fuel]; [lia|]); simpl.
  - destruct (Nat.leb_spec rsiz (length inp)); [lia|done].
  - destruct (Nat.leb_spec rsiz (length inp)); [|done].
    rewrite (IH fuel), (IH (length inp)); rewrite ?length_drop; lia || done.
Qed.

(** The loop as a total function, with its equation. *)
Definition absorbs (rsiz : nat) (st : list Z) (inp : bytes) : option (list Z * bytes) :=
  absorb (S (length inp)) rsiz st inp.

Lemma absorbs_step rsiz st inp :
  (0 < rsiz)%nat ->
  absorbs rsiz st inp =
  if (rsiz <=? length inp)%nat then
    absorbs rsiz (keccakf (xor_lanes (rsiz / 8) st inp) KECCAK_ROUNDS) (drop rsiz inp)
  else Some (st, inp).
Proof.
  intros Hr. unfold absorbs at 1. simpl.
  destruct (Nat.leb_spec rsiz (length inp)); [|done].
  apply absorb_fuel; [lia|]. rewrite length_drop. lia.
Qed.

(** Absorption ends with less than a block left. *)
Lemma absorbs_Some rsiz st inp :
  (0 < rsiz)%nat -> exists st' tail,
    absorbs rsiz st inp = Some (st', tail) /\ length tail = (length inp mod rsiz)%nat /\
    length st' = length st.
Proof.
  intros Hr. remember (length inp) as n eqn:En. revert st inp En.
  induction n as [n IH] using lt_wf_ind; intros st inp ->. rewrite absorbs_step by done.
  destruct (Nat.leb_spec rsiz (length inp)).
  - edestruct (IH (length (drop rsiz inp))) as (st' & tail & E & Et & Es);
      [rewrite length_drop; lia|reflexivity|].
    rewrite E. exists st', tail. split; [done|]. rewrite Et, Es.
    rewrite length_keccakf, length_xor_lanes, length_drop. split; [|done].
    replace (length inp) with ((length inp - rsiz) + 1 * rsiz)%nat at 2 by lia.
    by rewrite Nat.Div0.mod_add.
  - exists st, inp. by rewrite Nat.mod_small.
Qed.

Lemma absorbs_app rsiz st inp st' tail more :
  (0 < rsiz)%nat -> absorbs rsiz st inp = Some (st', tail) ->
  absorbs rsiz st (inp ++ more) = absorbs rsiz st' (tail ++ more).
Proof.
  intros Hr. remember (length inp) as n eqn:En. revert st inp En.
  induction n as [n IH] using lt_wf_ind; intros st inp ->. rewrite absorbs_step by done.
  destruct (Nat.leb_spec rsiz (length inp)) as [Hl|Hl].
  - intros E. rewrite (absorbs_step rsiz st (inp ++ more)) by done. rewrite length_app.
    destruct (Nat.leb_spec rsiz (length inp + length more)); [|lia].
    rewrite xor_lanes_app by (pose proof (Nat.Div0.mul_div_le rsiz 8); lia).
    rewrite drop_app_le by lia. eapply IH; [|reflexivity|exact E]. rewrite length_drop. lia.
  - by intros [= -> ->].
Qed.

(** ** Outcomes of the one-shot sponge *)

(** The digest lengths [keccak] serves. *)
Definition good_mdlen (mdlen : Z) : Prop :=
  mdlen = 200 \/ (32 <= mdlen <= 96 /\ mdlen mod 8 = 0).

#[global] Instance good_mdlen_dec mdlen : Decision (good_mdlen mdlen).
Proof. unfold good_mdlen. apply _. Defined.

Definition rate (mdlen : Z) : nat := if mdlen =? 200 then 136 else Z.to_nat (200 - 2 * mdlen).

(** Final permutation and digest after the whole blocks are absorbed. *)
Definition squeeze (mdlen : Z) (st : list Z) (tail : bytes) : bytes :=
  let r := rate mdlen in
  state_bytes (take (Z.to_nat (mdlen / 8))
    (keccakf (xor_lanes (r / 8) st (pad_block r tail)) KECCAK_ROUNDS)).

Lemma keccak_good fuel inp mdlen :
  good_mdlen mdlen -> (length inp < fuel)%nat -> exists st tail,
    absorbs (rate mdlen) (replicate 25 0) inp = Some (st, tail) /\ length st = 25%nat /\
    keccak fuel inp mdlen = Done (squeeze mdlen st tail).
Proof.
  intros Hm Hf.
  assert (Hr : (0 < rate mdlen <= 136)%nat).
  { unfold rate. destruct Hm as [->|[? ?]]; [simpl; lia|].
    destruct (Z.eqb_spec mdlen 200); lia. }
  destruct (absorbs_Some (rate mdlen) (replicate 25 0) inp) as (st & tail & E & Et & Es); [lia|].
  exists st, tail. split; [done|]. split; [by rewrite Es, length_replicate|].
  assert (Ht : (length tail < rate mdlen)%nat) by (rewrite Et; apply Nat.mod_upper_bound; lia).
  unfold keccak. fold HASH_DATA_AREA. change HASH_DATA_AREA with 136%nat. fold (rate mdlen).
  rewrite absorb_fuel by lia. fold (absorbs (rate mdlen) (replicate 25 0) inp). rewrite E.
  assert (Hd : (rate mdlen / 8 * 8 <= 136)%nat)
    by (pose proof (Nat.Div0.mul_div_le (rate mdlen) 8); lia).
  replace ((mdlen <=? 0) || ((100 <? mdlen) && negb (mdlen =? 200))) with false
    by (unfold good_mdlen in Hm; lia). cbv beta iota zeta.
  match goal with |- (if ?b then _ else _) = _ => replace b with false by lia end.
  replace (mdlen mod 8 =? 0) with true; [done|].
  destruct Hm as [->|[_ ->]]; reflexivity.
Qed.

Lemma absorb_S fuel rsiz st inp :
  absorb (S fuel) rsiz st inp =
  if (rsiz <=? length inp)%nat then
    absorb fuel rsiz (keccakf (xor_lanes (rsiz / 8) st inp) KECCAK_ROUNDS) (drop rsiz inp)
  else Some (st, inp).
Proof. reflexivity. Qed.

(** A zero block size is never left: [mdlen = 100] passes the first check
    and the loop does not progress. *)
Lemma absorb_zero_rate fuel st inp : absorb fuel 0 st inp = None.
Proof.
  revert st. induction fuel as [|fuel IH]; intros st; [done|].
  rewrite absorb_S, drop_0, IH. by destruct (0 <=? length inp)%nat eqn:E.
Qed.

Lemma keccak_bad inp mdlen :
  ~ good_mdlen mdlen -> mdlen <> 100 -> keccak (keccak_fuel inp) inp mdlen = Aborted.
Proof.
  intros Hm H100. unfold keccak.
  match goal with |- (if ?b then _ else _) = _ => destruct b eqn:E1; [done|] end.
  destruct (Z.eqb_spec mdlen 200) as [->|H200]; [unfold good_mdlen in Hm; lia|].
  simpl negb in E1. rewrite andb_true_r in E1.
  set (r := Z.to_nat (200 - 2 * mdlen)).
  assert (Hr : (0 < r)%nat) by (unfold r; lia).
  destruct (absorbs_Some r (replicate 25 0) inp Hr) as (st & tail & E & Et & Es).
  unfold keccak_fuel. fold (absorbs r (replicate 25 0) inp). rewrite E.
  match goal with |- (if ?b then _ else _) = _ => destruct b eqn:E2; [done|] end.
  destruct (Z.eqb_spec (mdlen mod 8) 0) as [H8|]; [|done]. exfalso.
  apply Hm. right. split; [|done].
  assert (mdlen = 8 * (mdlen / 8)) by (pose proof (Z.div_mod mdlen 8); lia). lia.
Qed.

(** ** The incremental interface follows the absorbing loop *)

Lemma not_finalized h msg r : 0 <= r < 2 ^ 31 -> finalized (mkctx h msg r) = false.
Proof.
  intros Hr. unfold finalized, KECCAK_FINALIZED. cbn [rest].
  replace (r .& 2147483648) with 0; [done|]. symmetry.
  apply Z.bits_inj'. intros n Hn. rewrite Z.land_spec, Z.bits_0.
  change 2147483648 with (2 ^ 31). rewrite Z.pow2_bits_eqb by lia.
  destruct (Z.eqb_spec 31 n) as [<-|]; [|apply andb_false_r].
  apply (word_iff_bits 31) in Hr as [_ Hr]; [|lia]. by rewrite Hr.
Qed.

(** [ctx] has taken in the message [m]: the whole blocks of [m] are in the
    state, its tail is at the front of the buffer. *)
Record absorbed (ctx : KECCAK_CTX) (m : bytes) : Prop := {
  absorbed_state : exists tail, absorbs 136 (replicate 25 0) m = Some (hash ctx, tail) /\
    rest ctx = Z.of_nat (length tail) /\ take (length tail) (message ctx) = tail /\
    (length tail < 136)%nat;
  absorbed_buffer : length (message ctx) = 136%nat;
}.

Lemma update_blocks_ok fuel al h msg inp :
  (length inp <= fuel)%nat -> length msg = 136%nat ->
  let '(h', msg', inp') := update_blocks fuel al h msg inp in
  absorbs 136 h inp = Some (h', inp') /\ length msg' = 136%nat.
Proof.
  revert h msg inp. induction fuel as [|fuel IH]; intros h msg inp Hf Hm; cbn [update_blocks].
  - split; [|done]. destruct inp; [|simpl in Hf; lia]. by rewrite absorbs_step by lia.
  - rewrite absorbs_step by lia. unfold KECCAK_BLOCKLEN.
    destruct (Nat.leb_spec 136 (length inp)) as [Hl|Hl]; [|done].
    set (msg' := if al then msg else _). set (block := if al then inp else _).
    assert (Hm' : length msg' = 136%nat).
    { unfold msg'. destruct al; [done|].
      rewrite length_memcpy; [done|]. rewrite length_take. lia. }
    replace (keccakf (xor_lanes (136 / 8) h inp) KECCAK_ROUNDS)
      with (KECCAK_PROCESS_BLOCK h block).
    + apply IH; [|done]. rewrite length_drop. lia.
    + unfold KECCAK_PROCESS_BLOCK. change (136 / 8)%nat with KECCAK_WORDS.
      assert (xor_lanes KECCAK_WORDS h block = xor_lanes KECCAK_WORDS h inp) as ->; [|done].
      unfold block, msg'. destruct al; [done|].
      rewrite <- (take_drop 136 inp) at 2. unfold memcpy. rewrite take_0, app_nil_l.
      rewrite !xor_lanes_app; [done|..]; rewrite length_take; unfold KECCAK_WORDS; lia.
Qed.

Lemma absorbed_init : absorbed keccak_init [].
Proof.
  split; [|done]. exists []. rewrite absorbs_step by lia. split_and!; [done..|simpl; lia].
Qed.

Lemma absorbed_not_finalized ctx m : absorbed ctx m -> finalized ctx = false.
Proof.
  intros [(tail & _ & Hr & _ & Ht) _]. destruct ctx as [h msg r]. cbn [rest] in Hr.
  apply not_finalized. lia.
Qed.

(** The end of every path of [keccak_update]: the state and the tail that
    absorbing leaves, with the tail at the front of the buffer. *)
Lemma absorbed_intro m h tail msg r :
  absorbs 136 (replicate 25 0) m = Some (h, tail) -> length msg = 136%nat ->
  take (length tail) msg = tail -> r = Z.of_nat (length m) mod 136 ->
  absorbed (mkctx h msg r) m.
Proof.
  intros E Hm Ht ->. destruct (absorbs_Some 136 (replicate 25 0) m) as (h' & t' & E' & Hl & _);
    [lia|]. rewrite E in E'. injection E' as <- <-.
  split; [|done]. exists tail. cbn [hash message rest]. split; [done|].
  assert (length tail < 136)%nat by (rewrite Hl; apply Nat.mod_upper_bound; lia).
  split_and!; [|done|done]. rewrite Hl. lia.
Qed.

Lemma bulk_ok al m h msg inp r :
  length msg = 136%nat ->
  absorbs 136 (replicate 25 0) m = absorbs 136 h inp ->
  r = Z.of_nat (length m) mod 136 ->
  let '(h', msg', inp') := update_blocks (length inp) al h msg inp in
  absorbed (mkctx h' (if (length inp' =? 0)%nat then msg' else memcpy msg' 0 inp') r) m.
Proof.
  intros Hm E Hr. pose proof (update_blocks_ok (length inp) al h msg inp ltac:(lia) Hm) as U.
  destruct (update_blocks (length inp) al h msg inp) as [[h' msg'] inp'].
  destruct U as [U Hm']. rewrite U in E.
  destruct (absorbs_Some 136 h inp) as (h2 & t2 & E2 & Hl & _); [lia|].
  rewrite U in E2. injection E2 as <- <-.
  assert (length inp' < 136)%nat by (rewrite Hl; apply Nat.mod_upper_bound; lia).
  apply (absorbed_intro _ _ inp'); [done|..|done]; destruct (Nat.eqb_spec (length inp') 0) as [H0|].
  - done.
  - rewrite length_memcpy; lia.
  - rewrite H0. by apply length_zero_iff_nil in H0 as ->.
  - apply (take_memcpy msg' 0 inp'). lia.
Qed.

Lemma keccak_update_ok al ctx m inp :
  absorbed ctx m -> Z.of_nat (length m + length inp) < 2 ^ 64 ->
  exists ctx', keccak_update al ctx inp = Done ctx' /\ absorbed ctx' (m ++ inp).
Proof.
  intros Ha Hlen. pose proof (absorbed_not_finalized _ _ Ha) as Hf.
  destruct Ha as [(tail & E & Hr & Ht & Hlt) Hm]. unfold keccak_update. rewrite Hf.
  pose proof (absorbs_app 136 _ _ _ _ inp ltac:(lia) E) as Ea.
  assert (Hrest : u64 (rest ctx + Z.of_nat (length inp)) mod Z.of_nat KECCAK_BLOCKLEN
                  = Z.of_nat (length (m ++ inp)) mod 136).
  { destruct (absorbs_Some 136 (replicate 25 0) m) as (h' & t' & E' & Hl & _); [lia|].
    rewrite E in E'. injection E' as <- <-. unfold KECCAK_BLOCKLEN.
    rewrite wrap_small by (unfold is_word; lia). rewrite Hr, Hl, length_app. lia. }
  rewrite Hrest, Hr, Nat2Z.id. cbv zeta.
  destruct (Nat.eqb_spec (length tail) 0) as [H0|H0].
  - apply length_zero_iff_nil in H0. rewrite H0, app_nil_l in Ea.
    pose proof (bulk_ok al (m ++ inp) (hash ctx) (message ctx) inp _ Hm Ea eq_refl) as B.
    destruct (update_blocks _ _ _ _ _) as [[h' msg'] inp']. eexists. split; [reflexivity|]. exact B.
  - unfold KECCAK_BLOCKLEN. destruct (Nat.ltb_spec (length inp) (136 - length tail)).
    + eexists. split; [reflexivity|]. rewrite take_ge by lia.
      apply (absorbed_intro _ _ (tail ++ inp)); [..|done].
      * rewrite Ea, absorbs_step, length_app by lia.
        by destruct (Nat.leb_spec 136 (length tail + length inp)); [lia|].
      * rewrite length_memcpy; lia.
      * rewrite length_app, take_memcpy, Ht by lia. done.
    + set (left := (136 - length tail)%nat) in *.
      set (msg := memcpy (message ctx) (length tail) (take left inp)).
      assert (Em : msg = tail ++ take left inp).
      { unfold msg, memcpy. rewrite Ht, length_take, drop_ge, app_nil_r by lia. done. }
      assert (Hml : length msg = 136%nat) by (rewrite Em, length_app, length_take; lia).
      rewrite (absorbs_step 136 (hash ctx)), length_app in Ea by lia.
      destruct (Nat.leb_spec 136 (length tail + length inp)); [|lia].
      rewrite (drop_app_ge tail) in Ea by lia. fold left in Ea.
      replace (tail ++ inp) with (msg ++ drop left inp) in Ea
        by (by rewrite Em, <- app_assoc, take_drop).
      rewrite xor_lanes_app in Ea by (rewrite Hml; simpl; lia).
      pose proof (bulk_ok al (m ++ inp) (KECCAK_PROCESS_BLOCK (hash ctx) msg) msg (drop left inp)
        _ Hml Ea eq_refl) as B.
      destruct (update_blocks _ _ _ _ _) as [[h' msg'] inp']. eexists. split; [reflexivity|]. exact B.
Qed.

(** The buffer [keccak_finish] builds is the padded last block. *)
Lemma finish_pad buf tail :
  take (length tail) buf = tail -> (length tail < 136)%nat -> length buf = 136%nat ->
  let msg := memcpy buf (length tail) (replicate (136 - length tail) 0) in
  let msg := <[length tail := msg !!! length tail .| 0x01]> msg in
  <[135%nat := msg !!! 135%nat .| 0x80]> msg = pad_block 136 tail.
Proof.
  intros Ht Hlt Hb msg. unfold pad_block. change (136 - 1)%nat with 135%nat.
  assert (Em : msg = tail ++ 0 :: replicate (136 - (length tail + 1)) 0).
  { unfold msg, memcpy. rewrite Ht, drop_ge, app_nil_r by (rewrite length_replicate; lia).
    by replace (136 - length tail)%nat with (S (136 - (length tail + 1))) by lia. }
  rewrite Em. cbv zeta.
  rewrite list_lookup_total_middle, insert_app_r_alt, Nat.sub_diag by lia. done.
Qed.

Lemma keccak_finish_ok ctx m :
  absorbed ctx m -> Done (keccak_finish ctx).2 = keccak (keccak_fuel m) m 32.
Proof.
  intros Ha. pose proof (absorbed_not_finalized _ _ Ha) as Hf.
  destruct Ha as [(tail & E & Hr & Ht & Hlt) Hm].
  destruct (keccak_good (keccak_fuel m) m 32) as (st & t' & E' & _ & ->);
    [right; split; [lia|done]|unfold keccak_fuel; lia|].
  change (rate 32) with 136%nat in E'. rewrite E in E'. injection E' as <- <-.
  unfold keccak_finish. rewrite Hf, Hr, Nat2Z.id. cbn [snd].
  unfold squeeze. change (rate 32) with 136%nat. cbn [hash].
  change KECCAK_BLOCKLEN with 136%nat. change (136 - 1)%nat with 135%nat.
  rewrite finish_pad by done. reflexivity.
Qed.

(** A run of [keccak_update] calls, each with the alignment of its input. *)
Fixpoint keccak_updates (ctx : KECCAK_CTX) (chunks : list (bool * bytes)) : outcome KECCAK_CTX :=
  match chunks with
  | [] => Done ctx
  | (al, inp) :: chunks =>
      match keccak_update al ctx inp with
      | Done ctx => keccak_updates ctx chunks
      | Aborted => Aborted
      | OutOfFuel => OutOfFuel
      end
  end.

Lemma keccak_updates_ok chunks ctx m :
  absorbed ctx m -> Z.of_nat (length m + length (mjoin (snd <$> chunks))) < 2 ^ 64 ->
  exists ctx', keccak_updates ctx chunks = Done ctx' /\ absorbed ctx' (m ++ mjoin (snd <$> chunks)).
Proof.
  revert ctx m. induction chunks as [|[al inp] chunks IH]; intros ctx m Ha Hl.
  - exists ctx. split; [done|]. by rewrite app_nil_r.
  - rewrite fmap_cons, mjoin_cons, length_app in Hl. cbn [snd] in Hl.
    destruct (keccak_update_ok al ctx m inp Ha) as (ctx1 & E1 & H1); [lia|].
    destruct (IH ctx1 (m ++ inp) H1) as (ctx2 & E2 & H2); [rewrite length_app; lia|].
    exists ctx2. cbn [keccak_updates]. rewrite E1, fmap_cons, mjoin_cons, app_assoc. done.
Qed.

(** However a message of less than 2^64 bytes is cut into chunks and
    however the chunks are aligned, feeding them to [keccak_update] one by
    one never aborts, and [keccak_finish] then yields the 32-byte digest
    that the one-shot [keccak] computes for the whole message. *)
Theorem keccak_incremental chunks :
  let m := mjoin (snd <$> chunks) in
  Z.of_nat (length m) < 2 ^ 64 ->
  exists ctx, keccak_updates keccak_init chunks = Done ctx /\
    Done (keccak_finish ctx).2 = keccak (keccak_fuel m) m 32.
Proof.
  intros m Hl. destruct (keccak_updates_ok chunks keccak_init [] absorbed_init) as (ctx & E & H);
    [done|]. exists ctx. split; [done|]. by apply keccak_finish_ok.
Qed.

(** "abc" in two chunks, the second one unaligned. *)
Lemma keccak_incremental_witness : exists ctx,
  keccak_updates keccak_init [(true, [97]); (false, [98; 99])] = Done ctx /\
  Done (keccak_finish ctx).2 = keccak (keccak_fuel [97; 98; 99]) [97; 98; 99] 32.
Proof. apply (keccak_incremental [(true, [97]); (false, [98; 99])]). reflexivity. Defined.

(** Once finished a context is inert: another [keccak_update] aborts and
    another [keccak_finish] changes nothing and returns the same digest. *)
Theorem keccak_finished ctx al inp :
  let '(ctx', md) := keccak_finish ctx in
  keccak_update al ctx' inp = Aborted /\ keccak_finish ctx' = (ctx', md).
Proof.
  unfold keccak_finish at 1. set (c := if finalized ctx then _ else _).
  assert (Hc : finalized c = true) by (unfold c; destruct (finalized ctx) eqn:E; [done|]; done).
  clearbody c. unfold keccak_update, keccak_finish. by rewrite Hc.
Qed.

(** C38: which calls of [keccak] return.  For [mdlen = 200] and for multiples
    of 8 from 32 to 96 it returns a digest of [mdlen] bytes; for
    [mdlen = 100] the block size is zero and the loop never ends, whatever
    the number of iterations; every other [mdlen] aborts. *)
Theorem keccak_outcome inp mdlen :
  (good_mdlen mdlen -> exists md,
     keccak (keccak_fuel inp) inp mdlen = Done md /\ Z.of_nat (length md) = mdlen) /\
  (mdlen = 100 -> forall fuel, keccak fuel inp mdlen = OutOfFuel) /\
  (~ good_mdlen mdlen -> mdlen <> 100 -> keccak (keccak_fuel inp) inp mdlen = Aborted).
Proof.
  split_and!.
  - intros Hm. destruct (keccak_good (keccak_fuel inp) inp mdlen Hm) as (st & tail & E & Hs & ->);
      [unfold keccak_fuel; lia|]. eexists. split; [done|].
    unfold squeeze. rewrite length_state_bytes, length_take, length_keccakf, length_xor_lanes, Hs.
    destruct Hm as [->|[? ?]]; [done|]. pose proof (Z.div_mod mdlen 8). lia.
  - intros -> fuel. unfold keccak. cbn [Z.eqb Z.leb Z.ltb]. by rewrite absorb_zero_rate.
  - apply keccak_bad.
Qed.

Lemma keccak_outcome_witness :
  (exists md, keccak (keccak_fuel []) [] 32 = Done md /\ Z.of_nat (length md) = 32) /\
  (forall fuel, keccak fuel [] 100 = OutOfFuel) /\
  keccak (keccak_fuel []) [] 28 = Aborted.
Proof.
  split_and!.
  - apply (keccak_outcome [] 32). right. split; [lia|reflexivity].
  - by apply (keccak_outcome [] 100).
  - apply (keccak_outcome [] 28); [|lia]. unfold good_mdlen. lia.
Defined.

Lemma cn_fast_hash_squeeze data : exists st tail,
  absorbs 136 (replicate 25 0) data = Some (st, tail) /\
  cn_fast_hash data = Done (squeeze 32 st tail) /\ length (squeeze 32 st tail) = HASH_SIZE.
Proof.
  destruct (keccak_good (keccak_fuel data) data 200) as (st & tail & E & Hs & E2);
    [by left|unfold keccak_fuel; lia|].
  exists st, tail. split; [done|]. split.
  - unfold cn_fast_hash, hash_process, keccak1600. rewrite E2. apply (f_equal Done).
    unfold squeeze. change (rate 200) with 136%nat. change (rate 32) with 136%nat.
    change HASH_SIZE with (8 * 4)%nat. rewrite take_state_bytes, take_take. done.
  - unfold squeeze. by rewrite length_state_bytes, length_take, length_keccakf, length_xor_lanes, Hs.
Qed.

(** [cn_fast_hash], which truncates the 200-byte output of [keccak1600],
    is the 32-byte digest [keccak(..., 32)], and is total. *)
Theorem cn_fast_hash_is_keccak256 data :
  exists md, length md = HASH_SIZE /\ cn_fast_hash data = Done md /\
    keccak (keccak_fuel data) data 32 = Done md.
Proof.
  destruct (keccak_good (keccak_fuel data) data 32) as (st & tail & E & Hs & ->);
    [right; split; [lia|done]|unfold keccak_fuel; lia|].
  destruct (cn_fast_hash_squeeze data) as (st' & tail' & E' & -> & Hl).
  change (rate 32) with 136%nat in E. rewrite E in E'. injection E' as <- <-. exists (squeeze 32 st tail). split; [exact Hl|split; reflexivity].
Qed.
