(* ===== verification/TreeHash.v ===== *)
(** * The transaction tree hash: src/src/crypto/tree-hash.c

    [tree_hash] hashes a block's transaction hashes into one root with an
    array [ints] that is filled level by level in place.  A failed
    [assert] is [None].  The component is stated for any 64-byte
    compression [fast_hash]; [CnTree] at the end instantiates it with
    [cn_fast_hash]. *)

From S2P Require Import Prelude Keccak KeccakProofs.

(** ** tree_hash_cnt *)

(** [while (pow < count) pow <<= 1;] on a 64-bit [size_t]. *)
Fixpoint pow_loop (fuel : nat) (pow count : Z) : option Z :=
  match fuel with
  | O => None
  | S fuel => if pow <? count then pow_loop fuel (u64 (pow .<< 1)) count else Some pow
  end.

Definition tree_hash_cnt (count : Z) : option Z :=
  if negb (3 <=? count) then None
  else if negb (count <=? 0x10000000) then None
  else match pow_loop 63 2 count with
       | Some pow => Some (pow .>> 1)
       | None => None
       end.

Lemma pow_loop_ok fuel k count :
  (0 < k)%nat -> 2 ^ (Z.of_nat k - 1) < count <= 2 ^ (Z.of_nat k + Z.of_nat fuel - 1) ->
  Z.of_nat k + Z.of_nat fuel <= 64 ->
  exists j, (k <= j)%nat /\ pow_loop fuel (2 ^ Z.of_nat k) count = Some (2 ^ Z.of_nat j) /\
    2 ^ (Z.of_nat j - 1) < count <= 2 ^ Z.of_nat j.
Proof.
  revert k. induction fuel as [|fuel IH]; intros k Hk Hc Hf; cbn [pow_loop].
  - replace (Z.of_nat k + Z.of_nat 0 - 1) with (Z.of_nat k - 1) in Hc by lia. lia.
  - destruct (Z.ltb_spec (2 ^ Z.of_nat k) count) as [Hlt|Hge].
    + rewrite Z.shiftl_mul_pow2, Z.pow_1_r by lia.
      replace (2 ^ Z.of_nat k * 2) with (2 ^ Z.of_nat (S k))
        by (rewrite Nat2Z.inj_succ, Z.pow_succ_r; lia).
      rewrite wrap_small.
      2:{ split; [apply Z.pow_nonneg; lia|]. apply Z.pow_lt_mono_r; [lia|lia|].
          destruct fuel; [|lia].
          replace (Z.of_nat k + Z.of_nat 1 - 1) with (Z.of_nat k) in Hc by lia. lia. }
      destruct (IH (S k)) as (j & Hj & E & Hb); [lia| |lia|].
      * split; [by replace (Z.of_nat (S k) - 1) with (Z.of_nat k) by lia|].
        replace (Z.of_nat (S k) + Z.of_nat fuel - 1) with (Z.of_nat k + Z.of_nat (S fuel) - 1)
          by lia. apply Hc.
      * exists j. split; [lia|]. done.
    + exists k. split; [lia|]. split; [done|]. lia.
Qed.

(** The largest power of two below [count]. *)
Lemma tree_hash_cnt_ok count :
  3 <= count <= 2 ^ 28 -> exists k,
    tree_hash_cnt count = Some (2 ^ Z.of_nat k) /\ (0 < k <= 27)%nat /\
    2 ^ Z.of_nat k < count <= 2 * 2 ^ Z.of_nat k.
Proof.
  intros Hc. unfold tree_hash_cnt.
  replace (3 <=? count) with true by lia. replace (count <=? 0x10000000) with true by lia.
  destruct (pow_loop_ok 63 1 count) as (j & Hj & E & Hb); [lia|simpl; lia|simpl; lia|].
  change (2 ^ Z.of_nat 1) with 2 in E. cbn [negb]. rewrite E.
  assert (1 < j)%nat by (destruct (decide (j = 1)%nat); [subst; simpl in Hb; lia|lia]).
  exists (j - 1)%nat. replace (Z.of_nat (j - 1)) with (Z.of_nat j - 1) by lia.
  rewrite Z.shiftr_div_pow2, <- Z.pow_sub_r by lia. split; [done|].
  assert (E2 : 2 ^ Z.of_nat j = 2 * 2 ^ (Z.of_nat j - 1))
    by (rewrite <- Z.pow_succ_r by lia; f_equal; lia).
  split; [|lia]. split; [lia|].
  destruct (decide (j <= 28)%nat); [lia|]. exfalso.
  assert (2 ^ 28 <= 2 ^ (Z.of_nat j - 1)) by (apply Z.pow_le_mono_r; lia). lia.
Qed.

Lemma pow2_interval_unique n j k :
  (2 ^ j < n <= 2 * 2 ^ j)%nat -> (2 ^ k < n <= 2 * 2 ^ k)%nat -> j = k.
Proof.
  intros Hj Hk. destruct (Nat.lt_trichotomy j k) as [H|[H|H]]; [|done|];
    (pose proof (Nat.pow_le_mono_r 2 _ _ ltac:(lia) H) as P; rewrite Nat.pow_succ_r' in P; lia).
Qed.

(** ** tree_hash *)

Section TreeHash.
(** [cn_fast_hash(data, 64, out)]. *)
Context (fast_hash : bytes -> bytes).

(** [for (...; j < cnt; i += 2, ++j) cn_fast_hash(src[i], 64, ints[j]);]
    with [src] read from the current array when [src = None]; also
    returns the final [i]. *)
Fixpoint pair_loop (n : nat) (src : option (list bytes)) (i j : nat) (ints : list bytes)
    : list bytes * nat :=
  match n with
  | O => (ints, i)
  | S n =>
      let from := match src with Some hashes => hashes | None => ints end in
      let ints := <[j := fast_hash (from !!! i ++ from !!! S i)]> ints in
      pair_loop n src (i + 2) (j + 1) ints
  end.

(** [while (cnt > 2) { cnt >>= 1; ... }]; [fuel] bounds the iterations. *)
Fixpoint level_loop (fuel cnt : nat) (ints : list bytes) : option (list bytes) :=
  match fuel with
  | O => None
  | S fuel =>
      if (2 <? cnt)%nat then
        let cnt := (cnt / 2)%nat in
        level_loop fuel cnt (pair_loop cnt None 0 0 ints).1
      else Some ints
  end.

Definition tree_hash (hashes : list bytes) : option bytes :=
  let count := length hashes in
  if (count =? 0)%nat then None
  else if (count =? 1)%nat then Some (hashes !!! 0%nat)
  else if (count =? 2)%nat then Some (fast_hash (hashes !!! 0%nat ++ hashes !!! 1%nat))
  else match tree_hash_cnt (Z.of_nat count) with
  | None => None
  | Some cntz =>
      let cnt := Z.to_nat cntz in
      let start := (2 * cnt - count)%nat in
      let ints := take start hashes ++ replicate (cnt - start) (replicate HASH_SIZE 0) in
      let '(ints, i) := pair_loop (cnt - start) (Some hashes) start start ints in
      if negb (i =? count)%nat then None else
      match level_loop cnt cnt ints with
      | None => None
      | Some ints => Some (fast_hash (ints !!! 0%nat ++ ints !!! 1%nat))
      end
  end.

(** ** The Merkle tree *)

(** The root of a perfect binary tree with [2^k] leaves. *)
Fixpoint perfect_root (k : nat) (leaves : list bytes) : bytes :=
  match k with
  | O => leaves !!! 0%nat
  | S k => fast_hash (perfect_root k (take (2 ^ k) leaves) ++ perfect_root k (drop (2 ^ k) leaves))
  end.

(** Hash neighbours pairwise. *)
Fixpoint pairs (l : list bytes) : list bytes :=
  match l with
  | a :: b :: l => fast_hash (a ++ b) :: pairs l
  | _ => []
  end.

(** The tree over [count] leaves, [2^k < count <= 2^(k+1)]: the last
    [2 (count - 2^k)] leaves are hashed in pairs one level down, so that
    [2^k] nodes form the bottom of a perfect tree. *)
Definition merkle_root (k : nat) (hashes : list bytes) : bytes :=
  let start := (2 * 2 ^ k - length hashes)%nat in
  perfect_root k (take start hashes ++ pairs (drop start hashes)).

(** ** In-place loops against the tree *)

Lemma length_pairs n l : length l = (2 * n)%nat -> length (pairs l) = n.
Proof.
  revert l. induction n as [|n IH]; intros l Hl; [by destruct l|].
  destruct l as [|a [|b l]]; simpl in *; [lia..|]. rewrite IH; lia.
Qed.

Lemma pairs_app n l k : length l = (2 * n)%nat -> pairs (l ++ k) = pairs l ++ pairs k.
Proof.
  revert l. induction n as [|n IH]; intros l Hl; [by destruct l|].
  destruct l as [|a [|b l]]; simpl in *; [lia..|]. rewrite IH; [done|lia].
Qed.

Lemma pairs_drop i (l : list bytes) : (S i < length l)%nat ->
  pairs (drop i l) = fast_hash (l !!! i ++ l !!! S i) :: pairs (drop (i + 2) l).
Proof.
  intros Hi. rewrite (drop_lookup_total l i), (drop_lookup_total l (S i)) by lia.
  by replace (i + 2)%nat with (S (S i)) by lia.
Qed.

(** From another array: positions [j .. j+n) receive the pairs. *)
Lemma pair_loop_src hashes n i j ints :
  length ints = (j + n)%nat -> length hashes = (i + 2 * n)%nat ->
  pair_loop n (Some hashes) i j ints = (take j ints ++ pairs (drop i hashes), (i + 2 * n)%nat).
Proof.
  revert i j ints. induction n as [|n IH]; intros i j ints Hi Hh; cbn [pair_loop].
  - rewrite (drop_ge hashes), take_ge by lia. simpl. rewrite app_nil_r. f_equal. lia.
  - rewrite IH by (rewrite ?length_insert; lia). f_equal; [|lia].
    rewrite (pairs_drop i) by lia. replace (j + 1)%nat with (S j) by lia.
    rewrite take_lookup_total by (rewrite length_insert; lia).
    rewrite take_insert_ge, list_lookup_total_insert_eq, <- app_assoc by lia. done.
Qed.

(** Within the array: writing position [j] never disturbs the entries
    [2j, 2j + 1, ...] still to be read. *)
Lemma pair_loop_inplace n done_ l :
  (2 * (length done_ + n) <= length l)%nat ->
  (pair_loop n None (2 * length done_) (length done_) (done_ ++ drop (length done_) l)).1 =
  done_ ++ pairs (take (2 * n) (drop (2 * length done_) l)) ++ drop (length done_ + n) l.
Proof.
  revert done_. induction n as [|n IH]; intros done_ Hl; cbn [pair_loop].
  - rewrite Nat.mul_0_r, take_0, Nat.add_0_r. done.
  - set (j := length done_) in *.
    assert (Hread : forall k, (j <= k)%nat -> (done_ ++ drop j l) !!! k = l !!! k).
    { intros k Hk. rewrite lookup_total_app_r by (unfold j in *; lia).
      rewrite !list_lookup_total_alt, lookup_drop. fold j. do 2 f_equal. lia. }
    rewrite !Hread by lia.
    set (x := fast_hash _).
    assert (E : <[j:=x]> (done_ ++ drop j l) = (done_ ++ [x]) ++ drop (length (done_ ++ [x])) l).
    { rewrite insert_app_r_alt by (unfold j; lia). fold j. rewrite Nat.sub_diag.
      rewrite (drop_lookup_total l j) by lia. cbn [insert list_insert].
      rewrite length_app, <- app_assoc. fold j. simpl. do 3 f_equal. lia. }
    rewrite E. replace (2 * j + 2)%nat with (2 * length (done_ ++ [x]))%nat
      by (rewrite length_app; simpl; unfold j; lia).
    replace (j + 1)%nat with (length (done_ ++ [x])) by (rewrite length_app; done).
    rewrite IH by (rewrite length_app; simpl; fold j; lia).
    rewrite length_app. fold j. simpl length.
    rewrite (drop_lookup_total l (2 * j)), (drop_lookup_total l (S (2 * j))) by lia.
    replace (2 * S n)%nat with (S (S (2 * n))) by lia. rewrite !firstn_cons.
    cbn [pairs]. fold x. replace (2 * (j + 1))%nat with (S (S (2 * j))) by lia.
    replace (j + 1 + n)%nat with (j + S n)%nat by lia. by rewrite <- !app_assoc.
Qed.

Lemma pow2_S k : (2 ^ S k = 2 * 2 ^ k)%nat.
Proof. done. Qed.

Lemma perfect_root_S k leaves :
  perfect_root (S k) leaves =
  fast_hash (perfect_root k (take (2 ^ k) leaves) ++ perfect_root k (drop (2 ^ k) leaves)).
Proof. done. Qed.

Lemma perfect_root_pairs k l :
  length l = (2 ^ S k)%nat -> perfect_root (S k) l = perfect_root k (pairs l).
Proof.
  revert l. induction k as [|k IH]; intros l Hl.
  - destruct l as [|a [|b [|]]]; simpl in Hl; done.
  - rewrite pow2_S in Hl.
    assert (Ht : length (take (2 ^ S k) l) = (2 ^ S k)%nat) by (rewrite length_take; lia).
    assert (Hd : length (drop (2 ^ S k) l) = (2 ^ S k)%nat) by (rewrite length_drop; lia).
    rewrite (perfect_root_S (S k)), (perfect_root_S k (pairs l)).
    replace (pairs l) with (pairs (take (2 ^ S k) l ++ drop (2 ^ S k) l)) by (by rewrite take_drop).
    rewrite !IH by done. rewrite (pairs_app (2 ^ k)) by (rewrite Ht; apply pow2_S).
    assert (Hp : length (pairs (take (2 ^ S k) l)) = (2 ^ k)%nat)
      by (apply length_pairs; rewrite Ht; apply pow2_S).
    by rewrite take_app_length', drop_app_length'.
Qed.

Lemma level_loop_ok k fuel ints :
  (k <= fuel)%nat -> (2 ^ S k <= length ints)%nat -> exists ints',
    level_loop (S fuel) (2 ^ S k) ints = Some ints' /\
    fast_hash (ints' !!! 0%nat ++ ints' !!! 1%nat) = perfect_root (S k) (take (2 ^ S k) ints).
Proof.
  revert fuel ints. induction k as [|k IH]; intros fuel ints Hf Hl.
  - exists ints. split; [done|].
    destruct ints as [|a [|b ints]]; simpl in Hl; [lia..|]. done.
  - cbn [level_loop]. destruct (Nat.ltb_spec 2 (2 ^ S (S k))) as [_|Hn].
    2:{ rewrite !pow2_S in Hn. pose proof (Nat.pow_nonzero 2 k ltac:(lia)). lia. }
    assert (Hhalf : (2 ^ S (S k) / 2 = 2 ^ S k)%nat)
      by (rewrite (pow2_S (S k)), Nat.mul_comm; apply Nat.div_mul; lia).
    rewrite Hhalf. rewrite (pow2_S (S k)) in Hl.
    pose proof (pair_loop_inplace (2 ^ S k) [] ints ltac:(cbn [length]; lia)) as P.
    cbn [length] in P. rewrite Nat.mul_0_r, !drop_0, !app_nil_l, Nat.add_0_l in P. rewrite P.
    set (l := take (2 * 2 ^ S k) ints).
    assert (Hp : length (pairs l) = (2 ^ S k)%nat)
      by (apply length_pairs; unfold l; rewrite length_take; lia).
    destruct fuel as [|fuel]; [lia|].
    destruct (IH fuel (pairs l ++ drop (2 ^ S k) ints)) as (ints' & E & R);
      [lia|rewrite length_app; lia|].
    exists ints'. split; [exact E|]. rewrite R, take_app_length' by done.
    symmetry. apply perfect_root_pairs. unfold l. rewrite length_take, (pow2_S (S k)). lia.
Qed.

Lemma tree_hash_merkle hashes :
  (3 <= length hashes)%nat -> Z.of_nat (length hashes) <= 2 ^ 28 -> exists k,
    (2 ^ k < length hashes <= 2 * 2 ^ k)%nat /\
    tree_hash hashes = Some (merkle_root k hashes).
Proof.
  intros H3 Hmax. destruct (tree_hash_cnt_ok (Z.of_nat (length hashes))) as (k & E & Hk & Hc);
    [lia|]. exists k.
  assert (Hz : Z.to_nat (2 ^ Z.of_nat k) = (2 ^ k)%nat) by (rewrite <- (Nat2Z.id (2 ^ k)), Nat2Z.inj_pow; done).
  assert (Hc' : (2 ^ k < length hashes <= 2 * 2 ^ k)%nat) by lia. split; [done|].
  unfold tree_hash. rewrite E, Hz.
  replace (length hashes =? 0)%nat with false by lia.
  replace (length hashes =? 1)%nat with false by lia.
  replace (length hashes =? 2)%nat with false by lia. cbv beta iota zeta.
  set (start := (2 * 2 ^ k - length hashes)%nat).
  rewrite pair_loop_src by (rewrite ?length_app, ?length_take, ?length_replicate; lia).
  replace (start + 2 * (2 ^ k - start) =? length hashes)%nat with true by lia. cbn [negb].
  rewrite take_app_length' by (rewrite length_take; lia).
  set (ints := take start hashes ++ pairs (drop start hashes)).
  assert (Hi : length ints = (2 ^ k)%nat).
  { unfold ints. rewrite length_app, length_take,
      (length_pairs (length hashes - 2 ^ k)); [lia|rewrite length_drop; lia]. }
  destruct k as [|k]; [lia|].
  pose proof (Nat.pow_gt_lin_r 2 (S k) ltac:(lia)) as Hg.
  destruct (level_loop_ok k (2 ^ S k - 1) ints) as (ints' & El & R); [lia|lia|].
  replace (S (2 ^ S k - 1)) with (2 ^ S k)%nat in El by lia. rewrite El, R, take_ge by lia.
  done.
Qed.

(** ** Binding *)

Definition collision : Prop := exists x y, x <> y /\ fast_hash x = fast_hash y.

Definition width32 (l : list bytes) : Prop := Forall (fun h => length h = HASH_SIZE) l.

Lemma fast_hash_inj x y : fast_hash x = fast_hash y -> x = y \/ collision.
Proof. intros E. destruct (decide (x = y)); [by left|]. right. by exists x, y. Qed.

Lemma pairs_inj n l1 l2 :
  length l1 = (2 * n)%nat -> length l2 = (2 * n)%nat -> width32 l1 -> width32 l2 ->
  pairs l1 = pairs l2 -> l1 = l2 \/ collision.
Proof.
  revert l1 l2. induction n as [|n IH]; intros l1 l2 H1 H2 W1 W2 E.
  - left. by destruct l1, l2.
  - destruct l1 as [|a1 [|b1 l1]]; simpl in H1; [lia..|].
    destruct l2 as [|a2 [|b2 l2]]; simpl in H2; [lia..|].
    unfold width32 in W1, W2.
    repeat match goal with H : Forall _ (_ :: _) |- _ => inversion_clear H end.
    injection E as Eh Et. destruct (fast_hash_inj _ _ Eh) as [Ea|]; [|by right].
    apply app_inj_1 in Ea as [-> ->]; [|congruence].
    destruct (IH l1 l2) as [->|]; [lia|lia|done|done|done|by left|by right].
Qed.

Context (length_fast_hash : forall d, length (fast_hash d) = HASH_SIZE).

Lemma pairs_width l : width32 (pairs l).
Proof.
  remember (length l) as n eqn:En. revert l En.
  induction n as [n IH] using lt_wf_ind; intros l ->.
  destruct l as [|a [|b l]]; [constructor..|]. constructor; [apply length_fast_hash|].
  eapply IH; [|done]. simpl. lia.
Qed.

Lemma length_perfect_root k l :
  length l = (2 ^ k)%nat -> width32 l -> length (perfect_root k l) = HASH_SIZE.
Proof.
  intros Hl Hw. destruct k as [|k]; [|apply length_fast_hash].
  destruct l as [|a l]; [done|]. by inversion_clear Hw.
Qed.

Lemma perfect_root_inj k l1 l2 :
  length l1 = (2 ^ k)%nat -> length l2 = (2 ^ k)%nat -> width32 l1 -> width32 l2 ->
  perfect_root k l1 = perfect_root k l2 -> l1 = l2 \/ collision.
Proof.
  revert l1 l2. induction k as [|k IH]; intros l1 l2 H1 H2 W1 W2 E.
  - left. destruct l1 as [|a1 [|]], l2 as [|a2 [|]]; simpl in *; try lia. congruence.
  - rewrite !perfect_root_S in E. rewrite pow2_S in H1, H2.
    destruct (fast_hash_inj _ _ E) as [Ea|]; [|by right].
    assert (Hw : forall l, width32 l -> width32 (take (2 ^ k) l) /\ width32 (drop (2 ^ k) l))
      by (intros l Hl; split; [by apply Forall_take|by apply Forall_drop]).
    destruct (Hw l1 W1), (Hw l2 W2).
    apply app_inj_1 in Ea as [Et Ed];
      [|rewrite !length_perfect_root; [done|..]; rewrite ?length_take; (lia || done)].
    apply IH in Et as [Et|]; [..|done|done]; rewrite ?length_take; [|by right|lia|lia].
    apply IH in Ed as [Ed|]; [..|done|done]; rewrite ?length_drop; [|by right|lia|lia].
    left. by rewrite <- (take_drop (2 ^ k) l1), Et, Ed, take_drop.
Qed.

Lemma merkle_root_inj k l1 l2 :
  length l1 = length l2 -> (2 ^ k < length l1 <= 2 * 2 ^ k)%nat -> width32 l1 -> width32 l2 ->
  merkle_root k l1 = merkle_root k l2 -> l1 = l2 \/ collision.
Proof.
  intros Hl Hk W1 W2 E. unfold merkle_root in E. rewrite <- Hl in E.
  set (start := (2 * 2 ^ k - length l1)%nat) in *. set (n := (length l1 - 2 ^ k)%nat).
  assert (Hd : forall l : list bytes, length l = length l1 -> length (drop start l) = (2 * n)%nat)
    by (intros l Hll; rewrite length_drop; lia).
  assert (Hi : forall l : list bytes, length l = length l1 -> width32 l ->
    length (take start l ++ pairs (drop start l)) = (2 ^ k)%nat /\
    width32 (take start l ++ pairs (drop start l))).
  { intros l Hll Hw. split.
    - rewrite length_app, length_take, (length_pairs n) by auto. lia.
    - apply Forall_app_2; [by apply Forall_take|apply pairs_width]. }
  destruct (Hi l1 eq_refl W1), (Hi l2 (eq_sym Hl) W2).
  apply perfect_root_inj in E as [E|]; [|by right|done..].
  apply app_inj_1 in E as [Et Ep]; [|rewrite !length_take; lia].
  apply (pairs_inj n) in Ep as [Ed|]; [|by right|by apply Hd|by apply Hd|by apply Forall_drop..].
  left. by rewrite <- (take_drop start l1), Et, Ed, take_drop.
Qed.
End TreeHash.

(** ** tree_hash of the node: hashing with [cn_fast_hash] *)

Module CnTree.

Definition cn_fast_hash64 (data : bytes) : bytes :=
  match cn_fast_hash data with Done md => md | _ => [] end.

Definition cn_tree_hash : list bytes -> option bytes := tree_hash cn_fast_hash64.

Lemma length_cn_fast_hash64 data : length (cn_fast_hash64 data) = HASH_SIZE.
Proof.
  unfold cn_fast_hash64. destruct (cn_fast_hash_squeeze data) as (st & tail & _ & -> & H). exact H.
Qed.

(** C36: on 3 to 2^28 transaction hashes the in-place [tree_hash] passes all
    its assertions and returns the root of the Merkle tree whose bottom has
    the largest power of two below the count as its width, the surplus
    leaves being hashed in pairs one level lower. *)
Theorem tree_hash_is_merkle hashes :
  (3 <= length hashes)%nat -> Z.of_nat (length hashes) <= 2 ^ 28 -> exists k,
    (2 ^ k < length hashes <= 2 * 2 ^ k)%nat /\
    tree_hash_cnt (Z.of_nat (length hashes)) = Some (2 ^ Z.of_nat k) /\
    cn_tree_hash hashes = Some (merkle_root cn_fast_hash64 k hashes).
Proof.
  intros H3 Hm. destruct (tree_hash_merkle cn_fast_hash64 hashes H3 Hm) as (k & Hk & E).
  exists k. split; [done|]. split; [|done].
  destruct (tree_hash_cnt_ok (Z.of_nat (length hashes))) as (k' & -> & _ & Hk'); [lia|].
  f_equal. f_equal. f_equal.
  assert (E2 : forall j, Z.of_nat (2 ^ j) = 2 ^ Z.of_nat j) by (intros; apply Nat2Z.inj_pow).
  rewrite <- E2 in Hk'. apply (pow2_interval_unique (length hashes)); lia.
Qed.

Definition hashes3 : list bytes := replicate 32 <$> [1; 2; 3].

Lemma tree_hash_is_merkle_witness : exists k, (2 ^ k < 3 <= 2 * 2 ^ k)%nat /\
  tree_hash_cnt 3 = Some (2 ^ Z.of_nat k) /\
  cn_tree_hash hashes3 = Some (merkle_root cn_fast_hash64 k hashes3).
Proof. apply (tree_hash_is_merkle hashes3); simpl; lia. Defined.

Lemma tree_hash_binds hashes1 hashes2 :
  length hashes1 = length hashes2 -> (1 <= length hashes1)%nat ->
  Z.of_nat (length hashes1) <= 2 ^ 28 -> width32 hashes1 -> width32 hashes2 ->
  cn_tree_hash hashes1 = cn_tree_hash hashes2 ->
  hashes1 = hashes2 \/ collision cn_fast_hash64.
Proof.
  intros Hl H1 Hm W1 W2 E. destruct (decide (3 <= length hashes1)%nat) as [H3|H3].
  - destruct (tree_hash_merkle cn_fast_hash64 hashes1 H3 Hm) as (k1 & Hk1 & E1).
    destruct (tree_hash_merkle cn_fast_hash64 hashes2) as (k2 & Hk2 & E2); [lia|lia|].
    assert (k2 = k1) as -> by (apply (pow2_interval_unique (length hashes1)); lia).
    apply (merkle_root_inj cn_fast_hash64 length_cn_fast_hash64 k1); [done..|].
    unfold cn_tree_hash in E. rewrite E1, E2 in E. by injection E.
  - destruct hashes1 as [|a1 [|b1 [|]]], hashes2 as [|a2 [|b2 [|]]]; simpl in *; try lia.
    + left. by injection E as ->.
    + injection E as E. destruct (fast_hash_inj cn_fast_hash64 _ _ E) as [Ea|]; [|by right].
      unfold width32 in W1, W2.
      repeat match goal with H : Forall _ (_ :: _) |- _ => inversion_clear H end.
      apply app_inj_1 in Ea as [-> ->]; [by left|congruence].
Qed.

(** The root commits to the list of hashes.  Two lists of equally many
    32-byte hashes (1 to 2^28 of them) with the same [tree_hash] are equal,
    or exhibit a collision of [cn_fast_hash]. *)
Theorem tree_hash_binding hashes1 hashes2 :
  length hashes1 = length hashes2 -> (1 <= length hashes1)%nat ->
  Z.of_nat (length hashes1) <= 2 ^ 28 -> width32 hashes1 -> width32 hashes2 ->
  cn_tree_hash hashes1 = cn_tree_hash hashes2 ->
  hashes1 = hashes2 \/ collision cn_fast_hash64.
Proof. apply tree_hash_binds. Qed.

Lemma tree_hash_binding_witness : hashes3 = hashes3 \/ collision cn_fast_hash64.
Proof.
  apply (tree_hash_binding hashes3 hashes3);
    [reflexivity|simpl; lia|simpl; lia|repeat constructor|repeat constructor|reflexivity].
Defined.

End CnTree.
