(* ===== verification/Random.v ===== *)
(** * The random generator: src/src/crypto/random.c

    A static [union hash_state] stirred by [hash_permutation], and the debug
    word [curstate] that the assertions of the code use to catch re-entrant
    use.  The operating system's entropy is the argument [seed] of
    [init_random].  A failed [assert] is [None]. *)

From S2P Require Import Prelude Keccak KeccakProofs.

Record random_state := mkrandom {
  rstate : list Z;   (* static union hash_state state, as lanes *)
  curstate : Z;      (* static volatile int curstate *)
}.

(** Reading a 200-byte buffer as 25 lanes. *)
Definition lanes_of (bs : bytes) : list Z := lane bs <$> seq 0 25.

(** Static storage before [init_random]. *)
Definition random_start : random_state := mkrandom (replicate 25 0) 0.

(** [generate_system_random_bytes(32, &state)] overwrites the first 32 bytes. *)
Definition init_random (seed : bytes) (s : random_state) : option random_state :=
  let st := lanes_of (memcpy (state_bytes (rstate s)) 0 seed) in
  if negb (curstate s =? 0) then None else Some (mkrandom st 1).

Definition deinit_random (s : random_state) : option random_state :=
  if negb (curstate s =? 1) then None else Some (mkrandom (replicate 25 0) 0).

(** The loop of [generate_random_bytes_not_thread_safe]; [fuel] bounds its
    iterations. *)
Fixpoint random_loop (fuel n : nat) (st : list Z) : option (bytes * list Z) :=
  match fuel with
  | O => None
  | S fuel =>
      let st := hash_permutation st in
      if (n <=? HASH_DATA_AREA)%nat then Some (take n (state_bytes st), st)
      else match random_loop fuel (n - HASH_DATA_AREA) st with
           | Some (result, st') => Some (take HASH_DATA_AREA (state_bytes st) ++ result, st')
           | None => None
           end
  end.

Definition generate_random_bytes_not_thread_safe (n : nat) (s : random_state)
    : option (bytes * random_state) :=
  if negb (curstate s =? 1) then None
  else if (n =? 0)%nat then Some ([], mkrandom (rstate s) 1)
  else match random_loop n n (rstate s) with
       | Some (result, st) => Some (result, mkrandom st 1)
       | None => None
       end.

Definition setup_random (value : Z) (s : random_state) : random_state :=
  mkrandom (lanes_of (replicate 200 (u8 value))) (curstate s).

(** ** What is generated *)

Definition stirred (i : nat) (st : list Z) : list Z := Nat.iter i hash_permutation st.

(** The output stream: the data area of each successive state. *)
Definition squeezed (k : nat) (st : list Z) : bytes :=
  mjoin ((fun i => take HASH_DATA_AREA (state_bytes (stirred (S i) st))) <$> seq 0 k).

Definition blocks_for (n : nat) : nat := (n + 135) / 136.

#[local] Opaque keccakf.

Lemma length_hash_permutation st : length (hash_permutation st) = length st.
Proof. apply length_keccakf. Qed.

Lemma stirred_S i st : stirred i (hash_permutation st) = stirred (S i) st.
Proof. unfold stirred. by rewrite Nat.iter_succ_r. Qed.

Lemma squeezed_S k st :
  squeezed (S k) st = take HASH_DATA_AREA (state_bytes (hash_permutation st))
                      ++ squeezed k (hash_permutation st).
Proof.
  unfold squeezed. rewrite <- cons_seq, fmap_cons, mjoin_cons.
  apply (f_equal (fun l => _ ++ mjoin l)).
  rewrite <- (fmap_S_seq 0 k), <- list_fmap_compose.
  apply list_fmap_ext. intros i x _. cbn [compose]. by rewrite <- stirred_S.
Qed.

Lemma random_loop_ok fuel n st :
  length st = 25%nat -> (0 < n <= fuel)%nat ->
  random_loop fuel n st =
  Some (take n (squeezed (blocks_for n) st), stirred (blocks_for n) st).
Proof.
  revert n st. induction fuel as [|fuel IH]; intros n st Hl Hn; [lia|]. cbn [random_loop].
  assert (Hb : length (state_bytes (hash_permutation st)) = 200%nat)
    by (rewrite length_state_bytes, length_hash_permutation, Hl; done).
  unfold HASH_DATA_AREA. destruct (Nat.leb_spec n 136) as [Hle|Hgt].
  - assert (blocks_for n = 1%nat) as -> by (unfold blocks_for; lia).
    rewrite squeezed_S. unfold HASH_DATA_AREA.
    rewrite take_app_le, take_take, Nat.min_l by (rewrite ?length_take; lia). done.
  - rewrite IH by (rewrite ?length_hash_permutation; lia).
    assert (blocks_for n = S (blocks_for (n - 136))) as -> by (unfold blocks_for; lia).
    rewrite squeezed_S, stirred_S. unfold HASH_DATA_AREA.
    rewrite (take_app_ge _ _ n) by (rewrite length_take; lia).
    rewrite length_take, Hb. done.
Qed.

Lemma length_squeezed k st : length st = 25%nat -> length (squeezed k st) = (136 * k)%nat.
Proof.
  revert st. induction k as [|k IH]; intros st Hst; [by rewrite Nat.mul_0_r|].
  rewrite squeezed_S, length_app, length_take, length_state_bytes, length_hash_permutation, Hst.
  rewrite IH by (by rewrite length_hash_permutation). unfold HASH_DATA_AREA. lia.
Qed.

Lemma state_bytes_are_bytes st : is_bytes (state_bytes st).
Proof.
  induction st as [|x st IH]; [constructor|]. rewrite state_bytes_cons.
  apply Forall_app. split; [apply le_bytes_is_bytes|exact IH].
Qed.

Lemma squeezed_is_bytes k st : is_bytes (squeezed k st).
Proof.
  revert st. induction k as [|k IH]; intros st; [constructor|]. rewrite squeezed_S.
  apply Forall_app. split; [apply Forall_take, state_bytes_are_bytes|apply IH].
Qed.

Lemma length_stirred k st : length (stirred k st) = length st.
Proof.
  revert st. induction k as [|k IH]; intros st; [done|].
  by rewrite <- stirred_S, IH, length_hash_permutation.
Qed.

Lemma generate_value n s : length (rstate s) = 25%nat -> curstate s = 1 ->
  generate_random_bytes_not_thread_safe n s
    = Some (take n (squeezed (blocks_for n) (rstate s)), mkrandom (stirred (blocks_for n) (rstate s)) 1)
  /\ length (take n (squeezed (blocks_for n) (rstate s))) = n.
Proof.
  intros Hl Hc. split.
  - unfold generate_random_bytes_not_thread_safe. rewrite Hc. cbn [Z.eqb Pos.eqb negb].
    destruct (Nat.eqb_spec n 0) as [->|]; [done|]. by rewrite random_loop_ok by lia.
  - rewrite length_take, length_squeezed by done. unfold blocks_for. lia.
Qed.

(** Asked for [n] bytes, an initialised generator returns exactly the
    first [n] bytes of the stream formed by the data areas (136 bytes) of
    the successive permuted states, and leaves the state permuted
    ceil(n / 136) times and [curstate] at rest. *)
Theorem generate_random_bytes_stream n s :
  length (rstate s) = 25%nat -> curstate s = 1 -> exists out,
    generate_random_bytes_not_thread_safe n s
      = Some (out, mkrandom (stirred (blocks_for n) (rstate s)) 1) /\
    length out = n /\ out = take n (squeezed (blocks_for n) (rstate s)).
Proof. intros Hl Hc. destruct (generate_value n s Hl Hc) as [E L]. eexists. by split_and!. Qed.

Lemma generate_random_bytes_stream_witness : exists out,
  generate_random_bytes_not_thread_safe 300 (mkrandom (replicate 25 0) 1)
    = Some (out, mkrandom (stirred 3 (replicate 25 0)) 1) /\
  length out = 300%nat /\ out = take 300 (squeezed 3 (replicate 25 0)).
Proof. apply (generate_random_bytes_stream 300 (mkrandom (replicate 25 0) 1)); reflexivity. Defined.

(** ** Life cycle *)

Inductive random_op :=
  | Init (seed : bytes)
  | Generate (n : nat)
  | Setup (value : Z)
  | Deinit.

(** One call into random.c: the state after it, [None] if it asserts. *)
Definition random_step (op : random_op) (s : random_state) : option random_state :=
  match op with
  | Init seed => init_random seed s
  | Generate n => snd <$> generate_random_bytes_not_thread_safe n s
  | Setup value => Some (setup_random value s)
  | Deinit => deinit_random s
  end.

Inductive reachable : random_state -> Prop :=
  | reachable_start : reachable random_start
  | reachable_step op s s' : reachable s -> random_step op s = Some s' -> reachable s'.

(** In every reachable state the pool has its 25 lanes and [curstate] is
    0 or 1 (never left at the in-use value 2); generation succeeds exactly
    between [init_random] and [deinit_random]. *)
Theorem random_lifecycle s :
  reachable s ->
  length (rstate s) = 25%nat /\ (curstate s = 0 \/ curstate s = 1) /\
  (forall n, is_Some (generate_random_bytes_not_thread_safe n s) <-> curstate s = 1).
Proof.
  intros Hr. assert (Hinv : length (rstate s) = 25%nat /\ (curstate s = 0 \/ curstate s = 1)).
  { induction Hr as [|op s s' _ [Hl Hc] E]; [split; [done|by left]|].
    destruct op as [seed|n|v|]; cbn [random_step] in E.
    - unfold init_random in E. destruct (curstate s =? 0); [|done]. injection E as <-.
      split; [done|by right].
    - unfold generate_random_bytes_not_thread_safe in E.
      destruct (curstate s =? 1); cbn [negb] in E; [|done].
      destruct (Nat.eqb_spec n 0); [injection E as <-; split; [done|by right]|].
      rewrite random_loop_ok in E by lia. injection E as <-. split; [|by right].
      cbn [rstate]. clear -Hl. induction (blocks_for n) as [|k IH]; [done|].
      unfold stirred in *. rewrite Nat.iter_succ. by rewrite length_hash_permutation.
    - injection E as <-. split; [done|done].
    - unfold deinit_random in E. destruct (curstate s =? 1); [|done]. injection E as <-.
      split; [done|by left]. }
  destruct Hinv as [Hl Hc]. split; [done|]. split; [done|]. intros n.
  unfold generate_random_bytes_not_thread_safe.
  destruct (Z.eqb_spec (curstate s) 1) as [E1|E1]; cbn [negb].
  - split; [done|]. intros _. destruct (Nat.eqb_spec n 0); [by eexists|].
    rewrite random_loop_ok by lia. by eexists.
  - split; [by intros [? ?]|done].
Qed.

Lemma random_lifecycle_witness :
  length (rstate random_start) = 25%nat /\ (curstate random_start = 0 \/ curstate random_start = 1) /\
  (forall n, is_Some (generate_random_bytes_not_thread_safe n random_start) <-> curstate random_start = 1).
Proof. apply (random_lifecycle random_start). constructor. Defined.
