(* ===== verification/CInt.v ===== *)
(** * Signed C arithmetic, three ways

    The limb code of crypto-ops.c is straight-line arithmetic on [int32_t] and
    [int64_t].  It is written here once, over the operations of the class
    [CInt], and read in four ways:
    - [machine]: on [Z], every result wrapped to two's complement, which is
      what the compiled code computes (the instance the rest of the library
      uses);
    - [checked]: on [option Z], where a signed overflow is [None], as the C
      standard leaves it undefined;
    - [exact]: on [Z] without any wrap-around, for the algebra;
    - [interval]: on [option (Z * Z)], an abstract interpretation, [None] being
      "no information".
    [agree] relates a concrete run, the exact run and the interval run of the
    same code; when the intervals of the results are known, the concrete run
    is the exact one.  The interval run is evaluated by computation, so the
    absence of overflow is never argued by hand. *)

From S2P Require Import Prelude.

(** [split w o b x] is the carry idiom
    [carry = (x + o) >> b; ...; x -= carry << b] on [w]-bit integers; it
    returns the carry and the new [x].  A left shift of a negative carry is
    the multiplication by a power of two. *)
Class CInt (A : Type) := {
  lit : Z -> A;
  add : Z -> A -> A -> A;
  sub : Z -> A -> A -> A;
  mul : Z -> A -> A -> A;
  sar : A -> Z -> A;
  cast : Z -> A -> A;
  split : Z -> Z -> Z -> A -> A * A
}.

Declare Scope cint_scope.
Delimit Scope cint_scope with cint.
Notation "a [+] b" := (add 64 a b) (at level 50, left associativity) : cint_scope.
Notation "a [-] b" := (sub 64 a b) (at level 50, left associativity) : cint_scope.
Notation "a [*] b" := (mul 64 a b) (at level 40, left associativity) : cint_scope.
Notation "a [+32] b" := (add 32 a b) (at level 50, left associativity) : cint_scope.
Notation "a [-32] b" := (sub 32 a b) (at level 50, left associativity) : cint_scope.
Notation "a [*32] b" := (mul 32 a b) (at level 40, left associativity) : cint_scope.
Open Scope cint_scope.

Definition clet {A B} (e : A) (k : A -> B) : B := k e.
Notation "'let:' x ':=' e 'in' k" := (clet e (fun x => k))
  (at level 10, x name, e at level 200, k at level 200) : cint_scope.

(** ** The instances *)

#[global] Instance machine : CInt Z := {
  lit z := z;
  add w x y := swrap w (x + y);
  sub w x y := swrap w (x - y);
  mul w x y := swrap w (x * y);
  sar x n := Z.shiftr x n;
  cast w x := swrap w x;
  split w o b x :=
    let c := Z.shiftr (swrap w (x + o)) b in
    (c, swrap w (x - swrap w (c * 2 ^ b)))
}.

Definition exact : CInt Z := {|
  lit z := z;
  add _ x y := x + y;
  sub _ x y := x - y;
  mul _ x y := x * y;
  sar x n := Z.shiftr x n;
  cast _ x := x;
  split _ o b x := let c := Z.shiftr (x + o) b in (c, x - c * 2 ^ b)
|}.

Definition fitsb (w x : Z) : bool := (- 2 ^ (w - 1) <=? x) && (x <? 2 ^ (w - 1)).
Definition chk (w x : Z) : option Z := if fitsb w x then Some x else None.

#[global] Instance checked : CInt (option Z) := {
  lit z := Some z;
  add w a b := x ← a; y ← b; chk w (x + y);
  sub w a b := x ← a; y ← b; chk w (x - y);
  mul w a b := x ← a; y ← b; chk w (x * y);
  sar a n := x ← a; Some (Z.shiftr x n);
  cast w a := x ← a; chk w x;
  split w o b a :=
    let c := x ← a; t ← chk w (x + o); Some (Z.shiftr t b) in
    (c, x ← a; t ← c; s ← chk w (t * 2 ^ b); chk w (x - s))
}.

Definition ival : Type := option (Z * Z).

Definition fit (w : Z) (i : Z * Z) : ival :=
  if fitsb w i.1 && fitsb w i.2 then Some i else None.

Definition imul (a b : Z * Z) : Z * Z :=
  let p := a.1 * b.1 in let q := a.1 * b.2 in
  let r := a.2 * b.1 in let s := a.2 * b.2 in
  (Z.min (Z.min p q) (Z.min r s), Z.max (Z.max p q) (Z.max r s)).

Definition isplit (w o b : Z) (a : Z * Z) : option (Z * Z) :=
  t ← fit w (a.1 + o, a.2 + o);
  let c := (Z.shiftr t.1 b, Z.shiftr t.2 b) in
  _ ← fit w (c.1 * 2 ^ b, c.2 * 2 ^ b);
  _ ← fit w (- o, 2 ^ b - 1 - o);
  Some c.

#[global] Instance interval : CInt ival := {
  lit z := Some (z, z);
  add w a b := x ← a; y ← b; fit w (x.1 + y.1, x.2 + y.2);
  sub w a b := x ← a; y ← b; fit w (x.1 - y.2, x.2 - y.1);
  mul w a b := x ← a; y ← b; fit w (imul x y);
  sar a n := x ← a; Some (Z.shiftr x.1 n, Z.shiftr x.2 n);
  cast w a := x ← a; fit w x;
  split w o b a :=
    let c := x ← a; isplit w o b x in
    (c, _ ← c; Some (- o, 2 ^ b - 1 - o))
}.

(** ** Soundness of an instance against the exact one *)

Definition fits (w x : Z) : Prop := - 2 ^ (w - 1) <= x < 2 ^ (w - 1).

Lemma fitsb_fits w x : fitsb w x = true <-> fits w x.
Proof. unfold fitsb, fits. lia. Qed.

Class Refines {M} (C : CInt M) (inj : M -> Z -> Prop) := {
  ref_lit z : inj (lit z) z;
  ref_add w a b x y : 0 < w -> inj a x -> inj b y -> fits w (x + y) ->
    inj (add w a b) (x + y);
  ref_sub w a b x y : 0 < w -> inj a x -> inj b y -> fits w (x - y) ->
    inj (sub w a b) (x - y);
  ref_mul w a b x y : 0 < w -> inj a x -> inj b y -> fits w (x * y) ->
    inj (mul w a b) (x * y);
  ref_sar a x n : inj a x -> inj (sar a n) (Z.shiftr x n);
  ref_cast w a x : 0 < w -> inj a x -> fits w x -> inj (cast w a) x;
  ref_split w o b a x (c := Z.shiftr (x + o) b) : 0 < w -> inj a x ->
    fits w (x + o) -> fits w (c * 2 ^ b) -> fits w (x - c * 2 ^ b) ->
    inj (split w o b a).1 c /\ inj (split w o b a).2 (x - c * 2 ^ b)
}.

#[global] Instance machine_refines : Refines machine eq.
Proof.
  split; cbn; intros; subst; repeat rewrite swrap_small by done; auto.
  rewrite (swrap_small w (_ * _)), swrap_small by done. auto.
Qed.

#[global] Instance checked_refines : Refines checked (fun m x => m = Some x).
Proof.
  assert (Hc : forall w x, fits w x -> chk w x = Some x).
  { intros w x H. unfold chk. apply fitsb_fits in H. by rewrite H. }
  split; cbn; intros; subst; cbn; rewrite ?Hc by done; auto.
  cbn. rewrite Hc by done. cbn. rewrite Hc by done. auto.
Qed.

Section Agree.
Context {M} {C : CInt M} {inj : M -> Z -> Prop} {HR : Refines C inj}.

Definition agree (m : M) (e : Z) (i : ival) : Prop :=
  match i with
  | Some (lo, hi) => inj m e /\ lo <= e <= hi
  | None => True
  end.

Lemma agree_intro m e lo hi : inj m e -> lo <= e <= hi -> agree m e (Some (lo, hi)).
Proof. done. Qed.

Lemma agree_lit z : agree (lit z) (@lit _ exact z) (lit z).
Proof. split; [apply ref_lit|cbn; lia]. Qed.

(** An operation on intervals that answers, answers within the width. *)
Lemma fit_some w lo hi r : fit w (lo, hi) = Some r -> r = (lo, hi) /\
  forall x, lo <= x <= hi -> fits w x.
Proof.
  unfold fit. cbn. destruct (fitsb w lo && fitsb w hi) eqn:E; [|done].
  intros [= <-]. apply andb_true_iff in E as [H1 H2].
  apply fitsb_fits in H1, H2. unfold fits in *. split; [done|]. lia.
Qed.

Lemma agree_fit m e w lo hi :
  (fits w e -> inj m e) -> lo <= e <= hi -> agree m e (fit w (lo, hi)).
Proof.
  intros H Hb. destruct (fit w (lo, hi)) eqn:E; [|done].
  apply fit_some in E as [-> Hf]. split; [apply H, Hf|]; done.
Qed.

Ltac agree_op :=
  intros;
  repeat match goal with
  | H : agree _ _ ?i |- _ => destruct i as [[? ?]|]; [|done]; destruct H as [? ?]
  end; cbn.

Lemma agree_add w m1 e1 i1 m2 e2 i2 : 0 < w -> agree m1 e1 i1 -> agree m2 e2 i2 ->
  agree (add w m1 m2) (@add _ exact w e1 e2) (add w i1 i2).
Proof. agree_op. apply agree_fit; [|lia]. intros. by apply ref_add. Qed.

Lemma agree_sub w m1 e1 i1 m2 e2 i2 : 0 < w -> agree m1 e1 i1 -> agree m2 e2 i2 ->
  agree (sub w m1 m2) (@sub _ exact w e1 e2) (sub w i1 i2).
Proof. agree_op. apply agree_fit; [|lia]. intros. by apply ref_sub. Qed.

Lemma imul_bound a b x y : a.1 <= x <= a.2 -> b.1 <= y <= b.2 ->
  (imul a b).1 <= x * y <= (imul a b).2.
Proof.
  destruct a as [a1 a2], b as [b1 b2]. cbn. intros.
  assert (Hx : forall k, Z.min (a1 * k) (a2 * k) <= x * k <= Z.max (a1 * k) (a2 * k))
    by (intros k; destruct (Z.le_ge_cases 0 k); nia).
  assert (Z.min (x * b1) (x * b2) <= x * y <= Z.max (x * b1) (x * b2))
    by (destruct (Z.le_ge_cases 0 x); nia).
  pose proof (Hx b1). pose proof (Hx b2). lia.
Qed.

Lemma agree_mul w m1 e1 i1 m2 e2 i2 : 0 < w -> agree m1 e1 i1 -> agree m2 e2 i2 ->
  agree (mul w m1 m2) (@mul _ exact w e1 e2) (mul w i1 i2).
Proof.
  agree_op. apply agree_fit; [intros; by apply ref_mul|].
  apply (imul_bound (_, _) (_, _)); done.
Qed.

Lemma shiftr_mono x y n : 0 <= n -> x <= y -> Z.shiftr x n <= Z.shiftr y n.
Proof. intros. rewrite !Z.shiftr_div_pow2 by done. apply Z.div_le_mono; lia. Qed.

Lemma agree_sar m e i n : 0 <= n -> agree m e i ->
  agree (sar m n) (@sar _ exact e n) (sar i n).
Proof. agree_op. split; [by apply ref_sar|]. split; apply shiftr_mono; lia. Qed.

Lemma agree_cast w m e i : 0 < w -> agree m e i ->
  agree (cast w m) (@cast _ exact w e) (cast w i).
Proof. agree_op. apply agree_fit; [|done]. intros. by apply ref_cast. Qed.

Lemma split_rest x o b : 0 <= b -> - o <= x - Z.shiftr (x + o) b * 2 ^ b <= 2 ^ b - 1 - o.
Proof.
  intros. rewrite Z.shiftr_div_pow2 by done.
  pose proof (Z.mod_pos_bound (x + o) (2 ^ b) ltac:(lia)).
  pose proof (Z.div_mod (x + o) (2 ^ b) ltac:(lia)). lia.
Qed.

Lemma agree_split w o b m e i : 0 < w -> 0 <= b -> agree m e i ->
  agree (split w o b m).1 (@split _ exact w o b e).1 (split w o b i).1 /\
  agree (split w o b m).2 (@split _ exact w o b e).2 (split w o b i).2.
Proof.
  agree_op. unfold isplit. cbn.
  destruct (fit w (_ + o, _)) as [p|] eqn:E1; cbn; [|done].
  apply fit_some in E1 as [-> E1]. cbn.
  destruct (fit w (_ * 2 ^ b, _)) as [q|] eqn:E2; cbn; [|done].
  apply fit_some in E2 as [_ E2].
  destruct (fit w (- o, _)) as [r|] eqn:E3; cbn; [|done].
  apply fit_some in E3 as [_ E3].
  assert (Hs : forall x y, x <= y -> Z.shiftr x b <= Z.shiftr y b)
    by (intros; by apply shiftr_mono).
  pose proof (Hs (z + o) (e + o) ltac:(lia)).
  pose proof (Hs (e + o) (z0 + o) ltac:(lia)).
  pose proof (split_rest e o b ltac:(lia)).
  destruct (ref_split w o b m e) as [Hc Hr]; [done|done|apply E1; lia| |apply E3; lia|].
  { apply E2. split; apply Z.mul_le_mono_nonneg_r; lia. }
  done.
Qed.

(** ** Limb vectors *)

Definition agrees (ms : list M) (es : list Z) (ivs : list ival) : Prop :=
  length ms = length es /\ length ivs = length es /\
  forall k, agree (nth k ms (lit 0)) (nth k es 0) (nth k ivs (lit 0)).

Lemma agrees_nil : agrees [] [] [].
Proof. split_and!; [done..|]. intros [|k]; apply agree_lit. Qed.

Lemma agrees_cons m e i ms es ivs :
  agree m e i -> agrees ms es ivs -> agrees (m :: ms) (e :: es) (i :: ivs).
Proof.
  intros Ha (H1 & H2 & H3). split_and!; cbn; [congruence..|]. by intros [|k].
Qed.

Lemma agree_clet {B D E} (Q : B -> D -> E -> Prop)
    m e i (km : M -> B) (ke : Z -> D) (ki : ival -> E) :
  agree m e i ->
  (forall m e i, agree m e i -> Q (km m) (ke e) (ki i)) ->
  Q (clet m km) (clet e ke) (clet i ki).
Proof. intros H Hk. by apply Hk. Qed.

(** A vector whose intervals are all known has run without overflow, and its
    limbs are in their intervals. *)
Definition within (es : list Z) (ivs : list (Z * Z)) : Prop :=
  Forall2 (fun e i => i.1 <= e <= i.2) es ivs.

Fixpoint covers (ivs : list ival) (bs : list (Z * Z)) : bool :=
  match ivs, bs with
  | [], [] => true
  | Some i :: ivs, b :: bs => (b.1 <=? i.1) && (i.2 <=? b.2) && covers ivs bs
  | _, _ => false
  end.

Lemma agrees_covers ms es ivs bs :
  agrees ms es ivs -> covers ivs bs = true -> Forall2 inj ms es /\ within es bs.
Proof.
  revert ms es bs. induction ivs as [|[[lo hi]|] ivs IH];
    intros ms es [|b bs] (H1 & H2 & H3) Hc; try done.
  - destruct es; [|done]. destruct ms; [|done]. split; constructor.
  - destruct es as [|e es]; [done|]. destruct ms as [|m ms]; [done|].
    cbn in Hc. apply andb_true_iff in Hc as [Hb Hc].
    destruct (IH ms es bs) as [? ?]; [|done|].
    { split_and!; [cbn in *; congruence..|]. intros k. apply (H3 (S k)). }
    pose proof (H3 0%nat) as [? ?]. cbn in *. split; constructor; try done. cbn. lia.
Qed.

Lemma some_agrees ms es ivs :
  Forall2 inj ms es -> within es ivs -> agrees ms es (Some <$> ivs).
Proof.
  intros Hi. revert ivs. induction Hi; intros ivs Hw; inversion Hw; subst.
  - apply agrees_nil.
  - destruct y0 as [lo hi]. apply agrees_cons; [done|]. by apply IHHi.
Qed.
End Agree.

Arguments agree {M} inj m e i : simpl never.
Arguments agrees {M C} inj ms es ivs : simpl never.

(** What the agreement says of a machine run and of a checked run. *)
Lemma machine_run ms es ivs bs :
  agrees (C:=machine) eq ms es ivs -> covers ivs bs = true -> ms = es /\ within ms bs.
Proof.
  intros H Hc. destruct (agrees_covers (inj:=eq) ms es ivs bs H Hc) as [He Hw].
  apply list_eq_Forall2 in He as ->. done.
Qed.

Lemma checked_run ms es ivs bs :
  agrees (C:=checked) (fun m x => m = Some x) ms es ivs -> covers ivs bs = true ->
  ms = Some <$> es.
Proof.
  intros H Hc. destruct (agrees_covers _ _ _ _ H Hc) as [He _].
  clear H Hc. induction He; cbn; congruence.
Qed.

Lemma machine_start es bs : within es bs -> agrees (C:=machine) eq es es (Some <$> bs).
Proof. intros. apply some_agrees; [|done]. by apply list_eq_Forall2. Qed.

Lemma checked_start es bs :
  within es bs -> agrees (C:=checked) (fun m x => m = Some x) (Some <$> es) es (Some <$> bs).
Proof.
  intros H. apply some_agrees; [|done]. clear H. induction es; by constructor.
Qed.


(** ** Limb vectors as the code updates them *)

Section Limbs.
Context {A : Type} {C : CInt A}.

Definition limb (h : list A) (i : nat) : A := nth i h (lit 0).

Fixpoint upd (i : nat) (x : A) (h : list A) {struct h} : list A :=
  match h, i with
  | [], _ => []
  | _ :: t, O => x :: t
  | y :: t, S i => y :: upd i x t
  end.

Lemma length_upd i x h : length (upd i x h) = length h.
Proof. revert i; induction h; intros [|i]; cbn; auto. Qed.

Lemma nth_upd i x h k d :
  nth k (upd i x h) d = if (k =? i)%nat && (i <? length h)%nat then x else nth k h d.
Proof.
  revert i k; induction h as [|y h IH]; intros i k; cbn [upd length].
  - change (i <? 0)%nat with false. by rewrite andb_false_r.
  - destruct i, k; cbn [nth]; [done..|]. by rewrite IH.
Qed.
End Limbs.

(** [carry w o b i j]: [carry = (h_i + o) >> b; h_j += carry; h_i -= carry << b].
    [carry_mul] multiplies what is added to [h_j].
    [addmul w i j m]: [h_j += h_i * m]; [submul]: [h_j -= h_i * m]. *)
Section Steps.
Context {A : Type} {C : CInt A}.

Definition carry (w o b : Z) (i j : nat) (h : list A) : list A :=
  let s := split w o b (limb h i) in
  upd i s.2 (upd j (add w (limb h j) s.1) h).

Definition carry_mul (w o b m : Z) (i j : nat) (h : list A) : list A :=
  let s := split w o b (limb h i) in
  upd i s.2 (upd j (add w (limb h j) (mul w s.1 (lit m))) h).

Definition addmul (w m : Z) (i j : nat) (h : list A) : list A :=
  upd j (add w (limb h j) (mul w (limb h i) (lit m))) h.

Definition submul (w m : Z) (i j : nat) (h : list A) : list A :=
  upd j (sub w (limb h j) (mul w (limb h i) (lit m))) h.

(** The last carry of a chain, which is dropped. *)
Definition carry_out (w o b : Z) (i : nat) (h : list A) : list A :=
  upd i (split w o b (limb h i)).2 h.

Definition clear (i : nat) (h : list A) : list A := upd i (lit 0) h.
End Steps.

Section AgreeSteps.
Context {M} {C : CInt M} {inj : M -> Z -> Prop} {HR : Refines C inj}.

Lemma agrees_limb ms es ivs k :
  agrees inj ms es ivs -> agree inj (limb ms k) (@limb _ exact es k) (limb ivs k).
Proof. intros (_ & _ & H). apply H. Qed.

Lemma agrees_upd k m e i ms es ivs :
  agree inj m e i -> agrees inj ms es ivs ->
  agrees inj (upd k m ms) (upd k e es) (upd k i ivs).
Proof.
  intros Ha (H1 & H2 & H3). split_and!; rewrite ?length_upd; [done..|].
  intros n. rewrite !nth_upd, H1, H2. by destruct (_ && _).
Qed.

Lemma agrees_carry w o b i j ms es ivs :
  0 < w -> 0 <= b -> agrees inj ms es ivs ->
  agrees inj (carry w o b i j ms) (@carry _ exact w o b i j es) (carry w o b i j ivs).
Proof.
  intros Hw Hb H. destruct (agree_split (inj:=inj) w o b _ _ _ Hw Hb (agrees_limb _ _ _ i H)).
  apply agrees_upd; [done|]. apply agrees_upd; [|done].
  apply agree_add; [done| |done]. by apply agrees_limb.
Qed.

Lemma agrees_carry_mul w o b m i j ms es ivs :
  0 < w -> 0 <= b -> agrees inj ms es ivs ->
  agrees inj (carry_mul w o b m i j ms) (@carry_mul _ exact w o b m i j es)
    (carry_mul w o b m i j ivs).
Proof.
  intros Hw Hb H. destruct (agree_split (inj:=inj) w o b _ _ _ Hw Hb (agrees_limb _ _ _ i H)).
  apply agrees_upd; [done|]. apply agrees_upd; [|done].
  apply agree_add; [done|by apply agrees_limb|].
  apply agree_mul; [done|done|apply agree_lit].
Qed.

Lemma agrees_carry_out w o b i ms es ivs :
  0 < w -> 0 <= b -> agrees inj ms es ivs ->
  agrees inj (carry_out w o b i ms) (@carry_out _ exact w o b i es) (carry_out w o b i ivs).
Proof.
  intros Hw Hb H. destruct (agree_split (inj:=inj) w o b _ _ _ Hw Hb (agrees_limb _ _ _ i H)).
  by apply agrees_upd.
Qed.

Lemma agrees_addmul w m i j ms es ivs :
  0 < w -> agrees inj ms es ivs ->
  agrees inj (addmul w m i j ms) (@addmul _ exact w m i j es) (addmul w m i j ivs).
Proof.
  intros Hw H. apply agrees_upd; [|done]. apply agree_add; [done|by apply agrees_limb|].
  apply agree_mul; [done|by apply agrees_limb|apply agree_lit].
Qed.

Lemma agrees_submul w m i j ms es ivs :
  0 < w -> agrees inj ms es ivs ->
  agrees inj (submul w m i j ms) (@submul _ exact w m i j es) (submul w m i j ivs).
Proof.
  intros Hw H. apply agrees_upd; [|done]. apply agree_sub; [done|by apply agrees_limb|].
  apply agree_mul; [done|by apply agrees_limb|apply agree_lit].
Qed.

Lemma agrees_clear i ms es ivs :
  agrees inj ms es ivs ->
  agrees inj (clear i ms) (@clear _ exact i es) (clear i ivs).
Proof. intros H. apply agrees_upd; [|done]. apply agree_lit. Qed.
End AgreeSteps.

(** [agree_tac] proves that the three readings of a piece of straight-line
    code agree. *)
Ltac agree_expr :=
  lazymatch goal with
  | H : agree _ ?m _ _ |- agree _ ?m _ _ => exact H
  | |- agree _ (lit _) _ _ => apply agree_lit
  | |- agree _ (add _ _ _) _ _ => apply agree_add; [lia|agree_expr|agree_expr]
  | |- agree _ (sub _ _ _) _ _ => apply agree_sub; [lia|agree_expr|agree_expr]
  | |- agree _ (mul _ _ _) _ _ => apply agree_mul; [lia|agree_expr|agree_expr]
  | |- agree _ (sar _ _) _ _ => apply agree_sar; [lia|agree_expr]
  | |- agree _ (cast _ _) _ _ => apply agree_cast; [lia|agree_expr]
  | |- agree ?inj (clet ?m _) (clet ?e _) (clet ?i _) =>
      let H := fresh "Ha" in
      assert (H : agree inj m e i) by agree_expr;
      refine (agree_clet (agree inj) m e i _ _ _ H _); clear H;
      intros ? ? ? H; agree_expr
  | |- agree _ (limb _ _) _ _ => apply agrees_limb; agree_tac
  end
with agree_tac :=
  lazymatch goal with
  | H : agrees _ ?m _ _ |- agrees _ ?m _ _ => exact H
  | |- agrees _ (carry _ _ _ _ _ _) _ _ => apply agrees_carry; [lia|lia|agree_tac]
  | |- agrees _ (carry_mul _ _ _ _ _ _ _) _ _ => apply agrees_carry_mul; [lia|lia|agree_tac]
  | |- agrees _ (addmul _ _ _ _ _) _ _ => apply agrees_addmul; [lia|agree_tac]
  | |- agrees _ (submul _ _ _ _ _) _ _ => apply agrees_submul; [lia|agree_tac]
  | |- agrees _ (clear _ _) _ _ => apply agrees_clear; agree_tac
  | |- agrees _ (carry_out _ _ _ _ _) _ _ => apply agrees_carry_out; [lia|lia|agree_tac]
  | |- agrees _ (upd _ _ _) _ _ => apply agrees_upd; [agree_expr|agree_tac]
  | |- agrees ?inj (clet ?m _) (clet ?e _) (clet ?i _) =>
      let H := fresh "Ha" in
      assert (H : agree inj m e i) by agree_expr;
      refine (agree_clet (agrees inj) m e i _ _ _ H _); clear H;
      intros ? ? ? H; agree_tac
  | |- agrees _ [] _ _ => apply agrees_nil
  | |- agrees _ (_ :: _) _ _ => apply agrees_cons; [agree_expr|agree_tac]
  end.

(** ** Weighted values *)

Fixpoint val (ws h : list Z) : Z :=
  match ws, h with w :: ws, x :: h => w * x + val ws h | _, _ => 0 end.

Lemma val_upd ws i x h : length ws = length h -> (i < length h)%nat ->
  val ws (upd i x h) = val ws h + nth i ws 0 * (x - nth i h 0).
Proof.
  revert i h; induction ws as [|w ws IH]; intros i [|y h] Hl Hi; cbn in *; try lia.
  destruct i; cbn; [lia|]. rewrite IH by lia. lia.
Qed.

(** The value changes by the carry times the mismatch of the weights. *)
Lemma val_carry_mul ws w o b m i j h : length ws = length h -> i <> j ->
  (i < length h)%nat -> (j < length h)%nat ->
  val ws (@carry_mul _ exact w o b m i j h) =
    val ws h + Z.shiftr (nth i h 0 + o) b * (m * nth j ws 0 - 2 ^ b * nth i ws 0).
Proof.
  intros Hl Hij Hi Hj. unfold carry_mul, limb. cbn.
  rewrite val_upd, val_upd, nth_upd; rewrite ?length_upd; auto.
  rewrite (proj2 (Nat.eqb_neq i j)) by done. cbn. ring.
Qed.

Lemma val_carry ws w o b i j h : length ws = length h -> i <> j ->
  (i < length h)%nat -> (j < length h)%nat -> nth j ws 0 = 2 ^ b * nth i ws 0 ->
  val ws (@carry _ exact w o b i j h) = val ws h.
Proof.
  intros Hl Hij Hi Hj Hw. unfold carry, limb. cbn.
  rewrite val_upd, val_upd, nth_upd; rewrite ?length_upd; auto.
  rewrite (proj2 (Nat.eqb_neq i j)) by done. cbn. rewrite Hw. ring.
Qed.

Lemma length_carry {A} {C : CInt A} w o b i j h : length (carry w o b i j h) = length h.
Proof. unfold carry. by rewrite !length_upd. Qed.
Lemma length_carry_mul {A} {C : CInt A} w o b m i j h :
  length (carry_mul w o b m i j h) = length h.
Proof. unfold carry_mul. by rewrite !length_upd. Qed.
Lemma length_addmul {A} {C : CInt A} w m i j h : length (addmul w m i j h) = length h.
Proof. unfold addmul. by rewrite !length_upd. Qed.
Lemma length_submul {A} {C : CInt A} w m i j h : length (submul w m i j h) = length h.
Proof. unfold submul. by rewrite !length_upd. Qed.
Lemma length_clear {A} {C : CInt A} i h : length (clear i h) = length h.
Proof. unfold clear. by rewrite !length_upd. Qed.
