(* ===== verification/BitField.v ===== *)
(** * Bit fields of an integer

    The code of crypto-ops.c moves numbers between bytes and limbs of 21, 25
    and 26 bits with shifts, masks and disjunctions.  Each such expression is a
    field of one number: [field v e w] is the [w] bits of [v] from bit [e]. *)

From S2P Require Import Prelude CInt.

Definition field (v e w : Z) : Z := (v / 2 ^ e) mod 2 ^ w.

Lemma field_bound v e w : 0 <= w -> 0 <= field v e w < 2 ^ w.
Proof. intros. apply Z.mod_pos_bound. lia. Qed.

Lemma field_full v w : 0 <= v < 2 ^ w -> field v 0 w = v.
Proof. intros. unfold field. rewrite Z.div_1_r. by apply Z.mod_small. Qed.

(** Shifting right and truncating a field gives a smaller field. *)
Lemma field_shiftr v e w s : 0 <= e -> 0 <= s <= w ->
  Z.shiftr (field v e w) s = field v (e + s) (w - s).
Proof.
  intros. unfold field. rewrite Z.shiftr_div_pow2, Z.pow_add_r by lia.
  rewrite <- Z.div_div by lia. generalize (v / 2 ^ e). intros x.
  replace w with (s + (w - s)) at 1 by lia. rewrite Z.pow_add_r by lia.
  rewrite Z.rem_mul_r by lia.
  rewrite (Z.mul_comm (2 ^ s)), Z.div_add by lia.
  rewrite (Z.div_small (x mod _)); [lia|]. apply Z.mod_pos_bound. lia.
Qed.

Lemma field_wrap v e w k : 0 <= k <= w -> wrap k (field v e w) = field v e k.
Proof.
  intros. unfold field, wrap. generalize (v / 2 ^ e). intros x.
  replace w with (k + (w - k)) by lia. rewrite Z.pow_add_r by lia.
  rewrite Z.rem_mul_r by lia. rewrite (Z.mul_comm (2 ^ k)), Z.mod_add by lia.
  apply Zmod_mod.
Qed.

(** Adjacent fields join. *)
Lemma field_join v e w k : 0 <= e -> 0 <= w -> 0 <= k ->
  field v e w + 2 ^ w * field v (e + w) k = field v e (w + k).
Proof.
  intros. unfold field. rewrite (Z.pow_add_r 2 e w), <- Z.div_div by lia.
  rewrite (Z.pow_add_r 2 w k) by lia. symmetry. apply Z.rem_mul_r; lia.
Qed.

Lemma field_lor v e w k : 0 <= e -> 0 <= w -> 0 <= k ->
  field v e w .| (field v (e + w) k .<< w) = field v e (w + k).
Proof.
  intros. rewrite lor_shiftl_add, <- field_join by (try done; by apply field_bound).
  lia.
Qed.

(** ** Bytes as fields *)

Lemma le_bytes_lookup n v i : (i < n)%nat ->
  le_bytes n v !!! i = field v (8 * Z.of_nat i) 8.
Proof.
  revert v i. induction n as [|n IH]; intros v [|i] Hi; [lia|lia| |].
  - unfold field. cbn. by rewrite Z.div_1_r.
  - cbn [le_bytes]. change ((?x :: ?l) !!! S i) with (l !!! i).
    rewrite IH by lia. unfold field. change 256 with (2 ^ 8).
    rewrite Z.div_div, <- Z.pow_add_r by lia. do 3 f_equal. lia.
Qed.

Lemma bytes_lookup s i : is_bytes s -> (i < length s)%nat ->
  s !!! i = field (le s) (8 * Z.of_nat i) 8.
Proof.
  intros Hs Hi. rewrite <- (le_bytes_le s Hs) at 1. by apply le_bytes_lookup.
Qed.

(** A list of bytes that are the fields of [v] is the encoding of [v]. *)
Lemma bytes_of_fields s v :
  (forall i, (i < length s)%nat -> s !!! i = field v (8 * Z.of_nat i) 8) ->
  s = le_bytes (length s) v.
Proof.
  intros H. apply list_eq_same_length with (length s); [by rewrite length_le_bytes|done|].
  intros i x y Hi Hx Hy. apply list_lookup_total_correct in Hx, Hy. subst.
  rewrite (H i Hi). by rewrite le_bytes_lookup.
Qed.

(** ** Limbs as fields *)

Fixpoint fields (v e : Z) (ws : list Z) : list Z :=
  match ws with [] => [] | w :: ws => field v e w :: fields v (e + w) ws end.

Fixpoint weights (e : Z) (ws : list Z) : list Z :=
  match ws with [] => [] | w :: ws => 2 ^ e :: weights (e + w) ws end.

Fixpoint sum (ws : list Z) : Z :=
  match ws with [] => 0 | w :: ws => w + sum ws end.

Lemma sum_nonneg ws : Forall (Z.le 0) ws -> 0 <= sum ws.
Proof. induction 1; cbn; lia. Qed.

Lemma val_fields v e ws : 0 <= e -> Forall (Z.le 0) ws ->
  val (weights e ws) (fields v e ws) = 2 ^ e * field v e (sum ws).
Proof.
  intros He Hw. revert e He. induction Hw as [|w ws Hw Hws IH]; intros e He; cbn.
  - unfold field. rewrite Z.mod_1_r. lia.
  - rewrite IH, <- field_join by (try lia; by apply sum_nonneg).
    rewrite Z.pow_add_r by lia. ring.
Qed.

Lemma val_weights_scale e d ws h : 0 <= e -> 0 <= d -> Forall (Z.le 0) ws ->
  val (weights (e + d) ws) h = 2 ^ e * val (weights d ws) h.
Proof.
  intros He Hd Hw. revert d Hd h.
  induction Hw as [|w ws ? ? IH]; intros d Hd h; cbn; [lia|].
  destruct h; [lia|]. rewrite <- Z.add_assoc, IH, Z.pow_add_r by lia. ring.
Qed.

(** Normalised limbs are the fields of their value. *)
Lemma fields_val_from v e ws h : 0 <= e -> 0 <= v < 2 ^ e -> Forall (Z.le 0) ws ->
  Forall2 (fun w x => 0 <= x < 2 ^ w) ws h ->
  fields (v + val (weights e ws) h) e ws = h.
Proof.
  intros He Hv Hw Hr. revert v e He Hv Hw.
  induction Hr as [|w x ws h Hx Hr IH]; intros v e He Hv Hw; cbn; [done|].
  inversion Hw; subst.
  pose proof (val_weights_scale e w ws h) as Hs.
  apply f_equal2.
  - unfold field. rewrite Hs, <- (Z.add_0_r w), (val_weights_scale w 0 ws h) by done.
    rewrite Z.add_0_r.
    replace (v + _) with (v + (x + val (weights 0 ws) h * 2 ^ w) * 2 ^ e) by ring.
    rewrite Z.div_add, Z.div_small, Z.add_0_l, Z.mod_add, Z.mod_small by lia. done.
  - rewrite Z.add_assoc. apply IH; [lia| |done]. rewrite Z.pow_add_r by lia. nia.
Qed.

Lemma fields_val ws h : Forall (Z.le 0) ws ->
  Forall2 (fun w x => 0 <= x < 2 ^ w) ws h ->
  fields (val (weights 0 ws) h) 0 ws = h.
Proof. intros. by apply (fields_val_from 0 0); [lia|lia|..]. Qed.

(** ** The byte expressions of the stores *)

Lemma wrap_lor k x y : 0 <= k -> wrap k (x .| y) = wrap k (wrap k x .| wrap k y).
Proof.
  intros. unfold wrap. rewrite <- !Z.land_ones by done.
  apply Z.bits_inj'. intros n Hn. rewrite !Z.land_spec, !Z.lor_spec, !Z.land_spec.
  by destruct (Z.testbit x n), (Z.testbit y n), (Z.testbit (Z.ones k) n).
Qed.

Lemma wrap_swrap k w x : 0 <= k < w -> wrap k (swrap w x) = wrap k x.
Proof.
  intros. unfold wrap, swrap.
  assert (Hd : forall a, (a mod 2 ^ w) mod 2 ^ k = a mod 2 ^ k).
  { intros a. replace w with (k + (w - k)) by lia. rewrite Z.pow_add_r by lia.
    rewrite Z.rem_mul_r, (Z.mul_comm (2 ^ k)), Z.mod_add by lia. apply Zmod_mod. }
  rewrite Zminus_mod, Hd, <- Zminus_mod. f_equal. lia.
Qed.

Lemma byte_field v e w s : 0 <= e -> 0 <= s -> s + 8 <= w ->
  u8 (field v e w .>> s) = field v (e + s) 8.
Proof. intros. rewrite field_shiftr, field_wrap by lia. done. Qed.

Lemma byte_join_field v e w s k m n : 0 <= e -> 0 <= s <= w -> n = w - s -> 0 <= k ->
  8 <= n + k -> 8 < m ->
  u8 ((field v e w .>> s) .| swrap m (field v (e + w) k .<< n)) = field v (e + s) 8.
Proof.
  intros He Hs -> Hk Hn Hm.
  rewrite wrap_lor, wrap_swrap, <- wrap_lor, field_shiftr by lia.
  replace (e + w) with (e + s + (w - s)) by lia.
  rewrite field_lor, field_wrap by lia. done.
Qed.

Lemma le_bytes_fields n v :
  le_bytes n v = (fun i => field v (8 * Z.of_nat i) 8) <$> seq 0 n.
Proof.
  apply list_eq_same_length with n; [by rewrite length_fmap, length_seq|apply length_le_bytes|].
  intros i x y Hi Hx Hy. apply list_lookup_total_correct in Hx.
  rewrite list_lookup_fmap, lookup_seq_lt in Hy by done. injection Hy as <-.
  rewrite <- Hx. by apply le_bytes_lookup.
Qed.
