(* ===== verification/ChaCha.v ===== *)
(** * The stream cipher: src/src/crypto/chacha.c

    The sixteen local words are a list, the macros are functions on it.  The
    contents of the stack buffer [tmp] at entry are an argument: the code reads
    its tail when the last block is partial. *)

From S2P Require Import Prelude BitField IntUtil.

Definition U32V (v : Z) : Z := u32 v.
Definition PLUS (v w : Z) : Z := U32V (v + w).
Definition PLUSONE (v : Z) : Z := PLUS v 1.
Definition ROTATE (v c : Z) : Z := rol32 v c.

Definition U8TO32_LITTLE (p : bytes) (i : nat) : Z := le (take 4 (drop i p)).
Definition U32TO8_LITTLE (v : Z) : bytes := le_bytes 4 v.

Definition QUARTERROUND (a b c d : nat) (x : list Z) : list Z :=
  let x := <[a := PLUS (x !!! a) (x !!! b)]> x in
  let x := <[d := ROTATE ((x !!! d) .^ (x !!! a)) 16]> x in
  let x := <[c := PLUS (x !!! c) (x !!! d)]> x in
  let x := <[b := ROTATE ((x !!! b) .^ (x !!! c)) 12]> x in
  let x := <[a := PLUS (x !!! a) (x !!! b)]> x in
  let x := <[d := ROTATE ((x !!! d) .^ (x !!! a)) 8]> x in
  let x := <[c := PLUS (x !!! c) (x !!! d)]> x in
  <[b := ROTATE ((x !!! b) .^ (x !!! c)) 7]> x.

(** The body of the loop over [i]. *)
Definition double_round (x : list Z) : list Z :=
  x
  |> QUARTERROUND 0 4 8 12
  |> QUARTERROUND 1 5 9 13
  |> QUARTERROUND 2 6 10 14
  |> QUARTERROUND 3 7 11 15
  |> QUARTERROUND 0 5 10 15
  |> QUARTERROUND 1 6 11 12
  |> QUARTERROUND 2 7 8 13
  |> QUARTERROUND 3 4 9 14.

(** "expand 32-byte k" *)
Definition sigma : bytes := [101; 120; 112; 97; 110; 100; 32; 51; 50; 45; 98; 121; 116; 101; 32; 107].

Definition chacha_init (key iv : bytes) : list Z :=
  [ U8TO32_LITTLE sigma 0; U8TO32_LITTLE sigma 4; U8TO32_LITTLE sigma 8; U8TO32_LITTLE sigma 12;
    U8TO32_LITTLE key 0; U8TO32_LITTLE key 4; U8TO32_LITTLE key 8; U8TO32_LITTLE key 12;
    U8TO32_LITTLE key 16; U8TO32_LITTLE key 20; U8TO32_LITTLE key 24; U8TO32_LITTLE key 28;
    0; 0; U8TO32_LITTLE iv 0; U8TO32_LITTLE iv 4 ].

(** [for (i = rounds; i > 0; i -= 2)], then the addition of the input words. *)
Definition chacha_words (rounds : nat) (j : list Z) : list Z :=
  zip_with PLUS (Nat.iter ((rounds + 1) / 2) double_round j) j.

(** The two counter words. *)
Definition chacha_step (j : list Z) : list Z :=
  let j := <[12%nat := PLUSONE (j !!! 12%nat)]> j in
  if (j !!! 12%nat) =? 0 then <[13%nat := PLUSONE (j !!! 13%nat)]> j else j.

(** The exclusive or with the words of [data] and the stores to [cipher]. *)
Definition chacha_xor (x : list Z) (data : bytes) : bytes :=
  mjoin (U32TO8_LITTLE <$> imap (fun i w => w .^ U8TO32_LITTLE data (4 * i)) x).

Fixpoint chacha_loop (fuel rounds : nat) (tmp : bytes) (j : list Z) (data : bytes) : option bytes :=
  match fuel with
  | O => None
  | S fuel =>
      let len := length data in
      let input := if (len <? 64)%nat then data ++ drop len tmp else data in
      let cipher := chacha_xor (chacha_words rounds j) input in
      let j := chacha_step j in
      if (len <=? 64)%nat then Some (take len cipher)
      else rest ← chacha_loop fuel rounds tmp j (drop 64 data); Some (cipher ++ rest)
  end.

Definition chacha (rounds : nat) (tmp data key iv : bytes) : option bytes :=
  if (length data =? 0)%nat then Some []
  else chacha_loop (length data) rounds tmp (chacha_init key iv) data.

Definition chacha8 (tmp data key iv : bytes) : option bytes := chacha 8 tmp data key iv.
Definition chacha20 (tmp data key iv : bytes) : option bytes := chacha 20 tmp data key iv.

(** The first block of the key stream for the zero key. *)
Example chacha20_vector : take 8 <$> chacha20 (replicate 64 7) (replicate 20 0) (replicate 32 0) (replicate 8 0)
  = Some [0x76; 0xb8; 0xe0; 0xad; 0xa0; 0xf1; 0x3d; 0x90].
Proof. vm_compute. reflexivity. Qed.

(** ** Reference: the key stream *)

(** Rounds on rows: the quarter round acts on four columns at once, and the
    diagonal round is the column round between rotations of the rows. *)
Definition rotl (v : list Z) (n : Z) : list Z := (fun x => rol32 x n) <$> v.

Definition column_round (m : list Z * list Z * list Z * list Z) : list Z * list Z * list Z * list Z :=
  let '(a, b, c, d) := m in
  let add := zip_with (fun x y => u32 (x + y)) in
  let xor := zip_with Z.lxor in
  let a := add a b in let d := rotl (xor d a) 16 in
  let c := add c d in let b := rotl (xor b c) 12 in
  let a := add a b in let d := rotl (xor d a) 8 in
  let c := add c d in let b := rotl (xor b c) 7 in
  (a, b, c, d).

Definition turn (n : nat) (v : list Z) : list Z := drop n v ++ take n v.

Definition round_pair (m : list Z * list Z * list Z * list Z) : list Z * list Z * list Z * list Z :=
  let '(a, b, c, d) := column_round m in
  let '(a, b, c, d) := column_round (a, turn 1 b, turn 2 c, turn 3 d) in
  (a, turn 3 b, turn 2 c, turn 1 d).

Definition rows (x : list Z) : list Z * list Z * list Z * list Z :=
  (take 4 x, take 4 (drop 4 x), take 4 (drop 8 x), take 4 (drop 12 x)).
Definition unrows (m : list Z * list Z * list Z * list Z) : list Z :=
  let '(a, b, c, d) := m in a ++ b ++ c ++ d.

(** The input block: constant, key, 64-bit block number, nonce. *)
Definition input_block (key iv : bytes) (n : Z) : list Z :=
  [0x61707865; 0x3320646e; 0x79622d32; 0x6b206574] ++
  ((fun i => le (take 4 (drop (4 * i) key))) <$> seq 0 8) ++
  [n mod 2 ^ 32; (n / 2 ^ 32) mod 2 ^ 32] ++ ((fun i => le (take 4 (drop (4 * i) iv))) <$> seq 0 2).

Definition stream_block (rounds : nat) (key iv : bytes) (n : Z) : bytes :=
  let j := input_block key iv n in
  mjoin (le_bytes 4 <$> zip_with (fun x y => u32 (x + y)) (unrows (Nat.iter (rounds / 2) round_pair (rows j))) j).

(** The key stream of [k] blocks from block [n]. *)
Fixpoint key_stream (rounds : nat) (key iv : bytes) (n : Z) (k : nat) : bytes :=
  match k with
  | O => []
  | S k => stream_block rounds key iv n ++ key_stream rounds key iv (n + 1) k
  end.

Definition blocks_of (len : nat) : nat := (len + 63) / 64.

(** ** The rounds *)

Lemma double_round_rows x : length x = 16%nat -> double_round x = unrows (round_pair (rows x)).
Proof. intros H. apply sixteen in H as (?&?&?&?&?&?&?&?&?&?&?&?&?&?&?&?&->). reflexivity. Qed.

Lemma length_double_round x : length x = 16%nat -> length (double_round x) = 16%nat.
Proof. intros H. apply sixteen in H as (?&?&?&?&?&?&?&?&?&?&?&?&?&?&?&?&->). reflexivity. Qed.

Lemma rows_double_round x : length x = 16%nat -> rows (double_round x) = round_pair (rows x).
Proof. intros H. apply sixteen in H as (?&?&?&?&?&?&?&?&?&?&?&?&?&?&?&?&->). reflexivity. Qed.

Lemma rounds_rows k x : length x = 16%nat ->
  Nat.iter k double_round x = unrows (Nat.iter k round_pair (rows x)) /\ length (Nat.iter k double_round x) = 16%nat
  /\ rows (Nat.iter k double_round x) = Nat.iter k round_pair (rows x).
Proof.
  intros H. induction k as [|k (E & L & R)].
  - cbn. split_and!; [|done|done]. apply sixteen in H as (?&?&?&?&?&?&?&?&?&?&?&?&?&?&?&?&->). reflexivity.
  - rewrite !Nat.iter_succ. split_and!.
    + by rewrite double_round_rows, R.
    + by apply length_double_round.
    + by rewrite rows_double_round, R.
Qed.

(** ** Bytes and words *)

Lemma le_bytes_take n bs : is_bytes bs -> (n <= length bs)%nat -> le_bytes n (le (take n bs)) = take n bs.
Proof.
  intros Hb Hn. pose proof (le_bytes_le (take n bs) (Forall_take _ _ _ Hb)) as E.
  by rewrite length_take, Nat.min_l in E.
Qed.

Lemma chacha_xor_cons w x data :
  chacha_xor (w :: x) data = le_bytes 4 (w .^ le (take 4 data)) ++ chacha_xor x (drop 4 data).
Proof.
  unfold chacha_xor. rewrite imap_cons, fmap_cons, mjoin_cons. apply (f_equal2 app); [done|].
  do 2 f_equal. apply imap_ext. intros i v _. cbn [compose]. unfold U8TO32_LITTLE.
  rewrite drop_drop. do 4 f_equal. lia.
Qed.

Lemma chacha_xor_stream x data : is_bytes data -> (4 * length x <= length data)%nat ->
  chacha_xor x data = zip_with Z.lxor (take (4 * length x) data) (mjoin (le_bytes 4 <$> x)).
Proof.
  revert data. induction x as [|w x IH]; intros data Hb Hl; [done|].
  cbn [length] in *. rewrite chacha_xor_cons, IH; [|by apply Forall_drop|rewrite length_drop; lia].
  rewrite fmap_cons, mjoin_cons, (Z.lxor_comm w), le_bytes_lxor, le_bytes_take by (done || lia).
  replace (4 * S (length x))%nat with (4 + 4 * length x)%nat by lia.
  rewrite <- take_take_drop. by rewrite zip_with_app by (rewrite length_take, length_le_bytes; lia).
Qed.

(** ** One block *)

Lemma length_chacha_words rounds j : length j = 16%nat -> length (chacha_words rounds j) = 16%nat.
Proof.
  intros H. unfold chacha_words. destruct (rounds_rows ((rounds + 1) / 2) j H) as (_ & L & _).
  rewrite length_zip_with, L, H. done.
Qed.

Definition with_counter (key iv : bytes) (n : Z) : list Z :=
  <[12%nat := n mod 2 ^ 32]> (<[13%nat := (n / 2 ^ 32) mod 2 ^ 32]> (chacha_init key iv)).

Lemma with_counter_input key iv n : with_counter key iv n = input_block key iv n.
Proof. reflexivity. Qed.

Lemma chacha_step_counter key iv n : chacha_step (with_counter key iv n) = with_counter key iv (n + 1).
Proof.
  unfold chacha_step, with_counter, chacha_init. cbn [insert list_insert lookup_total list_lookup_total].
  unfold PLUSONE, PLUS, U32V.
  assert (E : u32 (n mod 2 ^ 32 + 1) = (n + 1) mod 2 ^ 32) by apply Zplus_mod_idemp_l.
  rewrite E. destruct (Z.eqb_spec ((n + 1) mod 2 ^ 32) 0) as [E0|E0]; do 13 f_equal.
  - assert (E1 : (n + 1) / 2 ^ 32 = n / 2 ^ 32 + 1) by (Z.div_mod_to_equations; lia).
    rewrite E1. apply (f_equal (fun z => z :: _)). apply Zplus_mod_idemp_l.
  - assert (E1 : (n + 1) / 2 ^ 32 = n / 2 ^ 32) by (Z.div_mod_to_equations; lia). by rewrite E1.
Qed.

Section Stream.
Context (rounds : nat) (Heven : Nat.Even rounds) (key iv tmp : bytes).
Context (Htmp : is_bytes_n 64 tmp).

Lemma chacha_words_stream n :
  mjoin (le_bytes 4 <$> chacha_words rounds (with_counter key iv n)) = stream_block rounds key iv n.
Proof using Heven.
  unfold chacha_words, stream_block. rewrite with_counter_input.
  replace ((rounds + 1) / 2)%nat with (rounds / 2)%nat
    by (destruct Heven as [m ->]; rewrite (Nat.mul_comm 2), Nat.div_add_l, Nat.div_mul by lia; cbn; lia).
  destruct (rounds_rows (rounds / 2) (input_block key iv n) eq_refl) as (-> & _ & _). done.
Qed.

Lemma length_stream_block n : length (stream_block rounds key iv n) = 64%nat.
Proof using Heven.
  rewrite <- chacha_words_stream.
  assert (H : forall l, length (mjoin (le_bytes 4 <$> l)) = (4 * length l)%nat).
  { induction l as [|x l IH]; [done|].
    rewrite fmap_cons, mjoin_cons, length_app, length_le_bytes, IH. cbn [length]. lia. }
  rewrite H, length_chacha_words; done.
Qed.

Lemma chacha_block n input : is_bytes input -> (64 <= length input)%nat ->
  chacha_xor (chacha_words rounds (with_counter key iv n)) input
  = zip_with Z.lxor (take 64 input) (stream_block rounds key iv n).
Proof using Heven.
  intros Hb Hl. rewrite chacha_xor_stream by (done || by rewrite length_chacha_words).
  by rewrite length_chacha_words, chacha_words_stream.
Qed.

Lemma chacha_loop_stream fuel n data : is_bytes data -> (0 < length data <= fuel)%nat ->
  chacha_loop fuel rounds tmp (with_counter key iv n) data
  = Some (zip_with Z.lxor data (key_stream rounds key iv n (blocks_of (length data)))).
Proof using Heven Htmp.
  destruct Htmp as [Bt Lt]. revert n data. induction fuel as [|fuel IH]; intros n data Hb Hl; [lia|].
  cbn [chacha_loop]. destruct (Nat.leb_spec (length data) 64) as [Hs|Hs].
  - assert (blocks_of (length data) = 1%nat) as -> by (unfold blocks_of; lia). cbn [key_stream].
    rewrite app_nil_r. f_equal. destruct (Nat.ltb_spec (length data) 64) as [Hlt|Hge].
    + rewrite chacha_block;
        [|apply Forall_app; split; [done|by apply Forall_drop]|rewrite length_app, length_drop; lia].
      rewrite zip_with_take, take_take, Nat.min_l, take_app_length by lia. apply zip_with_take_r.
    + rewrite chacha_block by (done || lia). rewrite !(take_ge data) by lia.
      apply take_ge. rewrite length_zip_with, length_stream_block. lia.
  - rewrite (proj2 (Nat.ltb_ge (length data) 64)) by lia.
    rewrite chacha_block by (done || lia). rewrite chacha_step_counter.
    rewrite IH; [|by apply Forall_drop|rewrite length_drop; lia]. cbn [mbind option_bind]. f_equal.
    assert (blocks_of (length data) = S (blocks_of (length (drop 64 data)))) as ->
      by (rewrite length_drop; unfold blocks_of; lia).
    cbn [key_stream]. rewrite <- (take_drop 64 data) at 4.
    rewrite zip_with_app; [done|]. rewrite length_take, length_stream_block. lia.
Qed.

Lemma chacha_stream data : is_bytes data ->
  chacha rounds tmp data key iv
  = Some (zip_with Z.lxor data (key_stream rounds key iv 0 (blocks_of (length data)))).
Proof using Heven Htmp.
  intros Hb. unfold chacha. destruct (Nat.eqb_spec (length data) 0) as [E|E].
  - by apply nil_length_inv in E as ->.
  - change (chacha_init key iv) with (with_counter key iv 0). apply chacha_loop_stream; [done|lia].
Qed.
End Stream.

(** ** Claims *)

(** For an even number of rounds, [chacha] returns the exclusive or of the
    data with the ChaCha key stream: blocks numbered from 0 by a 64-bit counter
    in words 12 and 13, each the sum of the input block and its rounds, written
    in little-endian.  The uninitialised tail of the buffer of the last block
    has no influence. *)
Theorem chacha_is_stream_cipher rounds tmp data key iv : Nat.Even rounds -> is_bytes_n 64 tmp -> is_bytes data ->
  chacha rounds tmp data key iv
  = Some (zip_with Z.lxor data (key_stream rounds key iv 0 (blocks_of (length data)))).
Proof. intros. by apply chacha_stream. Qed.

Lemma chacha_is_stream_cipher_witness :
  chacha 8 (replicate 64 9) (replicate 100 5) (replicate 32 1) (replicate 8 2)
  = Some (zip_with Z.lxor (replicate 100 5) (key_stream 8 (replicate 32 1) (replicate 8 2) 0 2)).
Proof.
  apply (chacha_is_stream_cipher 8 (replicate 64 9) (replicate 100 5)).
  - by exists 4%nat.
  - split; [by repeat constructor|reflexivity].
  - by repeat constructor.
Defined.

Lemma length_key_stream rounds key iv n k : Nat.Even rounds -> length (key_stream rounds key iv n k) = (64 * k)%nat.
Proof.
  intros He. revert n. induction k as [|k IH]; intros n; [done|]. cbn [key_stream].
  rewrite length_app, length_stream_block, IH by done. lia.
Qed.

Lemma stream_block_bytes rounds key iv n : is_bytes (stream_block rounds key iv n).
Proof.
  unfold stream_block. cbv zeta. generalize (zip_with (fun x y => u32 (x + y))
    (unrows (Nat.iter (rounds / 2) round_pair (rows (input_block key iv n)))) (input_block key iv n)).
  intros l. induction l as [|x l IH]; [constructor|]. rewrite fmap_cons, mjoin_cons.
  apply Forall_app. split; [apply le_bytes_is_bytes|exact IH].
Qed.

Lemma key_stream_bytes rounds key iv n k : is_bytes (key_stream rounds key iv n k).
Proof.
  revert n. induction k as [|k IH]; intros n; [constructor|]. cbn [key_stream].
  apply Forall_app. split; [apply stream_block_bytes|apply IH].
Qed.

Lemma zip_with_lxor_twice (l k : bytes) : (length l <= length k)%nat ->
  zip_with Z.lxor (zip_with Z.lxor l k) k = l.
Proof.
  revert k. induction l as [|x l IH]; intros [|y k] H; cbn in *; [done..|lia|].
  by rewrite Z.lxor_assoc, Z.lxor_nilpotent, Z.lxor_0_r, IH by lia.
Qed.

Lemma chacha_twice rounds tmp tmp' data key iv : Nat.Even rounds -> is_bytes_n 64 tmp -> is_bytes_n 64 tmp' ->
  is_bytes data -> (c ← chacha rounds tmp data key iv; chacha rounds tmp' c key iv) = Some data.
Proof.
  intros He Ht Ht' Hd. rewrite chacha_stream by done. cbn [mbind option_bind].
  assert (Hl : (length data <= length (key_stream rounds key iv 0 (blocks_of (length data))))%nat)
    by (rewrite length_key_stream by done; unfold blocks_of; lia).
  rewrite chacha_stream; [|done|done|apply zip_lxor_bytes; [done|apply key_stream_bytes]].
  rewrite length_zip_with, Nat.min_l by done. by rewrite zip_with_lxor_twice.
Qed.

(** Decryption is encryption: applying [chacha8] or [chacha20] twice with
    the same key and nonce gives the data back, whatever the stack held. *)
Theorem chacha_involutive tmp tmp' data key iv : is_bytes_n 64 tmp -> is_bytes_n 64 tmp' -> is_bytes data ->
  (c ← chacha8 tmp data key iv; chacha8 tmp' c key iv) = Some data /\
  (c ← chacha20 tmp data key iv; chacha20 tmp' c key iv) = Some data.
Proof.
  intros Ht Ht' Hd. split; apply chacha_twice; try done; [by exists 4%nat|by exists 10%nat].
Qed.

Lemma chacha_involutive_witness :
  (c ← chacha8 (replicate 64 9) (replicate 70 5) (replicate 32 1) (replicate 8 2);
   chacha8 (replicate 64 0) c (replicate 32 1) (replicate 8 2)) = Some (replicate 70 5).
Proof.
  refine (proj1 (chacha_involutive (replicate 64 9) (replicate 64 0) (replicate 70 5) _ _ _ _ _));
    [split; [by repeat constructor|reflexivity]..|by repeat constructor].
Defined.
