(* ===== verification/Blake256.v ===== *)
(** * BLAKE-256, BLAKE-224 and their HMAC: src/src/crypto/blake256.c

    [state] is a record whose arrays are lists; 32-bit words wrap.  Lengths in
    bits are integers, as in the source; [data] is the memory from the pointer
    on. *)

From S2P Require Import Prelude.

(** ** Words and tables *)

Definition U8TO32 (p : bytes) (i : nat) : Z :=
  (((p !!! i) .<< 24) .| ((p !!! (i + 1)%nat) .<< 16)) .| ((p !!! (i + 2)%nat) .<< 8) .| (p !!! (i + 3)%nat).

Definition U32TO8 (v : Z) : bytes := [u8 (v .>> 24); u8 (v .>> 16); u8 (v .>> 8); u8 v].

Definition sigma : list (list nat) :=
  [[0; 1; 2; 3; 4; 5; 6; 7; 8; 9; 10; 11; 12; 13; 14; 15];
   [14; 10; 4; 8; 9; 15; 13; 6; 1; 12; 0; 2; 11; 7; 5; 3];
   [11; 8; 12; 0; 5; 2; 15; 13; 10; 14; 3; 6; 7; 1; 9; 4];
   [7; 9; 3; 1; 13; 12; 11; 14; 2; 6; 5; 10; 4; 0; 15; 8];
   [9; 0; 5; 7; 2; 4; 10; 15; 14; 1; 11; 12; 6; 8; 3; 13];
   [2; 12; 6; 10; 0; 11; 8; 3; 4; 13; 7; 5; 15; 14; 1; 9];
   [12; 5; 1; 15; 14; 13; 4; 10; 0; 7; 6; 3; 9; 2; 8; 11];
   [13; 11; 7; 14; 12; 1; 3; 9; 5; 0; 15; 4; 8; 6; 2; 10];
   [6; 15; 14; 9; 11; 3; 0; 8; 12; 2; 13; 7; 1; 4; 10; 5];
   [10; 2; 8; 4; 7; 6; 1; 5; 15; 11; 9; 14; 3; 12; 13; 0];
   [0; 1; 2; 3; 4; 5; 6; 7; 8; 9; 10; 11; 12; 13; 14; 15];
   [14; 10; 4; 8; 9; 15; 13; 6; 1; 12; 0; 2; 11; 7; 5; 3];
   [11; 8; 12; 0; 5; 2; 15; 13; 10; 14; 3; 6; 7; 1; 9; 4];
   [7; 9; 3; 1; 13; 12; 11; 14; 2; 6; 5; 10; 4; 0; 15; 8]]%nat.

Definition cst : list Z :=
  [0x243F6A88; 0x85A308D3; 0x13198A2E; 0x03707344;
   0xA4093822; 0x299F31D0; 0x082EFA98; 0xEC4E6C89;
   0x452821E6; 0x38D01377; 0xBE5466CF; 0x34E90C6C;
   0xC0AC29B7; 0xC97C50DD; 0x3F84D5B5; 0xB5470917].

Definition padding : bytes := 0x80 :: replicate 63 0.

Record state := mkstate {
  bh : list Z;       (* uint32_t h[8] *)
  bs : list Z;       (* uint32_t s[4] *)
  bt0 : Z;           (* uint32_t t[0] *)
  bt1 : Z;           (* uint32_t t[1] *)
  buflen : Z;        (* int, bits *)
  nullt : Z;         (* int *)
  buf : bytes;       (* uint8_t buf[64] *)
}.

(** ** Compression *)

Definition ROT (x n : Z) : Z := u32 (x .<< (32 - n)) .| (x .>> n).

(** The macro [G]; [row] is [sigma[i]]. *)
Definition G (row : list nat) (m : list Z) (a b c d e : nat) (v : list Z) : list Z :=
  let v := <[a := u32 (v !!! a + u32 (((m !!! (row !!! e)) .^ (cst !!! (row !!! S e))) + v !!! b))]> v in
  let v := <[d := ROT ((v !!! d) .^ (v !!! a)) 16]> v in
  let v := <[c := u32 (v !!! c + v !!! d)]> v in
  let v := <[b := ROT ((v !!! b) .^ (v !!! c)) 12]> v in
  let v := <[a := u32 (v !!! a + u32 (((m !!! (row !!! S e)) .^ (cst !!! (row !!! e))) + v !!! b))]> v in
  let v := <[d := ROT ((v !!! d) .^ (v !!! a)) 8]> v in
  let v := <[c := u32 (v !!! c + v !!! d)]> v in
  <[b := ROT ((v !!! b) .^ (v !!! c)) 7]> v.

(** The body of the loop over the 14 rounds. *)
Definition compress_round (m : list Z) (v : list Z) (row : list nat) : list Z :=
  v
  |> G row m 0 4 8 12 0
  |> G row m 1 5 9 13 2
  |> G row m 2 6 10 14 4
  |> G row m 3 7 11 15 6
  |> G row m 3 4 9 14 14
  |> G row m 2 7 8 13 12
  |> G row m 0 5 10 15 8
  |> G row m 1 6 11 12 10.

Definition compress_init (st : state) : list Z :=
  let v := bh st ++ [(bs st !!! 0%nat) .^ 0x243F6A88; (bs st !!! 1%nat) .^ 0x85A308D3;
    (bs st !!! 2%nat) .^ 0x13198A2E; (bs st !!! 3%nat) .^ 0x03707344;
    0xA4093822; 0x299F31D0; 0x082EFA98; 0xEC4E6C89] in
  if nullt st =? 0 then
    let v := <[12%nat := (v !!! 12%nat) .^ bt0 st]> v in
    let v := <[13%nat := (v !!! 13%nat) .^ bt0 st]> v in
    let v := <[14%nat := (v !!! 14%nat) .^ bt1 st]> v in
    <[15%nat := (v !!! 15%nat) .^ bt1 st]> v
  else v.

Definition set_h (st : state) (h : list Z) : state :=
  mkstate h (bs st) (bt0 st) (bt1 st) (buflen st) (nullt st) (buf st).

Definition blake256_compress (st : state) (block : bytes) : state :=
  let m := (fun i => U8TO32 block (i * 4)) <$> seq 0 16 in
  let v := foldl (compress_round m) (compress_init st) sigma in
  let h := foldl (fun h i => <[(i mod 8)%nat := (h !!! (i mod 8)%nat) .^ (v !!! i)]> h) (bh st) (seq 0 16) in
  let h := foldl (fun h i => <[i := (h !!! i) .^ (bs st !!! (i mod 4)%nat)]> h) h (seq 0 8) in
  set_h st h.

(** ** Hashing *)

(** The initialisers leave [buf] alone: it keeps the contents [mem] of the memory. *)
Definition blake256_init (mem : bytes) : state :=
  mkstate [0x6A09E667; 0xBB67AE85; 0x3C6EF372; 0xA54FF53A; 0x510E527F; 0x9B05688C; 0x1F83D9AB; 0x5BE0CD19]
    [0; 0; 0; 0] 0 0 0 0 mem.

Definition blake224_init (mem : bytes) : state :=
  mkstate [0xC1059ED8; 0x367CD507; 0x3070DD17; 0xF70E5939; 0xFFC00B31; 0x68581511; 0x64F98FA7; 0xBEFA4FA4]
    [0; 0; 0; 0] 0 0 0 0 mem.

Definition set_t0 (st : state) (t : Z) : state :=
  mkstate (bh st) (bs st) (u32 t) (bt1 st) (buflen st) (nullt st) (buf st).
Definition set_nullt (st : state) (n : Z) : state :=
  mkstate (bh st) (bs st) (bt0 st) (bt1 st) (buflen st) n (buf st).
Definition set_buf (st : state) (b : bytes) (n : Z) : state :=
  mkstate (bh st) (bs st) (bt0 st) (bt1 st) n (nullt st) b.

(** [st->t[0] += 512; if (st->t[0] == 0) st->t[1]++;] *)
Definition count_block (st : state) : state :=
  let t0 := u32 (bt0 st + 512) in
  mkstate (bh st) (bs st) t0 (if t0 =? 0 then u32 (bt1 st + 1) else bt1 st) (buflen st) (nullt st) (buf st).

(** [while (datalen >= 512)]: the state, the remaining data and its length. *)
Fixpoint update_whole (fuel : nat) (st : state) (data : bytes) (datalen : Z) : state * bytes * Z :=
  match fuel with
  | O => (st, data, datalen)
  | S fuel =>
      if 512 <=? datalen then
        update_whole fuel (blake256_compress (count_block st) (take 64 data)) (drop 64 data) (datalen - 512)
      else (st, data, datalen)
  end.

Definition blake256_update (st : state) (data : bytes) (datalen : Z) : state :=
  let left_ := buflen st .>> 3 in
  let fill := 64 - left_ in
  let '(st, data, datalen, left_) :=
    if negb (left_ =? 0) && (fill <=? datalen .>> 3) then
      let st := set_buf st (memcpy (buf st) (Z.to_nat left_) (take (Z.to_nat fill) data)) (buflen st) in
      let st := count_block st in
      (blake256_compress st (buf st), drop (Z.to_nat fill) data, datalen - (fill .<< 3), 0)
    else (st, data, datalen, left_) in
  let '(st, data, datalen) := update_whole (Z.to_nat (datalen / 512)) st data datalen in
  if 0 <? datalen then
    set_buf st (memcpy (buf st) (Z.to_nat left_) (take (Z.to_nat (datalen .>> 3)) data)) ((left_ .<< 3) + datalen)
  else set_buf st (buf st) 0.

Definition blake224_update (st : state) (data : bytes) (datalen : Z) : state := blake256_update st data datalen.

Definition blake256_final_h (st : state) (pa pb : Z) : bytes :=
  let lo := u32 (bt0 st + buflen st) in
  let hi := bt1 st in
  let hi := if lo <? buflen st then u32 (hi + 1) else hi in
  let msglen := U32TO8 hi ++ U32TO8 lo in
  let st :=
    if buflen st =? 440 then
      let st := set_t0 st (bt0 st - 8) in
      blake256_update st [pa] 8
    else
      let st :=
        if buflen st <? 440 then
          let st := if buflen st =? 0 then set_nullt st 1 else st in
          let st := set_t0 st (bt0 st - (440 - buflen st)) in
          blake256_update st padding (440 - buflen st)
        else
          let st := set_t0 st (bt0 st - (512 - buflen st)) in
          let st := blake256_update st padding (512 - buflen st) in
          let st := set_t0 st (bt0 st - 440) in
          let st := blake256_update st (drop 1 padding) 440 in
          set_nullt st 1 in
      let st := blake256_update st [pb] 8 in
      set_t0 st (bt0 st - 8) in
  let st := set_t0 st (bt0 st - 64) in
  let st := blake256_update st msglen 64 in
  mjoin (U32TO8 <$> take 8 (bh st)).

Definition blake256_final (st : state) : bytes := blake256_final_h st 0x81 0x01.
Definition blake224_final (st : state) : bytes := blake256_final_h st 0x80 0x00.

Definition blake256_hash (mem data : bytes) : bytes :=
  let st := blake256_init mem in
  let st := blake256_update st data (u64 (Z.of_nat (length data) * 8)) in
  blake256_final st.

Definition blake224_hash (mem data : bytes) : bytes :=
  let st := blake224_init mem in
  let st := blake224_update st data (u64 (Z.of_nat (length data) * 8)) in
  blake224_final st.

(** ** HMAC *)

Record hmac_state := mkhmac { inner : state; outer : state }.

(** The key or its digest, and [pad] with the key xored in. *)
Definition hmac_key (mem key : bytes) (n : nat) : bytes :=
  if (64 <? length key)%nat then take n (blake256_hash mem key) else key.
Definition hmac_pad (byte : Z) (key : bytes) : bytes :=
  foldl (fun pad i => <[i := (pad !!! i) .^ (key !!! i)]> pad) (replicate 64 byte) (seq 0 (length key)).

Definition hmac_blake256_init (mem key : bytes) : hmac_state :=
  let key := hmac_key mem key 32 in
  let inner := blake256_update (blake256_init mem) (hmac_pad 0x36 key) 512 in
  let outer := blake256_update (blake256_init mem) (hmac_pad 0x5c key) 512 in
  mkhmac inner outer.

Definition hmac_blake224_init (mem key : bytes) : hmac_state :=
  let key := hmac_key mem key 28 in
  let inner := blake224_update (blake224_init mem) (hmac_pad 0x36 key) 512 in
  let outer := blake224_update (blake224_init mem) (hmac_pad 0x5c key) 512 in
  mkhmac inner outer.

Definition hmac_blake256_update (st : hmac_state) (data : bytes) (datalen : Z) : hmac_state :=
  mkhmac (blake256_update (inner st) data datalen) (outer st).
Definition hmac_blake224_update (st : hmac_state) (data : bytes) (datalen : Z) : hmac_state :=
  mkhmac (blake224_update (inner st) data datalen) (outer st).

Definition hmac_blake256_final (st : hmac_state) : bytes :=
  let ihash := blake256_final (inner st) in
  blake256_final (blake256_update (outer st) ihash 256).
Definition hmac_blake224_final (st : hmac_state) : bytes :=
  let ihash := blake224_final (inner st) in
  blake224_final (blake224_update (outer st) ihash 224).

Definition hmac_blake256_hash (mem key data : bytes) : bytes :=
  hmac_blake256_final (hmac_blake256_update (hmac_blake256_init mem key) data (u64 (Z.of_nat (length data) * 8))).
Definition hmac_blake224_hash (mem key data : bytes) : bytes :=
  hmac_blake224_final (hmac_blake224_update (hmac_blake224_init mem key) data (u64 (Z.of_nat (length data) * 8))).

(** src/src/crypto/hash-extra-blake.c *)
Definition hash_extra_blake (mem data : bytes) : bytes := blake256_hash mem data.

(** Vectors of tests/hash/tests-extra-blake.txt: the empty message and "cc". *)
Example blake256_empty : take 8 (hash_extra_blake (replicate 64 7) []) = [0x71; 0x6f; 0x6e; 0x86; 0x3f; 0x74; 0x4b; 0x9a].
Proof. vm_compute. reflexivity. Qed.
Example blake256_cc : take 8 (hash_extra_blake [] [0xcc]) = [0xe1; 0x04; 0x25; 0x6a; 0x2b; 0xc5; 0x01; 0xf4].
Proof. vm_compute. reflexivity. Qed.
