(* ===== verification/BlakeProofs.v ===== *)
(** * BLAKE-256 against its specification

    The reference is the definition of BLAKE: the message is padded and cut
    into blocks, block [i] is compressed with the number of message bits up to
    its end (zero when it holds no message bit), and the compression works on
    the rows of a 4 x 4 matrix.  [holds] is the invariant of the incremental
    interface: the message so far is the compressed blocks and the buffered
    tail. *)

From S2P Require Import Prelude Blake256.

(** ** Specification *)

Definition be (bs : bytes) : Z := le (reverse bs).
Definition be_bytes (n : nat) (x : Z) : bytes := reverse (le_bytes n x).

Definition rot (v : list Z) (n : Z) : list Z := (fun x => ROT x n) <$> v.
Definition add (v w : list Z) : list Z := zip_with (fun x y => u32 (x + y)) v w.
Definition xor (v w : list Z) : list Z := zip_with Z.lxor v w.
Definition turn (n : nat) (v : list Z) : list Z := drop n v ++ take n v.

Abbreviation matrix := (list Z * list Z * list Z * list Z)%type.

(** Four applications of G, one per column; [x] and [y] are the message words
    masked with the constants. *)
Definition columns (x y : list Z) (q : matrix) : matrix :=
  let '(a, b, c, d) := q in
  let a := add a (add x b) in let d := rot (xor d a) 16 in
  let c := add c d in let b := rot (xor b c) 12 in
  let a := add a (add y b) in let d := rot (xor d a) 8 in
  let c := add c d in let b := rot (xor b c) 7 in
  (a, b, c, d).

Definition masked (m : list Z) (r : nat) (from : nat) : list Z * list Z :=
  let s := sigma !!! (r mod 10)%nat in
  ((fun i => (m !!! (s !!! (from + 2 * i)%nat)) .^ (cst !!! (s !!! (from + 2 * i + 1)%nat))) <$> seq 0 4,
   (fun i => (m !!! (s !!! (from + 2 * i + 1)%nat)) .^ (cst !!! (s !!! (from + 2 * i)%nat))) <$> seq 0 4).

Definition spec_round (m : list Z) (q : matrix) (r : nat) : matrix :=
  let '(a, b, c, d) := columns (masked m r 0).1 (masked m r 0).2 q in
  let '(a, b, c, d) := columns (masked m r 8).1 (masked m r 8).2 (a, turn 1 b, turn 2 c, turn 3 d) in
  (a, turn 3 b, turn 2 c, turn 1 d).

Definition words (block : bytes) : list Z := (fun i => be (take 4 (drop (4 * i) block))) <$> seq 0 16.

(** The matrix folded onto the chain value. *)
Definition finish (h : list Z) (q : matrix) : list Z :=
  let '(a, b, c, d) := q in xor (xor h (a ++ b)) (c ++ d).

(** The compression with salt zero and bit counter [t]. *)
Definition spec_compress (h : list Z) (block : bytes) (t : Z) : list Z :=
  let d := xor (take 4 (drop 4 cst)) [t mod 2 ^ 32; t mod 2 ^ 32; t / 2 ^ 32; t / 2 ^ 32] in
  finish h (foldl (spec_round (words block)) (take 4 h, drop 4 h, take 4 cst, d) (seq 0 14)).

(** Padding: a one bit, zeros, the bit that tells BLAKE-256 from BLAKE-224
    ([pb]), the length; the one bit and [pb] share a byte when one is left. *)
Definition spec_pad (pb : Z) (n : nat) : bytes :=
  (match ((119 - n mod 64) mod 64)%nat with
   | O => [0x80 .| pb]
   | S k => 0x80 :: replicate k 0 ++ [pb]
   end) ++ be_bytes 8 (8 * Z.of_nat n).

Definition counter (n i : nat) : Z :=
  if (64 * i <? n)%nat then Z.min (8 * Z.of_nat n) (512 * Z.of_nat (S i)) else 0.

Definition spec_hash (iv : list Z) (pb : Z) (msg : bytes) : bytes :=
  let n := length msg in
  let p := msg ++ spec_pad pb n in
  let h := foldl (fun h i => spec_compress h (take 64 (drop (64 * i) p)) (counter n i)) iv (seq 0 (length p / 64)) in
  mjoin (be_bytes 4 <$> h).

(** A list of updates, one per chunk. *)
Definition updates (st : state) (chunks : list bytes) : state :=
  foldl (fun st c => blake256_update st c (8 * Z.of_nat (length c))) st chunks.

Definition IV256 : list Z := bh (blake256_init []).
Definition IV224 : list Z := bh (blake224_init []).
Definition spec_blake256 := spec_hash IV256 1.
Definition spec_blake224 (msg : bytes) : bytes := take 28 (spec_hash IV224 0 msg).

(** HMAC (RFC 2104) for a hash with 64-byte blocks; [short] replaces a key
    longer than a block. *)
Definition spec_hmac (hash short : bytes -> bytes) (key msg : bytes) : bytes :=
  let key := if (64 <? length key)%nat then short key else key in
  let key := key ++ replicate (64 - length key) 0 in
  let pad (byte : Z) := zip_with Z.lxor (replicate 64 byte) key in
  hash (pad 0x5c ++ hash (pad 0x36 ++ msg)).

(** ** Words *)

Lemma lor_add_shift a b n : 0 <= n -> is_word n b -> (a .<< n) .| b = a * 2 ^ n + b.
Proof. intros Hn Hb. rewrite Z.lor_comm, lor_shiftl_add by done. lia. Qed.

Lemma U8TO32_be p i : is_bytes p -> (i + 4 <= length p)%nat -> U8TO32 p i = be (take 4 (drop i p)).
Proof.
  intros Hp Hi. unfold U8TO32, be. do 4 (rewrite drop_lookup_total by lia; cbn [take]). rewrite take_0.
  assert (B : forall j, (j < length p)%nat -> is_u8 (p !!! j)).
  { intros j Hj. by apply (Forall_lookup_total_1 _ _ _ Hp). }
  replace (i + 1)%nat with (S i) by lia. replace (i + 2)%nat with (S (S i)) by lia. replace (i + 3)%nat with (S (S (S i))) by lia.
  pose proof (B i ltac:(lia)). pose proof (B (S i) ltac:(lia)). pose proof (B (S (S i)) ltac:(lia)). pose proof (B (S (S (S i))) ltac:(lia)).
  generalize dependent (p !!! i). generalize dependent (p !!! S i). generalize dependent (p !!! S (S i)). generalize dependent (p !!! S (S (S i))).
  intros d Hd c Hc b Hb a Ha. change (reverse [a; b; c; d]) with [d; c; b; a]. cbn [le]. unfold is_word in *.
  replace (a .<< 24 .| b .<< 16 .| c .<< 8 .| d) with ((((a .<< 8 .| b) .<< 8 .| c) .<< 8) .| d).
  - rewrite !lor_add_shift by done. lia.
  - rewrite !Z.shiftl_lor, !Z.shiftl_shiftl by lia. done.
Qed.

Lemma U32TO8_be x : U32TO8 x = be_bytes 4 x.
Proof.
  unfold U32TO8, be_bytes. cbn [le_bytes]. unfold wrap. rewrite !Z.shiftr_div_pow2 by lia.
  rewrite !Z.div_div by lia. reflexivity.
Qed.

Lemma words_code block : is_bytes_n 64 block -> (fun i => U8TO32 block (i * 4)) <$> seq 0 16 = words block.
Proof.
  intros [Hb Hl]. apply list_fmap_ext. intros i x Hi. apply lookup_seq in Hi as [-> ?]. cbn [Nat.add].
  rewrite U8TO32_be by (done || lia). do 3 f_equal. lia.
Qed.

(** ** Compression *)

Definition matrix_of (v : list Z) : matrix :=
  (take 4 v, take 4 (drop 4 v), take 4 (drop 8 v), take 4 (drop 12 v)).

Lemma length_G row m a b c d e v : length (G row m a b c d e v) = length v.
Proof. unfold G. by rewrite !length_insert. Qed.

Lemma length_compress_round m v row : length (compress_round m v row) = length v.
Proof. unfold compress_round. by rewrite !length_G. Qed.

(** The order of the four diagonal steps does not matter. *)
Lemma round_spec m v r : length v = 16%nat -> length m = 16%nat -> (r < 14)%nat ->
  matrix_of (compress_round m v (sigma !!! r)) = spec_round m (matrix_of v) r.
Proof.
  intros H Hm Hr. apply sixteen in H as (?&?&?&?&?&?&?&?&?&?&?&?&?&?&?&?&->).
  assert (S : sigma !!! (r mod 10)%nat = sigma !!! r).
  { do 14 (destruct r as [|r]; [reflexivity|]). lia. }
  unfold spec_round, masked. rewrite S. reflexivity.
Qed.

Lemma rounds_spec m v l : length v = 16%nat -> length m = 16%nat -> Forall (fun r => r < 14)%nat l ->
  matrix_of (foldl (compress_round m) v ((fun r => sigma !!! r) <$> l)) = foldl (spec_round m) (matrix_of v) l /\
  length (foldl (compress_round m) v ((fun r => sigma !!! r) <$> l)) = 16%nat.
Proof.
  intros Hv Hm Hl. revert v Hv. induction Hl as [|r l Hr Hl IH]; intros v Hv; [done|].
  cbn [fmap list_fmap foldl]. rewrite <- round_spec by done. apply IH. by rewrite length_compress_round.
Qed.

Definition join (t0 t1 : Z) : Z := t0 + 2 ^ 32 * t1.

Lemma join_halves t0 t1 : is_u32 t0 -> join t0 t1 mod 2 ^ 32 = t0 /\ join t0 t1 / 2 ^ 32 = t1.
Proof. unfold join, is_word. intros. Z.div_mod_to_equations; lia. Qed.

(** Storing the result: the 16 words are folded onto the 8 of the chain value. *)
Lemma fold_spec h v : length h = 8%nat -> length v = 16%nat ->
  foldl (fun h i => <[i := (h !!! i) .^ ([0; 0; 0; 0] !!! (i mod 4)%nat)]> h)
    (foldl (fun h i => <[(i mod 8)%nat := (h !!! (i mod 8)%nat) .^ (v !!! i)]> h) h (seq 0 16)) (seq 0 8) =
  finish h (matrix_of v).
Proof.
  intros Hh Hv. apply sixteen in Hv as (?&?&?&?&?&?&?&?&?&?&?&?&?&?&?&?&->).
  do 8 (destruct h as [|? h]; [discriminate|]). destruct h; [|discriminate].
  cbn. by rewrite !Z.lxor_0_r.
Qed.

Lemma compress_init_spec h t0 t1 n nt b : length h = 8%nat -> is_u32 t0 ->
  let t := if nt =? 0 then join t0 t1 else 0 in
  matrix_of (compress_init (mkstate h [0; 0; 0; 0] t0 t1 n nt b)) =
    (take 4 h, drop 4 h, take 4 cst, xor (take 4 (drop 4 cst)) [t mod 2 ^ 32; t mod 2 ^ 32; t / 2 ^ 32; t / 2 ^ 32]) /\
  length (compress_init (mkstate h [0; 0; 0; 0] t0 t1 n nt b)) = 16%nat.
Proof.
  intros Hh Ht t. subst t. do 8 (destruct h as [|? h]; [discriminate|]). destruct h; [|discriminate].
  unfold compress_init. cbn [nullt]. destruct (nt =? 0); [|done].
  destruct (join_halves t0 t1 Ht) as [-> ->]. done.
Qed.

Lemma compress_spec h t0 t1 n nt b block : length h = 8%nat -> is_u32 t0 -> is_bytes_n 64 block ->
  blake256_compress (mkstate h [0; 0; 0; 0] t0 t1 n nt b) block =
  mkstate (spec_compress h block (if nt =? 0 then join t0 t1 else 0)) [0; 0; 0; 0] t0 t1 n nt b.
Proof.
  intros Hh Ht Hb. unfold blake256_compress, set_h. cbn [bh bs bt0 bt1 buflen nullt buf]. f_equal.
  rewrite words_code by done.
  destruct (compress_init_spec h t0 t1 n nt b Hh Ht) as [E L]. cbv zeta in E.
  destruct (rounds_spec (words block) _ (seq 0 14) L eq_refl) as [E2 L2].
  { apply list.Forall_forall. intros r Hr%elem_of_seq. lia. }
  change sigma with ((fun r => sigma !!! r) <$> seq 0 14) at 1.
  rewrite fold_spec by done. unfold spec_compress. apply (f_equal (finish h)). rewrite E2. by apply (f_equal (fun q => foldl _ q _)).
Qed.

Abbreviation four v := (length v = 4%nat).

Lemma four_add v w : four v -> four w -> four (add v w).
Proof. intros Hv Hw. unfold add. by rewrite length_zip_with, Hv, Hw. Qed.
Lemma four_xor v w : four v -> four w -> four (xor v w).
Proof. intros Hv Hw. unfold xor. by rewrite length_zip_with, Hv, Hw. Qed.
Lemma four_rot v n : four v -> four (rot v n).
Proof. intros Hv. unfold rot. by rewrite length_fmap. Qed.
Lemma four_turn n v : four v -> four (turn n v).
Proof. intros Hv. unfold turn. rewrite length_app, length_drop, length_take. lia. Qed.
Create HintDb four.
#[local] Hint Resolve four_add four_xor four_rot four_turn : four.

Definition square (q : matrix) : Prop := let '(a, b, c, d) := q in four a /\ four b /\ four c /\ four d.

Lemma square_columns x y q : four x -> four y -> square q -> square (columns x y q).
Proof. destruct q as [[[a b] c] d]. intros Hx Hy (Ha & Hb & Hc & Hd). cbn [columns square]. auto 20 with four. Qed.

Lemma square_round m q r : square q -> square (spec_round m q r).
Proof.
  intros Hq. unfold spec_round. pose proof (square_columns (masked m r 0).1 (masked m r 0).2 q eq_refl eq_refl Hq) as H.
  destruct columns as [[[a b] c] d]. destruct H as (Ha & Hb & Hc & Hd).
  pose proof (square_columns (masked m r 8).1 (masked m r 8).2 (a, turn 1 b, turn 2 c, turn 3 d) eq_refl eq_refl) as H.
  destruct columns as [[[a' b'] c'] d']. destruct H as (? & ? & ? & ?); cbn [square]; auto 10 with four.
Qed.

Lemma square_rounds m q l : square q -> square (foldl (spec_round m) q l).
Proof. revert q. induction l; intros q Hq; cbn [foldl]; [done|]. by apply IHl, square_round. Qed.

Lemma length_spec_compress h block t : length h = 8%nat -> length (spec_compress h block t) = 8%nat.
Proof.
  intros Hh. unfold spec_compress.
  match goal with |- context [foldl ?f ?q ?l] => pose proof (square_rounds (words block) q l) as K; destruct (foldl f q l) as [[[a b] c] d] end.
  destruct K as (? & ? & ? & ?).
  { cbn [square]. rewrite length_take, length_drop, Hh. done. }
  unfold finish, xor. rewrite !length_zip_with, !length_app. lia.
Qed.

(** ** The incremental interface *)

(** [st] has chain value [h], counter [t0], [t1] and the bytes [tail] in its
    buffer. *)
Record holds (st : state) (h : list Z) (t0 t1 nt : Z) (tail : bytes) : Prop := mkholds {
  holds_eq : st = mkstate h [0; 0; 0; 0] t0 t1 (8 * Z.of_nat (length tail)) nt (buf st);
  holds_h : length h = 8%nat;
  holds_t : is_u32 t0;
  holds_buf : length (buf st) = 64%nat;
  holds_tail : take (length tail) (buf st) = tail;
  holds_bytes : is_bytes tail;
  holds_short : (length tail < 64)%nat;
}.

(** The same without the buffer length, between two blocks. *)
Record ready (st : state) (h : list Z) (t0 t1 nt : Z) : Prop := mkready {
  ready_eq : st = mkstate h [0; 0; 0; 0] t0 t1 (buflen st) nt (buf st);
  ready_h : length h = 8%nat;
  ready_t : is_u32 t0;
  ready_buf : length (buf st) = 64%nat;
}.

Definition bits (nt t0 t1 : Z) : Z := if nt =? 0 then join t0 t1 else 0.
Definition tick0 (t0 : Z) : Z := u32 (t0 + 512).
Definition tick1 (t0 t1 : Z) : Z := if tick0 t0 =? 0 then u32 (t1 + 1) else t1.

Lemma u32_word x : is_u32 (u32 x).
Proof. by apply wrap_word. Qed.

(** The two halves of [blake256_update], lengths in bytes: the buffer is
    completed, then whole blocks and a rest follow. *)
Definition complete (st : state) (data : bytes) (l : nat) : state :=
  let st := set_buf st (memcpy (buf st) l (take (64 - l) data)) (buflen st) in
  let st := count_block st in
  blake256_compress st (buf st).

Definition rest (st : state) (data : bytes) (k l : nat) : state :=
  let '(st, data, n) := update_whole (Z.to_nat ((8 * Z.of_nat k) / 512)) st data (8 * Z.of_nat k) in
  if 0 <? n then set_buf st (memcpy (buf st) l (take (Z.to_nat (n .>> 3)) data)) ((Z.of_nat l .<< 3) + n)
  else set_buf st (buf st) 0.

Lemma shr3 n : (8 * n) .>> 3 = n.
Proof. rewrite Z.shiftr_div_pow2 by lia. change (2 ^ 3) with 8. rewrite Z.mul_comm. by apply Z.div_mul. Qed.

Lemma update_halves st data k l : buflen st = 8 * Z.of_nat l -> (l < 64)%nat ->
  blake256_update st data (8 * Z.of_nat k) =
  if negb (l =? 0)%nat && (64 - l <=? k)%nat then rest (complete st data l) (drop (64 - l) data) (k - (64 - l)) 0
  else rest st data k l.
Proof.
  intros Hb Hl. unfold blake256_update. rewrite Hb, !shr3.
  replace (Z.of_nat l =? 0) with (l =? 0)%nat by lia.
  replace (64 - Z.of_nat l <=? Z.of_nat k) with (64 - l <=? k)%nat by lia.
  destruct (negb (l =? 0)%nat && (64 - l <=? k)%nat) eqn:E; unfold rest, complete.
  - apply andb_true_iff in E as [E1 E2]. cbv zeta.
    replace (Z.to_nat (64 - Z.of_nat l)) with (64 - l)%nat by lia. rewrite Nat2Z.id, Hb.
    replace (8 * Z.of_nat k - ((64 - Z.of_nat l) .<< 3)) with (8 * Z.of_nat (k - (64 - l)))
      by (rewrite Z.shiftl_mul_pow2 by lia; lia). reflexivity.
  - by rewrite Nat2Z.id.
Qed.

Lemma rest_small st data k l : (k < 64)%nat ->
  rest st data k l = if (k =? 0)%nat then set_buf st (buf st) 0
    else set_buf st (memcpy (buf st) l (take k data)) (8 * Z.of_nat (l + k)).
Proof.
  intros Hk. unfold rest. replace (Z.to_nat (8 * Z.of_nat k / 512)) with 0%nat by (Z.div_mod_to_equations; lia).
  cbn [update_whole]. replace (0 <? 8 * Z.of_nat k) with (negb (k =? 0)%nat) by lia. rewrite shr3, Nat2Z.id.
  destruct (k =? 0)%nat; cbn [negb]; [done|]. f_equal. rewrite Z.shiftl_mul_pow2 by lia. lia.
Qed.

Lemma rest_block st data k : (64 <= k)%nat ->
  rest st data k 0 = rest (blake256_compress (count_block st) (take 64 data)) (drop 64 data) (k - 64) 0.
Proof.
  intros Hk. unfold rest.
  replace (Z.to_nat (8 * Z.of_nat k / 512)) with (S (Z.to_nat (8 * Z.of_nat (k - 64) / 512))) by (Z.div_mod_to_equations; lia).
  cbn [update_whole]. rewrite (proj2 (Z.leb_le _ _)) by lia.
  by replace (8 * Z.of_nat k - 512) with (8 * Z.of_nat (k - 64)) by lia.
Qed.

Section Holds.
Context {st : state} {h : list Z} {t0 t1 nt : Z} {tail : bytes} (Hst : holds st h t0 t1 nt tail).

Lemma holds_buflen : buflen st = 8 * Z.of_nat (length tail).
Proof using Hst. by rewrite (holds_eq _ _ _ _ _ _ Hst). Qed.

Lemma holds_bt0 : bt0 st = t0.
Proof using Hst. by rewrite (holds_eq _ _ _ _ _ _ Hst). Qed.

Lemma holds_bt1 : bt1 st = t1.
Proof using Hst. by rewrite (holds_eq _ _ _ _ _ _ Hst). Qed.

(** [t[0] -= b]. *)
Lemma holds_back b : holds (set_t0 st (bt0 st - b)) h (u32 (t0 - b)) t1 nt tail.
Proof using Hst.
  destruct Hst as [E]. rewrite E. by constructor; cbn [buf set_t0]; try apply u32_word.
Qed.

Lemma holds_set_nullt n : holds (set_nullt st n) h t0 t1 n tail.
Proof using Hst. destruct Hst as [E]. rewrite E. by constructor. Qed.

(** Data that does not complete the buffer. *)
Lemma holds_fit data k n : n = 8 * Z.of_nat k -> is_bytes data -> (0 < k <= length data)%nat -> (length tail + k < 64)%nat ->
  holds (blake256_update st data n) h t0 t1 nt (tail ++ take k data).
Proof using Hst.
  intros -> Hd Hk Hs. rewrite (update_halves _ _ _ _ holds_buflen) by lia.
  replace (64 - length tail <=? k)%nat with false by lia. rewrite andb_false_r, rest_small by lia.
  replace (k =? 0)%nat with false by lia. destruct Hst as [E Hh Ht Hb Ht' Hby Hsh].
  assert (Lk : length (take k data) = k) by (rewrite length_take; lia).
  assert (L : length (tail ++ take k data) = (length tail + k)%nat) by (rewrite length_app; lia).
  constructor; cbn [buf set_buf]; rewrite ?L; [by rewrite E|done|done| | | |lia].
  - rewrite length_memcpy; lia.
  - rewrite <- Lk at 1. rewrite take_memcpy, Ht' by lia. done.
  - apply Forall_app. split; [done|by apply Forall_take].
Qed.

(** Data that completes the buffer. *)
Lemma holds_complete data : tail <> [] -> is_bytes data -> (64 - length tail <= length data)%nat ->
  ready (complete st data (length tail))
    (spec_compress h (tail ++ take (64 - length tail) data) (bits nt (tick0 t0) (tick1 t0 t1))) (tick0 t0) (tick1 t0 t1) nt.
Proof using Hst.
  intros Hne Hd Hk. unfold complete. destruct Hst as [E Hh Ht Hb Ht' Hby Hsh].
  assert (Lk : length (take (64 - length tail) data) = (64 - length tail)%nat) by (rewrite length_take; lia).
  assert (M : memcpy (buf st) (length tail) (take (64 - length tail) data) = tail ++ take (64 - length tail) data).
  { unfold memcpy. rewrite Ht', Lk, drop_ge by lia. by rewrite app_nil_r. }
  rewrite M, E. cbn [buflen]. unfold count_block, set_buf. cbn [bh bs bt0 bt1 buflen nullt buf].
  assert (L : length (tail ++ take (64 - length tail) data) = 64%nat) by (rewrite length_app; lia).
  rewrite compress_spec; [|done|apply u32_word|split; [apply Forall_app; split; [done|by apply Forall_take]|done]].
  constructor; cbn [buf]; [done|by apply length_spec_compress|apply u32_word|done].
Qed.

Lemma holds_ready : ready st h t0 t1 nt.
Proof using Hst. destruct Hst as [E]. by constructor; [rewrite E|..]. Qed.
End Holds.

Section Ready.
Context {st : state} {h : list Z} {t0 t1 nt : Z} (Hst : ready st h t0 t1 nt).

Lemma ready_block data : is_bytes data -> (64 <= length data)%nat ->
  ready (blake256_compress (count_block st) (take 64 data))
    (spec_compress h (take 64 data) (bits nt (tick0 t0) (tick1 t0 t1))) (tick0 t0) (tick1 t0 t1) nt.
Proof using Hst.
  intros Hd Hk. destruct Hst as [E Hh Ht Hb]. rewrite E.
  unfold count_block. cbn [bh bs bt0 bt1 buflen nullt buf].
  rewrite compress_spec; [|done|apply u32_word|split; [by apply Forall_take|rewrite length_take; lia]].
  constructor; cbn [buf]; [done|by apply length_spec_compress|apply u32_word|done].
Qed.

Lemma ready_rest data k : is_bytes data -> (k <= length data)%nat -> (k < 64)%nat -> holds (rest st data k 0) h t0 t1 nt (take k data).
Proof using Hst.
  intros Hd Hk H64. destruct Hst as [E Hh Ht Hb]. rewrite rest_small by done.
  assert (Lk : length (take k data) = k) by (rewrite length_take; lia).
  destruct (Nat.eqb_spec k 0) as [->|Hk0]; constructor; cbn [buf set_buf]; rewrite ?Lk;
    [by rewrite E|done|done|done|done|by apply Forall_take|lia|by rewrite E|done|done| | |by apply Forall_take|done].
  - rewrite length_memcpy; lia.
  - rewrite <- Lk at 1. by apply (take_memcpy (buf st) 0); lia.
Qed.
End Ready.

Lemma holds_close {st h t0 t1 nt tail} data k n : n = 8 * Z.of_nat k -> holds st h t0 t1 nt tail -> tail <> [] -> is_bytes data ->
  (length tail + k = 64)%nat -> (k <= length data)%nat ->
  holds (blake256_update st data n)
    (spec_compress h (tail ++ take k data) (bits nt (tick0 t0) (tick1 t0 t1))) (tick0 t0) (tick1 t0 t1) nt [].
Proof.
  intros -> Hst Hne Hd Hk Hl. rewrite (update_halves _ _ _ _ (holds_buflen Hst)) by exact (holds_short _ _ _ _ _ _ Hst).
  replace (length tail =? 0)%nat with false by (destruct tail; done). replace (64 - length tail <=? k)%nat with true by lia.
  cbn [negb andb]. replace (k - (64 - length tail))%nat with 0%nat by lia.
  pose proof (holds_complete Hst data Hne Hd ltac:(lia)) as R. replace (64 - length tail)%nat with k in * by lia.
  exact (ready_rest R (drop k data) 0 ltac:(by apply Forall_drop) ltac:(lia) ltac:(lia)).
Qed.

(** ** Absorbing a message *)

Definition lo (t : Z) : Z := t mod 2 ^ 32.
Definition hi (t : Z) : Z := (t / 2 ^ 32) mod 2 ^ 32.

Lemma tick_lo t : tick0 (lo t) = lo (t + 512).
Proof. apply Zplus_mod_idemp_l. Qed.

Lemma tick_hi t : 0 <= t -> (512 | t) -> tick1 (lo t) (hi t) = hi (t + 512).
Proof.
  intros H0 [k ->]. unfold tick1. rewrite tick_lo. unfold lo, hi, wrap.
  rewrite Zplus_mod_idemp_l.
  destruct (Z.eqb_spec ((k * 512 + 512) mod 2 ^ 32) 0) as [E|E]; f_equal; Z.div_mod_to_equations; lia.
Qed.

Lemma join_lo_hi t : 0 <= t < 2 ^ 64 -> join (lo t) (hi t) = t.
Proof. unfold join, lo, hi. intros. rewrite (Z.mod_small (t / 2 ^ 32)); Z.div_mod_to_equations; lia. Qed.

(** The chain value after the whole blocks of [M]. *)
Definition chain (iv : list Z) (M : bytes) : list Z :=
  foldl (fun h i => spec_compress h (take 64 (drop (64 * i) M)) (512 * Z.of_nat (S i))) iv (seq 0 (length M / 64)).

Lemma block_app (M N : bytes) i : (64 * i + 64 <= length M)%nat -> take 64 (drop (64 * i) (M ++ N)) = take 64 (drop (64 * i) M).
Proof. intros H. rewrite drop_app_le by lia. rewrite take_app_le; [done|]. rewrite length_drop. lia. Qed.

Lemma chain_snoc iv M B q : length M = (64 * q)%nat -> length B = 64%nat ->
  chain iv (M ++ B) = spec_compress (chain iv M) B (8 * Z.of_nat (length M + 64)).
Proof.
  intros HM HB. unfold chain. rewrite length_app, HM, HB.
  replace ((64 * q + 64) / 64)%nat with (q + 1)%nat by (rewrite Nat.mul_comm, Nat.div_add_l by lia; done).
  replace (64 * q / 64)%nat with q by (rewrite Nat.mul_comm, Nat.div_mul by lia; done).
  rewrite seq_app, foldl_app. cbn [seq foldl Nat.add].
  assert (E : take 64 (drop (64 * q) (M ++ B)) = B) by (rewrite <- HM, drop_app_length; apply take_ge; lia).
  rewrite E. apply f_equal3; [|exact eq_refl|lia].
  apply foldl_seq_ext. intros y i Hi. by rewrite block_app by lia.
Qed.

(** The bytes [m] have been given to a state started with [iv]. *)
Definition absorbed (iv : list Z) (m : bytes) (st : state) : Prop :=
  exists q M tail, m = M ++ tail /\ length M = (64 * q)%nat /\ is_bytes M /\ 8 * Z.of_nat (length m) < 2 ^ 64 /\
    let t := 8 * Z.of_nat (length M) in holds st (chain iv M) (lo t) (hi t) 0 tail.

Lemma chain_step iv M B q : length M = (64 * q)%nat -> length B = 64%nat -> 8 * Z.of_nat (length M + 64) < 2 ^ 64 ->
  let t := 8 * Z.of_nat (length M) in
  spec_compress (chain iv M) B (bits 0 (tick0 (lo t)) (tick1 (lo t) (hi t))) = chain iv (M ++ B) /\
  tick0 (lo t) = lo (8 * Z.of_nat (length (M ++ B))) /\ tick1 (lo t) (hi t) = hi (8 * Z.of_nat (length (M ++ B))).
Proof.
  intros HM HB HL t. rewrite length_app, HB.
  assert (E : 8 * Z.of_nat (length M + 64) = t + 512) by (subst t; lia).
  rewrite tick_lo, tick_hi; [|subst t; lia|exists (Z.of_nat q); subst t; lia]. rewrite E. split_and!; [|done|done].
  unfold bits. cbn [Z.eqb]. rewrite join_lo_hi by (subst t; lia). by rewrite (chain_snoc _ _ _ q), E.
Qed.

Lemma rest_absorbed iv M st data q : length M = (64 * q)%nat -> is_bytes M -> is_bytes data ->
  8 * Z.of_nat (length (M ++ data)) < 2 ^ 64 ->
  (let t := 8 * Z.of_nat (length M) in ready st (chain iv M) (lo t) (hi t) 0) ->
  absorbed iv (M ++ data) (rest st data (length data) 0).
Proof.
  intros HM HMb Hd HL Hst. remember (length data) as n eqn:Hn. revert M st data q HM HMb Hd HL Hst Hn.
  induction (lt_wf n) as [n _ IH]. intros M st data q HM HMb Hd HL Hst Hn.
  rewrite length_app in HL. destruct (Nat.lt_ge_cases n 64) as [H|H].
  - exists q, M, data. split_and!; [done|done|done|rewrite length_app; lia|].
    pose proof (ready_rest Hst data n Hd ltac:(lia) H) as R. rewrite take_ge in R by lia. exact R.
  - rewrite rest_block by done.
    assert (L : length (take 64 data) = 64%nat) by (rewrite length_take; lia).
    pose proof (ready_block Hst data Hd ltac:(lia)) as R.
    destruct (chain_step iv M (take 64 data) q HM L ltac:(lia)) as (E1 & E2 & E3). rewrite E1, E2, E3 in R.
    rewrite <- (take_drop 64 data) at 1. rewrite app_assoc.
    apply (IH (n - 64)%nat ltac:(lia) _ _ _ (S q)).
    + rewrite length_app. lia.
    + apply Forall_app. split; [done|by apply Forall_take].
    + by apply Forall_drop.
    + rewrite !length_app, length_drop. lia.
    + exact R.
    + rewrite length_drop. lia.
Qed.

Lemma update_absorbed iv m st data : absorbed iv m st -> is_bytes data -> data <> [] ->
  8 * Z.of_nat (length (m ++ data)) < 2 ^ 64 ->
  absorbed iv (m ++ data) (blake256_update st data (8 * Z.of_nat (length data))).
Proof.
  intros (q & M & tail & -> & HM & HMb & HL & Hst) Hd Hne HL2.
  assert (Hk : (0 < length data)%nat) by (destruct data; [done|cbn; lia]).
  rewrite !length_app in HL2. pose proof (holds_short _ _ _ _ _ _ Hst) as Hsh.
  destruct (Nat.lt_ge_cases (length tail + length data) 64) as [H|H].
  { exists q, M, (tail ++ data). split_and!; [by rewrite app_assoc|done|done|rewrite !length_app; lia|].
    pose proof (holds_fit Hst data (length data) _ eq_refl Hd ltac:(lia) H) as R. rewrite take_ge in R by lia. exact R. }
  rewrite (update_halves _ _ _ _ (holds_buflen Hst)) by done.
  destruct (Nat.eqb_spec (length tail) 0) as [E|E]; cbn [negb andb].
  { destruct tail; [|discriminate]. rewrite app_nil_r. cbn [length].
    apply (rest_absorbed _ _ _ _ q); [done|done|done|rewrite length_app; lia|exact (holds_ready Hst)]. }
  replace (64 - length tail <=? length data)%nat with true by lia.
  pose proof (holds_complete Hst data ltac:(by destruct tail) Hd ltac:(lia)) as R.
  set (B := take (64 - length tail) data) in *.
  assert (L : length (tail ++ B) = 64%nat) by (subst B; rewrite length_app, length_take; lia).
  destruct (chain_step iv M (tail ++ B) q HM L) as (E1 & E2 & E3).
  { rewrite length_app in HL. lia. }
  rewrite E1, E2, E3 in R.
  replace ((M ++ tail) ++ data) with ((M ++ (tail ++ B)) ++ drop (64 - length tail) data)
    by (subst B; rewrite <- !app_assoc, take_drop; done).
  rewrite <- length_drop. apply (rest_absorbed _ _ _ _ (S q)).
  - rewrite length_app. lia.
  - apply Forall_app. split; [done|]. apply Forall_app. split; [exact (holds_bytes _ _ _ _ _ _ Hst)|by apply Forall_take].
  - by apply Forall_drop.
  - rewrite !length_app, length_drop in *. lia.
  - exact R.
Qed.

Lemma init_absorbed iv st : st = mkstate iv [0; 0; 0; 0] 0 0 0 0 (buf st) -> length iv = 8%nat -> length (buf st) = 64%nat ->
  absorbed iv [] st.
Proof. intros E Hi Hb. exists 0%nat, [], []. split_and!; [done|done|constructor|done|]. constructor; [exact E|exact Hi|by split|exact Hb|done|constructor|cbn; lia]. Qed.

(** ** Finishing *)

Lemma tick_back t b c : 0 <= t -> (512 | t) -> 0 < b < 512 -> c =[2 ^ 32]= t + b - 512 ->
  tick0 c = lo (t + b) /\ tick1 c (hi t) = hi (t + b).
Proof.
  intros H0 [k ->] Hb Hc.
  assert (E : tick0 c = lo (k * 512 + b)).
  { unfold tick0, lo, wrap. change ((c + 512) =[2 ^ 32]= k * 512 + b). rewrite Hc. unfold eqmod. f_equal. lia. }
  split; [done|]. unfold tick1. rewrite E. unfold lo, hi.
  destruct (Z.eqb_spec ((k * 512 + b) mod 2 ^ 32) 0); [|f_equal]; Z.div_mod_to_equations; lia.
Qed.

Lemma length_be_bytes n x : length (be_bytes n x) = n.
Proof. unfold be_bytes. by rewrite length_reverse, length_le_bytes. Qed.

Lemma be_bytes_bytes n x : is_bytes (be_bytes n x).
Proof. unfold be_bytes. apply Forall_reverse, le_bytes_is_bytes. Qed.

Lemma msglen_spec t b : 0 <= t -> (512 | t) -> 0 <= b < 512 ->
  (let lo' := u32 (lo t + b) in U32TO8 (if lo' <? b then u32 (hi t + 1) else hi t) ++ U32TO8 lo') = be_bytes 8 (t + b).
Proof.
  intros H0 [k ->] Hb. cbv zeta. rewrite !U32TO8_be.
  assert (E : u32 (lo (k * 512) + b) = (k * 512 + b) mod 2 ^ 32) by apply Zplus_mod_idemp_l.
  rewrite E. replace ((k * 512 + b) mod 2 ^ 32 <? b) with false by (symmetry; apply Z.ltb_ge; Z.div_mod_to_equations; lia).
  unfold be_bytes. rewrite (le_bytes_app 4 4), reverse_app. f_equal; f_equal.
  - unfold hi. change (2 ^ 32) with (256 ^ Z.of_nat 4). rewrite le_bytes_mod. f_equal. Z.div_mod_to_equations; lia.
  - exact (le_bytes_mod 4 _).
Qed.

Lemma digest_spec {st h t0 t1 nt tail} : holds st h t0 t1 nt tail -> mjoin (U32TO8 <$> take 8 (bh st)) = mjoin (be_bytes 4 <$> h).
Proof.
  intros Hst. rewrite (holds_eq _ _ _ _ _ _ Hst). cbn [bh]. rewrite take_ge by (rewrite (holds_h _ _ _ _ _ _ Hst); lia).
  f_equal. apply list_fmap_ext. intros. apply U32TO8_be.
Qed.

(** The last byte of padding and the length close a block. *)
Lemma close_length {st h t0 t1 nt tail} L b : holds st h t0 t1 nt tail -> length tail = 56%nat -> is_bytes_n 8 L ->
  let c := u32 (t0 - b) in
  holds (blake256_update (set_t0 st (bt0 st - b)) L 64)
    (spec_compress h (tail ++ L) (bits nt (tick0 c) (tick1 c t1))) (tick0 c) (tick1 c t1) nt [].
Proof.
  intros Hst Ht [HL HL8] c. pose proof (holds_close L 8 64 eq_refl (holds_back Hst b)) as R.
  rewrite take_ge in R by lia. apply R; [by destruct tail|done|lia|lia].
Qed.

Lemma close_pad {st h t0 t1 nt tail} pb L : holds st h t0 t1 nt tail -> length tail = 55%nat -> is_u8 pb -> is_bytes_n 8 L ->
  let c := u32 (u32 (t0 - 8) - 64) in
  exists st', (let st := blake256_update st [pb] 8 in
    let st := set_t0 st (bt0 st - 8) in blake256_update (set_t0 st (bt0 st - 64)) L 64) = st' /\
  holds st' (spec_compress h (tail ++ [pb] ++ L) (bits nt (tick0 c) (tick1 c t1))) (tick0 c) (tick1 c t1) nt [].
Proof.
  intros Hst Ht Hp HL c. eexists. split; [reflexivity|].
  assert (Hb : is_bytes [pb]) by (by repeat constructor; apply Hp).
  pose proof (holds_fit Hst [pb] 1 8 eq_refl Hb ltac:(cbn; lia) ltac:(lia)) as R1.
  pose proof (close_length L 64 (holds_back R1 8)) as R. cbn [take] in R. rewrite <- app_assoc in R.
  apply R; [rewrite length_app; cbn; lia|done].
Qed.

Lemma padding_bytes k : is_bytes (drop k padding).
Proof. apply Forall_drop. constructor; [done|]. apply Forall_replicate. done. Qed.

#[local] Opaque spec_compress blake256_update.

Section Final.
Context {st : state} {h : list Z} {t : Z} {tail : bytes} (pb : Z).
Context (Hst : holds st h (lo t) (hi t) 0 tail) (Ht0 : 0 <= t) (Ht : (512 | t)) (Hpb : is_u8 pb).

Let b : Z := 8 * Z.of_nat (length tail).
Let L : bytes := be_bytes 8 (t + b).
Let pa : Z := 0x80 .| pb.

Lemma L_bytes : is_bytes_n 8 L.
Proof. split; [apply be_bytes_bytes|apply length_be_bytes]. Qed.

Lemma final_msglen :
  (let lo := u32 (bt0 st + buflen st) in let hi := if lo <? buflen st then u32 (bt1 st + 1) else bt1 st in U32TO8 hi ++ U32TO8 lo) = L.
Proof using Hst Ht0 Ht.
  rewrite (holds_bt0 Hst), (holds_bt1 Hst), (holds_buflen Hst). apply msglen_spec; [done|done|].
  clear pa. pose proof (holds_short _ _ _ _ _ _ Hst). lia.
Qed.

Lemma buflen_set_t0 s x : buflen (set_t0 s x) = buflen s.
Proof. reflexivity. Qed.

(** The digest of a chain value. *)
Definition digest (h : list Z) : bytes := mjoin (be_bytes 4 <$> h).

Lemma bits_back c : 0 < b -> t + b < 2 ^ 64 -> c =[2 ^ 32]= t + b - 512 -> bits 0 (tick0 c) (tick1 c (hi t)) = t + b.
Proof using Hst Ht0 Ht.
  clear pa. intros Hb Hl Hc. pose proof (holds_short _ _ _ _ _ _ Hst).
  destruct (tick_back t b c Ht0 Ht ltac:(lia) Hc) as [-> ->]. apply join_lo_hi. lia.
Qed.

Lemma u32_eqmod x y : x =[2 ^ 32]= y -> u32 x =[2 ^ 32]= y.
Proof. intros <-. apply eqmod_mod. Qed.
Lemma lo_eqmod x y : x = y -> lo x =[2 ^ 32]= y.
Proof. intros <-. apply eqmod_mod. Qed.
Lemma u32_back x y d : x =[2 ^ 32]= y + d -> u32 (x - d) =[2 ^ 32]= y.
Proof. intros H. apply u32_eqmod. rewrite H. unfold eqmod. f_equal. lia. Qed.

(** One padding byte. *)
Lemma final_one : length tail = 55%nat -> t + b < 2 ^ 64 ->
  blake256_final_h st pa pb = digest (spec_compress h (tail ++ [pa] ++ L) (t + b)).
Proof using Hst Ht0 Ht Hpb.
  intros Hr Hl. unfold blake256_final_h. pose proof final_msglen as E. cbv zeta in E |- *. rewrite E.
  rewrite (holds_buflen Hst), Hr. change (8 * Z.of_nat 55 =? 440) with true. cbv iota.
  assert (Hpa : is_u8 pa) by (by apply lor_word).
  assert (Hb : is_bytes [pa]) by (by repeat constructor; apply Hpa).
  pose proof (holds_fit (holds_back Hst 8) [pa] 1 8 eq_refl Hb ltac:(cbn; lia) ltac:(lia)) as R1.
  pose proof (close_length L 64 R1) as R. cbn [take] in R. rewrite <- app_assoc in R.
  specialize (R ltac:(rewrite length_app; cbn; lia) L_bytes). cbv zeta in R.
  rewrite (bits_back (u32 (u32 (lo t - 8) - 64))) in R; [exact (digest_spec R)|subst b; lia|done|].
  apply u32_back, u32_back. apply lo_eqmod. subst b. lia.
Qed.

(** Room for the padding. *)
Lemma final_room : (length tail < 55)%nat -> t + b < 2 ^ 64 ->
  blake256_final_h st pa pb =
  digest (spec_compress h (tail ++ take (55 - length tail) padding ++ [pb] ++ L) (if b =? 0 then 0 else t + b)).
Proof using Hst Ht0 Ht Hpb.
  intros Hr Hl. unfold blake256_final_h. pose proof final_msglen as E. cbv zeta in E |- *. rewrite E.
  rewrite !(holds_buflen Hst). fold b. rewrite (proj2 (Z.eqb_neq _ _)) by (subst b; lia). rewrite (proj2 (Z.ltb_lt _ _)) by (subst b; lia).
  set (nt := if b =? 0 then 1 else 0).
  assert (H1 : holds (if b =? 0 then set_nullt st 1 else st) h (lo t) (hi t) nt tail).
  { subst nt. destruct (b =? 0); [exact (holds_set_nullt Hst 1)|exact Hst]. }
  set (st1 := if b =? 0 then set_nullt st 1 else st) in *.
  assert (Eb : buflen st1 = b) by exact (holds_buflen H1). rewrite !buflen_set_t0, Eb.
  pose proof (holds_fit (holds_back H1 (440 - b)) padding (55 - length tail) (440 - b) ltac:(subst b; lia) (padding_bytes 0)
    ltac:(cbn; lia) ltac:(lia)) as R1.
  destruct (close_pad pb L R1) as (st' & <- & R); [|done|exact L_bytes|].
  { rewrite length_app, length_take. cbn [length padding]. rewrite length_replicate. lia. }
  cbv zeta in R. rewrite (digest_spec R), <- app_assoc. apply (f_equal (fun z => digest (spec_compress h _ z))). subst nt.
  destruct (Z.eqb_spec b 0) as [Hb|Hb]; [done|]. apply bits_back; [subst b; lia|done|].
  apply u32_back, u32_back, u32_back. apply lo_eqmod. lia.
Qed.

(** Two blocks. *)
Lemma final_two : (55 < length tail)%nat -> t + b < 2 ^ 64 ->
  blake256_final_h st pa pb =
  digest (spec_compress (spec_compress h (tail ++ take (64 - length tail) padding) (t + b)) (replicate 55 0 ++ [pb] ++ L) 0).
Proof using Hst Ht0 Ht Hpb.
  intros Hr Hl. pose proof (holds_short _ _ _ _ _ _ Hst) as Hs.
  unfold blake256_final_h. pose proof final_msglen as E. cbv zeta in E |- *. rewrite E.
  rewrite !(holds_buflen Hst). fold b. rewrite (proj2 (Z.eqb_neq _ _)) by (subst b; lia). rewrite (proj2 (Z.ltb_ge _ _)) by (subst b; lia).
  rewrite buflen_set_t0, (holds_buflen Hst). fold b.
  assert (Hne : tail <> []) by (intros E0; rewrite E0 in Hr; cbn in Hr; lia).
  pose proof (holds_close padding (64 - length tail) (512 - b) ltac:(subst b; lia) (holds_back Hst (512 - b))
    Hne (padding_bytes 0) ltac:(lia) ltac:(cbn; lia)) as R0.
  rewrite bits_back in R0; [|subst b; lia|done|].
  2:{ apply u32_back. apply lo_eqmod. lia. }
  pose proof (holds_fit (holds_back R0 440) (drop 1 padding) 55 440 eq_refl (padding_bytes 1) ltac:(cbn; lia) ltac:(cbn; lia)) as R1.
  destruct (close_pad pb L (holds_set_nullt R1 1)) as (st' & <- & R); [done|done|exact L_bytes|].
  cbv zeta in R. exact (digest_spec R).
Qed.
End Final.

Lemma take_padding k : (k < 64)%nat -> take (S k) padding = 0x80 :: replicate k 0.
Proof. intros Hk. unfold padding. cbn [take]. by rewrite take_replicate, Nat.min_l by lia. Qed.

Lemma spec_pad_cases pb n r : (n mod 64 = r)%nat ->
  spec_pad pb n =
  (if (r =? 55)%nat then [0x80 .| pb]
   else if (r <? 55)%nat then take (55 - r) padding ++ [pb]
   else take (64 - r) padding ++ replicate 55 0 ++ [pb]) ++ be_bytes 8 (8 * Z.of_nat n).
Proof.
  intros Hr. pose proof (Nat.mod_upper_bound n 64 ltac:(lia)) as Hu. rewrite Hr in Hu.
  unfold spec_pad. rewrite Hr. f_equal.
  destruct (Nat.eqb_spec r 55) as [->|H1]; [done|]. destruct (Nat.ltb_spec r 55) as [H2|H2].
  - replace ((119 - r) mod 64)%nat with (S (54 - r)).
    + replace (55 - r)%nat with (S (54 - r)) by lia. by rewrite take_padding by lia.
    + replace (119 - r)%nat with (S (54 - r) + 1 * 64)%nat by lia. rewrite Nat.Div0.mod_add. symmetry. apply Nat.mod_small. lia.
  - rewrite Nat.mod_small by lia. replace (64 - r)%nat with (S (63 - r)) by lia. rewrite take_padding by lia.
    replace (119 - r)%nat with (S ((63 - r) + 55)) by lia. rewrite replicate_add. cbn [app]. by rewrite <- app_assoc.
Qed.

(** The blocks before the last message block are those of [chain]. *)
Lemma spec_hash_split iv pb M tail q : length M = (64 * q)%nat ->
  let n := length (M ++ tail) in let X := tail ++ spec_pad pb n in
  spec_hash iv pb (M ++ tail) =
  digest (foldl (fun h i => spec_compress h (take 64 (drop (64 * i) X)) (counter n (q + i))) (chain iv M) (seq 0 (length X / 64))).
Proof.
  intros HM n X. unfold spec_hash. fold n. rewrite <- app_assoc. fold X. unfold digest. do 2 f_equal.
  assert (E : (length (M ++ X) / 64 = q + length X / 64)%nat).
  { rewrite length_app, HM, Nat.mul_comm, Nat.div_add_l by lia. done. }
  rewrite E, seq_app, foldl_app. cbn [Nat.add].
  assert (C : foldl (fun h i => spec_compress h (take 64 (drop (64 * i) (M ++ X))) (counter n i)) iv (seq 0 q) = chain iv M).
  { unfold chain. rewrite HM. replace (64 * q / 64)%nat with q by (rewrite Nat.mul_comm, Nat.div_mul by lia; done).
    apply foldl_seq_ext. intros y i Hi. rewrite block_app by lia. f_equal. unfold counter.
    assert (Hn : (64 * q <= n)%nat) by (subst n; rewrite length_app; lia).
    rewrite (proj2 (Nat.ltb_lt _ _)) by lia. lia. }
  rewrite C. rewrite <- (Nat.add_0_r q) at 1. rewrite <- fmap_add_seq, foldl_fmap. apply foldl_seq_ext. intros y i Hi.
  replace (64 * (q + i))%nat with (length M + 64 * i)%nat by lia. by rewrite <- drop_drop, drop_app_length.
Qed.

Lemma counter_at n q r : (n = 64 * q + r)%nat -> (r < 64)%nat ->
  counter n q = (if (r =? 0)%nat then 0 else 8 * Z.of_nat n) /\ counter n (q + 1) = 0.
Proof.
  intros -> Hr. unfold counter. split.
  - destruct (Nat.eqb_spec r 0); [rewrite (proj2 (Nat.ltb_ge _ _)) by lia; done|].
    rewrite (proj2 (Nat.ltb_lt _ _)) by lia. lia.
  - by rewrite (proj2 (Nat.ltb_ge _ _)) by lia.
Qed.

(** [blake256_final_h] returns the digest of the bytes given so far. *)
Lemma final_absorbed iv pb m st : absorbed iv m st -> is_u8 pb -> blake256_final_h st (0x80 .| pb) pb = spec_hash iv pb m.
Proof.
  intros (q & M & tail & -> & HM & HMb & HL & Hst) Hpb. cbv zeta in Hst.
  rewrite (spec_hash_split _ _ _ _ q HM). cbv zeta.
  pose proof (holds_short _ _ _ _ _ _ Hst) as Hs. set (n := length (M ++ tail)) in *.
  assert (En : (n = 64 * q + length tail)%nat) by (subst n; rewrite length_app; lia).
  destruct (counter_at n q (length tail) En Hs) as [C0 C1].
  assert (Hr : (n mod 64 = length tail)%nat).
  { rewrite En, Nat.add_comm, Nat.mul_comm, Nat.Div0.mod_add. apply Nat.mod_small. lia. }
  rewrite (spec_pad_cases _ _ _ Hr).
  assert (Ht0 : 0 <= 8 * Z.of_nat (length M)) by lia.
  assert (Ht : (512 | 8 * Z.of_nat (length M))) by (exists (Z.of_nat q); lia).
  assert (Eb : 8 * Z.of_nat (length M) + 8 * Z.of_nat (length tail) = 8 * Z.of_nat n) by lia.
  assert (Hlen : forall p : bytes, length (p ++ be_bytes 8 (8 * Z.of_nat n)) = (length p + 8)%nat).
  { intros p. by rewrite length_app, length_be_bytes. }
  destruct (Nat.eqb_spec (length tail) 55) as [H1|H1]; [|destruct (Nat.ltb_spec (length tail) 55) as [H2|H2]].
  - rewrite (final_one pb Hst Ht0 Ht Hpb) by lia. rewrite Eb. rewrite length_app, Hlen, H1. cbn [length Nat.add].
    change (64 / 64)%nat with 1%nat. cbn [seq foldl]. rewrite Nat.add_0_r, C0, H1. change (55 =? 0)%nat with false.
    rewrite drop_0, take_ge; [done|]. rewrite length_app, Hlen. cbn. lia.
  - rewrite (final_room pb Hst Ht0 Ht Hpb) by lia. rewrite Eb. rewrite length_app, Hlen, length_app, length_take.
    replace (length tail + (_ + _ + 8))%nat with 64%nat by (cbn; lia).
    change (64 / 64)%nat with 1%nat. cbn [seq foldl]. rewrite Nat.add_0_r, C0.
    replace (8 * Z.of_nat (length tail) =? 0) with (length tail =? 0)%nat by lia.
    rewrite drop_0, (take_ge _ 64); [by rewrite <- app_assoc|]. rewrite length_app, Hlen, length_app, length_take. cbn. lia.
  - rewrite (final_two pb Hst Ht0 Ht Hpb) by lia. rewrite Eb.
    assert (LB : length (tail ++ take (64 - length tail) padding) = 64%nat) by (rewrite length_app, length_take; cbn; lia).
    replace (tail ++ (take (64 - length tail) padding ++ replicate 55 0 ++ [pb]) ++ be_bytes 8 (8 * Z.of_nat n))
      with ((tail ++ take (64 - length tail) padding) ++ replicate 55 0 ++ [pb] ++ be_bytes 8 (8 * Z.of_nat n))
      by (rewrite <- !app_assoc; done).
    rewrite length_app, LB, length_app, length_replicate, length_app, length_be_bytes.
    cbn [length Nat.add]. change (128 / 64)%nat with 2%nat. cbn [seq foldl]. rewrite Nat.add_0_r, C0, C1.
    replace (length tail =? 0)%nat with false by lia.
    rewrite drop_0, take_app_length' by done. change (64 * 1)%nat with 64%nat. rewrite drop_app_length' by done.
    rewrite (take_ge _ 64); [done|]. rewrite length_app, length_replicate, length_app, length_be_bytes. cbn. lia.
Qed.

(** ** Whole hashes *)

Lemma update_start iv m st data : absorbed iv m st -> (64 | Z.of_nat (length m)) -> is_bytes data ->
  8 * Z.of_nat (length (m ++ data)) < 2 ^ 64 ->
  absorbed iv (m ++ data) (blake256_update st data (8 * Z.of_nat (length data))).
Proof.
  intros Hm [c Hc] Hd HL. destruct (decide (data = [])) as [->|Hne]; [|by apply update_absorbed].
  destruct Hm as (q & M & tail & -> & HM & HMb & HL' & Hst).
  pose proof (holds_short _ _ _ _ _ _ Hst) as Hs. rewrite length_app in Hc.
  assert (tail = []) as -> by (destruct tail; [done|]; cbn [length] in *; lia).
  rewrite (update_halves _ _ _ _ (holds_buflen Hst)) by done. cbn [length Nat.eqb negb andb].
  rewrite app_nil_r in *. exact (rest_absorbed iv M st [] q HM HMb Hd ltac:(rewrite app_nil_r; done) (holds_ready Hst)).
Qed.

Lemma updates_absorbed iv chunks m st : absorbed iv m st -> Forall (fun c => is_bytes c /\ c <> []) chunks ->
  8 * Z.of_nat (length (m ++ mjoin chunks)) < 2 ^ 64 -> absorbed iv (m ++ mjoin chunks) (updates st chunks).
Proof.
  intros Hm Hc. revert m st Hm. induction Hc as [|c chunks [Hb Hne] Hc IH]; intros m st Hm HL.
  - cbn. by rewrite app_nil_r.
  - rewrite mjoin_cons, app_assoc in *. apply IH; [|done]. apply update_absorbed; [done..|].
    rewrite length_app in HL. lia.
Qed.

(** An update with no data forgets the buffered bytes. *)
Lemma update_empty iv m st data : absorbed iv m st ->
  absorbed iv (take (64 * (length m / 64)) m) (blake256_update st data 0).
Proof.
  intros (q & M & tail & -> & HM & HMb & HL & Hst). pose proof (holds_short _ _ _ _ _ _ Hst) as Hs.
  assert (E : (length (M ++ tail) / 64 = q)%nat).
  { rewrite length_app, HM, Nat.mul_comm, Nat.div_add_l, Nat.div_small by lia. lia. }
  rewrite E, <- HM, take_app_length. change 0 with (8 * Z.of_nat 0).
  rewrite (update_halves _ _ _ _ (holds_buflen Hst)) by done.
  replace (64 - length tail <=? 0)%nat with false by lia. rewrite andb_false_r, rest_small by lia. cbn [Nat.eqb].
  destruct Hst as [Est Hh Ht Hb Ht' Hby Hsh]. exists q, M, []. rewrite app_nil_r. split_and!; [done|done|done| |].
  - rewrite length_app in HL. lia.
  - constructor; cbn [buf set_buf]; [by rewrite Est|done|done|done|done|constructor|cbn; lia].
Qed.

Lemma init256 mem : length mem = 64%nat -> absorbed IV256 [] (blake256_init mem).
Proof. intros H. by apply init_absorbed. Qed.
Lemma init224 mem : length mem = 64%nat -> absorbed IV224 [] (blake224_init mem).
Proof. intros H. by apply init_absorbed. Qed.

Lemma bits_small n : 8 * Z.of_nat n < 2 ^ 64 -> u64 (Z.of_nat n * 8) = 8 * Z.of_nat n.
Proof. intros H. rewrite Z.mul_comm. apply wrap_small. split; lia. Qed.

Lemma hash256_spec mem data : length mem = 64%nat -> is_bytes data -> 8 * Z.of_nat (length data) < 2 ^ 64 ->
  blake256_hash mem data = spec_blake256 data.
Proof.
  intros Hm Hd HL. unfold blake256_hash. rewrite bits_small by done. apply (final_absorbed IV256 1); [|done].
  apply (update_start IV256 []); [by apply init256|by exists 0|done|done].
Qed.

Lemma hash224_spec mem data : length mem = 64%nat -> is_bytes data -> 8 * Z.of_nat (length data) < 2 ^ 64 ->
  blake224_hash mem data = spec_hash IV224 0 data.
Proof.
  intros Hm Hd HL. unfold blake224_hash, blake224_update. rewrite bits_small by done. apply (final_absorbed IV224 0); [|done].
  apply (update_start IV224 []); [by apply init224|by exists 0|done|done].
Qed.

Lemma length_digest h : length h = 8%nat -> length (digest h) = 32%nat.
Proof.
  intros Hh. unfold digest. do 8 (destruct h as [|? h]; [discriminate|]). destruct h; [|discriminate].
  cbn [fmap list_fmap]. by rewrite !mjoin_cons, !length_app, !length_be_bytes.
Qed.

Lemma digest_bytes h : is_bytes (digest h).
Proof.
  unfold digest. induction h as [|x h IH]; [constructor|]. rewrite fmap_cons, mjoin_cons. apply Forall_app.
  split; [apply be_bytes_bytes|done].
Qed.

Lemma spec_hash_digest iv pb m : length iv = 8%nat -> is_bytes_n 32 (spec_hash iv pb m).
Proof.
  intros Hi. split; [apply digest_bytes|]. apply length_digest.
  match goal with |- length (foldl _ _ ?l) = _ => generalize l end. intros l. generalize dependent iv.
  induction l as [|i l IH]; intros iv Hi; [done|]. cbn [foldl]. by apply IH, length_spec_compress.
Qed.

(** ** HMAC *)

Lemma xor_fold key n P : (n <= length P)%nat -> (n <= length key)%nat ->
  foldl (fun pad i => <[i := (pad !!! i) .^ (key !!! i)]> pad) P (seq 0 n) = zip_with Z.lxor (take n P) (take n key) ++ drop n P.
Proof.
  intros HP HK. induction n as [|n IH]; [done|].
  rewrite seq_S, foldl_app, IH by lia. cbn [foldl Nat.add].
  rewrite (take_lookup_total P), (take_lookup_total key) by lia.
  rewrite zip_with_app by (rewrite !length_take; lia). cbn [zip_with].
  rewrite (drop_lookup_total P n) by lia.
  assert (L : length (zip_with Z.lxor (take n P) (take n key)) = n) by (rewrite length_zip_with, !length_take; lia).
  rewrite lookup_total_app_r by lia. rewrite L, Nat.sub_diag. cbn [lookup_total list_lookup_total].
  rewrite insert_app_r_alt by lia. rewrite L, Nat.sub_diag. cbn [insert list_insert]. by rewrite <- app_assoc.
Qed.

Lemma hmac_pad_spec byte key : (length key <= 64)%nat ->
  hmac_pad byte key = zip_with Z.lxor (replicate 64 byte) (key ++ replicate (64 - length key) 0).
Proof.
  intros HK. unfold hmac_pad. rewrite xor_fold by (rewrite ?length_replicate; lia). rewrite (take_ge key) by lia.
  replace (replicate 64 byte) with (replicate (length key) byte ++ replicate (64 - length key) byte) at 3
    by (rewrite <- replicate_add; f_equal; lia).
  rewrite zip_with_app by (by rewrite length_replicate). f_equal.
  - by rewrite take_replicate, Nat.min_l by lia.
  - rewrite drop_replicate. generalize (64 - length key)%nat. intros n. induction n as [|n IH]; [done|].
    cbn [replicate zip_with]. by rewrite Z.lxor_0_r, <- IH.
Qed.

Lemma hmac_pad_bytes byte key : is_u8 byte -> is_bytes key -> (length key <= 64)%nat -> is_bytes_n 64 (hmac_pad byte key).
Proof.
  intros Hy Hk HK. rewrite hmac_pad_spec by done. split.
  - apply zip_lxor_bytes; [by apply Forall_replicate|]. apply Forall_app. split; [done|]. by apply Forall_replicate.
  - rewrite length_zip_with, length_app, !length_replicate. lia.
Qed.

Lemma hmac_start iv st byte key : absorbed iv [] st -> is_u8 byte -> is_bytes key -> (length key <= 64)%nat ->
  absorbed iv (hmac_pad byte key) (blake256_update st (hmac_pad byte key) 512).
Proof.
  intros Hst Hy Hk HK. destruct (hmac_pad_bytes byte key Hy Hk HK) as [Hb HL].
  pose proof (update_start iv [] st (hmac_pad byte key) Hst) as R. cbn [app] in R. rewrite HL in R.
  apply R; [by exists 0|done|done].
Qed.

Lemma block_divides n : n = 64%nat -> (64 | Z.of_nat n).
Proof. intros ->. by exists 1. Qed.

(** The inner state after the data, finished. *)
Lemma hmac_inner iv pb key data st : absorbed iv (hmac_pad 0x36 key) st -> is_bytes key -> (length key <= 64)%nat ->
  is_bytes data -> is_u8 pb -> 8 * Z.of_nat (64 + length data) < 2 ^ 64 ->
  blake256_final_h (blake256_update st data (u64 (Z.of_nat (length data) * 8))) (0x80 .| pb) pb =
  spec_hash iv pb (hmac_pad 0x36 key ++ data).
Proof.
  intros Hst Hk HK Hd Hp HL. destruct (hmac_pad_bytes 0x36 key ltac:(done) Hk HK) as [Hb Hl].
  rewrite bits_small by lia. apply final_absorbed; [|done]. apply update_start; [done| |done|].
  - by apply block_divides.
  - rewrite length_app, Hl. done.
Qed.

(** The outer state after [k] bytes of the inner digest, finished. *)
Lemma hmac_outer iv pb key ihash k n st : n = 8 * Z.of_nat k -> absorbed iv (hmac_pad 0x5c key) st -> is_bytes key ->
  (length key <= 64)%nat -> is_bytes_n 32 ihash -> (0 < k <= 32)%nat -> is_u8 pb ->
  blake256_final_h (blake256_update st ihash n) (0x80 .| pb) pb = spec_hash iv pb (hmac_pad 0x5c key ++ take k ihash).
Proof.
  intros Hn Hst Hk HK [Hi HiL] Hkk Hp. destruct (hmac_pad_bytes 0x5c key ltac:(done) Hk HK) as [Hb Hl].
  destruct Hst as (q & M & tail & E & HM & HMb & HL' & Hst). pose proof (holds_short _ _ _ _ _ _ Hst) as Hs.
  assert (length (M ++ tail) = 64%nat) as HL by (by rewrite <- E). rewrite length_app in HL.
  assert (tail = []) as -> by (destruct tail; [done|]; cbn [length] in *; lia).
  rewrite app_nil_r in E. apply final_absorbed; [|done]. rewrite E.
  exists q, M, (take k ihash). split_and!; [done|done|done| |].
  - rewrite length_app, length_take. cbn [length] in HL. lia.
  - exact (holds_fit Hst ihash k n Hn Hi ltac:(lia) ltac:(cbn; lia)).
Qed.

Lemma length_spec256 key : length (spec_blake256 key) = 32%nat.
Proof. apply (spec_hash_digest IV256 1 key eq_refl). Qed.

Lemma hmac_key_spec mem key n : length mem = 64%nat -> is_bytes key -> 8 * Z.of_nat (length key) < 2 ^ 64 ->
  hmac_key mem key n = (if (64 <? length key)%nat then take n (spec_blake256 key) else key) /\
  is_bytes (hmac_key mem key n) /\ (length (hmac_key mem key n) <= 64)%nat.
Proof.
  intros Hm Hk HL. unfold hmac_key. destruct (Nat.ltb_spec 64 (length key)); [|done]. rewrite hash256_spec by done.
  split_and!; [done|apply Forall_take, (spec_hash_digest IV256 1 key eq_refl)|]. rewrite length_take, length_spec256. lia.
Qed.

Lemma hmac_value iv pb key data k n st : n = 8 * Z.of_nat k -> absorbed iv [] st -> is_bytes key -> (length key <= 64)%nat ->
  is_bytes data -> is_u8 pb -> (0 < k <= 32)%nat -> length iv = 8%nat -> 8 * Z.of_nat (64 + length data) < 2 ^ 64 ->
  let final st := blake256_final_h st (0x80 .| pb) pb in
  final (blake256_update (blake256_update st (hmac_pad 0x5c key) 512)
    (final (blake256_update (blake256_update st (hmac_pad 0x36 key) 512) data (u64 (Z.of_nat (length data) * 8)))) n) =
  spec_hash iv pb (hmac_pad 0x5c key ++ take k (spec_hash iv pb (hmac_pad 0x36 key ++ data))).
Proof.
  intros Hn Hst Hb HL Hd Hp Hk Hi HdL final. subst final. cbv beta.
  rewrite (hmac_inner iv pb key data); [|by apply hmac_start|done..].
  apply hmac_outer; try done; [by apply hmac_start|by apply spec_hash_digest].
Qed.

Lemma hmac256_spec mem key data : length mem = 64%nat -> is_bytes key -> is_bytes data ->
  8 * Z.of_nat (length key) < 2 ^ 64 -> 8 * Z.of_nat (64 + length data) < 2 ^ 64 ->
  hmac_blake256_hash mem key data = spec_hmac spec_blake256 spec_blake256 key data.
Proof.
  intros Hm Hk Hd HkL HdL. destruct (hmac_key_spec mem key 32 Hm Hk HkL) as (K & Hb & HL).
  rewrite take_ge in K by (rewrite length_spec256; lia).
  unfold spec_hmac. rewrite <- K. rewrite <- !hmac_pad_spec by done.
  rewrite <- (take_ge (spec_blake256 (hmac_pad 0x36 (hmac_key mem key 32) ++ data)) 32) by (rewrite length_spec256; lia).
  exact (hmac_value IV256 1 _ data 32 256 _ eq_refl (init256 mem Hm) Hb HL Hd ltac:(done) ltac:(lia) eq_refl HdL).
Qed.

Lemma hmac224_spec mem key data : length mem = 64%nat -> is_bytes key -> is_bytes data ->
  8 * Z.of_nat (length key) < 2 ^ 64 -> 8 * Z.of_nat (64 + length data) < 2 ^ 64 ->
  take 28 (hmac_blake224_hash mem key data) = spec_hmac spec_blake224 (fun key => take 28 (spec_blake256 key)) key data.
Proof.
  intros Hm Hk Hd HkL HdL. destruct (hmac_key_spec mem key 28 Hm Hk HkL) as (K & Hb & HL).
  unfold spec_hmac. rewrite <- K. rewrite <- !hmac_pad_spec by done. unfold spec_blake224.
  apply (f_equal (take 28)).
  exact (hmac_value IV224 0 _ data 28 224 _ eq_refl (init224 mem Hm) Hb HL Hd ltac:(done) ltac:(lia) eq_refl HdL).
Qed.

(** ** Theorems *)

(** [blake256_hash] and [blake224_hash] return the digests of the BLAKE
    specification, and so do the incremental functions for every division of the
    message into non-empty chunks; the old contents of the state do not matter. *)
Theorem blake_hash_correct mem data chunks : length mem = 64%nat -> is_bytes data -> 8 * Z.of_nat (length data) < 2 ^ 64 ->
  data = mjoin chunks -> Forall (fun c => c <> []) chunks ->
  blake256_hash mem data = spec_blake256 data /\ take 28 (blake224_hash mem data) = spec_blake224 data /\
  blake256_final (updates (blake256_init mem) chunks) = spec_blake256 data /\
  take 28 (blake224_final (updates (blake224_init mem) chunks)) = spec_blake224 data.
Proof.
  intros Hm Hd HL -> Hc.
  assert (Hcc : Forall (fun c => is_bytes c /\ c <> []) chunks).
  { clear HL. induction Hc as [|c l Hne Hc IH]; [constructor|]. rewrite mjoin_cons in Hd. apply Forall_app in Hd as [? ?].
    constructor; [done|by apply IH]. }
  split_and!.
  - by apply hash256_spec.
  - unfold spec_blake224. by rewrite hash224_spec.
  - apply (final_absorbed IV256 1); [|done]. exact (updates_absorbed IV256 chunks [] _ (init256 mem Hm) Hcc HL).
  - apply (f_equal (take 28)), (final_absorbed IV224 0); [|done]. exact (updates_absorbed IV224 chunks [] _ (init224 mem Hm) Hcc HL).
Qed.

Lemma blake_hash_correct_witness :
  blake256_hash (replicate 64 7) [0xcc; 1] = spec_blake256 [0xcc; 1] /\
  take 28 (blake224_hash (replicate 64 7) [0xcc; 1]) = spec_blake224 [0xcc; 1] /\
  blake256_final (updates (blake256_init (replicate 64 7)) [[0xcc]; [1]]) = spec_blake256 [0xcc; 1] /\
  take 28 (blake224_final (updates (blake224_init (replicate 64 7)) [[0xcc]; [1]])) = spec_blake224 [0xcc; 1].
Proof.
  apply (blake_hash_correct (replicate 64 7) [0xcc; 1] [[0xcc]; [1]]); [reflexivity|by repeat constructor|reflexivity|reflexivity|].
  by repeat constructor.
Defined.

(** A call of [blake256_update] with no data after a message [m] forgets
    the bytes in the buffer: the digest is that of [m] cut to whole blocks. *)
Theorem blake_empty_update mem chunks data : length mem = 64%nat -> Forall (fun c => is_bytes c /\ c <> []) chunks ->
  8 * Z.of_nat (length (mjoin chunks)) < 2 ^ 64 ->
  let m := mjoin chunks in
  blake256_final (blake256_update (updates (blake256_init mem) chunks) data 0) = spec_blake256 (take (64 * (length m / 64)) m).
Proof.
  intros Hm Hc HL m. apply (final_absorbed IV256 1); [|done]. apply update_empty.
  exact (updates_absorbed IV256 chunks [] _ (init256 mem Hm) Hc HL).
Qed.

Lemma blake_empty_update_witness :
  blake256_final (blake256_update (updates (blake256_init (replicate 64 7)) [[0xcc]]) [] 0) = spec_blake256 [].
Proof.
  apply (blake_empty_update (replicate 64 7) [[0xcc]] []); [reflexivity| |reflexivity].
  constructor; [|constructor]. split; [by repeat constructor|done].
Defined.

(** [hmac_blake256_hash] is HMAC-BLAKE-256 of RFC 2104 for every key and
    message.  [hmac_blake224_hash] is HMAC-BLAKE-224 for keys of at most 64
    bytes; a longer key is replaced by 28 bytes of its BLAKE-256 digest. *)
Theorem blake_hmac_correct mem key data : length mem = 64%nat -> is_bytes key -> is_bytes data ->
  8 * Z.of_nat (length key) < 2 ^ 64 -> 8 * Z.of_nat (64 + length data) < 2 ^ 64 ->
  hmac_blake256_hash mem key data = spec_hmac spec_blake256 spec_blake256 key data /\
  take 28 (hmac_blake224_hash mem key data) =
    (if (length key <=? 64)%nat then spec_hmac spec_blake224 spec_blake224 key data
     else spec_hmac spec_blake224 spec_blake224 (take 28 (spec_blake256 key)) data).
Proof.
  intros Hm Hk Hd HkL HdL. split; [by apply hmac256_spec|]. rewrite hmac224_spec by done. unfold spec_hmac.
  destruct (Nat.leb_spec (length key) 64) as [H|H].
  - by rewrite (proj2 (Nat.ltb_ge _ _)) by lia.
  - rewrite (proj2 (Nat.ltb_lt _ _)) by lia. rewrite (proj2 (Nat.ltb_ge 64 (length _))); [done|]. rewrite length_take. lia.
Qed.

Lemma blake_hmac_correct_witness :
  hmac_blake256_hash (replicate 64 7) [1] [2] = spec_hmac spec_blake256 spec_blake256 [1] [2] /\
  take 28 (hmac_blake224_hash (replicate 64 7) [1] [2]) = spec_hmac spec_blake224 spec_blake224 [1] [2].
Proof.
  apply (blake_hmac_correct (replicate 64 7) [1] [2]);
    [reflexivity|by repeat constructor|by repeat constructor|reflexivity|reflexivity].
Defined.
