(* ===== verification/Oaes.v ===== *)
(** * OpenAES: src/src/crypto/oaes_lib.c

    The build defines neither OAES_HAVE_ISAAC nor OAES_DEBUG.  A pointer
    argument that the API may receive as NULL is an [option]; the static
    functions on blocks are never called with NULL and take the bytes.  A
    context is passed and returned by value.  [calloc] may fail: the outcomes of
    the calls are arguments ([true]: memory was obtained).  The values that
    [rand()] returns are arguments.  Sizes are [size_t], 64 bits. *)

From S2P Require Import Prelude.

(** ** Types and tables *)

Inductive OAES_RET :=
  | OAES_RET_SUCCESS | OAES_RET_UNKNOWN | OAES_RET_ARG1 | OAES_RET_ARG2 | OAES_RET_ARG3 | OAES_RET_ARG4
  | OAES_RET_ARG5 | OAES_RET_NOKEY | OAES_RET_MEM | OAES_RET_BUF | OAES_RET_HEADER.

#[global] Instance OAES_RET_eq_dec : EqDecision OAES_RET.
Proof. solve_decision. Defined.

(** [_rc = _rc || f]: the logical or is 0 or 1. *)
Definition rc_or (a b : OAES_RET) : OAES_RET :=
  match a, b with OAES_RET_SUCCESS, OAES_RET_SUCCESS => OAES_RET_SUCCESS | _, _ => OAES_RET_UNKNOWN end.

Definition OAES_BLOCK_SIZE : nat := 16.
Definition OAES_RKEY_LEN : nat := 4.
Definition OAES_COL_LEN : nat := 4.
Definition OAES_ROUND_BASE : nat := 7.
Definition OAES_FLAG_PAD : Z := 1.
Definition OAES_OPTION_NONE : Z := 0.
Definition OAES_OPTION_ECB : Z := 1.
Definition OAES_OPTION_CBC : Z := 2.

Record oaes_key := mkkey {
  data_len : nat;
  data : bytes;
  exp_data_len : nat;
  exp_data : bytes;
  num_keys : nat;
  key_base : nat;
}.

Record oaes_ctx := mkctx {
  key : option oaes_key;
  options : Z;            (* uint16_t *)
  iv : bytes;             (* uint8_t iv[16] *)
}.

Definition oaes_header : bytes :=
  [0x4f; 0x41; 0x45; 0x53; 0x01; 0x02; 0x00; 0x00; 0x00; 0x00; 0x00; 0x00; 0x00; 0x00; 0x00; 0x00].

Definition oaes_gf_8 : bytes := [0x01; 0x02; 0x04; 0x08; 0x10; 0x20; 0x40; 0x80; 0x1b; 0x36].

Definition oaes_sub_byte_value : list (list Z) :=
  [[0x63; 0x7c; 0x77; 0x7b; 0xf2; 0x6b; 0x6f; 0xc5; 0x30; 0x01; 0x67; 0x2b; 0xfe; 0xd7; 0xab; 0x76];
   [0xca; 0x82; 0xc9; 0x7d; 0xfa; 0x59; 0x47; 0xf0; 0xad; 0xd4; 0xa2; 0xaf; 0x9c; 0xa4; 0x72; 0xc0];
   [0xb7; 0xfd; 0x93; 0x26; 0x36; 0x3f; 0xf7; 0xcc; 0x34; 0xa5; 0xe5; 0xf1; 0x71; 0xd8; 0x31; 0x15];
   [0x04; 0xc7; 0x23; 0xc3; 0x18; 0x96; 0x05; 0x9a; 0x07; 0x12; 0x80; 0xe2; 0xeb; 0x27; 0xb2; 0x75];
   [0x09; 0x83; 0x2c; 0x1a; 0x1b; 0x6e; 0x5a; 0xa0; 0x52; 0x3b; 0xd6; 0xb3; 0x29; 0xe3; 0x2f; 0x84];
   [0x53; 0xd1; 0x00; 0xed; 0x20; 0xfc; 0xb1; 0x5b; 0x6a; 0xcb; 0xbe; 0x39; 0x4a; 0x4c; 0x58; 0xcf];
   [0xd0; 0xef; 0xaa; 0xfb; 0x43; 0x4d; 0x33; 0x85; 0x45; 0xf9; 0x02; 0x7f; 0x50; 0x3c; 0x9f; 0xa8];
   [0x51; 0xa3; 0x40; 0x8f; 0x92; 0x9d; 0x38; 0xf5; 0xbc; 0xb6; 0xda; 0x21; 0x10; 0xff; 0xf3; 0xd2];
   [0xcd; 0x0c; 0x13; 0xec; 0x5f; 0x97; 0x44; 0x17; 0xc4; 0xa7; 0x7e; 0x3d; 0x64; 0x5d; 0x19; 0x73];
   [0x60; 0x81; 0x4f; 0xdc; 0x22; 0x2a; 0x90; 0x88; 0x46; 0xee; 0xb8; 0x14; 0xde; 0x5e; 0x0b; 0xdb];
   [0xe0; 0x32; 0x3a; 0x0a; 0x49; 0x06; 0x24; 0x5c; 0xc2; 0xd3; 0xac; 0x62; 0x91; 0x95; 0xe4; 0x79];
   [0xe7; 0xc8; 0x37; 0x6d; 0x8d; 0xd5; 0x4e; 0xa9; 0x6c; 0x56; 0xf4; 0xea; 0x65; 0x7a; 0xae; 0x08];
   [0xba; 0x78; 0x25; 0x2e; 0x1c; 0xa6; 0xb4; 0xc6; 0xe8; 0xdd; 0x74; 0x1f; 0x4b; 0xbd; 0x8b; 0x8a];
   [0x70; 0x3e; 0xb5; 0x66; 0x48; 0x03; 0xf6; 0x0e; 0x61; 0x35; 0x57; 0xb9; 0x86; 0xc1; 0x1d; 0x9e];
   [0xe1; 0xf8; 0x98; 0x11; 0x69; 0xd9; 0x8e; 0x94; 0x9b; 0x1e; 0x87; 0xe9; 0xce; 0x55; 0x28; 0xdf];
   [0x8c; 0xa1; 0x89; 0x0d; 0xbf; 0xe6; 0x42; 0x68; 0x41; 0x99; 0x2d; 0x0f; 0xb0; 0x54; 0xbb; 0x16]].

Definition oaes_inv_sub_byte_value : list (list Z) :=
  [[0x52; 0x09; 0x6a; 0xd5; 0x30; 0x36; 0xa5; 0x38; 0xbf; 0x40; 0xa3; 0x9e; 0x81; 0xf3; 0xd7; 0xfb];
   [0x7c; 0xe3; 0x39; 0x82; 0x9b; 0x2f; 0xff; 0x87; 0x34; 0x8e; 0x43; 0x44; 0xc4; 0xde; 0xe9; 0xcb];
   [0x54; 0x7b; 0x94; 0x32; 0xa6; 0xc2; 0x23; 0x3d; 0xee; 0x4c; 0x95; 0x0b; 0x42; 0xfa; 0xc3; 0x4e];
   [0x08; 0x2e; 0xa1; 0x66; 0x28; 0xd9; 0x24; 0xb2; 0x76; 0x5b; 0xa2; 0x49; 0x6d; 0x8b; 0xd1; 0x25];
   [0x72; 0xf8; 0xf6; 0x64; 0x86; 0x68; 0x98; 0x16; 0xd4; 0xa4; 0x5c; 0xcc; 0x5d; 0x65; 0xb6; 0x92];
   [0x6c; 0x70; 0x48; 0x50; 0xfd; 0xed; 0xb9; 0xda; 0x5e; 0x15; 0x46; 0x57; 0xa7; 0x8d; 0x9d; 0x84];
   [0x90; 0xd8; 0xab; 0x00; 0x8c; 0xbc; 0xd3; 0x0a; 0xf7; 0xe4; 0x58; 0x05; 0xb8; 0xb3; 0x45; 0x06];
   [0xd0; 0x2c; 0x1e; 0x8f; 0xca; 0x3f; 0x0f; 0x02; 0xc1; 0xaf; 0xbd; 0x03; 0x01; 0x13; 0x8a; 0x6b];
   [0x3a; 0x91; 0x11; 0x41; 0x4f; 0x67; 0xdc; 0xea; 0x97; 0xf2; 0xcf; 0xce; 0xf0; 0xb4; 0xe6; 0x73];
   [0x96; 0xac; 0x74; 0x22; 0xe7; 0xad; 0x35; 0x85; 0xe2; 0xf9; 0x37; 0xe8; 0x1c; 0x75; 0xdf; 0x6e];
   [0x47; 0xf1; 0x1a; 0x71; 0x1d; 0x29; 0xc5; 0x89; 0x6f; 0xb7; 0x62; 0x0e; 0xaa; 0x18; 0xbe; 0x1b];
   [0xfc; 0x56; 0x3e; 0x4b; 0xc6; 0xd2; 0x79; 0x20; 0x9a; 0xdb; 0xc0; 0xfe; 0x78; 0xcd; 0x5a; 0xf4];
   [0x1f; 0xdd; 0xa8; 0x33; 0x88; 0x07; 0xc7; 0x31; 0xb1; 0x12; 0x10; 0x59; 0x27; 0x80; 0xec; 0x5f];
   [0x60; 0x51; 0x7f; 0xa9; 0x19; 0xb5; 0x4a; 0x0d; 0x2d; 0xe5; 0x7a; 0x9f; 0x93; 0xc9; 0x9c; 0xef];
   [0xa0; 0xe0; 0x3b; 0x4d; 0xae; 0x2a; 0xf5; 0xb0; 0xc8; 0xeb; 0xbb; 0x3c; 0x83; 0x53; 0x99; 0x61];
   [0x17; 0x2b; 0x04; 0x7e; 0xba; 0x77; 0xd6; 0x26; 0xe1; 0x69; 0x14; 0x63; 0x55; 0x21; 0x0c; 0x7d]].

Definition oaes_gf_mul_2 : list (list Z) :=
  [[0x00; 0x02; 0x04; 0x06; 0x08; 0x0a; 0x0c; 0x0e; 0x10; 0x12; 0x14; 0x16; 0x18; 0x1a; 0x1c; 0x1e];
   [0x20; 0x22; 0x24; 0x26; 0x28; 0x2a; 0x2c; 0x2e; 0x30; 0x32; 0x34; 0x36; 0x38; 0x3a; 0x3c; 0x3e];
   [0x40; 0x42; 0x44; 0x46; 0x48; 0x4a; 0x4c; 0x4e; 0x50; 0x52; 0x54; 0x56; 0x58; 0x5a; 0x5c; 0x5e];
   [0x60; 0x62; 0x64; 0x66; 0x68; 0x6a; 0x6c; 0x6e; 0x70; 0x72; 0x74; 0x76; 0x78; 0x7a; 0x7c; 0x7e];
   [0x80; 0x82; 0x84; 0x86; 0x88; 0x8a; 0x8c; 0x8e; 0x90; 0x92; 0x94; 0x96; 0x98; 0x9a; 0x9c; 0x9e];
   [0xa0; 0xa2; 0xa4; 0xa6; 0xa8; 0xaa; 0xac; 0xae; 0xb0; 0xb2; 0xb4; 0xb6; 0xb8; 0xba; 0xbc; 0xbe];
   [0xc0; 0xc2; 0xc4; 0xc6; 0xc8; 0xca; 0xcc; 0xce; 0xd0; 0xd2; 0xd4; 0xd6; 0xd8; 0xda; 0xdc; 0xde];
   [0xe0; 0xe2; 0xe4; 0xe6; 0xe8; 0xea; 0xec; 0xee; 0xf0; 0xf2; 0xf4; 0xf6; 0xf8; 0xfa; 0xfc; 0xfe];
   [0x1b; 0x19; 0x1f; 0x1d; 0x13; 0x11; 0x17; 0x15; 0x0b; 0x09; 0x0f; 0x0d; 0x03; 0x01; 0x07; 0x05];
   [0x3b; 0x39; 0x3f; 0x3d; 0x33; 0x31; 0x37; 0x35; 0x2b; 0x29; 0x2f; 0x2d; 0x23; 0x21; 0x27; 0x25];
   [0x5b; 0x59; 0x5f; 0x5d; 0x53; 0x51; 0x57; 0x55; 0x4b; 0x49; 0x4f; 0x4d; 0x43; 0x41; 0x47; 0x45];
   [0x7b; 0x79; 0x7f; 0x7d; 0x73; 0x71; 0x77; 0x75; 0x6b; 0x69; 0x6f; 0x6d; 0x63; 0x61; 0x67; 0x65];
   [0x9b; 0x99; 0x9f; 0x9d; 0x93; 0x91; 0x97; 0x95; 0x8b; 0x89; 0x8f; 0x8d; 0x83; 0x81; 0x87; 0x85];
   [0xbb; 0xb9; 0xbf; 0xbd; 0xb3; 0xb1; 0xb7; 0xb5; 0xab; 0xa9; 0xaf; 0xad; 0xa3; 0xa1; 0xa7; 0xa5];
   [0xdb; 0xd9; 0xdf; 0xdd; 0xd3; 0xd1; 0xd7; 0xd5; 0xcb; 0xc9; 0xcf; 0xcd; 0xc3; 0xc1; 0xc7; 0xc5];
   [0xfb; 0xf9; 0xff; 0xfd; 0xf3; 0xf1; 0xf7; 0xf5; 0xeb; 0xe9; 0xef; 0xed; 0xe3; 0xe1; 0xe7; 0xe5]].

Definition oaes_gf_mul_3 : list (list Z) :=
  [[0x00; 0x03; 0x06; 0x05; 0x0c; 0x0f; 0x0a; 0x09; 0x18; 0x1b; 0x1e; 0x1d; 0x14; 0x17; 0x12; 0x11];
   [0x30; 0x33; 0x36; 0x35; 0x3c; 0x3f; 0x3a; 0x39; 0x28; 0x2b; 0x2e; 0x2d; 0x24; 0x27; 0x22; 0x21];
   [0x60; 0x63; 0x66; 0x65; 0x6c; 0x6f; 0x6a; 0x69; 0x78; 0x7b; 0x7e; 0x7d; 0x74; 0x77; 0x72; 0x71];
   [0x50; 0x53; 0x56; 0x55; 0x5c; 0x5f; 0x5a; 0x59; 0x48; 0x4b; 0x4e; 0x4d; 0x44; 0x47; 0x42; 0x41];
   [0xc0; 0xc3; 0xc6; 0xc5; 0xcc; 0xcf; 0xca; 0xc9; 0xd8; 0xdb; 0xde; 0xdd; 0xd4; 0xd7; 0xd2; 0xd1];
   [0xf0; 0xf3; 0xf6; 0xf5; 0xfc; 0xff; 0xfa; 0xf9; 0xe8; 0xeb; 0xee; 0xed; 0xe4; 0xe7; 0xe2; 0xe1];
   [0xa0; 0xa3; 0xa6; 0xa5; 0xac; 0xaf; 0xaa; 0xa9; 0xb8; 0xbb; 0xbe; 0xbd; 0xb4; 0xb7; 0xb2; 0xb1];
   [0x90; 0x93; 0x96; 0x95; 0x9c; 0x9f; 0x9a; 0x99; 0x88; 0x8b; 0x8e; 0x8d; 0x84; 0x87; 0x82; 0x81];
   [0x9b; 0x98; 0x9d; 0x9e; 0x97; 0x94; 0x91; 0x92; 0x83; 0x80; 0x85; 0x86; 0x8f; 0x8c; 0x89; 0x8a];
   [0xab; 0xa8; 0xad; 0xae; 0xa7; 0xa4; 0xa1; 0xa2; 0xb3; 0xb0; 0xb5; 0xb6; 0xbf; 0xbc; 0xb9; 0xba];
   [0xfb; 0xf8; 0xfd; 0xfe; 0xf7; 0xf4; 0xf1; 0xf2; 0xe3; 0xe0; 0xe5; 0xe6; 0xef; 0xec; 0xe9; 0xea];
   [0xcb; 0xc8; 0xcd; 0xce; 0xc7; 0xc4; 0xc1; 0xc2; 0xd3; 0xd0; 0xd5; 0xd6; 0xdf; 0xdc; 0xd9; 0xda];
   [0x5b; 0x58; 0x5d; 0x5e; 0x57; 0x54; 0x51; 0x52; 0x43; 0x40; 0x45; 0x46; 0x4f; 0x4c; 0x49; 0x4a];
   [0x6b; 0x68; 0x6d; 0x6e; 0x67; 0x64; 0x61; 0x62; 0x73; 0x70; 0x75; 0x76; 0x7f; 0x7c; 0x79; 0x7a];
   [0x3b; 0x38; 0x3d; 0x3e; 0x37; 0x34; 0x31; 0x32; 0x23; 0x20; 0x25; 0x26; 0x2f; 0x2c; 0x29; 0x2a];
   [0x0b; 0x08; 0x0d; 0x0e; 0x07; 0x04; 0x01; 0x02; 0x13; 0x10; 0x15; 0x16; 0x1f; 0x1c; 0x19; 0x1a]].

Definition oaes_gf_mul_9 : list (list Z) :=
  [[0x00; 0x09; 0x12; 0x1b; 0x24; 0x2d; 0x36; 0x3f; 0x48; 0x41; 0x5a; 0x53; 0x6c; 0x65; 0x7e; 0x77];
   [0x90; 0x99; 0x82; 0x8b; 0xb4; 0xbd; 0xa6; 0xaf; 0xd8; 0xd1; 0xca; 0xc3; 0xfc; 0xf5; 0xee; 0xe7];
   [0x3b; 0x32; 0x29; 0x20; 0x1f; 0x16; 0x0d; 0x04; 0x73; 0x7a; 0x61; 0x68; 0x57; 0x5e; 0x45; 0x4c];
   [0xab; 0xa2; 0xb9; 0xb0; 0x8f; 0x86; 0x9d; 0x94; 0xe3; 0xea; 0xf1; 0xf8; 0xc7; 0xce; 0xd5; 0xdc];
   [0x76; 0x7f; 0x64; 0x6d; 0x52; 0x5b; 0x40; 0x49; 0x3e; 0x37; 0x2c; 0x25; 0x1a; 0x13; 0x08; 0x01];
   [0xe6; 0xef; 0xf4; 0xfd; 0xc2; 0xcb; 0xd0; 0xd9; 0xae; 0xa7; 0xbc; 0xb5; 0x8a; 0x83; 0x98; 0x91];
   [0x4d; 0x44; 0x5f; 0x56; 0x69; 0x60; 0x7b; 0x72; 0x05; 0x0c; 0x17; 0x1e; 0x21; 0x28; 0x33; 0x3a];
   [0xdd; 0xd4; 0xcf; 0xc6; 0xf9; 0xf0; 0xeb; 0xe2; 0x95; 0x9c; 0x87; 0x8e; 0xb1; 0xb8; 0xa3; 0xaa];
   [0xec; 0xe5; 0xfe; 0xf7; 0xc8; 0xc1; 0xda; 0xd3; 0xa4; 0xad; 0xb6; 0xbf; 0x80; 0x89; 0x92; 0x9b];
   [0x7c; 0x75; 0x6e; 0x67; 0x58; 0x51; 0x4a; 0x43; 0x34; 0x3d; 0x26; 0x2f; 0x10; 0x19; 0x02; 0x0b];
   [0xd7; 0xde; 0xc5; 0xcc; 0xf3; 0xfa; 0xe1; 0xe8; 0x9f; 0x96; 0x8d; 0x84; 0xbb; 0xb2; 0xa9; 0xa0];
   [0x47; 0x4e; 0x55; 0x5c; 0x63; 0x6a; 0x71; 0x78; 0x0f; 0x06; 0x1d; 0x14; 0x2b; 0x22; 0x39; 0x30];
   [0x9a; 0x93; 0x88; 0x81; 0xbe; 0xb7; 0xac; 0xa5; 0xd2; 0xdb; 0xc0; 0xc9; 0xf6; 0xff; 0xe4; 0xed];
   [0x0a; 0x03; 0x18; 0x11; 0x2e; 0x27; 0x3c; 0x35; 0x42; 0x4b; 0x50; 0x59; 0x66; 0x6f; 0x74; 0x7d];
   [0xa1; 0xa8; 0xb3; 0xba; 0x85; 0x8c; 0x97; 0x9e; 0xe9; 0xe0; 0xfb; 0xf2; 0xcd; 0xc4; 0xdf; 0xd6];
   [0x31; 0x38; 0x23; 0x2a; 0x15; 0x1c; 0x07; 0x0e; 0x79; 0x70; 0x6b; 0x62; 0x5d; 0x54; 0x4f; 0x46]].

Definition oaes_gf_mul_b : list (list Z) :=
  [[0x00; 0x0b; 0x16; 0x1d; 0x2c; 0x27; 0x3a; 0x31; 0x58; 0x53; 0x4e; 0x45; 0x74; 0x7f; 0x62; 0x69];
   [0xb0; 0xbb; 0xa6; 0xad; 0x9c; 0x97; 0x8a; 0x81; 0xe8; 0xe3; 0xfe; 0xf5; 0xc4; 0xcf; 0xd2; 0xd9];
   [0x7b; 0x70; 0x6d; 0x66; 0x57; 0x5c; 0x41; 0x4a; 0x23; 0x28; 0x35; 0x3e; 0x0f; 0x04; 0x19; 0x12];
   [0xcb; 0xc0; 0xdd; 0xd6; 0xe7; 0xec; 0xf1; 0xfa; 0x93; 0x98; 0x85; 0x8e; 0xbf; 0xb4; 0xa9; 0xa2];
   [0xf6; 0xfd; 0xe0; 0xeb; 0xda; 0xd1; 0xcc; 0xc7; 0xae; 0xa5; 0xb8; 0xb3; 0x82; 0x89; 0x94; 0x9f];
   [0x46; 0x4d; 0x50; 0x5b; 0x6a; 0x61; 0x7c; 0x77; 0x1e; 0x15; 0x08; 0x03; 0x32; 0x39; 0x24; 0x2f];
   [0x8d; 0x86; 0x9b; 0x90; 0xa1; 0xaa; 0xb7; 0xbc; 0xd5; 0xde; 0xc3; 0xc8; 0xf9; 0xf2; 0xef; 0xe4];
   [0x3d; 0x36; 0x2b; 0x20; 0x11; 0x1a; 0x07; 0x0c; 0x65; 0x6e; 0x73; 0x78; 0x49; 0x42; 0x5f; 0x54];
   [0xf7; 0xfc; 0xe1; 0xea; 0xdb; 0xd0; 0xcd; 0xc6; 0xaf; 0xa4; 0xb9; 0xb2; 0x83; 0x88; 0x95; 0x9e];
   [0x47; 0x4c; 0x51; 0x5a; 0x6b; 0x60; 0x7d; 0x76; 0x1f; 0x14; 0x09; 0x02; 0x33; 0x38; 0x25; 0x2e];
   [0x8c; 0x87; 0x9a; 0x91; 0xa0; 0xab; 0xb6; 0xbd; 0xd4; 0xdf; 0xc2; 0xc9; 0xf8; 0xf3; 0xee; 0xe5];
   [0x3c; 0x37; 0x2a; 0x21; 0x10; 0x1b; 0x06; 0x0d; 0x64; 0x6f; 0x72; 0x79; 0x48; 0x43; 0x5e; 0x55];
   [0x01; 0x0a; 0x17; 0x1c; 0x2d; 0x26; 0x3b; 0x30; 0x59; 0x52; 0x4f; 0x44; 0x75; 0x7e; 0x63; 0x68];
   [0xb1; 0xba; 0xa7; 0xac; 0x9d; 0x96; 0x8b; 0x80; 0xe9; 0xe2; 0xff; 0xf4; 0xc5; 0xce; 0xd3; 0xd8];
   [0x7a; 0x71; 0x6c; 0x67; 0x56; 0x5d; 0x40; 0x4b; 0x22; 0x29; 0x34; 0x3f; 0x0e; 0x05; 0x18; 0x13];
   [0xca; 0xc1; 0xdc; 0xd7; 0xe6; 0xed; 0xf0; 0xfb; 0x92; 0x99; 0x84; 0x8f; 0xbe; 0xb5; 0xa8; 0xa3]].

Definition oaes_gf_mul_d : list (list Z) :=
  [[0x00; 0x0d; 0x1a; 0x17; 0x34; 0x39; 0x2e; 0x23; 0x68; 0x65; 0x72; 0x7f; 0x5c; 0x51; 0x46; 0x4b];
   [0xd0; 0xdd; 0xca; 0xc7; 0xe4; 0xe9; 0xfe; 0xf3; 0xb8; 0xb5; 0xa2; 0xaf; 0x8c; 0x81; 0x96; 0x9b];
   [0xbb; 0xb6; 0xa1; 0xac; 0x8f; 0x82; 0x95; 0x98; 0xd3; 0xde; 0xc9; 0xc4; 0xe7; 0xea; 0xfd; 0xf0];
   [0x6b; 0x66; 0x71; 0x7c; 0x5f; 0x52; 0x45; 0x48; 0x03; 0x0e; 0x19; 0x14; 0x37; 0x3a; 0x2d; 0x20];
   [0x6d; 0x60; 0x77; 0x7a; 0x59; 0x54; 0x43; 0x4e; 0x05; 0x08; 0x1f; 0x12; 0x31; 0x3c; 0x2b; 0x26];
   [0xbd; 0xb0; 0xa7; 0xaa; 0x89; 0x84; 0x93; 0x9e; 0xd5; 0xd8; 0xcf; 0xc2; 0xe1; 0xec; 0xfb; 0xf6];
   [0xd6; 0xdb; 0xcc; 0xc1; 0xe2; 0xef; 0xf8; 0xf5; 0xbe; 0xb3; 0xa4; 0xa9; 0x8a; 0x87; 0x90; 0x9d];
   [0x06; 0x0b; 0x1c; 0x11; 0x32; 0x3f; 0x28; 0x25; 0x6e; 0x63; 0x74; 0x79; 0x5a; 0x57; 0x40; 0x4d];
   [0xda; 0xd7; 0xc0; 0xcd; 0xee; 0xe3; 0xf4; 0xf9; 0xb2; 0xbf; 0xa8; 0xa5; 0x86; 0x8b; 0x9c; 0x91];
   [0x0a; 0x07; 0x10; 0x1d; 0x3e; 0x33; 0x24; 0x29; 0x62; 0x6f; 0x78; 0x75; 0x56; 0x5b; 0x4c; 0x41];
   [0x61; 0x6c; 0x7b; 0x76; 0x55; 0x58; 0x4f; 0x42; 0x09; 0x04; 0x13; 0x1e; 0x3d; 0x30; 0x27; 0x2a];
   [0xb1; 0xbc; 0xab; 0xa6; 0x85; 0x88; 0x9f; 0x92; 0xd9; 0xd4; 0xc3; 0xce; 0xed; 0xe0; 0xf7; 0xfa];
   [0xb7; 0xba; 0xad; 0xa0; 0x83; 0x8e; 0x99; 0x94; 0xdf; 0xd2; 0xc5; 0xc8; 0xeb; 0xe6; 0xf1; 0xfc];
   [0x67; 0x6a; 0x7d; 0x70; 0x53; 0x5e; 0x49; 0x44; 0x0f; 0x02; 0x15; 0x18; 0x3b; 0x36; 0x21; 0x2c];
   [0x0c; 0x01; 0x16; 0x1b; 0x38; 0x35; 0x22; 0x2f; 0x64; 0x69; 0x7e; 0x73; 0x50; 0x5d; 0x4a; 0x47];
   [0xdc; 0xd1; 0xc6; 0xcb; 0xe8; 0xe5; 0xf2; 0xff; 0xb4; 0xb9; 0xae; 0xa3; 0x80; 0x8d; 0x9a; 0x97]].

Definition oaes_gf_mul_e : list (list Z) :=
  [[0x00; 0x0e; 0x1c; 0x12; 0x38; 0x36; 0x24; 0x2a; 0x70; 0x7e; 0x6c; 0x62; 0x48; 0x46; 0x54; 0x5a];
   [0xe0; 0xee; 0xfc; 0xf2; 0xd8; 0xd6; 0xc4; 0xca; 0x90; 0x9e; 0x8c; 0x82; 0xa8; 0xa6; 0xb4; 0xba];
   [0xdb; 0xd5; 0xc7; 0xc9; 0xe3; 0xed; 0xff; 0xf1; 0xab; 0xa5; 0xb7; 0xb9; 0x93; 0x9d; 0x8f; 0x81];
   [0x3b; 0x35; 0x27; 0x29; 0x03; 0x0d; 0x1f; 0x11; 0x4b; 0x45; 0x57; 0x59; 0x73; 0x7d; 0x6f; 0x61];
   [0xad; 0xa3; 0xb1; 0xbf; 0x95; 0x9b; 0x89; 0x87; 0xdd; 0xd3; 0xc1; 0xcf; 0xe5; 0xeb; 0xf9; 0xf7];
   [0x4d; 0x43; 0x51; 0x5f; 0x75; 0x7b; 0x69; 0x67; 0x3d; 0x33; 0x21; 0x2f; 0x05; 0x0b; 0x19; 0x17];
   [0x76; 0x78; 0x6a; 0x64; 0x4e; 0x40; 0x52; 0x5c; 0x06; 0x08; 0x1a; 0x14; 0x3e; 0x30; 0x22; 0x2c];
   [0x96; 0x98; 0x8a; 0x84; 0xae; 0xa0; 0xb2; 0xbc; 0xe6; 0xe8; 0xfa; 0xf4; 0xde; 0xd0; 0xc2; 0xcc];
   [0x41; 0x4f; 0x5d; 0x53; 0x79; 0x77; 0x65; 0x6b; 0x31; 0x3f; 0x2d; 0x23; 0x09; 0x07; 0x15; 0x1b];
   [0xa1; 0xaf; 0xbd; 0xb3; 0x99; 0x97; 0x85; 0x8b; 0xd1; 0xdf; 0xcd; 0xc3; 0xe9; 0xe7; 0xf5; 0xfb];
   [0x9a; 0x94; 0x86; 0x88; 0xa2; 0xac; 0xbe; 0xb0; 0xea; 0xe4; 0xf6; 0xf8; 0xd2; 0xdc; 0xce; 0xc0];
   [0x7a; 0x74; 0x66; 0x68; 0x42; 0x4c; 0x5e; 0x50; 0x0a; 0x04; 0x16; 0x18; 0x32; 0x3c; 0x2e; 0x20];
   [0xec; 0xe2; 0xf0; 0xfe; 0xd4; 0xda; 0xc8; 0xc6; 0x9c; 0x92; 0x80; 0x8e; 0xa4; 0xaa; 0xb8; 0xb6];
   [0x0c; 0x02; 0x10; 0x1e; 0x34; 0x3a; 0x28; 0x26; 0x7c; 0x72; 0x60; 0x6e; 0x44; 0x4a; 0x58; 0x56];
   [0x37; 0x39; 0x2b; 0x25; 0x0f; 0x01; 0x13; 0x1d; 0x47; 0x49; 0x5b; 0x55; 0x7f; 0x71; 0x63; 0x6d];
   [0xd7; 0xd9; 0xcb; 0xc5; 0xef; 0xe1; 0xf3; 0xfd; 0xa7; 0xa9; 0xbb; 0xb5; 0x9f; 0x91; 0x83; 0x8d]].

(** ** Bytes, words and blocks *)

(** [table[_y][_x]] for the two hexadecimal digits of a byte. *)
Definition look (table : list (list Z)) (b : Z) : Z :=
  let x := b .& 0x0f in
  let y := (b .& 0xf0) .>> 4 in
  (table !!! Z.to_nat y) !!! Z.to_nat x.

Definition oaes_sub_byte (b : Z) : Z := look oaes_sub_byte_value b.
Definition oaes_inv_sub_byte (b : Z) : Z := look oaes_inv_sub_byte_value b.

Definition oaes_word_rot_left (word : bytes) : bytes :=
  take (OAES_COL_LEN - 1) (drop 1 word) ++ [word !!! 0%nat].

Definition oaes_shift_rows (block : bytes) : bytes :=
  (fun i => block !!! i) <$>
    [0x00; 0x05; 0x0a; 0x0f; 0x04; 0x09; 0x0e; 0x03; 0x08; 0x0d; 0x02; 0x07; 0x0c; 0x01; 0x06; 0x0b]%nat.

Definition oaes_inv_shift_rows (block : bytes) : bytes :=
  (fun i => block !!! i) <$>
    [0x00; 0x0d; 0x0a; 0x07; 0x04; 0x01; 0x0e; 0x0b; 0x08; 0x05; 0x02; 0x0f; 0x0c; 0x09; 0x06; 0x03]%nat.

Definition oaes_gf_mul (left_ right_ : Z) : Z :=
  if right_ =? 0x02 then look oaes_gf_mul_2 left_
  else if right_ =? 0x03 then look oaes_gf_mul_3 left_
  else if right_ =? 0x09 then look oaes_gf_mul_9 left_
  else if right_ =? 0x0b then look oaes_gf_mul_b left_
  else if right_ =? 0x0d then look oaes_gf_mul_d left_
  else if right_ =? 0x0e then look oaes_gf_mul_e left_
  else left_.

Definition oaes_mix_cols (word : bytes) : bytes :=
  let w i := word !!! (i : nat) in
  [oaes_gf_mul (w 0%nat) 0x02 .^ oaes_gf_mul (w 1%nat) 0x03 .^ w 2%nat .^ w 3%nat;
   w 0%nat .^ oaes_gf_mul (w 1%nat) 0x02 .^ oaes_gf_mul (w 2%nat) 0x03 .^ w 3%nat;
   w 0%nat .^ w 1%nat .^ oaes_gf_mul (w 2%nat) 0x02 .^ oaes_gf_mul (w 3%nat) 0x03;
   oaes_gf_mul (w 0%nat) 0x03 .^ w 1%nat .^ w 2%nat .^ oaes_gf_mul (w 3%nat) 0x02].

Definition oaes_inv_mix_cols (word : bytes) : bytes :=
  let w i := word !!! (i : nat) in
  [oaes_gf_mul (w 0%nat) 0x0e .^ oaes_gf_mul (w 1%nat) 0x0b .^ oaes_gf_mul (w 2%nat) 0x0d .^ oaes_gf_mul (w 3%nat) 0x09;
   oaes_gf_mul (w 0%nat) 0x09 .^ oaes_gf_mul (w 1%nat) 0x0e .^ oaes_gf_mul (w 2%nat) 0x0b .^ oaes_gf_mul (w 3%nat) 0x0d;
   oaes_gf_mul (w 0%nat) 0x0d .^ oaes_gf_mul (w 1%nat) 0x09 .^ oaes_gf_mul (w 2%nat) 0x0e .^ oaes_gf_mul (w 3%nat) 0x0b;
   oaes_gf_mul (w 0%nat) 0x0b .^ oaes_gf_mul (w 1%nat) 0x0d .^ oaes_gf_mul (w 2%nat) 0x09 .^ oaes_gf_mul (w 3%nat) 0x0e].

(** [f(c); f(c + 4); f(c + 8); f(c + 12)] *)
Definition each_col (f : bytes -> bytes) (c : bytes) : bytes :=
  f (take 4 c) ++ f (take 4 (drop 4 c)) ++ f (take 4 (drop 8 c)) ++ f (take 4 (drop 12 c)).

(** [c[_j] = c[_j] ^ k[off + _j]] for the 16 bytes of a block. *)
Definition add_key (c : bytes) (k : bytes) (off : nat) : bytes :=
  (fun j => (c !!! j) .^ (k !!! (off + j)%nat)) <$> seq 0 OAES_BLOCK_SIZE.

(** ** Keys *)

(** [oaes_key_destroy] frees the key and stores NULL. *)
Definition oaes_key_destroy (k : option oaes_key) : OAES_RET * option oaes_key := (OAES_RET_SUCCESS, None).

Definition set_key (ctx : oaes_ctx) (k : option oaes_key) : oaes_ctx := mkctx k (options ctx) (iv ctx).
Definition destroy_key (ctx : oaes_ctx) : oaes_ctx := set_key ctx (oaes_key_destroy (key ctx)).2.

(** The key column number [i]. *)
Definition expand_step (base : nat) (e : bytes) (i : nat) : bytes :=
  let temp := take OAES_COL_LEN (drop ((i - 1) * OAES_RKEY_LEN) e) in
  let temp :=
    if (i mod base =? 0)%nat then
      let temp := oaes_sub_byte <$> oaes_word_rot_left temp in
      <[0%nat := (temp !!! 0%nat) .^ (oaes_gf_8 !!! (i / base - 1)%nat)]> temp
    else if (6 <? base)%nat && (4 =? i mod base)%nat then oaes_sub_byte <$> temp
    else temp in
  foldl (fun e j => <[(i * OAES_RKEY_LEN + j)%nat := (e !!! ((i - base) * OAES_RKEY_LEN + j)%nat) .^ (temp !!! j)]> e)
    e (seq 0 OAES_COL_LEN).

Definition oaes_key_expand (mem : bool) (ctx : oaes_ctx) : OAES_RET * oaes_ctx :=
  match key ctx with
  | None => (OAES_RET_NOKEY, ctx)
  | Some k =>
      let base := (data_len k / OAES_RKEY_LEN)%nat in
      let num := (base + OAES_ROUND_BASE)%nat in
      let len := (num * OAES_RKEY_LEN * OAES_COL_LEN)%nat in
      if negb mem then (OAES_RET_MEM, set_key ctx (Some (mkkey (data_len k) (data k) len [] num base)))
      else
        let e := replicate len 0 in
        let e := memcpy e 0 (take (data_len k) (data k)) in
        let e := foldl (expand_step base) e (seq base (num * OAES_RKEY_LEN - base)) in
        (OAES_RET_SUCCESS, set_key ctx (Some (mkkey (data_len k) (data k) len e num base)))
  end.

(** The outcomes of the three calls of [calloc]. *)
Record allocs := mkallocs { mem_key : bool; mem_data : bool; mem_exp : bool }.

(** The end of the functions that set a key: expand it, drop it on failure. *)
Definition expand_or_destroy (mem : allocs) (ctx : oaes_ctx) : OAES_RET * oaes_ctx :=
  let '(rc, ctx) := oaes_key_expand (mem_exp mem) ctx in
  let rc := rc_or OAES_RET_SUCCESS rc in
  if decide (rc = OAES_RET_SUCCESS) then (OAES_RET_SUCCESS, ctx) else (rc, destroy_key ctx).

Definition oaes_key_gen (mem : allocs) (rand : bytes) (ctx : option oaes_ctx) (key_size : nat) : OAES_RET * option oaes_ctx :=
  match ctx with
  | None => (OAES_RET_ARG1, None)
  | Some ctx =>
      if negb (mem_key mem) then (OAES_RET_MEM, Some ctx)
      else
        let ctx := if key ctx is Some _ then destroy_key ctx else ctx in
        if negb (mem_data mem) then (OAES_RET_MEM, Some ctx)
        else
          let '(rc, ctx) := expand_or_destroy mem (set_key ctx (Some (mkkey key_size (u8 <$> take key_size rand) 0 [] 0 0))) in
          (rc, Some ctx)
  end.

Definition oaes_key_gen_128 (mem : allocs) (rand : bytes) (ctx : option oaes_ctx) := oaes_key_gen mem rand ctx 16.
Definition oaes_key_gen_192 (mem : allocs) (rand : bytes) (ctx : option oaes_ctx) := oaes_key_gen mem rand ctx 24.
Definition oaes_key_gen_256 (mem : allocs) (rand : bytes) (ctx : option oaes_ctx) := oaes_key_gen mem rand ctx 32.

(** Results of the export functions: the buffer and the length written back. *)
Definition oaes_key_export (ctx : option oaes_ctx) (buffer : option bytes) (len : option Z) :
    OAES_RET * option bytes * option Z :=
  match ctx with
  | None => (OAES_RET_ARG1, buffer, len)
  | Some ctx =>
      match key ctx, len with
      | None, _ => (OAES_RET_NOKEY, buffer, len)
      | Some _, None => (OAES_RET_ARG3, buffer, len)
      | Some k, Some len_in =>
          let len := u64 (Z.of_nat (data_len k + OAES_BLOCK_SIZE)) in
          match buffer with
          | None => (OAES_RET_SUCCESS, buffer, Some len)
          | Some b =>
              if len_in <? len then (OAES_RET_BUF, buffer, Some len)
              else
                let b := memcpy b 0 oaes_header in
                let b := <[5%nat := 0x01]> b in
                let b := <[7%nat := u8 (Z.of_nat (data_len k))]> b in
                let b := memcpy b OAES_BLOCK_SIZE (take (data_len k) (data k)) in
                (OAES_RET_SUCCESS, Some b, Some len)
          end
      end
  end.

Definition oaes_key_export_data (ctx : option oaes_ctx) (buffer : option bytes) (len : option Z) :
    OAES_RET * option bytes * option Z :=
  match ctx with
  | None => (OAES_RET_ARG1, buffer, len)
  | Some ctx =>
      match key ctx, len with
      | None, _ => (OAES_RET_NOKEY, buffer, len)
      | Some _, None => (OAES_RET_ARG3, buffer, len)
      | Some k, Some len_in =>
          let len := Z.of_nat (data_len k) in
          match buffer with
          | None => (OAES_RET_SUCCESS, buffer, Some len)
          | Some b =>
              if len_in <? len then (OAES_RET_BUF, buffer, Some len)
              else (OAES_RET_SUCCESS, Some (memcpy b 0 (take (data_len k) (data k))), Some len)
          end
      end
  end.

(** Replacing the key of a context by [n] bytes, common to both imports. *)
Definition import_key (mem : allocs) (ctx : oaes_ctx) (b : bytes) (n : nat) : OAES_RET * option oaes_ctx :=
  let ctx := if key ctx is Some _ then destroy_key ctx else ctx in
  if negb (mem_key mem) then (OAES_RET_MEM, Some (set_key ctx None))
  else if negb (mem_data mem) then (OAES_RET_MEM, Some (destroy_key ctx))
  else
    let '(rc, ctx) := expand_or_destroy mem (set_key ctx (Some (mkkey n (take n b) 0 [] 0 0))) in
    (rc, Some ctx).

Definition is_key_len (n : Z) : bool := (n =? 16) || (n =? 24) || (n =? 32).

(** [memcmp(c, oaes_header, 4)], the version and the type. *)
Definition header_ok (c : bytes) (type : Z) : bool :=
  bool_decide (take 4 c = take 4 oaes_header) && ((c !!! 4%nat) =? 0x01) && ((c !!! 5%nat) =? type).

Definition oaes_key_import (mem : allocs) (ctx : option oaes_ctx) (buffer : option bytes) (len : Z) : OAES_RET * option oaes_ctx :=
  match ctx, buffer with
  | None, _ => (OAES_RET_ARG1, None)
  | Some ctx, None => (OAES_RET_ARG2, Some ctx)
  | Some ctx, Some b =>
      if negb (is_key_len (len - Z.of_nat OAES_BLOCK_SIZE)) then (OAES_RET_ARG3, Some ctx)
      else if negb (header_ok b 0x01) then (OAES_RET_HEADER, Some ctx)
      else
        let key_length := b !!! 7%nat in
        if negb (is_key_len key_length) then (OAES_RET_HEADER, Some ctx)
        else if negb (i32 len =? key_length + Z.of_nat OAES_BLOCK_SIZE) then (OAES_RET_ARG3, Some ctx)
        else import_key mem ctx (drop OAES_BLOCK_SIZE b) (Z.to_nat key_length)
  end.

Definition oaes_key_import_data (mem : allocs) (ctx : option oaes_ctx) (buffer : option bytes) (len : Z) : OAES_RET * option oaes_ctx :=
  match ctx, buffer with
  | None, _ => (OAES_RET_ARG1, None)
  | Some ctx, None => (OAES_RET_ARG2, Some ctx)
  | Some ctx, Some b =>
      if negb (is_key_len len) then (OAES_RET_ARG3, Some ctx)
      else import_key mem ctx b (Z.to_nat len)
  end.

(** ** Contexts *)

Definition oaes_set_option (rand : bytes) (ctx : option oaes_ctx) (option_ : Z) (value : option bytes) :
    OAES_RET * option oaes_ctx :=
  match ctx with
  | None => (OAES_RET_ARG1, None)
  | Some ctx =>
      if option_ =? OAES_OPTION_ECB then
        let o := options ctx .& (0xffff - OAES_OPTION_CBC) in
        (OAES_RET_SUCCESS, Some (mkctx (key ctx) (o .| option_) (replicate OAES_BLOCK_SIZE 0)))
      else if option_ =? OAES_OPTION_CBC then
        let o := options ctx .& (0xffff - OAES_OPTION_ECB) in
        let v := match value with
                 | Some v => take OAES_BLOCK_SIZE v
                 | None => u8 <$> take OAES_BLOCK_SIZE rand
                 end in
        (OAES_RET_SUCCESS, Some (mkctx (key ctx) (o .| option_) v))
      else (OAES_RET_ARG2, Some ctx)
  end.

Definition oaes_alloc (mem : bool) (rand : bytes) : option oaes_ctx :=
  if negb mem then None
  else
    let ctx := mkctx None 0 (replicate OAES_BLOCK_SIZE 0) in
    (oaes_set_option rand (Some ctx) OAES_OPTION_CBC None).2.

(** [ctx] is the pointer to the context pointer. *)
Definition oaes_free (ctx : option (option oaes_ctx)) : OAES_RET * option (option oaes_ctx) :=
  match ctx with
  | None => (OAES_RET_ARG1, None)
  | Some None => (OAES_RET_SUCCESS, Some None)
  | Some (Some _) => (OAES_RET_SUCCESS, Some None)
  end.

(** ** Blocks *)

(** [OAES_RKEY_LEN * OAES_COL_LEN] bytes of key per round. *)
Abbreviation round_key_off i := (i * OAES_RKEY_LEN * OAES_COL_LEN)%nat.

Definition encrypt_round (k : bytes) (c : bytes) (i : nat) : bytes :=
  let c := oaes_sub_byte <$> c in
  let c := oaes_shift_rows c in
  let c := each_col oaes_mix_cols c in
  add_key c k (round_key_off i).

Definition oaes_encrypt_block (ctx : option oaes_ctx) (c : option bytes) (c_len : nat) : OAES_RET * option bytes :=
  match ctx, c with
  | None, _ => (OAES_RET_ARG1, c)
  | Some _, None => (OAES_RET_ARG2, c)
  | Some ctx, Some b =>
      if negb (c_len =? OAES_BLOCK_SIZE)%nat then (OAES_RET_ARG3, c)
      else
        match key ctx with
        | None => (OAES_RET_NOKEY, c)
        | Some k =>
            let b := add_key b (exp_data k) 0 in
            let b := foldl (encrypt_round (exp_data k)) b (seq 1 (num_keys k - 2)) in
            let b := oaes_sub_byte <$> b in
            let b := oaes_shift_rows b in
            let b := add_key b (exp_data k) (round_key_off (num_keys k - 1)) in
            (OAES_RET_SUCCESS, Some b)
        end
  end.

Definition decrypt_round (k : bytes) (c : bytes) (i : nat) : bytes :=
  let c := oaes_inv_shift_rows c in
  let c := oaes_inv_sub_byte <$> c in
  let c := add_key c k (round_key_off i) in
  each_col oaes_inv_mix_cols c.

Definition oaes_decrypt_block (ctx : option oaes_ctx) (c : option bytes) (c_len : nat) : OAES_RET * option bytes :=
  match ctx, c with
  | None, _ => (OAES_RET_ARG1, c)
  | Some _, None => (OAES_RET_ARG2, c)
  | Some ctx, Some b =>
      if negb (c_len =? OAES_BLOCK_SIZE)%nat then (OAES_RET_ARG3, c)
      else
        match key ctx with
        | None => (OAES_RET_NOKEY, c)
        | Some k =>
            let b := add_key b (exp_data k) (round_key_off (num_keys k - 1)) in
            let b := foldl (decrypt_round (exp_data k)) b (reverse (seq 1 (num_keys k - 2))) in
            let b := oaes_inv_shift_rows b in
            let b := oaes_inv_sub_byte <$> b in
            let b := add_key b (exp_data k) 0 in
            (OAES_RET_SUCCESS, Some b)
        end
  end.

Definition oaes_encryption_round (k : option bytes) (c : option bytes) : OAES_RET * option bytes :=
  match k, c with
  | None, _ => (OAES_RET_ARG1, c)
  | Some _, None => (OAES_RET_ARG2, c)
  | Some k, Some c => (OAES_RET_SUCCESS, Some (encrypt_round k c 0))
  end.

Definition oaes_pseudo_encrypt_ecb (ctx : option oaes_ctx) (c : option bytes) : OAES_RET * option bytes :=
  match ctx, c with
  | None, _ => (OAES_RET_ARG1, c)
  | Some _, None => (OAES_RET_ARG2, c)
  | Some ctx, Some b =>
      match key ctx with
      | None => (OAES_RET_NOKEY, c)
      | Some k =>
          (OAES_RET_SUCCESS,
           foldl (fun c i => (oaes_encryption_round (Some (drop (round_key_off i) (exp_data k))) c).2) (Some b) (seq 0 10))
      end
  end.

(** ** Messages *)

Definition xor_block (b v : bytes) : bytes := (fun j => (b !!! j) .^ (v !!! j)) <$> seq 0 OAES_BLOCK_SIZE.

(** [_rc = _rc || f(block)]: [f] is called only while [_rc] is zero. *)
Definition rc_call (rc : OAES_RET) (f : option bytes -> OAES_RET * option bytes) (b : bytes) : OAES_RET * bytes :=
  if decide (rc = OAES_RET_SUCCESS) then
    let '(r, b') := f (Some b) in (rc_or rc r, default b b')
  else (OAES_RET_UNKNOWN, b).

Definition is_cbc (o : Z) : bool := negb (o .& OAES_OPTION_CBC =? 0).

(** One block of [oaes_encrypt]: the context, the output buffer and [_rc]. *)
Definition encrypt_step (m_len : nat) (st : oaes_ctx * bytes * OAES_RET) (n : nat) : oaes_ctx * bytes * OAES_RET :=
  let '(ctx, c, rc) := st in
  let i := (n * OAES_BLOCK_SIZE)%nat in
  let block_size := Nat.min (m_len - i) OAES_BLOCK_SIZE in
  let block := take block_size (drop (2 * OAES_BLOCK_SIZE + i) c) in
  let block := block ++ ((fun j => u8 (Z.of_nat (j + 1))) <$> seq 0 (OAES_BLOCK_SIZE - block_size)) in
  let block := if is_cbc (options ctx) then xor_block block (iv ctx) else block in
  let '(rc, block) := rc_call rc (fun b => oaes_encrypt_block (Some ctx) b OAES_BLOCK_SIZE) block in
  let c := memcpy c (2 * OAES_BLOCK_SIZE + i) block in
  let ctx := if is_cbc (options ctx) then mkctx (key ctx) (options ctx) block else ctx in
  (ctx, c, rc).

Definition oaes_encrypt (ctx : option oaes_ctx) (m : option bytes) (m_len : Z) (c : option bytes) (c_len : option Z) :
    OAES_RET * option oaes_ctx * option bytes * option Z :=
  let pad_len := if m_len mod 16 =? 0 then 0 else 16 - m_len mod 16 in
  let flags := if pad_len =? 0 then 0 else OAES_FLAG_PAD in
  match ctx, m, c_len with
  | None, _, _ => (OAES_RET_ARG1, ctx, c, c_len)
  | Some _, None, _ => (OAES_RET_ARG2, ctx, c, c_len)
  | Some _, Some _, None => (OAES_RET_ARG5, ctx, c, c_len)
  | Some x, Some m, Some c_len_in =>
      let c_data_len := u64 (m_len + pad_len) in
      let c_len := u64 (2 * 16 + m_len + pad_len) in
      match c with
      | None => (OAES_RET_SUCCESS, ctx, c, Some c_len)
      | Some b =>
          if c_len_in <? c_len then (OAES_RET_BUF, ctx, c, Some c_len)
          else
            match key x with
            | None => (OAES_RET_NOKEY, ctx, c, Some c_len)
            | Some _ =>
                let b := memcpy b 0 oaes_header in
                let b := memcpy b 6 (le_bytes 2 (options x)) in
                let b := memcpy b 8 [flags] in
                let b := memcpy b OAES_BLOCK_SIZE (iv x) in
                let b := memcpy b (2 * OAES_BLOCK_SIZE) (take (Z.to_nat m_len) m) in
                let '(x, b, rc) := foldl (encrypt_step (Z.to_nat m_len)) (x, b, OAES_RET_SUCCESS) (seq 0 (Z.to_nat (c_data_len / 16))) in
                (rc, Some x, Some b, Some c_len)
            end
      end
  end.

(** One block of [oaes_decrypt]: the iv, the output buffer and [_rc]. *)
Definition decrypt_step (ctx : oaes_ctx) (o : Z) (c : bytes) (m_len : nat) (st : bytes * bytes * OAES_RET) (n : nat) :
    bytes * bytes * OAES_RET :=
  let '(v, m, rc) := st in
  let i := (n * OAES_BLOCK_SIZE)%nat in
  let v := if is_cbc o && (0 <? i)%nat then take OAES_BLOCK_SIZE (drop (OAES_BLOCK_SIZE + i) c) else v in
  let '(rc, block) :=
    rc_call rc (fun b => oaes_decrypt_block (Some ctx) b (Nat.min (m_len - i) OAES_BLOCK_SIZE)) (take OAES_BLOCK_SIZE (drop i m)) in
  let block := if is_cbc o then xor_block block v else block in
  (v, memcpy m i block, rc).

(** The options and the flags of the header are valid. *)
Definition options_ok (o flags : Z) : bool :=
  (o .& (0xffff - (OAES_OPTION_ECB .| OAES_OPTION_CBC)) =? 0) &&
  negb (negb (o .& OAES_OPTION_ECB =? 0) && negb (o .& OAES_OPTION_CBC =? 0)) &&
  negb (o =? OAES_OPTION_NONE) &&
  (flags .& (0xff - OAES_FLAG_PAD) =? 0).

(** The removal of the padding from the decrypted bytes. *)
Definition remove_pad (m : bytes) (m_len : Z) : OAES_RET * bytes * Z :=
  let temp := m !!! Z.to_nat (m_len - 1) in
  if (temp <=? 0x00) || (0x0f <? temp) then (OAES_RET_HEADER, m, m_len)
  else if forallb (fun i => (m !!! Z.to_nat (m_len - 1 - Z.of_nat i)) =? temp - Z.of_nat i) (seq 0 (Z.to_nat temp)) then
    (OAES_RET_SUCCESS, memcpy m (Z.to_nat (m_len - temp)) (replicate (Z.to_nat temp) 0), m_len - temp)
  else (OAES_RET_HEADER, m, m_len).

Definition oaes_decrypt (ctx : option oaes_ctx) (c : option bytes) (c_len : Z) (m : option bytes) (m_len : option Z) :
    OAES_RET * option bytes * option Z :=
  match ctx, c with
  | None, _ => (OAES_RET_ARG1, m, m_len)
  | Some _, None => (OAES_RET_ARG2, m, m_len)
  | Some x, Some c =>
      if negb (c_len mod 16 =? 0) then (OAES_RET_ARG3, m, m_len)
      else
        match m_len with
        | None => (OAES_RET_ARG5, m, m_len)
        | Some m_len_in =>
            let m_len := u64 (c_len - 2 * 16) in
            match m with
            | None => (OAES_RET_SUCCESS, m, Some m_len)
            | Some b =>
                if m_len_in <? m_len then (OAES_RET_BUF, m, Some m_len)
                else
                  match key x with
                  | None => (OAES_RET_NOKEY, m, Some m_len)
                  | Some _ =>
                      let o := le (take 2 (drop 6 c)) in
                      let flags := c !!! 8%nat in
                      if negb (header_ok c 0x02) || negb (options_ok o flags) then (OAES_RET_HEADER, m, Some m_len)
                      else
                        let v := take OAES_BLOCK_SIZE (drop OAES_BLOCK_SIZE c) in
                        let b := memcpy b 0 (take (Z.to_nat m_len) (drop (2 * OAES_BLOCK_SIZE) c)) in
                        let '(_, b, _) := foldl (decrypt_step x o c (Z.to_nat m_len)) (v, b, OAES_RET_SUCCESS) (seq 0 (Z.to_nat (m_len / 16))) in
                        if negb (flags .& OAES_FLAG_PAD =? 0) then
                          let '(rc, b, m_len) := remove_pad b m_len in (rc, Some b, Some m_len)
                        else (OAES_RET_SUCCESS, Some b, Some m_len)
                  end
            end
        end
  end.

(** ** Text *)

(** [sprintf("%02x ")] of a byte, as character codes. *)
Definition hex_digit (d : Z) : Z := if d <? 10 then 48 + d else 87 + d.
Definition hex_text (b : Z) : list Z := [hex_digit (b / 16); hex_digit (b mod 16); 32].

(** The buffer holds the text and the final zero. *)
Definition oaes_sprintf (buf : option bytes) (buf_len : option Z) (d : option bytes) (d_len : nat) :
    OAES_RET * option bytes * option Z :=
  match buf_len with
  | None => (OAES_RET_ARG2, buf, buf_len)
  | Some len_in =>
      let len := u64 (Z.of_nat d_len * 3 + Z.of_nat d_len / 16 + 1) in
      match buf, d with
      | None, _ => (OAES_RET_SUCCESS, buf, Some len)
      | Some b, _ =>
          if len_in <? len then (OAES_RET_BUF, buf, Some len)
          else
            match d with
            | None => (OAES_RET_ARG3, buf, Some len)
            | Some d =>
                let text := foldl (fun text i =>
                  let text := text ++ hex_text (d !!! i) in
                  if negb (i =? 0)%nat && ((i + 1) mod OAES_BLOCK_SIZE =? 0)%nat then text ++ [10] else text) [] (seq 0 d_len) in
                (OAES_RET_SUCCESS, Some (memcpy b 0 (text ++ [0])), Some len)
            end
      end
  end.

(** The example vector of FIPS 197, appendix C.1. *)
Example oaes_fips197 :
  let mem := mkallocs true true true in
  let ctx := (oaes_key_import_data mem (oaes_alloc true (replicate 16 0)) (Some (Z.of_nat <$> seq 0 16)) 16).2 in
  oaes_encrypt_block ctx (Some ((fun i => 17 * Z.of_nat i) <$> seq 0 16)) 16 =
  (OAES_RET_SUCCESS, Some [0x69; 0xc4; 0xe0; 0xd8; 0x6a; 0x7b; 0x04; 0x30; 0xd8; 0xcd; 0xb7; 0x80; 0x70; 0xb4; 0xc5; 0x5a]).
Proof. vm_compute. reflexivity. Qed.
