(* ===== verification/AesSpec.v ===== *)
(** * AES (FIPS 197) and the primitives of oaes_lib.c

    The reference: the field of 2^8 elements by carry-less multiplication modulo
    x^8 + x^4 + x^3 + x + 1, the S-box as the affine image of the inverse, the
    transformations on a state of 16 bytes in columns, the key schedule on
    4-byte words.  The tables of the source are compared with it entry by
    entry; MixColumns is inverted by linear algebra over the field. *)

From S2P Require Import Prelude Oaes.

(** ** The field *)

Definition xtime (a : Z) : Z := (2 * a) .^ (if a <? 128 then 0 else 0x11b).

(** Shift and add, [n] bits of [b] from the lowest on. *)
Fixpoint gmul_bits (n : nat) (a b : Z) : Z :=
  match n with
  | O => 0
  | S n => (if Z.odd b then a else 0) .^ gmul_bits n (xtime a) (b / 2)
  end.
Definition gmul (a b : Z) : Z := gmul_bits 8 a b.

Definition gpow (a : Z) (n : nat) : Z := Nat.iter n (gmul a) 1.
Definition ginv (a : Z) : Z := gpow a 254.

(** The affine map of the S-box: bit i is b_i + b_(i+4) + b_(i+5) + b_(i+6) + b_(i+7) + c_i. *)
Definition affine (b : Z) : Z :=
  let bit i := Z.b2z (Z.testbit b (i mod 8)) in
  foldr (fun i acc => (((bit i + bit (i + 4) + bit (i + 5) + bit (i + 6) + bit (i + 7) + Z.b2z (Z.testbit 0x63 i)) mod 2) .<< i) + acc)
    0 [0; 1; 2; 3; 4; 5; 6; 7].
Definition sbox (b : Z) : Z := affine (ginv b).

(** ** The transformations *)

Definition SubBytes (s : bytes) : bytes := sbox <$> s.

(** Row [r] of column [c] comes from column [c + r]. *)
Definition ShiftRows (s : bytes) : bytes :=
  (fun i => let r := (i mod 4)%nat in let c := (i / 4)%nat in s !!! (4 * ((c + r) mod 4) + r)%nat) <$> seq 0 16.

Definition mat_col (M : list (list Z)) (col : bytes) : bytes :=
  (fun row => foldr Z.lxor 0 (zip_with gmul col row)) <$> M.
Definition columns_of (s : bytes) : list bytes := (fun c => take 4 (drop (4 * c) s)) <$> seq 0 4.

Definition mix_matrix : list (list Z) := [[2; 3; 1; 1]; [1; 2; 3; 1]; [1; 1; 2; 3]; [3; 1; 1; 2]].
Definition inv_mix_matrix : list (list Z) :=
  [[0x0e; 0x0b; 0x0d; 0x09]; [0x09; 0x0e; 0x0b; 0x0d]; [0x0d; 0x09; 0x0e; 0x0b]; [0x0b; 0x0d; 0x09; 0x0e]].

Definition MixColumns (s : bytes) : bytes := mjoin (mat_col mix_matrix <$> columns_of s).
Definition InvMixColumns (s : bytes) : bytes := mjoin (mat_col inv_mix_matrix <$> columns_of s).
Definition AddRoundKey (s k : bytes) : bytes := zip_with Z.lxor s k.

Definition aes_round (s k : bytes) : bytes := AddRoundKey (MixColumns (ShiftRows (SubBytes s))) k.

(** ** Key schedule and cipher *)

Definition Rcon (i : nat) : bytes := [gpow 2 (i - 1); 0; 0; 0].
Definition RotWord (w : bytes) : bytes := drop 1 w ++ take 1 w.

(** The words of the schedule, [ws] holding those before word [i]. *)
Definition next_word (nk : nat) (ws : list bytes) (i : nat) : list bytes :=
  let temp := ws !!! (i - 1)%nat in
  let temp :=
    if (i mod nk =? 0)%nat then zip_with Z.lxor (SubBytes (RotWord temp)) (Rcon (i / nk))
    else if (6 <? nk)%nat && (i mod nk =? 4)%nat then SubBytes temp
    else temp in
  ws ++ [zip_with Z.lxor (ws !!! (i - nk)%nat) temp].

Definition KeyExpansion (nk : nat) (key : bytes) : list bytes :=
  foldl (next_word nk) ((fun i => take 4 (drop (4 * i) key)) <$> seq 0 nk) (seq nk (4 * (nk + 7) - nk)).

Definition round_key (ws : list bytes) (i : nat) : bytes := mjoin (take 4 (drop (4 * i) ws)).

Definition Cipher (nr : nat) (ws : list bytes) (s : bytes) : bytes :=
  let s := AddRoundKey s (round_key ws 0) in
  let s := foldl (fun s i => aes_round s (round_key ws i)) s (seq 1 (nr - 1)) in
  AddRoundKey (ShiftRows (SubBytes s)) (round_key ws nr).

(** ** Tables *)

Lemma sub_byte_check :
  forallb (fun b => (oaes_sub_byte b =? sbox b) && (oaes_inv_sub_byte (oaes_sub_byte b) =? b) && byteb (oaes_sub_byte b)
    && byteb (oaes_inv_sub_byte b)) all_bytes = true.
Proof. vm_compute. reflexivity. Qed.

Lemma sub_byte_ok b : is_u8 b ->
  oaes_sub_byte b = sbox b /\ oaes_inv_sub_byte (oaes_sub_byte b) = b /\ is_u8 (oaes_sub_byte b) /\ is_u8 (oaes_inv_sub_byte b).
Proof.
  intros Hb. pose proof (byte_all _ sub_byte_check b Hb) as H. cbv beta in H.
  rewrite !andb_true_iff, !Z.eqb_eq in H. destruct H as (((? & ?) & ?%byteb_u8) & ?%byteb_u8). done.
Qed.

Definition coefficients : list Z := [1; 2; 3; 9; 0x0b; 0x0d; 0x0e].

Lemma gf_mul_check : forallb (fun b => forallb (fun c => (oaes_gf_mul b c =? gmul b c) && byteb (gmul b c)) coefficients) all_bytes = true.
Proof. vm_compute. reflexivity. Qed.

Lemma gf_mul_ok b c : is_u8 b -> c ∈ coefficients -> oaes_gf_mul b c = gmul b c /\ is_u8 (gmul b c).
Proof.
  intros Hb Hc. pose proof (byte_all _ gf_mul_check b Hb) as H. cbv beta in H. rewrite forallb_forall in H.
  apply list_elem_of_In, H in Hc. rewrite andb_true_iff, Z.eqb_eq in Hc. destruct Hc as [? ?%byteb_u8]. done.
Qed.

(** ** Linearity *)

Lemma xtime_bit b : is_u8 b -> (b <? 128) = negb (Z.testbit b 7).
Proof.
  intros Hb. pose proof (byte_all (fun b => Bool.eqb (b <? 128) (negb (Z.testbit b 7))) eq_refl b Hb) as H.
  by apply eqb_prop in H.
Qed.

Lemma xtime_u8 b : is_u8 b -> is_u8 (xtime b).
Proof. intros Hb. apply byteb_u8. exact (byte_all (fun b => byteb (xtime b)) eq_refl b Hb). Qed.

Lemma xtime_lxor a b : is_u8 a -> is_u8 b -> xtime (a .^ b) = xtime a .^ xtime b.
Proof.
  intros Ha Hb. unfold xtime. rewrite !xtime_bit by (done || by apply lxor_word). rewrite Z.lxor_spec.
  replace (2 * (a .^ b)) with ((2 * a) .^ (2 * b)).
  - apply Z.bits_inj'. intros i _. rewrite !Z.lxor_spec.
    by destruct (Z.testbit a 7), (Z.testbit b 7); cbn [xorb negb]; rewrite ?Z.bits_0;
      destruct (Z.testbit (2 * a) i), (Z.testbit (2 * b) i); try destruct (Z.testbit 0x11b i).
  - rewrite !(Z.mul_comm 2). change 2 with (2 ^ 1). rewrite <- !Z.shiftl_mul_pow2 by lia. symmetry. apply Z.shiftl_lxor.
Qed.

Lemma gmul_bits_lxor n a b c : is_u8 a -> is_u8 b -> gmul_bits n (a .^ b) c = gmul_bits n a c .^ gmul_bits n b c.
Proof.
  revert a b c. induction n as [|n IH]; intros a b c Ha Hb; [done|]. cbn [gmul_bits].
  rewrite xtime_lxor, IH by (done || by apply xtime_u8). apply Z.bits_inj'. intros i _. rewrite !Z.lxor_spec.
  destruct (Z.odd c); rewrite ?Z.lxor_spec, ?Z.bits_0;
    by destruct (Z.testbit a i), (Z.testbit b i), (Z.testbit (gmul_bits n (xtime a) (c / 2)) i), (Z.testbit (gmul_bits n (xtime b) (c / 2)) i).
Qed.

Lemma gmul_lxor a b c : is_u8 a -> is_u8 b -> gmul (a .^ b) c = gmul a c .^ gmul b c.
Proof. apply gmul_bits_lxor. Qed.

(** ** MixColumns and its inverse *)

(** Entry [r, j] of the product of the two matrices is that of the identity. *)
Definition product_entry (r j : nat) (x : Z) : Z :=
  foldr Z.lxor 0 ((fun k => gmul (gmul x ((mix_matrix !!! k) !!! j)) ((inv_mix_matrix !!! r) !!! k)) <$> seq 0 4).

Lemma product_check :
  forallb (fun x => forallb (fun r => forallb (fun j => product_entry r j x =? if (r =? j)%nat then x else 0) (seq 0 4)) (seq 0 4)) all_bytes = true.
Proof. vm_compute. reflexivity. Qed.

Lemma product_ok r j x : (r < 4)%nat -> (j < 4)%nat -> is_u8 x -> product_entry r j x = if (r =? j)%nat then x else 0.
Proof.
  intros Hr Hj Hx. pose proof (byte_all _ product_check x Hx) as H. cbv beta in H. rewrite forallb_forall in H.
  specialize (H r). rewrite forallb_forall in H. apply Z.eqb_eq, H; apply list_elem_of_In, elem_of_seq; lia.
Qed.

#[local] Opaque gmul.

Lemma four_bytes (col : bytes) : is_bytes_n 4 col -> exists a b c d, col = [a; b; c; d] /\ is_u8 a /\ is_u8 b /\ is_u8 c /\ is_u8 d.
Proof.
  intros [Hb Hl]. destruct col as [|a [|b [|c [|d [|]]]]]; try discriminate. exists a, b, c, d.
  unfold is_bytes in Hb. rewrite !list.Forall_cons in Hb. tauto.
Qed.

Lemma gmul_u8 b c : is_u8 b -> c ∈ coefficients -> is_u8 (gmul b c).
Proof. intros. by apply gf_mul_ok. Qed.

(** A product row distributes over a column of the image. *)
Lemma dot_linear a b c d p q r s n : is_u8 a -> is_u8 b -> is_u8 c -> is_u8 d ->
  p ∈ coefficients -> q ∈ coefficients -> r ∈ coefficients -> s ∈ coefficients -> n ∈ coefficients ->
  gmul (gmul a p .^ (gmul b q .^ (gmul c r .^ (gmul d s .^ 0)))) n =
  gmul (gmul a p) n .^ (gmul (gmul b q) n .^ (gmul (gmul c r) n .^ gmul (gmul d s) n)).
Proof.
  intros. rewrite Z.lxor_0_r. rewrite !gmul_lxor; [done|..]; repeat apply lxor_word; try lia; by apply gmul_u8.
Qed.

Lemma in_coefficients c : bool_decide (c ∈ coefficients) = true -> c ∈ coefficients.
Proof. apply bool_decide_eq_true_1. Qed.

Ltac coeff := by apply in_coefficients.

(** Regrouping a sum of sixteen terms. *)
Lemma lxor_transpose a0 a1 a2 a3 b0 b1 b2 b3 c0 c1 c2 c3 d0 d1 d2 d3 :
  (a0 .^ (b0 .^ (c0 .^ d0))) .^ ((a1 .^ (b1 .^ (c1 .^ d1))) .^ ((a2 .^ (b2 .^ (c2 .^ d2))) .^ ((a3 .^ (b3 .^ (c3 .^ d3))) .^ 0))) =
  (a0 .^ (a1 .^ (a2 .^ (a3 .^ 0)))) .^ (b0 .^ (b1 .^ (b2 .^ (b3 .^ 0)))) .^
  (c0 .^ (c1 .^ (c2 .^ (c3 .^ 0)))) .^ (d0 .^ (d1 .^ (d2 .^ (d3 .^ 0)))).
Proof. apply Z.bits_inj'. intros i _. rewrite !Z.lxor_spec, Z.bits_0. ring. Qed.

Lemma inv_mix_col col : is_bytes_n 4 col -> mat_col inv_mix_matrix (mat_col mix_matrix col) = col.
Proof.
  intros H. apply four_bytes in H as (a & b & c & d & -> & Ha & Hb & Hc & Hd).
  assert (K : forall r, (r < 4)%nat ->
    foldr Z.lxor 0 (zip_with gmul (mat_col mix_matrix [a; b; c; d]) (inv_mix_matrix !!! r)) =
    product_entry r 0 a .^ product_entry r 1 b .^ product_entry r 2 c .^ product_entry r 3 d).
  { intros r Hr. unfold mat_col, product_entry. cbn [mix_matrix fmap list_fmap zip_with foldr seq].
    do 4 (destruct r as [|r]; [cbn [inv_mix_matrix lookup_total list_lookup_total zip_with foldr mix_matrix];
      rewrite !dot_linear by (done || coeff); apply lxor_transpose|]). lia. }
  change (mat_col inv_mix_matrix (mat_col mix_matrix [a; b; c; d])) with
    ((fun r => foldr Z.lxor 0 (zip_with gmul (mat_col mix_matrix [a; b; c; d]) (inv_mix_matrix !!! r))) <$> [0; 1; 2; 3]%nat).
  cbn [fmap list_fmap]. rewrite !K by lia. rewrite !product_ok by (done || lia). cbn [Nat.eqb].
  by rewrite !Z.lxor_0_r, !Z.lxor_0_l.
Qed.

(** ** The primitives of the source are those of the standard *)

Lemma mix_cols_ok col : is_bytes_n 4 col -> oaes_mix_cols col = mat_col mix_matrix col.
Proof.
  intros H. apply four_bytes in H as (a & b & c & d & -> & Ha & Hb & Hc & Hd).
  assert (G1 : forall x, is_u8 x -> gmul x 1 = x) by (intros; symmetry; by apply (gf_mul_ok x 1); [|coeff]).
  unfold oaes_mix_cols, mat_col. cbn [mix_matrix fmap list_fmap zip_with foldr lookup_total list_lookup_total].
  rewrite !(fun x H => proj1 (gf_mul_ok x 2 H ltac:(coeff))), !(fun x H => proj1 (gf_mul_ok x 3 H ltac:(coeff))), !G1 by done.
  by rewrite !Z.lxor_0_r, !Z.lxor_assoc.
Qed.

Lemma inv_mix_cols_ok col : is_bytes_n 4 col -> oaes_inv_mix_cols col = mat_col inv_mix_matrix col.
Proof.
  intros H. apply four_bytes in H as (a & b & c & d & -> & Ha & Hb & Hc & Hd).
  unfold oaes_inv_mix_cols, mat_col. cbn [inv_mix_matrix fmap list_fmap zip_with foldr lookup_total list_lookup_total].
  rewrite !(fun x H => proj1 (gf_mul_ok x 9 H ltac:(coeff))), !(fun x H => proj1 (gf_mul_ok x 0xb H ltac:(coeff))),
    !(fun x H => proj1 (gf_mul_ok x 0xd H ltac:(coeff))), !(fun x H => proj1 (gf_mul_ok x 0xe H ltac:(coeff))) by done.
  by rewrite !Z.lxor_0_r, !Z.lxor_assoc.
Qed.

Lemma mat_col_bytes M col : is_bytes_n 4 col -> Forall (fun row => length row = 4%nat /\ Forall (.∈ coefficients) row) M ->
  is_bytes_n (length M) (mat_col M col).
Proof.
  intros H HM. apply four_bytes in H as (a & b & c & d & -> & Ha & Hb & Hc & Hd). split; [|apply length_fmap].
  apply Forall_fmap. refine (list.Forall_impl _ _ _ HM _). intros row [Hl Hr].
  do 4 (destruct row as [|? row]; [discriminate|]). destruct row; [|discriminate].
  repeat (apply Forall_cons_1 in Hr as [? Hr]). cbn. rewrite Z.lxor_0_r. repeat apply (lxor_word 8); try lia; by apply gmul_u8.
Qed.

(** ** Blocks *)

Abbreviation is_block := (is_bytes_n 16).

Lemma block_cols c : is_block c -> c = take 4 c ++ take 4 (drop 4 c) ++ take 4 (drop 8 c) ++ take 4 (drop 12 c).
Proof. intros [_ Hl]. apply sixteen in Hl as (?&?&?&?&?&?&?&?&?&?&?&?&?&?&?&?&->). reflexivity. Qed.

(** The columns of a block are words of four bytes. *)
Lemma col_bytes c i : is_block c -> (i <= 12)%nat -> is_bytes_n 4 (take 4 (drop i c)).
Proof. intros Hc Hi. apply (is_bytes_take (16 - i)); [by apply is_bytes_drop|lia]. Qed.

Lemma each_col_block f c : is_block c -> (forall w, is_bytes_n 4 w -> is_bytes_n 4 (f w)) -> is_block (each_col f c).
Proof.
  intros Hc Hf. unfold each_col. apply (is_bytes_app 4 12); [apply Hf; by apply (is_bytes_take 16); [|lia]|].
  apply (is_bytes_app 4 8); [apply Hf; by apply col_bytes; [|lia]|]. apply (is_bytes_app 4 4); apply Hf; by apply col_bytes; [|lia].
Qed.

Lemma cols_of_app (a b c d : bytes) : length a = 4%nat -> length b = 4%nat -> length c = 4%nat -> length d = 4%nat ->
  let s := a ++ b ++ c ++ d in take 4 s = a /\ take 4 (drop 4 s) = b /\ take 4 (drop 8 s) = c /\ take 4 (drop 12 s) = d.
Proof.
  intros Ha Hb Hc Hd s. subst s.
  do 4 (destruct a as [|? a]; [discriminate|]). destruct a; [|discriminate].
  do 4 (destruct b as [|? b]; [discriminate|]). destruct b; [|discriminate].
  do 4 (destruct c as [|? c]; [discriminate|]). destruct c; [|discriminate].
  do 4 (destruct d as [|? d]; [discriminate|]). destruct d; [|discriminate]. done.
Qed.

Lemma mix_col_bytes col : is_bytes_n 4 col -> is_bytes_n 4 (mat_col mix_matrix col).
Proof.
  intros H. apply (mat_col_bytes mix_matrix col H).
  repeat (apply list.Forall_cons; split; [split; [done|by repeat (apply list.Forall_cons; split; [coeff|])]|]). constructor.
Qed.

Lemma inv_mix_col_bytes col : is_bytes_n 4 col -> is_bytes_n 4 (mat_col inv_mix_matrix col).
Proof.
  intros H. apply (mat_col_bytes inv_mix_matrix col H).
  repeat (apply list.Forall_cons; split; [split; [done|by repeat (apply list.Forall_cons; split; [coeff|])]|]). constructor.
Qed.

Lemma mix_block c : is_block c -> each_col oaes_mix_cols c = MixColumns c /\ is_block (MixColumns c).
Proof.
  intros Hc. assert (E : each_col oaes_mix_cols c = MixColumns c).
  { unfold each_col. rewrite !mix_cols_ok by first [exact (is_bytes_take 16 4 c Hc ltac:(lia))|apply col_bytes; [done|lia]].
    unfold MixColumns, columns_of. cbn [seq fmap list_fmap Nat.mul Nat.add]. rewrite !mjoin_cons, drop_0.
    change (mjoin ([] : list bytes)) with ([] : bytes). by rewrite app_nil_r. }
  split; [done|]. rewrite <- E. apply each_col_block; [done|]. intros w Hw. rewrite mix_cols_ok by done. by apply mix_col_bytes.
Qed.

Lemma inv_mix_block c : is_block c -> is_block (each_col oaes_inv_mix_cols c).
Proof.
  intros Hc. apply each_col_block; [done|]. intros w Hw. rewrite inv_mix_cols_ok by done. by apply inv_mix_col_bytes.
Qed.

Lemma unmix_block c : is_block c -> each_col oaes_inv_mix_cols (MixColumns c) = c.
Proof.
  intros Hc. rewrite <- (proj1 (mix_block c Hc)). pose proof (block_cols c Hc) as Ec. unfold each_col.
  assert (H0 : is_bytes_n 4 (take 4 c)) by (by apply (is_bytes_take 16); [|lia]).
  assert (Hn : forall i, (i <= 12)%nat -> is_bytes_n 4 (take 4 (drop i c))) by (intros; by apply col_bytes).
  rewrite !mix_cols_ok by (done || (apply Hn; lia)).
  pose proof (mix_col_bytes _ H0) as M0. pose proof (fun i H => mix_col_bytes _ (Hn i H)) as Mn.
  destruct (cols_of_app (mat_col mix_matrix (take 4 c)) (mat_col mix_matrix (take 4 (drop 4 c))) (mat_col mix_matrix (take 4 (drop 8 c)))
    (mat_col mix_matrix (take 4 (drop 12 c))) eq_refl eq_refl eq_refl eq_refl) as (-> & -> & -> & ->).
  rewrite !inv_mix_cols_ok by (done || (apply Mn; lia)). rewrite !inv_mix_col by (done || (apply Hn; lia)). by rewrite <- Ec.
Qed.

Lemma sub_block c : is_bytes c -> oaes_sub_byte <$> c = SubBytes c /\ is_bytes (SubBytes c) /\ oaes_inv_sub_byte <$> SubBytes c = c.
Proof.
  intros Hc. unfold SubBytes. induction Hc as [|b c Hb Hc (E & B & I)]; [by repeat constructor|].
  destruct (sub_byte_ok b Hb) as (E1 & E2 & E3 & _). rewrite !fmap_cons, E, E1, I. rewrite E1 in E2, E3.
  split_and!; [done|by constructor|by rewrite E2].
Qed.

Lemma shift_block c : is_block c ->
  oaes_shift_rows c = ShiftRows c /\ is_block (ShiftRows c) /\ oaes_inv_shift_rows (ShiftRows c) = c /\ is_block (oaes_inv_shift_rows c).
Proof.
  intros [Hb Hl]. apply sixteen in Hl as (?&?&?&?&?&?&?&?&?&?&?&?&?&?&?&?&->).
  split_and!; [reflexivity| |reflexivity|]; (split; [|done]); unfold is_bytes in *;
    (match goal with |- Forall _ ?l => let l' := eval vm_compute in l in change l with l' end);
    rewrite !list.Forall_cons in Hb |- *; tauto.
Qed.

Lemma take_drop_seq (k : bytes) off n : (off + n <= length k)%nat -> take n (drop off k) = (fun j => k !!! (off + j)%nat) <$> seq 0 n.
Proof.
  intros H. apply list_eq_same_length with n; [by rewrite length_fmap, length_seq|rewrite length_take, length_drop; lia|].
  intros i x y Hi Hx Hy. rewrite list_lookup_fmap, lookup_seq_lt in Hy by done. rewrite lookup_take_lt, lookup_drop in Hx by done.
  cbn in Hy. apply list_lookup_total_correct in Hx. congruence.
Qed.

Lemma add_key_zip c k off : is_block c -> (off + 16 <= length k)%nat -> add_key c k off = AddRoundKey c (take 16 (drop off k)).
Proof.
  intros [_ Hl] Hk. unfold add_key, AddRoundKey. rewrite take_drop_seq by done.
  apply sixteen in Hl as (?&?&?&?&?&?&?&?&?&?&?&?&?&?&?&?&->). reflexivity.
Qed.

Lemma add_round_key_block c k : is_block c -> is_block k -> is_block (AddRoundKey c k) /\ AddRoundKey (AddRoundKey c k) k = c.
Proof.
  intros [Hb Hl] [Hb' Hl']. split; [split; [by apply zip_lxor_bytes|unfold AddRoundKey; rewrite length_zip_with; lia]|].
  apply sixteen in Hl as (?&?&?&?&?&?&?&?&?&?&?&?&?&?&?&?&->). apply sixteen in Hl' as (?&?&?&?&?&?&?&?&?&?&?&?&?&?&?&?&->).
  cbn [AddRoundKey zip_with]. by rewrite !Z.lxor_assoc, !Z.lxor_nilpotent, !Z.lxor_0_r.
Qed.

Lemma aes_round_block c k : is_block c -> is_block k -> is_block (aes_round c k).
Proof.
  intros Hc Hk. unfold aes_round. apply add_round_key_block; [|done]. apply mix_block, shift_block.
  split; [by apply sub_block, Hc|]. unfold SubBytes. by rewrite length_fmap, (proj2 Hc).
Qed.

Lemma sub_is_block c : is_block c -> is_block (SubBytes c).
Proof. intros Hc. split; [by apply sub_block, Hc|]. unfold SubBytes. by rewrite length_fmap, (proj2 Hc). Qed.

Lemma encrypt_round_ok k c i : is_block c -> is_bytes k -> (i * 16 + 16 <= length k)%nat ->
  encrypt_round k c i = aes_round c (take 16 (drop (i * 16) k)).
Proof.
  intros Hc Hk Hi. unfold encrypt_round, aes_round. rewrite (proj1 (sub_block c (proj1 Hc))).
  pose proof (sub_is_block c Hc) as Hs. destruct (shift_block _ Hs) as (-> & Hr & _). destruct (mix_block _ Hr) as [-> Hm].
  unfold OAES_RKEY_LEN, OAES_COL_LEN. rewrite add_key_zip; [f_equal; f_equal; f_equal; lia|done|lia].
Qed.

(** [decrypt_round] after a final [AddRoundKey] undoes a round. *)
Lemma decrypt_round_ok k c i : is_block c -> is_bytes k -> (i * 16 + 16 <= length k)%nat ->
  decrypt_round k (ShiftRows (SubBytes (aes_round c (take 16 (drop (i * 16) k))))) i =
  ShiftRows (SubBytes c).
Proof.
  intros Hc Hk Hi. unfold decrypt_round.
  assert (Hkey : is_block (take 16 (drop (i * 16) k))).
  { split; [by apply Forall_take, Forall_drop|rewrite length_take, length_drop; lia]. }
  pose proof (aes_round_block c _ Hc Hkey) as Ha. pose proof (sub_is_block _ Ha) as Hs.
  destruct (shift_block _ Hs) as (_ & _ & -> & _). destruct (sub_block _ (proj1 Ha)) as (_ & _ & ->).
  unfold OAES_RKEY_LEN, OAES_COL_LEN. rewrite add_key_zip; [|done|lia]. replace (i * 4 * 4)%nat with (i * 16)%nat by lia.
  unfold aes_round. pose proof (sub_is_block _ Hc) as Hs'. destruct (shift_block _ Hs') as (_ & Hr & _). destruct (mix_block _ Hr) as [_ Hm].
  destruct (add_round_key_block _ _ Hm Hkey) as [_ ->]. by apply unmix_block.
Qed.

(** ** The key schedule *)

(** A loop that writes [n] cells from cells before them. *)
Lemma fill_loop (f : Z -> nat -> Z) (e : bytes) o p n : (p + n <= o)%nat -> (o + n <= length e)%nat ->
  foldl (fun e j => <[(o + j)%nat := f (e !!! (p + j)%nat) j]> e) e (seq 0 n) =
  take o e ++ ((fun j => f (e !!! (p + j)%nat) j) <$> seq 0 n) ++ drop (o + n) e.
Proof.
  induction n as [|n IH]; intros Hp Hl.
  { cbn [seq foldl fmap list_fmap app]. by rewrite Nat.add_0_r, take_drop. }
  rewrite seq_S, foldl_app, IH by lia. cbn [foldl Nat.add]. set (L := (fun j => f (e !!! (p + j)%nat) j) <$> seq 0 n).
  assert (Lo : length (take o e) = o) by (rewrite length_take; lia).
  assert (LL : length L = n) by (subst L; by rewrite length_fmap, length_seq).
  rewrite lookup_total_app_l by lia. rewrite lookup_total_take_lt by lia.
  rewrite fmap_app. fold L. cbn [fmap list_fmap].
  rewrite (drop_lookup_total e (o + n)) by lia. rewrite insert_app_r_alt by lia.
  replace (o + n - length (take o e))%nat with (length L + 0)%nat by lia. rewrite insert_app_r. cbn [insert list_insert].
  rewrite <- (app_assoc L). cbn [app]. by replace (o + S n)%nat with (S (o + n)) by lia.
Qed.

Lemma mjoin_word (ws : list bytes) z j : Forall (fun w => length w = 4%nat) ws -> (j < length ws)%nat ->
  take 4 (drop (j * 4) (mjoin ws ++ z)) = ws !!! j.
Proof.
  intros Hws. revert j. induction Hws as [|w ws Hw Hws IH]; intros j Hj; [cbn in Hj; lia|].
  rewrite mjoin_cons. destruct j as [|j].
  - cbn [Nat.mul]. rewrite drop_0, <- app_assoc. by rewrite take_app_length'.
  - rewrite <- app_assoc. change (S j * 4)%nat with (4 + j * 4)%nat. rewrite <- drop_drop, drop_app_length' by done.
    rewrite IH by (cbn in Hj; lia). done.
Qed.

Lemma length_mjoin_words (ws : list bytes) : Forall (fun w => length w = 4%nat) ws -> length (mjoin ws) = (4 * length ws)%nat.
Proof. induction 1 as [|w ws Hw Hws IH]; [done|]. rewrite mjoin_cons, length_app, IH, Hw. cbn [length]. lia. Qed.

Lemma gf_8_check : forallb (fun i => (oaes_gf_8 !!! i) =? gpow 2 i) (seq 0 10) = true.
Proof. vm_compute. reflexivity. Qed.

Lemma gf_8_ok i : (i < 10)%nat -> oaes_gf_8 !!! i = gpow 2 i /\ is_u8 (oaes_gf_8 !!! i).
Proof.
  intros Hi. pose proof gf_8_check as H. rewrite forallb_forall in H. split.
  - apply Z.eqb_eq, H, list_elem_of_In, elem_of_seq. lia.
  - do 10 (destruct i as [|i]; [by split|]). lia.
Qed.

(** The word that is added to the one a key length back. *)
Definition key_temp (nk : nat) (temp : bytes) (i : nat) : bytes :=
  if (i mod nk =? 0)%nat then zip_with Z.lxor (SubBytes (RotWord temp)) (Rcon (i / nk))
  else if (6 <? nk)%nat && (i mod nk =? 4)%nat then SubBytes temp
  else temp.

Definition code_temp (base : nat) (temp : bytes) (i : nat) : bytes :=
  if (i mod base =? 0)%nat then
    let temp := oaes_sub_byte <$> oaes_word_rot_left temp in
    <[0%nat := (temp !!! 0%nat) .^ (oaes_gf_8 !!! (i / base - 1)%nat)]> temp
  else if (6 <? base)%nat && (4 =? i mod base)%nat then oaes_sub_byte <$> temp
  else temp.

Lemma code_temp_ok nk temp i : is_bytes_n 4 temp -> (0 < nk)%nat -> (nk <= i)%nat -> (i / nk <= 10)%nat ->
  code_temp nk temp i = key_temp nk temp i /\ is_bytes_n 4 (key_temp nk temp i).
Proof.
  intros Ht Hnk Hi Hq. assert (Hq1 : (1 <= i / nk)%nat) by (apply Nat.div_le_lower_bound; lia).
  destruct (four_bytes _ Ht) as (a & b & c & d & -> & Ha & Hb & Hc & Hd).
  unfold code_temp, key_temp. rewrite (Nat.eqb_sym 4).
  destruct (i mod nk =? 0)%nat; [|destruct ((6 <? nk)%nat && (i mod nk =? 4)%nat); [|done]].
  - change (oaes_word_rot_left [a; b; c; d]) with [b; c; d; a]. change (RotWord [a; b; c; d]) with [b; c; d; a].
    destruct (sub_block [b; c; d; a]) as (-> & HB & _); [by repeat constructor; apply Ha || apply Hb || apply Hc || apply Hd|].
    destruct (gf_8_ok (i / nk - 1) ltac:(lia)) as [E8 B8]. unfold Rcon. rewrite <- E8. unfold SubBytes in *.
    cbn [fmap list_fmap lookup_total list_lookup_total insert list_insert zip_with] in *. rewrite !Z.lxor_0_r. split; [done|].
    split; [|done]. unfold is_bytes in *. rewrite !list.Forall_cons in HB |- *. destruct HB as (? & ? & ? & ? & ?).
    split_and!; try done. by apply (lxor_word 8).
  - destruct (sub_block [a; b; c; d] (proj1 Ht)) as (-> & HB & _). done.
Qed.

Abbreviation is_words := (Forall (is_bytes_n 4)).

Lemma words_length ws : is_words ws -> Forall (fun w => length w = 4%nat) ws.
Proof. intros H. refine (list.Forall_impl _ _ _ H _). by intros w [_ ?]. Qed.

Lemma expand_step_ok nk ws z i : is_words ws -> length ws = i -> (0 < nk <= i)%nat -> (i / nk <= 10)%nat -> (4 <= length z)%nat ->
  expand_step nk (mjoin ws ++ z) i = mjoin (next_word nk ws i) ++ drop 4 z /\
  is_words (next_word nk ws i) /\ length (next_word nk ws i) = S i.
Proof.
  intros Hws Hi Hnk Hq Hz. pose proof (words_length ws Hws) as Hl. pose proof (length_mjoin_words ws Hl) as Lm.
  assert (W : forall j, (j < i)%nat -> is_bytes_n 4 (ws !!! j)) by (intros j Hj; apply (Forall_lookup_total_1 _ _ _ Hws); lia).
  destruct (code_temp_ok nk (ws !!! (i - 1)%nat) i (W (i - 1)%nat ltac:(lia)) ltac:(lia) ltac:(lia) Hq) as [Et Bt].
  change (next_word nk ws i) with (ws ++ [zip_with Z.lxor (ws !!! (i - nk)%nat) (key_temp nk (ws !!! (i - 1)%nat) i)]).
  assert (Bw : is_bytes_n 4 (zip_with Z.lxor (ws !!! (i - nk)%nat) (key_temp nk (ws !!! (i - 1)%nat) i))).
  { destruct (W (i - nk)%nat ltac:(lia)) as [B L], Bt as [B' L']. split; [by apply zip_lxor_bytes|rewrite length_zip_with; lia]. }
  split_and!.
  - unfold expand_step, OAES_COL_LEN, OAES_RKEY_LEN. cbv zeta. fold (code_temp nk (take 4 (drop ((i - 1) * 4) (mjoin ws ++ z))) i).
    rewrite (mjoin_word ws z (i - 1)) by (done || lia). rewrite Et.
    rewrite (fill_loop (fun x j => x .^ (key_temp nk (ws !!! (i - 1)%nat) i !!! j))) by (rewrite ?length_app; lia).
    rewrite mjoin_app, mjoin_cons, <- !app_assoc. f_equal; [by rewrite take_app_length' by lia|]. f_equal.
    + pose proof (take_drop_seq (mjoin ws ++ z) ((i - nk) * 4) 4 ltac:(rewrite length_app; lia)) as E.
      rewrite mjoin_word in E by (done || lia). rewrite E.
      destruct (four_bytes _ Bt) as (a & b & c & d & Ek & _). rewrite Ek. reflexivity.
    + change (mjoin []) with ([] : bytes). cbn [app]. rewrite <- drop_drop. by rewrite drop_app_length' by lia.
  - apply Forall_app. split; [done|]. by repeat constructor; apply Bw.
  - rewrite length_app. cbn. lia.
Qed.

Lemma expand_loop_ok nk n ws z : is_words ws -> (0 < nk <= length ws)%nat -> ((length ws + n - 1) / nk <= 10)%nat -> (length z = 4 * n)%nat ->
  foldl (expand_step nk) (mjoin ws ++ z) (seq (length ws) n) = mjoin (foldl (next_word nk) ws (seq (length ws) n)) /\
  is_words (foldl (next_word nk) ws (seq (length ws) n)) /\ length (foldl (next_word nk) ws (seq (length ws) n)) = (length ws + n)%nat.
Proof.
  revert ws z. induction n as [|n IH]; intros ws z Hws Hnk Hq Hz.
  - cbn [seq foldl]. destruct z; [|discriminate]. rewrite app_nil_r. split_and!; [done|done|lia].
  - cbn [seq foldl]. destruct (expand_step_ok nk ws z (length ws) Hws eq_refl Hnk) as (E & W & L); [|lia|].
    { etransitivity; [|exact Hq]. apply Nat.Div0.div_le_mono. lia. }
    rewrite E. rewrite <- L. destruct (IH (next_word nk ws (length ws)) (drop 4 z)) as (E' & W' & L'); [done|lia| |rewrite length_drop; lia|].
    + rewrite L. replace (S (length ws) + n - 1)%nat with (length ws + S n - 1)%nat by lia. done.
    + split_and!; [done|done|]. rewrite L', L. lia.
Qed.

(** The words of a key. *)
Lemma key_words nk k : is_bytes_n (4 * nk) k -> let ws := (fun i => take 4 (drop (4 * i) k)) <$> seq 0 nk in
  is_words ws /\ length ws = nk /\ mjoin ws = k.
Proof.
  intros Hk ws. subst ws. revert k Hk. induction nk as [|nk IH]; intros k [Hb Hl].
  - split_and!; [constructor|done|]. by destruct k.
  - rewrite <- cons_seq, <- fmap_S_seq. cbn [fmap list_fmap]. rewrite <- list_fmap_compose.
    assert (E : (fun i => take 4 (drop (4 * i) k)) ∘ S <$> seq 0 nk = (fun i => take 4 (drop (4 * i) (drop 4 k))) <$> seq 0 nk).
    { apply list_fmap_ext. intros i x _. cbn [compose]. rewrite drop_drop. do 2 f_equal. lia. }
    change (list_fmap nat (list Z) ((fun i => take 4 (drop (4 * i) k)) ∘ S) (seq 0 nk)) with
      ((fun i => take 4 (drop (4 * i) k)) ∘ S <$> seq 0 nk).
    rewrite E. destruct (IH (drop 4 k)) as (W & L & J); [split; [by apply Forall_drop|rewrite length_drop; lia]|].
    split_and!.
    + constructor; [|done]. rewrite Nat.mul_0_r, drop_0. split; [by apply Forall_take|rewrite length_take; lia].
    + cbn [length]. by rewrite L.
    + rewrite mjoin_cons, J, Nat.mul_0_r, drop_0, take_drop. done.
Qed.

Definition is_nk (nk : nat) : Prop := nk = 4%nat \/ nk = 6%nat \/ nk = 8%nat.

Lemma key_expansion_words nk k : is_nk nk -> is_bytes_n (4 * nk) k ->
  is_words (KeyExpansion nk k) /\ length (KeyExpansion nk k) = (4 * (nk + 7))%nat /\
  foldl (expand_step nk) (memcpy (replicate (16 * (nk + 7)) 0) 0 k) (seq nk (4 * (nk + 7) - nk)) = mjoin (KeyExpansion nk k).
Proof.
  intros Hnk Hk. destruct (key_words nk k Hk) as (W & L & J). unfold KeyExpansion. set (ws := _ <$> seq 0 nk) in *.
  destruct (expand_loop_ok nk (4 * (nk + 7) - nk) ws (replicate (4 * (4 * (nk + 7) - nk)) 0) W) as (E & W' & L').
  - destruct Hnk as [-> | [-> | ->]]; lia.
  - rewrite L. destruct Hnk as [-> | [-> | ->]]; cbn; lia.
  - by rewrite length_replicate.
  - rewrite L in E, W', L'. split_and!; [done|rewrite L'; lia|]. rewrite <- E. f_equal. unfold memcpy.
    rewrite take_0, J, (proj2 Hk). cbn [app Nat.add]. f_equal. rewrite drop_replicate. f_equal. lia.
Qed.

Lemma mjoin_drop m (ws : list bytes) : Forall (fun w => length w = 4%nat) ws -> drop (4 * m) (mjoin ws) = mjoin (drop m ws).
Proof.
  revert ws. induction m as [|m IH]; intros ws H; [done|]. destruct H as [|w ws Hw H]; [done|].
  rewrite mjoin_cons. replace (4 * S m)%nat with (4 + 4 * m)%nat by lia. rewrite <- drop_drop, drop_app_length' by done. by apply IH.
Qed.

Lemma mjoin_take m (ws : list bytes) : Forall (fun w => length w = 4%nat) ws -> take (4 * m) (mjoin ws) = mjoin (take m ws).
Proof.
  revert ws. induction m as [|m IH]; intros ws H; [done|]. destruct H as [|w ws Hw H]; [done|].
  cbn [take]. rewrite !mjoin_cons. replace (4 * S m)%nat with (length w + 4 * m)%nat by lia. by rewrite take_app_add, IH.
Qed.

Lemma round_key_bytes ws i : Forall (fun w => length w = 4%nat) ws -> take 16 (drop (i * 16) (mjoin ws)) = round_key ws i.
Proof.
  intros H. unfold round_key. replace (i * 16)%nat with (4 * (4 * i))%nat by lia. rewrite mjoin_drop by done.
  apply (mjoin_take 4). by apply Forall_drop.
Qed.

Lemma is_bytes_mjoin ws : is_words ws -> is_bytes (mjoin ws).
Proof. induction 1 as [|w ws [Hw _] H IH]; [constructor|]. rewrite mjoin_cons. by apply Forall_app. Qed.

(** ** Encryption and decryption of a block *)

Section Block.
Context (e : bytes) (num : nat) (He : is_bytes e) (Hlen : length e = (num * 16)%nat) (Hnum : (2 <= num)%nat).

Let rk (i : nat) : bytes := take 16 (drop (i * 16) e).

Lemma rk_block i : (i < num)%nat -> is_block (rk i).
Proof using He Hlen Hnum. intros Hi. split; [by apply Forall_take, Forall_drop|]. unfold rk. rewrite length_take, length_drop. lia. Qed.

Definition rounds (b : bytes) (l : list nat) : bytes := foldl (fun s i => aes_round s (rk i)) b l.

Lemma rounds_ok b l : is_block b -> Forall (fun i => i < num)%nat l ->
  foldl (encrypt_round e) b l = rounds b l /\ is_block (rounds b l).
Proof using He Hlen Hnum.
  intros Hb Hl. revert b Hb. induction Hl as [|i l Hi Hl IH]; intros b Hb; [done|]. cbn [rounds foldl].
  rewrite encrypt_round_ok by (done || lia). apply IH. by apply aes_round_block; [|apply rk_block].
Qed.

Lemma unrounds_ok b l : is_block b -> Forall (fun i => i < num)%nat l ->
  foldl (decrypt_round e) (ShiftRows (SubBytes (rounds b l))) (reverse l) = ShiftRows (SubBytes b).
Proof using He Hlen Hnum.
  intros Hb. induction l as [|i l IH] using rev_ind; intros Hl; [done|]. apply Forall_app in Hl as [Hl Hi].
  apply Forall_cons_1 in Hi as [Hi _]. rewrite reverse_app, reverse_singleton. cbn [app foldl].
  assert (E : rounds b (l ++ [i]) = aes_round (rounds b l) (rk i)) by (unfold rounds; by rewrite foldl_app).
  pose proof (decrypt_round_ok e (rounds b l) i (proj2 (rounds_ok b l Hb Hl)) He ltac:(lia)) as D. fold (rk i) in D.
  rewrite E, D. by apply IH.
Qed.

Definition encrypted (b : bytes) : bytes :=
  AddRoundKey (ShiftRows (SubBytes (rounds (AddRoundKey b (rk 0)) (seq 1 (num - 2))))) (rk (num - 1)).

Lemma seq_rounds : Forall (fun i => i < num)%nat (seq 1 (num - 2)).
Proof using He Hlen Hnum. apply list.Forall_forall. intros i Hi%elem_of_seq. lia. Qed.

Lemma encrypted_block b : is_block b -> is_block (encrypted b).
Proof using He Hlen Hnum.
  intros Hb. apply add_round_key_block; [|apply rk_block; lia]. apply shift_block, sub_is_block, rounds_ok, seq_rounds.
  apply add_round_key_block; [done|apply rk_block; lia].
Qed.

Lemma encrypt_block_value ctx k b : key ctx = Some k -> exp_data k = e -> num_keys k = num -> is_block b ->
  oaes_encrypt_block (Some ctx) (Some b) 16 = (OAES_RET_SUCCESS, Some (encrypted b)).
Proof using He Hlen Hnum.
  intros Hk Ee En Hb. unfold oaes_encrypt_block. rewrite Hk, Ee, En. cbn [Nat.eqb OAES_BLOCK_SIZE negb].
  rewrite (add_key_zip b e 0) by (done || lia). change (take 16 (drop 0 e)) with (rk 0).
  destruct (add_round_key_block b (rk 0) Hb (rk_block 0 ltac:(lia))) as [H0 _].
  destruct (rounds_ok _ _ H0 seq_rounds) as [E HR]. rewrite E. destruct (sub_block _ (proj1 HR)) as (-> & _ & _).
  destruct (shift_block _ (sub_is_block _ HR)) as (-> & HS & _). unfold OAES_RKEY_LEN, OAES_COL_LEN.
  rewrite add_key_zip; [|done|lia]. replace ((num - 1) * 4 * 4)%nat with ((num - 1) * 16)%nat by lia. done.
Qed.

Lemma decrypt_block_value ctx k b : key ctx = Some k -> exp_data k = e -> num_keys k = num -> is_block b ->
  oaes_decrypt_block (Some ctx) (Some (encrypted b)) 16 = (OAES_RET_SUCCESS, Some b).
Proof using He Hlen Hnum.
  intros Hk Ee En Hb. unfold oaes_decrypt_block. rewrite Hk, Ee, En. cbn [Nat.eqb OAES_BLOCK_SIZE negb].
  unfold OAES_RKEY_LEN, OAES_COL_LEN. rewrite (add_key_zip (encrypted b)); [|by apply encrypted_block|lia].
  replace ((num - 1) * 4 * 4)%nat with ((num - 1) * 16)%nat by lia. fold (rk (num - 1)).
  destruct (add_round_key_block b (rk 0) Hb (rk_block 0 ltac:(lia))) as [H0 H00].
  destruct (rounds_ok _ _ H0 seq_rounds) as [_ HR]. destruct (shift_block _ (sub_is_block _ HR)) as (_ & HS & _).
  unfold encrypted. destruct (add_round_key_block _ (rk (num - 1)) HS (rk_block (num - 1) ltac:(lia))) as [_ ->].
  rewrite unrounds_ok by (done || apply seq_rounds).
  destruct (shift_block _ (sub_is_block _ H0)) as (_ & _ & -> & _). destruct (sub_block _ (proj1 H0)) as (_ & _ & ->).
  rewrite add_key_zip by (done || lia). change (take 16 (drop 0 e)) with (rk 0). by rewrite H00.
Qed.
End Block.
