(* ===== verification/Aesb.v ===== *)
(** * AES rounds by tables: src/src/crypto/aesb.c

    The rounds of the slow hash.  A block is four 32-bit words, read and written
    in the byte order of a little-endian machine; each output word is the sum of
    four table entries and a key word.  The theorems show that the rounds are
    those of FIPS 197. *)

From S2P Require Import Prelude Oaes AesSpec.

Definition WPOLY : Z := 0x011b.
Definition N_COLS : nat := 4.

Definition word_in (x : bytes) (c : nat) : Z := le (take 4 (drop (4 * c) x)).
Definition word_out (v : Z) : bytes := le_bytes 4 v.
Definition state_in (x : bytes) : list Z := word_in x <$> [0; 1; 2; 3]%nat.
Definition state_out (x : list Z) : bytes := mjoin (word_out <$> x).

Definition to_byte (x : Z) : Z := x .& 0xff.
Definition bval (x n : Z) : Z := to_byte (x .>> (8 * n)).

(** The word that holds row [r] of column [c] after ShiftRows. *)
Definition fwd_var (x : list Z) (r c : nat) : Z :=
  x !!! (([[0; 1; 2; 3]; [1; 2; 3; 0]; [2; 3; 0; 1]; [3; 0; 1; 2]] !!! r) !!! c)%nat.

Definition sb_data (w : Z -> Z) : list Z := w <$>
  [0x63; 0x7c; 0x77; 0x7b; 0xf2; 0x6b; 0x6f; 0xc5; 0x30; 0x01; 0x67; 0x2b; 0xfe; 0xd7; 0xab; 0x76;
   0xca; 0x82; 0xc9; 0x7d; 0xfa; 0x59; 0x47; 0xf0; 0xad; 0xd4; 0xa2; 0xaf; 0x9c; 0xa4; 0x72; 0xc0;
   0xb7; 0xfd; 0x93; 0x26; 0x36; 0x3f; 0xf7; 0xcc; 0x34; 0xa5; 0xe5; 0xf1; 0x71; 0xd8; 0x31; 0x15;
   0x04; 0xc7; 0x23; 0xc3; 0x18; 0x96; 0x05; 0x9a; 0x07; 0x12; 0x80; 0xe2; 0xeb; 0x27; 0xb2; 0x75;
   0x09; 0x83; 0x2c; 0x1a; 0x1b; 0x6e; 0x5a; 0xa0; 0x52; 0x3b; 0xd6; 0xb3; 0x29; 0xe3; 0x2f; 0x84;
   0x53; 0xd1; 0x00; 0xed; 0x20; 0xfc; 0xb1; 0x5b; 0x6a; 0xcb; 0xbe; 0x39; 0x4a; 0x4c; 0x58; 0xcf;
   0xd0; 0xef; 0xaa; 0xfb; 0x43; 0x4d; 0x33; 0x85; 0x45; 0xf9; 0x02; 0x7f; 0x50; 0x3c; 0x9f; 0xa8;
   0x51; 0xa3; 0x40; 0x8f; 0x92; 0x9d; 0x38; 0xf5; 0xbc; 0xb6; 0xda; 0x21; 0x10; 0xff; 0xf3; 0xd2;
   0xcd; 0x0c; 0x13; 0xec; 0x5f; 0x97; 0x44; 0x17; 0xc4; 0xa7; 0x7e; 0x3d; 0x64; 0x5d; 0x19; 0x73;
   0x60; 0x81; 0x4f; 0xdc; 0x22; 0x2a; 0x90; 0x88; 0x46; 0xee; 0xb8; 0x14; 0xde; 0x5e; 0x0b; 0xdb;
   0xe0; 0x32; 0x3a; 0x0a; 0x49; 0x06; 0x24; 0x5c; 0xc2; 0xd3; 0xac; 0x62; 0x91; 0x95; 0xe4; 0x79;
   0xe7; 0xc8; 0x37; 0x6d; 0x8d; 0xd5; 0x4e; 0xa9; 0x6c; 0x56; 0xf4; 0xea; 0x65; 0x7a; 0xae; 0x08;
   0xba; 0x78; 0x25; 0x2e; 0x1c; 0xa6; 0xb4; 0xc6; 0xe8; 0xdd; 0x74; 0x1f; 0x4b; 0xbd; 0x8b; 0x8a;
   0x70; 0x3e; 0xb5; 0x66; 0x48; 0x03; 0xf6; 0x0e; 0x61; 0x35; 0x57; 0xb9; 0x86; 0xc1; 0x1d; 0x9e;
   0xe1; 0xf8; 0x98; 0x11; 0x69; 0xd9; 0x8e; 0x94; 0x9b; 0x1e; 0x87; 0xe9; 0xce; 0x55; 0x28; 0xdf;
   0x8c; 0xa1; 0x89; 0x0d; 0xbf; 0xe6; 0x42; 0x68; 0x41; 0x99; 0x2d; 0x0f; 0xb0; 0x54; 0xbb; 0x16].

Definition bytes2word (b0 b1 b2 b3 : Z) : Z := (b3 .<< 24) .| (b2 .<< 16) .| (b1 .<< 8) .| b0.

Definition f2 (x : Z) : Z := (x .<< 1) .^ (((x .>> 7) .& 1) * WPOLY).
Definition f3 (x : Z) : Z := f2 x .^ x.

Definition u0 (p : Z) : Z := bytes2word (f2 p) p p (f3 p).
Definition u1 (p : Z) : Z := bytes2word (f3 p) (f2 p) p p.
Definition u2 (p : Z) : Z := bytes2word p (f3 p) (f2 p) p.
Definition u3 (p : Z) : Z := bytes2word p p (f3 p) (f2 p).

Definition t_fn : list (list Z) := [sb_data u0; sb_data u1; sb_data u2; sb_data u3].

Definition four_tables (x : list Z) (c : nat) : Z :=
  let entry (r : nat) := (t_fn !!! r) !!! Z.to_nat (bval (fwd_var x r c) (Z.of_nat r)) in
  entry 0%nat .^ entry 1%nat .^ entry 2%nat .^ entry 3%nat.

Definition fwd_rnd (x : list Z) (k : bytes) (c : nat) : Z := word_in k c .^ four_tables x c.

(** [round(fwd_rnd, y, x, k)] *)
Definition round (x : list Z) (k : bytes) : list Z := fwd_rnd x k <$> [0; 1; 2; 3]%nat.

Definition aesb_single_round (in_ expandedKey : bytes) : bytes := state_out (round (state_in in_) expandedKey).

(** [kp + i * N_COLS] words are [16 i] bytes. *)
Definition aesb_pseudo_round (in_ expandedKey : bytes) : bytes :=
  let kp i := drop (4 * (i * N_COLS)) expandedKey in
  state_in in_
  |> (fun x => round x (kp 0%nat))
  |> (fun x => round x (kp 1%nat))
  |> (fun x => round x (kp 2%nat))
  |> (fun x => round x (kp 3%nat))
  |> (fun x => round x (kp 4%nat))
  |> (fun x => round x (kp 5%nat))
  |> (fun x => round x (kp 6%nat))
  |> (fun x => round x (kp 7%nat))
  |> (fun x => round x (kp 8%nat))
  |> (fun x => round x (kp 9%nat))
  |> state_out.

(** ** Words and bytes *)

Lemma le_lxor xs ys : is_bytes xs -> is_bytes ys -> length xs = length ys -> le xs .^ le ys = le (zip_with Z.lxor xs ys).
Proof.
  intros Hx Hy Hl. pose proof (le_bytes_lxor (length xs) (le xs) (le ys)) as E.
  rewrite (le_bytes_le xs Hx) in E. rewrite Hl in E at 2. rewrite (le_bytes_le ys Hy) in E. rewrite <- E, le_le_bytes.
  symmetry. apply Z.mod_small. pose proof (le_bound xs Hx) as Bx. pose proof (le_bound ys Hy) as By. rewrite <- Hl in By.
  change 256 with (2 ^ 8) in *. rewrite <- Z.pow_mul_r in * by lia.
  exact (lxor_word (8 * Z.of_nat (length xs)) _ _ ltac:(lia) Bx By).
Qed.

Lemma bytes2word_le a b c d : is_u8 a -> is_u8 b -> is_u8 c -> is_u8 d -> bytes2word a b c d = le [a; b; c; d].
Proof.
  intros Ha Hb Hc Hd. unfold bytes2word, is_word in *.
  replace (d .<< 24 .| c .<< 16 .| b .<< 8 .| a) with (a .| (b .| (c .| d .<< 8) .<< 8) .<< 8).
  - rewrite !lor_shiftl_add by done. cbn [le]. lia.
  - rewrite !Z.shiftl_lor, !Z.shiftl_shiftl by lia. change (8 + (8 + 8)) with 24. change (8 + 8) with 16.
    apply Z.bits_inj'. intros i _. rewrite !Z.lor_spec.
    by destruct (Z.testbit a i), (Z.testbit (b .<< 8) i), (Z.testbit (c .<< 16) i), (Z.testbit (d .<< 24) i).
Qed.

(** ** The tables *)

Lemma f_check : forallb (fun b => (f2 b =? gmul b 2) && (f3 b =? gmul b 3)) all_bytes = true.
Proof. vm_compute. reflexivity. Qed.

Lemma f_ok b : is_u8 b -> f2 b = gmul b 2 /\ f3 b = gmul b 3.
Proof.
  intros Hb. pose proof (byte_all _ f_check b Hb) as H. cbv beta in H. by rewrite andb_true_iff, !Z.eqb_eq in H.
Qed.

Lemma sb_data_check : forallb (fun b => (sb_data (fun x => x) !!! Z.to_nat b) =? oaes_sub_byte b) all_bytes = true.
Proof. vm_compute. reflexivity. Qed.

Lemma sb_data_ok w b : is_u8 b -> sb_data w !!! Z.to_nat b = w (sbox b).
Proof.
  intros Hb. pose proof (byte_all _ sb_data_check b Hb) as H. cbv beta in H. apply Z.eqb_eq in H.
  rewrite <- (proj1 (sub_byte_ok b Hb)), <- H. unfold sb_data. rewrite list_fmap_id.
  refine (list_lookup_total_fmap w _ _ _). cbn [length]. destruct Hb as [? Hb]. change (2 ^ 8) with 256 in Hb. lia.
Qed.

#[local] Opaque gmul sbox.

(** A table entry is a column of the product by the matrix of MixColumns. *)
Definition mix_entry (r : nat) (x : Z) : bytes := (fun row => gmul x (row !!! r)) <$> mix_matrix.

Lemma t_fn_ok r b : (r < 4)%nat -> is_u8 b -> (t_fn !!! r) !!! Z.to_nat b = le (mix_entry r (sbox b)).
Proof.
  intros Hr Hb. destruct (sub_byte_ok b Hb) as (E & _ & B & _). rewrite E in B.
  destruct (f_ok _ B) as [E2 E3]. assert (G1 : gmul (sbox b) 1 = sbox b) by exact (eq_sym (proj1 (gf_mul_ok _ 1 B ltac:(coeff)))).
  assert (B2 : is_u8 (gmul (sbox b) 2)) by exact (gmul_u8 _ 2 B ltac:(coeff)).
  assert (B3 : is_u8 (gmul (sbox b) 3)) by exact (gmul_u8 _ 3 B ltac:(coeff)).
  do 4 (destruct r as [|r]; [cbn [t_fn lookup_total list_lookup_total]; rewrite sb_data_ok by done;
    unfold u0, u1, u2, u3, mix_entry; cbn [mix_matrix fmap list_fmap lookup_total list_lookup_total];
    rewrite E2, E3, G1; by apply bytes2word_le|]). lia.
Qed.

(** ** Rounds *)

Lemma bval_word a b c d : is_u8 a -> is_u8 b -> is_u8 c -> is_u8 d ->
  bval (le [a; b; c; d]) 0 = a /\ bval (le [a; b; c; d]) 1 = b /\ bval (le [a; b; c; d]) 2 = c /\ bval (le [a; b; c; d]) 3 = d.
Proof.
  intros Ha Hb Hc Hd. assert (HB : is_bytes [a; b; c; d]) by (unfold is_bytes; by rewrite !list.Forall_cons).
  pose proof (le_bytes_le [a; b; c; d] HB) as E. cbn [length le_bytes] in E.
  unfold bval, to_byte. change 0xff with (2 ^ 8 - 1). rewrite !land_mask, !Z.shiftr_div_pow2 by lia.
  rewrite !Z.div_div in E by lia. set (x := le [a; b; c; d]) in *. injection E as E0 E1 E2 E3. rewrite Z.div_1_r. done.
Qed.

(** The sum of four entries and a key column. *)
Lemma entries_sum k0 k1 k2 k3 A B C D : is_u8 k0 -> is_u8 k1 -> is_u8 k2 -> is_u8 k3 -> is_u8 A -> is_u8 B -> is_u8 C -> is_u8 D ->
  le [k0; k1; k2; k3] .^ (le (mix_entry 0 A) .^ le (mix_entry 1 B) .^ le (mix_entry 2 C) .^ le (mix_entry 3 D)) =
  le (zip_with Z.lxor (mat_col mix_matrix [A; B; C; D]) [k0; k1; k2; k3]).
Proof.
  intros K0 K1 K2 K3 HA HB HC HD.
  assert (M : forall r x, (r < 4)%nat -> is_u8 x -> is_bytes (mix_entry r x)).
  { intros r x Hr Hx. do 4 (destruct r as [|r]; [repeat constructor; (apply gmul_u8; [done|coeff])|]). lia. }
  assert (HK : is_bytes [k0; k1; k2; k3]) by (unfold is_bytes; by rewrite !list.Forall_cons).
  rewrite !le_lxor; try done; repeat apply zip_lxor_bytes; try (apply M; [lia|done]); try done.
  f_equal. unfold mix_entry, mat_col. cbn [mix_matrix fmap list_fmap zip_with foldr lookup_total list_lookup_total].
  rewrite !Z.lxor_0_r, (Z.lxor_comm k0), (Z.lxor_comm k1), (Z.lxor_comm k2), (Z.lxor_comm k3). by rewrite !Z.lxor_assoc.
Qed.

Lemma aesb_column s k c : is_block s -> is_block k -> (c < 4)%nat ->
  fwd_rnd (state_in s) k c = word_in (aes_round s k) c.
Proof.
  intros [Hs Ls] [Hk Lk] Hc. apply sixteen in Ls as (s0&s1&s2&s3&s4&s5&s6&s7&s8&s9&s10&s11&s12&s13&s14&s15&->).
  apply sixteen in Lk as (k0&k1&k2&k3&k4&k5&k6&k7&k8&k9&k10&k11&k12&k13&k14&k15&->).
  unfold is_bytes in Hs, Hk. rewrite !list.Forall_cons in Hs, Hk. destruct_and!.
  assert (SB : forall b, is_u8 b -> is_u8 (sbox b)) by (intros b Hb; rewrite <- (proj1 (sub_byte_ok b Hb)); by apply sub_byte_ok).
  destruct (bval_word s0 s1 s2 s3) as (B0 & B1 & B2 & B3); [done..|]. destruct (bval_word s4 s5 s6 s7) as (B4 & B5 & B6 & B7); [done..|].
  destruct (bval_word s8 s9 s10 s11) as (B8 & B9 & B10 & B11); [done..|]. destruct (bval_word s12 s13 s14 s15) as (B12 & B13 & B14 & B15); [done..|].
  unfold fwd_rnd, four_tables. unfold state_in, word_in. cbn [fmap list_fmap Nat.mul Nat.add drop take].
  do 4 (destruct c as [|c]; [unfold fwd_var; cbn [lookup_total list_lookup_total Nat.mul Nat.add drop take];
    change (Z.of_nat 0) with 0; change (Z.of_nat 1) with 1; change (Z.of_nat 2) with 2; change (Z.of_nat 3) with 3;
    rewrite ?B0, ?B1, ?B2, ?B3, ?B4, ?B5, ?B6, ?B7, ?B8, ?B9, ?B10, ?B11, ?B12, ?B13, ?B14, ?B15;
    rewrite !t_fn_ok by (done || lia); apply entries_sum; auto|]). lia.
Qed.

Lemma word_in_take k c : (c < 4)%nat -> word_in (take 16 k) c = word_in k c.
Proof.
  intros Hc. unfold word_in. f_equal.
  replace 16%nat with (4 * c + (16 - 4 * c))%nat by lia. rewrite <- take_drop_commute, take_take. f_equal. lia.
Qed.

Lemma aesb_round s k : is_block s -> is_bytes k -> (16 <= length k)%nat ->
  round (state_in s) k = state_in (aes_round s (take 16 k)) /\ is_block (aes_round s (take 16 k)).
Proof.
  intros Hs Hk Hl. assert (Hb : is_block (take 16 k)) by (split; [by apply Forall_take|rewrite length_take; lia]).
  split; [|by apply aes_round_block]. unfold round. change (state_in ?x) with (word_in x <$> [0; 1; 2; 3]%nat).
  apply list_fmap_ext. intros i c Hi.
  assert (Hc : (c < 4)%nat) by (do 4 (destruct i as [|i]; [injection Hi as <-; lia|]); discriminate).
  rewrite <- aesb_column by done. unfold fwd_rnd. by rewrite word_in_take.
Qed.

Lemma state_out_in b : is_block b -> state_out (state_in b) = b.
Proof.
  intros Hb. rewrite (block_cols b Hb) at 2. unfold state_out, state_in, word_out, word_in.
  cbn [fmap list_fmap Nat.mul Nat.add]. rewrite !mjoin_cons, drop_0. change (mjoin []) with ([] : bytes). rewrite app_nil_r.
  assert (W : forall w, is_bytes_n 4 w -> le_bytes 4 (le w) = w) by (intros w [Hw <-]; by apply le_bytes_le).
  rewrite !W; [done|apply col_bytes; [done|lia]..|]. exact (is_bytes_take 16 4 b Hb ltac:(lia)).
Qed.

Lemma aesb_single_value s k : is_block s -> is_bytes k -> (16 <= length k)%nat -> aesb_single_round s k = aes_round s (take 16 k).
Proof.
  intros Hs Hk Hl. unfold aesb_single_round. destruct (aesb_round s k Hs Hk Hl) as [-> Hb]. by apply state_out_in.
Qed.

(** Rounds without the final key addition of AES: the loop of the slow hash. *)
Definition ten_rounds (s k : bytes) : bytes := foldl (fun s i => aes_round s (take 16 (drop (i * 16) k))) s (seq 0 10).

Lemma aesb_rounds s k l : is_block s -> is_bytes k -> Forall (fun i => (i * 16 + 16 <= length k)%nat) l ->
  foldl (fun x i => round x (drop (4 * (i * N_COLS)) k)) (state_in s) l =
  state_in (foldl (fun s i => aes_round s (take 16 (drop (i * 16) k))) s l) /\
  is_block (foldl (fun s i => aes_round s (take 16 (drop (i * 16) k))) s l).
Proof.
  intros Hs Hk Hl. revert s Hs. induction Hl as [|i l Hi Hl IH]; intros s Hs; [done|]. cbn [foldl].
  replace (4 * (i * N_COLS))%nat with (i * 16)%nat by (unfold N_COLS; lia).
  destruct (aesb_round s (drop (i * 16) k) Hs) as [-> Hb]; [by apply Forall_drop|rewrite length_drop; lia|]. by apply IH.
Qed.

Lemma aesb_pseudo_value s k : is_block s -> is_bytes k -> (160 <= length k)%nat ->
  aesb_pseudo_round s k = ten_rounds s k /\ is_block (ten_rounds s k).
Proof.
  intros Hs Hk Hl. destruct (aesb_rounds s k (seq 0 10) Hs Hk) as [E Hb].
  { apply list.Forall_forall. intros i Hi%elem_of_seq. lia. }
  split; [|done]. change (aesb_pseudo_round s k) with (state_out (foldl (fun x i => round x (drop (4 * (i * N_COLS)) k)) (state_in s) (seq 0 10))).
  rewrite E. by apply state_out_in.
Qed.
