(* ===== verification/OaesProofs.v ===== *)
(** * OpenAES: keys, messages and text

    Key import, the AES block functions against FIPS 197, and the round trip of
    [oaes_encrypt] and [oaes_decrypt] in both modes with padding.  The invariant
    of the two loops: the blocks already processed are in front of the untouched
    rest of the buffer. *)

From stdpp Require Import relations.
From S2P Require Import Prelude Oaes AesSpec Aesb.

(** ** Keys *)

(** The key structure after a successful import. *)
Definition expanded (nk : nat) (k : bytes) : oaes_key :=
  mkkey (4 * nk) k (16 * (nk + 7)) (mjoin (KeyExpansion nk k)) (nk + 7) nk.

Definition granted : allocs := mkallocs true true true.

Lemma key_expand_ok ctx k nk n0 e0 b0 : is_nk nk -> is_bytes_n (4 * nk) k ->
  key ctx = Some (mkkey (4 * nk) k n0 e0 b0 0) ->
  oaes_key_expand true ctx = (OAES_RET_SUCCESS, set_key ctx (Some (expanded nk k))).
Proof.
  intros Hnk Hk Ek. unfold oaes_key_expand. rewrite Ek. cbn [data_len data exp_data negb]. unfold expanded.
  destruct (key_expansion_words nk k Hnk Hk) as (_ & _ & E).
  unfold OAES_RKEY_LEN, OAES_ROUND_BASE, OAES_COL_LEN.
  replace (4 * nk / 4)%nat with nk by (rewrite Nat.mul_comm, Nat.div_mul by lia; done).
  rewrite take_ge by (rewrite (proj2 Hk); lia).
  replace ((nk + 7) * 4 * 4)%nat with (16 * (nk + 7))%nat by lia. replace ((nk + 7) * 4 - nk)%nat with (4 * (nk + 7) - nk)%nat by lia.
  by rewrite E.
Qed.

Lemma import_key_ok ctx b nk : is_nk nk -> is_bytes b -> (4 * nk <= length b)%nat ->
  import_key granted ctx b (4 * nk) = (OAES_RET_SUCCESS, Some (set_key ctx (Some (expanded nk (take (4 * nk) b))))).
Proof.
  intros Hnk Hb Hl. unfold import_key. cbn [granted mem_key mem_data negb].
  set (ctx' := if key ctx is Some _ then destroy_key ctx else ctx). unfold expand_or_destroy. cbn [mem_exp granted].
  rewrite (key_expand_ok _ (take (4 * nk) b) nk 0 [] 0 Hnk); [|split; [by apply Forall_take|rewrite length_take; lia]|done].
  cbn [rc_or]. rewrite decide_True by done. subst ctx'. unfold set_key, destroy_key. by destruct (key ctx).
Qed.

Lemma is_key_len_nk nk : is_nk nk -> is_key_len (Z.of_nat (4 * nk)) = true.
Proof. intros [-> | [-> | ->]]; done. Qed.

Lemma import_data_ok ctx k nk : is_nk nk -> is_bytes_n (4 * nk) k ->
  oaes_key_import_data granted (Some ctx) (Some k) (Z.of_nat (4 * nk)) =
  (OAES_RET_SUCCESS, Some (set_key ctx (Some (expanded nk k)))).
Proof.
  intros Hnk [Hb Hl]. unfold oaes_key_import_data. rewrite is_key_len_nk by done. cbn [negb].
  rewrite Nat2Z.id, import_key_ok by (done || lia). by rewrite take_ge by lia.
Qed.

Lemma expanded_bytes nk k : is_nk nk -> is_bytes_n (4 * nk) k ->
  is_bytes (exp_data (expanded nk k)) /\ length (exp_data (expanded nk k)) = ((nk + 7) * 16)%nat.
Proof.
  intros Hnk Hk. destruct (key_expansion_words nk k Hnk Hk) as (W & L & _). cbn [exp_data expanded].
  split; [by apply is_bytes_mjoin|]. rewrite length_mjoin_words by (by apply words_length). lia.
Qed.

(** A block encrypted with a key of [4 nk] bytes. *)
Definition aes (nk : nat) (k b : bytes) : bytes := Cipher (nk + 6) (KeyExpansion nk k) b.

Lemma encrypted_cipher nk k b : is_nk nk -> is_bytes_n (4 * nk) k ->
  encrypted (mjoin (KeyExpansion nk k)) (nk + 7) b = aes nk k b.
Proof.
  intros Hnk Hk. destruct (key_expansion_words nk k Hnk Hk) as (W & L & _). apply words_length in W.
  unfold encrypted, aes, Cipher, rounds. rewrite !round_key_bytes by done.
  replace (nk + 7 - 1)%nat with (nk + 6)%nat by lia. replace (nk + 7 - 2)%nat with (nk + 6 - 1)%nat by lia.
  do 3 f_equal. apply foldl_seq_ext. intros y i _. by rewrite round_key_bytes.
Qed.

Section Key.
Context (nk : nat) (k : bytes) (Hnk : is_nk nk) (Hk : is_bytes_n (4 * nk) k).

Lemma nk_pos : (4 <= nk <= 8)%nat.
Proof using Hnk. clear Hk. destruct Hnk as [-> | [-> | ->]]; lia. Qed.

Lemma aes_block b : is_block b -> is_block (aes nk k b).
Proof using Hnk Hk.
  intros Hb. rewrite <- encrypted_cipher by done. destruct (expanded_bytes nk k Hnk Hk).
  apply encrypted_block; [done|done|pose proof nk_pos; lia|done].
Qed.

Lemma encrypt_ok ctx b : key ctx = Some (expanded nk k) -> is_block b ->
  oaes_encrypt_block (Some ctx) (Some b) 16 = (OAES_RET_SUCCESS, Some (aes nk k b)).
Proof using Hnk Hk.
  intros Ek Hb. rewrite <- encrypted_cipher by done. destruct (expanded_bytes nk k Hnk Hk).
  by apply (encrypt_block_value _ (nk + 7) ltac:(done) ltac:(done) ltac:(pose proof nk_pos; lia) ctx (expanded nk k)).
Qed.

Lemma decrypt_ok ctx b : key ctx = Some (expanded nk k) -> is_block b ->
  oaes_decrypt_block (Some ctx) (Some (aes nk k b)) 16 = (OAES_RET_SUCCESS, Some b).
Proof using Hnk Hk.
  intros Ek Hb. rewrite <- encrypted_cipher by done. destruct (expanded_bytes nk k Hnk Hk).
  by apply (decrypt_block_value _ (nk + 7) ltac:(done) ltac:(done) ltac:(pose proof nk_pos; lia) ctx (expanded nk k)).
Qed.
End Key.

(** ** Buffers and padding *)

Lemma memcpy_app (P R b : bytes) n : n = length P -> memcpy (P ++ R) n b = P ++ b ++ drop (length b) R.
Proof.
  intros ->. unfold memcpy. rewrite take_app_length, <- drop_drop, drop_app_length. done.
Qed.

Lemma xor_block_zip b v : is_block b -> is_block v -> xor_block b v = zip_with Z.lxor b v /\ is_block (zip_with Z.lxor b v).
Proof.
  intros [Hb Lb] [Hv Lv]. split; [|split; [by apply zip_lxor_bytes|rewrite length_zip_with; lia]].
  apply sixteen in Lb as (?&?&?&?&?&?&?&?&?&?&?&?&?&?&?&?&->). by apply sixteen in Lv as (?&?&?&?&?&?&?&?&?&?&?&?&?&?&?&?&->).
Qed.

Lemma xor_block_twice b v : is_block b -> is_block v -> xor_block (zip_with Z.lxor b v) v = b.
Proof.
  intros Hb Hv. destruct (xor_block_zip b v Hb Hv) as [_ Hz]. destruct (xor_block_zip _ v Hz Hv) as [-> _].
  by apply add_round_key_block.
Qed.

Definition pad_of (n : nat) : nat := if (n mod 16 =? 0)%nat then 0 else 16 - n mod 16.
Definition pad_bytes (p : nat) : bytes := (fun j => u8 (Z.of_nat (j + 1))) <$> seq 0 p.
Definition padded (m : bytes) : bytes := m ++ pad_bytes (pad_of (length m)).
Definition block_at (m : bytes) (j : nat) : bytes := take 16 (drop (j * 16) m).

Lemma pad_blocks n : exists q, (n + pad_of n = q * 16)%nat.
Proof.
  unfold pad_of. pose proof (Nat.div_mod_eq n 16) as E. pose proof (Nat.mod_upper_bound n 16 ltac:(lia)).
  destruct (Nat.eqb_spec (n mod 16) 0); [exists (n / 16)%nat|exists (n / 16 + 1)%nat]; lia.
Qed.

Lemma length_pad_bytes p : length (pad_bytes p) = p.
Proof. unfold pad_bytes. by rewrite length_fmap, length_seq. Qed.

Lemma padded_bytes m : is_bytes m -> is_bytes_n (length m + pad_of (length m)) (padded m).
Proof.
  intros Hm. apply is_bytes_app; [done|]. split; [|apply length_pad_bytes]. apply Forall_fmap, list.Forall_forall. intros. by apply wrap_word.
Qed.

Lemma block_at_block m q j : is_bytes_n (q * 16) m -> (j < q)%nat -> is_block (block_at m j).
Proof.
  intros [Hb Hl] Hj. split; [by apply Forall_take, Forall_drop|]. unfold block_at. rewrite length_take, length_drop. nia.
Qed.

(** What the loop of [oaes_encrypt] assembles is a block of the padded message. *)
Lemma block_padded m T j : (j * 16 < length m)%nat ->
  let bs := Nat.min (length m - j * 16) 16 in
  take bs (drop (j * 16) (m ++ T)) ++ ((fun i => u8 (Z.of_nat (i + 1))) <$> seq 0 (16 - bs)) = block_at (padded m) j.
Proof.
  intros Hj bs. unfold block_at, padded. rewrite !drop_app_le by lia. rewrite take_app_le by (rewrite length_drop; lia).
  fold (pad_bytes (16 - bs)). destruct (Nat.le_gt_cases (j * 16 + 16) (length m)) as [H|H].
  - replace bs with 16%nat by lia. rewrite take_app_le by (rewrite length_drop; lia). cbn [Nat.sub pad_bytes]. by rewrite app_nil_r.
  - assert (E : (length m mod 16 = length m - j * 16)%nat).
    { replace (length m) with (length m - j * 16 + j * 16)%nat at 1 by lia. rewrite Nat.Div0.mod_add. apply Nat.mod_small. lia. }
    replace (16 - bs)%nat with (pad_of (length m)).
    + rewrite take_ge by (rewrite length_drop; lia). rewrite take_ge; [done|]. rewrite length_app, length_drop, length_pad_bytes.
      unfold pad_of. rewrite E. replace (length m - j * 16 =? 0)%nat with false by lia. lia.
    + unfold pad_of. rewrite E. replace (length m - j * 16 =? 0)%nat with false by lia. lia.
Qed.

(** ** The two loops *)

Section Message.
Context (nk : nat) (k : bytes) (Hnk : is_nk nk) (Hk : is_bytes_n (4 * nk) k).
Context (o : Z) (v0 : bytes) (Hv0 : is_block v0) (p : bytes) (q : nat) (Hp : is_bytes_n (q * 16) p).

Let cbc : bool := is_cbc o.

(** Cipher block [j] of the blocks of [p], and the block chained into it. *)
Fixpoint cblock (j : nat) : bytes :=
  let prev := match j with O => v0 | S i => cblock i end in
  aes nk k (if cbc then zip_with Z.lxor (block_at p j) prev else block_at p j).
Definition prev (j : nat) : bytes := match j with O => v0 | S i => cblock i end.

Lemma cblock_unfold j : cblock j = aes nk k (if cbc then zip_with Z.lxor (block_at p j) (prev j) else block_at p j).
Proof. by destruct j. Qed.

Lemma cblock_block j : (j < q)%nat -> is_block (cblock j).
Proof using Hnk Hk Hv0 Hp.
  induction j as [|j IH]; intros Hj; rewrite cblock_unfold; apply aes_block; try done;
    (destruct cbc; [apply xor_block_zip|]); try (by apply (block_at_block p q)); [done|]. apply IH. lia.
Qed.

Lemma prev_block j : (j <= q)%nat -> is_block (prev j).
Proof using Hnk Hk Hv0 Hp. intros Hj. destruct j; [done|]. apply cblock_block. lia. Qed.

Definition cipher (j : nat) : bytes := mjoin (cblock <$> seq 0 j).

Lemma cipher_S j : cipher (S j) = cipher j ++ cblock j.
Proof. unfold cipher. rewrite seq_S, fmap_app, mjoin_app. cbn [fmap list_fmap]. by rewrite mjoin_cons, app_nil_r. Qed.

Lemma length_cipher j : (j <= q)%nat -> length (cipher j) = (j * 16)%nat.
Proof using Hnk Hk Hv0 Hp.
  induction j as [|j IH]; intros Hj; [done|]. rewrite cipher_S, length_app, IH by lia.
  destruct (cblock_block j ltac:(lia)) as [_ ->]. lia.
Qed.

Lemma cipher_block i j : (i < j)%nat -> (j <= q)%nat -> block_at (cipher j) i = cblock i.
Proof using Hnk Hk Hv0 Hp.
  intros Hi Hj. induction j as [|j IH]; [lia|]. rewrite cipher_S. unfold block_at in *.
  destruct (decide (i = j)) as [->|Hne].
  - rewrite drop_app_length' by (rewrite length_cipher; lia). apply take_ge. destruct (cblock_block j ltac:(lia)) as [_ ->]. lia.
  - rewrite drop_app_le by (rewrite length_cipher; lia). rewrite take_app_le; [apply IH; lia|]. rewrite length_drop, length_cipher; lia.
Qed.

Lemma encrypt_loop_ok K m T A j : key K = Some (expanded nk k) -> options K = o -> iv K = v0 -> p = padded m ->
  length A = 32%nat -> (pad_of (length m) <= length T)%nat -> (j <= q)%nat ->
  foldl (encrypt_step (length m)) (K, A ++ m ++ T, OAES_RET_SUCCESS) (seq 0 j) =
  (mkctx (Some (expanded nk k)) o (if cbc then prev j else v0), A ++ cipher j ++ drop (j * 16) (m ++ T), OAES_RET_SUCCESS).
Proof using Hnk Hk Hv0 Hp.
  intros EK Eo Ev Ep HA HT. induction j as [|j IH]; intros Hj.
  { cbn [seq foldl]. rewrite drop_0, <- EK, <- Eo. destruct cbc; cbn [prev]; rewrite <- Ev; by destruct K. }
  rewrite seq_S, foldl_app, IH by lia. cbn [Nat.add foldl]. unfold encrypt_step. cbn [options iv key]. fold cbc. cbv zeta.
  pose proof (padded_bytes m) as _. unfold OAES_BLOCK_SIZE in *.
  assert (Hlm : (length m + pad_of (length m) = q * 16)%nat).
  { destruct Hp as [_ Hl]. rewrite Ep in Hl. unfold padded in Hl. by rewrite length_app, length_pad_bytes in Hl. }
  assert (Hjm : (j * 16 < length m)%nat).
  { unfold pad_of in Hlm. pose proof (Nat.mod_upper_bound (length m) 16 ltac:(lia)). destruct (length m mod 16 =? 0)%nat eqn:E0; [lia|].
    assert (length m mod 16 <> 0)%nat by lia. lia. }
  rewrite app_assoc, drop_app_length' by (rewrite length_app, HA, length_cipher; lia).
  rewrite block_padded by done. rewrite <- Ep. cbv zeta.
  pose proof (block_at_block p q j Hp ltac:(lia)) as Hb. pose proof (prev_block j ltac:(lia)) as Hpv.
  assert (EB : (if cbc then xor_block (block_at p j) (if cbc then prev j else v0) else block_at p j) =
    (if cbc then zip_with Z.lxor (block_at p j) (prev j) else block_at p j)) by (destruct cbc; [by apply xor_block_zip|done]).
  rewrite EB. set (B := if cbc then zip_with Z.lxor (block_at p j) (prev j) else block_at p j) in *.
  assert (HB : is_block B) by (subst B; destruct cbc; [by apply xor_block_zip|done]).
  unfold rc_call. rewrite decide_True by done. rewrite (encrypt_ok nk k Hnk Hk) by done. cbn [rc_or default from_option]. unfold id.
  assert (EC : aes nk k B = cblock j) by (by rewrite cblock_unfold). rewrite EC.
  rewrite memcpy_app by (rewrite length_app, HA, length_cipher; lia).
  destruct (cblock_block j ltac:(lia)) as [_ ->]. rewrite drop_drop, cipher_S, <- !app_assoc.
  replace (S j * 16)%nat with (j * 16 + 16)%nat by lia. cbn [prev]. by destruct cbc.
Qed.

Lemma decrypt_loop_ok K c T j : key K = Some (expanded nk k) -> take 16 (drop 16 c) = v0 -> take (q * 16) (drop 32 c) = cipher q -> (j <= q)%nat ->
  exists v, foldl (decrypt_step K o c (q * 16)) (v0, cipher q ++ T, OAES_RET_SUCCESS) (seq 0 j) =
    (v, take (j * 16) p ++ drop (j * 16) (cipher q ++ T), OAES_RET_SUCCESS) /\ (cbc = true -> j = 0%nat -> v = v0).
Proof using Hnk Hk Hv0 Hp.
  intros EK Ev Ec. induction j as [|j IH]; intros Hj; [by exists v0|].
  destruct (IH ltac:(lia)) as (v & E & Hv). rewrite seq_S, foldl_app, E. cbn [Nat.add foldl]. unfold decrypt_step. fold cbc. cbv zeta.
  unfold OAES_BLOCK_SIZE in *. replace (Nat.min (q * 16 - j * 16) 16) with 16%nat by lia.
  destruct Hp as [Hpb Hpl]. assert (LP : length (take (j * 16) p) = (j * 16)%nat) by (rewrite length_take; lia).
  rewrite drop_app_length' by done.
  assert (EB : take 16 (drop (j * 16) (cipher q ++ T)) = cblock j).
  { rewrite drop_app_le by (rewrite length_cipher; lia). rewrite take_app_le by (rewrite length_drop, length_cipher; lia).
    by apply cipher_block. }
  set (v' := if cbc && (0 <? j * 16)%nat then take 16 (drop (16 + j * 16) c) else v).
  assert (EV : cbc = true -> v' = prev j).
  { intros C. subst v'. rewrite C. destruct j as [|j]; [by apply Hv|]. cbn [prev].
    rewrite <- (cipher_block j q) by lia. rewrite <- Ec. unfold block_at. replace (0 <? S j * 16)%nat with true by lia. cbn [andb].
    rewrite (take_drop_commute (take _ _) 16 (j * 16)), take_take, Nat.min_l, <- take_drop_commute, drop_drop by lia.
    by replace (32 + j * 16)%nat with (16 + S j * 16)%nat by lia. }
  rewrite EB. unfold rc_call. rewrite decide_True by done. rewrite cblock_unfold.
  pose proof (block_at_block p q j (conj Hpb Hpl) ltac:(lia)) as Hb. pose proof (prev_block j ltac:(lia)) as Hpv.
  rewrite (decrypt_ok nk k Hnk Hk); [|done|destruct cbc; [by apply xor_block_zip|done]]. cbn [rc_or default from_option]. unfold id.
  assert (EX : (if cbc then xor_block (if cbc then zip_with Z.lxor (block_at p j) (prev j) else block_at p j) v'
    else if cbc then zip_with Z.lxor (block_at p j) (prev j) else block_at p j) = block_at p j).
  { destruct cbc eqn:C; [|done]. rewrite EV by done. by apply xor_block_twice. }
  rewrite EX. exists v'. split; [|lia]. f_equal. f_equal.
  rewrite memcpy_app by lia. destruct Hb as [_ ->]. rewrite drop_drop. rewrite app_assoc.
  replace (S j * 16)%nat with (j * 16 + 16)%nat by lia. by rewrite <- take_take_drop.
Qed.
End Message.

(** ** Whole messages *)

Lemma pad_of_15 n : (pad_of n <= 15)%nat.
Proof. unfold pad_of. destruct (Nat.eqb_spec (n mod 16) 0); lia. Qed.

Lemma pad_of_Z n : (if Z.of_nat n mod 16 =? 0 then 0 else 16 - Z.of_nat n mod 16) = Z.of_nat (pad_of n).
Proof.
  unfold pad_of. pose proof (Nat2Z.inj_mod n 16) as E. pose proof (Nat.mod_upper_bound n 16 ltac:(lia)). change (Z.of_nat 16) with 16 in E.
  rewrite <- E. destruct (Nat.eqb_spec (n mod 16) 0) as [->|H0]; [done|]. rewrite (proj2 (Z.eqb_neq _ _)) by lia. lia.
Qed.

Lemma padded_lookup m T i : (i < pad_of (length m))%nat -> (padded m ++ T) !!! (length m + i)%nat = Z.of_nat (i + 1).
Proof.
  intros Hi. pose proof (pad_of_15 (length m)). unfold padded. rewrite <- app_assoc, lookup_total_app_r by lia.
  replace (length m + i - length m)%nat with i by lia. rewrite lookup_total_app_l by (rewrite length_pad_bytes; lia).
  unfold pad_bytes. apply list_lookup_total_correct. rewrite list_lookup_fmap, lookup_seq_lt by lia. cbn. f_equal.
  apply wrap_small. split; [lia|]. change (2 ^ 8) with 256. lia.
Qed.

Lemma remove_pad_ok m T : pad_of (length m) <> 0%nat ->
  remove_pad (padded m ++ T) (Z.of_nat (length m + pad_of (length m))) =
  (OAES_RET_SUCCESS, m ++ replicate (pad_of (length m)) 0 ++ T, Z.of_nat (length m)).
Proof.
  intros Hp. pose proof (pad_of_15 (length m)) as H15. unfold remove_pad. set (p := pad_of (length m)) in *.
  assert (L : forall i, (i < p)%nat -> (padded m ++ T) !!! Z.to_nat (Z.of_nat (length m + p) - 1 - Z.of_nat i) = Z.of_nat p - Z.of_nat i).
  { intros i Hi. replace (Z.to_nat (Z.of_nat (length m + p) - 1 - Z.of_nat i)) with (length m + (p - 1 - i))%nat by lia.
    rewrite padded_lookup by lia. lia. }
  assert (E : (padded m ++ T) !!! Z.to_nat (Z.of_nat (length m + p) - 1) = Z.of_nat p).
  { specialize (L 0%nat ltac:(lia)). by rewrite !Z.sub_0_r in L. }
  rewrite E. replace ((Z.of_nat p <=? 0) || (15 <? Z.of_nat p)) with false by lia. rewrite Nat2Z.id.
  replace (forallb _ (seq 0 p)) with true.
  - f_equal; [|lia]. f_equal. replace (Z.to_nat (Z.of_nat (length m + p) - Z.of_nat p)) with (length m) by lia.
    unfold padded. rewrite <- app_assoc, memcpy_app by done. rewrite length_replicate, drop_app_length' by (by rewrite length_pad_bytes). done.
  - symmetry. apply forallb_forall. intros i Hi%list_elem_of_In%elem_of_seq. apply Z.eqb_eq, L. lia.
Qed.

Definition header (o f : Z) : bytes := [0x4f; 0x41; 0x45; 0x53; 1; 2] ++ le_bytes 2 o ++ [f] ++ replicate 7 0.
Definition flags_of (n : nat) : Z := if (pad_of n =? 0)%nat then 0 else 1.

Definition is_mode (o : Z) : Prop := o = OAES_OPTION_ECB \/ o = OAES_OPTION_CBC.

Section Whole.
Context (nk : nat) (k : bytes) (Hnk : is_nk nk) (Hk : is_bytes_n (4 * nk) k).
Context (K : oaes_ctx) (EK : key K = Some (expanded nk k)) (Hv : is_block (iv K)).
Context (m : bytes) (Hm : is_bytes m) (Hlen : Z.of_nat (length m) + 64 < 2 ^ 64).
Context (q : nat) (Hq : (length m + pad_of (length m) = q * 16)%nat).

Let total : nat := (32 + length m + pad_of (length m))%nat.
Let ciph : bytes := cipher nk k (options K) (iv K) (padded m) q.

Lemma encrypt_value cbuf len : (total <= length cbuf)%nat -> Z.of_nat total <= len ->
  exists v T, is_block v /\ oaes_encrypt (Some K) (Some m) (Z.of_nat (length m)) (Some cbuf) (Some len) =
  (OAES_RET_SUCCESS, Some (mkctx (key K) (options K) v), Some (header (options K) (flags_of (length m)) ++ iv K ++ ciph ++ T), Some (Z.of_nat total)).
Proof using Hnk Hk EK Hv Hm Hlen Hq.
  intros Hc Hl. unfold oaes_encrypt. rewrite pad_of_Z. pose proof (pad_of_15 (length m)) as H15.
  assert (W1 : u64 (Z.of_nat (length m) + Z.of_nat (pad_of (length m))) = Z.of_nat q * 16) by (rewrite wrap_small; [|split]; lia).
  assert (W2 : u64 (2 * 16 + Z.of_nat (length m) + Z.of_nat (pad_of (length m))) = Z.of_nat total)
    by (unfold total; rewrite wrap_small; [|split]; lia).
  rewrite W1, W2, (proj2 (Z.ltb_ge _ _)) by done. rewrite EK. rewrite Z.div_mul, !Nat2Z.id, (take_ge m) by lia.
  replace (if Z.of_nat (pad_of (length m)) =? 0 then 0 else OAES_FLAG_PAD) with (flags_of (length m))
    by (unfold flags_of; destruct (Nat.eqb_spec (pad_of (length m)) 0) as [->|]; [done|rewrite (proj2 (Z.eqb_neq _ _)) by lia; done]).
  set (f := flags_of (length m)).
  change cbuf with ([] ++ cbuf) at 1. rewrite (memcpy_app [] cbuf oaes_header) by done. cbn [app].
  set (R := drop (length oaes_header) cbuf).
  assert (E1 : memcpy (memcpy (oaes_header ++ R) 6 (le_bytes 2 (options K))) 8 [f] = header (options K) f ++ R) by reflexivity.
  rewrite E1. rewrite (memcpy_app (header (options K) f) R (iv K) OAES_BLOCK_SIZE) by done.
  rewrite (proj2 Hv), app_assoc, memcpy_app by (rewrite length_app, (proj2 Hv); done).
  set (T := drop (length m) (drop 16 R)).
  pose proof (padded_bytes m Hm) as Hpad. rewrite Hq in Hpad.
  rewrite (encrypt_loop_ok nk k Hnk Hk (options K) (iv K) Hv (padded m) q Hpad K m T _ q EK eq_refl eq_refl eq_refl); [| |subst T R; unfold total in Hc; rewrite !length_drop; cbn [length oaes_header]; lia|done].
  - do 2 eexists. rewrite <- app_assoc. split; [|done].
    destruct (is_cbc (options K)); [|done]. by apply (prev_block nk k Hnk Hk (options K) (iv K) Hv (padded m) q Hpad).
  - rewrite length_app, (proj2 Hv). done.
Qed.

Lemma header_checks o f rest : is_mode o -> f = 0 \/ f = 1 ->
  let c := header o f ++ rest in
  header_ok c 0x02 = true /\ le (take 2 (drop 6 c)) = o /\ c !!! 8%nat = f /\ options_ok o f = true.
Proof. intros [-> | ->] [-> | ->]; done. Qed.

Lemma decrypt_value K2 T mbuf len : key K2 = Some (expanded nk k) -> is_mode (options K) ->
  (q * 16 <= length mbuf)%nat -> Z.of_nat (q * 16) <= len ->
  exists m', oaes_decrypt (Some K2) (Some (header (options K) (flags_of (length m)) ++ iv K ++ ciph ++ T)) (Z.of_nat total) (Some mbuf) (Some len) =
    (OAES_RET_SUCCESS, Some m', Some (Z.of_nat (length m))) /\ take (length m) m' = m.
Proof using Hnk Hk EK Hv Hm Hlen Hq.
  intros EK2 Ho Hb Hl. unfold oaes_decrypt. pose proof (pad_of_15 (length m)) as H15.
  assert (W : u64 (Z.of_nat total - 2 * 16) = Z.of_nat (q * 16)) by (unfold total; rewrite wrap_small; [|split]; lia).
  assert (M : Z.of_nat total mod 16 = 0).
  { unfold total. replace (Z.of_nat _) with (Z.of_nat (q + 2) * 16) by lia. by rewrite Z.mod_mul. }
  rewrite M, W, (proj2 (Z.ltb_ge _ _)) by done. cbn [Z.eqb negb]. rewrite EK2.
  assert (Hf : flags_of (length m) = 0 \/ flags_of (length m) = 1) by (unfold flags_of; destruct (_ =? 0)%nat; auto).
  destruct (header_checks (options K) (flags_of (length m)) (iv K ++ ciph ++ T) Ho Hf) as (-> & -> & -> & ->). cbn [negb orb].
  pose proof (padded_bytes m Hm) as Hpad. rewrite Hq in Hpad.
  assert (LC : length ciph = (q * 16)%nat) by exact (length_cipher nk k Hnk Hk (options K) (iv K) Hv (padded m) q Hpad q (le_n q)).
  set (hdr := header (options K) (flags_of (length m))). set (c := hdr ++ iv K ++ ciph ++ T).
  assert (Lh : length hdr = 16%nat) by done. pose proof (proj2 Hv) as Lv.
  assert (Ev : take 16 (drop 16 c) = iv K) by (subst c; rewrite drop_app_length', take_app_length' by done; done).
  assert (Ec : take (q * 16) (drop 32 c) = ciph).
  { subst c. rewrite app_assoc, drop_app_length' by (rewrite length_app; lia). by rewrite take_app_length' by done. }
  unfold OAES_BLOCK_SIZE. change (2 * 16)%nat with 32%nat. rewrite Nat2Z.id, Ev, Ec.
  change mbuf with ([] ++ mbuf). rewrite memcpy_app by done. cbn [app]. rewrite LC.
  replace (Z.to_nat (Z.of_nat (q * 16) / 16)) with q by (rewrite Nat2Z.inj_mul, Z.div_mul by lia; lia).
  destruct (decrypt_loop_ok nk k Hnk Hk (options K) (iv K) Hv (padded m) q Hpad K2 c (drop (q * 16) mbuf) q EK2 Ev Ec (le_n q)) as (v & E & _).
  fold ciph in E. rewrite E. cbv zeta. rewrite take_ge by (rewrite (proj2 Hpad); lia). rewrite drop_app_length' by done.
  unfold flags_of. destruct (Nat.eqb_spec (pad_of (length m)) 0) as [E0|E0].
  - change (0 .& OAES_FLAG_PAD =? 0) with true. cbn [negb]. eexists. split; [do 2 f_equal; f_equal; lia|].
    unfold padded. rewrite <- app_assoc. apply take_app_length.
  - change (1 .& OAES_FLAG_PAD =? 0) with false. cbn [negb]. rewrite <- Hq, remove_pad_ok by done. eexists. split; [reflexivity|].
    apply take_app_length.
Qed.
End Whole.

(** ** Contexts *)

(** A context between two calls. *)
Definition key_ok (x : option oaes_key) : Prop :=
  match x with None => True | Some x => exists nk k, is_nk nk /\ is_bytes_n (4 * nk) k /\ x = expanded nk k end.
Definition ctx_ok (ctx : oaes_ctx) : Prop := is_block (iv ctx) /\ is_mode (options ctx) /\ key_ok (key ctx).

Lemma expand_or_destroy_ok mem ctx nk k : is_nk nk -> is_bytes_n (4 * nk) k -> key ctx = Some (mkkey (4 * nk) k 0 [] 0 0) ->
  expand_or_destroy mem ctx =
  if mem_exp mem then (OAES_RET_SUCCESS, set_key ctx (Some (expanded nk k))) else (OAES_RET_UNKNOWN, set_key ctx None).
Proof.
  intros Hnk Hk Ek. unfold expand_or_destroy. destruct (mem_exp mem).
  - rewrite (key_expand_ok ctx k nk 0 [] 0 Hnk Hk Ek). cbn [rc_or]. by rewrite decide_True.
  - unfold oaes_key_expand. rewrite Ek. cbn [negb rc_or]. by rewrite decide_False.
Qed.

Lemma ctx_ok_set_key ctx x : ctx_ok ctx -> key_ok x -> ctx_ok (set_key ctx x).
Proof. by intros (? & ? & _) ?. Qed.

Lemma import_key_inv mem ctx b nk rc ctx' : ctx_ok ctx -> is_nk nk -> is_bytes b -> (4 * nk <= length b)%nat ->
  import_key mem ctx b (4 * nk) = (rc, Some ctx') -> ctx_ok ctx'.
Proof.
  intros Hc Hnk Hb Hl. unfold import_key. set (x := if key ctx is Some _ then destroy_key ctx else ctx).
  assert (Hx : ctx_ok x) by (subst x; destruct (key ctx); [by apply ctx_ok_set_key|done]).
  destruct (mem_key mem), (mem_data mem); cbn [negb]; try (intros E; injection E as <- <-; by apply ctx_ok_set_key).
  assert (Hk : is_bytes_n (4 * nk) (take (4 * nk) b)) by (split; [by apply Forall_take|rewrite length_take; lia]).
  rewrite (expand_or_destroy_ok mem _ nk (take (4 * nk) b) Hnk Hk) by done.
  destruct (mem_exp mem); intros E; injection E as <- <-; (apply (ctx_ok_set_key x); [done|]); [|done].
  by exists nk, (take (4 * nk) b).
Qed.

Lemma key_len_nk n : is_key_len n = true -> exists nk, is_nk nk /\ n = Z.of_nat (4 * nk).
Proof.
  unfold is_key_len. rewrite !orb_true_iff, !Z.eqb_eq. intros [[-> | ->] | ->];
    [exists 4%nat|exists 6%nat|exists 8%nat]; (split; [unfold is_nk; lia|done]).
Qed.

(** The calls that change a context.  The caller's obligations: buffers are as
    long as announced, and [rand] supplies enough values. *)
Inductive oaes_step (ctx : oaes_ctx) : oaes_ctx -> Prop :=
  | step_option rand o value rc ctx' :
      (16 <= length rand)%nat -> (forall v, value = Some v -> is_bytes v /\ (16 <= length v)%nat) ->
      oaes_set_option rand (Some ctx) o value = (rc, Some ctx') -> oaes_step ctx ctx'
  | step_gen mem rand gen rc ctx' :
      (32 <= length rand)%nat -> gen ∈ [oaes_key_gen_128; oaes_key_gen_192; oaes_key_gen_256] ->
      gen mem rand (Some ctx) = (rc, Some ctx') -> oaes_step ctx ctx'
  | step_import mem b len rc ctx' :
      is_bytes b -> len = Z.of_nat (length b) -> len < 2 ^ 31 ->
      oaes_key_import mem (Some ctx) (Some b) len = (rc, Some ctx') -> oaes_step ctx ctx'
  | step_import_data mem b len rc ctx' :
      is_bytes b -> len = Z.of_nat (length b) ->
      oaes_key_import_data mem (Some ctx) (Some b) len = (rc, Some ctx') -> oaes_step ctx ctx'
  | step_encrypt m c len rc ctx' c' len' :
      is_bytes m -> Z.of_nat (length m) + 64 < 2 ^ 64 ->
      (forall b l, c = Some b -> len = Some l -> l <= Z.of_nat (length b)) ->
      oaes_encrypt (Some ctx) (Some m) (Z.of_nat (length m)) c len = (rc, Some ctx', c', len') -> oaes_step ctx ctx'.

Lemma set_option_inv ctx rand o value rc ctx' : ctx_ok ctx -> (16 <= length rand)%nat ->
  (forall v, value = Some v -> is_bytes v /\ (16 <= length v)%nat) ->
  oaes_set_option rand (Some ctx) o value = (rc, Some ctx') -> ctx_ok ctx'.
Proof.
  intros (Hv & Ho & Hk) Hr Hval. unfold oaes_set_option.
  destruct (Z.eqb_spec o OAES_OPTION_ECB) as [->|]; [|destruct (Z.eqb_spec o OAES_OPTION_CBC) as [->|]].
  - intros E. injection E as <- <-. split_and!; cbn [iv options key]; [split; [by repeat constructor|done]| |done].
    left. destruct Ho as [-> | ->]; done.
  - intros E. injection E as <- <-. split_and!; cbn [iv options key]; [|right; destruct Ho as [-> | ->]; done|done].
    destruct value as [v|].
    + destruct (Hval v eq_refl). split; [by apply Forall_take|rewrite length_take; unfold OAES_BLOCK_SIZE; lia].
    + split; [|rewrite length_fmap, length_take; unfold OAES_BLOCK_SIZE; lia]. apply Forall_fmap, list.Forall_forall. intros. by apply wrap_word.
  - intros E. by injection E as <- <-.
Qed.

Lemma key_gen_inv ctx mem rand nk rc ctx' : ctx_ok ctx -> (4 * nk <= length rand)%nat -> is_nk nk ->
  oaes_key_gen mem rand (Some ctx) (4 * nk) = (rc, Some ctx') -> ctx_ok ctx'.
Proof.
  intros Hc Hr Hnk. unfold oaes_key_gen. set (x := if key ctx is Some _ then destroy_key ctx else ctx).
  assert (Hx : ctx_ok x) by (subst x; destruct (key ctx); [by apply ctx_ok_set_key|done]).
  destruct (mem_key mem), (mem_data mem); cbn [negb]; try (intros E; by injection E as <- <-).
  set (k := u8 <$> take (4 * nk) rand).
  assert (Hk : is_bytes_n (4 * nk) k).
  { split; [|subst k; rewrite length_fmap, length_take; lia]. apply Forall_fmap, list.Forall_forall. intros. by apply wrap_word. }
  rewrite (expand_or_destroy_ok mem _ nk k Hnk Hk) by done.
  destruct (mem_exp mem); intros E; injection E as <- <-; (apply (ctx_ok_set_key x); [done|]); [|done]. by exists nk, k.
Qed.

Lemma import_inv ctx mem b len rc ctx' : ctx_ok ctx -> is_bytes b -> len = Z.of_nat (length b) -> len < 2 ^ 31 ->
  oaes_key_import mem (Some ctx) (Some b) len = (rc, Some ctx') -> ctx_ok ctx'.
Proof.
  intros Hc Hb -> Hl. unfold oaes_key_import.
  destruct (is_key_len _) eqn:E1; cbn [negb]; [|intros E; by injection E as <- <-].
  destruct (header_ok b 1); cbn [negb]; [|intros E; by injection E as <- <-].
  destruct (is_key_len (b !!! 7%nat)) eqn:E2; cbn [negb]; [|intros E; by injection E as <- <-].
  destruct (Z.eqb_spec (i32 (Z.of_nat (length b))) (b !!! 7%nat + Z.of_nat OAES_BLOCK_SIZE)) as [E3|]; cbn [negb];
    [|intros E; by injection E as <- <-].
  destruct (key_len_nk _ E2) as (nk & Hnk & En). rewrite i32_small in E3 by lia. rewrite En, Nat2Z.id. rewrite En in E3.
  unfold OAES_BLOCK_SIZE in *. apply (import_key_inv mem ctx (drop 16 b) nk); [done|done|by apply Forall_drop|rewrite length_drop; lia].
Qed.

Lemma import_data_inv ctx mem b len rc ctx' : ctx_ok ctx -> is_bytes b -> len = Z.of_nat (length b) ->
  oaes_key_import_data mem (Some ctx) (Some b) len = (rc, Some ctx') -> ctx_ok ctx'.
Proof.
  intros Hc Hb ->. unfold oaes_key_import_data. destruct (is_key_len _) eqn:E1; cbn [negb]; [|intros E; by injection E as <- <-].
  destruct (key_len_nk _ E1) as (nk & Hnk & En). rewrite En, Nat2Z.id. apply import_key_inv; [done..|lia].
Qed.

Lemma encrypt_inv ctx m c len rc ctx' c' len' : ctx_ok ctx -> is_bytes m -> Z.of_nat (length m) + 64 < 2 ^ 64 ->
  (forall b l, c = Some b -> len = Some l -> l <= Z.of_nat (length b)) ->
  oaes_encrypt (Some ctx) (Some m) (Z.of_nat (length m)) c len = (rc, Some ctx', c', len') -> ctx_ok ctx'.
Proof.
  intros Hok Hm Hl Hc H. pose proof Hok as (Hv & Ho & Hk). destruct len as [len|]; [|by injection H as <- <- <- <-].
  destruct c as [b|]; [|by injection H as <- <- <- <-]. specialize (Hc b len eq_refl eq_refl).
  pose proof (pad_of_15 (length m)) as H15.
  destruct (decide (Z.of_nat (32 + length m + pad_of (length m)) <= len)) as [Hle|Hgt].
  - destruct (key ctx) as [x|] eqn:Ek.
    + destruct Hk as (nk & k & Hnk & Hk & ->). destruct (pad_blocks (length m)) as [q Hq].
      destruct (encrypt_value nk k Hnk Hk ctx Ek Hv m Hm Hl q Hq b len) as (v & T & Hvb & E); [lia|lia|].
      rewrite E in H. injection H as <- <- <- <-. split_and!; cbn [iv options key]; [done|done|]. rewrite Ek. by exists nk, k.
    + unfold oaes_encrypt in H. rewrite Ek in H. destruct (len <? _); injection H as <- <- <- <-; unfold ctx_ok; by rewrite Ek.
  - unfold oaes_encrypt in H. rewrite pad_of_Z in H.
    assert (W : u64 (2 * 16 + Z.of_nat (length m) + Z.of_nat (pad_of (length m))) = Z.of_nat (32 + length m + pad_of (length m)))
      by (rewrite wrap_small; [|split]; lia).
    rewrite W, (proj2 (Z.ltb_lt _ _)) in H by lia. by injection H as <- <- <- <-.
Qed.

Lemma step_inv ctx ctx' : ctx_ok ctx -> oaes_step ctx ctx' -> ctx_ok ctx'.
Proof.
  intros Hc [rand o value rc ctx'' ? ? E|mem rand gen rc ctx'' Hr Hg E|mem b len rc ctx'' ? ? ? E|mem b len rc ctx'' ? ? E|m c len rc ctx'' c' len' ? ? ? E].
  - by eapply set_option_inv.
  - rewrite !elem_of_cons in Hg. destruct Hg as [-> | [-> | [-> | Hg]]]; [| | |by apply not_elem_of_nil in Hg].
    + apply (key_gen_inv ctx mem rand 4 rc); [done|lia|by left|done].
    + apply (key_gen_inv ctx mem rand 6 rc); [done|lia|by right; left|done].
    + apply (key_gen_inv ctx mem rand 8 rc); [done|lia|by right; right|done].
  - by eapply import_inv.
  - by eapply import_data_inv.
  - by eapply encrypt_inv.
Qed.

(** ** Export and import *)

Lemma export_value ctx nk k b len : is_nk nk -> is_bytes_n (4 * nk) k -> key ctx = Some (expanded nk k) ->
  (16 + 4 * nk <= length b)%nat -> Z.of_nat (16 + 4 * nk) <= len ->
  oaes_key_export (Some ctx) (Some b) (Some len) =
  (OAES_RET_SUCCESS, Some ([0x4f; 0x41; 0x45; 0x53; 1; 1; 0; Z.of_nat (4 * nk); 0; 0; 0; 0; 0; 0; 0; 0] ++ k ++ drop (16 + 4 * nk) b),
   Some (Z.of_nat (16 + 4 * nk))).
Proof.
  intros Hnk [Hkb Hkl] Ek Hb Hl. unfold oaes_key_export. rewrite Ek. cbn [data_len data expanded].
  assert (N : (4 * nk <= 32)%nat) by (destruct Hnk as [-> | [-> | ->]]; lia).
  assert (W : u64 (Z.of_nat (4 * nk + OAES_BLOCK_SIZE)) = Z.of_nat (16 + 4 * nk)) by (unfold OAES_BLOCK_SIZE; rewrite wrap_small; [|split]; lia).
  assert (W8 : u8 (Z.of_nat (4 * nk)) = Z.of_nat (4 * nk)) by (apply wrap_small; split; [lia|change (2 ^ 8) with 256; lia]).
  rewrite W, W8, (proj2 (Z.ltb_ge _ _)) by done. rewrite (take_ge k) by lia.
  change b with ([] ++ b) at 1. rewrite (memcpy_app [] b oaes_header 0) by done. cbn [app]. set (R := drop (length oaes_header) b).
  set (n := Z.of_nat (4 * nk)).
  change (<[7%nat := n]> (<[5%nat := 1]> (oaes_header ++ R))) with ([0x4f; 0x41; 0x45; 0x53; 1; 1; 0; n; 0; 0; 0; 0; 0; 0; 0; 0] ++ R).
  rewrite memcpy_app by done. rewrite Hkl. subst R. by rewrite drop_drop.
Qed.

Lemma import_value ctx nk k T : is_nk nk -> is_bytes_n (4 * nk) k -> is_bytes T ->
  oaes_key_import granted (Some ctx) (Some ([0x4f; 0x41; 0x45; 0x53; 1; 1; 0; Z.of_nat (4 * nk); 0; 0; 0; 0; 0; 0; 0; 0] ++ k ++ T))
    (Z.of_nat (16 + 4 * nk)) = (OAES_RET_SUCCESS, Some (set_key ctx (Some (expanded nk k)))).
Proof.
  intros Hnk [Hkb Hkl] HT. set (n := Z.of_nat (4 * nk)). set (b := _ ++ k ++ T). unfold oaes_key_import.
  assert (N : (4 * nk <= 32)%nat) by (destruct Hnk as [-> | [-> | ->]]; lia).
  replace (Z.of_nat (16 + 4 * nk) - Z.of_nat OAES_BLOCK_SIZE) with n by (subst n; unfold OAES_BLOCK_SIZE; lia).
  assert (E1 : header_ok b 1 = true) by done. assert (E2 : b !!! 7%nat = n) by done.
  assert (E3 : is_key_len n = true) by (by apply is_key_len_nk).
  rewrite E1, E2, E3. cbn [negb]. rewrite i32_small by lia.
  replace (Z.of_nat (16 + 4 * nk) =? n + Z.of_nat OAES_BLOCK_SIZE) with true by (subst n; unfold OAES_BLOCK_SIZE; lia). cbn [negb].
  unfold n at 1. rewrite Nat2Z.id. assert (E4 : drop OAES_BLOCK_SIZE b = k ++ T) by done.
  rewrite E4, import_key_ok; [|done|by apply Forall_app|rewrite length_app; lia]. by rewrite take_app_length' by done.
Qed.

(** ** Text *)

Definition text_step (d : bytes) (text : list Z) (i : nat) : list Z :=
  let text := text ++ hex_text (d !!! i) in
  if negb (i =? 0)%nat && ((i + 1) mod OAES_BLOCK_SIZE =? 0)%nat then text ++ [10] else text.

Lemma text_length d n : length (foldl (text_step d) [] (seq 0 n)) = (3 * n + n / 16)%nat.
Proof.
  induction n as [|n IH]; [done|]. rewrite seq_S, foldl_app. cbn [foldl Nat.add]. unfold text_step at 1.
  assert (L : length (foldl (text_step d) [] (seq 0 n) ++ hex_text (d !!! n)) = (3 * n + n / 16 + 3)%nat) by (by rewrite length_app, IH).
  unfold OAES_BLOCK_SIZE. replace (n + 1)%nat with (S n) by lia.
  destruct (Nat.eqb_spec (S n mod 16) 0) as [E|E].
  - replace (n =? 0)%nat with false.
    + cbn [negb andb]. rewrite length_app, L. cbn [length].
      assert (S n / 16 = n / 16 + 1)%nat; [|lia]. pose proof (Nat.div_mod_eq (S n) 16). pose proof (Nat.div_mod_eq n 16).
      pose proof (Nat.mod_upper_bound n 16 ltac:(lia)). lia.
    + symmetry. apply Nat.eqb_neq. intros ->. done.
  - rewrite andb_false_r, L. assert (S n / 16 = n / 16)%nat; [|lia]. pose proof (Nat.div_mod_eq (S n) 16). pose proof (Nat.div_mod_eq n 16).
    pose proof (Nat.mod_upper_bound n 16 ltac:(lia)). pose proof (Nat.mod_upper_bound (S n) 16 ltac:(lia)). lia.
Qed.

(** ** Rounds *)

Lemma encryption_round_value e c i : is_block c -> is_bytes e -> (i * 16 + 16 <= length e)%nat ->
  oaes_encryption_round (Some (drop (round_key_off i) e)) (Some c) = (OAES_RET_SUCCESS, Some (aes_round c (take 16 (drop (i * 16) e)))).
Proof.
  intros Hc He Hi. unfold oaes_encryption_round, OAES_RKEY_LEN, OAES_COL_LEN.
  replace (i * 4 * 4)%nat with (i * 16)%nat by lia.
  rewrite encrypt_round_ok; [by rewrite drop_drop, Nat.add_0_r|done|by apply Forall_drop|rewrite length_drop; lia].
Qed.

Lemma pseudo_rounds e s l : is_block s -> is_bytes e -> Forall (fun i => (i * 16 + 16 <= length e)%nat) l ->
  foldl (fun c i => (oaes_encryption_round (Some (drop (round_key_off i) e)) c).2) (Some s) l =
  Some (foldl (fun s i => aes_round s (take 16 (drop (i * 16) e))) s l).
Proof.
  intros Hs He Hl. revert s Hs. induction Hl as [|i l Hi Hl IH]; intros s Hs; [done|]. cbn [foldl].
  rewrite encryption_round_value by done. cbn [snd]. apply IH. apply aes_round_block; [done|].
  split; [by apply Forall_take, Forall_drop|rewrite length_take, length_drop; lia].
Qed.

(** ** Theorems *)

(** C39: after importing a key of 16, 24 or 32 bytes the block functions are
    AES of FIPS 197 with that key: [oaes_encrypt_block] is the cipher over the
    expanded key, and [oaes_decrypt_block] inverts it. *)
Theorem oaes_is_aes ctx nk k b : is_nk nk -> is_bytes_n (4 * nk) k -> is_block b ->
  exists ctx', oaes_key_import_data granted (Some ctx) (Some k) (Z.of_nat (4 * nk)) = (OAES_RET_SUCCESS, Some ctx') /\
    oaes_encrypt_block (Some ctx') (Some b) 16 = (OAES_RET_SUCCESS, Some (Cipher (nk + 6) (KeyExpansion nk k) b)) /\
    oaes_decrypt_block (Some ctx') (Some (Cipher (nk + 6) (KeyExpansion nk k) b)) 16 = (OAES_RET_SUCCESS, Some b).
Proof.
  intros Hnk Hk Hb. eexists. split; [by apply import_data_ok|]. split; [by apply encrypt_ok|by apply decrypt_ok].
Qed.

Lemma oaes_is_aes_witness :
  exists ctx', oaes_key_import_data granted (Some (mkctx None 1 (replicate 16 0))) (Some (replicate 16 1)) (Z.of_nat (4 * 4)) = (OAES_RET_SUCCESS, Some ctx') /\
    oaes_encrypt_block (Some ctx') (Some (replicate 16 2)) 16 =
      (OAES_RET_SUCCESS, Some (Cipher (4 + 6) (KeyExpansion 4 (replicate 16 1)) (replicate 16 2))) /\
    oaes_decrypt_block (Some ctx') (Some (Cipher (4 + 6) (KeyExpansion 4 (replicate 16 1)) (replicate 16 2))) 16 =
      (OAES_RET_SUCCESS, Some (replicate 16 2)).
Proof.
  apply (oaes_is_aes (mkctx None 1 (replicate 16 0)) 4 (replicate 16 1) (replicate 16 2));
    [by left|split; [by repeat constructor|reflexivity]..].
Defined.

(** The table rounds of the slow hash are rounds of AES:
    [aesb_single_round] is SubBytes, ShiftRows, MixColumns and AddRoundKey,
    [aesb_pseudo_round] is ten of them, and [oaes_encryption_round] and
    [oaes_pseudo_encrypt_ecb] compute the same. *)
Theorem aesb_is_aes ctx x s : is_block s -> key ctx = Some x -> is_bytes (exp_data x) -> (160 <= length (exp_data x))%nat ->
  let e := exp_data x in
  aesb_single_round s e = AddRoundKey (MixColumns (ShiftRows (SubBytes s))) (take 16 e) /\
  oaes_encryption_round (Some e) (Some s) = (OAES_RET_SUCCESS, Some (aesb_single_round s e)) /\
  aesb_pseudo_round s e = foldl (fun s i => aes_round s (take 16 (drop (i * 16) e))) s (seq 0 10) /\
  oaes_pseudo_encrypt_ecb (Some ctx) (Some s) = (OAES_RET_SUCCESS, Some (aesb_pseudo_round s e)).
Proof.
  intros Hs Ek He Hl e. subst e. split_and!.
  - apply aesb_single_value; [done|done|lia].
  - rewrite aesb_single_value by (done || lia). exact (encryption_round_value _ s 0 Hs He ltac:(lia)).
  - by apply aesb_pseudo_value.
  - unfold oaes_pseudo_encrypt_ecb. rewrite Ek. rewrite pseudo_rounds; [|done|done|].
    + by rewrite (proj1 (aesb_pseudo_value s (exp_data x) Hs He Hl)).
    + apply list.Forall_forall. intros i Hi%elem_of_seq. lia.
Qed.

Lemma aesb_is_aes_witness :
  let ctx := mkctx (Some (mkkey 0 [] 160 (replicate 160 7) 10 0)) 1 [] in
  aesb_single_round (replicate 16 1) (replicate 160 7) =
    AddRoundKey (MixColumns (ShiftRows (SubBytes (replicate 16 1)))) (take 16 (replicate 160 7)) /\
  oaes_pseudo_encrypt_ecb (Some ctx) (Some (replicate 16 1)) = (OAES_RET_SUCCESS, Some (aesb_pseudo_round (replicate 16 1) (replicate 160 7))).
Proof.
  intros ctx. destruct (aesb_is_aes ctx (mkkey 0 [] 160 (replicate 160 7) 10 0) (replicate 16 1)) as (H1 & _ & _ & H2);
    [split; [by repeat constructor|reflexivity]|reflexivity|by repeat constructor|cbn; lia|split; [exact H1|exact H2]].
Defined.

(** Decryption undoes encryption: in both modes and for every message
    [oaes_decrypt] under the same key returns the message and its length from
    the output of [oaes_encrypt]; neither fails when the buffers are as long as
    announced. *)
Theorem oaes_roundtrip K K2 m cbuf clen mbuf mlen : ctx_ok K -> key K <> None -> key K2 = key K -> is_bytes m ->
  Z.of_nat (length m) + 64 < 2 ^ 64 -> let total := (32 + length m + pad_of (length m))%nat in
  (total <= length cbuf)%nat -> Z.of_nat total <= clen -> (total - 32 <= length mbuf)%nat -> Z.of_nat (total - 32) <= mlen ->
  exists K' c m', oaes_encrypt (Some K) (Some m) (Z.of_nat (length m)) (Some cbuf) (Some clen) =
      (OAES_RET_SUCCESS, Some K', Some c, Some (Z.of_nat total)) /\
    oaes_decrypt (Some K2) (Some c) (Z.of_nat total) (Some mbuf) (Some mlen) =
      (OAES_RET_SUCCESS, Some m', Some (Z.of_nat (length m))) /\ take (length m) m' = m.
Proof.
  intros (Hv & Ho & Hk) Hn E2 Hm Hl total Hc1 Hc2 Hm1 Hm2. destruct (key K) as [x|] eqn:Ek; [|done].
  destruct Hk as (nk & k & Hnk & Hk & ->). destruct (pad_blocks (length m)) as [q Hq].
  destruct (encrypt_value nk k Hnk Hk K Ek Hv m Hm Hl q Hq cbuf clen Hc1 Hc2) as (v & T & _ & E).
  destruct (decrypt_value nk k Hnk Hk K Ek Hv m Hm Hl q Hq K2 T mbuf mlen E2 Ho) as (m' & D & Em); [subst total; lia..|].
  do 3 eexists. split; [exact E|]. split; [exact D|exact Em].
Qed.

Definition sample_ctx : oaes_ctx := mkctx (Some (expanded 4 (replicate 16 1))) 2 (replicate 16 3).

Lemma sample_ctx_ok : ctx_ok sample_ctx.
Proof.
  split_and!; [split; [by repeat constructor|done]|by right|]. exists 4%nat, (replicate 16 1).
  split_and!; [by left|split; [by repeat constructor|done]|done].
Qed.

Lemma oaes_roundtrip_witness :
  exists K' c m', oaes_encrypt (Some sample_ctx) (Some [5; 6; 7]) 3 (Some (replicate 48 0)) (Some 48) =
      (OAES_RET_SUCCESS, Some K', Some c, Some 48) /\
    oaes_decrypt (Some sample_ctx) (Some c) 48 (Some (replicate 16 0)) (Some 16) = (OAES_RET_SUCCESS, Some m', Some 3) /\
    take 3 m' = [5; 6; 7].
Proof.
  apply (oaes_roundtrip sample_ctx sample_ctx [5; 6; 7] (replicate 48 0) 48 (replicate 16 0) 16);
    [exact sample_ctx_ok|discriminate|reflexivity|by repeat constructor|reflexivity|cbn; lia|cbn; lia|cbn; lia|cbn; lia].
Defined.

(** A key exported by [oaes_key_export] and imported into another context
    by [oaes_key_import] is the same key, round keys included; the exported
    length is 16 bytes of header and the key. *)
Theorem oaes_key_transfer ctx ctx2 x b len : ctx_ok ctx -> key ctx = Some x -> is_bytes b ->
  (16 + data_len x <= length b)%nat -> Z.of_nat (16 + data_len x) <= len ->
  exists b' n, oaes_key_export (Some ctx) (Some b) (Some len) = (OAES_RET_SUCCESS, Some b', Some n) /\ n = Z.of_nat (16 + data_len x) /\
    oaes_key_import granted (Some ctx2) (Some b') n = (OAES_RET_SUCCESS, Some (set_key ctx2 (key ctx))).
Proof.
  intros (_ & _ & Hk) Ek Hb H1 H2. rewrite Ek in Hk |- *. destruct Hk as (nk & k & Hnk & Hk & ->).
  do 2 eexists. split; [by apply (export_value ctx nk k b len)|]. split; [done|]. apply import_value; [done|done|by apply Forall_drop].
Qed.

Lemma oaes_key_transfer_witness :
  exists b' n, oaes_key_export (Some sample_ctx) (Some (replicate 40 9)) (Some 40) = (OAES_RET_SUCCESS, Some b', Some n) /\ n = 32 /\
    oaes_key_import granted (Some (mkctx None 1 [])) (Some b') n = (OAES_RET_SUCCESS, Some (mkctx (key sample_ctx) 1 [])).
Proof.
  apply (oaes_key_transfer sample_ctx (mkctx None 1 []) (expanded 4 (replicate 16 1)) (replicate 40 9) 40);
    [exact sample_ctx_ok|reflexivity|by repeat constructor|cbn; lia|cbn; lia].
Defined.

(** Every context reached from [oaes_alloc] by calls of the API, failed
    allocations included, has a 16-byte iv, exactly one of the two modes, and no
    key or a completely expanded key of 16, 24 or 32 bytes. *)
Theorem oaes_context_type rand ctx0 ctx : (16 <= length rand)%nat -> oaes_alloc true rand = Some ctx0 ->
  rtc oaes_step ctx0 ctx -> ctx_ok ctx.
Proof.
  intros Hr E. assert (H0 : ctx_ok ctx0).
  { injection E as <-. split_and!; cbn [iv options key]; [|by right|done].
    split; [|rewrite length_fmap, length_take; unfold OAES_BLOCK_SIZE; lia]. apply Forall_fmap, list.Forall_forall. intros. by apply wrap_word. }
  clear E Hr. intros R. induction R as [|a b c Hs R IH]; [done|]. by eapply IH, step_inv.
Qed.

Lemma oaes_context_type_witness :
  exists ctx0, oaes_alloc true (replicate 16 5) = Some ctx0 /\ ctx_ok (mkctx None 1 (replicate 16 0)).
Proof.
  exists (mkctx None 2 (replicate 16 5)). split; [reflexivity|].
  apply (oaes_context_type (replicate 16 5) (mkctx None 2 (replicate 16 5))); [cbn; lia|reflexivity|].
  apply rtc_once. apply (step_option _ (replicate 16 5) 1 None OAES_RET_SUCCESS); [cbn; lia|discriminate|reflexivity].
Defined.

(** [oaes_sprintf] stays inside the length it asks for: the text and its
    final zero take exactly [*buf_len] bytes, and the buffer is only written
    when it is at least that long. *)
Theorem oaes_sprintf_fits b len d : Z.of_nat (length b) = len -> Z.of_nat (length d) * 4 + 1 < 2 ^ 64 ->
  exists rc b' n, oaes_sprintf (Some b) (Some len) (Some d) (length d) = (rc, Some b', Some n) /\
    n = Z.of_nat (3 * length d + length d / 16 + 1) /\ length b' = length b /\
    (rc = OAES_RET_BUF /\ b' = b /\ len < n \/
     rc = OAES_RET_SUCCESS /\ n <= len /\ exists text, length text = (3 * length d + length d / 16)%nat /\ b' = text ++ [0] ++ drop (Z.to_nat n) b).
Proof.
  intros El Hd. unfold oaes_sprintf. set (N := (3 * length d + length d / 16 + 1)%nat).
  assert (Hdiv : (length d / 16 <= length d)%nat) by (apply Nat.Div0.div_le_upper_bound; lia).
  assert (W : u64 (Z.of_nat (length d) * 3 + Z.of_nat (length d) / 16 + 1) = Z.of_nat N).
  { subst N. change 16 with (Z.of_nat 16). rewrite <- Nat2Z.inj_div. rewrite wrap_small; [|split]; lia. }
  rewrite W. destruct (Z.ltb_spec len (Z.of_nat N)) as [H|H].
  - do 3 eexists. split; [reflexivity|]. split_and!; [done|done|]. by left.
  - fold (text_step d). set (text := foldl (text_step d) [] (seq 0 (length d))).
    assert (L : length text = (3 * length d + length d / 16)%nat) by apply text_length.
    do 3 eexists. split; [reflexivity|]. split_and!; [done| |right; split_and!; [done|done|]].
    + apply length_memcpy. rewrite length_app. cbn [length]. lia.
    + exists text. split; [done|]. change b with ([] ++ b) at 1. rewrite (memcpy_app [] b (text ++ [0]) 0) by done. cbn [app].
      rewrite <- app_assoc. cbn [app]. rewrite length_app. cbn [length]. subst N. do 3 f_equal. lia.
Qed.

Lemma oaes_sprintf_fits_witness :
  exists rc b' n, oaes_sprintf (Some (replicate 10 1)) (Some 10) (Some [0xab; 0x1]) 2 = (rc, Some b', Some n) /\
    n = 7 /\ length b' = 10%nat.
Proof.
  destruct (oaes_sprintf_fits (replicate 10 1) 10 [0xab; 0x1]) as (rc & b' & n & E & En & El & _); [reflexivity|reflexivity|].
  exists rc, b', n. split; [exact E|]. split; [exact En|exact El].
Defined.
