(* ===== verification/IntSqrt.v ===== *)
(** * The integer square root of the slow hash: src/src/crypto/variant2_int_sqrt.h

    Variant 2 of the slow hash needs the integer part of 2 sqrt(2^64 + n) - 2^33.
    The header computes it in three ways: with integers only, with a double
    precision square root, and with SSE2 instructions on the bits of a double;
    the last two are corrected by a fix-up.  Every build must agree on the
    result.  The theorem: all three return [isqrt_spec], for every 64-bit [n].

    Doubles are IEEE 754 binary64 with round to nearest even.  A double that
    occurs here is an integer or a fixed number of fraction bits, so [fp_round]
    and [fp_sqrt] on integers are the rounded conversion, sum and square root. *)

From S2P Require Import Prelude.

(** ** The three computations *)

(** The loop over [bit]: 31 iterations from [2^60] down. *)
Definition isqrt_step (st : Z * Z) (k : nat) : Z * Z :=
  let '(n, r) := st in
  let bit := 1 .<< (2 * Z.of_nat k) in
  let b := n <? u64 (r + bit) in
  let n_next := u64 (n - u64 (r + bit)) in
  let r_next := u64 (r + u64 (bit * 2)) in
  let n := if b then n else n_next in
  let r := if b then r else r_next in
  (n, r .>> 1).

Definition integer_square_root_v2 (n : Z) : Z :=
  let '(n, r) := foldl isqrt_step (n, 1 .<< 63) (reverse (seq 0 31)) in
  u32 (u64 (u64 (r * 2) + (if r <? n then 1 else 0))).

(** The nearest multiple of [2^u], ties to the even multiple. *)
Definition round_even (u x : Z) : Z :=
  let q := x / 2 ^ u in
  let d := 2 * (x mod 2 ^ u) in
  (if (d <? 2 ^ u) || ((d =? 2 ^ u) && Z.even q) then q else q + 1) * 2 ^ u.

(** An integer rounded to a mantissa of 53 bits. *)
Definition fp_round (x : Z) : Z := round_even (Z.max 0 (Z.log2 x - 52)) x.

(** The nearest integer to the square root; a tie is impossible. *)
Definition sqrt_nearest (x : Z) : Z :=
  let f := Z.sqrt x in if f * f + f <? x then f + 1 else f.

(** [sqrt] of a double in [2^64, 2^65], in units of 2^-20: such a root is
    between 2^32 and 2^33, where doubles are the multiples of 2^-20. *)
Definition fp_sqrt (x : Z) : Z := sqrt_nearest (2 ^ 40 * x).

(** [sqrt(sqrt_input + 18446744073709551616.0) * 2.0 - 8589934592.0]: the
    doubling and the subtraction are exact, the conversion to an integer truncates. *)
Definition VARIANT2_INTEGER_MATH_SQRT_STEP_FP64 (sqrt_input : Z) : Z :=
  let x := fp_round (fp_round sqrt_input + 2 ^ 64) in
  (2 * fp_sqrt x - 2 ^ 53) / 2 ^ 20.

(** The double with the bits [(sqrt_input >> 12) + (1023 << 52)] is 1 + m / 2^52;
    its root is in [1, 2), so the bits of the root are again the bias and a
    52-bit mantissa. *)
Definition VARIANT2_INTEGER_MATH_SQRT_STEP_SSE2 (sqrt_input : Z) : Z :=
  let exp_double_bias := 1023 .<< 52 in
  let bits := u64 ((sqrt_input .>> 12) + exp_double_bias) in
  let m := bits - exp_double_bias in
  let root := sqrt_nearest (2 ^ 52 * (2 ^ 52 + m)) in
  let root_bits := exp_double_bias + (root - 2 ^ 52) in
  u64 (root_bits - exp_double_bias) .>> 19.

Definition VARIANT2_INTEGER_MATH_SQRT_STEP_REF (sqrt_input : Z) : Z := integer_square_root_v2 sqrt_input.

(** The correction of [r] by at most one. *)
Definition VARIANT2_INTEGER_MATH_SQRT_FIXUP (sqrt_input r : Z) : Z :=
  let s := r .>> 1 in
  let b := r .& 1 in
  let r2 := u64 (u64 (s * u64 (s + b)) + u64 (r .<< 32)) in
  u64 (r + ((if sqrt_input <? u64 (r2 + b) then -1 else 0) + (if u64 (r2 + 2 ^ 32) <? u64 (sqrt_input - s) then 1 else 0))).

(** ** Specification *)

(** The integer part of 2 sqrt(2^64 + n) - 2^33. *)
Definition isqrt_spec (n : Z) : Z := Z.sqrt (4 * (2 ^ 64 + n)) - 2 ^ 33.

(** The table in the comment of the header. *)
Example isqrt_table :
  integer_square_root_v2 <$> [0; 2 ^ 32; 2 ^ 32 + 1; 2 ^ 50; 2 ^ 55 + 20963331; 2 ^ 55 + 20963332; 2 ^ 62 + 26599786; 2 ^ 62 + 26599787; 2 ^ 64 - 1]
  = [0; 0; 1; 262140; 8384515; 8384516; 1013904242; 1013904243; 3558067407].
Proof. vm_compute. reflexivity. Qed.

(** ** The integer loop *)

(** Before the bits [k - 1], ..., 0 are determined: the root so far is [R], a
    multiple of 2^k, [n] is the remainder and [r] is [R 2^k]. *)
Definition isqrt_inv (N : Z) (k : nat) (st : Z * Z) : Prop :=
  exists R, st = (N - R * R, R * 2 ^ Z.of_nat k) /\ (2 ^ Z.of_nat k | R) /\ 2 ^ 32 <= R /\ R * R <= N < (R + 2 ^ Z.of_nat k) * (R + 2 ^ Z.of_nat k).

Lemma isqrt_step_ok N k st : 2 ^ 64 <= N < 2 ^ 65 -> (k < 31)%nat -> isqrt_inv N (S k) st -> isqrt_inv N k (isqrt_step st k).
Proof.
  intros HN Hk (R & -> & [m Hm] & HR & H1 & H2). unfold isqrt_step.
  set (p := 2 ^ Z.of_nat k). assert (Hp : 1 <= p <= 2 ^ 30).
  { subst p. split; [apply (Z.pow_le_mono_r 2 0)|apply Z.pow_le_mono_r]; lia. }
  assert (ES : 2 ^ Z.of_nat (S k) = 2 * p) by (subst p; rewrite Nat2Z.inj_succ, Z.pow_succ_r by lia; done).
  rewrite ES in *.
  assert (Eb : 1 .<< (2 * Z.of_nat k) = p * p).
  { subst p. rewrite Z.shiftl_mul_pow2, Z.mul_1_l, <- Z.pow_add_r by lia. f_equal. lia. }
  rewrite Eb. assert (HR2 : R < 2 ^ 33) by nia.
  assert (Hr : R * (2 * p) + p * p < 2 ^ 64).
  { destruct (decide (k = 30%nat)) as [->|Hk30].
    - change p with (2 ^ 30) in *. assert (R = 2 ^ 32) by nia. nia.
    - assert (p <= 2 ^ 29) by (subst p; apply Z.pow_le_mono_r; lia). nia. }
  assert (W1 : u64 (R * (2 * p) + p * p) = R * (2 * p) + p * p) by (apply wrap_small; split; nia).
  rewrite W1. destruct (Z.ltb_spec (N - R * R) (R * (2 * p) + p * p)) as [H|H].
  - exists R. split_and!; [|exists (2 * m); nia|done|done|nia]. f_equal. rewrite Z.shiftr_div_pow2 by lia. change (2 ^ 1) with 2.
    replace (R * (2 * p)) with (R * p * 2) by ring. apply Z.div_mul. lia.
  - assert (W2 : u64 (N - R * R - (R * (2 * p) + p * p)) = N - (R + p) * (R + p)) by (rewrite wrap_small; [ring|split; nia]).
    assert (W3 : u64 (p * p * 2) = p * p * 2) by (apply wrap_small; split; nia).
    assert (W4 : u64 (R * (2 * p) + p * p * 2) = (R + p) * p * 2).
    { rewrite wrap_small; [ring|]. split; [nia|]. assert (R + p < 2 ^ 33) by nia.
      destruct (decide (k = 30%nat)) as [->|Hk30].
      - change p with (2 ^ 30) in *. nia.
      - assert (p <= 2 ^ 29) by (subst p; apply Z.pow_le_mono_r; lia). nia. }
    rewrite W2, W3, W4. exists (R + p). split_and!; [|exists (2 * m + 1); nia|lia|nia|nia]. f_equal. rewrite Z.shiftr_div_pow2 by lia. change (2 ^ 1) with 2.
    apply Z.div_mul. lia.
Qed.

Lemma isqrt_loop_ok N k st : 2 ^ 64 <= N < 2 ^ 65 -> (k <= 31)%nat -> isqrt_inv N k st ->
  isqrt_inv N 0 (foldl isqrt_step st (reverse (seq 0 k))).
Proof.
  intros HN. revert st. induction k as [|k IH]; intros st Hk H; [done|].
  rewrite seq_S, reverse_app, reverse_singleton. cbn [app foldl Nat.add]. apply IH; [lia|]. apply isqrt_step_ok; [done|lia|done].
Qed.

(** [Z.sqrt] from its defining inequalities. *)
Lemma sqrt_is x a : 0 <= a -> a * a <= x < (a + 1) * (a + 1) -> Z.sqrt x = a.
Proof. intros Ha H. apply Z.sqrt_unique. rewrite <- Z.add_1_r. lia. Qed.

Lemma spec_range n : is_u64 n -> 0 <= isqrt_spec n <= 3558067407.
Proof.
  intros [H0 H1]. unfold isqrt_spec. split.
  - enough (2 ^ 33 <= Z.sqrt (4 * (2 ^ 64 + n))) by lia. apply Z.sqrt_le_square; lia.
  - enough (Z.sqrt (4 * (2 ^ 64 + n)) < 2 ^ 33 + 3558067408) by lia. apply Z.sqrt_lt_square; lia.
Qed.

Lemma sqrt_v2_ok n : is_u64 n -> integer_square_root_v2 n = isqrt_spec n.
Proof.
  intros Hn. pose proof (spec_range n Hn) as Hr. destruct Hn as [H0 H1]. unfold integer_square_root_v2.
  destruct (isqrt_loop_ok (2 ^ 64 + n) 31 (n, 1 .<< 63)) as (R & E & _ & HR & HR1 & HR2); [lia|lia| |].
  { exists (2 ^ 32). split_and!; [apply f_equal2; [lia|reflexivity]|by exists 2|lia|lia|]. change (2 ^ Z.of_nat 31) with (2 ^ 31). lia. }
  rewrite E. change (2 ^ Z.of_nat 0) with 1 in *. rewrite Z.mul_1_r. unfold isqrt_spec in *.
  assert (R < 2 ^ 33) by nia.
  rewrite (wrap_small 64 (R * 2)) by (split; lia).
  destruct (Z.ltb_spec R (2 ^ 64 + n - R * R)) as [H2|H2].
  - assert (S : Z.sqrt (4 * (2 ^ 64 + n)) = 2 * R + 1) by (apply sqrt_is; nia). rewrite S in *.
    rewrite (wrap_small 64) by (split; lia). unfold wrap. replace (R * 2 + 1) with (2 * R + 1 - 2 ^ 33 + 2 * 2 ^ 32) by ring.
    rewrite Z.mod_add by lia. apply Z.mod_small. lia.
  - assert (S : Z.sqrt (4 * (2 ^ 64 + n)) = 2 * R) by (apply sqrt_is; nia). rewrite S in *.
    rewrite (wrap_small 64) by (split; lia). unfold wrap. replace (R * 2 + 0) with (2 * R - 2 ^ 33 + 2 * 2 ^ 32) by ring.
    rewrite Z.mod_add by lia. apply Z.mod_small. lia.
Qed.

(** ** The fix-up *)

Lemma fixup_ok n r : is_u64 n -> 0 <= r <= 3558067407 -> isqrt_spec n - 1 <= r <= isqrt_spec n + 1 ->
  VARIANT2_INTEGER_MATH_SQRT_FIXUP n r = isqrt_spec n.
Proof.
  intros Hn Hr Ht. pose proof (spec_range n Hn) as Hs. destruct Hn as [H0 H1]. unfold VARIANT2_INTEGER_MATH_SQRT_FIXUP.
  set (t := isqrt_spec n) in *.
  assert (HT : (t + 2 ^ 33) * (t + 2 ^ 33) <= 4 * (2 ^ 64 + n) < (t + 2 ^ 33 + 1) * (t + 2 ^ 33 + 1)).
  { subst t. unfold isqrt_spec. pose proof (Z.sqrt_spec (4 * (2 ^ 64 + n)) ltac:(lia)) as S. cbv zeta in S. rewrite Z.sub_add. lia. }
  clearbody t. rewrite Z.shiftr_div_pow2 by lia. change (2 ^ 1) with 2.
  assert (Eb : r .& 1 = r mod 2) by (apply (land_mask r 1); lia). rewrite Eb.
  pose proof (Z.div_mod r 2 ltac:(lia)) as E. pose proof (Z.mod_pos_bound r 2 ltac:(lia)) as B.
  set (s := r / 2) in *. set (b := r mod 2) in *. clearbody s b.
  rewrite Z.shiftl_mul_pow2 by lia.
  rewrite (wrap_small 64 (s + b)) by (split; lia). rewrite (wrap_small 64 (s * (s + b))) by (split; nia).
  rewrite (wrap_small 64 (r * 2 ^ 32)) by (split; lia).
  assert (Hmax : s * (s + b) <= 1779033703 * 1779033704) by nia.
  rewrite (wrap_small 64 (s * (s + b) + r * 2 ^ 32)) by (split; nia).
  rewrite (wrap_small 64 (s * (s + b) + r * 2 ^ 32 + b)) by (split; nia).
  rewrite (wrap_small 64 (s * (s + b) + r * 2 ^ 32 + 2 ^ 32)) by (split; nia).
  assert (Hsn : s <= n) by nia.
  rewrite (wrap_small 64 (n - s)) by (split; lia).
  assert (K : (r + 2 ^ 33) * (r + 2 ^ 33) = 4 * (s * (s + b) + r * 2 ^ 32) + b + 2 ^ 66).
  { assert (b * b = b) by nia. subst r. nia. }
  assert (D : forall d, (r + d + 2 ^ 33) * (r + d + 2 ^ 33) = (r + 2 ^ 33) * (r + 2 ^ 33) + 2 * d * (r + 2 ^ 33) + d * d) by (intros; ring).
  pose proof (D 1) as D1. pose proof (D 2) as D2. pose proof (D (-1)) as D3. rewrite K in D1, D2, D3. clear D.
  set (Q := s * (s + b)) in *. clearbody Q.
  assert (C : t = r + 1 \/ t = r \/ t = r + -1) by lia.
  destruct (Z.ltb_spec n (Q + r * 2 ^ 32 + b)) as [L1|L1], (Z.ltb_spec (Q + r * 2 ^ 32 + 2 ^ 32) (n - s)) as [L2|L2];
    (rewrite wrap_small; [|split]); destruct C as [-> | [-> | ->]]; lia.
Qed.

(** ** Rounded square roots *)

Lemma sqrt_nearest_ok y : 0 <= y -> let k := sqrt_nearest y in 0 <= k /\ (0 < k -> (2 * k - 1) * (2 * k - 1) <= 4 * y) /\ 4 * y <= (2 * k + 1) * (2 * k + 1).
Proof.
  intros Hy k. subst k. unfold sqrt_nearest. pose proof (Z.sqrt_spec y Hy) as S. cbv zeta in S. pose proof (Z.sqrt_nonneg y) as S0.
  set (f := Z.sqrt y) in *. clearbody f. destruct (Z.ltb_spec (f * f + f) y); nia.
Qed.

(** A root of a number within 2^12 of 2^64 + n, rounded to 2^-20, is off by at
    most one after truncation. *)
Lemma approx_ok n x : is_u64 n -> 2 ^ 64 <= x <= 2 ^ 65 -> 2 ^ 64 + n - 2 ^ 12 <= x <= 2 ^ 64 + n + 2 ^ 12 ->
  let r := fp_sqrt x / 2 ^ 19 - 2 ^ 33 in 0 <= r <= 3558067407 /\ isqrt_spec n - 1 <= r <= isqrt_spec n + 1.
Proof.
  intros [H0 H1] Hx Hd r. subst r. unfold fp_sqrt.
  destruct (sqrt_nearest_ok (2 ^ 40 * x) ltac:(lia)) as (K0 & K1 & K2). set (k := sqrt_nearest (2 ^ 40 * x)) in *. clearbody k.
  assert (Kb : 2 ^ 52 <= k) by nia. specialize (K1 ltac:(lia)).
  pose proof (Z.div_mod k (2 ^ 19) ltac:(lia)) as E. pose proof (Z.mod_pos_bound k (2 ^ 19) ltac:(lia)) as B.
  set (q := k / 2 ^ 19) in *. set (f := k mod 2 ^ 19) in *. clearbody q f.
  unfold isqrt_spec. pose proof (Z.sqrt_spec (4 * (2 ^ 64 + n)) ltac:(lia)) as S. cbv zeta in S.
  pose proof (Z.sqrt_nonneg (4 * (2 ^ 64 + n))) as S0. set (a := Z.sqrt (4 * (2 ^ 64 + n))) in *. clearbody a.
  assert (Ha : 2 ^ 33 <= a) by nia.
  assert (Q1 : 2 ^ 33 <= q) by lia.
  assert (Q2 : q <= 2 ^ 33 + 3558067407).
  { apply Z.nlt_ge. intros Hq. assert (Hk : (2 ^ 33 + 3558067408) * 2 ^ 19 <= k) by lia.
    assert (((2 ^ 33 + 3558067408) * 2 ^ 20 - 1) * ((2 ^ 33 + 3558067408) * 2 ^ 20 - 1) <= (2 * k - 1) * (2 * k - 1)) by (apply Z.mul_le_mono_nonneg; lia). lia. }
  split; [lia|]. split.
  - enough (a - 1 <= q) by lia. apply Z.nlt_ge. intros Hq. assert (Hk : k <= (a - 1) * 2 ^ 19 - 1) by lia.
    assert ((2 * k + 1) * (2 * k + 1) <= ((a - 1) * 2 ^ 20 - 1) * ((a - 1) * 2 ^ 20 - 1)) by (apply Z.mul_le_mono_nonneg; lia).
    assert (((a - 1) * 2 ^ 20 - 1) * ((a - 1) * 2 ^ 20 - 1) <= 2 ^ 40 * (a * a) - 2 ^ 40 * (2 * a - 1)) by nia. nia.
  - enough (q <= a + 1) by lia. apply Z.nlt_ge. intros Hq. assert (Hk : (a + 2) * 2 ^ 19 <= k) by lia.
    assert (((a + 2) * 2 ^ 20 - 1) * ((a + 2) * 2 ^ 20 - 1) <= (2 * k - 1) * (2 * k - 1)) by (apply Z.mul_le_mono_nonneg; lia).
    assert (2 ^ 40 * ((a + 1) * (a + 1)) + 2 ^ 40 * a <= ((a + 2) * 2 ^ 20 - 1) * ((a + 2) * 2 ^ 20 - 1)) by nia. nia.
Qed.

Lemma round_even_ok u x M : 0 <= u -> 0 <= x <= M -> (2 ^ u | M) ->
  0 <= round_even u x <= M /\ 2 * (x - 2 ^ u) <= 2 * round_even u x - 2 ^ u <= 2 * x.
Proof.
  intros Hu Hx [c Hc]. unfold round_even. assert (Hp : 0 < 2 ^ u) by lia.
  pose proof (Z.div_mod x (2 ^ u) ltac:(lia)) as E. pose proof (Z.mod_pos_bound x (2 ^ u) Hp) as B.
  set (q := x / 2 ^ u) in *. set (f := x mod 2 ^ u) in *. set (p := 2 ^ u) in *. clearbody q f p.
  destruct ((2 * f <? p) || ((2 * f =? p) && Z.even q)) eqn:C.
  - assert (Hf : 2 * f <= p). { destruct (Z.ltb_spec (2 * f) p); [lia|]. apply andb_prop in C as [C _]. lia. }
    assert (0 <= q) by nia. assert (0 <= q * p) by nia. lia.
  - assert (p <= 2 * f). { apply orb_false_iff in C as [C1 C2]. lia. } assert (0 < f) by lia.
    assert (0 <= q) by nia. assert (q + 1 <= c) by nia. assert (0 <= q * p) by nia. assert ((q + 1) * p <= c * p) by nia. lia.
Qed.

Lemma fp_round_ok x e M : 0 <= e <= 12 -> 0 <= x <= M -> (2 ^ e | M) -> Z.log2 x <= 52 + e -> 
  0 <= fp_round x <= M /\ 2 * x - 2 ^ e <= 2 * fp_round x <= 2 * x + 2 ^ e.
Proof.
  intros He Hx HM Hl. unfold fp_round. set (u := Z.max 0 (Z.log2 x - 52)).
  assert (Hu : 0 <= u <= e) by lia. assert (Hp : 2 ^ u <= 2 ^ e) by (apply Z.pow_le_mono_r; lia).
  destruct (round_even_ok u x M) as [? ?]; [lia|lia| |lia].
  destruct HM as [c ->]. exists (c * 2 ^ (e - u)). rewrite <- Z.mul_assoc, <- Z.pow_add_r by lia. do 2 f_equal. lia.
Qed.

Lemma fp64_step n : is_u64 n -> exists x, 2 ^ 64 <= x <= 2 ^ 65 /\ 2 ^ 64 + n - 2 ^ 12 <= x <= 2 ^ 64 + n + 2 ^ 12 /\
  VARIANT2_INTEGER_MATH_SQRT_STEP_FP64 n = fp_sqrt x / 2 ^ 19 - 2 ^ 33.
Proof.
  intros [H0 H1]. unfold VARIANT2_INTEGER_MATH_SQRT_STEP_FP64.
  destruct (fp_round_ok n 11 (2 ^ 64)) as [Y1 Y2]; [lia|lia|by exists (2 ^ 53)| |].
  { destruct (decide (n = 0)) as [->|]; [cbn; lia|]. enough (Z.log2 n < 64) by lia. apply Z.log2_lt_pow2; lia. }
  set (y := fp_round n) in *. clearbody y. exists (fp_round (y + 2 ^ 64)).
  assert (X : 2 ^ 64 <= fp_round (y + 2 ^ 64) <= 2 ^ 65 /\ 2 * (y + 2 ^ 64) - 2 ^ 12 <= 2 * fp_round (y + 2 ^ 64) <= 2 * (y + 2 ^ 64) + 2 ^ 12).
  { destruct (decide (y = 2 ^ 64)) as [->|Hy]; [vm_compute; split; split; discriminate|].
    destruct (fp_round_ok (y + 2 ^ 64) 12 (2 ^ 65)) as [Z1 Z2]; [lia|lia|by exists (2 ^ 53)| |].
    { enough (Z.log2 (y + 2 ^ 64) < 65) by lia. apply Z.log2_lt_pow2; lia. }
    split; [|done]. split; [|lia].
    assert (L : Z.log2 (y + 2 ^ 64) = 64) by (apply Z.log2_unique; lia). unfold fp_round in *. rewrite L in *.
    change (Z.max 0 (64 - 52)) with 12 in *. unfold round_even in *.
    assert (Q : 2 ^ 52 <= (y + 2 ^ 64) / 2 ^ 12) by (apply Z.div_le_lower_bound; lia).
    destruct (_ || _); lia. }
  split_and!; [lia|lia|lia|lia|]. set (k := fp_sqrt _).
  replace (2 * k - 2 ^ 53) with ((k - 2 ^ 52) * 2) by ring. change (2 ^ 20) with (2 ^ 19 * 2). rewrite Z.div_mul_cancel_r by lia.
  replace (k - 2 ^ 52) with (k + (- 2 ^ 33) * 2 ^ 19) by ring. rewrite Z.div_add by lia. lia.
Qed.

Lemma sse2_step n : is_u64 n -> exists x, 2 ^ 64 <= x <= 2 ^ 65 /\ 2 ^ 64 + n - 2 ^ 12 <= x <= 2 ^ 64 + n + 2 ^ 12 /\
  VARIANT2_INTEGER_MATH_SQRT_STEP_SSE2 n = fp_sqrt x / 2 ^ 19 - 2 ^ 33.
Proof.
  intros Hn. pose proof Hn as [H0 H1]. unfold VARIANT2_INTEGER_MATH_SQRT_STEP_SSE2. rewrite (Z.shiftr_div_pow2 n) by lia.
  pose proof (Z.div_mod n (2 ^ 12) ltac:(lia)) as E. pose proof (Z.mod_pos_bound n (2 ^ 12) ltac:(lia)) as B.
  set (m := n / 2 ^ 12) in *. set (f := n mod 2 ^ 12) in *. clearbody m f.
  change (1023 .<< 52) with (1023 * 2 ^ 52). rewrite (wrap_small 64 (m + 1023 * 2 ^ 52)) by (split; lia).
  replace (m + 1023 * 2 ^ 52 - 1023 * 2 ^ 52) with m by ring. exists (2 ^ 12 * (2 ^ 52 + m)).
  replace (2 ^ 52 * (2 ^ 52 + m)) with (2 ^ 40 * (2 ^ 12 * (2 ^ 52 + m))) by ring. fold (fp_sqrt (2 ^ 12 * (2 ^ 52 + m))).
  set (x := 2 ^ 12 * (2 ^ 52 + m)). assert (Hx : 2 ^ 64 <= x <= 2 ^ 65) by (subst x; lia).
  assert (Hd : 2 ^ 64 + n - 2 ^ 12 <= x <= 2 ^ 64 + n + 2 ^ 12) by (subst x; lia).
  destruct (approx_ok n x Hn Hx Hd) as [Hr _]. split_and!; [lia..|]. clearbody x.
  set (k := fp_sqrt x) in *. clearbody k.
  replace (1023 * 2 ^ 52 + (k - 2 ^ 52) - 1023 * 2 ^ 52) with (k + (- 2 ^ 33) * 2 ^ 19) by ring.
  pose proof (Z.div_mod k (2 ^ 19) ltac:(lia)). pose proof (Z.mod_pos_bound k (2 ^ 19) ltac:(lia)).
  rewrite wrap_small by (split; lia). rewrite Z.shiftr_div_pow2, Z.div_add by lia. lia.
Qed.

Lemma fp64_fixup n : is_u64 n -> VARIANT2_INTEGER_MATH_SQRT_FIXUP n (VARIANT2_INTEGER_MATH_SQRT_STEP_FP64 n) = isqrt_spec n.
Proof. intros Hn. destruct (fp64_step n Hn) as (x & Hx & Hd & ->). destruct (approx_ok n x Hn Hx Hd). by apply fixup_ok. Qed.

Lemma sse2_fixup n : is_u64 n -> VARIANT2_INTEGER_MATH_SQRT_FIXUP n (VARIANT2_INTEGER_MATH_SQRT_STEP_SSE2 n) = isqrt_spec n.
Proof. intros Hn. destruct (sse2_step n Hn) as (x & Hx & Hd & ->). destruct (approx_ok n x Hn Hx Hd). by apply fixup_ok. Qed.

(** ** Theorem *)

(** The integer loop, the double precision step with its fix-up and the
    SSE2 step with its fix-up all return the integer part of
    2 sqrt(2^64 + n) - 2^33, for every 64-bit [n]; it fits 32 bits. *)
Theorem int_sqrt_correct n : is_u64 n ->
  integer_square_root_v2 n = isqrt_spec n /\
  VARIANT2_INTEGER_MATH_SQRT_FIXUP n (VARIANT2_INTEGER_MATH_SQRT_STEP_FP64 n) = isqrt_spec n /\
  VARIANT2_INTEGER_MATH_SQRT_FIXUP n (VARIANT2_INTEGER_MATH_SQRT_STEP_SSE2 n) = isqrt_spec n /\
  is_u32 (isqrt_spec n).
Proof.
  intros Hn. split_and!.
  - by apply sqrt_v2_ok.
  - by apply fp64_fixup.
  - by apply sse2_fixup.
  - pose proof (spec_range n Hn). split; lia.
Qed.

Lemma int_sqrt_correct_witness :
  integer_square_root_v2 (2 ^ 55 + 20963331) = 8384515 /\
  VARIANT2_INTEGER_MATH_SQRT_FIXUP (2 ^ 55 + 20963331) (VARIANT2_INTEGER_MATH_SQRT_STEP_FP64 (2 ^ 55 + 20963331)) = 8384515 /\
  VARIANT2_INTEGER_MATH_SQRT_FIXUP (2 ^ 55 + 20963331) (VARIANT2_INTEGER_MATH_SQRT_STEP_SSE2 (2 ^ 55 + 20963331)) = 8384515 /\
  is_u32 8384515.
Proof.
  apply (int_sqrt_correct (2 ^ 55 + 20963331)). split; [discriminate|reflexivity].
Defined.
