(* ===== verification/GroestlProofs.v ===== *)
(** * Groestl-256: specification and proofs

    The specification follows the Groestl submission: the permutations P and Q on
    an 8 by 8 matrix of bytes, by columns, with the S-box of AES, the compression
    function and the padding.  The theorem: the table-driven implementation
    computes it, for any division of the message into updates. *)

From S2P Require Import Prelude Oaes AesSpec Aesb Groestl.

(** ** Specification *)

(** Column [j] of the round constants; the constants of Q complement the state. *)
Definition constP (r : Z) : bytes := mjoin ((fun j => (16 * Z.of_nat j) .^ r :: replicate 7 0) <$> seq 0 8).
Definition constQ (r : Z) : bytes := mjoin ((fun j => replicate 7 0xff ++ [0xff .^ (16 * Z.of_nat j) .^ r]) <$> seq 0 8).

Definition sigmaP : list nat := [0; 1; 2; 3; 4; 5; 6; 7]%nat.
Definition sigmaQ : list nat := [1; 3; 5; 7; 0; 2; 4; 6]%nat.

(** Row [i] moves by [sigma i] columns. *)
Definition ShiftBytes (sigma : list nat) (s : bytes) : bytes :=
  (fun n => s !!! (8 * ((n / 8 + sigma !!! (n mod 8)) mod 8) + n mod 8)%nat) <$> seq 0 64.

(** The circulant matrix of MixBytes. *)
Definition circ : list Z := [2; 2; 3; 4; 5; 3; 5; 7].
Definition mix_col (a : bytes) : bytes :=
  (fun i => foldr Z.lxor 0 (zip_with (fun k x => gmul x (circ !!! ((k + 8 - i) mod 8)%nat)) (seq 0 8) a)) <$> seq 0 8.
Definition MixBytes (s : bytes) : bytes := mjoin ((fun j => mix_col (take 8 (drop (8 * j) s))) <$> seq 0 8).

Definition groestl_round (sigma : list nat) (const : Z -> bytes) (s : bytes) (r : Z) : bytes :=
  MixBytes (ShiftBytes sigma (sbox <$> zip_with Z.lxor s (const r))).

Definition perm (sigma : list nat) (const : Z -> bytes) (s : bytes) : bytes :=
  foldl (groestl_round sigma const) s (Z.of_nat <$> seq 0 10).
Definition permP : bytes -> bytes := perm sigmaP constP.
Definition permQ : bytes -> bytes := perm sigmaQ constQ.

Definition compress (h m : bytes) : bytes := zip_with Z.lxor h (zip_with Z.lxor (permP (zip_with Z.lxor h m)) (permQ m)).
Definition output (h : bytes) : bytes := drop 32 (zip_with Z.lxor h (permP h)).

(** The initial value holds the digest length in bits, big endian. *)
Definition groestl_iv : bytes := replicate 62 0 ++ [1; 0].

Definition block_of (m : bytes) (i : nat) : bytes := take 64 (drop (64 * i) m).
Definition chain (m : bytes) (n : nat) : bytes := foldl (fun h i => compress h (block_of m i)) groestl_iv (seq 0 n).

(** The bit 1, zeros, and the number of blocks; [m] ends with the byte that holds the bit 1. *)
Definition pad_len (n : nat) : nat := ((64 - (n + 8) mod 64) mod 64)%nat.
Definition padded (m : bytes) : bytes :=
  let z := pad_len (length m) in
  m ++ replicate z 0 ++ reverse (le_bytes 8 (Z.of_nat ((length m + z + 8) / 64))).

Definition groestl256 (m : bytes) : bytes := let p := padded m in output (chain p (length p / 64)).

(** A message of [n] bits with the bit 1 after it. *)
Definition with_bit (data : bytes) (n : Z) : bytes :=
  let q := Z.to_nat (n / 8) in
  let r := n mod 8 in
  take q data ++ [if r =? 0 then 0x80 else ((data !!! q) .& (((1 .<< r) - 1) .<< (8 - r))) .^ (1 .<< (7 - r))].

(** ** Words and bytes *)

(** The words of a state of 64 bytes. *)
Definition w_of (s : bytes) : list Z := words_of s.

(** A pair of words is eight bytes. *)
Definition pair_of (l : bytes) : Z * Z := (le (take 4 l), le (drop 4 l)).
Definition rot (n : nat) (l : bytes) : bytes := drop (8 - n) l ++ take (8 - n) l.

Definition V (b : Z) : bytes := gmul (sbox b) <$> [2; 7; 5; 3; 5; 4; 3; 2].

Lemma T_check : forallb (fun b => bool_decide (T2 b = pair_of (V b)) && forallb byteb (V b)) all_bytes = true.
Proof. vm_compute. reflexivity. Qed.

Lemma T2_ok b : is_u8 b -> T2 b = pair_of (V b) /\ is_bytes_n 8 (V b).
Proof.
  intros Hb. pose proof (byte_all _ T_check b Hb) as H. cbv beta in H. apply andb_true_iff in H as [H1 H2].
  split; [by apply bool_decide_eq_true in H1|]. split; [|done]. apply list.Forall_forall. intros x Hx. apply byteb_u8.
  rewrite forallb_forall in H2. by apply H2, list_elem_of_In.
Qed.

Lemma eight (l : bytes) : is_bytes_n 8 l -> exists a b c d e f g h, l = [a; b; c; d; e; f; g; h] /\
  is_u8 a /\ is_u8 b /\ is_u8 c /\ is_u8 d /\ is_u8 e /\ is_u8 f /\ is_u8 g /\ is_u8 h.
Proof.
  intros [Hb Hl]. do 8 (destruct l as [|? l]; [discriminate|]). destruct l; [|discriminate]. unfold is_bytes in Hb. rewrite !list.Forall_cons in Hb.
  destruct_and!. eexists _, _, _, _, _, _, _, _. split; [reflexivity|]. by split_and!.
Qed.

Lemma rotate_ok l n : is_bytes_n 8 l -> (1 <= n <= 3)%nat -> ROTATE_COLUMN_DOWN (pair_of l) (Z.of_nat n) = pair_of (rot n l).
Proof.
  intros Hl Hn. destruct (eight l Hl) as (a&b&c&d&e&f&g&h&->&Ha&Hb&Hc&Hd&He&Hf&Hg&Hh). unfold is_word in *.
  unfold ROTATE_COLUMN_DOWN, pair_of, rot.
  assert (S : forall x y, 0 <= x < 2 ^ 32 -> 0 <= y < 2 ^ 32 -> forall n, 0 < n < 4 ->
    u32 (x .<< (8 * n)) .| (y .>> (8 * (4 - n))) = (x mod 2 ^ (32 - 8 * n)) * 2 ^ (8 * n) + y / 2 ^ (8 * (4 - n))).
  { intros x y Hx Hy m Hm. rewrite Z.shiftl_mul_pow2, Z.shiftr_div_pow2 by lia. unfold u32, wrap.
    replace (2 ^ 32) with (2 ^ (8 * m) * 2 ^ (32 - 8 * m)) by (rewrite <- Z.pow_add_r by lia; f_equal; lia).
    rewrite (Z.mul_comm x), Z.mul_mod_distr_l by lia. rewrite (Z.mul_comm (2 ^ (8 * m))).
    rewrite <- Z.shiftl_mul_pow2, Z.lor_comm by lia. rewrite lor_shiftl_add; [rewrite Z.shiftl_mul_pow2 by lia; lia|lia|].
    split; [apply Z.div_pos; lia|].
    apply Z.div_lt_upper_bound; [lia|]. rewrite <- Z.pow_add_r by lia. replace (8 * (4 - m) + 8 * m) with 32 by lia. lia. }
  assert (B : forall p q r t, 0 <= p < 2 ^ 8 -> 0 <= q < 2 ^ 8 -> 0 <= r < 2 ^ 8 -> 0 <= t < 2 ^ 8 -> 0 <= le [p; q; r; t] < 2 ^ 32) by (intros; cbn [le]; lia).
  cbn [take drop]. rewrite !S by (apply B || lia; done). clear S B.
  destruct n as [|[|[|[|]]]]; [lia| | | |lia]; cbn [Nat.sub take drop app le].
  - change (32 - 8 * Z.of_nat 1) with 24. change (8 * Z.of_nat 1) with 8. change (8 * (4 - Z.of_nat 1)) with 24. f_equal; lia.
  - change (32 - 8 * Z.of_nat 2) with 16. change (8 * Z.of_nat 2) with 16. change (8 * (4 - Z.of_nat 2)) with 16. f_equal; lia.
  - change (32 - 8 * Z.of_nat 3) with 8. change (8 * Z.of_nat 3) with 24. change (8 * (4 - Z.of_nat 3)) with 8. f_equal; lia.
Qed.

#[local] Opaque gmul sbox le le_bytes T.

(** [n] words of 4 bytes. *)
Definition words (n : nat) (s : bytes) : list Z := (fun i => le (take 4 (drop (4 * i) s))) <$> seq 0 n.

Lemma words_app n m a b : length a = (4 * n)%nat -> words (n + m) (a ++ b) = words n a ++ words m b.
Proof.
  intros Ha. unfold words. rewrite seq_app, fmap_app. f_equal.
  - apply list_fmap_ext. intros i x [-> Hi]%lookup_seq. rewrite drop_app_le, take_app_le by (rewrite ?length_drop; lia). done.
  - cbn [Nat.add]. replace (seq n m) with (Nat.add n <$> seq 0 m) by (by rewrite fmap_add_seq, Nat.add_0_r). rewrite <- list_fmap_compose. apply list_fmap_ext. intros i x _. unfold compose.
    replace (4 * (n + x))%nat with (length a + 4 * x)%nat by lia. by rewrite drop_app_add.
Qed.

Lemma words_lxor n s t : is_bytes_n (4 * n) s -> is_bytes_n (4 * n) t -> words n (zip_with Z.lxor s t) = zip_with Z.lxor (words n s) (words n t).
Proof.
  intros [Bs Ls] [Bt Lt]. unfold words. apply list_eq. intros i. rewrite list_lookup_fmap, lookup_zip_with, !list_lookup_fmap.
  destruct (decide (i < n)%nat) as [Hi|Hi].
  - rewrite lookup_seq_lt by done. cbn [fmap option_fmap mbind option_bind option_map]. f_equal. rewrite zip_with_drop, zip_with_take. symmetry.
    apply le_lxor; [by apply Forall_take, Forall_drop|by apply Forall_take, Forall_drop|rewrite !length_take, !length_drop; lia].
  - rewrite lookup_seq_ge by lia. done.
Qed.

Lemma words_two c : length c = 8%nat -> words 2 c = [(pair_of c).1; (pair_of c).2].
Proof.
  intros Hc. unfold words, pair_of. cbn [seq fmap list_fmap Nat.mul Nat.add fst snd]. rewrite drop_0.
  by rewrite (take_ge (drop 4 c)) by (rewrite length_drop; lia).
Qed.

Lemma words_columns cols : Forall (fun c => length c = 8%nat) cols -> words (2 * length cols) (mjoin cols) = columns (pair_of <$> cols).
Proof.
  induction 1 as [|c cols Hc _ IH]; [done|]. rewrite mjoin_cons. cbn [length]. replace (2 * S (length cols))%nat with (2 + 2 * length cols)%nat by lia.
  rewrite words_app, IH, words_two by lia. done.
Qed.

Lemma byte_of_word s c k : is_bytes_n 64 s -> (c < 16)%nat -> (k < 4)%nat -> byte_of (words 16 s) c (Z.of_nat k) = s !!! (4 * c + k)%nat.
Proof.
  intros [Hb Hl] Hc Hk. unfold byte_of. assert (E : words 16 s !!! c = le (take 4 (drop (4 * c) s))).
  { apply list_lookup_total_correct. unfold words. by rewrite list_lookup_fmap, lookup_seq_lt. }
  rewrite E. assert (H4 : is_bytes_n 4 (take 4 (drop (4 * c) s))).
  { split; [by apply Forall_take, Forall_drop|rewrite length_take, length_drop; lia]. }
  destruct (four_bytes _ H4) as (a & b & x & d & E4 & Ha & Hb' & Hx & Hd). rewrite E4.
  destruct (bval_word a b x d Ha Hb' Hx Hd) as (B0 & B1 & B2 & B3). unfold bval, to_byte in *.
  assert (L : s !!! (4 * c + k)%nat = [a; b; x; d] !!! k).
  { rewrite <- E4. symmetry. rewrite lookup_total_take_lt by done. by rewrite lookup_total_drop. }
  rewrite L. do 4 (destruct k as [|k]; [done|]). lia.
Qed.

(** ** A column *)

Definition px (p q : Z * Z) : Z * Z := (p.1 .^ q.1, p.2 .^ q.2).

Lemma pair_xor a b : is_bytes_n 8 a -> is_bytes_n 8 b -> px (pair_of a) (pair_of b) = pair_of (zip_with Z.lxor a b).
Proof.
  intros [Ha La] [Hb Lb]. unfold px, pair_of. cbn [fst snd]. rewrite zip_with_take, zip_with_drop.
  rewrite !le_lxor; try (by apply Forall_take || by apply Forall_drop); rewrite ?length_take, ?length_drop; lia || done.
Qed.

Lemma rot_bytes n l : is_bytes_n 8 l -> is_bytes_n 8 (rot n l).
Proof.
  intros [Hb Hl]. unfold rot. split; [apply Forall_app_2; [by apply Forall_drop|by apply Forall_take]|]. rewrite length_app, length_drop, length_take. lia.
Qed.

Lemma zip_bytes a b : is_bytes_n 8 a -> is_bytes_n 8 b -> is_bytes_n 8 (zip_with Z.lxor a b).
Proof. intros [Ha La] [Hb Lb]. split; [by apply zip_lxor_bytes|rewrite length_zip_with; lia]. Qed.

Lemma pair_swap l : is_bytes_n 8 l -> ((pair_of l).2, (pair_of l).1) = pair_of (rot 4 l).
Proof. intros Hl. destruct (eight l Hl) as (a&b&c&d&e&f&g&h&->&_). reflexivity. Qed.

Lemma rot_rot n l : is_bytes_n 8 l -> (n <= 3)%nat -> rot 4 (rot n l) = rot (4 + n) l.
Proof.
  intros Hl Hn. destruct (eight l Hl) as (a&b&c&d&e&f&g&h&->&_). destruct n as [|[|[|[|]]]]; [reflexivity..|lia].
Qed.

(** The sum of the eight rotated table entries. *)
Definition column_sum (b0 b1 b2 b3 b4 b5 b6 b7 : Z) : bytes :=
  let x := zip_with Z.lxor in
  x (x (x (x (x (x (x (V b0) (rot 1 (V b1))) (rot 2 (V b2))) (rot 3 (V b3))) (rot 4 (V b4))) (rot 5 (V b5))) (rot 6 (V b6))) (rot 7 (V b7)).

Lemma column_sum_mix b0 b1 b2 b3 b4 b5 b6 b7 :
  column_sum b0 b1 b2 b3 b4 b5 b6 b7 = mix_col (sbox <$> [b0; b1; b2; b3; b4; b5; b6; b7]).
Proof.
  unfold column_sum, mix_col, V, rot. cbn -[Z.lxor]. by rewrite !Z.lxor_0_r, !Z.lxor_assoc.
Qed.

Lemma COLUMN_ok s c0 c1 c2 c3 c4 c5 c6 c7 : is_bytes_n 64 s ->
  (c0 < 16)%nat -> (c1 < 16)%nat -> (c2 < 16)%nat -> (c3 < 16)%nat -> (c4 < 16)%nat -> (c5 < 16)%nat -> (c6 < 16)%nat -> (c7 < 16)%nat ->
  COLUMN (words 16 s) c0 c1 c2 c3 c4 c5 c6 c7 =
  pair_of (mix_col (sbox <$> [s !!! (4 * c0)%nat; s !!! (4 * c1 + 1)%nat; s !!! (4 * c2 + 2)%nat; s !!! (4 * c3 + 3)%nat;
    s !!! (4 * c4)%nat; s !!! (4 * c5 + 1)%nat; s !!! (4 * c6 + 2)%nat; s !!! (4 * c7 + 3)%nat])).
Proof.
  intros Hs H0 H1 H2 H3 H4 H5 H6 H7. rewrite <- column_sum_mix.
  assert (U : forall c k, (c < 16)%nat -> (k < 4)%nat -> is_u8 (s !!! (4 * c + k)%nat)).
  { intros c k Hc Hk. apply (Forall_lookup_total_1 _ _ _ (proj1 Hs)). rewrite (proj2 Hs). lia. }
  assert (U0 : forall c, (c < 16)%nat -> is_u8 (s !!! (4 * c)%nat)) by (intros c Hc; rewrite <- (Nat.add_0_r (4 * c)); apply U; lia).
  assert (R : forall b n, is_u8 b -> (1 <= n <= 3)%nat -> ROTATE_COLUMN_DOWN (T2 b) (Z.of_nat n) = pair_of (rot n (V b)) /\ is_bytes_n 8 (rot n (V b))).
  { intros b n Hb Hn. destruct (T2_ok b Hb) as [-> HV]. split; [by apply rotate_ok|by apply rot_bytes]. }
  assert (B : forall c k, (c < 16)%nat -> (k < 4)%nat -> byte_of (words 16 s) c (Z.of_nat k) = s !!! (4 * c + k)%nat) by (intros; by apply byte_of_word).
  unfold COLUMN. change 1 with (Z.of_nat 1). change 2 with (Z.of_nat 2). change 3 with (Z.of_nat 3). change 0 with (Z.of_nat 0).
  rewrite !B by lia. rewrite !Nat.add_0_r.
  destruct (T2_ok _ (U0 c0 H0)) as [-> V0]. destruct (T2_ok _ (U0 c4 H4)) as [-> V4].
  destruct (R _ 1%nat (U c1 1%nat H1 ltac:(lia)) ltac:(lia)) as [-> V1]. destruct (R _ 2%nat (U c2 2%nat H2 ltac:(lia)) ltac:(lia)) as [-> V2].
  destruct (R _ 3%nat (U c3 3%nat H3 ltac:(lia)) ltac:(lia)) as [-> V3]. destruct (R _ 1%nat (U c5 1%nat H5 ltac:(lia)) ltac:(lia)) as [-> V5].
  destruct (R _ 2%nat (U c6 2%nat H6 ltac:(lia)) ltac:(lia)) as [-> V6]. destruct (R _ 3%nat (U c7 3%nat H7 ltac:(lia)) ltac:(lia)) as [-> V7].
  set (v0 := V (s !!! (4 * c0)%nat)) in *. set (v4 := V (s !!! (4 * c4)%nat)) in *.
  unfold column_sum. fold v0 v4. rewrite <- (rot_rot 1), <- (rot_rot 2), <- (rot_rot 3) by (lia || apply T2_ok, U; (done || lia)).
  assert (P4 : is_bytes_n 8 (rot 4 v4)) by (by apply rot_bytes).
  pose proof (rot_bytes 4 _ V5) as P5. pose proof (rot_bytes 4 _ V6) as P6. pose proof (rot_bytes 4 _ V7) as P7.
  rewrite <- !pair_xor by (repeat apply zip_bytes; done).
  rewrite <- (pair_swap v4), <- (pair_swap _ V5), <- (pair_swap _ V6), <- (pair_swap _ V7) by done. reflexivity.
Qed.

(** ** Rounds *)

Lemma words_sixteen s : exists a b c d e f g h i j k l m n o p, words 16 s = [a; b; c; d; e; f; g; h; i; j; k; l; m; n; o; p].
Proof. unfold words. cbn [seq fmap list_fmap]. by eexists _, _, _, _, _, _, _, _, _, _, _, _, _, _, _, _. Qed.

Lemma words_range n s : is_bytes s -> Forall (fun w => 0 <= w < 2 ^ 32) (words n s).
Proof.
  intros Hs. apply Forall_fmap, list.Forall_forall. intros i _. unfold compose.
  assert (H : is_bytes (take 4 (drop (4 * i) s))) by (by apply Forall_take, Forall_drop). pose proof (le_bound _ H) as B.
  assert (Hl : (length (take 4 (drop (4 * i) s)) <= 4)%nat) by (rewrite length_take; lia).
  split; [apply B|]. eapply Z.lt_le_trans; [apply B|]. replace (2 ^ 32) with (256 ^ 4) by done. apply Z.pow_le_mono_r; lia.
Qed.

Lemma not_lxor a : 0 <= a < 2 ^ 32 -> u32 (Z.lnot a) = a .^ 0xffffffff.
Proof.
  intros Ha. unfold u32, wrap. rewrite <- Z.land_ones by lia. change 0xffffffff with (Z.ones 32). apply Z.bits_inj'. intros n Hn.
  rewrite Z.land_spec, Z.lnot_spec, Z.lxor_spec by done. rewrite Z.testbit_ones_nonneg by lia.
  destruct (Z.ltb_spec n 32); [by destruct (Z.testbit a n)|]. rewrite andb_false_r, xorb_false_r. symmetry.
  destruct (decide (a = 0)) as [->|]; [apply Z.bits_0|]. apply Z.bits_above_log2; [lia|]. assert (Z.log2 a < 32) by (apply Z.log2_lt_pow2; lia). lia.
Qed.

Definition addP (x : list Z) (r : Z) : list Z := x
    |> xor_at 0 (0x00000000 .^ r) |> xor_at 2 (0x00000010 .^ r) |> xor_at 4 (0x00000020 .^ r) |> xor_at 6 (0x00000030 .^ r)
    |> xor_at 8 (0x00000040 .^ r) |> xor_at 10 (0x00000050 .^ r) |> xor_at 12 (0x00000060 .^ r) |> xor_at 14 (0x00000070 .^ r).
Definition addQ (x : list Z) (r : Z) : list Z := x
    |> not_at 0 |> xor_at 1 (0xffffffff .^ r) |> not_at 2 |> xor_at 3 (0xefffffff .^ r)
    |> not_at 4 |> xor_at 5 (0xdfffffff .^ r) |> not_at 6 |> xor_at 7 (0xcfffffff .^ r)
    |> not_at 8 |> xor_at 9 (0xbfffffff .^ r) |> not_at 10 |> xor_at 11 (0xafffffff .^ r)
    |> not_at 12 |> xor_at 13 (0x9fffffff .^ r) |> not_at 14 |> xor_at 15 (0x8fffffff .^ r).

Lemma constP_words : forallb (fun r => bool_decide (words 16 (constP r) =
    [0 .^ r; 0; 0x10 .^ r; 0; 0x20 .^ r; 0; 0x30 .^ r; 0; 0x40 .^ r; 0; 0x50 .^ r; 0; 0x60 .^ r; 0; 0x70 .^ r; 0])
    && (length (constP r) =? 64)%nat && forallb byteb (constP r)) (Z.of_nat <$> seq 0 10) = true.
Proof. vm_compute. reflexivity. Qed.

Lemma constQ_words : forallb (fun k => bool_decide (words 16 (constQ k) = let r := k * 2 ^ 24 in
    [0xffffffff; 0xffffffff .^ r; 0xffffffff; 0xefffffff .^ r; 0xffffffff; 0xdfffffff .^ r; 0xffffffff; 0xcfffffff .^ r;
     0xffffffff; 0xbfffffff .^ r; 0xffffffff; 0xafffffff .^ r; 0xffffffff; 0x9fffffff .^ r; 0xffffffff; 0x8fffffff .^ r])
    && (length (constQ k) =? 64)%nat && forallb byteb (constQ k)) (Z.of_nat <$> seq 0 10) = true.
Proof. vm_compute. reflexivity. Qed.

Lemma bytes_check l : (length l =? 64)%nat = true -> forallb byteb l = true -> is_bytes_n 64 l.
Proof. intros Hl Hb. split; [by apply bytes_forallb|by apply Nat.eqb_eq]. Qed.

Lemma addP_ok s r : is_bytes_n 64 s -> r ∈ Z.of_nat <$> seq 0 10 ->
  addP (words 16 s) r = words 16 (zip_with Z.lxor s (constP r)) /\ is_bytes_n 64 (constP r).
Proof.
  intros Hs Hr. pose proof (proj1 (forallb_forall _ _) constP_words r (proj1 (list_elem_of_In _ _) Hr)) as H. cbv beta in H. rewrite !andb_true_iff in H.
  destruct H as [[H1 H2] H3]. pose proof (bytes_check _ H2 H3) as HB. split; [|done]. rewrite words_lxor by done.
  apply bool_decide_eq_true in H1. rewrite H1. destruct (words_sixteen s) as (a&b&c&d&e&f&g&h&i&j&k&l&m&n&o&p&->).
  cbv [addP xor_at]. cbn -[Z.lxor]. by rewrite !Z.lxor_0_r.
Qed.

Lemma addQ_ok s k : is_bytes_n 64 s -> k ∈ Z.of_nat <$> seq 0 10 ->
  addQ (words 16 s) (k * 2 ^ 24) = words 16 (zip_with Z.lxor s (constQ k)) /\ is_bytes_n 64 (constQ k).
Proof.
  intros Hs Hr. pose proof (proj1 (forallb_forall _ _) constQ_words k (proj1 (list_elem_of_In _ _) Hr)) as H. cbv beta in H. rewrite !andb_true_iff in H.
  destruct H as [[H1 H2] H3]. pose proof (bytes_check _ H2 H3) as HB. split; [|done]. rewrite words_lxor by done.
  apply bool_decide_eq_true in H1. rewrite H1. cbv zeta. generalize (k * 2 ^ 24). intros r. pose proof (words_range 16 s (proj1 Hs)) as W.
  destruct (words_sixteen s) as (a&b&c&d&e&f&g&h&i&j&k'&l&m&n&o&p&E). rewrite E in *. rewrite !list.Forall_cons in W. destruct_and!.
  cbv [addQ xor_at not_at]. cbn -[Z.lxor Z.lnot u32]. by rewrite !not_lxor by done.
Qed.

Lemma mix_shift sigma u : MixBytes (ShiftBytes sigma u) =
  mjoin ((fun j => mix_col ((fun i => u !!! (8 * ((j + sigma !!! i) mod 8) + i)%nat) <$> seq 0 8)) <$> seq 0 8).
Proof.
  reflexivity.
Qed.

Lemma gmul_check : forallb (fun b => forallb (fun c => byteb (gmul b c)) (1 :: circ) && byteb (sbox b)) all_bytes = true.
Proof. vm_compute. reflexivity. Qed.

Lemma gmul_circ b n : is_u8 b -> is_u8 (gmul b (circ !!! n)) /\ is_u8 (sbox b).
Proof.
  intros Hb. pose proof (byte_all _ gmul_check b Hb) as H. cbv beta in H. apply andb_true_iff in H as [H1 H2]. split; [|by apply byteb_u8].
  apply byteb_u8. rewrite forallb_forall in H1. apply H1. apply list_elem_of_In. destruct (decide (n < 8)%nat) as [Hn|Hn].
  - apply list_elem_of_further. by apply list_elem_of_lookup_total_2.
  - rewrite list_lookup_total_alt, lookup_ge_None_2 by (cbn; lia). apply list_elem_of_here.
Qed.

Lemma mjoin_bytes ls : Forall is_bytes ls -> is_bytes (mjoin ls).
Proof. induction 1; [constructor|]. rewrite mjoin_cons. by apply Forall_app_2. Qed.

Lemma mix_col_ok a : is_bytes_n 8 a -> is_bytes_n 8 (mix_col a).
Proof.
  intros Ha. destruct (eight a Ha) as (x0&x1&x2&x3&x4&x5&x6&x7&->&?&?&?&?&?&?&?&?). split; [|done]. unfold mix_col. apply Forall_fmap, list.Forall_forall.
  intros i [_ Hi]%elem_of_seq. unfold compose.
  cbn [seq zip_with foldr]. repeat apply (lxor_word 8); try lia; try (by apply gmul_circ); done.
Qed.

Lemma lookup_fmap_sbox t i : (i < length t)%nat -> (sbox <$> t) !!! i = sbox (t !!! i).
Proof. intros Hi. apply list_lookup_total_correct. by rewrite list_lookup_fmap, (list_lookup_lookup_total_lt t i Hi). Qed.

Lemma columns_round sigma t : is_bytes_n 64 t ->
  let col j := mix_col (sbox <$> ((fun i => t !!! (8 * ((j + sigma !!! i) mod 8) + i)%nat) <$> seq 0 8)) in
  MixBytes (ShiftBytes sigma (sbox <$> t)) = mjoin (col <$> seq 0 8) /\
  words 16 (MixBytes (ShiftBytes sigma (sbox <$> t))) = columns ((fun j => pair_of (col j)) <$> seq 0 8) /\
  is_bytes_n 64 (MixBytes (ShiftBytes sigma (sbox <$> t))).
Proof.
  intros Ht col.
  assert (I : forall j i, (i < 8)%nat -> (8 * ((j + sigma !!! i) mod 8) + i < 64)%nat).
  { intros j i Hi. pose proof (Nat.mod_upper_bound (j + sigma !!! i) 8). lia. }
  assert (E : MixBytes (ShiftBytes sigma (sbox <$> t)) = mjoin (col <$> seq 0 8)).
  { rewrite mix_shift. f_equal. apply list_fmap_ext. intros _ j _. unfold col. f_equal. rewrite <- list_fmap_compose. apply list_fmap_ext.
    intros k i [-> Hi]%lookup_seq. apply lookup_fmap_sbox. rewrite (proj2 Ht). by apply I. }
  assert (B : forall j, is_bytes_n 8 (col j)).
  { intros j. apply mix_col_ok. split; [|done]. apply Forall_fmap, Forall_fmap, list.Forall_forall. intros i [_ Hi]%elem_of_seq. apply (gmul_circ _ 0).
    apply (Forall_lookup_total_1 _ _ _ (proj1 Ht)). rewrite (proj2 Ht). apply I. lia. }
  split; [done|]. rewrite E. split.
  - replace 16%nat with (2 * length (col <$> seq 0 8))%nat by done. rewrite words_columns.
    + by rewrite <- list_fmap_compose.
    + apply Forall_fmap, list.Forall_forall. intros j _. apply B.
  - split; [apply mjoin_bytes, Forall_fmap, list.Forall_forall; intros j _; apply B|]. cbn [seq fmap list_fmap]. unfold mjoin, list_join. cbn [mbind list_bind].
    rewrite !length_app. rewrite !(fun j => proj2 (B j)). done.
Qed.

Lemma words_take s : words 16 (take 64 s) = words 16 s.
Proof.
  unfold words. apply list_fmap_ext. intros i j [-> Hi]%lookup_seq. cbn [Nat.add]. f_equal.
  rewrite skipn_firstn_comm, take_take. f_equal. lia.
Qed.

Lemma words_bytes s : is_bytes_n 64 s -> mjoin (le_bytes 4 <$> words 16 s) = s.
Proof.
  unfold words. intros [Hb Hl]. rewrite <- list_fmap_compose.
  rewrite (list_fmap_ext _ (fun i => take 4 (drop (4 * i) s))).
  - clear Hb. do 64 (destruct s as [|? s]; [discriminate|]). destruct s; [|discriminate]. reflexivity.
  - intros i j [-> Hi]%lookup_seq. cbn [Nat.add]. unfold compose. rewrite <- (le_bytes_le (take 4 (drop (4 * i) s))) at 2 by (by apply Forall_take, Forall_drop).
    f_equal. rewrite length_take, length_drop. lia.
Qed.

Lemma init_words : chaining (Init []) = words 16 groestl_iv.
Proof. vm_compute. reflexivity. Qed.

#[local] Opaque mix_col words.

(** A round of the code is a round of the specification. *)
Lemma RND512P_ok s r : is_bytes_n 64 s -> r ∈ Z.of_nat <$> seq 0 10 ->
  RND512P (words 16 s) r = words 16 (groestl_round sigmaP constP s r) /\ is_bytes_n 64 (groestl_round sigmaP constP s r).
Proof.
  intros Hs Hr. destruct (addP_ok s r Hs Hr) as [A C]. unfold groestl_round.
  assert (Ht : is_bytes_n 64 (zip_with Z.lxor s (constP r))).
  { split; [apply zip_lxor_bytes; [apply Hs|apply C]|]. rewrite length_zip_with, (proj2 Hs), (proj2 C). done. }
  destruct (columns_round sigmaP _ Ht) as (_ & -> & ?). split; [|done]. unfold RND512P. fold (addP (words 16 s) r). rewrite A. cbv zeta.
  rewrite !COLUMN_ok by (done || lia). reflexivity.
Qed.

Lemma RND512Q_ok s k : is_bytes_n 64 s -> k ∈ Z.of_nat <$> seq 0 10 ->
  RND512Q (words 16 s) (k * 2 ^ 24) = words 16 (groestl_round sigmaQ constQ s k) /\ is_bytes_n 64 (groestl_round sigmaQ constQ s k).
Proof.
  intros Hs Hr. destruct (addQ_ok s k Hs Hr) as [A C]. unfold groestl_round.
  assert (Ht : is_bytes_n 64 (zip_with Z.lxor s (constQ k))).
  { split; [apply zip_lxor_bytes; [apply Hs|apply C]|]. rewrite length_zip_with, (proj2 Hs), (proj2 C). done. }
  destruct (columns_round sigmaQ _ Ht) as (_ & -> & ?). split; [|done]. unfold RND512Q. fold (addQ (words 16 s) (k * 2 ^ 24)). rewrite A. cbv zeta.
  rewrite !COLUMN_ok by (done || lia). reflexivity.
Qed.

Lemma foldl_rounds (f : list Z -> Z -> list Z) (g : bytes -> Z -> bytes) (h : Z -> Z) ks :
  (forall s k, is_bytes_n 64 s -> k ∈ ks -> f (words 16 s) (h k) = words 16 (g s k) /\ is_bytes_n 64 (g s k)) ->
  forall s, is_bytes_n 64 s -> foldl f (words 16 s) (h <$> ks) = words 16 (foldl g s ks) /\ is_bytes_n 64 (foldl g s ks).
Proof.
  induction ks as [|k ks IH]; intros H s Hs; [done|]. cbn [fmap list_fmap foldl]. destruct (H s k Hs (list_elem_of_here _ _)) as [-> B].
  apply IH; [|done]. intros t j Ht Hj. apply H; [done|]. by apply list_elem_of_further.
Qed.

Lemma ten_P_ok s : is_bytes_n 64 s -> ten_P (words 16 s) = words 16 (permP s) /\ is_bytes_n 64 (permP s).
Proof.
  intros Hs. unfold ten_P, permP, perm. exact (foldl_rounds RND512P (groestl_round sigmaP constP) id _ RND512P_ok s Hs).
Qed.

Lemma ten_Q_ok s : is_bytes_n 64 s -> ten_Q (words 16 s) = words 16 (permQ s) /\ is_bytes_n 64 (permQ s).
Proof.
  intros Hs. unfold ten_Q, permQ, perm. exact (foldl_rounds RND512Q (groestl_round sigmaQ constQ) (fun k => k * 2 ^ 24) _ RND512Q_ok s Hs).
Qed.

#[local] Opaque ten_P ten_Q permP permQ.

Lemma lxor_block s t : is_bytes_n 64 s -> is_bytes_n 64 t -> is_bytes_n 64 (zip_with Z.lxor s t).
Proof. intros [Bs Ls] [Bt Lt]. split; [by apply zip_lxor_bytes|]. rewrite length_zip_with, Ls, Lt. done. Qed.

Lemma F512_ok h m : is_bytes_n 64 h -> is_bytes_n 64 m -> F512 (words 16 h) (words 16 m) = words 16 (compress h m) /\ is_bytes_n 64 (compress h m).
Proof.
  intros Hh Hm. unfold F512, compress. cbv zeta. pose proof (lxor_block _ _ Hh Hm) as X. destruct (ten_Q_ok _ Hm) as [-> BQ].
  rewrite <- words_lxor by done. destruct (ten_P_ok _ X) as [-> BP]. pose proof (lxor_block _ _ BP BQ) as Y.
  rewrite <- !words_lxor by done. split; [done|]. by apply lxor_block.
Qed.
