(* ===== verification/GroestlStream.v ===== *)
(** * Groestl-256: the stream

    The context after any number of updates holds the digested blocks of the
    message and the bytes after them; [Final] pads and gives the digest. *)

From S2P Require Import Prelude Oaes AesSpec Aesb Groestl GroestlProofs.

#[local] Opaque words gmul sbox le T permP permQ ten_P ten_Q.

#[local] Opaque F512 compress.

(** ** The stream *)

Lemma chain_S m n : chain m (S n) = compress (chain m n) (block_of m n).
Proof. unfold chain. by rewrite seq_S, foldl_app. Qed.

Lemma block_prefix m x n : (64 * n + 64 <= length m)%nat -> block_of (m ++ x) n = block_of m n.
Proof. intros H. unfold block_of. rewrite drop_app_le by lia. by rewrite take_app_le by (rewrite length_drop; lia). Qed.

Lemma chain_prefix m x n : (64 * n <= length m)%nat -> chain (m ++ x) n = chain m n.
Proof. induction n as [|n IH]; intros H; [done|]. by rewrite !chain_S, IH, block_prefix by lia. Qed.

Lemma block_bytes m n : is_bytes m -> (64 * n + 64 <= length m)%nat -> is_bytes_n 64 (block_of m n).
Proof. intros Hm H. split; [by apply Forall_take, Forall_drop|]. unfold block_of. rewrite length_take, length_drop. lia. Qed.

Lemma chain_bytes m n : is_bytes m -> (64 * n <= length m)%nat -> is_bytes_n 64 (chain m n).
Proof.
  intros Hm. induction n as [|n IH]; intros H; [split; [by apply bytes_check|done]|]. rewrite chain_S. apply F512_ok; [apply IH; lia|]. apply block_bytes; [done|lia].
Qed.

(** [n] blocks of [m] are digested, the rest is in the buffer, which may be full. *)
Record digested (ctx : hashState) (m : bytes) (n : nat) : Prop := {
  d_chain : chaining ctx = words 16 (chain m n);
  d_c1 : is_u32 (block_counter1 ctx);
  d_c2 : is_u32 (block_counter2 ctx);
  d_count : block_counter1 ctx + 2 ^ 32 * block_counter2 ctx = Z.of_nat n;
  d_ptr : 0 <= buf_ptr ctx <= 64;
  d_len : Z.of_nat (length m) = 64 * Z.of_nat n + buf_ptr ctx;
  d_room : length (buffer ctx) = 64%nat;
  d_buf : take (Z.to_nat (buf_ptr ctx)) (buffer ctx) = drop (64 * n) m;
  d_bytes : is_bytes m;
}.

Lemma init_digested mem : length mem = 64%nat -> digested (Init mem) [] 0.
Proof. intros Hm. split; try done. constructor. Qed.

Lemma put_digested ctx m n b : digested ctx m n -> buf_ptr ctx < 64 -> is_u8 b -> digested (put ctx b) (m ++ [b]) n.
Proof.
  intros [] Hp Hb. split; cbn [put chaining block_counter1 block_counter2 buf_ptr buffer]; [|assumption..| | | | |].
  - rewrite chain_prefix by lia. assumption.
  - lia.
  - rewrite length_app. cbn [length]. lia.
  - by rewrite length_insert.
  - replace (Z.to_nat (buf_ptr ctx + 1)) with (S (Z.to_nat (buf_ptr ctx))) by lia. rewrite (take_S_r _ _ b) by (apply list_lookup_insert_eq; lia).
    rewrite take_insert_ge by lia. rewrite drop_app_le by lia. by rewrite d_buf0.
  - apply Forall_app_2; [assumption|]. by constructor.
Qed.

Lemma puts_digested ctx m n l : digested ctx m n -> buf_ptr ctx + Z.of_nat (length l) <= 64 -> is_bytes l ->
  digested (foldl put ctx l) (m ++ l) n /\ buf_ptr (foldl put ctx l) = buf_ptr ctx + Z.of_nat (length l).
Proof.
  revert ctx m. induction l as [|b l IH]; intros ctx m H Hp Hl; [rewrite app_nil_r; cbn; split; [done|lia]|]. cbn [length foldl] in *.
  apply Forall_cons_1 in Hl as [Hb Hl]. destruct (IH (put ctx b) (m ++ [b])) as [D P].
  - apply put_digested; [done|lia|done].
  - cbn [put buf_ptr]. lia.
  - done.
  - rewrite <- app_assoc in D. split; [done|]. rewrite P. cbn [put buf_ptr]. lia.
Qed.

Lemma count_ok ctx n : is_u32 (block_counter1 ctx) -> is_u32 (block_counter2 ctx) ->
  block_counter1 ctx + 2 ^ 32 * block_counter2 ctx = Z.of_nat n -> Z.of_nat n + 1 < 2 ^ 64 ->
  is_u32 (block_counter1 (count ctx)) /\ is_u32 (block_counter2 (count ctx)) /\
  block_counter1 (count ctx) + 2 ^ 32 * block_counter2 (count ctx) = Z.of_nat (S n).
Proof.
  intros H1 H2 Hc Hn. unfold count, u32, wrap, is_word in *. cbn [block_counter1 block_counter2].
  destruct (Z.eqb_spec ((block_counter1 ctx + 1) mod 2 ^ 32) 0) as [E|E]; lia.
Qed.

(** One turn of [Transform], on a block that follows the digested ones. *)
Lemma block_digested ctx m n blk rest :
  chaining ctx = words 16 (chain m n) -> is_bytes (m ++ rest) -> (64 * n <= length m)%nat -> (64 * n + 64 <= length (m ++ rest))%nat -> take 64 blk = block_of (m ++ rest) n ->
  chaining (count (set_chaining ctx (F512 (chaining ctx) (words_of blk)))) = words 16 (chain (m ++ rest) (S n)).
Proof.
  intros Hc Hm Hl Hr Hb. cbn [count set_chaining chaining]. rewrite chain_S, chain_prefix by done. rewrite Hc.
  change (words_of blk) with (words 16 blk). rewrite <- (words_take blk), Hb. apply F512_ok; [|by apply block_bytes]. apply chain_bytes; [|done]. by apply Forall_app in Hm as [? _].
Qed.

Lemma full_digested ctx m n : digested ctx m n -> buf_ptr ctx = 64 -> Z.of_nat (length m) < 2 ^ 64 ->
  digested (set_ptr (Transform 2 ctx (buffer ctx) SIZE512) 0) m (S n) /\
  Transform 2 (set_ptr ctx 0) (buffer ctx) SIZE512 = set_ptr (Transform 2 ctx (buffer ctx) SIZE512) 0.
Proof.
  intros [] Hp Hm. split; [|done]. cbn [Transform]. change (SIZE512 <=? SIZE512) with true. change (SIZE512 <=? SIZE512 - SIZE512) with false. cbv iota.
  destruct (count_ok ctx n) as (? & ? & ?); [done|done|done|lia|].
  split; cbn [set_ptr chaining block_counter1 block_counter2 buf_ptr buffer]; [|assumption..|lia|lia|assumption| |assumption].
  - rewrite <- (app_nil_r m). apply block_digested; rewrite ?app_nil_r; [assumption..|lia|lia|].
    unfold block_of. rewrite <- d_buf0, Hp. change (Z.to_nat 64) with 64%nat. by rewrite take_take.
  - cbn. symmetry. apply drop_ge. lia.
Qed.

(** [Transform] digests the whole blocks of its input when the buffer is empty. *)
Lemma transform_digested fuel ctx m n msg : digested ctx m n -> buf_ptr ctx = 0 -> is_bytes msg -> (length msg < fuel)%nat ->
  Z.of_nat (length m + length msg) < 2 ^ 64 ->
  let k := (length msg / 64)%nat in
  digested (Transform fuel ctx msg (Z.of_nat (length msg))) (m ++ take (64 * k) msg) (n + k) /\
  buf_ptr (Transform fuel ctx msg (Z.of_nat (length msg))) = 0 /\
  bits_in_last_byte (Transform fuel ctx msg (Z.of_nat (length msg))) = bits_in_last_byte ctx.
Proof.
  revert ctx m n msg. induction fuel as [|fuel IH]; intros ctx m n msg D Hp Hb Hf Hm; [lia|]. cbn [Transform].
  destruct (Z.leb_spec SIZE512 (Z.of_nat (length msg))) as [Hl|Hl]; unfold SIZE512 in Hl.
  - set (ctx' := count _).
    assert (Hd : (length msg / 64 = S (length (drop 64 msg) / 64))%nat).
    { rewrite length_drop. replace (length msg) with (length msg - 64 + 1 * 64)%nat at 1 by lia. rewrite Nat.div_add by done. lia. }
    assert (L : length (drop 64 msg) = (length msg - 64)%nat) by (apply length_drop).
    assert (T : length (take 64 msg) = 64%nat) by (rewrite length_take; lia).
    destruct (IH ctx' (m ++ take 64 msg) (S n) (drop 64 msg)) as (A & B & C).
    + assert (E : length m = (64 * n)%nat) by (destruct D; lia). destruct D. destruct (count_ok ctx n) as (? & ? & ?); [assumption..|lia|].
      assert (F : is_bytes (m ++ take 64 msg)) by (apply Forall_app_2; [assumption|by apply Forall_take]).
      split; [|assumption..| | | | |assumption].
      * apply block_digested; [assumption..|lia|rewrite length_app; lia|]. unfold block_of. rewrite drop_app_length' by lia. by rewrite take_take.
      * cbn. lia.
      * cbn [ctx' count set_chaining buf_ptr]. rewrite length_app, T. lia.
      * assumption.
      * cbn [ctx' count set_chaining buf_ptr buffer]. rewrite Hp. symmetry. apply drop_ge. rewrite length_app. lia.
    + exact Hp.
    + by apply Forall_drop.
    + rewrite L. lia.
    + rewrite length_app, T, L. lia.
    + cbv zeta in A. rewrite L in A, B, C. replace (Z.of_nat (length msg) - SIZE512) with (Z.of_nat (length msg - 64)) by (unfold SIZE512; lia).
      rewrite Hd, L. split; [|by split]. replace (n + S ((length msg - 64) / 64))%nat with (S n + (length msg - 64) / 64)%nat by lia.
      replace (take (64 * S ((length msg - 64) / 64)) msg) with (take 64 msg ++ take (64 * ((length msg - 64) / 64)) (drop 64 msg)).
      * by rewrite app_assoc.
      * rewrite take_take_drop. f_equal. lia.
  - rewrite Nat.div_small by lia. cbv zeta. rewrite Nat.mul_0_r, Nat.add_0_r, take_0, app_nil_r. by split_and!.
Qed.

(** Between updates the buffer is not full, and holds whole bytes. *)
Definition streaming (ctx : hashState) (m : bytes) : Prop :=
  bits_in_last_byte ctx = 0 /\ buf_ptr ctx < 64 /\ exists n, digested ctx m n.

Lemma fill_buffer_ok ctx m n msg : digested ctx m n -> is_bytes msg ->
  let k := Z.to_nat (64 - buf_ptr ctx) in
  (fill_buffer ctx msg).2 = drop k msg /\ digested (fill_buffer ctx msg).1 (m ++ take k msg) n /\
  buf_ptr (fill_buffer ctx msg).1 = Z.min 64 (buf_ptr ctx + Z.of_nat (length msg)) /\
  bits_in_last_byte (fill_buffer ctx msg).1 = bits_in_last_byte ctx.
Proof.
  revert ctx m. induction msg as [|b msg IH]; intros ctx m D Hb k; cbn [fill_buffer].
  - rewrite drop_nil, take_nil, app_nil_r. split_and!; [done|done| |done]. destruct D. cbn. lia.
  - apply Forall_cons_1 in Hb as [Hb0 Hb]. unfold SIZE512. pose proof (d_ptr _ _ _ D) as P. destruct (Z.ltb_spec (buf_ptr ctx) 64) as [Hp|Hp].
    + pose proof (put_digested ctx m n b D Hp Hb0) as D'. destruct (IH _ _ D' Hb) as (A & B & C & E). cbv zeta in *.
      cbn [put buf_ptr] in A, B, C. assert (Hk : k = S (Z.to_nat (64 - (buf_ptr ctx + 1)))) by (unfold k; lia). rewrite Hk.
      cbn [drop take length]. split_and!; [done| |rewrite C; lia|done]. by rewrite <- app_assoc in B.
    + assert (Hk : k = 0%nat) by (unfold k; lia). rewrite Hk. cbn [fst snd drop take length]. rewrite app_nil_r. split_and!; [done|done|lia|done].
Qed.

Lemma foldl_put_bits l ctx : bits_in_last_byte (foldl put ctx l) = bits_in_last_byte ctx.
Proof. revert ctx. induction l as [|b l IH]; intros ctx; [done|]. cbn [foldl]. by rewrite IH. Qed.

(** An update of whole bytes. *)
Definition Update_bytes (ctx : hashState) (msg : bytes) : hashState :=
  let '(ctx, msg, full) :=
    if negb (buf_ptr ctx =? 0) then
      let '(ctx, msg) := fill_buffer ctx msg in
      if buf_ptr ctx <? SIZE512 then (ctx, msg, false)
      else (Transform 2 (set_ptr ctx 0) (buffer ctx) SIZE512, msg, true)
    else (ctx, msg, true) in
  if negb full then ctx
  else
    let msglen := Z.of_nat (length msg) in
    let ctx := Transform (S (length msg)) ctx msg msglen in
    foldl put ctx (drop (Z.to_nat (msglen / SIZE512 * SIZE512)) msg).

Lemma Update_split ctx input databitlen : Update ctx input databitlen =
  put_rem (Update_bytes ctx (take (Z.to_nat (i32 (databitlen / 8))) input)) (databitlen mod 8) (input !!! Z.to_nat (i32 (databitlen / 8))).
Proof.
  unfold Update, Update_bytes. cbv zeta. destruct (negb (buf_ptr ctx =? 0)); [|done].
  destruct (fill_buffer _ _) as [c msg]. destruct (buf_ptr c <? SIZE512); done.
Qed.

(** The tail of an update: the blocks, then the rest. *)
Lemma bulk_digested ctx m n msg : digested ctx m n -> buf_ptr ctx = 0 -> is_bytes msg -> bits_in_last_byte ctx = 0 ->
  Z.of_nat (length m + length msg) < 2 ^ 64 ->
  streaming (foldl put (Transform (S (length msg)) ctx msg (Z.of_nat (length msg))) (drop (Z.to_nat (Z.of_nat (length msg) / SIZE512 * SIZE512)) msg)) (m ++ msg).
Proof.
  intros D Hp Hb Hz Hm. destruct (transform_digested (S (length msg)) ctx m n msg D Hp Hb ltac:(lia) Hm) as (A & B & C). cbv zeta in A.
  set (c := Transform _ _ _ _) in *. set (k := (length msg / 64)%nat) in *.
  assert (Ek : Z.to_nat (Z.of_nat (length msg) / SIZE512 * SIZE512) = (64 * k)%nat).
  { unfold SIZE512. change 64 with (Z.of_nat 64). rewrite <- Nat2Z.inj_div. fold k. lia. }
  rewrite Ek. assert (Hk : (64 * k <= length msg < 64 * k + 64)%nat) by (unfold k; pose proof (Nat.div_mod_eq (length msg) 64); pose proof (Nat.mod_upper_bound (length msg) 64); lia).
  assert (Hd : length (drop (64 * k) msg) = (length msg - 64 * k)%nat) by (apply length_drop).
  destruct (puts_digested c _ _ (drop (64 * k) msg) A) as [E F]; [lia|by apply Forall_drop|].
  rewrite <- app_assoc, take_drop in E. split; [|split; [lia|by eexists]]. by rewrite foldl_put_bits, C.
Qed.

Lemma Update_bytes_ok ctx m msg : streaming ctx m -> is_bytes msg -> Z.of_nat (length m + length msg) < 2 ^ 64 ->
  streaming (Update_bytes ctx msg) (m ++ msg).
Proof.
  intros (Hz & Hp & n & D) Hb Hm. unfold Update_bytes. destruct (Z.eqb_spec (buf_ptr ctx) 0) as [H0|H0]; cbn [negb].
  - by apply (bulk_digested ctx m n).
  - destruct (fill_buffer_ok ctx m n msg D Hb) as (A & B & C & E). destruct (fill_buffer ctx msg) as [c rest]. cbn [fst snd] in *. subst rest.
    set (k := Z.to_nat (64 - buf_ptr ctx)) in *. destruct (Z.ltb_spec (buf_ptr c) SIZE512) as [Hc|Hc]; cbn [negb]; unfold SIZE512 in Hc.
    + rewrite take_ge in B by lia. split; [congruence|]. split; [done|by exists n].
    + assert (L : (length msg >= k)%nat) by lia. assert (Ht : length (take k msg) = k) by (rewrite length_take; lia).
      destruct (full_digested c (m ++ take k msg) n B ltac:(lia) ltac:(rewrite length_app; lia)) as [F ->].
      replace (m ++ msg) with ((m ++ take k msg) ++ drop k msg) by (by rewrite <- app_assoc, take_drop). apply (bulk_digested _ _ (S n)); [done|done|by apply Forall_drop| |rewrite length_app, length_drop; lia].
      rewrite <- Hz, <- E. done.
Qed.

(** ** Padding *)

(** The last byte: [r] bits of [last] and the bit 1. *)
Definition bit_byte (r last : Z) : Z := if r =? 0 then 0x80 else (last .& (((1 .<< r) - 1) .<< (8 - r))) .^ (1 .<< (7 - r)).

Lemma alter_insert (f : Z -> Z) i b (l : bytes) : (i < length l)%nat -> alter f i (<[i := b]> l) = <[i := f b]> l.
Proof. revert i. induction l as [|x l IH]; intros [|i] H; cbn in *; [lia|lia|done|]. f_equal. apply IH. lia. Qed.

Lemma edit_put ctx b f : 0 <= buf_ptr ctx < 64 -> length (buffer ctx) = 64%nat -> edit_last (put ctx b) f = put ctx (f b).
Proof.
  intros Hp Hl. unfold edit_last, put. cbn [buffer buf_ptr chaining block_counter1 block_counter2 bits_in_last_byte].
  rewrite Z.add_simpl_r, alter_insert by lia. done.
Qed.

Definition Close (ctx : hashState) : hashState :=
  let bilb := bits_in_last_byte ctx in
  if negb (bilb =? 0) then
    let ctx := edit_last ctx (fun b => u8 (b .& (((1 .<< bilb) - 1) .<< (8 - bilb)))) in
    let ctx := edit_last ctx (fun b => u8 (b .^ (0x1 .<< (7 - bilb)))) in
    set_bits ctx 0
  else put ctx 0x80.

Lemma bit_byte_ok r last : 0 < r < 8 -> is_u8 last ->
  u8 (u8 (last .& (((1 .<< r) - 1) .<< (8 - r))) .^ (0x1 .<< (7 - r))) = bit_byte r last /\ is_u8 (bit_byte r last).
Proof.
  intros Hr Hl. unfold bit_byte. destruct (Z.eqb_spec r 0); [lia|].
  assert (A : is_u8 (last .& (((1 .<< r) - 1) .<< (8 - r)))).
  { apply land_word; [lia|done|]. rewrite !Z.shiftl_mul_pow2 by lia. assert (0 < 2 ^ r) by lia. nia. }
  assert (B : is_u8 (1 .<< (7 - r))).
  { rewrite Z.shiftl_mul_pow2, Z.mul_1_l by lia. split; [lia|]. apply Z.pow_lt_mono_r; lia. }
  rewrite (wrap_small 8 _ A). assert (C : is_u8 ((last .& (((1 .<< r) - 1) .<< (8 - r))) .^ (1 .<< (7 - r)))) by (by apply lxor_word).
  split; [by apply wrap_small|done].
Qed.

Lemma set_bits_digested ctx m n b : digested ctx m n -> digested (set_bits ctx b) m n.
Proof. by intros []. Qed.

Lemma close_ok ctx m r last : streaming ctx m -> 0 <= r < 8 -> is_u8 last -> exists n,
  digested (Close (put_rem ctx r last)) (m ++ [bit_byte r last]) n /\ 1 <= buf_ptr (Close (put_rem ctx r last)).
Proof.
  intros (Hz & Hp & n & D) Hr Hl. exists n. pose proof (d_ptr _ _ _ D) as P. pose proof (d_room _ _ _ D) as R. unfold put_rem, Close.
  destruct (Z.eqb_spec r 0) as [->|H0].
  - rewrite Hz. cbn [Z.eqb negb]. split; [by apply put_digested|cbn [put buf_ptr]; lia].
  - cbn [put set_bits bits_in_last_byte]. destruct (Z.eqb_spec r 0) as [|_]; [done|]. cbn [negb]. destruct (bit_byte_ok r last ltac:(lia) Hl) as [E B].
    fold (set_bits ctx r). rewrite !edit_put by (cbn [set_bits buf_ptr buffer]; lia). cbv beta. rewrite E. split; [|cbn; lia]. apply set_bits_digested, put_digested; [by apply set_bits_digested|done|done].
Qed.

Lemma iter_put k ctx : Nat.iter k (fun ctx => put ctx 0) ctx = foldl put ctx (replicate k 0).
Proof. revert ctx. induction k as [|k IH]; intros ctx; [done|]. rewrite Nat.iter_succ_r. apply IH. Qed.

Lemma zeros_bytes k : is_bytes (replicate k 0).
Proof. apply Forall_replicate. done. Qed.

Lemma pad_digested ctx m n limit : digested ctx m n -> buf_ptr ctx <= limit <= 64 ->
  digested (pad_zeros ctx limit) (m ++ replicate (Z.to_nat (limit - buf_ptr ctx)) 0) n /\ buf_ptr (pad_zeros ctx limit) = limit.
Proof.
  intros D Hl. unfold pad_zeros. rewrite iter_put. set (k := Z.to_nat _).
  destruct (puts_digested ctx m n (replicate k 0) D) as [A B]; [rewrite length_replicate; lia|apply zeros_bytes|].
  rewrite length_replicate in B. split; [done|lia].
Qed.

Definition Pad (ctx : hashState) : hashState :=
  let ctx :=
    if SIZE512 - LENGTHFIELDLEN <? buf_ptr ctx then
      let ctx := pad_zeros ctx SIZE512 in
      set_ptr (Transform 2 ctx (buffer ctx) SIZE512) 0
    else ctx in
  pad_zeros ctx (SIZE512 - LENGTHFIELDLEN).

Lemma pad_len_ok n : (1 <= n)%nat -> exists k, (n + pad_len n = 64 * k + 56)%nat /\ (pad_len n < 64)%nat.
Proof.
  intros Hn. unfold pad_len. pose proof (Nat.mod_upper_bound (n + 8) 64 ltac:(lia)). pose proof (Nat.div_mod_eq (n + 8) 64).
  destruct (decide ((n + 8) mod 64 = 0)%nat) as [E|E].
  - rewrite E. change ((64 - 0) mod 64)%nat with 0%nat. exists ((n + 8) / 64 - 1)%nat. lia.
  - rewrite Nat.mod_small by lia. exists ((n + 8) / 64)%nat. lia.
Qed.

Lemma Pad_ok ctx m n : digested ctx m n -> 1 <= buf_ptr ctx -> Z.of_nat (length m) < 2 ^ 64 - 64 -> exists k,
  digested (Pad ctx) (m ++ replicate (pad_len (length m)) 0) k /\ buf_ptr (Pad ctx) = 56.
Proof.
  intros D Hp Hm. pose proof (d_ptr _ _ _ D) as P. pose proof (d_len _ _ _ D) as L. destruct (pad_len_ok (length m) ltac:(lia)) as (q & Hq & Hz).
  unfold Pad. change (SIZE512 - LENGTHFIELDLEN) with 56. destruct (Z.ltb_spec 56 (buf_ptr ctx)) as [H|H].
  - destruct (pad_digested ctx m n 64 D ltac:(lia)) as [A B]. set (z := Z.to_nat (64 - buf_ptr ctx)) in *.
    destruct (full_digested _ _ _ A B) as [C _]; [rewrite length_app, length_replicate; lia|].
    destruct (pad_digested _ _ _ 56 C) as [E F]; [cbn [set_ptr buf_ptr]; lia|]. exists (S n). split; [|done].
    cbn [set_ptr buf_ptr] in E. rewrite <- app_assoc, <- replicate_add in E. replace (pad_len (length m)) with (z + Z.to_nat (56 - 0))%nat by lia. exact E.
  - destruct (pad_digested _ _ _ 56 D ltac:(lia)) as [E F]. exists n. split; [|done]. replace (pad_len (length m)) with (Z.to_nat (56 - buf_ptr ctx)) by lia. exact E.
Qed.

(** ** The last block *)

Definition Finish (ctx : hashState) : hashState :=
  let ctx := count ctx in
  let '(b, p, c1) := store_counter (buffer ctx, SIZE512, block_counter1 ctx) in
  let '(b, p, c2) := store_counter (b, p, block_counter2 ctx) in
  let ctx := mkhashState (chaining ctx) c1 c2 b p (bits_in_last_byte ctx) in
  let ctx := Transform 2 ctx (buffer ctx) SIZE512 in
  OutputTransformation ctx.

Lemma Final_split ctx : (Final ctx).1 = drop 32 (mjoin (le_bytes 4 <$> chaining (Finish (Pad (Close ctx))))).
Proof. reflexivity. Qed.

Lemma store_ok b c1 c2 : length b = 64%nat -> is_u32 c1 -> is_u32 c2 ->
  exists c1' p c2', store_counter (b, SIZE512, c1) = (c1'.1, 60, c1'.2) /\
  store_counter (c1'.1, 60, c2) = (take 56 b ++ reverse (le_bytes 8 (c1 + 2 ^ 32 * c2)), p, c2').
Proof.
  intros Hl H1 H2. rewrite <- le_bytes_words by done. assert (E : b = take 56 b ++ drop 56 b) by (by rewrite take_drop).
  assert (Hh : length (take 56 b) = 56%nat) by (rewrite length_take; lia). assert (Hr : length (drop 56 b) = 8%nat) by (rewrite length_drop; lia).
  set (h := take 56 b) in *. rewrite E. generalize dependent (drop 56 b). intros r _ Hr.
  do 8 (destruct r as [|? r]; [discriminate|]). destruct r; [|discriminate].
  unfold store_counter. eexists (_, _), _, _. cbn [Nat.iter nat_rect fst snd].
  split; [reflexivity|]. cbn [Nat.iter nat_rect]. f_equal. f_equal. unfold SIZE512.
  repeat match goal with |- context[Z.to_nat ?e] => let v := eval vm_compute in (Z.to_nat e) in change (Z.to_nat e) with v end.
  rewrite !insert_app_r_alt by lia. rewrite Hh. cbn. rewrite !Z.shiftr_div_pow2 by lia. done.
Qed.

Lemma Finish_ok ctx m n : digested ctx m n -> buf_ptr ctx = 56 -> Z.of_nat (length m) < 2 ^ 64 ->
  let p := m ++ reverse (le_bytes 8 (Z.of_nat (S n))) in
  drop 32 (mjoin (le_bytes 4 <$> chaining (Finish ctx))) = output (chain p (S n)).
Proof.
  intros [] Hp Hm p. unfold Finish. cbv zeta. destruct (count_ok ctx n) as (C1 & C2 & C3); [assumption..|lia|].
  change (buffer (count ctx)) with (buffer ctx).
  destruct (store_ok (buffer ctx) _ _ d_room0 C1 C2) as ([b1 c1'] & q & c2' & E1 & E2). cbn [fst snd] in *. rewrite E1, E2, C3.
  set (ctx' := mkhashState _ _ _ _ _ _).
  assert (Hr : is_bytes (reverse (le_bytes 8 (Z.of_nat (S n))))) by (apply Forall_reverse, le_bytes_is_bytes).
  assert (Hb : is_bytes p) by (by apply Forall_app_2).
  assert (Hl : length p = (64 * n + 64)%nat) by (unfold p; rewrite length_app, length_reverse, length_le_bytes; lia).
  assert (B : chaining (Transform 2 ctx' (buffer ctx') SIZE512) = words 16 (chain p (S n))).
  { cbn [Transform]. change (SIZE512 <=? SIZE512) with true. change (SIZE512 <=? SIZE512 - SIZE512) with false. cbv iota.
    apply block_digested; [assumption..|lia|fold p; lia|]. cbn [ctx' buffer]. unfold block_of. rewrite Hp in d_buf0.
    change (Z.to_nat 56) with 56%nat in d_buf0. rewrite d_buf0, drop_app_le by lia. reflexivity. }
  destruct (chain_bytes p (S n) Hb ltac:(lia)) as [Hc Hcl]. pose proof (conj Hc Hcl : is_bytes_n 64 _) as HC. destruct (ten_P_ok _ HC) as [TP BP].
  unfold OutputTransformation. cbn [set_chaining chaining]. rewrite B, TP, <- words_lxor, words_bytes by (done || by apply lxor_block). reflexivity.
Qed.

(** The digest of a stream of whole bytes and [r] bits of a last byte. *)
Lemma Final_ok ctx m r last : streaming ctx m -> 0 <= r < 8 -> is_u8 last -> Z.of_nat (length m) < 2 ^ 64 - 128 ->
  (Final (put_rem ctx r last)).1 = groestl256 (m ++ [bit_byte r last]).
Proof.
  intros Hs Hr Hl Hm. rewrite Final_split. destruct (close_ok ctx m r last Hs Hr Hl) as (n & D & P).
  destruct (Pad_ok _ _ _ D P) as (k & D' & P'); [rewrite length_app; cbn [length]; lia|]. set (m' := m ++ [bit_byte r last]) in *.
  assert (L : length m' = (length m + 1)%nat) by (unfold m'; by rewrite length_app).
  destruct (pad_len_ok (length m') ltac:(lia)) as (q & Hq & Hz). pose proof (d_len _ _ _ D') as E. rewrite P', length_app, length_replicate in E.
  assert (q = k) as -> by lia. rewrite (Finish_ok _ _ _ D' P') by (rewrite length_app, length_replicate; lia). unfold groestl256, padded. cbv zeta.
  rewrite Hq. replace (64 * k + 56 + 8)%nat with (S k * 64)%nat by lia. rewrite Nat.div_mul by done. rewrite app_assoc.
  rewrite !length_app, length_replicate, length_reverse, length_le_bytes. rewrite Hq. replace (64 * k + 56 + 8)%nat with (S k * 64)%nat by lia. by rewrite Nat.div_mul.
Qed.

(** ** The hash *)

(** The context after whole-byte updates of several pieces. *)
Definition Updates (ctx : hashState) (pieces : list bytes) : hashState :=
  foldl (fun ctx piece => Update ctx piece (8 * Z.of_nat (length piece))) ctx pieces.

Lemma Update_ok ctx m data n : streaming ctx m -> is_bytes data -> 0 <= n -> n / 8 < 2 ^ 31 -> n / 8 + Z.b2z (negb (n mod 8 =? 0)) <= Z.of_nat (length data) ->
  Z.of_nat (length m + length data) < 2 ^ 64 ->
  streaming (Update_bytes ctx (take (Z.to_nat (n / 8)) data)) (m ++ take (Z.to_nat (n / 8)) data) /\
  Update ctx data n = put_rem (Update_bytes ctx (take (Z.to_nat (n / 8)) data)) (n mod 8) (data !!! Z.to_nat (n / 8)).
Proof.
  intros Hs Hb Hn Hn' Hl Hm. rewrite Update_split, i32_small by (assert (0 <= n / 8) by (apply Z.div_pos; lia); lia). split; [|done].
  apply Update_bytes_ok; [done|by apply Forall_take|]. rewrite length_take. lia.
Qed.

Lemma Updates_ok pieces ctx m : streaming ctx m -> Forall (fun p => is_bytes p /\ Z.of_nat (length p) < 2 ^ 31) pieces ->
  Z.of_nat (length m + length (mjoin pieces)) < 2 ^ 64 -> streaming (Updates ctx pieces) (m ++ mjoin pieces).
Proof.
  revert ctx m. induction pieces as [|p pieces IH]; intros ctx m Hs Hp Hm; [by rewrite app_nil_r|]. apply Forall_cons_1 in Hp as [[Hb Hl] Hp].
  rewrite mjoin_cons, length_app in Hm. cbn [Updates foldl].
  assert (E : 8 * Z.of_nat (length p) / 8 = Z.of_nat (length p)) by (rewrite Z.mul_comm; by apply Z.div_mul).
  assert (E' : 8 * Z.of_nat (length p) mod 8 = 0) by (rewrite Z.mul_comm; by apply Z.mod_mul).
  destruct (Update_ok ctx m p (8 * Z.of_nat (length p)) Hs Hb) as [A B]; rewrite ?E, ?E'; try (cbn; lia). rewrite E, Nat2Z.id in A, B. rewrite E' in B.
  rewrite firstn_all in A, B. unfold put_rem in B. change (0 =? 0) with true in B. cbv iota in B. rewrite mjoin_cons, app_assoc. rewrite B.
  apply IH; [done|done|]. rewrite length_app. lia.
Qed.

Lemma init_streaming mem : length mem = 64%nat -> streaming (Init mem) [].
Proof. intros Hm. split; [done|]. split; [done|]. exists 0%nat. by apply init_digested. Qed.

Lemma last_u8 data n : is_bytes data -> (n mod 8 <> 0 -> n / 8 < Z.of_nat (length data)) -> 0 <= n ->
  exists last, is_u8 last /\ (n mod 8 <> 0 -> data !!! Z.to_nat (n / 8) = last).
Proof.
  intros Hb Hl Hn. destruct (decide (n mod 8 = 0)) as [E|E]; [by exists 0|]. exists (data !!! Z.to_nat (n / 8)). split; [|done].
  apply (Forall_lookup_total_1 _ _ _ Hb). specialize (Hl E). assert (0 <= n / 8) by (apply Z.div_pos; lia). lia.
Qed.

(** C40: Groestl: hashing any sequence of whole-byte updates and a last update of [n] bits, with any initial contents
    of the buffer, gives the Groestl-256 digest of the concatenated message, as the specification defines it:
    the permutations P and Q on the byte matrix with the S-box and MixBytes of the standard, the compression
    function, and the padding with the number of blocks. *)
Theorem groestl_correct mem pieces data n : length mem = 64%nat -> Forall (fun p => is_bytes p /\ Z.of_nat (length p) < 2 ^ 31) pieces ->
  is_bytes data -> 0 <= n <= 8 * Z.of_nat (length data) -> n < 2 ^ 34 -> Z.of_nat (length (mjoin pieces) + length data) < 2 ^ 63 ->
  (Final (Update (Updates (Init mem) pieces) data n)).1 = groestl256 (mjoin pieces ++ with_bit data n).
Proof.
  intros Hmem Hp Hb Hn Hn' Hm. pose proof (Updates_ok pieces _ _ (init_streaming mem Hmem) Hp ltac:(cbn [length]; lia)) as Hs. cbn [app] in Hs.
  assert (Hl : n / 8 + Z.b2z (negb (n mod 8 =? 0)) <= Z.of_nat (length data)) by (destruct (Z.eqb_spec (n mod 8) 0); cbn; lia).
  destruct (Update_ok _ _ data n Hs Hb ltac:(lia) ltac:(lia) Hl ltac:(lia)) as [A ->].
  destruct (last_u8 data n Hb ltac:(intros; lia) ltac:(lia)) as (last & HL & EL).
  assert (E : forall c, put_rem c (n mod 8) (data !!! Z.to_nat (n / 8)) = put_rem c (n mod 8) last).
  { intros c. unfold put_rem. destruct (Z.eqb_spec (n mod 8) 0); [done|]. by rewrite EL. }
  rewrite E, (Final_ok _ _ _ _ A) by (try done; try lia; rewrite length_app, length_take; lia). f_equal. unfold with_bit. cbv zeta. rewrite <- app_assoc. do 2 f_equal.
  unfold bit_byte. destruct (Z.eqb_spec (n mod 8) 0); [done|]. by rewrite EL.
Qed.

Lemma groestl_correct_witness : (Final (Update (Updates (Init (replicate 64 7)) [[1; 2; 3]]) [4; 0xf5] 13)).1 = groestl256 (mjoin [[1; 2; 3]] ++ with_bit [4; 0xf5] 13).
Proof.
  pose proof (groestl_correct (replicate 64 7) [[1; 2; 3]] [4; 0xf5] 13 eq_refl) as H.
  apply H; clear H.
  - constructor; [|constructor]. split; [by apply bytes_forallb|cbn; lia].
  - by apply bytes_forallb.
  - cbn; lia.
  - lia.
  - cbn; lia.
Defined.

(** The hash of src/src/crypto/hash-extra-groestl.c. *)
Lemma hash_extra_groestl_ok mem data : length mem = 64%nat -> is_bytes data -> Z.of_nat (length data) < 2 ^ 31 ->
  hash_extra_groestl mem data = groestl256 (data ++ [0x80]).
Proof.
  intros Hmem Hb Hl. unfold hash_extra_groestl, groestl. rewrite (wrap_small 64) by (split; lia).
  set (n := Z.of_nat (length data) * 8). assert (E : n / 8 = Z.of_nat (length data)) by (by apply Z.div_mul). assert (E' : n mod 8 = 0) by (by apply Z.mod_mul).
  destruct (Update_ok _ _ data n (init_streaming mem Hmem) Hb) as [A B]; [lia|lia|rewrite E, E'; cbn; lia|cbn; lia|]. cbn [app] in A.
  rewrite B, E', E, Nat2Z.id, firstn_all. rewrite E, Nat2Z.id, firstn_all in A.
  exact (Final_ok _ _ 0 0 A ltac:(lia) ltac:(done) ltac:(lia)).
Qed.
