(* ===== verification/SlowHash.v ===== *)
(** * The slow hash, shared part: src/src/crypto/slow-hash.c

    [cn_slow_hash] is the proof of work.  The file holds one version per
    platform; this file models what the versions share: the macros of variants 1
    and 2, the memory accesses they make and the environment they start from.
    [MEMORY] and [ITER] are parameters of the definitions, so that the versions
    can be evaluated at a small size; the theorems are about every power of two
    and the values of the source are instances.

    Memory is a list of bytes, an offset into it is a 64-bit integer.  Words are
    read and written in the byte order of a little-endian machine, where
    [SWAP64LE] is the identity. *)

From S2P Require Import Prelude Keccak Random Oaes Blake256 IntSqrt.

Definition AES_BLOCK_SIZE : Z := 16.
Definition AES_KEY_SIZE : nat := 32.
Definition INIT_SIZE_BLK : nat := 8.
Definition INIT_SIZE_BYTE : nat := 128.

(** The sizes of the source. *)
Definition MEMORY : Z := 1 .<< 21.
Definition ITER : nat := Z.to_nat (1 .<< 20).

(** ** Memory *)

(** [((uint64_t * )(m + off))[0]], read and written. *)
Definition ld64 (m : bytes) (off : Z) : Z := le (take 8 (drop (Z.to_nat off) m)).
Definition st64 (m : bytes) (off v : Z) : bytes := memcpy m (Z.to_nat off) (le_bytes 8 v).

(** A block of 16 bytes, read and written. *)
Definition ld128 (m : bytes) (off : Z) : bytes := take 16 (drop (Z.to_nat off) m).
Definition st128 (m : bytes) (off : Z) (v : bytes) : bytes := memcpy m (Z.to_nat off) v.

(** Two 64-bit words in memory. *)
Definition pack (w : Z * Z) : bytes := le_bytes 8 w.1 ++ le_bytes 8 w.2.

(** [m[off + i] ^= src[i]] for [i < n]. *)
Definition xor_bytes (n : nat) (m : bytes) (off : Z) (src : bytes) : bytes :=
  foldl (fun m i => <[(Z.to_nat off + i)%nat := (m !!! (Z.to_nat off + i)%nat) .^ (src !!! i)]> m) m (seq 0 n).

(** What a call of [cn_slow_hash] finds: the contents of the uninitialised
    [state] and [b], the scratchpad as it was left, the
    memory of the BLAKE state, the stream of [rand] and the outcomes of the
    allocations of the AES context and of its two keys. *)
Record env := mkenv {
  stack_state : bytes;
  stack_b : bytes;
  scratchpad : bytes;
  stack_blake : bytes;
  rand : bytes;
  mem_ctx : bool;
  mem_keys : allocs * allocs;
}.

(** ** Start: [None] is a copy beyond the 200 bytes of the state, or no result of [hash_process]. *)

Definition start (e : env) (data : bytes) (prehashed : bool) : option bytes :=
  if prehashed then if (length data <=? 200)%nat then Some (memcpy (stack_state e) 0 data) else None
  else match hash_process data with Done s => Some s | _ => None end.

(** [state.init] *)
Definition init_of (state : bytes) : bytes := take INIT_SIZE_BYTE (drop 64 state).

(** ** Variant 1 *)

Definition VARIANT1_1 (variant : Z) (m : bytes) (p : Z) : bytes :=
  if variant =? 1 then
    let tmp := m !!! Z.to_nat (p + 11) in
    let table := 0x75310 in
    let index := u8 ((((tmp .>> 3) .& 6) .| (tmp .& 1)) .<< 1) in
    <[Z.to_nat (p + 11) := u8 (tmp .^ ((table .>> index) .& 0x30))]> m
  else m.

(** [true] when the process goes on. *)
Definition VARIANT1_CHECK (data : bytes) : bool := negb (Z.of_nat (length data) <? 43).

(** The 8 bytes at [NONCE_POINTER]. *)
Definition NONCE (data : bytes) : bytes := take 8 (drop 35 data).

(** ** Variant 2 *)

(** The division step: the word xored into [b], the new [division_result] and [sqrt_input]. *)
Definition VARIANT2_INTEGER_MATH_DIVISION_STEP (p0 p1 division_result sqrt_result : Z) : Z * Z * Z :=
  let tmpx := division_result .^ u64 (sqrt_result .<< 32) in
  let dividend := p1 in
  let divisor := u32 (u64 (p0 + u32 (sqrt_result .<< 1)) .| 0x80000001) in
  let division_result := u64 (u32 (dividend / divisor) + u64 ((dividend mod divisor) .<< 32)) in
  (tmpx, division_result, u64 (p0 + division_result)).

(** ** The AES key of the software versions *)

(** The key schedule [aes_ctx->key->exp_data] after [oaes_key_import_data]; the
    result codes are ignored, [None] is the access to a missing context or key. *)
Definition import (mem : allocs) (aes_ctx : option oaes_ctx) (aes_key : bytes) : option (oaes_ctx * bytes) :=
  match (oaes_key_import_data mem aes_ctx (Some aes_key) (Z.of_nat AES_KEY_SIZE)).2 with
  | Some ctx => match key ctx with Some k => Some (ctx, exp_data k) | None => None end
  | None => None
  end.

(** ** Result *)

Section Finish.
Context (groestl jh skein : bytes -> bytes).

Definition extra_hashes (e : env) : list (bytes -> bytes) :=
  [hash_extra_blake (stack_blake e); groestl; jh; skein].

(** [memcpy(state.init, text)], [hash_permutation] and the selected hash of the 200 bytes. *)
Definition finish (e : env) (state text : bytes) : bytes :=
  let state := memcpy state 64 text in
  let state := state_bytes (hash_permutation (lanes_of state)) in
  (extra_hashes e !!! Z.to_nat ((state !!! 0%nat) .& 3)) state.
End Finish.
