(* ===== verification/SlowPortable.v ===== *)
(** * The slow hash, portable version: src/src/crypto/slow-hash.c, from line 1397

    Blocks are arrays of 16 bytes.  An iteration is [None] when one of its two
    assertions fails.  The square root of variant 2 is taken with doubles when
    [dbl] holds (DBL_MANT_DIG is defined and at least 50), else with integers. *)

From S2P Require Import Prelude IntUtil Keccak Oaes Aesb IntSqrt SlowHash.

(** ** Blocks *)

Definition e2i (a : bytes) (count : Z) : Z := (ld64 a 0 / AES_BLOCK_SIZE) .& (count - 1).

Definition mul (a b : bytes) : bytes :=
  let a0 := ld64 a 0 in
  let b0 := ld64 b 0 in
  let '(lo, hi) := mul128 a0 b0 in
  le_bytes 8 hi ++ le_bytes 8 lo.

Definition sum_half_blocks (a b : bytes) : bytes :=
  let a0 := ld64 a 0 in
  let a1 := ld64 a 8 in
  let b0 := ld64 b 0 in
  let b1 := ld64 b 8 in
  let a := st64 a 0 (u64 (a0 + b0)) in
  st64 a 8 (u64 (a1 + b1)).

Definition copy_block (dst : bytes) (off : Z) (src : bytes) : bytes := st128 dst off (take 16 src).

(** The new [a] and the new [b]. *)
Definition swap_blocks (a b : bytes) : bytes * bytes :=
  let t0 := ld64 a 0 in
  let t1 := ld64 a 8 in
  let a := st64 a 0 (ld64 b 0) in
  let a := st64 a 8 (ld64 b 8) in
  let b := st64 b 0 t0 in
  let b := st64 b 8 t1 in
  (a, b).

(** [xor_blocks(a + off, b)] *)
Definition xor_blocks (a : bytes) (off : Z) (b : bytes) : bytes := xor_bytes 16 a off b.

(** [xor64(left + off, right)] *)
Definition xor64 (left_ : bytes) (off : Z) (right_ : bytes) : bytes := xor_bytes 8 left_ off right_.

(** ** Variants *)

(** [tweak1_2], uninitialised and unused outside variant 1; [None] is the exit of [VARIANT1_CHECK]. *)
Definition VARIANT1_PORTABLE_INIT (variant : Z) (data state : bytes) : option bytes :=
  if variant =? 1 then
    if VARIANT1_CHECK data then Some (xor64 (take 8 (drop 192 state)) 0 (NONCE data)) else None
  else Some [].

Definition VARIANT1_2 (variant : Z) (m : bytes) (p : Z) (tweak1_2 : bytes) : bytes :=
  if variant =? 1 then xor64 m p tweak1_2 else m.

(** [b], [division_result] and [sqrt_result] *)
Definition VARIANT2_PORTABLE_INIT (variant : Z) (b state : bytes) : bytes * Z * Z :=
  if 2 <=? variant then
    let b := memcpy b 16 (take 16 (drop 64 state)) in
    let b := xor64 b 16 (drop 80 state) in
    let b := xor64 b (16 + 8) (drop 88 state) in
    (b, ld64 state (8 * 12), ld64 state (8 * 13))
  else (b, 0, 0).

Definition VARIANT2_PORTABLE_SHUFFLE_ADD (variant : Z) (a b : bytes) (m : bytes) (offset : Z) : bytes :=
  if 2 <=? variant then
    let chunk1 := offset .^ 0x10 in
    let chunk2 := offset .^ 0x20 in
    let chunk3 := offset .^ 0x30 in
    let chunk1_old := (ld64 m chunk1, ld64 m (chunk1 + 8)) in
    let m := st64 m chunk1 (u64 (ld64 m chunk3 + ld64 b 16)) in
    let m := st64 m (chunk1 + 8) (u64 (ld64 m (chunk3 + 8) + ld64 b 24)) in
    let m := st64 m chunk3 (u64 (ld64 m chunk2 + ld64 a 0)) in
    let m := st64 m (chunk3 + 8) (u64 (ld64 m (chunk2 + 8) + ld64 a 8)) in
    let m := st64 m chunk2 (u64 (chunk1_old.1 + ld64 b 0)) in
    st64 m (chunk2 + 8) (u64 (chunk1_old.2 + ld64 b 8))
  else m.

(** The new [b], [division_result] and [sqrt_result]. *)
Definition VARIANT2_PORTABLE_INTEGER_MATH (variant : Z) (dbl : bool) (b ptr : bytes) (division_result sqrt_result : Z) : bytes * Z * Z :=
  if 2 <=? variant then
    let '(tmpx, division_result, sqrt_input) :=
      VARIANT2_INTEGER_MATH_DIVISION_STEP (ld64 ptr 0) (ld64 ptr 8) division_result sqrt_result in
    let b := st64 b 0 (ld64 b 0 .^ tmpx) in
    let sqrt_result :=
      if dbl then VARIANT2_INTEGER_MATH_SQRT_FIXUP sqrt_input (VARIANT2_INTEGER_MATH_SQRT_STEP_FP64 sqrt_input)
      else VARIANT2_INTEGER_MATH_SQRT_STEP_REF sqrt_input in
    (b, division_result, sqrt_result)
  else (b, division_result, sqrt_result).

(** The new [long_state] and [d]. *)
Definition VARIANT2_2_PORTABLE (variant : Z) (long_state : bytes) (j : Z) (d : bytes) : bytes * bytes :=
  if 2 <=? variant then
    let long_state := xor_blocks long_state (j .^ 0x10) d in
    (long_state, xor_blocks d 0 (ld128 long_state (j .^ 0x20)))
  else (long_state, d).

(** ** The function *)

(** The variables that live across iterations; [c1], [c2] and [d] are written before they are read. *)
Record vars := mkvars { v_long_state : bytes; v_a : bytes; v_b : bytes; v_division_result : Z; v_sqrt_result : Z }.

Section Portable.
Context (MEMORY : Z) (ITER : nat) (variant : Z) (dbl : bool).

Definition block_of (x : bytes) : Z := e2i x (MEMORY / AES_BLOCK_SIZE) * AES_BLOCK_SIZE.

Definition iteration (tweak1_2 : bytes) (v : vars) : option vars :=
  let '(mkvars long_state a b division_result sqrt_result) := v in
  (* Iteration 1 *)
  let j := block_of a in
  let c1 := ld128 long_state j in
  let c1 := aesb_single_round c1 a in
  let long_state := VARIANT2_PORTABLE_SHUFFLE_ADD variant a b long_state j in
  let long_state := copy_block long_state j c1 in
  let long_state := xor_blocks long_state j b in
  if negb (j =? block_of a) then None
  else
    let long_state := VARIANT1_1 variant long_state j in
    (* Iteration 2 *)
    let j := block_of c1 in
    let c2 := ld128 long_state j in
    let '(c2, division_result, sqrt_result) :=
      VARIANT2_PORTABLE_INTEGER_MATH variant dbl c2 c1 division_result sqrt_result in
    let d := mul c1 c2 in
    let '(long_state, d) := VARIANT2_2_PORTABLE variant long_state j d in
    let long_state := VARIANT2_PORTABLE_SHUFFLE_ADD variant a b long_state j in
    let '(a, c1) := swap_blocks a c1 in
    let c1 := sum_half_blocks c1 d in
    let '(c1, c2) := swap_blocks c1 c2 in
    let c1 := xor_blocks c1 0 c2 in
    let c2 := VARIANT1_2 variant c2 8 tweak1_2 in
    let long_state := copy_block long_state j c2 in
    if negb (j =? block_of a) then None
    else
      let b := if 2 <=? variant then copy_block b 16 b else b in
      let b := copy_block b 0 a in
      let a := copy_block a 0 c1 in
      Some (mkvars long_state a b division_result sqrt_result).

Fixpoint iterations (n : nat) (tweak1_2 : bytes) (v : vars) : option vars :=
  match n with
  | O => Some v
  | S n => match iteration tweak1_2 v with Some v => iterations n tweak1_2 v | None => None end
  end.

(** The blocks of [text], each through [aesb_pseudo_round]. *)
Definition encrypt_text (exp_data text : bytes) : bytes :=
  foldl (fun text j => st128 text (AES_BLOCK_SIZE * Z.of_nat j)
                         (aesb_pseudo_round (ld128 text (AES_BLOCK_SIZE * Z.of_nat j)) exp_data))
    text (seq 0 INIT_SIZE_BLK).

Definition fill (exp_data : bytes) (s : bytes * bytes) (i : nat) : bytes * bytes :=
  let '(long_state, text) := s in
  let text := encrypt_text exp_data text in
  (memcpy long_state (i * INIT_SIZE_BYTE) text, text).

Definition absorb_text (exp_data long_state text : bytes) (i : nat) : bytes :=
  foldl (fun text j =>
           let o := AES_BLOCK_SIZE * Z.of_nat j in
           let text := xor_blocks text o (ld128 long_state (Z.of_nat (i * INIT_SIZE_BYTE) + o)) in
           st128 text o (aesb_pseudo_round (ld128 text o) exp_data))
    text (seq 0 INIT_SIZE_BLK).

Definition chunks : nat := Z.to_nat (MEMORY / Z.of_nat INIT_SIZE_BYTE).

(** [k[off + i] ^ k[off + 32 + i]] *)
Definition xor_k (state : bytes) (off : nat) : bytes :=
  (fun i => (state !!! (off + i)%nat) .^ (state !!! (off + 32 + i)%nat)) <$> seq 0 16.

Definition cn_slow_hash (groestl jh skein : bytes -> bytes) (e : env) (data : bytes) (prehashed : bool) : option bytes :=
  state ← start e data prehashed;
  let text := init_of state in
  let aes_key := take AES_KEY_SIZE state in
  let aes_ctx := oaes_alloc (mem_ctx e) (rand e) in
  tweak1_2 ← VARIANT1_PORTABLE_INIT variant data state;
  let '(b, division_result, sqrt_result) :=
    VARIANT2_PORTABLE_INIT variant (stack_b e) state in
  '(aes_ctx, exp_data) ← import (mem_keys e).1 aes_ctx aes_key;
  let '(long_state, text) := foldl (fill exp_data) (scratchpad e, text) (seq 0 chunks) in
  let a := xor_k state 0 in
  let b := memcpy b 0 (xor_k state 16) in
  v ← iterations (ITER / 2) tweak1_2 (mkvars long_state a b division_result sqrt_result);
  let text := init_of state in
  '(aes_ctx, exp_data) ← import (mem_keys e).2 (Some aes_ctx) (take AES_KEY_SIZE (drop 32 state));
  let text := foldl (absorb_text exp_data (v_long_state v)) text (seq 0 chunks) in
  Some (finish groestl jh skein e state text).
End Portable.
