(* ===== verification/SlowX86.v ===== *)
(** * The slow hash on x86-64: src/src/crypto/slow-hash.c, lines 222 to 835

    A [__m128i] is its 16 bytes in memory order; the intrinsics are modelled from
    the instruction set manual.  The uint64_t arrays are pairs of words.  The AES
    steps run on AES instructions or, without them, on aesb.c; the choice is made
    once and cached.  The scratchpad [hp_state] is a thread-local buffer that
    stays allocated between calls. *)

From stdpp Require Import strings.
From S2P Require Import Prelude IntUtil Keccak Oaes AesSpec Aesb IntSqrt SlowHash.

(** ** Intrinsics *)

Definition _mm_xor_si128 (x y : bytes) : bytes := zip_with Z.lxor x y.
Definition _mm_add_epi64 (x y : bytes) : bytes :=
  pack (u64 (ld64 x 0 + ld64 y 0), u64 (ld64 x 8 + ld64 y 8)).

(** A shift towards the higher bytes. *)
Definition _mm_slli_si128 (x : bytes) (n : nat) : bytes := take 16 (replicate n 0 ++ x).

Definition dword (x : bytes) (i : nat) : bytes := take 4 (drop (4 * i) x).

(** The doublewords selected by the two-bit fields of [imm]. *)
Definition _mm_shuffle_epi32 (x : bytes) (imm : Z) : bytes :=
  mjoin ((fun i => dword x (Z.to_nat ((imm .>> (2 * Z.of_nat i)) .& 3))) <$> seq 0 4).

(** SubWord of doublewords 1 and 3, plain and rotated with the round constant. *)
Definition _mm_aeskeygenassist_si128 (x : bytes) (rcon : Z) : bytes :=
  let sub i := SubBytes (dword x i) in
  let rot i := zip_with Z.lxor (RotWord (sub i)) [rcon; 0; 0; 0] in
  sub 1%nat ++ rot 1%nat ++ sub 3%nat ++ rot 3%nat.

Definition _mm_aesenc_si128 (x k : bytes) : bytes := aes_round x k.

(** ** Choice of the AES steps *)

(** The two static variables. *)
Record cpu := mkcpu { use : Z; supported : Z }.

Definition force_software_aes (env : option string) (s : cpu) : Z * cpu :=
  if negb (use s =? -1) then (use s, s)
  else
    let u := match env with
             | None => 0
             | Some v => if bool_decide (v = "0"%string) || bool_decide (v = "no"%string) then 0 else 1
             end in
    (u, mkcpu u (supported s)).

(** [ecx] is the third result of [cpuid]. *)
Definition check_aes_hw (ecx : Z) (s : cpu) : Z * cpu :=
  if 0 <=? supported s then (supported s, s)
  else let v := ecx .& (1 .<< 25) in (v, mkcpu (use s) v).

(** [!force_software_aes() && check_aes_hw()] *)
Definition use_aes (env : option string) (ecx : Z) (s : cpu) : bool * cpu :=
  let '(force, s) := force_software_aes env s in
  if negb (force =? 0) then (false, s)
  else let '(hw, s) := check_aes_hw ecx s in (negb (hw =? 0), s).

(** ** The scratchpad *)

Record hp := mkhp { hp_state : option bytes; hp_allocated : Z }.

Definition hp_start : hp := mkhp None 0.

(** [mapped] is the result of mmap, [None] for MAP_FAILED; [heap] that of malloc. *)
Definition slow_hash_allocate_state (mapped heap : option bytes) (s : hp) : hp :=
  match hp_state s with
  | Some _ => s
  | None => match mapped with
            | Some m => mkhp (Some m) 1
            | None => mkhp heap 0
            end
  end.

Inductive release := no_release | by_free | by_munmap.

(** What is released and the new state. *)
Definition slow_hash_free_state (s : hp) : release * hp :=
  match hp_state s with
  | None => (no_release, s)
  | Some _ => (if hp_allocated s =? 0 then by_free else by_munmap, mkhp None 0)
  end.

(** ** AES *)

(** The new [t1] and [t2]. *)
Definition aes_256_assist1 (t1 t2 : bytes) : bytes * bytes :=
  let t2 := _mm_shuffle_epi32 t2 0xff in
  let t4 := _mm_slli_si128 t1 0x04 in
  let t1 := _mm_xor_si128 t1 t4 in
  let t4 := _mm_slli_si128 t4 0x04 in
  let t1 := _mm_xor_si128 t1 t4 in
  let t4 := _mm_slli_si128 t4 0x04 in
  let t1 := _mm_xor_si128 t1 t4 in
  (_mm_xor_si128 t1 t2, t2).

(** The new [t3]. *)
Definition aes_256_assist2 (t1 t3 : bytes) : bytes :=
  let t4 := _mm_aeskeygenassist_si128 t1 0x00 in
  let t2 := _mm_shuffle_epi32 t4 0xaa in
  let t4 := _mm_slli_si128 t3 0x04 in
  let t3 := _mm_xor_si128 t3 t4 in
  let t4 := _mm_slli_si128 t4 0x04 in
  let t3 := _mm_xor_si128 t3 t4 in
  let t4 := _mm_slli_si128 t4 0x04 in
  let t3 := _mm_xor_si128 t3 t4 in
  _mm_xor_si128 t3 t2.

(** The two round keys after [t1] and [t3]. *)
Definition expand_pair (rcon : Z) (t1 t3 : bytes) : bytes * bytes :=
  let t2 := _mm_aeskeygenassist_si128 t3 rcon in
  let t1 := (aes_256_assist1 t1 t2).1 in
  let t3 := aes_256_assist2 t1 t3 in
  (t1, t3).

(** The eleven round keys written to [expandedKey]. *)
Definition aes_expand_key (key : bytes) : bytes :=
  let t1 := ld128 key 0 in
  let t3 := ld128 key 16 in
  let '(ek2, ek3) := expand_pair 0x01 t1 t3 in
  let '(ek4, ek5) := expand_pair 0x02 ek2 ek3 in
  let '(ek6, ek7) := expand_pair 0x04 ek4 ek5 in
  let '(ek8, ek9) := expand_pair 0x08 ek6 ek7 in
  let t2 := _mm_aeskeygenassist_si128 ek9 0x10 in
  let ek10 := (aes_256_assist1 ek8 t2).1 in
  mjoin [t1; t3; ek2; ek3; ek4; ek5; ek6; ek7; ek8; ek9; ek10].

Definition ten_aesenc (d expandedKey : bytes) : bytes :=
  let k i := ld128 expandedKey (16 * i) in
  d
  |> (fun d => _mm_aesenc_si128 d (k 0))
  |> (fun d => _mm_aesenc_si128 d (k 1))
  |> (fun d => _mm_aesenc_si128 d (k 2))
  |> (fun d => _mm_aesenc_si128 d (k 3))
  |> (fun d => _mm_aesenc_si128 d (k 4))
  |> (fun d => _mm_aesenc_si128 d (k 5))
  |> (fun d => _mm_aesenc_si128 d (k 6))
  |> (fun d => _mm_aesenc_si128 d (k 7))
  |> (fun d => _mm_aesenc_si128 d (k 8))
  |> (fun d => _mm_aesenc_si128 d (k 9)).

(** [in] and [out] are the same buffer in every call. *)
Definition aes_pseudo_round (text expandedKey : bytes) (nblocks : nat) : bytes :=
  foldl (fun text i =>
           let o := Z.of_nat i * AES_BLOCK_SIZE in
           st128 text o (ten_aesenc (ld128 text o) expandedKey))
    text (seq 0 nblocks).

Definition aes_pseudo_round_xor (text expandedKey xor : bytes) (nblocks : nat) : bytes :=
  foldl (fun text i =>
           let o := Z.of_nat i * AES_BLOCK_SIZE in
           st128 text o (ten_aesenc (_mm_xor_si128 (ld128 text o) (ld128 xor (16 * Z.of_nat i))) expandedKey))
    text (seq 0 nblocks).

(** [xor_blocks(a + off, b)] *)
Definition xor_blocks (a : bytes) (off : Z) (b : bytes) : bytes :=
  let a := st64 a off (ld64 a off .^ ld64 b 0) in
  st64 a (off + 8) (ld64 a (off + 8) .^ ld64 b 8).

(** [xor64(a + off, b)] *)
Definition xor64 (a : bytes) (off b : Z) : bytes := st64 a off (ld64 a off .^ b).

(** ** Variants *)

Definition VARIANT1_2 (variant : Z) (m : bytes) (p tweak1_2 : Z) : bytes :=
  if variant =? 1 then xor64 m p tweak1_2 else m.

Definition VARIANT1_INIT64 (variant : Z) (data state : bytes) : option Z :=
  if variant =? 1 then
    if VARIANT1_CHECK data then Some (ld64 state (8 * 24) .^ le (NONCE data)) else None
  else Some 0.

(** [b[2], b[3]], [division_result] and [sqrt_result]; [b] is what the array held. *)
Definition VARIANT2_INIT64 (variant : Z) (b state : bytes) : Z * Z * Z * Z :=
  if 2 <=? variant then
    (ld64 state (8 * 8) .^ ld64 state (8 * 10), ld64 state (8 * 9) .^ ld64 state (8 * 11),
     ld64 state (8 * 12), ld64 state (8 * 13))
  else (ld64 b 16, ld64 b 24, 0, 0).

Definition VARIANT2_SHUFFLE_ADD_SSE2 (variant : Z) (_a _b _b1 m : bytes) (offset : Z) : bytes :=
  if 2 <=? variant then
    let chunk1 := ld128 m (offset .^ 0x10) in
    let chunk2 := ld128 m (offset .^ 0x20) in
    let chunk3 := ld128 m (offset .^ 0x30) in
    let m := st128 m (offset .^ 0x10) (_mm_add_epi64 chunk3 _b1) in
    let m := st128 m (offset .^ 0x20) (_mm_add_epi64 chunk1 _b) in
    st128 m (offset .^ 0x30) (_mm_add_epi64 chunk2 _a)
  else m.

(** The new [b[0]], [division_result] and [sqrt_result]. *)
Definition VARIANT2_INTEGER_MATH_SSE2 (variant b0 : Z) (c : Z * Z) (division_result sqrt_result : Z) : Z * Z * Z :=
  if 2 <=? variant then
    let '(tmpx, division_result, sqrt_input) :=
      VARIANT2_INTEGER_MATH_DIVISION_STEP c.1 c.2 division_result sqrt_result in
    let b0 := b0 .^ tmpx in
    let sqrt_result := VARIANT2_INTEGER_MATH_SQRT_STEP_SSE2 sqrt_input in
    let sqrt_result := VARIANT2_INTEGER_MATH_SQRT_FIXUP sqrt_input sqrt_result in
    (b0, division_result, sqrt_result)
  else (b0, division_result, sqrt_result).

(** The new [hp_state], [hi] and [lo]. *)
Definition VARIANT2_2 (variant : Z) (hp_state : bytes) (j hi lo : Z) : bytes * Z * Z :=
  if 2 <=? variant then
    let hp_state := st64 hp_state (j .^ 0x10) (ld64 hp_state (j .^ 0x10) .^ hi) in
    let hp_state := st64 hp_state ((j .^ 0x10) + 8) (ld64 hp_state ((j .^ 0x10) + 8) .^ lo) in
    (hp_state, hi .^ ld64 hp_state (j .^ 0x20), lo .^ ld64 hp_state ((j .^ 0x20) + 8))
  else (hp_state, hi, lo).

(** ** The function *)

(** The variables that live across iterations. *)
Record vars := mkvars { v_hp : bytes; v_a : Z * Z; v_b : bytes; v_b1 : bytes; v_division_result : Z; v_sqrt_result : Z }.

Section X86.
Context (MEMORY : Z) (ITER : nat) (variant : Z).

Definition TOTALBLOCKS : Z := MEMORY / AES_BLOCK_SIZE.
Definition state_index (x : Z * Z) : Z := ((x.1 .>> 4) .& (TOTALBLOCKS - 1)) .<< 4.

(** [mulq]: the high and the low word of the product. *)
Definition __mul (c0 b0 : Z) : Z * Z := (c0 * b0 / 2 ^ 64, u64 (c0 * b0)).

Definition post_aes (tweak1_2 : Z) (v : vars) (_a _c : bytes) (j : Z) : vars :=
  let '(mkvars hp_state a _b _b1 division_result sqrt_result) := v in
  let hp_state := VARIANT2_SHUFFLE_ADD_SSE2 variant _a _b _b1 hp_state j in
  let c := (ld64 _c 0, ld64 _c 8) in
  let hp_state := st128 hp_state j (_mm_xor_si128 _b _c) in
  let hp_state := VARIANT1_1 variant hp_state j in
  let j := state_index c in
  let b := (ld64 hp_state j, ld64 hp_state (j + 8)) in
  let '(b0, division_result, sqrt_result) :=
    VARIANT2_INTEGER_MATH_SSE2 variant b.1 c division_result sqrt_result in
  let b := (b0, b.2) in
  let '(hi, lo) := __mul c.1 b.1 in
  let '(hp_state, hi, lo) := VARIANT2_2 variant hp_state j hi lo in
  let hp_state := VARIANT2_SHUFFLE_ADD_SSE2 variant _a _b _b1 hp_state j in
  let a := (u64 (a.1 + hi), u64 (a.2 + lo)) in
  let hp_state := st64 hp_state j a.1 in
  let hp_state := st64 hp_state (j + 8) a.2 in
  let a := (a.1 .^ b.1, a.2 .^ b.2) in
  let hp_state := VARIANT1_2 variant hp_state (j + 8) tweak1_2 in
  mkvars hp_state a _c _b division_result sqrt_result.

(** [pre_aes], one AES round, [post_aes] *)
Definition iteration (useAes : bool) (tweak1_2 : Z) (v : vars) : vars :=
  let j := state_index (v_a v) in
  let _c := ld128 (v_hp v) j in
  let _a := pack (v_a v) in
  let _c := if useAes then _mm_aesenc_si128 _c _a else aesb_single_round _c _a in
  post_aes tweak1_2 v _a _c j.

Definition chunks : nat := Z.to_nat (MEMORY / Z.of_nat INIT_SIZE_BYTE).

Definition fill_hw (expandedKey : bytes) (s : bytes * bytes) (i : nat) : bytes * bytes :=
  let '(hp_state, text) := s in
  let text := aes_pseudo_round text expandedKey INIT_SIZE_BLK in
  (memcpy hp_state (i * INIT_SIZE_BYTE) text, text).

Definition fill_sw (exp_data : bytes) (s : bytes * bytes) (i : nat) : bytes * bytes :=
  let '(hp_state, text) := s in
  let text := foldl (fun text j => st128 text (AES_BLOCK_SIZE * Z.of_nat j)
                                     (aesb_pseudo_round (ld128 text (AES_BLOCK_SIZE * Z.of_nat j)) exp_data))
                text (seq 0 INIT_SIZE_BLK) in
  (memcpy hp_state (i * INIT_SIZE_BYTE) text, text).

Definition absorb_hw (expandedKey hp_state text : bytes) (i : nat) : bytes :=
  aes_pseudo_round_xor text expandedKey (drop (i * INIT_SIZE_BYTE) hp_state) INIT_SIZE_BLK.

Definition absorb_sw (exp_data hp_state text : bytes) (i : nat) : bytes :=
  foldl (fun text j =>
           let o := Z.of_nat j * AES_BLOCK_SIZE in
           let text := xor_blocks text o (ld128 hp_state (Z.of_nat (i * INIT_SIZE_BYTE) + o)) in
           st128 text o (aesb_pseudo_round (ld128 text o) exp_data))
    text (seq 0 INIT_SIZE_BLK).

(** The words [U64(&state.k[p])[i] ^ U64(&state.k[p + 32])[i]] *)
Definition xor_k (state : bytes) (p : Z) : Z * Z :=
  (ld64 state p .^ ld64 state (p + 32), ld64 state (p + 8) .^ ld64 state (p + 40)).

(** The result and the scratchpad after the call. *)
Definition cn_slow_hash (groestl jh skein : bytes -> bytes) (e : env) (mapped heap : option bytes) (useAes : bool)
    (s : hp) (data : bytes) (prehashed : bool) : option (bytes * hp) :=
  let s := slow_hash_allocate_state mapped heap s in
  state ← start e data prehashed;
  let text := init_of state in
  tweak1_2 ← VARIANT1_INIT64 variant data state;
  let '(b2, b3, division_result, sqrt_result) := VARIANT2_INIT64 variant (stack_b e) state in
  m ← hp_state s;
  let hw_key := aes_expand_key (take AES_KEY_SIZE state) in
  sw_key ← (if useAes then Some None
            else Some <$> import (mem_keys e).1 (oaes_alloc (mem_ctx e) (rand e)) (take AES_KEY_SIZE state));
  let '(m, text) :=
    foldl (match sw_key with None => fill_hw hw_key | Some (_, exp_data) => fill_sw exp_data end) (m, text) (seq 0 chunks) in
  let a := xor_k state 0 in
  let b := xor_k state 16 in
  let v := mkvars m a (pack b) (pack (b2, b3)) division_result sqrt_result in
  let v := Nat.iter (ITER / 2) (iteration useAes tweak1_2) v in
  let text := init_of state in
  let hw_key := aes_expand_key (take AES_KEY_SIZE (drop 32 state)) in
  sw_key ← (match sw_key with
            | None => Some None
            | Some (ctx, _) => Some <$> import (mem_keys e).2 (Some ctx) (take AES_KEY_SIZE (drop 32 state))
            end);
  let text :=
    foldl (match sw_key with None => absorb_hw hw_key (v_hp v) | Some (_, exp_data) => absorb_sw exp_data (v_hp v) end)
      text (seq 0 chunks) in
  Some (finish groestl jh skein e state text, mkhp (Some (v_hp v)) (hp_allocated s)).
End X86.
