(* ===== verification/SlowArm.v ===== *)
(** * The slow hash on ARM: src/src/crypto/slow-hash.c, lines 859 to 1394

    Two versions: with the NEON and AES instructions of ARMv8 ([Neon]), and the
    software version of the other ARM processors ([Soft]), which multiplies in
    one of three ways.  Vectors are their 16 bytes in memory order; the
    instructions, also those of the assembly text, are modelled from the
    architecture manual. *)

From S2P Require Import Prelude Keccak Oaes AesSpec Aesb IntSqrt SlowHash.
From S2P Require SlowPortable SlowX86.

(** ** Instructions *)

Definition veorq_u8 (x y : bytes) : bytes := zip_with Z.lxor x y.
Definition vaddq_u64 (x y : bytes) : bytes := pack (u64 (ld64 x 0 + ld64 y 0), u64 (ld64 x 8 + ld64 y 8)).

(** AESE: AddRoundKey, then ShiftRows and SubBytes; AESMC: MixColumns. *)
Definition vaeseq_u8 (x k : bytes) : bytes := ShiftRows (SubBytes (AddRoundKey x k)).
Definition vaesmcq_u8 (x : bytes) : bytes := MixColumns x.

(** EXT: [n] bytes off the pair of registers. *)
Definition ext (x y : bytes) (n : nat) : bytes := take 16 (drop n (x ++ y)).

(** TBL with one register: an index out of range gives 0. *)
Definition tbl (x idx : bytes) : bytes := (fun i => default 0 (x !! Z.to_nat i)) <$> idx.

(** DUP of a 32-bit lane, SHL of every byte. *)
Definition dup_s (x : bytes) (i : nat) : bytes := mjoin (replicate 4 (take 4 (drop (4 * i) x))).
Definition shl_b (x : bytes) (n : Z) : bytes := (fun b => u8 (b .<< n)) <$> x.

Definition zero : bytes := replicate 16 0.

(** ** Version with AES instructions *)

(** The three vectors of [rcon] in memory. *)
Definition rcon : list bytes :=
  [mjoin (replicate 4 (le_bytes 4 0x01)); mjoin (replicate 4 (le_bytes 4 0x0c0f0e0d)); mjoin (replicate 4 (le_bytes 4 0x1b))].

(** The registers of the loop of [aes_expand_key]: v1, v3, v4, and the vectors stored so far. *)
Record regs := mkregs { v1 : bytes; v3 : bytes; v4 : bytes; stored : list bytes }.

(** From label 1 to the conditional jump: v1, v3 and the stores. *)
Definition expand_first (v2 : bytes) (r : regs) : regs :=
  let v0 := zero in
  let v6 := tbl (v4 r) v2 in
  let v5 := ext v0 (v3 r) 12 in
  let st := stored r ++ [v4 r] in
  let v6 := vaeseq_u8 v6 v0 in
  let v3 := veorq_u8 (v3 r) v5 in
  let v5 := ext v0 v5 12 in
  let v3 := veorq_u8 v3 v5 in
  let v5 := ext v0 v5 12 in
  let v6 := veorq_u8 v6 (v1 r) in
  let v3 := veorq_u8 v3 v5 in
  let v1 := shl_b (v1 r) 1 in
  let v3 := veorq_u8 v3 v6 in
  mkregs v1 v3 (v4 r) (st ++ [v3]).

(** From there to the jump back. *)
Definition expand_second (r : regs) : regs :=
  let v0 := zero in
  let v6 := dup_s (v3 r) 3 in
  let v5 := ext v0 (v4 r) 12 in
  let v6 := vaeseq_u8 v6 v0 in
  let v4 := veorq_u8 (v4 r) v5 in
  let v5 := ext v0 v5 12 in
  let v4 := veorq_u8 v4 v5 in
  let v5 := ext v0 v5 12 in
  let v4 := veorq_u8 v4 v5 in
  let v4 := veorq_u8 v4 v6 in
  mkregs (v1 r) (v3 r) v4 (stored r).

(** The loop with the counter [w2]: the jump is taken when it reaches zero. *)
Fixpoint expand_loop (w2 : nat) (v2 : bytes) (r : regs) : regs :=
  match w2 with
  | O => r
  | S O => expand_first v2 r
  | S w2 => expand_loop w2 v2 (expand_second (expand_first v2 r))
  end.

Definition neon_expand_key (key : bytes) : bytes :=
  let v3 := ld128 key 0 in
  let v1 := rcon !!! 0%nat in
  let v2 := rcon !!! 1%nat in
  let v4 := ld128 key 16 in
  mjoin (stored (expand_loop 5 v2 (mkregs v1 v3 v4 [v3]))).

Definition neon_rounds (tmp first expandedKey : bytes) : bytes :=
  let k i := ld128 expandedKey (16 * i) in
  tmp
  |> (fun tmp => vaeseq_u8 tmp first) |> vaesmcq_u8
  |> (fun tmp => vaeseq_u8 tmp (k 0)) |> vaesmcq_u8
  |> (fun tmp => vaeseq_u8 tmp (k 1)) |> vaesmcq_u8
  |> (fun tmp => vaeseq_u8 tmp (k 2)) |> vaesmcq_u8
  |> (fun tmp => vaeseq_u8 tmp (k 3)) |> vaesmcq_u8
  |> (fun tmp => vaeseq_u8 tmp (k 4)) |> vaesmcq_u8
  |> (fun tmp => vaeseq_u8 tmp (k 5)) |> vaesmcq_u8
  |> (fun tmp => vaeseq_u8 tmp (k 6)) |> vaesmcq_u8
  |> (fun tmp => vaeseq_u8 tmp (k 7)) |> vaesmcq_u8
  |> (fun tmp => vaeseq_u8 tmp (k 8)) |> vaesmcq_u8
  |> (fun tmp => veorq_u8 tmp (k 9)).

Definition neon_pseudo_round (text expandedKey : bytes) (nblocks : nat) : bytes :=
  foldl (fun text i => let o := Z.of_nat i * AES_BLOCK_SIZE in st128 text o (neon_rounds (ld128 text o) zero expandedKey))
    text (seq 0 nblocks).

Definition neon_pseudo_round_xor (text expandedKey xor : bytes) (nblocks : nat) : bytes :=
  foldl (fun text i => let o := Z.of_nat i * AES_BLOCK_SIZE in
                       st128 text o (neon_rounds (ld128 text o) (ld128 xor (16 * Z.of_nat i)) expandedKey))
    text (seq 0 nblocks).

Definition VARIANT2_SHUFFLE_ADD_NEON (variant : Z) (_a _b _b1 m : bytes) (offset : Z) : bytes :=
  if 2 <=? variant then
    let chunk1 := ld128 m (offset .^ 0x10) in
    let chunk2 := ld128 m (offset .^ 0x20) in
    let chunk3 := ld128 m (offset .^ 0x30) in
    let m := st128 m (offset .^ 0x10) (vaddq_u64 chunk3 _b1) in
    let m := st128 m (offset .^ 0x20) (vaddq_u64 chunk1 _b) in
    st128 m (offset .^ 0x30) (vaddq_u64 chunk2 _a)
  else m.

(** MUL and UMULH. *)
Definition mul_instr (x y : Z) : Z := u64 (x * y).
Definition umulh (x y : Z) : Z := x * y / 2 ^ 64.

Section Neon.
Context (MEMORY : Z) (ITER : nat) (variant : Z) (dbl : bool).

(** The macro on the arrays [b] and [c] of words. *)
Definition neon_integer_math (b c : Z * Z) (division_result sqrt_result : Z) : (Z * Z) * Z * Z :=
  let '(b', division_result, sqrt_result) :=
    SlowPortable.VARIANT2_PORTABLE_INTEGER_MATH variant dbl (pack b) (pack c) division_result sqrt_result in
  ((ld64 b' 0, ld64 b' 8), division_result, sqrt_result).

Definition neon_post_aes (tweak1_2 : Z) (v : SlowX86.vars) (_a _c : bytes) (j : Z) : SlowX86.vars :=
  let '(SlowX86.mkvars hp_state a _b _b1 division_result sqrt_result) := v in
  let hp_state := VARIANT2_SHUFFLE_ADD_NEON variant _a _b _b1 hp_state j in
  let c := (ld64 _c 0, ld64 _c 8) in
  let hp_state := st128 hp_state j (veorq_u8 _b _c) in
  let hp_state := VARIANT1_1 variant hp_state j in
  let j := SlowX86.state_index MEMORY c in
  let b := (ld64 hp_state j, ld64 hp_state (j + 8)) in
  let '(b, division_result, sqrt_result) := neon_integer_math b c division_result sqrt_result in
  let lo := mul_instr c.1 b.1 in
  let hi := umulh c.1 b.1 in
  let '(hp_state, hi, lo) := SlowX86.VARIANT2_2 variant hp_state j hi lo in
  let hp_state := VARIANT2_SHUFFLE_ADD_NEON variant _a _b _b1 hp_state j in
  let a := (u64 (a.1 + hi), u64 (a.2 + lo)) in
  let hp_state := st64 hp_state j a.1 in
  let hp_state := st64 hp_state (j + 8) a.2 in
  let a := (a.1 .^ b.1, a.2 .^ b.2) in
  let hp_state := SlowX86.VARIANT1_2 variant hp_state (j + 8) tweak1_2 in
  SlowX86.mkvars hp_state a _c _b division_result sqrt_result.

Definition neon_iteration (tweak1_2 : Z) (v : SlowX86.vars) : SlowX86.vars :=
  let j := SlowX86.state_index MEMORY (SlowX86.v_a v) in
  let _c := ld128 (SlowX86.v_hp v) j in
  let _a := pack (SlowX86.v_a v) in
  let _c := vaeseq_u8 _c zero in
  let _c := vaesmcq_u8 _c in
  let _c := veorq_u8 _c _a in
  neon_post_aes tweak1_2 v _a _c j.

Definition neon_fill (expandedKey : bytes) (s : bytes * bytes) (i : nat) : bytes * bytes :=
  let '(hp_state, text) := s in
  let text := neon_pseudo_round text expandedKey INIT_SIZE_BLK in
  (memcpy hp_state (i * INIT_SIZE_BYTE) text, text).

Definition neon_absorb (expandedKey hp_state text : bytes) (i : nat) : bytes :=
  neon_pseudo_round_xor text expandedKey (drop (i * INIT_SIZE_BYTE) hp_state) INIT_SIZE_BLK.

Definition neon_slow_hash (groestl jh skein : bytes -> bytes) (e : env) (data : bytes) (prehashed : bool) : option bytes :=
  state ← start e data prehashed;
  let text := init_of state in
  tweak1_2 ← SlowX86.VARIANT1_INIT64 variant data state;
  let '(b2, b3, division_result, sqrt_result) := SlowX86.VARIANT2_INIT64 variant (stack_b e) state in
  let expandedKey := neon_expand_key (take AES_KEY_SIZE state) in
  let '(hp_state, text) := foldl (neon_fill expandedKey) (scratchpad e, text) (seq 0 (SlowX86.chunks MEMORY)) in
  let a := SlowX86.xor_k state 0 in
  let b := SlowX86.xor_k state 16 in
  let v := SlowX86.mkvars hp_state a (pack b) (pack (b2, b3)) division_result sqrt_result in
  let v := Nat.iter (ITER / 2) (neon_iteration tweak1_2) v in
  let text := init_of state in
  let expandedKey := neon_expand_key (take AES_KEY_SIZE (drop 32 state)) in
  let text := foldl (neon_absorb expandedKey (SlowX86.v_hp v)) text (seq 0 (SlowX86.chunks MEMORY)) in
  Some (finish groestl jh skein e state text).
End Neon.

(** ** Software version *)

Definition ld32 (m : bytes) (off : nat) : Z := le (take 4 (drop off m)).

(** The three products: plain C, the two 64-bit instructions, and the assembly of 32-bit ARM. *)
Inductive multiplier := by_c | by_arm64 | by_arm32.

(** The union holds four 64-bit words, each seen as two 32-bit halves. *)
Definition mul_c (ca cb : bytes) : bytes :=
  let A := ld32 ca 4 in
  let a := ld32 ca 0 in
  let B := ld32 cb 4 in
  let b := ld32 cb 0 in
  let low x := u32 x in
  let high x := x .>> 32 in
  let l0 := u64 (a * b) in
  let l1 := u64 (a * B) in
  let l2 := u64 (A * b) in
  let l3 := u64 (A * B) in
  let r2 := low l0 in
  let l1 := u64 (l1 + high l0) in
  let l1 := u64 (l1 + low l2) in
  let l3 := u64 (l3 + high l1) in
  let l3 := u64 (l3 + high l2) in
  let r3 := low l1 in
  let r0 := low l3 in
  let r1 := high l3 in
  le_bytes 4 r0 ++ le_bytes 4 r1 ++ le_bytes 4 r2 ++ le_bytes 4 r3.

Definition mul_arm64 (a b : bytes) : bytes :=
  let lo := mul_instr (ld64 a 0) (ld64 b 0) in
  let hi := umulh (ld64 a 0) (ld64 b 0) in
  pack (hi, lo).

(** UMULL: the low and high word; UMLAL adds the product to the pair of registers. *)
Definition umull (x y : Z) : Z * Z := (u32 (x * y), (x * y) .>> 32).
Definition umlal (lo hi x y : Z) : Z * Z :=
  let s := u64 (lo + (hi .<< 32) + x * y) in (u32 s, s .>> 32).

Definition mul_arm32 (aa bb : bytes) : bytes :=
  let A := ld32 aa 4 in
  let a := ld32 aa 0 in
  let B := ld32 bb 4 in
  let b := ld32 bb 0 in
  let t2 := 0 in
  let t3 := 0 in
  let '(t0, t1) := umull a b in
  let ll := t0 in
  let t0 := t0 .^ t0 in
  let '(t1, t0) := umlal t1 t0 a B in
  let '(t1, t2) := umlal t1 t2 A b in
  let lh := t1 in
  let '(t0, t3) := umlal t0 t3 A B in
  let carry := if 2 ^ 32 <=? t0 + t2 then 1 else 0 in
  let t0 := u32 (t0 + t2) in
  let t1 := u32 (t3 + 0 + carry) in
  le_bytes 4 t0 ++ le_bytes 4 t1 ++ le_bytes 4 ll ++ le_bytes 4 lh.

Definition mul (how : multiplier) (a b : bytes) : bytes :=
  match how with by_c => mul_c a b | by_arm64 => mul_arm64 a b | by_arm32 => mul_arm32 a b end.

(** [b] as bytes, with its words 2 and 3 set by VARIANT2_INIT64. *)
Definition set_b (b : bytes) (w2 w3 : Z) : bytes := st64 (st64 b 16 w2) 24 w3.

Section Soft.
Context (MEMORY : Z) (ITER : nat) (variant : Z) (dbl : bool) (how : multiplier).

Definition MASK : Z := u32 ((MEMORY / AES_BLOCK_SIZE - 1) .<< 4).
Definition soft_index (x : bytes) : Z := ld32 x 0 .& MASK.

Definition VARIANT2_2_soft (long_state : bytes) (j : Z) (d : bytes) : bytes * bytes :=
  if 2 <=? variant then
    let long_state := SlowX86.xor_blocks long_state (j .^ 0x10) d in
    (long_state, SlowX86.xor_blocks d 0 (ld128 long_state (j .^ 0x20)))
  else (long_state, d).

Definition soft_iteration (tweak1_2 : Z) (v : SlowPortable.vars) : SlowPortable.vars :=
  let '(SlowPortable.mkvars long_state a b division_result sqrt_result) := v in
  (* Iteration 1 *)
  let j := soft_index a in
  let long_state := st128 long_state j (aesb_single_round (ld128 long_state j) a) in
  let c1 := ld128 long_state j in
  let long_state := SlowPortable.VARIANT2_PORTABLE_SHUFFLE_ADD variant a b long_state j in
  let long_state := SlowX86.xor_blocks long_state j b in
  let long_state := VARIANT1_1 variant long_state j in
  (* Iteration 2 *)
  let j := soft_index c1 in
  let c := ld128 long_state j in
  let '(c, division_result, sqrt_result) :=
    SlowPortable.VARIANT2_PORTABLE_INTEGER_MATH variant dbl c c1 division_result sqrt_result in
  let d := mul how c1 c in
  let '(long_state, d) := VARIANT2_2_soft long_state j d in
  let long_state := SlowPortable.VARIANT2_PORTABLE_SHUFFLE_ADD variant a b long_state j in
  let a := SlowPortable.sum_half_blocks a d in
  let '(a, c) := SlowPortable.swap_blocks a c in
  let a := SlowX86.xor_blocks a 0 c in
  let c := SlowX86.VARIANT1_2 variant c 8 tweak1_2 in
  let long_state := SlowPortable.copy_block long_state j c in
  let b := if 2 <=? variant then SlowPortable.copy_block b 16 b else b in
  let b := SlowPortable.copy_block b 0 c1 in
  SlowPortable.mkvars long_state a b division_result sqrt_result.

Definition soft_slow_hash (groestl jh skein : bytes -> bytes) (e : env) (data : bytes) (prehashed : bool) : option bytes :=
  state ← start e data prehashed;
  let text := init_of state in
  let aes_ctx := oaes_alloc (mem_ctx e) (rand e) in
  '(aes_ctx, expandedKey) ← import (mem_keys e).1 aes_ctx (take AES_KEY_SIZE state);
  tweak1_2 ← SlowX86.VARIANT1_INIT64 variant data state;
  let '(b2, b3, division_result, sqrt_result) := SlowX86.VARIANT2_INIT64 variant (stack_b e) state in
  let b := if 2 <=? variant then set_b (stack_b e) b2 b3 else stack_b e in
  let '(long_state, text) := foldl (SlowX86.fill_sw expandedKey) (scratchpad e, text) (seq 0 (SlowX86.chunks MEMORY)) in
  let a := pack (SlowX86.xor_k state 0) in
  let b := memcpy b 0 (pack (SlowX86.xor_k state 16)) in
  let v := SlowPortable.mkvars long_state a b division_result sqrt_result in
  let v := Nat.iter (ITER / 2) (soft_iteration tweak1_2) v in
  let text := init_of state in
  '(aes_ctx, expandedKey) ← import (mem_keys e).2 (Some aes_ctx) (take AES_KEY_SIZE (drop 32 state));
  let text := foldl (SlowX86.absorb_sw expandedKey (SlowPortable.v_long_state v)) text (seq 0 (SlowX86.chunks MEMORY)) in
  Some (finish groestl jh skein e state text).
End Soft.
