(* ===== verification/SlowSpec.v ===== *)
(** * The slow hash as an algorithm on blocks

    The specification the versions of [cn_slow_hash] refine: the scratchpad is a
    list of 16-byte blocks, the AES steps are those of FIPS 197, the product and
    the square root are those of the integers.  The second half of the file
    relates byte memory to lists of blocks. *)

From S2P Require Import Prelude Keccak Random Oaes AesSpec IntSqrt SlowHash.

(** ** Blocks *)

Definition lo64 (x : bytes) : Z := le (take 8 x).
Definition hi64 (x : bytes) : Z := le (take 8 (drop 8 x)).
Definition bxor (x y : bytes) : bytes := zip_with Z.lxor x y.
Definition badd (x y : bytes) : bytes := pack (u64 (lo64 x + lo64 y), u64 (hi64 x + hi64 y)).

(** The high word of the product of the low words, then its low word. *)
Definition product (c y : bytes) : bytes := pack (lo64 c * lo64 y / 2 ^ 64, (lo64 c * lo64 y) mod 2 ^ 64).

(** Ten AES rounds with the first ten round keys of a 256-bit key. *)
Definition encrypt10 (key blk : bytes) : bytes :=
  foldl (fun s i => aes_round s (round_key (KeyExpansion 8 key) i)) blk (seq 0 10).

(** ** The mixing loop *)

Record cn_state := mkcn { scratch : list bytes; cn_a : bytes; cn_b : bytes; cn_b1 : bytes; cn_div : Z; cn_sqrt : Z }.

Section Spec.
Context (N : nat) (variant : Z).

Definition block_index (x : bytes) : nat := Z.to_nat (lo64 x / 16 mod Z.of_nat N).

(** The block whose offset differs by [16 n] in the bits of [n]. *)
Definition near (i : nat) (n : Z) : nat := Z.to_nat (Z.of_nat i .^ n).

(** Variant 2 rotates the three neighbours of a block and adds to them. *)
Definition shuffle (a b b1 : bytes) (i : nat) (M : list bytes) : list bytes :=
  if 2 <=? variant then
    <[near i 3 := badd (M !!! near i 2) a]>
      (<[near i 2 := badd (M !!! near i 1) b]> (<[near i 1 := badd (M !!! near i 3) b1]> M))
  else M.

Definition math (y c : bytes) (div sqrt : Z) : bytes * Z * Z :=
  if 2 <=? variant then
    let '(tmpx, div, input) := VARIANT2_INTEGER_MATH_DIVISION_STEP (lo64 c) (hi64 c) div sqrt in
    (bxor y (pack (tmpx, 0)), div, isqrt_spec input)
  else (y, div, sqrt).

Definition exchange (k : nat) (M : list bytes) (d : bytes) : list bytes * bytes :=
  if 2 <=? variant then
    let M := <[near k 1 := bxor (M !!! near k 1) d]> M in
    (M, bxor d (M !!! near k 2))
  else (M, d).

Definition cn_step (tweak : Z) (s : cn_state) : cn_state :=
  let '(mkcn M a b b1 div sqrt) := s in
  let i := block_index a in
  let c := aes_round (M !!! i) a in
  let M := shuffle a b b1 i M in
  let M := <[i := VARIANT1_1 variant (bxor b c) 0]> M in
  let k := block_index c in
  let '(y, div, sqrt) := math (M !!! k) c div sqrt in
  let '(M, d) := exchange k M (product c y) in
  let M := shuffle a b b1 k M in
  let s := badd a d in
  let M := <[k := if variant =? 1 then bxor s (pack (0, tweak)) else s]> M in
  mkcn M (bxor s y) c b div sqrt.

(** ** The whole hash *)

(** The blocks of a text. *)
Definition blocks_of (text : bytes) : list bytes := (fun j => take 16 (drop (16 * j) text)) <$> seq 0 8.

Fixpoint explode (key : bytes) (n : nat) (T : list bytes) : list bytes :=
  match n with
  | O => []
  | S n => let T := encrypt10 key <$> T in T ++ explode key n T
  end.

Definition implode_step (key : bytes) (M T : list bytes) (i : nat) : list bytes :=
  encrypt10 key <$> zip_with bxor T (take 8 (drop (8 * i) M)).
Definition implode (key : bytes) (M T : list bytes) : list bytes :=
  foldl (implode_step key M) T (seq 0 (N / 8)).

(** The part [n] of the state, 16 bytes each. *)
Definition part (state : bytes) (n : nat) : bytes := take 16 (drop (16 * n) state).

Definition cn_init (state : bytes) : cn_state :=
  mkcn (explode (take 32 state) (N / 8) (blocks_of (init_of state)))
    (bxor (part state 0) (part state 2)) (bxor (part state 1) (part state 3)) (bxor (part state 4) (part state 5))
    (if 2 <=? variant then lane state 12 else 0) (if 2 <=? variant then lane state 13 else 0).

Definition cn_text (iter : nat) (tweak : Z) (state : bytes) : bytes :=
  let s := Nat.iter (iter / 2) (cn_step tweak) (cn_init state) in
  mjoin (implode (take 32 (drop 32 state)) (scratch s) (blocks_of (init_of state))).

(** No result for variant 1 on fewer than 43 bytes. *)
Definition cryptonight (iter : nat) (groestl jh skein : bytes -> bytes) (e : env) (data : bytes) (prehashed : bool) : option bytes :=
  state ← start e data prehashed;
  if (variant =? 1) && (length data <? 43)%nat then None
  else
    let tweak := lane state 24 .^ le (NONCE data) in
    Some (finish groestl jh skein e state (cn_text iter tweak state)).
End Spec.

(** ** Memory as blocks *)

Lemma memcpy_frame (P B S src : bytes) o : (o + length src <= length B)%nat ->
  memcpy (P ++ B ++ S) (length P + o) src = P ++ memcpy B o src ++ S.
Proof.
  intros Ho. unfold memcpy. rewrite take_app_add, take_app_le by lia. rewrite <- !app_assoc. do 3 f_equal.
  rewrite <- Nat.add_assoc, drop_app_add, drop_app_le by lia. done.
Qed.

Lemma range_frame (P B S : bytes) o n : (o + n <= length B)%nat ->
  take n (drop (length P + o) (P ++ B ++ S)) = take n (drop o B).
Proof.
  intros Ho. rewrite drop_app_add, drop_app_le, take_app_le by (rewrite ?length_drop; lia). done.
Qed.

Lemma insert_frame (P B S : bytes) o x : (o < length B)%nat ->
  <[(length P + o)%nat := x]> (P ++ B ++ S) = P ++ <[o := x]> B ++ S.
Proof.
  intros Ho. rewrite insert_app_r, insert_app_l by done. done.
Qed.

Lemma lookup_frame (P B S : bytes) o : (o < length B)%nat -> (P ++ B ++ S) !!! (length P + o)%nat = B !!! o.
Proof.
  intros Ho. rewrite lookup_total_app_r by lia. replace (length P + o - length P)%nat with o by lia.
  by rewrite lookup_total_app_l.
Qed.

(** The bytes of a range, each xored with a source byte. *)
Lemma xor_bytes_value n m off src : (Z.to_nat off + n <= length m)%nat -> (n <= length src)%nat ->
  xor_bytes n m off src = memcpy m (Z.to_nat off) (zip_with Z.lxor (take n (drop (Z.to_nat off) m)) (take n src)).
Proof.
  set (o := Z.to_nat off). intros Ho Hs. unfold xor_bytes. fold o.
  induction n as [|n IH]; [unfold memcpy; cbn [seq foldl take zip_with app length]; rewrite Nat.add_0_r; symmetry; apply take_drop|].
  rewrite seq_S, foldl_app, IH by lia. cbn [foldl Nat.add].
  set (z := zip_with Z.lxor (take n (drop o m)) (take n src)).
  assert (Hz : length z = n) by (unfold z; rewrite length_zip_with, !length_take, length_drop; lia).
  assert (Hd : drop o m <> []) by (intros E; apply (f_equal length) in E; rewrite length_drop in E; cbn in E; lia).
  rewrite (take_S_r (drop o m) n (m !!! (o + n)%nat)) by (rewrite lookup_drop; apply list_lookup_lookup_total_lt; lia).
  rewrite (take_S_r src n (src !!! n)) by (apply list_lookup_lookup_total_lt; lia).
  rewrite zip_with_app by (rewrite !length_take, length_drop; lia). fold z. cbn [zip_with].
  unfold memcpy. rewrite length_app. cbn [length]. rewrite Hz.
  assert (Hl : length (take o m ++ z) = (o + n)%nat) by (rewrite length_app, length_take, Hz; lia).
  rewrite (drop_S m (m !!! (o + n)%nat) (o + n)) by (apply list_lookup_lookup_total_lt; lia).
  replace (o + (n + 1))%nat with (S (o + n)) by lia. rewrite !app_assoc.
  rewrite <- Hl at 1 2. rewrite insert_app_r_alt, Nat.sub_diag by lia. cbn [insert list_insert].
  rewrite lookup_total_app_r, Nat.sub_diag by lia. cbn [lookup_total list_lookup_total].
  rewrite <- !app_assoc. done.
Qed.

Lemma is_block_length b : is_block b -> length b = 16%nat.
Proof. by intros [_ ?]. Qed.

Lemma xor_bytes_block n b o src : is_block b -> is_bytes src -> (Z.to_nat o + n <= 16)%nat -> (n <= length src)%nat ->
  is_block (xor_bytes n b o src).
Proof.
  intros [Hb Lb] Hs Ho Hn. rewrite xor_bytes_value by lia. set (z := zip_with _ _ _).
  assert (Lz : length z = n) by (unfold z; rewrite length_zip_with, !length_take, length_drop; lia).
  split; [|by rewrite length_memcpy by lia]. unfold memcpy. repeat apply Forall_app_2; [by apply Forall_take| |by apply Forall_drop].
  apply zip_lxor_bytes; apply Forall_take; [by apply Forall_drop|done].
Qed.

Definition are_blocks (M : list bytes) : Prop := Forall is_block M.

Lemma length_mjoin_blocks M : are_blocks M -> length (mjoin M) = (16 * length M)%nat.
Proof. induction 1 as [|b M [_ Hb] _ IH]; [done|]. rewrite mjoin_cons, length_app, IH, Hb. cbn [length]. lia. Qed.

Lemma are_blocks_take n M : are_blocks M -> are_blocks (take n M).
Proof. apply Forall_take. Qed.

Lemma are_blocks_lookup M i : are_blocks M -> (i < length M)%nat -> is_block (M !!! i).
Proof. intros HM Hi. by apply Forall_lookup_total_1. Qed.

Lemma mjoin_split (M : list bytes) i v : (i < length M)%nat ->
  mjoin (<[i := v]> M) = mjoin (take i M) ++ v ++ mjoin (drop (S i) M).
Proof. intros Hi. rewrite insert_take_drop by done. by rewrite mjoin_app, mjoin_cons. Qed.

Section Blocks.
Context (M : list bytes) (i : nat) (HM : are_blocks M) (Hi : (i < length M)%nat).

Let Bi : is_block (M !!! i) := are_blocks_lookup M i HM Hi.

Lemma block_frame (op : bytes -> nat -> bytes) o :
  (forall P S, op (P ++ (M !!! i) ++ S) (length P + o)%nat = P ++ op (M !!! i) o ++ S) ->
  op (mjoin M) (16 * i + o)%nat = mjoin (<[i := op (M !!! i) o]> M).
Proof using HM Hi.
  intros Hop. rewrite mjoin_split by done. rewrite <- (list_insert_id M i (M !!! i)) at 1
    by (by apply list_lookup_lookup_total_lt). rewrite mjoin_split by done.
  replace (16 * i)%nat with (length (mjoin (take i M))); [done|].
  rewrite length_mjoin_blocks by (by apply are_blocks_take). rewrite length_take. lia.
Qed.

Lemma range_block o n : (o + n <= 16)%nat -> take n (drop (16 * i + o) (mjoin M)) = take n (drop o (M !!! i)).
Proof using HM Hi Bi.
  intros Ho. rewrite <- (list_insert_id M i (M !!! i)) at 1 by (by apply list_lookup_lookup_total_lt).
  rewrite mjoin_split by done. replace (16 * i)%nat with (length (mjoin (take i M))).
  - apply range_frame. destruct Bi as [_ ->]. lia.
  - rewrite length_mjoin_blocks by (by apply are_blocks_take). rewrite length_take. lia.
Qed.

Lemma ld64_block o : 0 <= o <= 8 -> ld64 (mjoin M) (16 * Z.of_nat i + o) = ld64 (M !!! i) o.
Proof using HM Hi Bi.
  intros Ho. unfold ld64. f_equal. replace (Z.to_nat (16 * Z.of_nat i + o)) with (16 * i + Z.to_nat o)%nat by lia.
  apply range_block. lia.
Qed.

Lemma ld128_block : ld128 (mjoin M) (16 * Z.of_nat i) = M !!! i.
Proof using HM Hi Bi.
  unfold ld128. replace (Z.to_nat (16 * Z.of_nat i)) with (16 * i + 0)%nat by lia. rewrite range_block by lia.
  rewrite drop_0. apply take_ge. destruct Bi as [_ ->]. lia.
Qed.

Lemma st64_block o v : 0 <= o <= 8 -> st64 (mjoin M) (16 * Z.of_nat i + o) v = mjoin (<[i := st64 (M !!! i) o v]> M).
Proof using HM Hi Bi.
  intros Ho. unfold st64. replace (Z.to_nat (16 * Z.of_nat i + o)) with (16 * i + Z.to_nat o)%nat by lia.
  apply (block_frame (fun m o => memcpy m o (le_bytes 8 v))). intros P S. apply memcpy_frame.
  rewrite length_le_bytes, (is_block_length _ Bi). lia.
Qed.

Lemma st128_block v : length v = 16%nat -> st128 (mjoin M) (16 * Z.of_nat i) v = mjoin (<[i := v]> M).
Proof using HM Hi Bi.
  intros Hv. unfold st128. replace (Z.to_nat (16 * Z.of_nat i)) with (16 * i + 0)%nat by lia.
  rewrite (block_frame (fun m o => memcpy m o v)).
  - do 2 f_equal. unfold memcpy. cbn [take Nat.add app]. rewrite drop_ge by (rewrite (is_block_length _ Bi); lia). apply app_nil_r.
  - intros P S. apply memcpy_frame. rewrite (is_block_length _ Bi). lia.
Qed.

Lemma xor_block_at n o src : 0 <= o -> (Z.to_nat o + n <= 16)%nat -> (n <= length src)%nat ->
  xor_bytes n (mjoin M) (16 * Z.of_nat i + o) src = mjoin (<[i := xor_bytes n (M !!! i) o src]> M).
Proof using HM Hi Bi.
  intros H0 Ho Hs. pose proof (length_mjoin_blocks M HM). pose proof (is_block_length _ Bi).
  rewrite !xor_bytes_value by lia. replace (Z.to_nat (16 * Z.of_nat i + o)) with (16 * i + Z.to_nat o)%nat by lia.
  rewrite range_block by done. apply (block_frame (fun m o' => memcpy m o' _)). intros P S. apply memcpy_frame.
  rewrite length_zip_with, !length_take, length_drop. lia.
Qed.

Lemma variant1_block variant : VARIANT1_1 variant (mjoin M) (16 * Z.of_nat i) = mjoin (<[i := VARIANT1_1 variant (M !!! i) 0]> M).
Proof using HM Hi Bi.
  unfold VARIANT1_1. destruct (variant =? 1); [|by rewrite list_insert_id by (by apply list_lookup_lookup_total_lt)].
  replace (Z.to_nat (16 * Z.of_nat i + 11)) with (16 * i + 11)%nat by lia. change (Z.to_nat (0 + 11)) with 11%nat.
  apply (block_frame (fun m o => let tmp := m !!! o in
    <[o := u8 (tmp .^ ((0x75310 .>> u8 ((((tmp .>> 3) .& 6) .| (tmp .& 1)) .<< 1)) .& 0x30))]> m)). intros P S.
  pose proof (is_block_length _ Bi). rewrite lookup_frame, insert_frame by lia. done.
Qed.
End Blocks.

(** ** Halves of a block *)

Lemma ld64_lo x : ld64 x 0 = lo64 x. Proof. done. Qed.
Lemma ld64_hi x : ld64 x 8 = hi64 x. Proof. done. Qed.

Lemma length_pack w : length (pack w) = 16%nat.
Proof. unfold pack. by rewrite length_app, !length_le_bytes. Qed.

Lemma pack_block w : is_block (pack w).
Proof. split; [|apply length_pack]. apply Forall_app_2; apply le_bytes_is_bytes. Qed.

Lemma le_bytes8 x : le (le_bytes 8 x) = u64 x.
Proof. apply (le_le_bytes 8). Qed.

Lemma lo64_pack w : lo64 (pack w) = u64 w.1.
Proof. unfold lo64, pack. rewrite take_app_length' by (by rewrite length_le_bytes). apply le_bytes8. Qed.

Lemma hi64_pack w : hi64 (pack w) = u64 w.2.
Proof.
  unfold hi64, pack. rewrite drop_app_length' by (by rewrite length_le_bytes).
  rewrite (take_ge _ 8) by (rewrite length_le_bytes; done). apply le_bytes8.
Qed.

Lemma half_word x : is_bytes x -> is_u64 (le (take 8 x)).
Proof.
  intros Hx. pose proof (le_bound (take 8 x) (Forall_take _ _ _ Hx)) as B. rewrite length_take in B.
  split; [lia|]. eapply Z.lt_le_trans; [apply B|]. change (2 ^ 64) with (256 ^ 8). apply Z.pow_le_mono_r; lia.
Qed.

Lemma lo64_word x : is_bytes x -> is_u64 (lo64 x).
Proof. apply half_word. Qed.

Lemma hi64_word x : is_bytes x -> is_u64 (hi64 x).
Proof. intros Hx. apply half_word. by apply Forall_drop. Qed.

Lemma pack_halves x : is_block x -> pack (lo64 x, hi64 x) = x.
Proof.
  intros [Hx Hl]. unfold pack, lo64, hi64. cbn [fst snd].
  assert (H8 : forall y, is_bytes y -> (8 <= length y)%nat -> le_bytes 8 (le (take 8 y)) = take 8 y).
  { intros y Hy Ly. rewrite <- (le_bytes_le (take 8 y)) at 2 by (by apply Forall_take). f_equal. rewrite length_take. lia. }
  rewrite !H8 by (rewrite ?length_drop; try lia; by try apply Forall_drop).
  rewrite (take_ge (drop 8 x) 8) by (rewrite length_drop; lia). apply take_drop.
Qed.

Lemma block_ext x y : is_block x -> is_block y -> lo64 x = lo64 y -> hi64 x = hi64 y -> x = y.
Proof. intros Hx Hy E1 E2. by rewrite <- (pack_halves x Hx), <- (pack_halves y Hy), E1, E2. Qed.

Lemma pack_wrap x y : pack (u64 x, y) = pack (x, y) /\ pack (x, u64 y) = pack (x, y).
Proof.
  assert (H : forall z, le_bytes 8 (u64 z) = le_bytes 8 z).
  { intros z. rewrite <- le_bytes8. apply (le_bytes_le (le_bytes 8 z)), le_bytes_is_bytes. }
  unfold pack. cbn [fst snd]. by rewrite !H.
Qed.

Lemma bxor_pack a b c d : bxor (pack (a, b)) (pack (c, d)) = pack (a .^ c, b .^ d).
Proof.
  unfold bxor, pack. cbn [fst snd]. rewrite zip_with_app by (by rewrite !length_le_bytes). by rewrite !le_bytes_lxor.
Qed.

Lemma bxor_block x y : is_block x -> is_block y -> is_block (bxor x y).
Proof. intros [Hx Lx] [Hy Ly]. split; [by apply zip_lxor_bytes|]. unfold bxor. rewrite length_zip_with. lia. Qed.

Lemma badd_block x y : is_block (badd x y).
Proof. apply pack_block. Qed.

(** Two stores of words are the store of a block. *)
Lemma st64_length b o x : 0 <= o <= 8 -> length b = 16%nat -> length (st64 b o x) = 16%nat.
Proof. intros Ho Hb. unfold st64. rewrite length_memcpy; rewrite ?length_le_bytes; lia. Qed.

Lemma st64_block_ok b o x : 0 <= o <= 8 -> is_block b -> is_block (st64 b o x).
Proof.
  intros Ho [Hb Lb]. split; [|by apply st64_length]. unfold st64, memcpy.
  repeat apply Forall_app_2; [by apply Forall_take|apply le_bytes_is_bytes|by apply Forall_drop].
Qed.

Lemma st64_both b x y : length b = 16%nat -> st64 (st64 b 0 x) 8 y = pack (x, y).
Proof.
  intros Hb. unfold st64, memcpy. change (Z.to_nat 0) with 0%nat. change (Z.to_nat 8) with 8%nat.
  rewrite !length_le_bytes, take_0, app_nil_l. rewrite take_app_length' by (by rewrite length_le_bytes).
  rewrite drop_ge; [|rewrite length_app, length_le_bytes, length_drop; lia]. by rewrite app_nil_r.
Qed.

Lemma st64_halves b x : is_block b -> st64 b 0 x = pack (x, hi64 b) /\ st64 b 8 x = pack (lo64 b, x).
Proof.
  intros Hb. pose proof (is_block_length b Hb) as Lb. split.
  - rewrite <- (pack_halves b Hb) at 1. unfold st64, memcpy, pack. change (Z.to_nat 0) with 0%nat. rewrite !length_le_bytes.
    rewrite take_0, app_nil_l. cbn [Nat.add fst snd]. by rewrite drop_app_length' by (by rewrite length_le_bytes).
  - rewrite <- (pack_halves b Hb) at 1. unfold st64, memcpy, pack. change (Z.to_nat 8) with 8%nat. rewrite !length_le_bytes.
    cbn [fst snd]. rewrite take_app_length' by (by rewrite length_le_bytes).
    rewrite (drop_ge _ (8 + 8)) by (rewrite length_app, !length_le_bytes; lia). by rewrite app_nil_r.
Qed.

Lemma xor_bytes_16 b src : length b = 16%nat -> (16 <= length src)%nat -> xor_bytes 16 b 0 src = bxor b (take 16 src).
Proof.
  intros Hb Hs. rewrite xor_bytes_value by (rewrite ?Hb; cbn; lia). unfold memcpy. change (Z.to_nat 0) with 0%nat.
  rewrite drop_0, (take_ge b 16) by lia. rewrite take_0, app_nil_l.
  rewrite drop_ge; [apply app_nil_r|]. rewrite length_zip_with, length_take. lia.
Qed.

(** The second word of a block, xored with 8 bytes. *)
Lemma xor_bytes_8 b t : is_block b -> is_bytes_n 8 t -> xor_bytes 8 b 8 t = bxor b (pack (0, le t)).
Proof.
  intros Hb [Ht Lt]. pose proof (is_block_length b Hb) as Lb. rewrite xor_bytes_value by (rewrite ?Lb; cbn; lia).
  rewrite <- (pack_halves b Hb) at 3. rewrite bxor_pack, Z.lxor_0_r. unfold memcpy, pack. change (Z.to_nat 8) with 8%nat. cbn [fst snd].
  rewrite (take_ge t 8), (take_ge (drop 8 b) 8) by (rewrite ?length_drop; lia). rewrite le_bytes_lxor.
  assert (E : le_bytes 8 (le t) = t) by (rewrite <- Lt; by apply le_bytes_le). rewrite E.
  rewrite (drop_ge b (8 + _)) by (rewrite length_zip_with, length_drop; lia). rewrite app_nil_r. f_equal.
  - unfold lo64. rewrite <- (le_bytes_le (take 8 b)) at 1 by (apply Forall_take, Hb). f_equal. rewrite length_take. lia.
  - f_equal. unfold hi64. rewrite (take_ge (drop 8 b) 8) by (rewrite length_drop; lia).
    rewrite <- (le_bytes_le (drop 8 b)) at 1 by (apply Forall_drop, Hb). f_equal. rewrite length_drop. lia.
Qed.

(** ** Offsets *)

Lemma near_offset i n : 0 <= n -> (16 * Z.of_nat i) .^ (16 * n) = 16 * Z.of_nat (near i n).
Proof.
  intros Hn. unfold near. rewrite Z2Nat.id by (apply Z.lxor_nonneg; lia).
  change 16 with (2 ^ 4). rewrite !(Z.mul_comm (2 ^ 4)), <- !Z.shiftl_mul_pow2 by lia. symmetry. apply Z.shiftl_lxor.
Qed.

Lemma near_lt i n k : 2 <= k -> (Z.of_nat i < 2 ^ k) -> 0 <= n <= 3 -> Z.of_nat (near i n) < 2 ^ k.
Proof.
  intros Hk Hi Hn. unfold near. rewrite Z2Nat.id by (apply Z.lxor_nonneg; lia).
  apply lxor_word; [lia|split; lia|split; [lia|]]. apply Z.lt_le_trans with (2 ^ 2); [lia|apply Z.pow_le_mono_r; lia].
Qed.

Lemma near_ne i n m : 0 <= n -> 0 <= m -> n <> m -> near i n <> near i m.
Proof.
  intros Hn Hm Hne E. unfold near in E. apply Z2Nat.inj in E; [|apply Z.lxor_nonneg; lia..].
  apply Hne. apply (f_equal (Z.lxor (Z.of_nat i))) in E. by rewrite <- !Z.lxor_assoc, Z.lxor_nilpotent, !Z.lxor_0_l in E.
Qed.

Lemma near_0 i : near i 0 = i.
Proof. unfold near. rewrite Z.lxor_0_r. lia. Qed.

(** The index of the block an address word selects. *)
Lemma index_land k x : 0 <= k -> 0 <= x -> (x / 16) .& (2 ^ k - 1) = Z.of_nat (Z.to_nat (x / 16 mod 2 ^ k)).
Proof.
  intros Hk Hx. rewrite land_mask by done. rewrite Z2Nat.id; [done|]. apply Z.mod_pos_bound, Z.pow_pos_nonneg; lia.
Qed.
