(* ===== verification/SlowProofs.v ===== *)
(** * The versions of the slow hash refine the algorithm on blocks

    One iteration of the portable version and of the x86-64 version is one step
    of the specification; the key schedules and the AES rounds of the versions
    are those of FIPS 197; the assertions of the portable version never fail. *)

From S2P Require Import Prelude IntUtil Keccak KeccakProofs Random Oaes AesSpec Aesb OaesProofs IntSqrt SlowHash SlowSpec.
From S2P Require SlowPortable SlowX86.

#[local] Opaque aes_round le_bytes le.

(** ** Macros on a scratchpad of blocks *)

Lemma are_blocks_insert j b (L : list bytes) : are_blocks L -> is_block b -> are_blocks (<[j := b]> L).
Proof. intros HL' Hb. by apply Forall_insert. Qed.

(** Offsets of the neighbours. *)
Lemma offsets i : (16 * Z.of_nat i) .^ 0x10 = 16 * Z.of_nat (near i 1) /\
  (16 * Z.of_nat i) .^ 0x20 = 16 * Z.of_nat (near i 2) /\ (16 * Z.of_nat i) .^ 0x30 = 16 * Z.of_nat (near i 3).
Proof.
  split_and!; [exact (near_offset i 1 ltac:(lia))|exact (near_offset i 2 ltac:(lia))|exact (near_offset i 3 ltac:(lia))].
Qed.

Lemma two_stores (L : list bytes) j x y : are_blocks L -> (j < length L)%nat ->
  st64 (st64 (mjoin L) (16 * Z.of_nat j) x) (16 * Z.of_nat j + 8) y = mjoin (<[j := pack (x, y)]> L).
Proof.
  intros HB Hj. rewrite <- (Z.add_0_r (16 * Z.of_nat j)) at 1. rewrite st64_block by (done || lia).
  rewrite st64_block; [|apply are_blocks_insert; [done|apply st64_block_ok; [lia|by apply are_blocks_lookup]]|by rewrite length_insert|lia].
  rewrite list_lookup_total_insert_eq, list_insert_insert_eq by done.
  rewrite st64_both by (by apply is_block_length, are_blocks_lookup). done.
Qed.

Lemma ld64_both (L : list bytes) j : are_blocks L -> (j < length L)%nat ->
  ld64 (mjoin L) (16 * Z.of_nat j) = lo64 (L !!! j) /\ ld64 (mjoin L) (16 * Z.of_nat j + 8) = hi64 (L !!! j).
Proof.
  intros HB Hj. split; [|by rewrite ld64_block by (done || lia)].
  rewrite <- (Z.add_0_r (16 * Z.of_nat j)). by rewrite ld64_block by (done || lia).
Qed.

(** The second word of another block, after the first of two stores. *)
Lemma ld64_after (L : list bytes) j q x : are_blocks L -> (j < length L)%nat -> (q < length L)%nat -> q <> j ->
  ld64 (st64 (mjoin L) (16 * Z.of_nat j) x) (16 * Z.of_nat q + 8) = hi64 (L !!! q).
Proof.
  intros HB Hj Hq Hne. rewrite <- (Z.add_0_r (16 * Z.of_nat j)). rewrite st64_block by (done || lia).
  assert (HB' : are_blocks (<[j := st64 (L !!! j) 0 x]> L)).
  { apply are_blocks_insert; [done|apply st64_block_ok; [lia|by apply are_blocks_lookup]]. }
  rewrite (proj2 (ld64_both _ q HB' ltac:(by rewrite length_insert))). by rewrite list_lookup_total_insert_ne.
Qed.

(** [xor_blocks] of the two versions. *)
Lemma xor_blocks_at (L : list bytes) j b : are_blocks L -> (j < length L)%nat -> is_block b ->
  SlowPortable.xor_blocks (mjoin L) (16 * Z.of_nat j) b = mjoin (<[j := bxor (L !!! j) b]> L).
Proof.
  intros HL Hj Hb. pose proof (is_block_length _ (are_blocks_lookup L j HL Hj)). pose proof (is_block_length _ Hb).
  unfold SlowPortable.xor_blocks. rewrite <- (Z.add_0_r (16 * Z.of_nat j)), xor_block_at by (done || lia).
  by rewrite xor_bytes_16, (take_ge b) by lia.
Qed.

Lemma x86_xor_words_at (L : list bytes) j x y : are_blocks L -> (j < length L)%nat ->
  let m := mjoin L in let o := 16 * Z.of_nat j in
  let m := st64 m o (ld64 m o .^ x) in
  st64 m (o + 8) (ld64 m (o + 8) .^ y) = mjoin (<[j := bxor (L !!! j) (pack (x, y))]> L).
Proof.
  intros HL Hj. cbv zeta. pose proof (are_blocks_lookup L j HL Hj) as HB.
  destruct (ld64_both L j HL Hj) as [-> _].
  assert (E : ld64 (st64 (mjoin L) (16 * Z.of_nat j) (lo64 (L !!! j) .^ x)) (16 * Z.of_nat j + 8) = hi64 (L !!! j)).
  { rewrite <- (Z.add_0_r (16 * Z.of_nat j)) at 1. rewrite st64_block by (done || lia).
    rewrite ld64_block; [|apply are_blocks_insert; [done|by apply st64_block_ok]|rewrite length_insert; lia|lia].
    rewrite list_lookup_total_insert_eq by lia. rewrite (proj1 (st64_halves _ _ HB)), ld64_hi, hi64_pack.
    apply wrap_small, hi64_word, HB. }
  rewrite E, two_stores by done. by rewrite <- bxor_pack, pack_halves.
Qed.

Lemma x86_xor_blocks_at (L : list bytes) j b : are_blocks L -> (j < length L)%nat -> is_block b ->
  SlowX86.xor_blocks (mjoin L) (16 * Z.of_nat j) b = mjoin (<[j := bxor (L !!! j) b]> L).
Proof.
  intros HL Hj Hb. unfold SlowX86.xor_blocks. rewrite ld64_lo, ld64_hi.
  pose proof (x86_xor_words_at L j (lo64 b) (hi64 b) HL Hj) as E. cbv zeta in E. by rewrite E, pack_halves.
Qed.

Section Macros.
Context (k : Z) (Hk : 2 <= k) (variant : Z) (M : list bytes) (i : nat).
Context (HM : are_blocks M) (HL : Z.of_nat (length M) = 2 ^ k) (Hi : (i < length M)%nat).

Lemma near_in n : 0 <= n <= 3 -> (near i n < length M)%nat.
Proof using Hk HL Hi. intros Hn. pose proof (near_lt i n k Hk ltac:(lia) Hn). lia. Qed.

Lemma near_block n : 0 <= n <= 3 -> is_block (M !!! near i n).
Proof using Hk HL Hi HM. intros Hn. apply are_blocks_lookup; [done|by apply near_in]. Qed.

Lemma shuffle_ok a b b1 : are_blocks (shuffle variant a b b1 i M) /\ length (shuffle variant a b b1 i M) = length M.
Proof using HM.
  unfold shuffle. destruct (2 <=? variant); [|done]. rewrite !length_insert.
  split; [|done]. repeat apply are_blocks_insert; try done; apply badd_block.
Qed.

Lemma portable_shuffle a b b1 t : length b = 16%nat -> (2 <= variant -> t = b1) ->
  SlowPortable.VARIANT2_PORTABLE_SHUFFLE_ADD variant a (b ++ t) (mjoin M) (16 * Z.of_nat i) = mjoin (shuffle variant a b b1 i M).
Proof using Hk HM HL Hi.
  intros Hb Ht. unfold SlowPortable.VARIANT2_PORTABLE_SHUFFLE_ADD, shuffle.
  destruct (Z.leb_spec 2 variant) as [Hv|]; [|done]. specialize (Ht Hv). subst t.
  destruct (offsets i) as (-> & -> & ->). cbn [fst snd].
  assert (E16 : ld64 (b ++ b1) 16 = lo64 b1 /\ ld64 (b ++ b1) 24 = hi64 b1 /\ ld64 (b ++ b1) 0 = lo64 b /\ ld64 (b ++ b1) 8 = hi64 b).
  { unfold ld64, lo64, hi64. change (Z.to_nat 16) with 16%nat. change (Z.to_nat 24) with (16 + 8)%nat.
    change (Z.to_nat 8) with 8%nat. change (Z.to_nat 0) with 0%nat. rewrite <- Hb at 1 2.
    rewrite drop_app_add, drop_app_length, (drop_app_le b b1 8), drop_0 by lia.
    by rewrite !take_app_le by (rewrite ?length_drop; lia). }
  destruct E16 as (-> & -> & -> & ->).
  pose proof (near_in 1 ltac:(lia)) as I1. pose proof (near_in 2 ltac:(lia)) as I2. pose proof (near_in 3 ltac:(lia)) as I3.
  pose proof (near_ne i 1 2 ltac:(lia) ltac:(lia) ltac:(lia)). pose proof (near_ne i 1 3 ltac:(lia) ltac:(lia) ltac:(lia)).
  pose proof (near_ne i 2 3 ltac:(lia) ltac:(lia) ltac:(lia)).
  destruct (ld64_both M _ HM I1) as [-> ->]. rewrite (proj1 (ld64_both M _ HM I3)).
  rewrite (ld64_after M (near i 1) (near i 3)) by done. rewrite two_stores by done.
  set (M1 := <[near i 1 := _]> M). assert (B1 : are_blocks M1) by (apply are_blocks_insert; [done|apply pack_block]).
  assert (L1 : length M1 = length M) by apply length_insert.
  rewrite (proj1 (ld64_both M1 (near i 2) B1 ltac:(lia))). rewrite (ld64_after M1 (near i 3) (near i 2)) by (done || lia).
  rewrite two_stores by (done || lia). unfold M1 at 1 2. rewrite !list_lookup_total_insert_ne by done.
  rewrite two_stores; [|by apply are_blocks_insert; [|apply pack_block]|rewrite length_insert; lia].
  unfold M1, badd. by rewrite list_insert_insert_ne.
Qed.

Lemma x86_shuffle a b b1 :
  SlowX86.VARIANT2_SHUFFLE_ADD_SSE2 variant a b b1 (mjoin M) (16 * Z.of_nat i) = mjoin (shuffle variant a b b1 i M).
Proof using Hk HM HL Hi.
  unfold SlowX86.VARIANT2_SHUFFLE_ADD_SSE2, shuffle. destruct (2 <=? variant); [|done].
  destruct (offsets i) as (-> & -> & ->).
  pose proof (near_in 1 ltac:(lia)) as I1. pose proof (near_in 2 ltac:(lia)) as I2. pose proof (near_in 3 ltac:(lia)) as I3.
  rewrite !ld128_block by done. change (SlowX86._mm_add_epi64 ?x ?y) with (badd x y).
  rewrite !st128_block; rewrite ?length_insert; try done; try apply length_pack;
    repeat apply are_blocks_insert; try done; apply badd_block.
Qed.
Lemma exchange_ok d : is_block d -> let '(M', d') := exchange variant i M d in
  are_blocks M' /\ length M' = length M /\ is_block d'.
Proof using Hk HM HL Hi.
  intros Hd. unfold exchange. destruct (2 <=? variant); [|done].
  pose proof (near_in 1 ltac:(lia)) as I1. pose proof (near_in 2 ltac:(lia)) as I2. rewrite length_insert.
  assert (HB : are_blocks (<[near i 1 := bxor (M !!! near i 1) d]> M)).
  { apply are_blocks_insert; [done|]. apply bxor_block; [by apply near_block|done]. }
  split_and!; [done|done|]. apply bxor_block; [done|]. apply are_blocks_lookup; [done|by rewrite length_insert].
Qed.

Lemma portable_exchange d : is_block d ->
  SlowPortable.VARIANT2_2_PORTABLE variant (mjoin M) (16 * Z.of_nat i) d =
  (mjoin (exchange variant i M d).1, (exchange variant i M d).2).
Proof using Hk HM HL Hi.
  intros Hd. unfold SlowPortable.VARIANT2_2_PORTABLE, exchange. destruct (2 <=? variant); [|done].
  destruct (offsets i) as (-> & -> & _). cbn [fst snd]. unfold SlowPortable.xor_blocks.
  pose proof (near_in 1 ltac:(lia)) as I1. pose proof (near_in 2 ltac:(lia)) as I2. pose proof (is_block_length d Hd) as Ld.
  rewrite <- (Z.add_0_r (16 * Z.of_nat (near i 1))). rewrite xor_block_at by (done || lia).
  pose proof (is_block_length _ (near_block 1 ltac:(lia))) as Ln.
  rewrite (xor_bytes_16 (M !!! near i 1)), (take_ge d 16) by lia.
  assert (HB : are_blocks (<[near i 1 := bxor (M !!! near i 1) d]> M)).
  { apply are_blocks_insert; [done|]. apply bxor_block; [by apply near_block|done]. }
  rewrite ld128_block by (done || by rewrite length_insert). rewrite list_lookup_total_insert_ne by (by apply near_ne).
  pose proof (is_block_length _ (near_block 2 ltac:(lia))) as L2. rewrite xor_bytes_16, take_ge by lia. done.
Qed.

Lemma x86_exchange h l : is_u64 h -> is_u64 l ->
  SlowX86.VARIANT2_2 variant (mjoin M) (16 * Z.of_nat i) h l =
  (mjoin (exchange variant i M (pack (h, l))).1, lo64 (exchange variant i M (pack (h, l))).2, hi64 (exchange variant i M (pack (h, l))).2).
Proof using Hk HM HL Hi.
  intros Hh Hl. unfold SlowX86.VARIANT2_2, exchange. destruct (2 <=? variant); cbn [fst snd].
  2: by rewrite lo64_pack, hi64_pack, !wrap_small.
  destruct (offsets i) as (-> & -> & _).
  pose proof (near_in 1 ltac:(lia)) as I1. pose proof (near_in 2 ltac:(lia)) as I2.
  pose proof (x86_xor_words_at M (near i 1) h l HM I1) as EX. cbv zeta in EX.
  rewrite EX. assert (HB : are_blocks (<[near i 1 := bxor (M !!! near i 1) (pack (h, l))]> M)).
  { apply are_blocks_insert; [done|]. apply bxor_block; [by apply near_block|apply pack_block]. }
  destruct (ld64_both _ (near i 2) HB ltac:(by rewrite length_insert)) as [-> ->].
  rewrite list_lookup_total_insert_ne by (by apply near_ne).
  pose proof (near_block 2 ltac:(lia)) as B2. rewrite <- (pack_halves _ B2) at 3 4. rewrite bxor_pack, lo64_pack, hi64_pack. cbn [fst snd].
  rewrite !wrap_small; [done|apply lxor_word; [lia|done|apply hi64_word, B2]|apply lxor_word; [lia|done|apply lo64_word, B2]].
Qed.
End Macros.


(** ** Arithmetic *)

Lemma sqrt_input_word p0 p1 div sqrt : is_u64 (VARIANT2_INTEGER_MATH_DIVISION_STEP p0 p1 div sqrt).2.
Proof. apply wrap_word. lia. Qed.

Lemma div_word p0 p1 div sqrt : is_u64 (VARIANT2_INTEGER_MATH_DIVISION_STEP p0 p1 div sqrt).1.2.
Proof. apply wrap_word. lia. Qed.

Lemma tmpx_word p0 p1 div sqrt : is_u64 div -> is_u64 (VARIANT2_INTEGER_MATH_DIVISION_STEP p0 p1 div sqrt).1.1.
Proof. intros Hd. apply lxor_word; [lia|done|]. apply wrap_word. lia. Qed.

Section Math.
Context (variant : Z) (y c : bytes) (div sqrt : Z) (Hy : is_block y) (Hc : is_block c).

Lemma math_ok : let '(y', div', _) := math variant y c div sqrt in is_block y' /\ (is_u64 div -> is_u64 div').
Proof using Hy.
  unfold math. destruct (2 <=? variant); [|done].
  pose proof (div_word (lo64 c) (hi64 c) div sqrt) as Hw. destruct (VARIANT2_INTEGER_MATH_DIVISION_STEP _ _ _ _) as [[t dv] inp].
  split; [|done]. apply bxor_block; [done|apply pack_block].
Qed.

Lemma portable_math dbl : SlowPortable.VARIANT2_PORTABLE_INTEGER_MATH variant dbl y c div sqrt = math variant y c div sqrt.
Proof using Hy.
  unfold SlowPortable.VARIANT2_PORTABLE_INTEGER_MATH, math. rewrite ld64_lo, ld64_hi. destruct (2 <=? variant); [|done].
  pose proof (sqrt_input_word (lo64 c) (hi64 c) div sqrt) as Hs.
  destruct (VARIANT2_INTEGER_MATH_DIVISION_STEP _ _ _ _) as [[t dv] inp]. cbn [snd] in Hs.
  f_equal; [f_equal|destruct dbl; [by apply fp64_fixup|by apply sqrt_v2_ok]].
  rewrite (proj1 (st64_halves y _ Hy)). rewrite <- (pack_halves y Hy) at 3. by rewrite bxor_pack, Z.lxor_0_r.
Qed.

Lemma x86_math : is_u64 div -> let '(y', div', sqrt') := math variant y c div sqrt in
  SlowX86.VARIANT2_INTEGER_MATH_SSE2 variant (lo64 y) (lo64 c, hi64 c) div sqrt = (lo64 y', div', sqrt') /\ hi64 y' = hi64 y.
Proof using Hy.
  intros Hd. unfold SlowX86.VARIANT2_INTEGER_MATH_SSE2, math. cbn [fst snd]. destruct (2 <=? variant); [|done].
  pose proof (sqrt_input_word (lo64 c) (hi64 c) div sqrt) as Hs. pose proof (tmpx_word (lo64 c) (hi64 c) div sqrt Hd) as Ht.
  destruct (VARIANT2_INTEGER_MATH_DIVISION_STEP _ _ _ _) as [[t dv] inp]. cbn [fst snd] in Hs, Ht.
  rewrite sse2_fixup by done.
  assert (E : bxor y (pack (t, 0)) = pack (lo64 y .^ t, hi64 y)).
  { rewrite <- (pack_halves y Hy) at 1. by rewrite bxor_pack, Z.lxor_0_r. }
  rewrite E, lo64_pack, hi64_pack. cbn [fst snd].
  rewrite !wrap_small; [done|apply hi64_word, Hy|]. apply lxor_word; [lia|apply lo64_word, Hy|done].
Qed.
End Math.

Lemma product_words a b : is_u64 a -> is_u64 b -> is_u64 (a * b / 2 ^ 64) /\ is_u64 ((a * b) mod 2 ^ 64).
Proof.
  intros [A0 A1] [B0 B1]. split; [|apply (wrap_word 64); lia]. split; [apply Z.div_pos; nia|]. apply Z.div_lt_upper_bound; nia.
Qed.

Lemma mul128_value a b : is_u64 a -> is_u64 b -> mul128 a b = ((a * b) mod 2 ^ 64, a * b / 2 ^ 64).
Proof.
  intros Ha Hb. pose proof (mul128_ok a b Ha Hb) as H. destruct (mul128 a b) as [lo hi]. destruct H as (Hl & Hh & E & _).
  rewrite <- E. f_equal; [rewrite Z.add_comm, Z.mod_add by lia; symmetry; by apply Z.mod_small|].
  rewrite Z.add_comm, Z.div_add by lia. rewrite Z.div_small by done. done.
Qed.

Lemma portable_mul c y : is_bytes c -> is_bytes y -> SlowPortable.mul c y = product c y.
Proof.
  intros Hc Hy. unfold SlowPortable.mul. rewrite !ld64_lo, mul128_value by (by apply lo64_word). done.
Qed.

(** ** One step *)

Lemma bxor_comm x y : bxor x y = bxor y x.
Proof. revert y. induction x as [|a x IH]; intros [|b y]; [done..|]. cbn. by rewrite Z.lxor_comm, IH. Qed.

Lemma variant1_ok variant b : is_block b -> is_block (VARIANT1_1 variant b 0).
Proof.
  intros [Hb Lb]. unfold VARIANT1_1. destruct (variant =? 1); [|done]. split; [|by rewrite length_insert].
  apply Forall_insert; [done|]. apply wrap_word. lia.
Qed.

Lemma block_index_lt N x : (0 < N)%nat -> (block_index N x < N)%nat.
Proof. intros HN. unfold block_index. pose proof (Z.mod_pos_bound (lo64 x / 16) (Z.of_nat N) ltac:(lia)). lia. Qed.

Definition size (k : Z) : nat := Z.to_nat (2 ^ k).

Lemma size_pow k : 0 <= k -> Z.of_nat (size k) = 2 ^ k.
Proof. intros Hk. unfold size. apply Z2Nat.id. apply Z.lt_le_incl, Z.pow_pos_nonneg; lia. Qed.

Lemma size_pos k : 0 <= k -> (0 < size k)%nat.
Proof. intros Hk. pose proof (size_pow k Hk). pose proof (Z.pow_pos_nonneg 2 k ltac:(lia) Hk). lia. Qed.

Lemma portable_index k x : 0 <= k -> is_bytes x ->
  SlowPortable.block_of (16 * 2 ^ k) x = 16 * Z.of_nat (block_index (size k) x).
Proof.
  intros Hk Hx. unfold SlowPortable.block_of, SlowPortable.e2i, block_index, AES_BLOCK_SIZE.
  rewrite (Z.mul_comm 16 (2 ^ k)), Z.div_mul, ld64_lo, size_pow by lia. rewrite index_land; [lia|done|apply lo64_word, Hx].
Qed.

Lemma x86_index k x : 0 <= k -> is_block x ->
  SlowX86.state_index (16 * 2 ^ k) (lo64 x, hi64 x) = 16 * Z.of_nat (block_index (size k) x).
Proof.
  intros Hk Hx. unfold SlowX86.state_index, SlowX86.TOTALBLOCKS, block_index, AES_BLOCK_SIZE. cbn [fst].
  rewrite (Z.mul_comm 16 (2 ^ k)), Z.div_mul, size_pow by lia. rewrite Z.shiftr_div_pow2, Z.shiftl_mul_pow2 by lia.
  change (2 ^ 4) with 16. rewrite index_land; [lia|done|apply lo64_word, Hx].
Qed.

(** What every step of the specification maintains. *)
Record cn_ok (k : Z) (s : cn_state) : Prop := mkcn_ok {
  ok_scratch : are_blocks (scratch s);
  ok_size : length (scratch s) = size k;
  ok_a : is_block (cn_a s);
  ok_b : is_block (cn_b s);
  ok_b1 : is_block (cn_b1 s);
  ok_div : is_u64 (cn_div s);
}.

Section Steps.
Context (k : Z) (Hk : 2 <= k) (variant tweak : Z).

(** The scratchpad and the blocks at the middle of a step. *)
Definition half_step (s : cn_state) : list bytes * bytes :=
  let i := block_index (size k) (cn_a s) in
  let c := aes_round (scratch s !!! i) (cn_a s) in
  (<[i := VARIANT1_1 variant (bxor (cn_b s) c) 0]> (shuffle variant (cn_a s) (cn_b s) (cn_b1 s) i (scratch s)), c).

Lemma half_step_ok s : cn_ok k s -> are_blocks (half_step s).1 /\ length (half_step s).1 = size k /\ is_block (half_step s).2.
Proof using Hk.
  intros [HM HL Ha Hb Hb1 Hd]. unfold half_step. cbn [fst snd].
  set (i := block_index _ _). assert (Hi : (i < length (scratch s))%nat) by (rewrite HL; apply block_index_lt, size_pos; lia).
  destruct (shuffle_ok variant (scratch s) i HM (cn_a s) (cn_b s) (cn_b1 s)) as [HS LS]. rewrite length_insert, LS.
  assert (Hc : is_block (aes_round (scratch s !!! i) (cn_a s))) by (apply aes_round_block; [by apply are_blocks_lookup|done]).
  split_and!; [|done|done]. apply are_blocks_insert; [done|]. apply variant1_ok, bxor_block; done.
Qed.

Lemma cn_step_half s : cn_step (size k) variant tweak s =
  let '(M, c) := half_step s in
  let j := block_index (size k) c in
  let '(y, div, sqrt) := math variant (M !!! j) c (cn_div s) (cn_sqrt s) in
  let '(M, d) := exchange variant j M (product c y) in
  let M := shuffle variant (cn_a s) (cn_b s) (cn_b1 s) j M in
  let z := badd (cn_a s) d in
  mkcn (<[j := if variant =? 1 then bxor z (pack (0, tweak)) else z]> M) (bxor z y) c (cn_b s) div sqrt.
Proof using. by destruct s. Qed.

Lemma cn_step_ok s : cn_ok k s -> cn_ok k (cn_step (size k) variant tweak s).
Proof using Hk.
  intros Hs. rewrite cn_step_half. destruct (half_step_ok s Hs) as (HM & HL & Hc). destruct Hs as [_ _ Ha Hb Hb1 Hd].
  destruct (half_step s) as [M c]. cbn [fst snd] in *. set (j := block_index _ c).
  assert (Hj : (j < length M)%nat) by (rewrite HL; apply block_index_lt, size_pos; lia).
  pose proof (math_ok variant (M !!! j) c (cn_div s) (cn_sqrt s) ltac:(by apply are_blocks_lookup)) as Hy.
  destruct (math _ _ _ _ _) as [[y dv] sq]. destruct Hy as [Hy Hdv].
  assert (HL' : Z.of_nat (length M) = 2 ^ k) by (rewrite HL; apply size_pow; lia).
  pose proof (exchange_ok k Hk variant M j HM HL' Hj (product c y) (pack_block _)) as HE.
  destruct (exchange _ _ _ _) as [M' d]. destruct HE as (HM' & HLM & Hd').
  destruct (shuffle_ok variant M' j HM' (cn_a s) (cn_b s) (cn_b1 s)) as [HS LS].
  split; cbn [scratch cn_a cn_b cn_b1 cn_div]; [|rewrite length_insert, LS; congruence| |done..|by apply Hdv].
  - apply are_blocks_insert; [done|]. destruct (variant =? 1); [|apply badd_block]. apply bxor_block; [apply badd_block|apply pack_block].
  - apply bxor_block; [apply badd_block|done].
Qed.

Lemma cn_steps_ok n s : cn_ok k s -> cn_ok k (Nat.iter n (cn_step (size k) variant tweak) s).
Proof using Hk. intros Hs. induction n as [|n IH]; [done|]. cbn [Nat.iter nat_rect]. by apply cn_step_ok. Qed.
End Steps.

(** ** Blocks of the portable version *)

Lemma swap_value x y : is_block x -> is_block y -> SlowPortable.swap_blocks x y = (y, x).
Proof.
  intros Hx Hy. unfold SlowPortable.swap_blocks. rewrite !ld64_lo, !ld64_hi, !st64_both by (by apply is_block_length).
  by rewrite !pack_halves.
Qed.

Lemma sum_value x y : is_block x -> SlowPortable.sum_half_blocks x y = badd x y.
Proof.
  intros Hx. unfold SlowPortable.sum_half_blocks. rewrite !ld64_lo, !ld64_hi, st64_both by (by apply is_block_length). done.
Qed.

Lemma copy_value x y : is_block x -> is_block y -> SlowPortable.copy_block x 0 y = y.
Proof.
  intros [_ Lx] [_ Ly]. unfold SlowPortable.copy_block, st128, memcpy. change (Z.to_nat 0) with 0%nat.
  rewrite (take_ge y 16), take_0, app_nil_l, drop_ge by lia. apply app_nil_r.
Qed.

Lemma copy_pair b t c : is_block b -> is_block t -> is_block c ->
  SlowPortable.copy_block (b ++ t) 16 (b ++ t) = b ++ b /\ SlowPortable.copy_block (b ++ t) 0 c = c ++ t.
Proof.
  intros [_ Lb] [_ Lt] [_ Lc]. unfold SlowPortable.copy_block, st128, memcpy. change (Z.to_nat 0) with 0%nat. change (Z.to_nat 16) with 16%nat.
  rewrite (take_ge c 16), take_0, app_nil_l by lia. rewrite take_app_length' by done. rewrite Lb, Lc. split.
  - rewrite drop_ge by (rewrite length_app; lia). by rewrite app_nil_r.
  - by rewrite drop_app_length' by (cbn; lia).
Qed.

Section Portable.
Context (k : Z) (Hk : 2 <= k) (variant : Z) (dbl : bool) (tweak : bytes).
Context (Htweak : variant = 1 -> is_bytes_n 8 tweak).

Record portable_rel (v : SlowPortable.vars) (s : cn_state) : Prop := mkrel {
  rel_mem : SlowPortable.v_long_state v = mjoin (scratch s);
  rel_a : SlowPortable.v_a v = cn_a s;
  rel_b : exists t, SlowPortable.v_b v = cn_b s ++ t /\ is_block t /\ (2 <= variant -> t = cn_b1 s);
  rel_div : SlowPortable.v_division_result v = cn_div s;
  rel_sqrt : SlowPortable.v_sqrt_result v = cn_sqrt s;
}.

(** The first half: AES, shuffle and store. *)
Lemma portable_half s t : cn_ok k s -> is_block t -> (2 <= variant -> t = cn_b1 s) ->
  let j := SlowPortable.block_of (16 * 2 ^ k) (cn_a s) in
  let c1 := aesb_single_round (ld128 (mjoin (scratch s)) j) (cn_a s) in
  c1 = (half_step k variant s).2 /\
  VARIANT1_1 variant (SlowPortable.xor_blocks (SlowPortable.copy_block
    (SlowPortable.VARIANT2_PORTABLE_SHUFFLE_ADD variant (cn_a s) (cn_b s ++ t) (mjoin (scratch s)) j) j c1) j (cn_b s ++ t)) j
  = mjoin (half_step k variant s).1.
Proof using Hk.
  intros [HM HL Ha Hb Hb1 Hd] Ht Htb. cbv zeta. rewrite portable_index by (lia || apply Ha).
  set (i := block_index _ _). assert (Hi : (i < length (scratch s))%nat) by (rewrite HL; apply block_index_lt, size_pos; lia).
  assert (HL' : Z.of_nat (length (scratch s)) = 2 ^ k) by (rewrite HL; apply size_pow; lia).
  rewrite ld128_block by done. pose proof (are_blocks_lookup _ i HM Hi) as Bi. pose proof (is_block_length _ Ha) as La.
  rewrite aesb_single_value, take_ge by (done || apply Ha || lia).
  unfold half_step. fold i. set (c := aes_round _ _). cbn [fst snd]. split; [done|].
  assert (Hc : is_block c) by (by apply aes_round_block).
  rewrite (portable_shuffle k Hk variant _ i HM HL' Hi _ _ (cn_b1 s)) by (done || apply is_block_length, Hb).
  destruct (shuffle_ok variant _ i HM (cn_a s) (cn_b s) (cn_b1 s)) as [HS LS]. set (M1 := shuffle _ _ _ _ _ _) in *.
  unfold SlowPortable.copy_block. pose proof (is_block_length _ Hc) as Lc. rewrite (take_ge c 16) by lia. rewrite st128_block by (done || lia).
  assert (HI : are_blocks (<[i := c]> M1)) by (by apply are_blocks_insert).
  unfold SlowPortable.xor_blocks. rewrite <- (Z.add_0_r (16 * Z.of_nat i)) at 1.
  pose proof (is_block_length _ Hb) as Lb. rewrite xor_block_at by (rewrite ?length_insert, ?length_app; done || lia).
  rewrite list_lookup_total_insert_eq, list_insert_insert_eq by lia.
  rewrite xor_bytes_16, take_app_length' by (rewrite ?length_app; lia). rewrite bxor_comm.
  rewrite variant1_block; [|apply are_blocks_insert; [done|by apply bxor_block]|rewrite length_insert; lia].
  by rewrite list_lookup_total_insert_eq, list_insert_insert_eq by lia.
Qed.

Lemma portable_step v s : cn_ok k s -> portable_rel v s ->
  exists v', SlowPortable.iteration (16 * 2 ^ k) variant dbl tweak v = Some v' /\
    portable_rel v' (cn_step (size k) variant (le tweak) s).
Proof using Hk Htweak.
  intros Hs Hrel. destruct v as [m a b dv sq], Hrel as [Em Ea (t & Eb & Ht & Htb) Ed Eq]. cbn in Em, Ea, Eb, Ed, Eq. subst m a b dv sq.
  destruct (portable_half s t Hs Ht Htb) as [Ec EM]. cbv zeta in Ec, EM. rewrite cn_step_half.
  destruct (half_step_ok k Hk variant s Hs) as (HM & HL & Hc). destruct Hs as [_ _ Ha Hb Hb1 Hd].
  unfold SlowPortable.iteration. rewrite Z.eqb_refl. cbn [negb]. rewrite EM, Ec.
  destruct (half_step k variant s) as [M c]. cbn [fst snd] in *. clear EM Ec.
  rewrite portable_index by (lia || apply Hc). set (j := block_index _ c).
  assert (Hj : (j < length M)%nat) by (rewrite HL; apply block_index_lt, size_pos; lia).
  assert (HL' : Z.of_nat (length M) = 2 ^ k) by (rewrite HL; apply size_pow; lia).
  pose proof (are_blocks_lookup M j HM Hj) as Bj. rewrite ld128_block by done. rewrite portable_math by done.
  pose proof (math_ok variant (M !!! j) c (cn_div s) (cn_sqrt s) Bj) as Hy.
  destruct (math _ _ _ _ _) as [[y dv] sq]. destruct Hy as [Hy _].
  rewrite portable_mul by (apply Hc || apply Hy). rewrite (portable_exchange k Hk variant M j HM HL' Hj) by apply pack_block.
  pose proof (exchange_ok k Hk variant M j HM HL' Hj (product c y) (pack_block _)) as HE.
  destruct (exchange _ _ _ _) as [M' d]. cbn [fst snd]. destruct HE as (HM' & HLM & Hd').
  rewrite (portable_shuffle k Hk variant M' j HM' ltac:(congruence) ltac:(lia) _ _ (cn_b1 s)) by (done || apply is_block_length, Hb).
  destruct (shuffle_ok variant M' j HM' (cn_a s) (cn_b s) (cn_b1 s)) as [HS LS]. set (M2 := shuffle _ _ _ _ _ _) in *.
  rewrite (swap_value (cn_a s) c), sum_value by done. set (z := badd (cn_a s) d). assert (Hz : is_block z) by apply badd_block.
  rewrite (swap_value z y) by done. unfold SlowPortable.xor_blocks. rewrite xor_bytes_16, take_ge by (rewrite is_block_length by done; lia).
  rewrite (bxor_comm y z).
  assert (EV : SlowPortable.VARIANT1_2 variant z 8 tweak = if variant =? 1 then bxor z (pack (0, le tweak)) else z).
  { unfold SlowPortable.VARIANT1_2. destruct (Z.eqb_spec variant 1); [|done]. apply xor_bytes_8; auto. }
  rewrite EV. set (w := if variant =? 1 then _ else z).
  assert (Hw : is_block w) by (subst w; destruct (variant =? 1); [apply bxor_block; [done|apply pack_block]|done]).
  unfold SlowPortable.copy_block at 1. rewrite (take_ge w 16) by (rewrite is_block_length by done; lia).
  rewrite st128_block by (done || lia || by apply is_block_length).
  rewrite portable_index by (lia || apply Hc). fold j. rewrite Z.eqb_refl. cbn [negb].
  eexists. split; [reflexivity|].
  assert (Hx : is_block (bxor z y)) by (by apply bxor_block).
  split; cbn; [done|by apply copy_value| |done..].
  destruct (Z.leb_spec 2 variant) as [Hv|Hv].
  - exists (cn_b s). rewrite (proj1 (copy_pair _ t c Hb Ht Hc)). by rewrite (proj2 (copy_pair _ (cn_b s) c Hb Hb Hc)).
  - exists t. rewrite (proj2 (copy_pair _ t c Hb Ht Hc)). split_and!; [done|done|lia].
Qed.

Lemma portable_steps n v s : cn_ok k s -> portable_rel v s ->
  exists v', SlowPortable.iterations (16 * 2 ^ k) variant dbl n tweak v = Some v' /\
    portable_rel v' (Nat.iter n (cn_step (size k) variant (le tweak)) s).
Proof using Hk Htweak.
  revert v s. induction n as [|n IH]; intros v s Hs Hv; [by exists v|]. cbn [SlowPortable.iterations].
  destruct (portable_step v s Hs Hv) as (v1 & -> & Hv1). rewrite Nat.iter_succ_r. apply IH; [by apply cn_step_ok|done].
Qed.
End Portable.

(** ** Steps of the x86-64 version *)

Section X86.
Context (k : Z) (Hk : 2 <= k) (variant tweak : Z) (useAes : bool).

Record x86_rel (v : SlowX86.vars) (s : cn_state) : Prop := mkxrel {
  xrel_mem : SlowX86.v_hp v = mjoin (scratch s);
  xrel_a : SlowX86.v_a v = (lo64 (cn_a s), hi64 (cn_a s));
  xrel_b : SlowX86.v_b v = cn_b s;
  xrel_b1 : 2 <= variant -> SlowX86.v_b1 v = cn_b1 s;
  xrel_div : SlowX86.v_division_result v = cn_div s;
  xrel_sqrt : SlowX86.v_sqrt_result v = cn_sqrt s;
}.

Lemma x86_shuffle_rel M i a b b1 b1' : are_blocks M -> Z.of_nat (length M) = 2 ^ k -> (i < length M)%nat -> (2 <= variant -> b1' = b1) ->
  SlowX86.VARIANT2_SHUFFLE_ADD_SSE2 variant a b b1' (mjoin M) (16 * Z.of_nat i) = mjoin (shuffle variant a b b1 i M).
Proof using Hk.
  intros HM HL Hi Hb. rewrite (x86_shuffle k Hk variant M i HM HL Hi). unfold shuffle.
  destruct (Z.leb_spec 2 variant) as [Hv|]; [|done]. by rewrite (Hb Hv).
Qed.

Lemma x86_aes s : cn_ok k s -> let j := block_index (size k) (cn_a s) in
  (if useAes then SlowX86._mm_aesenc_si128 (ld128 (mjoin (scratch s)) (16 * Z.of_nat j)) (cn_a s)
   else aesb_single_round (ld128 (mjoin (scratch s)) (16 * Z.of_nat j)) (cn_a s)) = (half_step k variant s).2.
Proof using Hk.
  intros [HM HL Ha Hb Hb1 Hd]. cbv zeta. set (i := block_index _ _).
  assert (Hi : (i < length (scratch s))%nat) by (rewrite HL; apply block_index_lt, size_pos; lia).
  rewrite ld128_block by done. pose proof (is_block_length _ Ha). pose proof (are_blocks_lookup _ i HM Hi).
  rewrite aesb_single_value, take_ge by (done || apply Ha || lia). by destruct useAes.
Qed.

Lemma x86_half s b1' : cn_ok k s -> (2 <= variant -> b1' = cn_b1 s) -> let j := 16 * Z.of_nat (block_index (size k) (cn_a s)) in
  VARIANT1_1 variant (st128 (SlowX86.VARIANT2_SHUFFLE_ADD_SSE2 variant (cn_a s) (cn_b s) b1' (mjoin (scratch s)) j) j
    (SlowX86._mm_xor_si128 (cn_b s) (half_step k variant s).2)) j = mjoin (half_step k variant s).1.
Proof using Hk.
  intros Hs Hb1'. destruct (half_step_ok k Hk variant s Hs) as (_ & _ & Hc). destruct Hs as [HM HL Ha Hb Hb1 Hd]. cbv zeta.
  unfold half_step in *. set (i := block_index _ _) in *. cbn [fst snd] in *. set (c := aes_round _ _) in *.
  assert (Hi : (i < length (scratch s))%nat) by (rewrite HL; apply block_index_lt, size_pos; lia).
  rewrite (x86_shuffle_rel _ i _ _ (cn_b1 s)); [|done|rewrite HL; apply size_pow; lia|done|done].
  destruct (shuffle_ok variant _ i HM (cn_a s) (cn_b s) (cn_b1 s)) as [HS LS]. set (M1 := shuffle _ _ _ _ _ _) in *.
  change (SlowX86._mm_xor_si128 ?x ?y) with (bxor x y). assert (Hx : is_block (bxor (cn_b s) c)) by (by apply bxor_block).
  rewrite st128_block by (done || lia || by apply is_block_length).
  rewrite variant1_block; [|by apply are_blocks_insert|rewrite length_insert; lia].
  by rewrite list_lookup_total_insert_eq, list_insert_insert_eq by lia.
Qed.

Lemma x86_step v s : cn_ok k s -> x86_rel v s ->
  x86_rel (SlowX86.iteration (16 * 2 ^ k) variant useAes tweak v) (cn_step (size k) variant tweak s).
Proof using Hk.
  intros Hs Hrel. destruct v as [m a b b1 dv sq], Hrel as [Em Ea Eb Eb1 Ed Eq]. cbn in Em, Ea, Eb, Eb1, Ed, Eq. subst m a b dv sq.
  unfold SlowX86.iteration. cbn [SlowX86.v_hp SlowX86.v_a]. rewrite (x86_index k) by (lia || apply Hs).
  rewrite pack_halves by apply Hs. rewrite (x86_aes s Hs). unfold SlowX86.post_aes. rewrite (x86_half s b1 Hs Eb1), cn_step_half.
  destruct (half_step_ok k Hk variant s Hs) as (HM & HL & Hc). destruct Hs as [_ _ Ha Hb Hb1 Hd].
  destruct (half_step k variant s) as [M c]. cbn [fst snd] in *. rewrite !ld64_lo, !ld64_hi.
  rewrite (x86_index k) by (lia || done). set (j := block_index _ c).
  assert (Hj : (j < length M)%nat) by (rewrite HL; apply block_index_lt, size_pos; lia).
  assert (HL' : Z.of_nat (length M) = 2 ^ k) by (rewrite HL; apply size_pow; lia).
  destruct (ld64_both M j HM Hj) as [-> ->]. pose proof (are_blocks_lookup M j HM Hj) as Bj.
  pose proof (x86_math variant (M !!! j) c (cn_div s) (cn_sqrt s) Bj Hd) as Hmath.
  pose proof (math_ok variant (M !!! j) c (cn_div s) (cn_sqrt s) Bj) as Hy.
  destruct (math _ _ _ _ _) as [[y dv] sq]. destruct Hy as [Hy _], Hmath as [-> Ehi]. unfold SlowX86.__mul.
  destruct (product_words (lo64 c) (lo64 y) (lo64_word _ (proj1 Hc)) (lo64_word _ (proj1 Hy))) as [Wh Wl].
  rewrite (x86_exchange k Hk variant M j HM HL' Hj) by done.
  change (pack (lo64 c * lo64 y / 2 ^ 64, u64 (lo64 c * lo64 y))) with (product c y).
  pose proof (exchange_ok k Hk variant M j HM HL' Hj (product c y) (pack_block _)) as HE.
  destruct (exchange _ _ _ _) as [M' d]. cbn [fst snd]. destruct HE as (HM' & HLM & Hd').
  rewrite (x86_shuffle_rel M' j _ _ (cn_b1 s)) by (done || lia).
  destruct (shuffle_ok variant M' j HM' (cn_a s) (cn_b s) (cn_b1 s)) as [HS LS]. set (M2 := shuffle _ _ _ _ _ _) in *.
  rewrite two_stores by (done || lia). change (pack (u64 (lo64 (cn_a s) + _), _)) with (badd (cn_a s) d). set (z := badd (cn_a s) d).
  assert (HZ : are_blocks (<[j := z]> M2)) by (apply are_blocks_insert; [done|apply badd_block]).
  split; cbn; [| |done..].
  - unfold SlowX86.VARIANT1_2, SlowX86.xor64. destruct (variant =? 1); [|done].
    rewrite (proj2 (ld64_both _ j HZ ltac:(rewrite length_insert; lia))), list_lookup_total_insert_eq by lia.
    rewrite st64_block by (done || lia || rewrite length_insert; lia). rewrite list_lookup_total_insert_eq, list_insert_insert_eq by lia.
    rewrite (proj2 (st64_halves z _ (badd_block _ _))). rewrite <- (pack_halves z (badd_block _ _)) at 3.
    by rewrite bxor_pack, Z.lxor_0_r.
  - rewrite <- Ehi. rewrite <- (pack_halves y Hy) at 3 4. unfold z, badd. rewrite bxor_pack, lo64_pack, hi64_pack. cbn [fst snd].
    rewrite !(wrap_small 64 (_ .^ _)); [done|apply lxor_word; [lia|apply wrap_word; lia|]..]; [apply hi64_word|apply lo64_word]; apply Hy.
Qed.

Lemma x86_steps n v s : cn_ok k s -> x86_rel v s ->
  x86_rel (Nat.iter n (SlowX86.iteration (16 * 2 ^ k) variant useAes tweak) v) (Nat.iter n (cn_step (size k) variant tweak) s).
Proof using Hk.
  intros Hs Hv. induction n as [|n IH]; [done|]. cbn [Nat.iter nat_rect]. apply x86_step; [|done]. by apply cn_steps_ok.
Qed.
End X86.
