(* ===== verification/SlowAes.v ===== *)
(** * The AES parts of the slow hash

    The key schedule by AES instructions is that of FIPS 197, and the loops that
    fill and absorb the scratchpad, in software and by instructions, are the
    [explode] and [implode] of the specification. *)

From S2P Require Import Prelude Oaes AesSpec Aesb OaesProofs SlowHash SlowSpec SlowProofs.
From S2P Require SlowPortable SlowX86.

#[local] Opaque aes_round sbox.

(** ** Words of the key schedule *)

Lemma next_word_length nk ws i : length (next_word nk ws i) = S (length ws).
Proof. unfold next_word. rewrite length_app. cbn. lia. Qed.

Lemma words_grow nk ws n : (nk <= length ws)%nat -> (0 < nk)%nat ->
  let F := foldl (next_word nk) ws (seq (length ws) n) in
  length F = (length ws + n)%nat /\
  (forall i, (i < length ws)%nat -> F !!! i = ws !!! i) /\
  (forall i, (length ws <= i < length ws + n)%nat -> F !!! i = zip_with Z.lxor (F !!! (i - nk)%nat) (key_temp nk (F !!! (i - 1)%nat) i)).
Proof.
  intros Hw Hnk. cbv zeta. induction n as [|n (L & P & R)]; [cbn [seq foldl]; split_and!; [lia|done|lia]|].
  rewrite seq_S, foldl_app. cbn [foldl]. set (F := foldl _ _ _) in *.
  assert (E : forall i, (i < length F)%nat -> next_word nk F (length ws + n) !!! i = F !!! i).
  { intros i Hi. unfold next_word. by rewrite lookup_total_app_l. }
  split_and!; [rewrite next_word_length; lia|intros i Hi; rewrite E by lia; by apply P|].
  intros i Hi. rewrite (E (i - nk)%nat), (E (i - 1)%nat) by lia.
  destruct (decide (i = length ws + n)%nat) as [->|Hne]; [|rewrite E by lia; apply R; lia].
  unfold next_word at 1. rewrite lookup_total_app_r by lia. rewrite L, Nat.sub_diag. done.
Qed.

Lemma key_word_rec k i : is_bytes_n 32 k -> (8 <= i < 60)%nat -> let W := KeyExpansion 8 k in
  W !!! i = zip_with Z.lxor (W !!! (i - 8)%nat) (key_temp 8 (W !!! (i - 1)%nat) i).
Proof.
  intros Hk Hi W. destruct (key_words 8 k Hk) as (_ & L & _). subst W. unfold KeyExpansion. set (ws := _ <$> seq 0 8) in *.
  destruct (words_grow 8 ws 52) as (_ & _ & R); [lia|lia|]. rewrite L in R. apply R. lia.
Qed.

(** The schedule starts with the key. *)
Lemma words_prefix k : is_bytes_n 32 k -> exists R, mjoin (KeyExpansion 8 k) = k ++ R.
Proof.
  intros Hk. destruct (key_words 8 k Hk) as (_ & L & J). unfold KeyExpansion. set (ws := _ <$> seq 0 8) in *.
  destruct (words_grow 8 ws 52) as (LF & P & _); [lia|lia|]. rewrite L in *. change (4 * (8 + 7) - 8)%nat with 52%nat.
  set (F := foldl _ _ _) in *. exists (mjoin (drop 8 F)). rewrite <- (take_drop 8 F) at 1. rewrite mjoin_app. f_equal. etransitivity; [|exact J]. apply (f_equal mjoin).
  apply list_eq_same_length with 8%nat; [done|rewrite length_take; lia|]. intros i x y Hi Hx Hy. rewrite lookup_take_lt in Hx by done.
  apply list_lookup_total_correct in Hx, Hy. rewrite <- Hx, <- Hy. apply P. lia.
Qed.

(** ** The instructions on words *)

Definition chain (w0 w1 w2 w3 x : bytes) : bytes :=
  let v0 := bxor w0 x in let v1 := bxor w1 v0 in let v2 := bxor w2 v1 in let v3 := bxor w3 v2 in
  mjoin [v0; v1; v2; v3].

Definition fan (x : bytes) : bytes := mjoin [x; x; x; x].

Lemma four (w : bytes) : length w = 4%nat -> exists a b c d, w = [a; b; c; d].
Proof. destruct w as [|a [|b [|c [|d [|]]]]]; try discriminate. by exists a, b, c, d. Qed.

Lemma chain_ok w0 w1 w2 w3 x : length w0 = 4%nat -> length w1 = 4%nat -> length w2 = 4%nat -> length w3 = 4%nat -> length x = 4%nat ->
  let t1 := mjoin [w0; w1; w2; w3] in
  let t4 := SlowX86._mm_slli_si128 t1 4 in
  let t1 := bxor t1 t4 in
  let t4 := SlowX86._mm_slli_si128 t4 4 in
  let t1 := bxor t1 t4 in
  let t4 := SlowX86._mm_slli_si128 t4 4 in
  let t1 := bxor t1 t4 in
  bxor t1 (fan x) = chain w0 w1 w2 w3 x.
Proof.
  intros (a0 & a1 & a2 & a3 & ->)%four (b0 & b1 & b2 & b3 & ->)%four (c0 & c1 & c2 & c3 & ->)%four (d0 & d1 & d2 & d3 & ->)%four
    (x0 & x1 & x2 & x3 & ->)%four.
  cbn. by rewrite !Z.lxor_0_r, !Z.lxor_assoc.
Qed.

Lemma dword_words w0 w1 w2 w3 i : length w0 = 4%nat -> length w1 = 4%nat -> length w2 = 4%nat -> length w3 = 4%nat -> (i < 4)%nat ->
  SlowX86.dword (mjoin [w0; w1; w2; w3]) i = [w0; w1; w2; w3] !!! i.
Proof.
  intros (a0 & a1 & a2 & a3 & ->)%four (b0 & b1 & b2 & b3 & ->)%four (c0 & c1 & c2 & c3 & ->)%four (d0 & d1 & d2 & d3 & ->)%four Hi.
  do 4 (destruct i as [|i]; [reflexivity|]). lia.
Qed.

Lemma shuffle_ff x : SlowX86._mm_shuffle_epi32 x 0xff = fan (SlowX86.dword x 3). Proof. reflexivity. Qed.
Lemma shuffle_aa x : SlowX86._mm_shuffle_epi32 x 0xaa = fan (SlowX86.dword x 2). Proof. reflexivity. Qed.

Lemma sub_length w : length w = 4%nat -> length (SubBytes w) = 4%nat.
Proof. intros H. unfold SubBytes. by rewrite length_fmap. Qed.

Lemma rot_length w : length w = 4%nat -> length (RotWord w) = 4%nat.
Proof. by intros (a & b & c & d & ->)%four. Qed.

(** The third and fourth doubleword of AESKEYGENASSIST. *)
Lemma assist_words w0 w1 w2 w3 r : length w0 = 4%nat -> length w1 = 4%nat -> length w2 = 4%nat -> length w3 = 4%nat ->
  let t := SlowX86._mm_aeskeygenassist_si128 (mjoin [w0; w1; w2; w3]) r in
  SlowX86.dword t 2 = SubBytes w3 /\ SlowX86.dword t 3 = bxor (SubBytes (RotWord w3)) [r; 0; 0; 0].
Proof.
  intros H0 H1 H2 H3 t. unfold t, SlowX86._mm_aeskeygenassist_si128. rewrite !dword_words by (done || lia).
  cbn [lookup_total list_lookup_total]. destruct w1 as [|b0 [|b1 [|b2 [|b3 [|]]]]]; try discriminate H1.
  destruct w3 as [|d0 [|d1 [|d2 [|d3 [|]]]]]; try discriminate H3. split; reflexivity.
Qed.

(** ** The key schedule by instructions *)

#[local] Opaque KeyExpansion SubBytes RotWord gpow.

(** The recurrence of FIPS 197 at four consecutive words. *)
Ltac word_recurrence W k Hk :=
  cbv zeta; cbn [Nat.mul Nat.add];
  match goal with |- [W !!! ?n; _; _; _] = _ =>
    pose proof (key_word_rec k n Hk ltac:(lia)) as R0; pose proof (key_word_rec k (S n) Hk ltac:(lia)) as R1;
    pose proof (key_word_rec k (S (S n)) Hk ltac:(lia)) as R2; pose proof (key_word_rec k (S (S (S n))) Hk ltac:(lia)) as R3;
    cbv zeta in R0, R1, R2, R3; fold W in R0, R1, R2, R3; cbn [Nat.sub] in R0, R1, R2, R3;
    unfold key_temp, Rcon in R0, R1, R2, R3;
    cbn [Nat.modulo Nat.div Nat.divmod Nat.eqb Nat.ltb Nat.leb andb snd fst Nat.sub] in R0, R1, R2, R3;
    rewrite R3, R2, R1, R0; done
  end.

Section Schedule.
Context (k : bytes) (Hk : is_bytes_n 32 k).
Let W : list bytes := KeyExpansion 8 k.

Lemma W_words : is_words W /\ length W = 60%nat.
Proof using Hk. destruct (key_expansion_words 8 k) as (HW & HL & _); [by right; right|done|done]. Qed.

Lemma W_length i : (i < 60)%nat -> length (W !!! i) = 4%nat.
Proof using Hk. intros Hi. destruct W_words as [HW HL]. apply (Forall_lookup_total_1 _ _ i HW). lia. Qed.

Lemma round_key_words i : (i < 15)%nat -> round_key W i =
  mjoin [W !!! (4 * i)%nat; W !!! (4 * i + 1)%nat; W !!! (4 * i + 2)%nat; W !!! (4 * i + 3)%nat].
Proof using Hk.
  intros Hi. destruct W_words as [_ HL]. unfold round_key. f_equal. apply list_eq_same_length with 4%nat; [done| |].
  - rewrite length_take, length_drop. lia.
  - intros j x y Hj Hx Hy. rewrite lookup_take_lt, lookup_drop in Hx by done.
    do 4 (destruct j as [|j]; [cbn in Hy; injection Hy as <-; apply list_lookup_total_correct in Hx; rewrite <- Hx; f_equal; lia|]). lia.
Qed.

(** The recurrence of FIPS 197 at the words [8 i], ..., of a 256-bit key. *)
Lemma first_words i : (i < 5)%nat ->
  [W !!! (4 * (2 * i + 2))%nat; W !!! (4 * (2 * i + 2) + 1)%nat; W !!! (4 * (2 * i + 2) + 2)%nat; W !!! (4 * (2 * i + 2) + 3)%nat] =
  let v0 := bxor (W !!! (4 * (2 * i))%nat) (bxor (SubBytes (RotWord (W !!! (4 * (2 * i + 1) + 3)%nat))) [gpow 2 i; 0; 0; 0]) in
  let v1 := bxor (W !!! (4 * (2 * i) + 1)%nat) v0 in
  let v2 := bxor (W !!! (4 * (2 * i) + 2)%nat) v1 in [v0; v1; v2; bxor (W !!! (4 * (2 * i) + 3)%nat) v2].
Proof using Hk.
  intros Hi. destruct i as [|[|[|[|[|]]]]]; [clear Hi; word_recurrence W k Hk..|lia].
Qed.

Lemma assist_key j r : (j < 15)%nat -> let t := SlowX86._mm_aeskeygenassist_si128 (round_key W j) r in
  SlowX86.dword t 2 = SubBytes (W !!! (4 * j + 3)%nat) /\
  SlowX86.dword t 3 = bxor (SubBytes (RotWord (W !!! (4 * j + 3)%nat))) [r; 0; 0; 0].
Proof using Hk. intros Hj. rewrite round_key_words by done. apply assist_words; apply W_length; lia. Qed.

Lemma chain_key j x : (j < 15)%nat -> length x = 4%nat ->
  let t1 := round_key W j in
  let t4 := SlowX86._mm_slli_si128 t1 4 in
  let t1 := bxor t1 t4 in
  let t4 := SlowX86._mm_slli_si128 t4 4 in
  let t1 := bxor t1 t4 in
  let t4 := SlowX86._mm_slli_si128 t4 4 in
  let t1 := bxor t1 t4 in
  bxor t1 (fan x) = chain (W !!! (4 * j)%nat) (W !!! (4 * j + 1)%nat) (W !!! (4 * j + 2)%nat) (W !!! (4 * j + 3)%nat) x.
Proof using Hk. intros Hj Hx. rewrite round_key_words by done. apply chain_ok; [apply W_length; lia..|done]. Qed.

Lemma first_key i rcon : (i < 5)%nat -> rcon = gpow 2 i ->
  (SlowX86.aes_256_assist1 (round_key W (2 * i)) (SlowX86._mm_aeskeygenassist_si128 (round_key W (2 * i + 1)) rcon)).1 = round_key W (2 * i + 2).
Proof using Hk.
  intros Hi ->. unfold SlowX86.aes_256_assist1. cbn [fst]. rewrite shuffle_ff, (proj2 (assist_key (2 * i + 1) _ ltac:(lia))).
  pose proof (chain_key (2 * i) (bxor (SubBytes (RotWord (W !!! (4 * (2 * i + 1) + 3)%nat))) [gpow 2 i; 0; 0; 0])) as E.
  cbv zeta in E. change SlowX86._mm_xor_si128 with bxor. rewrite E; clear E; [|lia|].
  - rewrite round_key_words, (first_words i Hi) by lia. done.
  - unfold bxor. rewrite length_zip_with, sub_length; [done|]. apply rot_length, W_length. lia.
Qed.

Lemma second_words i : (i < 5)%nat ->
  [W !!! (4 * (2 * i + 3))%nat; W !!! (4 * (2 * i + 3) + 1)%nat; W !!! (4 * (2 * i + 3) + 2)%nat; W !!! (4 * (2 * i + 3) + 3)%nat] =
  let v0 := bxor (W !!! (4 * (2 * i + 1))%nat) (SubBytes (W !!! (4 * (2 * i + 2) + 3)%nat)) in
  let v1 := bxor (W !!! (4 * (2 * i + 1) + 1)%nat) v0 in
  let v2 := bxor (W !!! (4 * (2 * i + 1) + 2)%nat) v1 in [v0; v1; v2; bxor (W !!! (4 * (2 * i + 1) + 3)%nat) v2].
Proof using Hk. intros Hi. destruct i as [|[|[|[|[|]]]]]; [clear Hi; word_recurrence W k Hk..|lia]. Qed.

Lemma second_key i : (i < 5)%nat -> SlowX86.aes_256_assist2 (round_key W (2 * i + 2)) (round_key W (2 * i + 1)) = round_key W (2 * i + 3).
Proof using Hk.
  intros Hi. unfold SlowX86.aes_256_assist2. rewrite shuffle_aa, (proj1 (assist_key (2 * i + 2) _ ltac:(lia))).
  pose proof (chain_key (2 * i + 1) (SubBytes (W !!! (4 * (2 * i + 2) + 3)%nat))) as E.
  cbv zeta in E. change SlowX86._mm_xor_si128 with bxor. rewrite E; clear E; [|lia|].
  - rewrite round_key_words, (second_words i Hi) by lia. done.
  - apply sub_length, W_length. lia.
Qed.

Lemma expand_pair_ok i rcon : (i < 5)%nat -> rcon = gpow 2 i ->
  SlowX86.expand_pair rcon (round_key W (2 * i)) (round_key W (2 * i + 1)) = (round_key W (2 * i + 2), round_key W (2 * i + 3)).
Proof using Hk. intros Hi Hr. unfold SlowX86.expand_pair. by rewrite (first_key i) , (second_key i). Qed.

(** The first two round keys are the key. *)
Lemma expand_key_start : ld128 k 0 = round_key W 0 /\ ld128 k 16 = round_key W 1.
Proof using Hk.
  destruct W_words as [HW _]. apply words_length in HW.
  assert (EK : forall j, (j < 2)%nat -> ld128 k (16 * Z.of_nat j) = round_key W j).
  { intros j Hj. rewrite <- round_key_bytes by done. unfold ld128. replace (Z.to_nat (16 * Z.of_nat j)) with (j * 16)%nat by lia.
    destruct (words_prefix k Hk) as [R E]. fold W in E. rewrite E, drop_app_le, take_app_le by (rewrite ?length_drop, (proj2 Hk); lia). done. }
  split; [exact (EK 0%nat ltac:(lia))|exact (EK 1%nat ltac:(lia))].
Qed.

Lemma expand_key_value : SlowX86.aes_expand_key k = mjoin (round_key W <$> seq 0 11).
Proof using Hk.
  unfold SlowX86.aes_expand_key. destruct expand_key_start as [-> ->].
  pose proof (expand_pair_ok 0 1 ltac:(lia) ltac:(vm_compute; reflexivity)) as E0.
  pose proof (expand_pair_ok 1 2 ltac:(lia) ltac:(vm_compute; reflexivity)) as E1.
  pose proof (expand_pair_ok 2 4 ltac:(lia) ltac:(vm_compute; reflexivity)) as E2.
  pose proof (expand_pair_ok 3 8 ltac:(lia) ltac:(vm_compute; reflexivity)) as E3.
  pose proof (first_key 4 0x10 ltac:(lia) ltac:(vm_compute; reflexivity)) as E4.
  cbn [Nat.mul Nat.add] in E0, E1, E2, E3, E4. rewrite E0, E1, E2, E3, E4. done.
Qed.
End Schedule.

(** ** Ten rounds *)

Lemma round_key_block k i : is_bytes_n 32 k -> (i < 15)%nat -> is_block (round_key (KeyExpansion 8 k) i).
Proof.
  intros Hk Hi. destruct (key_expansion_words 8 k) as (HW & HL & _); [by right; right|done|]. rewrite <- round_key_bytes by (by apply words_length).
  split; [apply Forall_take, Forall_drop; by apply is_bytes_mjoin|].
  rewrite length_take, length_drop, length_mjoin_words by (by apply words_length). lia.
Qed.

Lemma encrypt10_block k s : is_bytes_n 32 k -> is_block s -> is_block (encrypt10 k s).
Proof.
  intros Hk Hs. unfold encrypt10. assert (H : Forall (fun i => (i < 15)%nat) (seq 0 10)) by (repeat constructor; lia).
  revert s Hs. induction H as [|i l Hi _ IH]; intros s Hs; [done|]. cbn [foldl]. apply IH, aes_round_block; [done|by apply round_key_block].
Qed.

Lemma hw_rounds k s : is_bytes_n 32 k -> SlowX86.ten_aesenc s (SlowX86.aes_expand_key k) = encrypt10 k s.
Proof.
  intros Hk. rewrite expand_key_value by done. set (L := round_key _ <$> seq 0 11).
  assert (HL : are_blocks L).
  { apply list.Forall_forall. intros b (i & -> & Hi%elem_of_seq)%list_elem_of_fmap. apply round_key_block; [done|lia]. }
  assert (E : forall i, (i < 11)%nat -> ld128 (mjoin L) (16 * Z.of_nat i) = round_key (KeyExpansion 8 k) i).
  { intros i Hi. rewrite ld128_block; [|done|unfold L; by rewrite length_fmap, length_seq].
    apply list_lookup_total_correct. unfold L. rewrite list_lookup_fmap, lookup_seq_lt by done. done. }
  change (SlowX86.ten_aesenc s (mjoin L)) with (foldl (fun s i => aes_round s (ld128 (mjoin L) (16 * Z.of_nat i))) s (seq 0 10)).
  apply foldl_seq_ext. intros y i Hi. by rewrite E by lia.
Qed.

Lemma sw_rounds k s : is_bytes_n 32 k -> is_block s -> aesb_pseudo_round s (mjoin (KeyExpansion 8 k)) = encrypt10 k s.
Proof.
  intros Hk Hs. destruct (key_expansion_words 8 k) as (HW & HL & _); [by right; right|done|]. pose proof (words_length _ HW) as Hw.
  rewrite (proj1 (aesb_pseudo_value s _ Hs (is_bytes_mjoin _ HW) ltac:(rewrite length_mjoin_words by done; lia))).
  apply foldl_seq_ext. intros y i _. by rewrite round_key_bytes.
Qed.

(** ** Text of eight blocks *)

(** A loop that replaces each block in turn. *)
Lemma map_blocks (op : bytes -> nat -> bytes) (g : nat -> bytes -> bytes) T n :
  (forall T' j, are_blocks T' -> length T' = length T -> (j < n)%nat -> op (mjoin T') j = mjoin (<[j := g j (T' !!! j)]> T')) ->
  (forall j b, (j < n)%nat -> is_block b -> is_block (g j b)) -> are_blocks T -> (n <= length T)%nat ->
  foldl op (mjoin T) (seq 0 n) = mjoin (imap g (take n T) ++ drop n T).
Proof.
  intros Hop Hg HT Hn.
  enough (H : exists T', foldl op (mjoin T) (seq 0 n) = mjoin T' /\ are_blocks T' /\ T' = imap g (take n T) ++ drop n T) by (destruct H as (T' & -> & _ & ->); done).
  induction n as [|n IH]; [exists T; cbn [seq foldl take imap drop]; done|].
  destruct IH as (T' & E & HB & ET); [intros; apply Hop; [done|done|lia]|intros; apply Hg; [lia|done]|lia|].
  assert (Ln : length (imap g (take n T)) = n) by (rewrite length_imap, length_take; lia).
  assert (LT : length T' = length T) by (rewrite ET, length_app, Ln, length_drop; lia).
  rewrite seq_S, foldl_app, E. cbn [foldl Nat.add]. rewrite Hop by (done || lia). eexists. split; [done|].
  assert (Hb : is_block (T' !!! n)) by (apply are_blocks_lookup; [done|lia]).
  split; [apply are_blocks_insert; [done|by apply Hg; [lia|]]|].
  assert (Hl : T !! n = Some (T !!! n)) by (apply list_lookup_lookup_total_lt; lia).
  rewrite (take_S_r T n _ Hl), imap_app. cbn [imap]. rewrite length_take, Nat.min_l by lia.
  rewrite ET, (drop_S T _ n Hl). rewrite lookup_total_app_r by lia. rewrite Ln, Nat.sub_diag. cbn [lookup_total list_lookup_total].
  rewrite <- Ln at 1. rewrite insert_app_r_alt, Nat.sub_diag by lia. cbn [insert list_insert]. rewrite <- app_assoc. do 2 f_equal.
  unfold compose. cbn. by rewrite Nat.add_0_r.
Qed.

Definition text_ok (T : list bytes) : Prop := are_blocks T /\ length T = 8%nat.

(** Every block encrypted, each after the xor of a block of [C] in the second form. *)
Lemma map_text (op : bytes -> nat -> bytes) (f : bytes -> bytes) T : text_ok T ->
  (forall T' j, text_ok T' -> (j < 8)%nat -> op (mjoin T') j = mjoin (<[j := f (T' !!! j)]> T')) ->
  (forall b, is_block b -> is_block (f b)) ->
  foldl op (mjoin T) (seq 0 8) = mjoin (f <$> T) /\ text_ok (f <$> T).
Proof.
  intros [HT LT] Hop Hf. split.
  - rewrite (map_blocks op (fun _ => f)); [|intros T' j HB HL Hj; apply Hop; [split; [done|lia]|done]|auto|done|lia].
    rewrite drop_ge, take_ge, app_nil_r by lia. by rewrite <- (imap_const f T).
  - split; [|by rewrite length_fmap]. apply Forall_fmap. refine (list.Forall_impl _ _ _ HT _). auto.
Qed.

Lemma map_text_xor (op : bytes -> nat -> bytes) (f : bytes -> bytes) T C : text_ok T -> text_ok C ->
  (forall T' j, text_ok T' -> (j < 8)%nat -> op (mjoin T') j = mjoin (<[j := f (bxor (T' !!! j) (C !!! j))]> T')) ->
  (forall b, is_block b -> is_block (f b)) ->
  foldl op (mjoin T) (seq 0 8) = mjoin (f <$> zip_with bxor T C) /\ text_ok (f <$> zip_with bxor T C).
Proof.
  intros [HT LT] [HC LC] Hop Hf. assert (HZ : are_blocks (zip_with bxor T C)).
  { apply Forall_lookup_2. intros i b (x & y & -> & Hx & Hy)%lookup_zip_with_Some. apply bxor_block; [by apply (Forall_lookup_1 _ _ _ _ HT Hx)|by apply (Forall_lookup_1 _ _ _ _ HC Hy)]. }
  split.
  - rewrite (map_blocks op (fun j b => f (bxor b (C !!! j)))).
    + rewrite drop_ge, take_ge, app_nil_r by lia. f_equal. apply list_eq. intros i. rewrite list_lookup_imap, list_lookup_fmap, lookup_zip_with.
      destruct (T !! i) as [x|] eqn:Ex; [|done]. pose proof (lookup_lt_Some _ _ _ Ex).
      rewrite (list_lookup_lookup_total_lt C i) by lia. done.
    + intros T' j HB HL Hj. apply Hop; [split; [done|lia]|done].
    + intros j b Hj Hb. apply Hf, bxor_block; [done|]. apply are_blocks_lookup; [done|lia].
    + done.
    + lia.
  - split; [|rewrite length_fmap, length_zip_with; lia]. apply Forall_fmap. refine (list.Forall_impl _ _ _ HZ _). auto.
Qed.

(** ** Filling and absorbing *)

Lemma explode_length key n T : length T = 8%nat -> length (explode key n T) = (8 * n)%nat.
Proof.
  revert T. induction n as [|n IH]; intros T HT; [done|]. cbn [explode]. rewrite length_app, IH by (by rewrite length_fmap).
  rewrite length_fmap. lia.
Qed.

Lemma text_map key T : is_bytes_n 32 key -> text_ok T -> text_ok (encrypt10 key <$> T).
Proof.
  intros Hk [HT LT]. split; [|by rewrite length_fmap]. apply Forall_fmap. refine (list.Forall_impl _ _ _ HT _).
  intros b. cbn [compose]. by apply encrypt10_block.
Qed.

Lemma explode_blocks key n T : is_bytes_n 32 key -> text_ok T -> are_blocks (explode key n T).
Proof.
  intros Hk. revert T. induction n as [|n IH]; intros T HT; [constructor|]. cbn [explode]. pose proof (text_map key T Hk HT) as HT'.
  apply Forall_app_2; [apply HT'|by apply IH].
Qed.

Lemma text_bytes_length T : text_ok T -> length (mjoin T) = 128%nat.
Proof. intros [HT LT]. by rewrite length_mjoin_blocks, LT. Qed.

(** The loop shared by the versions: the encrypted text is appended to the scratchpad. *)
Lemma fill_ok (enc : bytes -> bytes) (step : bytes * bytes -> nat -> bytes * bytes) key n T m :
  (forall m t i, step (m, t) i = (memcpy m (i * INIT_SIZE_BYTE) (enc t), enc t)) ->
  (forall T, text_ok T -> enc (mjoin T) = mjoin (encrypt10 key <$> T)) ->
  is_bytes_n 32 key -> text_ok T -> length m = (128 * n)%nat ->
  (foldl step (m, mjoin T) (seq 0 n)).1 = mjoin (explode key n T).
Proof.
  intros Hstep Henc Hk HT Hm.
  enough (G : forall j P m T, length P = (128 * j)%nat -> length m = (128 * n)%nat -> text_ok T ->
    (foldl step (P ++ m, mjoin T) (seq j n)).1 = P ++ mjoin (explode key n T)) by exact (G 0%nat [] m T eq_refl Hm HT).
  clear m T HT Hm. induction n as [|n IH]; intros j P m T HP Hm HT.
  { cbn [seq foldl explode fst]. by destruct m. }
  cbn [seq foldl explode]. rewrite Hstep, Henc by done. pose proof (text_map key T Hk HT) as HT'. set (T' := encrypt10 key <$> T) in *.
  unfold INIT_SIZE_BYTE. replace (j * 128)%nat with (length P + 0)%nat by lia. rewrite <- (app_nil_r (P ++ m)), <- app_assoc.
  pose proof (text_bytes_length T' HT'). rewrite memcpy_frame, app_nil_r by lia. unfold memcpy. rewrite take_0, app_nil_l, Nat.add_0_l, mjoin_app.
  rewrite !app_assoc. apply IH; [rewrite length_app; lia|rewrite length_drop; lia|done].
Qed.

Lemma implode_chunk M i n : are_blocks M -> length M = (8 * n)%nat -> (i < n)%nat -> text_ok (take 8 (drop (8 * i) M)).
Proof. intros HM HL Hi. split; [by apply Forall_take, Forall_drop|]. rewrite length_take, length_drop. lia. Qed.

Lemma absorb_ok (step : bytes -> nat -> bytes) key M n T : is_bytes_n 32 key -> are_blocks M -> length M = (8 * n)%nat ->
  (forall T i, text_ok T -> (i < n)%nat -> step (mjoin T) i = mjoin (implode_step key M T i) /\ text_ok (implode_step key M T i)) ->
  text_ok T -> foldl step (mjoin T) (seq 0 n) = mjoin (foldl (implode_step key M) T (seq 0 n)).
Proof.
  intros Hk HM HL Hstep HT.
  assert (G : forall l T, Forall (fun i => i < n)%nat l -> text_ok T -> foldl step (mjoin T) l = mjoin (foldl (implode_step key M) T l)).
  { clear T HT. induction l as [|i l IH]; intros T Hl HT; [done|]. apply Forall_cons_1 in Hl as [Hi Hl]. cbn [foldl].
    destruct (Hstep T i HT Hi) as [-> H']. by apply IH. }
  apply G; [|done]. apply list.Forall_forall. intros i Hi%elem_of_seq. lia.
Qed.

(** Offsets of the blocks of a chunk. *)
Lemma chunk_block M i j n : are_blocks M -> length M = (8 * n)%nat -> (i < n)%nat -> (j < 8)%nat ->
  ld128 (mjoin M) (Z.of_nat (i * INIT_SIZE_BYTE) + 16 * Z.of_nat j) = take 8 (drop (8 * i) M) !!! j.
Proof.
  intros HM HL Hi Hj. unfold INIT_SIZE_BYTE. replace (Z.of_nat (i * 128) + 16 * Z.of_nat j) with (16 * Z.of_nat (8 * i + j)) by lia.
  rewrite ld128_block by (done || lia). rewrite lookup_total_take_lt by done. by rewrite lookup_total_drop.
Qed.

Section Loops.
Context (key : bytes) (Hkey : is_bytes_n 32 key).
Let ek : bytes := mjoin (KeyExpansion 8 key).
Let hk : bytes := SlowX86.aes_expand_key key.

Lemma store_block T j b : text_ok T -> (j < 8)%nat -> is_block b -> st128 (mjoin T) (16 * Z.of_nat j) b = mjoin (<[j := b]> T).
Proof using. intros [HT LT] Hj Hb. apply st128_block; [done|lia|by apply is_block_length]. Qed.

Lemma load_block T j : text_ok T -> (j < 8)%nat -> ld128 (mjoin T) (16 * Z.of_nat j) = T !!! j /\ is_block (T !!! j).
Proof using. intros [HT LT] Hj. split; [apply ld128_block; [done|lia]|apply are_blocks_lookup; [done|lia]]. Qed.

Lemma sw_text T : text_ok T -> SlowPortable.encrypt_text ek (mjoin T) = mjoin (encrypt10 key <$> T).
Proof using Hkey.
  intros HT. unfold SlowPortable.encrypt_text, AES_BLOCK_SIZE. refine (proj1 (map_text _ _ T HT _ _)); [|intros; by apply encrypt10_block].
  intros T' j HT' Hj. cbv beta. destruct (load_block T' j HT' Hj) as [-> HB]. unfold ek. rewrite sw_rounds by done.
  by apply store_block; [| |apply encrypt10_block].
Qed.

Lemma hw_text T : text_ok T -> SlowX86.aes_pseudo_round (mjoin T) hk 8 = mjoin (encrypt10 key <$> T).
Proof using Hkey.
  intros HT. unfold SlowX86.aes_pseudo_round, AES_BLOCK_SIZE. refine (proj1 (map_text _ _ T HT _ _)); [|intros; by apply encrypt10_block].
  intros T' j HT' Hj. cbv zeta. rewrite (Z.mul_comm _ 16). destruct (load_block T' j HT' Hj) as [-> HB]. unfold hk. rewrite hw_rounds by done.
  by apply store_block; [| |apply encrypt10_block].
Qed.

(** Software: the xor in place, then the rounds. *)
Lemma sw_block T j c : text_ok T -> (j < 8)%nat -> is_block c -> let T' := <[j := bxor (T !!! j) c]> T in
  st128 (mjoin T') (16 * Z.of_nat j) (aesb_pseudo_round (ld128 (mjoin T') (16 * Z.of_nat j)) ek) =
  mjoin (<[j := encrypt10 key (bxor (T !!! j) c)]> T).
Proof using Hkey.
  intros HT Hj Hc T'. destruct (load_block T j HT Hj) as [_ HB].
  assert (HT' : text_ok T').
  { split; [apply are_blocks_insert; [apply HT|by apply bxor_block]|unfold T'; rewrite length_insert; apply HT]. }
  destruct (load_block T' j HT' Hj) as [-> HB']. unfold ek. rewrite sw_rounds by done.
  rewrite store_block by (done || by apply encrypt10_block). unfold T'.
  by rewrite list_lookup_total_insert_eq, list_insert_insert_eq by (rewrite (proj2 HT); lia).
Qed.

Section Chunks.
Context (M : list bytes) (n : nat) (HM : are_blocks M) (HL : length M = (8 * n)%nat).

(** A loop body that xors a block of the chunk and encrypts. *)
Lemma absorb_map (op : bytes -> nat -> bytes) T i : text_ok T -> (i < n)%nat ->
  (forall T' j, text_ok T' -> (j < 8)%nat -> let c := ld128 (mjoin M) (Z.of_nat (i * INIT_SIZE_BYTE) + 16 * Z.of_nat j) in is_block c ->
     op (mjoin T') j = mjoin (<[j := encrypt10 key (bxor (T' !!! j) c)]> T')) ->
  foldl op (mjoin T) (seq 0 8) = mjoin (implode_step key M T i) /\ text_ok (implode_step key M T i).
Proof using Hkey HM HL.
  intros HT Hi Hop. pose proof (implode_chunk M i n HM HL Hi) as HC.
  refine (map_text_xor _ (encrypt10 key) T _ HT HC _ _); [|intros; by apply encrypt10_block].
  intros T' j HT' Hj. rewrite <- (chunk_block M i j n) by done. apply Hop; [done|done|].
  rewrite (chunk_block M i j n) by done. apply are_blocks_lookup; [apply HC|rewrite (proj2 HC); lia].
Qed.

Lemma portable_absorb T i : text_ok T -> (i < n)%nat ->
  SlowPortable.absorb_text ek (mjoin M) (mjoin T) i = mjoin (implode_step key M T i) /\ text_ok (implode_step key M T i).
Proof using Hkey HM HL.
  intros HT Hi. apply absorb_map; [done|done|]. intros T' j HT' Hj c Hc. unfold AES_BLOCK_SIZE. cbv zeta. fold c.
  rewrite xor_blocks_at by (done || apply HT' || (rewrite (proj2 HT'); lia)). by apply sw_block.
Qed.

Lemma x86_absorb_sw T i : text_ok T -> (i < n)%nat ->
  SlowX86.absorb_sw ek (mjoin M) (mjoin T) i = mjoin (implode_step key M T i) /\ text_ok (implode_step key M T i).
Proof using Hkey HM HL.
  intros HT Hi. apply absorb_map; [done|done|]. intros T' j HT' Hj c Hc. unfold AES_BLOCK_SIZE. cbv zeta. rewrite (Z.mul_comm _ 16). fold c.
  rewrite x86_xor_blocks_at by (done || apply HT' || (rewrite (proj2 HT'); lia)). by apply sw_block.
Qed.

Lemma x86_absorb_hw T i : text_ok T -> (i < n)%nat ->
  SlowX86.absorb_hw hk (mjoin M) (mjoin T) i = mjoin (implode_step key M T i) /\ text_ok (implode_step key M T i).
Proof using Hkey HM HL.
  intros HT Hi. apply absorb_map; [done|done|]. intros T' j HT' Hj c Hc. unfold AES_BLOCK_SIZE. cbv zeta. rewrite (Z.mul_comm _ 16).
  assert (E : ld128 (drop (i * INIT_SIZE_BYTE) (mjoin M)) (16 * Z.of_nat j) = c).
  { unfold c, ld128. rewrite drop_drop. do 2 f_equal. lia. }
  rewrite E. destruct (load_block T' j HT' Hj) as [-> HB]. unfold hk. rewrite hw_rounds by done.
  apply store_block; [done|done|]. by apply encrypt10_block; [|apply bxor_block].
Qed.
End Chunks.
End Loops.
