(* ===== verification/SlowTheorems.v ===== *)
(** * Theorems about the slow hash

    The portable version and the x86-64 version, with AES instructions and
    without, compute the algorithm of SlowSpec.v; hence every build of the
    program finds the same proof of work. *)

From S2P Require Import Prelude Keccak KeccakProofs Random Oaes AesSpec Aesb OaesProofs IntSqrt SlowHash SlowSpec SlowProofs SlowAes.
From S2P Require SlowPortable SlowX86.

#[local] Opaque aes_round KeyExpansion hash_process.

(** ** What a call may assume: buffers of the declared sizes, and allocations that succeed *)

Record env_ok (e : env) : Prop := mkenv_ok {
  ok_state : is_bytes_n 200 (stack_state e);
  ok_stack_b : is_bytes_n 32 (stack_b e);
  ok_rand : (16 <= length (rand e))%nat;
  ok_ctx : mem_ctx e = true;
  ok_keys : mem_keys e = (granted, granted);
}.

Lemma start_ok e data prehashed : env_ok e -> is_bytes data ->
  if prehashed && (200 <? length data)%nat then start e data prehashed = None
  else exists state, start e data prehashed = Some state /\ is_bytes_n 200 state.
Proof.
  intros He Hd. unfold start. destruct prehashed; cbn [andb].
  - destruct (ok_state e He) as [Hs Ls]. destruct (Nat.ltb_spec 200 (length data)) as [H|H].
    + by rewrite (proj2 (Nat.leb_gt _ _)) by lia.
    + rewrite (proj2 (Nat.leb_le _ _)) by lia. eexists. split; [done|]. unfold memcpy. split.
      * repeat apply Forall_app_2; [by apply Forall_take|done|by apply Forall_drop].
      * rewrite !length_app, length_take, length_drop. lia.
  - destruct (keccak_good (keccak_fuel data) data 200) as (st & tail & _ & Hs & E); [by left|unfold keccak_fuel; lia|].
    assert (EP : hash_process data = Done (squeeze 200 st tail)) by exact E. rewrite EP. eexists. split; [done|].
    split; [apply state_bytes_are_bytes|]. unfold squeeze. rewrite length_state_bytes, length_take, length_keccakf, length_xor_lanes, Hs. done.
Qed.

Lemma import_ok ctx k : is_bytes_n 32 k -> exists ctx', import granted (Some ctx) k = Some (ctx', mjoin (KeyExpansion 8 k)).
Proof.
  intros Hk. unfold import. pose proof (import_data_ok ctx k 8 ltac:(by right; right) Hk) as E.
  change (Z.of_nat (4 * 8)) with (Z.of_nat AES_KEY_SIZE) in E. rewrite E. cbn [snd set_key key]. by eexists.
Qed.

Lemma alloc_ok e : env_ok e -> exists ctx, oaes_alloc (mem_ctx e) (rand e) = Some ctx.
Proof. intros He. rewrite (ok_ctx e He). unfold oaes_alloc. cbn. by eexists. Qed.

(** ** The state *)

Section State.
Context (state : bytes) (Hst : is_bytes_n 200 state).

Lemma part_block n : (n < 12)%nat -> is_block (part state n).
Proof using Hst.
  intros Hn. destruct Hst as [Hb Hl]. split; [by apply Forall_take, Forall_drop|]. unfold part. rewrite length_take, length_drop. lia.
Qed.

Lemma key_bytes n : (n <= 168)%nat -> is_bytes_n 32 (take 32 (drop n state)).
Proof using Hst.
  intros Hn. destruct Hst as [Hb Hl]. split; [by apply Forall_take, Forall_drop|]. rewrite length_take, length_drop. lia.
Qed.

Lemma text_blocks : text_ok (blocks_of (init_of state)) /\ mjoin (blocks_of (init_of state)) = init_of state.
Proof using Hst.
  destruct Hst as [Hb Hl]. assert (Li : length (init_of state) = 128%nat) by (unfold init_of; rewrite length_take, length_drop; unfold INIT_SIZE_BYTE; lia).
  assert (Bi : is_bytes (init_of state)) by (by apply Forall_take, Forall_drop).
  split; [split; [|done]|].
  - apply list.Forall_forall. intros x (j & -> & Hj%elem_of_seq)%list_elem_of_fmap. split; [by apply Forall_take, Forall_drop|].
    rewrite length_take, length_drop. lia.
  - unfold blocks_of. cbn [seq fmap list_fmap]. rewrite !mjoin_cons. change (mjoin []) with ([] : bytes). rewrite app_nil_r.
    cbn [Nat.mul Nat.add]. set (t := init_of state) in *. rewrite drop_0.
    assert (C : forall n m, (m = n + 16)%nat -> take 16 (drop n t) ++ drop m t = drop n t).
    { intros n m ->. rewrite <- drop_drop. apply take_drop. }
    rewrite (take_ge (drop 112 t)) by (rewrite length_drop; lia).
    rewrite (C 96%nat 112%nat), (C 80%nat 96%nat), (C 64%nat 80%nat), (C 48%nat 64%nat), (C 32%nat 48%nat), (C 16%nat 32%nat) by lia. apply take_drop.
Qed.

Lemma half_of n : (n < 24)%nat -> le_bytes 8 (lane state n) = take 8 (drop (8 * n) state) /\ is_u64 (lane state n).
Proof using Hst.
  intros Hn. destruct Hst as [Hb Hl]. split; [|apply half_word; by apply Forall_drop]. unfold lane.
  rewrite <- (le_bytes_le (take 8 (drop (8 * n) state))) at 2 by (by apply Forall_take, Forall_drop).
  f_equal. rewrite length_take, length_drop. lia.
Qed.

Lemma part_halves n : lo64 (part state n) = lane state (2 * n) /\ hi64 (part state n) = lane state (2 * n + 1).
Proof using.
  unfold lo64, hi64, part, lane. rewrite take_take, <- (take_drop_commute _ 8 8), take_take, drop_drop. cbn [Nat.min].
  split; do 3 f_equal; lia.
Qed.

(** Two parts, xored as blocks of bytes or as words. *)
Lemma part_xor n m : (n < 12)%nat -> (m < 12)%nat ->
  bxor (part state n) (part state m) = pack (lane state (2 * n) .^ lane state (2 * m), lane state (2 * n + 1) .^ lane state (2 * m + 1)).
Proof using Hst.
  intros Hn Hm. rewrite <- (pack_halves (part state n)), <- (pack_halves (part state m)) by (by apply part_block).
  rewrite bxor_pack. by destruct (part_halves n) as [-> ->], (part_halves m) as [-> ->].
Qed.

Lemma tweak_value data : VARIANT1_CHECK data = true -> is_bytes data -> is_bytes_n 8 (SlowPortable.xor64 (take 8 (drop 192 state)) 0 (NONCE data)) /\
  le (SlowPortable.xor64 (take 8 (drop 192 state)) 0 (NONCE data)) = lane state 24 .^ le (NONCE data).
Proof using Hst.
  intros Hc Hd. unfold VARIANT1_CHECK in Hc. destruct Hst as [Hb Hl].
  assert (Ln : length (NONCE data) = 8%nat) by (unfold NONCE; rewrite length_take, length_drop; lia).
  assert (Lt : length (take 8 (drop 192 state)) = 8%nat) by (rewrite length_take, length_drop; lia).
  assert (Bn : is_bytes (NONCE data)) by (by apply Forall_take, Forall_drop).
  assert (Bt : is_bytes (take 8 (drop 192 state))) by (by apply Forall_take, Forall_drop).
  change (lane state 24) with (le (take 8 (drop 192 state))). set (t := take 8 (drop 192 state)) in *.
  unfold SlowPortable.xor64. rewrite xor_bytes_value by (rewrite ?Lt, ?Ln; cbn; lia). unfold memcpy. change (Z.to_nat 0) with 0%nat.
  rewrite drop_0, (take_ge t 8), (take_ge (NONCE data) 8), take_0, app_nil_l by lia.
  rewrite drop_ge, app_nil_r by (rewrite length_zip_with; lia).
  split; [split; [by apply zip_lxor_bytes|rewrite length_zip_with; lia]|]. rewrite <- le_lxor by (done || lia). done.
Qed.
End State.

(** ** Starts of the loops *)

Lemma xor_k_value state off : (off + 48 <= length state)%nat ->
  SlowPortable.xor_k state off = bxor (take 16 (drop off state)) (take 16 (drop (off + 32) state)).
Proof.
  intros Hl. rewrite !take_drop_seq by lia. unfold SlowPortable.xor_k, bxor. generalize (seq 0 16) as l.
  induction l as [|i l IH]; [done|]. cbn. by rewrite <- IH.
Qed.

Lemma xor_two P s t : is_block P -> (8 <= length s)%nat -> (8 <= length t)%nat ->
  xor_bytes 8 (xor_bytes 8 P 0 s) 8 t = bxor P (take 8 s ++ take 8 t).
Proof.
  intros [_ LP] Hs Ht.
  assert (E : xor_bytes 8 P 0 s = bxor (take 8 P) (take 8 s) ++ drop 8 P).
  { rewrite xor_bytes_value by (rewrite ?LP; cbn; lia). unfold memcpy. change (Z.to_nat 0) with 0%nat. rewrite drop_0, take_0, app_nil_l.
    rewrite length_zip_with, !length_take. f_equal. f_equal. lia. }
  assert (L8 : length (bxor (take 8 P) (take 8 s)) = 8%nat) by (unfold bxor; rewrite length_zip_with, !length_take; lia).
  rewrite E, xor_bytes_value by (rewrite ?length_app, ?length_drop, ?L8; cbn; lia). change (Z.to_nat 8) with 8%nat. unfold memcpy.
  rewrite take_app_length', drop_app_length' by done. rewrite (drop_ge _ (8 + _)).
  2: { rewrite length_app, L8, length_zip_with, !length_take, !length_drop. lia. }
  rewrite app_nil_r. rewrite (take_ge (drop 8 P)) by (rewrite length_drop; lia).
  rewrite <- (take_drop 8 P) at 3. unfold bxor. by rewrite zip_with_app by (rewrite !length_take; lia).
Qed.

Section Start.
Context (k : Z) (Hk : 3 <= k) (variant : Z) (state : bytes) (Hst : is_bytes_n 200 state).

Lemma size_chunks : size k = (8 * (size k / 8))%nat /\ SlowPortable.chunks (16 * 2 ^ k) = (size k / 8)%nat.
Proof using Hk.
  assert (E : 2 ^ k = 8 * 2 ^ (k - 3)) by (rewrite <- (Z.pow_add_r 2 3) by lia; f_equal; lia).
  pose proof (Z.pow_pos_nonneg 2 (k - 3) ltac:(lia) ltac:(lia)) as HP. set (c := 2 ^ (k - 3)) in *. clearbody c.
  assert (ES : size k = (8 * Z.to_nat c)%nat) by (unfold size; lia).
  assert (EQ : (size k / 8 = Z.to_nat c)%nat) by (rewrite ES, Nat.mul_comm, Nat.div_mul by lia; done).
  split; [lia|]. unfold SlowPortable.chunks, INIT_SIZE_BYTE. rewrite EQ. f_equal. rewrite E.
  replace (16 * (8 * c)) with (c * Z.of_nat 128) by lia. apply Z.div_mul. lia.
Qed.

Lemma cn_init_ok : cn_ok k (cn_init (size k) variant state).
Proof using Hk Hst.
  destruct (text_blocks state Hst) as [HT _]. destruct size_chunks as [HS _].
  split; cbn [scratch cn_a cn_b cn_b1 cn_div cn_init]; [apply explode_blocks; [|done]; exact (key_bytes state Hst 0 ltac:(lia))|rewrite explode_length by apply HT; lia| | | |].
  1-3: apply bxor_block; apply part_block; (done || lia).
  destruct (2 <=? variant); [|by split]. by apply half_of; [|lia].
Qed.

Definition fill_start : bytes := mjoin (scratch (cn_init (size k) variant state)).

Lemma portable_start b0 : is_bytes_n 32 b0 ->
  let '(b, division_result, sqrt_result) := SlowPortable.VARIANT2_PORTABLE_INIT variant b0 state in
  portable_rel variant (SlowPortable.mkvars fill_start (SlowPortable.xor_k state 0)
    (memcpy b 0 (SlowPortable.xor_k state 16)) division_result sqrt_result) (cn_init (size k) variant state).
Proof using Hst.
  intros [Bb Lb]. pose proof (proj2 Hst) as Hl. unfold SlowPortable.VARIANT2_PORTABLE_INIT.
  assert (EA : SlowPortable.xor_k state 0 = bxor (part state 0) (part state 2)) by (apply xor_k_value; lia).
  assert (EB : SlowPortable.xor_k state 16 = bxor (part state 1) (part state 3)) by (apply xor_k_value; lia).
  assert (HB : is_block (bxor (part state 1) (part state 3))) by (apply bxor_block; apply part_block; (done || lia)).
  pose proof (is_block_length _ HB) as LB.
  assert (EM : forall x y, is_block x -> memcpy (x ++ y) 0 (bxor (part state 1) (part state 3)) = bxor (part state 1) (part state 3) ++ y).
  { intros x y [_ Lx]. unfold memcpy. rewrite take_0, app_nil_l, Nat.add_0_l, LB, drop_app_length' by done. done. }
  assert (H0 : is_block (take 16 b0)) by (split; [by apply Forall_take|rewrite length_take; lia]).
  destruct (Z.leb_spec 2 variant) as [Hv|Hv]; rewrite EA, EB.
  - assert (H4 : is_block (part state 4)) by (apply part_block; (done || lia)).
    assert (E4 : memcpy b0 16 (take 16 (drop 64 state)) = mjoin [take 16 b0; part state 4]).
    { unfold memcpy. rewrite (drop_ge b0), app_nil_r by (rewrite length_take, length_drop; lia). rewrite !mjoin_cons.
      change (mjoin []) with ([] : bytes). by rewrite app_nil_r. }
    rewrite E4. assert (HL : are_blocks [take 16 b0; part state 4]) by (by repeat constructor; apply H0 || apply H4).
    unfold SlowPortable.xor64.
    pose proof (xor_block_at _ 1 HL ltac:(cbn; lia) 8 0 (drop 80 state) ltac:(lia) ltac:(cbn; lia) ltac:(rewrite length_drop; lia)) as X1.
    cbn [lookup_total list_lookup_total insert list_insert] in X1. change (16 * Z.of_nat 1 + 0) with 16 in X1. rewrite X1.
    assert (HX : is_block (xor_bytes 8 (part state 4) 0 (drop 80 state))).
    { apply xor_bytes_block; [done|apply Forall_drop, Hst|cbn; lia|rewrite length_drop; lia]. }
    assert (HL2 : are_blocks [take 16 b0; xor_bytes 8 (part state 4) 0 (drop 80 state)]) by (by repeat constructor; apply H0 || apply HX).
    pose proof (xor_block_at _ 1 HL2 ltac:(cbn; lia) 8 8 (drop 88 state) ltac:(lia) ltac:(cbn; lia) ltac:(rewrite length_drop; lia)) as X2.
    cbn [lookup_total list_lookup_total insert list_insert] in X2. change (16 * Z.of_nat 1 + 8) with (16 + 8) in X2. rewrite X2.
    rewrite xor_two by (done || rewrite length_drop; lia).
    rewrite !mjoin_cons. change (mjoin []) with ([] : bytes). rewrite app_nil_r, EM by done.
    assert (E5 : take 8 (drop 80 state) ++ take 8 (drop 88 state) = part state 5).
    { pose proof (take_take_drop (drop 80 state) 8 8) as E. rewrite drop_drop in E. exact E. }
    rewrite E5. unfold fill_start, cn_init. rewrite (proj2 (Z.leb_le 2 variant) Hv). split; cbn [SlowPortable.v_long_state SlowPortable.v_a SlowPortable.v_b
      SlowPortable.v_division_result SlowPortable.v_sqrt_result scratch cn_a cn_b cn_b1 cn_div cn_sqrt]; [done|done| |done|done].
    eexists. split; [done|]. split; [|done]. apply bxor_block; apply part_block; (done || lia).
  - unfold fill_start, cn_init. rewrite (proj2 (Z.leb_gt 2 variant) Hv). split; cbn [SlowPortable.v_long_state SlowPortable.v_a SlowPortable.v_b
      SlowPortable.v_division_result SlowPortable.v_sqrt_result scratch cn_a cn_b cn_b1 cn_div cn_sqrt]; [done|done| |done|done].
    exists (drop 16 b0). rewrite <- (take_drop 16 b0) at 1. rewrite EM by done. split; [done|]. split; [|lia].
    split; [by apply Forall_drop|rewrite length_drop; lia].
Qed.

Lemma x86_start b0 :
  let '(b2, b3, division_result, sqrt_result) := SlowX86.VARIANT2_INIT64 variant b0 state in
  x86_rel variant (SlowX86.mkvars fill_start (SlowX86.xor_k state 0) (pack (SlowX86.xor_k state 16)) (pack (b2, b3))
    division_result sqrt_result) (cn_init (size k) variant state).
Proof using Hst.
  unfold SlowX86.VARIANT2_INIT64.
  assert (L : forall n, ld64 state (8 * Z.of_nat n) = lane state n) by (intros n; unfold ld64, lane; do 3 f_equal; lia).
  assert (EA : SlowX86.xor_k state 0 = (lane state 0 .^ lane state 4, lane state 1 .^ lane state 5)) by done.
  assert (EB : SlowX86.xor_k state 16 = (lane state 2 .^ lane state 6, lane state 3 .^ lane state 7)) by done.
  assert (W : forall n m, (n < 24)%nat -> (m < 24)%nat -> u64 (lane state n .^ lane state m) = lane state n .^ lane state m).
  { intros n m Hn Hm. apply wrap_small, lxor_word; [lia|by apply half_of..]. }
  pose proof (part_xor state Hst 0 2 ltac:(lia) ltac:(lia)) as P0. pose proof (part_xor state Hst 1 3 ltac:(lia) ltac:(lia)) as P1.
  pose proof (part_xor state Hst 4 5 ltac:(lia) ltac:(lia)) as P4. cbn [Nat.mul Nat.add] in P0, P1, P4.
  destruct (Z.leb_spec 2 variant) as [Hv|Hv]; rewrite EA, EB; split; cbn [SlowX86.v_hp SlowX86.v_a SlowX86.v_b SlowX86.v_b1
    SlowX86.v_division_result SlowX86.v_sqrt_result cn_init scratch cn_a cn_b cn_b1 cn_div cn_sqrt]; try done; try lia;
    try (by rewrite P0, lo64_pack, hi64_pack; cbn [fst snd]; rewrite !W by lia); try (by destruct (Z.leb_spec 2 variant); [|lia]);
    try (by destruct (Z.leb_spec 2 variant); [lia|]).
Qed.
End Start.

(** ** The versions *)

Section Parts.
Context (k : Z) (Hk : 3 <= k) (variant : Z).

Lemma fill_value (enc : bytes -> bytes) step state m : is_bytes_n 200 state -> length m = (16 * size k)%nat ->
  (forall m t i, step (m, t) i = (memcpy m (i * INIT_SIZE_BYTE) (enc t), enc t)) ->
  (forall T, text_ok T -> enc (mjoin T) = mjoin (encrypt10 (take 32 state) <$> T)) ->
  (foldl step (m, init_of state) (seq 0 (size k / 8))).1 = fill_start k variant state.
Proof using Hk.
  intros Hst Hm Hstep Henc. destruct (text_blocks state Hst) as [HT ET]. rewrite <- ET at 1. unfold fill_start, cn_init. cbn [scratch].
  apply (fill_ok enc); [done|done|exact (key_bytes state Hst 0 ltac:(lia))|done|]. destruct (size_chunks k Hk). lia.
Qed.

Lemma absorb_value step state s : is_bytes_n 200 state -> cn_ok k s ->
  (forall T i, text_ok T -> (i < size k / 8)%nat ->
     step (mjoin T) i = mjoin (implode_step (take 32 (drop 32 state)) (scratch s) T i) /\
     text_ok (implode_step (take 32 (drop 32 state)) (scratch s) T i)) ->
  foldl step (init_of state) (seq 0 (size k / 8)) =
  mjoin (implode (size k) (take 32 (drop 32 state)) (scratch s) (blocks_of (init_of state))).
Proof using Hk.
  intros Hst [HM HL _ _ _ _] Hstep. destruct (text_blocks state Hst) as [HT ET]. rewrite <- ET at 1. unfold implode.
  apply (absorb_ok _ _ _ (size k / 8)); [by apply key_bytes; [|lia]|done|rewrite HL; by apply size_chunks|done|done].
Qed.

(** The tweak is used by variant 1 only. *)
Lemma tweak_irrelevant N t t' s n : variant <> 1 -> Nat.iter n (cn_step N variant t) s = Nat.iter n (cn_step N variant t') s.
Proof using.
  intros Hv. induction n as [|n IH]; [done|]. cbn [Nat.iter nat_rect]. unfold Nat.iter in IH. rewrite IH. set (s' := nat_rect _ _ _ _). clearbody s'.
  destruct s' as [M a b b1 dv sq]. unfold cn_step. rewrite (proj2 (Z.eqb_neq variant 1) Hv). done.
Qed.

(** The AES loops of the x86-64 version, for either choice of the key. *)
Lemma x86_fill state useAes m ctx : is_bytes_n 200 state -> length m = (16 * size k)%nat ->
  (foldl (match (if useAes : bool then None else Some (ctx, mjoin (KeyExpansion 8 (take 32 state)))) : option (oaes_ctx * bytes) with
          | None => SlowX86.fill_hw (SlowX86.aes_expand_key (take 32 state))
          | Some (_, exp_data) => SlowX86.fill_sw exp_data
          end) (m, init_of state) (seq 0 (size k / 8))).1 = fill_start k variant state.
Proof using Hk.
  intros Hst Hm. pose proof (key_bytes state Hst 0 ltac:(lia)) as HK0. rewrite drop_0 in HK0. destruct useAes.
  - exact (fill_value _ _ state m Hst Hm (fun _ _ _ => eq_refl) (hw_text (take 32 state) HK0)).
  - exact (fill_value _ _ state m Hst Hm (fun _ _ _ => eq_refl) (sw_text (take 32 state) HK0)).
Qed.

Lemma x86_absorb state s useAes ctx : is_bytes_n 200 state -> cn_ok k s ->
  foldl (match (if useAes : bool then None else Some (ctx, mjoin (KeyExpansion 8 (take 32 (drop 32 state))))) : option (oaes_ctx * bytes) with
         | None => SlowX86.absorb_hw (SlowX86.aes_expand_key (take 32 (drop 32 state))) (mjoin (scratch s))
         | Some (_, exp_data) => SlowX86.absorb_sw exp_data (mjoin (scratch s))
         end) (init_of state) (seq 0 (size k / 8)) =
  mjoin (implode (size k) (take 32 (drop 32 state)) (scratch s) (blocks_of (init_of state))).
Proof using Hk.
  intros Hst Hs. pose proof (key_bytes state Hst 32 ltac:(lia)) as HK.
  assert (HL : length (scratch s) = (8 * (size k / 8))%nat) by (rewrite (ok_size k s Hs); by apply size_chunks).
  apply absorb_value; [done|done|]. intros T i HT Hi. destruct useAes.
  - eapply x86_absorb_hw; [done|apply Hs|exact HL|done|done].
  - eapply x86_absorb_sw; [done|apply Hs|exact HL|done|done].
Qed.
End Parts.

Definition tweak_of (data state : bytes) : Z := lane state 24 .^ le (NONCE data).

(** The tweak of the versions that hold it as a word. *)
Lemma tweak64_ok variant data state : (variant =? 1) && (length data <? 43)%nat = false ->
  exists tweak, SlowX86.VARIANT1_INIT64 variant data state = Some tweak /\ (variant = 1 -> tweak = tweak_of data state).
Proof.
  intros EV. unfold SlowX86.VARIANT1_INIT64. destruct (Z.eqb_spec variant 1) as [E|E]; [|by exists 0]. cbn [andb] in EV.
  unfold VARIANT1_CHECK. replace (Z.of_nat (length data) <? 43) with (length data <? 43)%nat by lia. rewrite EV. by eexists.
Qed.

Lemma tweak64_error variant data state : (variant =? 1) && (length data <? 43)%nat = true -> SlowX86.VARIANT1_INIT64 variant data state = None.
Proof.
  intros [E1 E2]%andb_true_iff. unfold SlowX86.VARIANT1_INIT64, VARIANT1_CHECK. rewrite E1.
  replace (Z.of_nat (length data) <? 43) with (length data <? 43)%nat by lia. by rewrite E2.
Qed.

Lemma tweak_iter variant data state N t s n : (variant = 1 -> t = tweak_of data state) ->
  Nat.iter n (cn_step N variant t) s = Nat.iter n (cn_step N variant (tweak_of data state)) s.
Proof. intros HT. destruct (decide (variant = 1)) as [E|E]; [by rewrite (HT E)|by apply tweak_irrelevant]. Qed.

Section Versions.
Context (k : Z) (Hk : 3 <= k) (variant : Z) (iter : nat) (groestl jh skein : bytes -> bytes).
Context (e : env) (He : env_ok e) (data : bytes) (Hd : is_bytes data) (prehashed : bool).

Lemma portable_value dbl : length (scratchpad e) = (16 * size k)%nat ->
  SlowPortable.cn_slow_hash (16 * 2 ^ k) iter variant dbl groestl jh skein e data prehashed =
  cryptonight (size k) variant iter groestl jh skein e data prehashed.
Proof using Hk He Hd.
  intros Hm. unfold SlowPortable.cn_slow_hash, cryptonight. pose proof (start_ok e data prehashed He Hd) as HS.
  destruct (prehashed && _); [by rewrite HS|]. destruct HS as (state & -> & Hst). cbn [mbind option_bind].
  destruct (alloc_ok e He) as [ctx ->]. rewrite (ok_keys e He). cbn [fst snd].
  assert (HV : VARIANT1_CHECK data = negb (length data <? 43)%nat) by (unfold VARIANT1_CHECK; lia).
  destruct ((variant =? 1) && (length data <? 43)%nat) eqn:EV.
  { apply andb_true_iff in EV as [E1 E2]. unfold SlowPortable.VARIANT1_PORTABLE_INIT. by rewrite E1, HV, E2. }
  assert (HT : exists tweak, SlowPortable.VARIANT1_PORTABLE_INIT variant data state = Some tweak /\
    (variant = 1 -> is_bytes_n 8 tweak /\ le tweak = tweak_of data state)).
  { unfold SlowPortable.VARIANT1_PORTABLE_INIT. destruct (Z.eqb_spec variant 1) as [E|E]; [|by exists []].
    cbn [andb] in EV. rewrite HV, EV. cbn [negb]. eexists. split; [done|]. intros _. apply tweak_value; [done| |done]. by rewrite HV, EV. }
  destruct HT as (tweak & -> & HT). cbn [mbind option_bind].
  pose proof (portable_start k variant state Hst (stack_b e) (ok_stack_b e He)) as HR.
  destruct (SlowPortable.VARIANT2_PORTABLE_INIT _ _ _) as [[b dv] sq].
  pose proof (key_bytes state Hst 0 ltac:(lia)) as HK0. rewrite drop_0 in HK0. change AES_KEY_SIZE with 32%nat.
  destruct (import_ok ctx (take 32 state) HK0) as [ctx' ->]. cbn [mbind option_bind].
  destruct (size_chunks k Hk) as [_ ->].
  pose proof (fill_value k Hk variant _ (SlowPortable.fill (mjoin (KeyExpansion 8 (take 32 state)))) state (scratchpad e) Hst Hm (fun _ _ _ => eq_refl) (sw_text (take 32 state) HK0)) as EF.
  destruct (foldl _ _ _) as [m text]. cbn [fst] in EF. subst m.
  destruct (portable_steps k ltac:(lia) variant dbl tweak (fun E => proj1 (HT E)) (iter / 2) _ _ (cn_init_ok k Hk variant state Hst) HR) as (v & -> & Hv).
  cbn [mbind option_bind]. destruct (import_ok ctx' _ (key_bytes state Hst 32 ltac:(lia))) as [ctx'' ->]. cbn [mbind option_bind].
  rewrite (tweak_iter variant data state) in Hv by (intros E; apply (HT E)).
  rewrite (rel_mem _ _ _ Hv). apply (f_equal (fun t => Some (finish groestl jh skein e state t))). unfold cn_text. cbv zeta.
  fold (tweak_of data state). pose proof (cn_steps_ok k ltac:(lia) variant (tweak_of data state) (iter / 2) _ (cn_init_ok k Hk variant state Hst)) as Hs.
  set (s := Nat.iter _ _ _) in *. clearbody s. apply absorb_value; [done|done|done|].
  intros T i HT' Hi. eapply portable_absorb; [by apply key_bytes; [|lia]|apply Hs| |done|exact Hi].
  rewrite (ok_size k s Hs). by apply size_chunks.
Qed.

Lemma x86_value useAes mapped heap s0 m : let s := SlowX86.slow_hash_allocate_state mapped heap s0 in
  SlowX86.hp_state s = Some m -> length m = (16 * size k)%nat ->
  match cryptonight (size k) variant iter groestl jh skein e data prehashed with
  | None => SlowX86.cn_slow_hash (16 * 2 ^ k) iter variant groestl jh skein e mapped heap useAes s0 data prehashed = None
  | Some h => exists m', length m' = (16 * size k)%nat /\
      SlowX86.cn_slow_hash (16 * 2 ^ k) iter variant groestl jh skein e mapped heap useAes s0 data prehashed =
      Some (h, SlowX86.mkhp (Some m') (SlowX86.hp_allocated s))
  end.
Proof using Hk He Hd.
  intros s Es Hm. unfold SlowX86.cn_slow_hash, cryptonight. fold s. pose proof (start_ok e data prehashed He Hd) as HS.
  destruct (prehashed && _); [by rewrite HS|]. destruct HS as (state & -> & Hst). cbn [mbind option_bind].
  destruct (alloc_ok e He) as [ctx ->]. rewrite (ok_keys e He). cbn [fst snd].
  destruct ((variant =? 1) && (length data <? 43)%nat) eqn:EV; [by rewrite tweak64_error|].
  destruct (tweak64_ok variant data state EV) as (tweak & -> & HT). cbn [mbind option_bind]. pose proof (x86_start k variant state Hst (stack_b e)) as HR.
  destruct (SlowX86.VARIANT2_INIT64 _ _ _) as [[[b2 b3] dv] sq]. rewrite Es. cbn [mbind option_bind].
  pose proof (key_bytes state Hst 0 ltac:(lia)) as HK0. rewrite drop_0 in HK0. change AES_KEY_SIZE with 32%nat.
  destruct (import_ok ctx (take 32 state) HK0) as [ctx' ->]. destruct (import_ok ctx' _ (key_bytes state Hst 32 ltac:(lia))) as [ctx'' EI].
  assert (E1 : (if useAes then Some None else Some <$> Some (ctx', mjoin (KeyExpansion 8 (take 32 state)))) =
    Some (if useAes then None else Some (ctx', mjoin (KeyExpansion 8 (take 32 state))))) by (by destruct useAes).
  rewrite E1. cbn [mbind option_bind]. change (SlowX86.chunks (16 * 2 ^ k)) with (SlowPortable.chunks (16 * 2 ^ k)).
  destruct (size_chunks k Hk) as [_ ->]. pose proof (x86_fill k Hk variant state useAes m ctx' Hst Hm) as EF.
  destruct (foldl _ _ _) as [m1 text]. cbn [fst] in EF. subst m1.
  assert (E2 : match (if useAes then None else Some (ctx', mjoin (KeyExpansion 8 (take 32 state)))) with
    | None => Some None
    | Some (c, _) => Some <$> import granted (Some c) (take 32 (drop 32 state)) end =
    Some (if useAes then None else Some (ctx'', mjoin (KeyExpansion 8 (take 32 (drop 32 state)))))) by (destruct useAes; [done|by rewrite EI]).
  rewrite E2. cbn [mbind option_bind]. clear E1 E2 EI.
  pose proof (x86_steps k ltac:(lia) variant tweak useAes (iter / 2) _ _ (cn_init_ok k Hk variant state Hst) HR) as Hv.
  rewrite (tweak_iter variant data state) in Hv by done. set (v := Nat.iter _ (SlowX86.iteration _ _ _ _) _) in *. clearbody v.
  pose proof (cn_steps_ok k ltac:(lia) variant (tweak_of data state) (iter / 2) _ (cn_init_ok k Hk variant state Hst)) as Hs.
  unfold cn_text. cbv zeta. fold (tweak_of data state). set (c := Nat.iter _ _ _) in *. clearbody c.
  rewrite (xrel_mem _ _ _ Hv). rewrite (x86_absorb k Hk state c useAes ctx'' Hst Hs). eexists. split; [|done].
  rewrite length_mjoin_blocks by apply Hs. by rewrite (ok_size k c Hs).
Qed.
End Versions.

(** ** Life of the scratchpad *)

(** Where the current buffer came from, and the calls of one thread. *)
Inductive origin := from_mmap | from_malloc.

Inductive hp_step : SlowX86.hp * option origin -> SlowX86.release -> SlowX86.hp * option origin -> Prop :=
  | step_allocate s o mapped heap : hp_step (s, o) SlowX86.no_release
      (SlowX86.slow_hash_allocate_state mapped heap s,
       match SlowX86.hp_state s with
       | Some _ => o
       | None => match mapped with Some _ => Some from_mmap | None => match heap with Some _ => Some from_malloc | None => None end end
       end)
  | step_hash s o k iter variant groestl jh skein e useAes data prehashed h s' :
      SlowX86.hp_state s <> None ->
      SlowX86.cn_slow_hash (16 * 2 ^ k) iter variant groestl jh skein e None None useAes s data prehashed = Some (h, s') ->
      hp_step (s, o) SlowX86.no_release (s', o)
  | step_free s o : hp_step (s, o) (SlowX86.slow_hash_free_state s).1
      ((SlowX86.slow_hash_free_state s).2, match SlowX86.hp_state s with Some _ => None | None => o end).

Inductive hp_reachable : SlowX86.hp * option origin -> Prop :=
  | hp_init : hp_reachable (SlowX86.hp_start, None)
  | hp_next s r s' : hp_reachable s -> hp_step s r s' -> hp_reachable s'.

Definition hp_inv (s : SlowX86.hp * option origin) : Prop :=
  match SlowX86.hp_state s.1, s.2 with
  | None, None => SlowX86.hp_allocated s.1 = 0
  | Some _, Some from_mmap => SlowX86.hp_allocated s.1 = 1
  | Some _, Some from_malloc => SlowX86.hp_allocated s.1 = 0
  | _, _ => False
  end.

Lemma some_pair {A B} (a a' : A) (b b' : B) : Some (a, b) = Some (a', b') -> b = b'.
Proof. congruence. Qed.

Lemma hash_keeps_hp MEM iter variant groestl jh skein e useAes s data prehashed h s' : SlowX86.hp_state s <> None ->
  SlowX86.cn_slow_hash MEM iter variant groestl jh skein e None None useAes s data prehashed = Some (h, s') ->
  SlowX86.hp_state s' <> None /\ SlowX86.hp_allocated s' = SlowX86.hp_allocated s.
Proof.
  intros Hs. unfold SlowX86.cn_slow_hash.
  assert (EA : SlowX86.slow_hash_allocate_state None None s = s) by (unfold SlowX86.slow_hash_allocate_state; by destruct (SlowX86.hp_state s)).
  rewrite EA. intros H. apply bind_Some in H as (state & _ & H). apply bind_Some in H as (tweak & _ & H).
  destruct (SlowX86.VARIANT2_INIT64 _ _ _) as [[[b2 b3] dv] sq]. apply bind_Some in H as (m & _ & H). apply bind_Some in H as (sw & _ & H).
  destruct (foldl _ _ _) as [m' text]. apply bind_Some in H as (sw' & _ & H).
  apply some_pair in H. by rewrite <- H.
Qed.

Lemma hp_step_inv s r s' : hp_inv s -> hp_step s r s' -> hp_inv s'.
Proof.
  intros Hi Hstep. destruct Hstep as [s o mapped heap|s o k iter variant g j sk e useAes data ph h s' Hs Hh|s o]; unfold hp_inv in *; cbn [fst snd] in *.
  - unfold SlowX86.slow_hash_allocate_state. destruct (SlowX86.hp_state s) eqn:E; [by rewrite E|]. by destruct mapped, heap.
  - destruct (hash_keeps_hp _ _ _ _ _ _ _ _ _ _ _ _ _ Hs Hh) as [H1 H2]. rewrite H2. destruct (SlowX86.hp_state s), (SlowX86.hp_state s'); done.
  - unfold SlowX86.slow_hash_free_state. destruct (SlowX86.hp_state s) eqn:E; cbn [fst snd SlowX86.hp_state SlowX86.hp_allocated]; [done|by rewrite E].
Qed.

Lemma hp_reachable_inv s : hp_reachable s -> hp_inv s.
Proof. induction 1 as [|s r s' _ IH Hs]; [done|]. by apply (hp_step_inv s r). Qed.

(** A concrete environment, with the scratchpad of the source. *)
Definition sample_env (n : nat) : env :=
  mkenv (replicate 200 9) (replicate 32 7) (replicate n 5) (replicate 64 1) (replicate 16 3) true (granted, granted).

Lemma sample_env_ok n : env_ok (sample_env n).
Proof. split; cbn [sample_env stack_state stack_b rand mem_ctx mem_keys]; [split; [apply Forall_replicate; by split|done]|split; [apply Forall_replicate; by split|done]|cbn; lia|done|done]. Qed.

Definition sample_data : bytes := replicate 76 1.

Lemma sample_data_bytes : is_bytes sample_data.
Proof. apply Forall_replicate. by split. Qed.

(** ** Theorems *)

(** C17: the portable version computes the algorithm on blocks: ten AES rounds fill
    the scratchpad, each iteration is one step of the mixing loop with the exact
    product and integer square root, and the text absorbs the scratchpad; its
    assertions hold and it always ends. *)
Theorem slow_hash_refines k variant iter groestl jh skein e data prehashed dbl :
  3 <= k -> env_ok e -> is_bytes data -> length (scratchpad e) = (16 * size k)%nat ->
  SlowPortable.cn_slow_hash (16 * 2 ^ k) iter variant dbl groestl jh skein e data prehashed =
  cryptonight (size k) variant iter groestl jh skein e data prehashed.
Proof. intros Hk He Hd Hl. by apply portable_value. Qed.

Lemma slow_hash_refines_witness :
  SlowPortable.cn_slow_hash MEMORY ITER 1 true (take 32) (take 32) (take 32) (sample_env (16 * size 17)) sample_data false =
  cryptonight (size 17) 1 ITER (take 32) (take 32) (take 32) (sample_env (16 * size 17)) sample_data false.
Proof.
  apply (slow_hash_refines 17 1 ITER (take 32) (take 32) (take 32) (sample_env (16 * size 17)) sample_data false true);
    [discriminate|apply sample_env_ok|apply sample_data_bytes|apply length_replicate].
Defined.

(** A call has no result exactly when variant 1 is asked for fewer than 43
    bytes, where the process exits, or when a prehashed input is longer than the
    state; variant 1 reads its nonce within the data in every other case. *)
Theorem slow_hash_error k variant iter groestl jh skein e data prehashed dbl :
  3 <= k -> env_ok e -> is_bytes data -> length (scratchpad e) = (16 * size k)%nat ->
  SlowPortable.cn_slow_hash (16 * 2 ^ k) iter variant dbl groestl jh skein e data prehashed = None <->
  (variant = 1 /\ (length data < 43)%nat) \/ (prehashed = true /\ (200 < length data)%nat).
Proof.
  intros Hk He Hd Hl. rewrite portable_value by done. unfold cryptonight. pose proof (start_ok e data prehashed He Hd) as HS.
  destruct (prehashed && (200 <? length data)%nat) eqn:EP.
  - rewrite HS. cbn [mbind option_bind]. apply andb_true_iff in EP as [-> EP]. split; [|done]. intros _. right. split; [done|]. by apply Nat.ltb_lt.
  - destruct HS as (state & -> & _). cbn [mbind option_bind]. destruct ((variant =? 1) && (length data <? 43)%nat) eqn:EV.
    + apply andb_true_iff in EV as [E1 E2]. split; [|done]. intros _. left. split; [by apply Z.eqb_eq|by apply Nat.ltb_lt].
    + split; [discriminate|]. intros [[-> H]|[-> H]].
      * cbn [Z.eqb Pos.eqb andb] in EV. apply Nat.ltb_ge in EV. lia.
      * cbn [andb] in EP. apply Nat.ltb_ge in EP. lia.
Qed.

Lemma slow_hash_error_witness :
  SlowPortable.cn_slow_hash MEMORY ITER 1 true (take 32) (take 32) (take 32) (sample_env (16 * size 17)) [1; 2; 3] false = None.
Proof.
  apply (slow_hash_error 17 1 ITER (take 32) (take 32) (take 32) (sample_env (16 * size 17)) [1; 2; 3] false true);
    [discriminate|apply sample_env_ok|repeat constructor; discriminate|apply length_replicate|].
  left. split; [reflexivity|]. apply Nat.ltb_lt. reflexivity.
Defined.

(** The key schedule computed with AESKEYGENASSIST holds the first eleven round
    keys of FIPS 197 for the 256-bit key. *)
Theorem aes_expand_key_correct key : is_bytes_n 32 key ->
  SlowX86.aes_expand_key key = mjoin (round_key (KeyExpansion 8 key) <$> seq 0 11).
Proof. apply expand_key_value. Qed.

Lemma aes_expand_key_correct_witness :
  SlowX86.aes_expand_key (replicate 32 1) = mjoin (round_key (KeyExpansion 8 (replicate 32 1)) <$> seq 0 11).
Proof.
  apply (aes_expand_key_correct (replicate 32 1)). split; [apply Forall_replicate; by split|reflexivity].
Defined.

(** In every history of allocations, hashes and releases on a thread, the
    scratchpad pointer is null exactly when there is no buffer, and a release
    gives a mapped buffer to munmap and a heap buffer to free. *)
Theorem scratchpad_lifecycle s o : hp_reachable (s, o) ->
  (SlowX86.hp_state s = None <-> o = None) /\
  (SlowX86.slow_hash_free_state s).1 =
    match o with None => SlowX86.no_release | Some from_mmap => SlowX86.by_munmap | Some from_malloc => SlowX86.by_free end /\
  (SlowX86.slow_hash_free_state s).2 = SlowX86.hp_start.
Proof.
  intros H. apply hp_reachable_inv in H. unfold hp_inv in H. cbn [fst snd] in H. unfold SlowX86.slow_hash_free_state.
  destruct s as [[m|] f]; cbn [SlowX86.hp_state SlowX86.hp_allocated] in *; destruct o as [[]|]; try done; subst f; done.
Qed.

Lemma scratchpad_lifecycle_witness :
  (SlowX86.slow_hash_free_state (SlowX86.mkhp (Some [1]) 0)).1 = SlowX86.by_free.
Proof.
  apply (scratchpad_lifecycle (SlowX86.mkhp (Some [1]) 0) (Some from_malloc)).
  exact (hp_next _ _ _ hp_init (step_allocate SlowX86.hp_start None None (Some [1]))).
Defined.
