(* ===== verification/SlowArmProofs.v ===== *)
(** * The ARM versions of the slow hash refine the algorithm on blocks *)

From S2P Require Import Prelude IntUtil Keccak KeccakProofs Random Oaes AesSpec Aesb OaesProofs IntSqrt SlowHash SlowSpec SlowProofs SlowAes SlowTheorems SlowArm.
From S2P Require SlowPortable SlowX86.

#[local] Opaque sbox KeyExpansion gpow le_bytes le hash_process.

(** ** The key schedule in assembly *)

Lemma ext_slli x : ext zero x 12 = SlowX86._mm_slli_si128 x 4.
Proof. reflexivity. Qed.

Lemma xor_zero x : is_block x -> bxor x zero = x.
Proof.
  intros [_ Hx]. destruct (sixteen x Hx) as (a&b&c&d&e&f&g&h&i&j&k&l&m&n&o&p&->). cbn. by rewrite !Z.lxor_0_r.
Qed.

(** AESE with a zero key substitutes the bytes of four equal words. *)
Lemma aese_fan x : length x = 4%nat -> vaeseq_u8 (fan x) zero = fan (SubBytes x).
Proof. intros (a & b & c & d & ->)%four. cbn. by rewrite !Z.lxor_0_r. Qed.

Lemma tbl_fan x : length x = 16%nat -> tbl x (rcon !!! 1%nat) = fan (RotWord (SlowX86.dword x 3)).
Proof.
  intros Hx. assert (E : rcon !!! 1%nat = [13; 14; 15; 12; 13; 14; 15; 12; 13; 14; 15; 12; 13; 14; 15; 12]) by (vm_compute; reflexivity).
  rewrite E. destruct (sixteen x Hx) as (a&b&c&d&e&f&g&h&i&j&k&l&m&n&o&p&->). reflexivity.
Qed.

Lemma dup_fan x : dup_s x 3 = fan (SlowX86.dword x 3).
Proof. reflexivity. Qed.

Lemma dword_length x i : length x = 16%nat -> (i < 4)%nat -> length (SlowX86.dword x i) = 4%nat.
Proof. intros Hx Hi. unfold SlowX86.dword. rewrite length_take, length_drop. lia. Qed.

(** The doublewords of AESKEYGENASSIST that are used. *)
Lemma assist_dwords x r : length x = 16%nat -> let t := SlowX86._mm_aeskeygenassist_si128 x r in
  SlowX86.dword t 2 = SubBytes (SlowX86.dword x 3) /\
  SlowX86.dword t 3 = bxor (SubBytes (RotWord (SlowX86.dword x 3))) [r; 0; 0; 0].
Proof.
  intros Hx. destruct (sixteen x Hx) as (a&b&c&d&e&f&g&h&i&j&k&l&m&n&o&p&->). split; reflexivity.
Qed.

Lemma fan_xor x y : length x = 4%nat -> length y = 4%nat -> bxor (fan x) (fan y) = fan (bxor x y).
Proof. intros (a & b & c & d & ->)%four (e & f & g & h & ->)%four. reflexivity. Qed.

Definition round_constant (r : Z) : bytes := fan [r; 0; 0; 0].

Lemma expand_first_ok r t1 t3 st : length t1 = 16%nat -> length t3 = 16%nat ->
  expand_first (rcon !!! 1%nat) (mkregs (round_constant r) t1 t3 st) =
  let t := (SlowX86.aes_256_assist1 t1 (SlowX86._mm_aeskeygenassist_si128 t3 r)).1 in
  mkregs (shl_b (round_constant r) 1) t t3 (st ++ [t3] ++ [t]).
Proof.
  intros H1 H3. unfold expand_first, SlowX86.aes_256_assist1. cbn [v1 v3 v4 stored fst]. rewrite shuffle_ff, tbl_fan by done.
  destruct (assist_dwords t3 r H3) as [_ ->]. assert (L : length (RotWord (SlowX86.dword t3 3)) = 4%nat) by (by apply rot_length, dword_length; [|lia]).
  rewrite aese_fan by done. change veorq_u8 with bxor. change SlowX86._mm_xor_si128 with bxor. unfold round_constant.
  rewrite fan_xor by (by try apply sub_length). rewrite !ext_slli. by rewrite <- app_assoc.
Qed.

Lemma expand_second_ok r t1 t3 st : length t1 = 16%nat ->
  expand_second (mkregs r t1 t3 st) = mkregs r t1 (SlowX86.aes_256_assist2 t1 t3) st.
Proof.
  intros H1. unfold expand_second, SlowX86.aes_256_assist2. cbn [v1 v3 v4 stored]. rewrite shuffle_aa, dup_fan.
  destruct (assist_dwords t1 0 H1) as [-> _]. rewrite aese_fan by (by apply dword_length; [|lia]). done.
Qed.

(** One turn of the loop: two round keys, and the next round constant. *)
Lemma expand_turn k i r st : is_bytes_n 32 k -> (i < 5)%nat -> r = gpow 2 i ->
  let rk := round_key (KeyExpansion 8 k) in
  expand_first (rcon !!! 1%nat) (mkregs (round_constant r) (rk (2 * i)%nat) (rk (2 * i + 1)%nat) st) =
    mkregs (shl_b (round_constant r) 1) (rk (2 * i + 2)%nat) (rk (2 * i + 1)%nat) (st ++ [rk (2 * i + 1)%nat; rk (2 * i + 2)%nat]) /\
  forall c st', expand_second (mkregs c (rk (2 * i + 2)%nat) (rk (2 * i + 1)%nat) st') = mkregs c (rk (2 * i + 2)%nat) (rk (2 * i + 3)%nat) st'.
Proof.
  intros Hk Hi Hr rk. assert (L : forall i, (i < 15)%nat -> length (rk i) = 16%nat) by (intros; by apply is_block_length, round_key_block).
  split; [rewrite expand_first_ok by (apply L; lia)|intros c st'; rewrite expand_second_ok by (apply L; lia)].
  - cbv zeta. unfold rk. rewrite (first_key k Hk i r Hi Hr). done.
  - unfold rk. by rewrite (second_key k Hk i Hi).
Qed.

Lemma neon_schedule k : is_bytes_n 32 k -> neon_expand_key k = SlowX86.aes_expand_key k.
Proof.
  intros Hk. rewrite expand_key_value by done. unfold neon_expand_key.
  assert (R0 : rcon !!! 0%nat = round_constant 1) by (vm_compute; reflexivity). rewrite R0.
  destruct (expand_key_start k Hk) as [-> ->].
  pose proof (fun st => expand_turn k 0 1 st Hk ltac:(lia) ltac:(vm_compute; reflexivity)) as T0.
  pose proof (fun st => expand_turn k 1 2 st Hk ltac:(lia) ltac:(vm_compute; reflexivity)) as T1.
  pose proof (fun st => expand_turn k 2 4 st Hk ltac:(lia) ltac:(vm_compute; reflexivity)) as T2.
  pose proof (fun st => expand_turn k 3 8 st Hk ltac:(lia) ltac:(vm_compute; reflexivity)) as T3.
  pose proof (fun st => expand_turn k 4 16 st Hk ltac:(lia) ltac:(vm_compute; reflexivity)) as T4.
  cbn [Nat.mul Nat.add] in T0, T1, T2, T3, T4. cbv zeta in T0, T1, T2, T3, T4. cbn [expand_loop].
  rewrite (proj1 (T0 _)), (proj2 (T0 [])). change (shl_b (round_constant 1) 1) with (round_constant 2).
  rewrite (proj1 (T1 _)), (proj2 (T1 [])). change (shl_b (round_constant 2) 1) with (round_constant 4).
  rewrite (proj1 (T2 _)), (proj2 (T2 [])). change (shl_b (round_constant 4) 1) with (round_constant 8).
  rewrite (proj1 (T3 _)), (proj2 (T3 [])). change (shl_b (round_constant 8) 1) with (round_constant 16).
  rewrite (proj1 (T4 _)). cbn [stored]. by rewrite <- !app_assoc.
Qed.

(** ** NEON rounds and loops *)

Lemma neon_rounds_value x first ek : neon_rounds x first ek = SlowX86.ten_aesenc (bxor x first) ek.
Proof.
  cbv beta zeta delta [neon_rounds SlowX86.ten_aesenc vaeseq_u8 vaesmcq_u8 SlowX86._mm_aesenc_si128 aes_round veorq_u8 AddRoundKey bxor].
  reflexivity.
Qed.

Section NeonLoops.
Context (key : bytes) (Hkey : is_bytes_n 32 key).

Lemma neon_text T : text_ok T -> neon_pseudo_round (mjoin T) (neon_expand_key key) 8 = mjoin (encrypt10 key <$> T).
Proof using Hkey.
  intros HT. rewrite neon_schedule by done. unfold neon_pseudo_round, AES_BLOCK_SIZE.
  refine (proj1 (map_text _ _ T HT _ _)); [|intros; by apply encrypt10_block].
  intros T' j HT' Hj. cbv zeta. rewrite (Z.mul_comm _ 16). destruct (load_block T' j HT' Hj) as [-> HB].
  rewrite neon_rounds_value, xor_zero, hw_rounds by done. by apply store_block; [| |apply encrypt10_block].
Qed.

Lemma neon_absorb_ok M n T i : are_blocks M -> length M = (8 * n)%nat -> text_ok T -> (i < n)%nat ->
  neon_absorb (neon_expand_key key) (mjoin M) (mjoin T) i = mjoin (implode_step key M T i) /\ text_ok (implode_step key M T i).
Proof using Hkey.
  intros HM HL HT Hi. rewrite neon_schedule by done.
  assert (E : neon_absorb (SlowX86.aes_expand_key key) (mjoin M) (mjoin T) i = SlowX86.absorb_hw (SlowX86.aes_expand_key key) (mjoin M) (mjoin T) i).
  { unfold neon_absorb, SlowX86.absorb_hw, neon_pseudo_round_xor, SlowX86.aes_pseudo_round_xor.
    apply foldl_seq_ext. intros t j _. cbv zeta. by rewrite neon_rounds_value. }
  rewrite E. by eapply x86_absorb_hw.
Qed.
End NeonLoops.

(** ** NEON iterations *)

#[local] Opaque aes_round.

Lemma neon_aes x a : is_block x -> veorq_u8 (vaesmcq_u8 (vaeseq_u8 x zero)) a = aes_round x a.
Proof.
  intros Hx. unfold vaeseq_u8, vaesmcq_u8. change (AddRoundKey x zero) with (bxor x zero). by rewrite xor_zero.
Qed.

Lemma neon_math variant dbl b c div sqrt : is_u64 b.1 -> is_u64 b.2 -> is_u64 c.1 -> is_u64 c.2 -> is_u64 div ->
  neon_integer_math variant dbl b c div sqrt =
  let '(b0, div', sqrt') := SlowX86.VARIANT2_INTEGER_MATH_SSE2 variant b.1 c div sqrt in ((b0, b.2), div', sqrt').
Proof.
  intros Hb1 Hb2 Hc1 Hc2 Hd. unfold neon_integer_math. rewrite portable_math by apply pack_block.
  pose proof (x86_math variant (pack b) (pack c) div sqrt (pack_block b) Hd) as H.
  destruct (math _ _ _ _ _) as [[y dv] sq]. destruct H as [H1 H2].
  rewrite !lo64_pack, !hi64_pack, !wrap_small in H1 by done. rewrite hi64_pack, wrap_small in H2 by done. destruct c as [c1 c2]. cbn [fst snd] in *.
  rewrite H1, <- H2. done.
Qed.

Section Neon.
Context (k : Z) (Hk : 2 <= k) (variant tweak : Z) (dbl : bool).

(** An iteration is that of the x86-64 version. *)
Lemma neon_step v s : cn_ok k s -> x86_rel variant v s ->
  neon_iteration (16 * 2 ^ k) variant dbl tweak v = SlowX86.iteration (16 * 2 ^ k) variant true tweak v.
Proof using Hk.
  intros Hs Hrel. destruct v as [m a b b1 dv sq], Hrel as [Em Ea Eb Eb1 Ed Eq]. cbn in Em, Ea, Eb, Eb1, Ed, Eq. subst m a b dv sq.
  unfold neon_iteration, SlowX86.iteration. cbn [SlowX86.v_hp SlowX86.v_a]. rewrite (x86_index k) by (lia || apply Hs).
  rewrite pack_halves by apply Hs. rewrite neon_aes.
  2: { rewrite ld128_block; [|apply Hs|rewrite (ok_size k s Hs); apply block_index_lt, size_pos; lia].
       apply are_blocks_lookup; [apply Hs|rewrite (ok_size k s Hs); apply block_index_lt, size_pos; lia]. }
  pose proof (x86_aes k Hk variant true s Hs) as EA. cbv zeta in EA. unfold SlowX86._mm_aesenc_si128 in *. rewrite EA.
  unfold neon_post_aes, SlowX86.post_aes. change VARIANT2_SHUFFLE_ADD_NEON with SlowX86.VARIANT2_SHUFFLE_ADD_SSE2.
  change veorq_u8 with SlowX86._mm_xor_si128. rewrite (x86_half k Hk variant s b1 Hs Eb1).
  destruct (half_step_ok k Hk variant s Hs) as (HM & HL & Hc). destruct (half_step k variant s) as [M c]. cbn [fst snd] in *.
  rewrite !ld64_lo, !ld64_hi. rewrite (x86_index k) by (lia || done).
  assert (Hj : (block_index (size k) c < length M)%nat) by (rewrite HL; apply block_index_lt, size_pos; lia).
  destruct (ld64_both M _ HM Hj) as [-> ->]. pose proof (are_blocks_lookup M _ HM Hj) as [Bj _].
  rewrite neon_math; [|by apply lo64_word|by apply hi64_word|apply lo64_word, Hc|apply hi64_word, Hc|apply Hs]. cbn [fst snd].
  destruct (SlowX86.VARIANT2_INTEGER_MATH_SSE2 _ _ _ _ _) as [[b0 dv'] sq']. reflexivity.
Qed.

Lemma neon_steps n v s : cn_ok k s -> x86_rel variant v s ->
  Nat.iter n (neon_iteration (16 * 2 ^ k) variant dbl tweak) v = Nat.iter n (SlowX86.iteration (16 * 2 ^ k) variant true tweak) v.
Proof using Hk.
  intros Hs Hv. induction n as [|n IH]; [done|]. cbn [Nat.iter nat_rect]. unfold Nat.iter in IH. rewrite IH.
  apply (neon_step _ (Nat.iter n (cn_step (size k) variant tweak) s)); [by apply cn_steps_ok|by apply x86_steps].
Qed.
End Neon.

(** ** Products of the software version *)

Lemma ld32_word x o : is_bytes x -> is_u32 (ld32 x o).
Proof.
  intros Hx. unfold ld32. pose proof (le_bound (take 4 (drop o x)) (Forall_take _ _ _ (Forall_drop _ _ _ Hx))) as B. rewrite length_take in B.
  split; [lia|]. eapply Z.lt_le_trans; [apply B|]. change (2 ^ 32) with (256 ^ 4). apply Z.pow_le_mono_r; lia.
Qed.

Lemma lo64_words x : is_block x -> lo64 x = ld32 x 0 + 2 ^ 32 * ld32 x 4.
Proof.
  intros [Hx Lx]. unfold lo64, ld32. rewrite drop_0. pose proof (take_take_drop x 4 4) as E. cbn [Nat.add] in E. rewrite <- E, le_app.
  rewrite length_take, Lx. done.
Qed.

Section Product.
Context (c y : bytes) (Hc : is_block c) (Hy : is_block y).

(** The result from its four words. *)
Lemma product_from r0 r1 r2 r3 : is_u32 r0 -> is_u32 r1 -> is_u32 r2 -> is_u32 r3 ->
  r2 + 2 ^ 32 * r3 + 2 ^ 64 * (r0 + 2 ^ 32 * r1) = lo64 c * lo64 y ->
  le_bytes 4 r0 ++ le_bytes 4 r1 ++ le_bytes 4 r2 ++ le_bytes 4 r3 = product c y.
Proof using.
  intros H0 H1 H2 H3 E. rewrite app_assoc, !le_bytes_words by done. unfold product, pack. cbn [fst snd]. rewrite <- E.
  unfold is_word in *. rewrite (Z.mul_comm (2 ^ 64)), Z.div_add, Z.mod_add by lia. rewrite Z.div_small, Z.mod_small by lia. done.
Qed.

Lemma mul_c_value : mul_c c y = product c y.
Proof using Hc Hy.
  unfold mul_c. pose proof (ld32_word c 0 (proj1 Hc)) as Ha. pose proof (ld32_word c 4 (proj1 Hc)) as HA.
  pose proof (ld32_word y 0 (proj1 Hy)) as Hb. pose proof (ld32_word y 4 (proj1 Hy)) as HB. pose proof (lo64_words c Hc) as Ec. pose proof (lo64_words y Hy) as Ey.
  set (a := ld32 c 0) in *. set (A := ld32 c 4) in *. set (b := ld32 y 0) in *. set (B := ld32 y 4) in *. unfold is_word in *.
  assert (P0 : 0 <= a * b <= (2 ^ 32 - 1) * (2 ^ 32 - 1)) by nia. assert (P1 : 0 <= a * B <= (2 ^ 32 - 1) * (2 ^ 32 - 1)) by nia.
  assert (P2 : 0 <= A * b <= (2 ^ 32 - 1) * (2 ^ 32 - 1)) by nia. assert (P3 : 0 <= A * B <= (2 ^ 32 - 1) * (2 ^ 32 - 1)) by nia.
  assert (EP : lo64 c * lo64 y = a * b + 2 ^ 32 * (a * B + A * b) + 2 ^ 64 * (A * B)) by (rewrite Ec, Ey; ring).
  generalize dependent (a * b). generalize dependent (a * B). generalize dependent (A * b). generalize dependent (A * B).
  intros p3 P3 p2 P2 p1 P1 p0 P0 EP. rewrite !Z.shiftr_div_pow2 by lia.
  rewrite (wrap_small 64 p0), (wrap_small 64 p1), (wrap_small 64 p2), (wrap_small 64 p3) by (split; lia). unfold u32, wrap.
  pose proof (Z.div_mod p0 (2 ^ 32) ltac:(lia)). pose proof (Z.mod_pos_bound p0 (2 ^ 32) ltac:(lia)).
  pose proof (Z.div_mod p2 (2 ^ 32) ltac:(lia)). pose proof (Z.mod_pos_bound p2 (2 ^ 32) ltac:(lia)).
  set (h0 := p0 / 2 ^ 32) in *. set (m0 := p0 mod 2 ^ 32) in *. set (h2 := p2 / 2 ^ 32) in *. set (m2 := p2 mod 2 ^ 32) in *.
  rewrite (Z.mod_small (p1 + h0)), (Z.mod_small (p1 + h0 + m2)) by lia. set (q := p1 + h0 + m2) in *.
  pose proof (Z.div_mod q (2 ^ 32) ltac:(lia)). pose proof (Z.mod_pos_bound q (2 ^ 32) ltac:(lia)).
  set (hq := q / 2 ^ 32) in *. set (mq := q mod 2 ^ 32) in *. rewrite (Z.mod_small (p3 + hq)), (Z.mod_small (p3 + hq + h2)) by lia.
  set (w := p3 + hq + h2) in *. pose proof (Z.div_mod w (2 ^ 32) ltac:(lia)). pose proof (Z.mod_pos_bound w (2 ^ 32) ltac:(lia)).
  apply product_from; unfold is_word; lia.
Qed.

Lemma mul_arm32_value : mul_arm32 c y = product c y.
Proof using Hc Hy.
  unfold mul_arm32, umull, umlal. pose proof (ld32_word c 0 (proj1 Hc)) as Ha. pose proof (ld32_word c 4 (proj1 Hc)) as HA.
  pose proof (ld32_word y 0 (proj1 Hy)) as Hb. pose proof (ld32_word y 4 (proj1 Hy)) as HB. pose proof (lo64_words c Hc) as Ec. pose proof (lo64_words y Hy) as Ey.
  set (a := ld32 c 0) in *. set (A := ld32 c 4) in *. set (b := ld32 y 0) in *. set (B := ld32 y 4) in *. unfold is_word in *.
  assert (P0 : 0 <= a * b <= (2 ^ 32 - 1) * (2 ^ 32 - 1)) by nia. assert (P1 : 0 <= a * B <= (2 ^ 32 - 1) * (2 ^ 32 - 1)) by nia.
  assert (P2 : 0 <= A * b <= (2 ^ 32 - 1) * (2 ^ 32 - 1)) by nia. assert (P3 : 0 <= A * B <= (2 ^ 32 - 1) * (2 ^ 32 - 1)) by nia.
  assert (EP : lo64 c * lo64 y = a * b + 2 ^ 32 * (a * B + A * b) + 2 ^ 64 * (A * B)) by (rewrite Ec, Ey; ring).
  generalize dependent (a * b). generalize dependent (a * B). generalize dependent (A * b). generalize dependent (A * B).
  intros p3 P3 p2 P2 p1 P1 p0 P0 EP. rewrite Z.lxor_nilpotent, !Z.shiftl_0_l, !Z.add_0_r, !Z.shiftr_div_pow2 by lia. unfold u32, wrap.
  pose proof (Z.div_mod p0 (2 ^ 32) ltac:(lia)). pose proof (Z.mod_pos_bound p0 (2 ^ 32) ltac:(lia)).
  set (h0 := p0 / 2 ^ 32) in *. set (m0 := p0 mod 2 ^ 32) in *. rewrite (Z.mod_small (h0 + p1) (2 ^ 64)) by lia. set (q := h0 + p1) in *.
  pose proof (Z.div_mod q (2 ^ 32) ltac:(lia)). pose proof (Z.mod_pos_bound q (2 ^ 32) ltac:(lia)).
  set (hq := q / 2 ^ 32) in *. set (mq := q mod 2 ^ 32) in *. rewrite (Z.mod_small (mq + p2) (2 ^ 64)) by lia. set (z := mq + p2) in *.
  pose proof (Z.div_mod z (2 ^ 32) ltac:(lia)). pose proof (Z.mod_pos_bound z (2 ^ 32) ltac:(lia)).
  set (hz := z / 2 ^ 32) in *. set (mz := z mod 2 ^ 32) in *. rewrite (Z.mod_small (hq + p3) (2 ^ 64)) by lia. set (w := hq + p3) in *.
  pose proof (Z.div_mod w (2 ^ 32) ltac:(lia)). pose proof (Z.mod_pos_bound w (2 ^ 32) ltac:(lia)).
  set (hw := w / 2 ^ 32) in *. set (mw := w mod 2 ^ 32) in *.
  destruct (Z.leb_spec (2 ^ 32) (mw + hz)) as [Hcarry|Hcarry].
  - assert (E : (mw + hz) mod 2 ^ 32 = mw + hz - 2 ^ 32) by (symmetry; apply (Z.mod_unique _ _ 1); lia).
    rewrite E, (Z.mod_small (hw + 1)) by lia. apply product_from; unfold is_word; lia.
  - rewrite (Z.mod_small (mw + hz)), (Z.mod_small (hw + 0)) by lia. apply product_from; unfold is_word; lia.
Qed.

Lemma mul_value how : mul how c y = product c y.
Proof using Hc Hy. destruct how; [apply mul_c_value|done|apply mul_arm32_value]. Qed.
End Product.

(** ** Iterations of the software version *)

Lemma soft_offset k x : 0 <= k <= 28 -> is_block x -> soft_index (16 * 2 ^ k) x = 16 * Z.of_nat (block_index (size k) x).
Proof.
  intros Hk Hx. rewrite <- (portable_index k) by (lia || apply Hx). unfold soft_index, MASK, SlowPortable.block_of, SlowPortable.e2i, AES_BLOCK_SIZE.
  rewrite (Z.mul_comm 16 (2 ^ k)), Z.div_mul, ld64_lo by lia. pose proof (ld32_word x 0 (proj1 Hx)) as H0. pose proof (ld32_word x 4 (proj1 Hx)) as H4.
  rewrite (lo64_words x Hx). set (p := ld32 x 0) in *. set (q := ld32 x 4) in *. pose proof (Z.pow_pos_nonneg 2 k ltac:(lia) ltac:(lia)) as Pk.
  assert (Pk2 : 2 ^ k <= 2 ^ 28) by (apply Z.pow_le_mono_r; lia).
  rewrite wrap_small by (rewrite Z.shiftl_mul_pow2 by lia; split; lia).
  replace (2 ^ k - 1) with (Z.ones k) by (rewrite Z.ones_equiv; lia).
  change 16 with (2 ^ 4). rewrite <- Z.shiftr_div_pow2, <- Z.shiftl_mul_pow2 by lia. unfold is_word in *.
  assert (EL : p + 2 ^ 32 * q = p .| (q .<< 32)) by (rewrite lor_shiftl_add by (done || lia); ring). rewrite EL.
  apply Z.bits_inj'. intros n Hn. rewrite Z.land_spec. destruct (Z.ltb_spec n 4) as [Hn4|Hn4].
  - rewrite !Z.shiftl_spec_low by lia. apply andb_false_r.
  - rewrite !Z.shiftl_spec_high by lia. rewrite Z.land_spec, Z.shiftr_spec, Z.lor_spec by lia. replace (n - 4 + 4) with n by lia.
    destruct (Z.ltb_spec (n - 4) k) as [Hnk|Hnk].
    + rewrite Z.ones_spec_low by lia. rewrite (Z.shiftl_spec_low q 32) by lia. by rewrite orb_false_r.
    + rewrite Z.ones_spec_high by lia. by rewrite !andb_false_r.
Qed.

Lemma shuffle_self variant a b b1 i c (M : list bytes) :
  shuffle variant a b b1 i (<[i := c]> M) = <[i := c]> (shuffle variant a b b1 i M).
Proof.
  unfold shuffle. destruct (2 <=? variant); [|done].
  assert (N : forall n, 0 < n -> near i n <> i) by (intros n Hn; rewrite <- (near_0 i) at 2; apply near_ne; lia).
  rewrite !list_lookup_total_insert_ne by (apply not_eq_sym, N; lia).
  rewrite !(list_insert_insert_ne _ i (near i _)) by (apply not_eq_sym, N; lia). done.
Qed.

Lemma xor_words x y : is_block x -> is_block y -> SlowX86.xor_blocks x 0 y = bxor x y.
Proof.
  intros Hx Hy. pose proof (x86_xor_blocks_at [x] 0 y ltac:(by repeat constructor; apply Hx) ltac:(cbn; lia) Hy) as E.
  cbn [lookup_total list_lookup_total insert list_insert] in E. rewrite !mjoin_cons in E. change (mjoin []) with ([] : bytes) in E.
  rewrite !app_nil_r in E. exact E.
Qed.

Lemma xor_first b t (M : list bytes) j : is_block b -> are_blocks M -> (j < length M)%nat ->
  SlowX86.xor_blocks (mjoin M) (16 * Z.of_nat j) (b ++ t) = mjoin (<[j := bxor (M !!! j) b]> M).
Proof.
  intros Hb HM Hj. rewrite <- x86_xor_blocks_at by done. unfold SlowX86.xor_blocks.
  assert (E : forall o, (o <= 8)%nat -> ld64 (b ++ t) (Z.of_nat o) = ld64 b (Z.of_nat o)).
  { intros o Ho. pose proof (is_block_length _ Hb). unfold ld64. rewrite Nat2Z.id, drop_app_le, take_app_le by (rewrite ?length_drop; lia). done. }
  pose proof (E 0%nat ltac:(lia)) as E0. pose proof (E 8%nat ltac:(lia)) as E8. change (Z.of_nat 0) with 0 in E0. change (Z.of_nat 8) with 8 in E8.
  by rewrite E0, E8.
Qed.

Lemma tweak_words variant z t : is_block z ->
  SlowX86.VARIANT1_2 variant z 8 t = if variant =? 1 then bxor z (pack (0, t)) else z.
Proof.
  intros Hz. unfold SlowX86.VARIANT1_2, SlowX86.xor64. destruct (variant =? 1); [|done].
  rewrite (proj2 (st64_halves z _ Hz)), ld64_hi. rewrite <- (pack_halves z Hz) at 3. by rewrite bxor_pack, Z.lxor_0_r.
Qed.

Section Soft.
Context (k : Z) (Hk : 2 <= k <= 28) (variant tweak : Z) (dbl : bool) (how : multiplier).

Lemma soft_exchange M j d : are_blocks M -> Z.of_nat (length M) = 2 ^ k -> (j < length M)%nat -> is_block d ->
  VARIANT2_2_soft variant (mjoin M) (16 * Z.of_nat j) d = (mjoin (exchange variant j M d).1, (exchange variant j M d).2).
Proof using Hk.
  intros HM HL Hj Hd. unfold VARIANT2_2_soft, exchange. destruct (2 <=? variant); [|done]. destruct (offsets j) as (-> & -> & _). cbn [fst snd].
  pose proof (near_in k (proj1 Hk) M j HL Hj 1 ltac:(lia)) as I1. pose proof (near_in k (proj1 Hk) M j HL Hj 2 ltac:(lia)) as I2.
  rewrite x86_xor_blocks_at by done. assert (HB : are_blocks (<[near j 1 := bxor (M !!! near j 1) d]> M)).
  { apply are_blocks_insert; [done|]. apply bxor_block; [by apply are_blocks_lookup|done]. }
  rewrite ld128_block by (done || by rewrite length_insert). rewrite xor_words; [done|done|]. apply are_blocks_lookup; [done|by rewrite length_insert].
Qed.

Lemma soft_half s t : cn_ok k s -> is_block t -> (2 <= variant -> t = cn_b1 s) ->
  let j := soft_index (16 * 2 ^ k) (cn_a s) in
  let m := st128 (mjoin (scratch s)) j (aesb_single_round (ld128 (mjoin (scratch s)) j) (cn_a s)) in
  ld128 m j = (half_step k variant s).2 /\
  VARIANT1_1 variant (SlowX86.xor_blocks (SlowPortable.VARIANT2_PORTABLE_SHUFFLE_ADD variant (cn_a s) (cn_b s ++ t) m j) j (cn_b s ++ t)) j
  = mjoin (half_step k variant s).1.
Proof using Hk.
  intros Hs Ht Htb. pose proof (x86_aes k (proj1 Hk) variant false s Hs) as EA. cbv zeta in EA |- *.
  destruct (half_step_ok k (proj1 Hk) variant s Hs) as (_ & _ & Hc). destruct Hs as [HM HL Ha Hb Hb1 Hd].
  rewrite soft_offset by (done || lia). rewrite EA. unfold half_step in *. set (i := block_index _ _) in *. cbn [fst snd] in *. set (c := aes_round _ _) in *.
  assert (Hi : (i < length (scratch s))%nat) by (rewrite HL; apply block_index_lt, size_pos; lia).
  rewrite st128_block by (done || by apply is_block_length). set (M1 := <[i := c]> (scratch s)).
  assert (H1 : are_blocks M1) by (by apply are_blocks_insert). assert (L1 : length M1 = length (scratch s)) by apply length_insert.
  assert (HL1 : Z.of_nat (length M1) = 2 ^ k) by (rewrite L1, HL; apply size_pow; lia).
  rewrite ld128_block by (done || lia). unfold M1 at 1. rewrite list_lookup_total_insert_eq by done. split; [done|].
  rewrite (portable_shuffle k (proj1 Hk) variant M1 i H1 HL1 ltac:(lia) _ _ (cn_b1 s)) by (done || by apply is_block_length).
  destruct (shuffle_ok variant M1 i H1 (cn_a s) (cn_b s) (cn_b1 s)) as [HS LS]. rewrite xor_first by (done || lia).
  unfold M1 in *. rewrite !shuffle_self in *. set (M2 := shuffle _ _ _ _ _ _) in *. rewrite length_insert in LS.
  rewrite list_lookup_total_insert_eq, list_insert_insert_eq, (bxor_comm c) by lia.
  rewrite variant1_block; [|apply are_blocks_insert; [|by apply bxor_block]|rewrite length_insert; lia].
  - by rewrite list_lookup_total_insert_eq, list_insert_insert_eq by lia.
  - destruct (shuffle_ok variant _ i HM (cn_a s) (cn_b s) (cn_b1 s)). done.
Qed.

Lemma soft_step v s : cn_ok k s -> portable_rel variant v s ->
  portable_rel variant (soft_iteration (16 * 2 ^ k) variant dbl how tweak v) (cn_step (size k) variant tweak s).
Proof using Hk.
  intros Hs Hrel. destruct v as [m a b dv sq], Hrel as [Em Ea (t & Eb & Ht & Htb) Ed Eq]. cbn in Em, Ea, Eb, Ed, Eq. subst m a b dv sq.
  destruct (soft_half s t Hs Ht Htb) as [Ec EM]. cbv zeta in Ec, EM. rewrite cn_step_half.
  destruct (half_step_ok k (proj1 Hk) variant s Hs) as (HM & HL & Hc). destruct Hs as [_ _ Ha Hb Hb1 Hd].
  unfold soft_iteration. rewrite EM, Ec. destruct (half_step k variant s) as [M c]. cbn [fst snd] in *. clear EM Ec.
  rewrite soft_offset by (done || lia). set (j := block_index _ c).
  assert (Hj : (j < length M)%nat) by (rewrite HL; apply block_index_lt, size_pos; lia).
  assert (HL' : Z.of_nat (length M) = 2 ^ k) by (rewrite HL; apply size_pow; lia).
  pose proof (are_blocks_lookup M j HM Hj) as Bj. rewrite ld128_block by done. rewrite portable_math by done.
  pose proof (math_ok variant (M !!! j) c (cn_div s) (cn_sqrt s) Bj) as Hy. destruct (math _ _ _ _ _) as [[y dv] sq]. destruct Hy as [Hy _].
  rewrite mul_value by done. rewrite soft_exchange by (done || apply pack_block).
  pose proof (exchange_ok k (proj1 Hk) variant M j HM HL' Hj (product c y) (pack_block _)) as HE.
  destruct (exchange _ _ _ _) as [M' d]. cbn [fst snd]. destruct HE as (HM' & HLM & Hd').
  rewrite (portable_shuffle k (proj1 Hk) variant M' j HM' ltac:(congruence) ltac:(lia) _ _ (cn_b1 s)) by (done || by apply is_block_length).
  destruct (shuffle_ok variant M' j HM' (cn_a s) (cn_b s) (cn_b1 s)) as [HS LS]. set (M2 := shuffle _ _ _ _ _ _) in *.
  rewrite sum_value by done. set (z := badd (cn_a s) d). assert (Hz : is_block z) by apply badd_block.
  rewrite (swap_value z y) by done. rewrite xor_words, tweak_words by done. set (w := if variant =? 1 then _ else z).
  assert (Hw : is_block w) by (subst w; destruct (variant =? 1); [apply bxor_block; [done|apply pack_block]|done]).
  unfold SlowPortable.copy_block at 1. rewrite (take_ge w 16) by (rewrite is_block_length by done; lia).
  rewrite st128_block by (done || lia || by apply is_block_length).
  split; cbn [SlowPortable.v_long_state SlowPortable.v_a SlowPortable.v_b SlowPortable.v_division_result SlowPortable.v_sqrt_result
    scratch cn_a cn_b cn_b1 cn_div cn_sqrt]; [done|apply bxor_comm| |done..].
  destruct (Z.leb_spec 2 variant) as [Hv|Hv].
  - exists (cn_b s). rewrite (proj1 (copy_pair _ t c Hb Ht Hc)). by rewrite (proj2 (copy_pair _ (cn_b s) c Hb Hb Hc)).
  - exists t. rewrite (proj2 (copy_pair _ t c Hb Ht Hc)). split_and!; [done|done|lia].
Qed.

Lemma soft_steps n v s : cn_ok k s -> portable_rel variant v s ->
  portable_rel variant (Nat.iter n (soft_iteration (16 * 2 ^ k) variant dbl how tweak) v) (Nat.iter n (cn_step (size k) variant tweak) s).
Proof using Hk.
  intros Hs Hv. induction n as [|n IH]; [done|]. cbn [Nat.iter nat_rect]. apply soft_step; [|done]. apply cn_steps_ok; [lia|done].
Qed.
End Soft.

(** ** The ARM versions *)

Lemma set_b_value b0 w2 w3 : is_bytes_n 32 b0 -> set_b b0 w2 w3 = take 16 b0 ++ pack (w2, w3).
Proof.
  intros [Bb Lb]. set (B := [take 16 b0; drop 16 b0]).
  assert (HB : are_blocks B).
  { apply list.Forall_cons. split; [split; [by apply Forall_take|rewrite length_take; lia]|]. apply list.Forall_cons. split; [|constructor].
    split; [by apply Forall_drop|rewrite length_drop; lia]. }
  assert (EB : b0 = mjoin B) by (unfold B; rewrite !mjoin_cons; change (mjoin []) with ([] : bytes); by rewrite app_nil_r, take_drop).
  unfold set_b. rewrite EB at 1. pose proof (two_stores B 1 w2 w3 HB ltac:(cbn; lia)) as E. change (16 * Z.of_nat 1) with 16 in E. change (16 + 8) with 24 in E.
  rewrite E. unfold B. cbn [insert list_insert]. rewrite !mjoin_cons. change (mjoin []) with ([] : bytes). by rewrite app_nil_r.
Qed.

Lemma soft_start k variant state b0 : is_bytes_n 200 state -> is_bytes_n 32 b0 ->
  let '(b2, b3, division_result, sqrt_result) := SlowX86.VARIANT2_INIT64 variant b0 state in
  portable_rel variant (SlowPortable.mkvars (fill_start k variant state) (pack (SlowX86.xor_k state 0))
    (memcpy (if 2 <=? variant then set_b b0 b2 b3 else b0) 0 (pack (SlowX86.xor_k state 16))) division_result sqrt_result)
    (cn_init (size k) variant state).
Proof.
  intros Hst Hb0. pose proof (x86_start k variant state Hst b0) as HX. pose proof (part_xor state Hst 0 2 ltac:(lia) ltac:(lia)) as P0.
  cbn [Nat.mul Nat.add] in P0.
  assert (HB : is_block (cn_b (cn_init (size k) variant state))) by (apply bxor_block; apply part_block; (done || lia)).
  destruct (SlowX86.VARIANT2_INIT64 variant b0 state) as [[[b2 b3] dv] sq]. destruct HX as [_ _ EB EB1 ED EQ].
  cbn [SlowX86.v_b SlowX86.v_b1 SlowX86.v_division_result SlowX86.v_sqrt_result] in EB, EB1, ED, EQ. rewrite EB.
  assert (EM : forall x y, is_block x -> memcpy (x ++ y) 0 (cn_b (cn_init (size k) variant state)) = cn_b (cn_init (size k) variant state) ++ y).
  { intros x y [_ Lx]. unfold memcpy. rewrite take_0, app_nil_l, Nat.add_0_l, (is_block_length _ HB), drop_app_length' by done. done. }
  destruct Hb0 as [Bb Lb]. assert (H0 : is_block (take 16 b0)) by (split; [by apply Forall_take|rewrite length_take; lia]).
  split; cbn [SlowPortable.v_long_state SlowPortable.v_a SlowPortable.v_b SlowPortable.v_division_result SlowPortable.v_sqrt_result];
    [done|symmetry; exact P0| |done|done].
  destruct (Z.leb_spec 2 variant) as [Hv|Hv].
  - exists (pack (b2, b3)). rewrite set_b_value, EM by done. split_and!; [done|apply pack_block|done].
  - exists (drop 16 b0). rewrite <- (take_drop 16 b0) at 1. rewrite EM by done. split_and!; [done| |lia]. split; [by apply Forall_drop|rewrite length_drop; lia].
Qed.

Section Versions.
Context (k : Z) (Hk : 3 <= k) (variant : Z) (iter : nat) (groestl jh skein : bytes -> bytes).
Context (e : env) (He : env_ok e) (data : bytes) (Hd : is_bytes data) (prehashed : bool) (dbl : bool).
Context (Hm : length (scratchpad e) = (16 * size k)%nat).

Lemma neon_value : neon_slow_hash (16 * 2 ^ k) iter variant dbl groestl jh skein e data prehashed =
  cryptonight (size k) variant iter groestl jh skein e data prehashed.
Proof using Hk He Hd Hm.
  unfold neon_slow_hash, cryptonight. pose proof (start_ok e data prehashed He Hd) as HS.
  destruct (prehashed && _); [by rewrite HS|]. destruct HS as (state & -> & Hst). cbn [mbind option_bind].
  destruct ((variant =? 1) && (length data <? 43)%nat) eqn:EV; [by rewrite tweak64_error|].
  destruct (tweak64_ok variant data state EV) as (tweak & -> & HT). cbn [mbind option_bind]. pose proof (x86_start k variant state Hst (stack_b e)) as HR.
  destruct (SlowX86.VARIANT2_INIT64 _ _ _) as [[[b2 b3] dv] sq]. pose proof (key_bytes state Hst 0 ltac:(lia)) as HK0. rewrite drop_0 in HK0.
  change AES_KEY_SIZE with 32%nat. change (SlowX86.chunks (16 * 2 ^ k)) with (SlowPortable.chunks (16 * 2 ^ k)). destruct (size_chunks k Hk) as [HC ->].
  pose proof (fill_value k Hk variant _ (neon_fill (neon_expand_key (take 32 state))) state (scratchpad e) Hst Hm (fun _ _ _ => eq_refl) (neon_text (take 32 state) HK0)) as EF.
  destruct (foldl _ _ _) as [m text]. cbn [fst] in EF. subst m. pose proof (cn_init_ok k Hk variant state Hst) as HI.
  rewrite (neon_steps k ltac:(lia) variant tweak dbl (iter / 2) _ _ HI HR).
  pose proof (x86_steps k ltac:(lia) variant tweak true (iter / 2) _ _ HI HR) as Hv. rewrite (tweak_iter variant data state) in Hv by done.
  set (v := Nat.iter _ (SlowX86.iteration _ _ _ _) _) in *. clearbody v.
  pose proof (cn_steps_ok k ltac:(lia) variant (tweak_of data state) (iter / 2) _ HI) as Hs.
  apply (f_equal (fun t => Some (finish groestl jh skein e state t))). unfold cn_text. cbv zeta. fold (tweak_of data state).
  set (c := Nat.iter _ _ _) in *. clearbody c. rewrite (xrel_mem _ _ _ Hv). apply absorb_value; [done|done|done|].
  intros T i HT' Hi. eapply neon_absorb_ok; [by apply key_bytes; [|lia]|apply Hs| |done|exact Hi]. by rewrite (ok_size k c Hs).
Qed.

Lemma soft_value how : k <= 28 -> soft_slow_hash (16 * 2 ^ k) iter variant dbl how groestl jh skein e data prehashed =
  cryptonight (size k) variant iter groestl jh skein e data prehashed.
Proof using Hk He Hd Hm.
  intros Hk'. unfold soft_slow_hash, cryptonight. pose proof (start_ok e data prehashed He Hd) as HS.
  destruct (prehashed && _); [by rewrite HS|]. destruct HS as (state & -> & Hst). cbn [mbind option_bind].
  destruct (alloc_ok e He) as [ctx ->]. rewrite (ok_keys e He). cbn [fst snd].
  pose proof (key_bytes state Hst 0 ltac:(lia)) as HK0. rewrite drop_0 in HK0. change AES_KEY_SIZE with 32%nat.
  destruct (import_ok ctx (take 32 state) HK0) as [ctx' ->]. cbn [mbind option_bind].
  destruct ((variant =? 1) && (length data <? 43)%nat) eqn:EV; [by rewrite tweak64_error|].
  destruct (tweak64_ok variant data state EV) as (tweak & -> & HT). cbn [mbind option_bind].
  pose proof (soft_start k variant state (stack_b e) Hst (ok_stack_b e He)) as HR. destruct (SlowX86.VARIANT2_INIT64 _ _ _) as [[[b2 b3] dv] sq].
  change (SlowX86.chunks (16 * 2 ^ k)) with (SlowPortable.chunks (16 * 2 ^ k)). destruct (size_chunks k Hk) as [HC ->].
  pose proof (x86_fill k Hk variant state false (scratchpad e) ctx' Hst Hm) as EF. cbv iota in EF.
  destruct (foldl _ _ _) as [m text]. cbn [fst] in EF. subst m. pose proof (cn_init_ok k Hk variant state Hst) as HI.
  pose proof (soft_steps k ltac:(lia) variant tweak dbl how (iter / 2) _ _ HI HR) as Hv. rewrite (tweak_iter variant data state) in Hv by done.
  set (v := Nat.iter _ (soft_iteration _ _ _ _ _) _) in *. clearbody v.
  destruct (import_ok ctx' _ (key_bytes state Hst 32 ltac:(lia))) as [ctx'' ->]. cbn [mbind option_bind].
  pose proof (cn_steps_ok k ltac:(lia) variant (tweak_of data state) (iter / 2) _ HI) as Hs.
  apply (f_equal (fun t => Some (finish groestl jh skein e state t))). unfold cn_text. cbv zeta. fold (tweak_of data state).
  set (c := Nat.iter _ _ _) in *. clearbody c. rewrite (rel_mem _ _ _ Hv). exact (x86_absorb k Hk state c false ctx'' Hst Hs).
Qed.
End Versions.

(** ** Theorems *)

(** C10: every build finds the same proof of work: the portable version, with the
    square root taken by doubles or by integers; the x86-64 version, with the AES
    instructions or without, whatever the scratchpad of the thread held; and the
    ARM versions, with NEON and AES instructions, or in software with any of
    the three multiplications, return the same hash for every input and every
    variant, or none of them returns.  The scratchpad has 16 * 2^k bytes; the
    source has k = 17. *)
Theorem slow_hash_versions_agree k variant iter groestl jh skein e data prehashed dbl useAes how mapped heap s m :
  3 <= k <= 28 -> env_ok e -> is_bytes data -> length (scratchpad e) = (16 * size k)%nat ->
  SlowX86.hp_state (SlowX86.slow_hash_allocate_state mapped heap s) = Some m -> length m = (16 * size k)%nat ->
  let result := SlowPortable.cn_slow_hash (16 * 2 ^ k) iter variant dbl groestl jh skein e data prehashed in
  fst <$> SlowX86.cn_slow_hash (16 * 2 ^ k) iter variant groestl jh skein e mapped heap useAes s data prehashed = result /\
  neon_slow_hash (16 * 2 ^ k) iter variant dbl groestl jh skein e data prehashed = result /\
  soft_slow_hash (16 * 2 ^ k) iter variant dbl how groestl jh skein e data prehashed = result.
Proof.
  intros [Hk Hk'] He Hd Hl Hs Hm. cbv zeta. rewrite portable_value, neon_value, soft_value by done. split; [|done].
  pose proof (x86_value k Hk variant iter groestl jh skein e He data Hd prehashed useAes mapped heap s m Hs Hm) as H.
  destruct (cryptonight _ _ _ _ _ _ _ _ _); [destruct H as (m' & _ & ->)|rewrite H]; done.
Qed.

Lemma slow_hash_versions_agree_witness :
  fst <$> SlowX86.cn_slow_hash MEMORY ITER 2 (take 32) (take 32) (take 32) (sample_env (16 * size 17)) None
    (Some (replicate (16 * size 17) 8)) true SlowX86.hp_start sample_data false =
  SlowPortable.cn_slow_hash MEMORY ITER 2 false (take 32) (take 32) (take 32) (sample_env (16 * size 17)) sample_data false.
Proof.
  change MEMORY with (16 * 2 ^ 17).
  refine (proj1 (slow_hash_versions_agree 17 2 ITER (take 32) (take 32) (take 32) (sample_env (16 * size 17)) sample_data false false true by_c None
    (Some (replicate (16 * size 17) 8)) SlowX86.hp_start (replicate (16 * size 17) 8) _ _ _ _ _ _));
    [split; discriminate|apply sample_env_ok|apply sample_data_bytes|apply length_replicate|reflexivity|apply length_replicate].
Defined.

(** The three 64-bit products of the software version for ARM, schoolbook in
    C, by instructions, and by the assembly of 32-bit ARM with its carry, are
    the exact 128-bit product of the first words, high word first. *)
Theorem arm_mul_correct how c y : is_block c -> is_block y -> mul how c y = product c y.
Proof. intros Hc Hy. by apply mul_value. Qed.

Lemma arm_mul_correct_witness :
  mul by_arm32 (replicate 16 255) (replicate 16 254) = product (replicate 16 255) (replicate 16 254).
Proof.
  apply (arm_mul_correct by_arm32 (replicate 16 255) (replicate 16 254)); (split; [apply Forall_replicate; by split|reflexivity]).
Defined.
