(* ===== verification/Fe.v ===== *)
(** * Field elements of GF(2^255 - 19): crypto-ops.c, [fe_*]

    An [fe] is ten signed limbs in radix 2^25.5 ([int32_t[10]] in the source,
    a list of ten here).  The arithmetic is over the operations of [CInt], so
    that the machine, the checked, the exact and the interval reading are the
    same text.  A function that writes through its first pointer returns the
    written value. *)

From S2P Require Import Prelude CInt.

(** ** Loads *)

Definition load_3 (b : bytes) (i : nat) : Z :=
  (b !!! i) .| ((b !!! (i + 1)%nat) .<< 8) .| ((b !!! (i + 2)%nat) .<< 16).

Definition load_4 (b : bytes) (i : nat) : Z :=
  (b !!! i) .| ((b !!! (i + 1)%nat) .<< 8) .| ((b !!! (i + 2)%nat) .<< 16)
  .| ((b !!! (i + 3)%nat) .<< 24).

Section Fe.
Context {A : Type} {C : CInt A}.

Definition fe_0 : list A :=
  [lit 0; lit 0; lit 0; lit 0; lit 0; lit 0; lit 0; lit 0; lit 0; lit 0].

Definition fe_1 : list A :=
  [lit 1; lit 0; lit 0; lit 0; lit 0; lit 0; lit 0; lit 0; lit 0; lit 0].

Definition fe_add (f g : list A) : list A :=
  [ limb f 0 [+32] limb g 0; limb f 1 [+32] limb g 1; limb f 2 [+32] limb g 2;
    limb f 3 [+32] limb g 3; limb f 4 [+32] limb g 4; limb f 5 [+32] limb g 5;
    limb f 6 [+32] limb g 6; limb f 7 [+32] limb g 7; limb f 8 [+32] limb g 8;
    limb f 9 [+32] limb g 9 ].

Definition fe_sub (f g : list A) : list A :=
  [ limb f 0 [-32] limb g 0; limb f 1 [-32] limb g 1; limb f 2 [-32] limb g 2;
    limb f 3 [-32] limb g 3; limb f 4 [-32] limb g 4; limb f 5 [-32] limb g 5;
    limb f 6 [-32] limb g 6; limb f 7 [-32] limb g 7; limb f 8 [-32] limb g 8;
    limb f 9 [-32] limb g 9 ].

Definition fe_neg (f : list A) : list A :=
  [ lit 0 [-32] limb f 0; lit 0 [-32] limb f 1; lit 0 [-32] limb f 2; lit 0 [-32] limb f 3;
    lit 0 [-32] limb f 4; lit 0 [-32] limb f 5; lit 0 [-32] limb f 6; lit 0 [-32] limb f 7;
    lit 0 [-32] limb f 8; lit 0 [-32] limb f 9 ].

Definition fe_copy (f : list A) : list A :=
  [ limb f 0; limb f 1; limb f 2; limb f 3; limb f 4; limb f 5; limb f 6; limb f 7;
    limb f 8; limb f 9 ].

(** ** Multiplication and squaring

    [fe_mul_products] and [fe_sq_products] are the schoolbook sums
    [h0 ... h9] on [int64_t]; the 32-bit precomputations by 2, 19 and 38 are
    the source's, each product sits in the sum that uses it. *)

Definition fe_mul_products (f g : list A) : list A :=
  let: f0 := limb f 0 in let: f1 := limb f 1 in let: f2 := limb f 2 in
  let: f3 := limb f 3 in let: f4 := limb f 4 in let: f5 := limb f 5 in
  let: f6 := limb f 6 in let: f7 := limb f 7 in let: f8 := limb f 8 in
  let: f9 := limb f 9 in let: g0 := limb g 0 in let: g1 := limb g 1 in
  let: g2 := limb g 2 in let: g3 := limb g 3 in let: g4 := limb g 4 in
  let: g5 := limb g 5 in let: g6 := limb g 6 in let: g7 := limb g 7 in
  let: g8 := limb g 8 in let: g9 := limb g 9 in
  let: g1_19 := lit 19 [*32] g1 in let: g2_19 := lit 19 [*32] g2 in
  let: g3_19 := lit 19 [*32] g3 in let: g4_19 := lit 19 [*32] g4 in
  let: g5_19 := lit 19 [*32] g5 in let: g6_19 := lit 19 [*32] g6 in
  let: g7_19 := lit 19 [*32] g7 in let: g8_19 := lit 19 [*32] g8 in
  let: g9_19 := lit 19 [*32] g9 in let: f1_2 := lit 2 [*32] f1 in
  let: f3_2 := lit 2 [*32] f3 in let: f5_2 := lit 2 [*32] f5 in
  let: f7_2 := lit 2 [*32] f7 in let: f9_2 := lit 2 [*32] f9 in
  let: h0 := f0 [*] g0 [+] f1_2 [*] g9_19 [+] f2 [*] g8_19 [+] f3_2 [*] g7_19 [+] f4 [*] g6_19
          [+] f5_2 [*] g5_19 [+] f6 [*] g4_19 [+] f7_2 [*] g3_19 [+] f8 [*] g2_19
          [+] f9_2 [*] g1_19 in
  let: h1 := f0 [*] g1 [+] f1 [*] g0 [+] f2 [*] g9_19 [+] f3 [*] g8_19 [+] f4 [*] g7_19
          [+] f5 [*] g6_19 [+] f6 [*] g5_19 [+] f7 [*] g4_19 [+] f8 [*] g3_19 [+] f9 [*] g2_19 in
  let: h2 := f0 [*] g2 [+] f1_2 [*] g1 [+] f2 [*] g0 [+] f3_2 [*] g9_19 [+] f4 [*] g8_19
          [+] f5_2 [*] g7_19 [+] f6 [*] g6_19 [+] f7_2 [*] g5_19 [+] f8 [*] g4_19
          [+] f9_2 [*] g3_19 in
  let: h3 := f0 [*] g3 [+] f1 [*] g2 [+] f2 [*] g1 [+] f3 [*] g0 [+] f4 [*] g9_19
          [+] f5 [*] g8_19 [+] f6 [*] g7_19 [+] f7 [*] g6_19 [+] f8 [*] g5_19 [+] f9 [*] g4_19 in
  let: h4 := f0 [*] g4 [+] f1_2 [*] g3 [+] f2 [*] g2 [+] f3_2 [*] g1 [+] f4 [*] g0
          [+] f5_2 [*] g9_19 [+] f6 [*] g8_19 [+] f7_2 [*] g7_19 [+] f8 [*] g6_19
          [+] f9_2 [*] g5_19 in
  let: h5 := f0 [*] g5 [+] f1 [*] g4 [+] f2 [*] g3 [+] f3 [*] g2 [+] f4 [*] g1 [+] f5 [*] g0
          [+] f6 [*] g9_19 [+] f7 [*] g8_19 [+] f8 [*] g7_19 [+] f9 [*] g6_19 in
  let: h6 := f0 [*] g6 [+] f1_2 [*] g5 [+] f2 [*] g4 [+] f3_2 [*] g3 [+] f4 [*] g2
          [+] f5_2 [*] g1 [+] f6 [*] g0 [+] f7_2 [*] g9_19 [+] f8 [*] g8_19 [+] f9_2 [*] g7_19 in
  let: h7 := f0 [*] g7 [+] f1 [*] g6 [+] f2 [*] g5 [+] f3 [*] g4 [+] f4 [*] g3 [+] f5 [*] g2
          [+] f6 [*] g1 [+] f7 [*] g0 [+] f8 [*] g9_19 [+] f9 [*] g8_19 in
  let: h8 := f0 [*] g8 [+] f1_2 [*] g7 [+] f2 [*] g6 [+] f3_2 [*] g5 [+] f4 [*] g4
          [+] f5_2 [*] g3 [+] f6 [*] g2 [+] f7_2 [*] g1 [+] f8 [*] g0 [+] f9_2 [*] g9_19 in
  let: h9 := f0 [*] g9 [+] f1 [*] g8 [+] f2 [*] g7 [+] f3 [*] g6 [+] f4 [*] g5 [+] f5 [*] g4
          [+] f6 [*] g3 [+] f7 [*] g2 [+] f8 [*] g1 [+] f9 [*] g0 in
  [h0; h1; h2; h3; h4; h5; h6; h7; h8; h9].

Definition fe_sq_products (f : list A) : list A :=
  let: f0 := limb f 0 in let: f1 := limb f 1 in let: f2 := limb f 2 in
  let: f3 := limb f 3 in let: f4 := limb f 4 in let: f5 := limb f 5 in
  let: f6 := limb f 6 in let: f7 := limb f 7 in let: f8 := limb f 8 in
  let: f9 := limb f 9 in
  let: f0_2 := lit 2 [*32] f0 in let: f1_2 := lit 2 [*32] f1 in
  let: f2_2 := lit 2 [*32] f2 in let: f3_2 := lit 2 [*32] f3 in
  let: f4_2 := lit 2 [*32] f4 in let: f5_2 := lit 2 [*32] f5 in
  let: f6_2 := lit 2 [*32] f6 in let: f7_2 := lit 2 [*32] f7 in
  let: f5_38 := lit 38 [*32] f5 in let: f6_19 := lit 19 [*32] f6 in
  let: f7_38 := lit 38 [*32] f7 in let: f8_19 := lit 19 [*32] f8 in
  let: f9_38 := lit 38 [*32] f9 in
  let: h0 := f0 [*] f0 [+] f1_2 [*] f9_38 [+] f2_2 [*] f8_19 [+] f3_2 [*] f7_38
          [+] f4_2 [*] f6_19 [+] f5 [*] f5_38 in
  let: h1 := f0_2 [*] f1 [+] f2 [*] f9_38 [+] f3_2 [*] f8_19 [+] f4 [*] f7_38 [+] f5_2 [*] f6_19 in
  let: h2 := f0_2 [*] f2 [+] f1_2 [*] f1 [+] f3_2 [*] f9_38 [+] f4_2 [*] f8_19
          [+] f5_2 [*] f7_38 [+] f6 [*] f6_19 in
  let: h3 := f0_2 [*] f3 [+] f1_2 [*] f2 [+] f4 [*] f9_38 [+] f5_2 [*] f8_19 [+] f6 [*] f7_38 in
  let: h4 := f0_2 [*] f4 [+] f1_2 [*] f3_2 [+] f2 [*] f2 [+] f5_2 [*] f9_38 [+] f6_2 [*] f8_19
          [+] f7 [*] f7_38 in
  let: h5 := f0_2 [*] f5 [+] f1_2 [*] f4 [+] f2_2 [*] f3 [+] f6 [*] f9_38 [+] f7_2 [*] f8_19 in
  let: h6 := f0_2 [*] f6 [+] f1_2 [*] f5_2 [+] f2_2 [*] f4 [+] f3_2 [*] f3 [+] f7_2 [*] f9_38
          [+] f8 [*] f8_19 in
  let: h7 := f0_2 [*] f7 [+] f1_2 [*] f6 [+] f2_2 [*] f5 [+] f3_2 [*] f4 [+] f8 [*] f9_38 in
  let: h8 := f0_2 [*] f8 [+] f1_2 [*] f7_2 [+] f2_2 [*] f6 [+] f3_2 [*] f5_2 [+] f4 [*] f4
          [+] f9 [*] f9_38 in
  let: h9 := f0_2 [*] f9 [+] f1_2 [*] f8 [+] f2_2 [*] f7 [+] f3_2 [*] f6 [+] f4_2 [*] f5 in
  [h0; h1; h2; h3; h4; h5; h6; h7; h8; h9].

(** The twelve carries that end [fe_mul], [fe_sq] and [fe_sq2]. *)
Definition fe_carry (h : list A) : list A :=
  h
  |> carry 64 (2 ^ 25) 26 0 1
  |> carry 64 (2 ^ 25) 26 4 5
  |> carry 64 (2 ^ 24) 25 1 2
  |> carry 64 (2 ^ 24) 25 5 6
  |> carry 64 (2 ^ 25) 26 2 3
  |> carry 64 (2 ^ 25) 26 6 7
  |> carry 64 (2 ^ 24) 25 3 4
  |> carry 64 (2 ^ 24) 25 7 8
  |> carry 64 (2 ^ 25) 26 4 5
  |> carry 64 (2 ^ 25) 26 8 9
  |> carry_mul 64 (2 ^ 24) 25 19 9 0
  |> carry 64 (2 ^ 25) 26 0 1.

(** [h[i] = h_i]: the store into the [int32_t] array. *)
Definition fe_store (h : list A) : list A :=
  [ cast 32 (limb h 0); cast 32 (limb h 1); cast 32 (limb h 2); cast 32 (limb h 3);
    cast 32 (limb h 4); cast 32 (limb h 5); cast 32 (limb h 6); cast 32 (limb h 7);
    cast 32 (limb h 8); cast 32 (limb h 9) ].

Definition fe_mul (f g : list A) : list A := fe_store (fe_carry (fe_mul_products f g)).

Definition fe_sq (f : list A) : list A := fe_store (fe_carry (fe_sq_products f)).

(** [h_i += h_i] *)
Definition fe_double (h : list A) : list A :=
  [ limb h 0 [+] limb h 0; limb h 1 [+] limb h 1; limb h 2 [+] limb h 2;
    limb h 3 [+] limb h 3; limb h 4 [+] limb h 4; limb h 5 [+] limb h 5;
    limb h 6 [+] limb h 6; limb h 7 [+] limb h 7; limb h 8 [+] limb h 8;
    limb h 9 [+] limb h 9 ].

Definition fe_sq2 (f : list A) : list A :=
  fe_store (fe_carry (fe_double (fe_sq_products f))).

(** ** Inversion: the addition chain for [z^(p-2)] *)

Definition fe_sq_n (n : nat) (f : list A) : list A := Nat.iter n fe_sq f.

Definition fe_invert (z : list A) : list A :=
  let: t0 := fe_sq z in
  let: t1 := fe_sq t0 in
  let: t1 := fe_sq t1 in
  let: t1 := fe_mul z t1 in
  let: t0 := fe_mul t0 t1 in
  let: t2 := fe_sq t0 in
  let: t1 := fe_mul t1 t2 in
  let: t2 := fe_sq t1 in
  let: t2 := fe_sq_n 4 t2 in
  let: t1 := fe_mul t2 t1 in
  let: t2 := fe_sq t1 in
  let: t2 := fe_sq_n 9 t2 in
  let: t2 := fe_mul t2 t1 in
  let: t3 := fe_sq t2 in
  let: t3 := fe_sq_n 19 t3 in
  let: t2 := fe_mul t3 t2 in
  let: t2 := fe_sq t2 in
  let: t2 := fe_sq_n 9 t2 in
  let: t1 := fe_mul t2 t1 in
  let: t2 := fe_sq t1 in
  let: t2 := fe_sq_n 49 t2 in
  let: t2 := fe_mul t2 t1 in
  let: t3 := fe_sq t2 in
  let: t3 := fe_sq_n 99 t3 in
  let: t2 := fe_mul t3 t2 in
  let: t2 := fe_sq t2 in
  let: t2 := fe_sq_n 49 t2 in
  let: t1 := fe_mul t2 t1 in
  let: t1 := fe_sq t1 in
  let: t1 := fe_sq_n 4 t1 in
  fe_mul t1 t0.

(** [u v^3 (u v^7)^((p-5)/8)] *)
Definition fe_divpowm1 (u v : list A) : list A :=
  let: v3 := fe_sq v in
  let: v3 := fe_mul v3 v in
  let: uv7 := fe_sq v3 in
  let: uv7 := fe_mul uv7 v in
  let: uv7 := fe_mul uv7 u in
  let: t0 := fe_sq uv7 in
  let: t1 := fe_sq t0 in
  let: t1 := fe_sq t1 in
  let: t1 := fe_mul uv7 t1 in
  let: t0 := fe_mul t0 t1 in
  let: t0 := fe_sq t0 in
  let: t0 := fe_mul t1 t0 in
  let: t1 := fe_sq t0 in
  let: t1 := fe_sq_n 4 t1 in
  let: t0 := fe_mul t1 t0 in
  let: t1 := fe_sq t0 in
  let: t1 := fe_sq_n 9 t1 in
  let: t1 := fe_mul t1 t0 in
  let: t2 := fe_sq t1 in
  let: t2 := fe_sq_n 19 t2 in
  let: t1 := fe_mul t2 t1 in
  let: t1 := fe_sq_n 10 t1 in
  let: t0 := fe_mul t1 t0 in
  let: t1 := fe_sq t0 in
  let: t1 := fe_sq_n 49 t1 in
  let: t1 := fe_mul t1 t0 in
  let: t2 := fe_sq t1 in
  let: t2 := fe_sq_n 99 t2 in
  let: t1 := fe_mul t2 t1 in
  let: t1 := fe_sq_n 50 t1 in
  let: t0 := fe_mul t1 t0 in
  let: t0 := fe_sq t0 in
  let: t0 := fe_sq t0 in
  let: t0 := fe_mul t0 uv7 in
  let: t0 := fe_mul t0 v3 in
  fe_mul t0 u.

(** ** Canonical bytes

    [fe_quotient] is the quotient [q] of [fe_tobytes], [fe_freeze] the
    subtraction of [q * p] followed by the floor carries. *)

Definition fe_quotient (h : list A) : A :=
  let: q := sar ((lit 19 [*32] limb h 9) [+32] lit (2 ^ 24)) 25 in
  let: q := sar (limb h 0 [+32] q) 26 in
  let: q := sar (limb h 1 [+32] q) 25 in
  let: q := sar (limb h 2 [+32] q) 26 in
  let: q := sar (limb h 3 [+32] q) 25 in
  let: q := sar (limb h 4 [+32] q) 26 in
  let: q := sar (limb h 5 [+32] q) 25 in
  let: q := sar (limb h 6 [+32] q) 26 in
  let: q := sar (limb h 7 [+32] q) 25 in
  let: q := sar (limb h 8 [+32] q) 26 in
  sar (limb h 9 [+32] q) 25.

Definition fe_freeze (h : list A) : list A :=
  let: q := fe_quotient h in
  upd 0 (limb h 0 [+32] (lit 19 [*32] q)) h
  |> carry 32 0 26 0 1
  |> carry 32 0 25 1 2
  |> carry 32 0 26 2 3
  |> carry 32 0 25 3 4
  |> carry 32 0 26 4 5
  |> carry 32 0 25 5 6
  |> carry 32 0 26 6 7
  |> carry 32 0 25 7 8
  |> carry 32 0 26 8 9
  |> carry_out 32 0 25 9.
End Fe.

(** The stores [s[0..31]] into [unsigned char]. *)
Definition fe_bytes (h : list Z) : bytes :=
  [ u8 (limb h 0 .>> 0); u8 (limb h 0 .>> 8); u8 (limb h 0 .>> 16);
    u8 ((limb h 0 .>> 24) .| i32 (limb h 1 .<< 2)); u8 (limb h 1 .>> 6);
    u8 (limb h 1 .>> 14); u8 ((limb h 1 .>> 22) .| i32 (limb h 2 .<< 3));
    u8 (limb h 2 .>> 5); u8 (limb h 2 .>> 13);
    u8 ((limb h 2 .>> 21) .| i32 (limb h 3 .<< 5)); u8 (limb h 3 .>> 3);
    u8 (limb h 3 .>> 11); u8 ((limb h 3 .>> 19) .| i32 (limb h 4 .<< 6));
    u8 (limb h 4 .>> 2); u8 (limb h 4 .>> 10); u8 (limb h 4 .>> 18); u8 (limb h 5 .>> 0);
    u8 (limb h 5 .>> 8); u8 (limb h 5 .>> 16);
    u8 ((limb h 5 .>> 24) .| i32 (limb h 6 .<< 1)); u8 (limb h 6 .>> 7);
    u8 (limb h 6 .>> 15); u8 ((limb h 6 .>> 23) .| i32 (limb h 7 .<< 3));
    u8 (limb h 7 .>> 5); u8 (limb h 7 .>> 13);
    u8 ((limb h 7 .>> 21) .| i32 (limb h 8 .<< 4)); u8 (limb h 8 .>> 4);
    u8 (limb h 8 .>> 12); u8 ((limb h 8 .>> 20) .| i32 (limb h 9 .<< 6));
    u8 (limb h 9 .>> 2); u8 (limb h 9 .>> 10); u8 (limb h 9 .>> 18) ].

Definition fe_tobytes (h : list Z) : bytes := fe_bytes (fe_freeze h).

Definition fe_isnegative (f : list Z) : Z :=
  let s := fe_tobytes f in (s !!! 0%nat) .& 1.

Definition fe_isnonzero (f : list Z) : Z :=
  let s := fe_tobytes f in
  ((foldl Z.lor 0 s - 1) .>> 8) + 1.

(** The assertion of [fe_cmov] on its [unsigned int b]. *)
Definition cmov_assert (b : Z) : bool :=
  (u32 (b - 1) .& u32 (Z.lnot b)) .| (u32 (b - 2) .& u32 (Z.lnot (b - 1))) =? 2 ^ 32 - 1.

Definition fe_cmov (f g : list Z) (b : Z) : list Z :=
  [ i32 (limb f 0 .^ ((limb f 0 .^ limb g 0) .& i32 (- b)));
    i32 (limb f 1 .^ ((limb f 1 .^ limb g 1) .& i32 (- b)));
    i32 (limb f 2 .^ ((limb f 2 .^ limb g 2) .& i32 (- b)));
    i32 (limb f 3 .^ ((limb f 3 .^ limb g 3) .& i32 (- b)));
    i32 (limb f 4 .^ ((limb f 4 .^ limb g 4) .& i32 (- b)));
    i32 (limb f 5 .^ ((limb f 5 .^ limb g 5) .& i32 (- b)));
    i32 (limb f 6 .^ ((limb f 6 .^ limb g 6) .& i32 (- b)));
    i32 (limb f 7 .^ ((limb f 7 .^ limb g 7) .& i32 (- b)));
    i32 (limb f 8 .^ ((limb f 8 .^ limb g 8) .& i32 (- b)));
    i32 (limb f 9 .^ ((limb f 9 .^ limb g 9) .& i32 (- b))) ].
