(* ===== verification/FeProofs.v ===== *)
(** * Correctness of the field arithmetic

    Every [fe_*] computes in GF(2^255 - 19), stays within the limb bounds the
    source documents and never overflows a signed integer when its inputs are
    within the documented bounds. *)

From S2P Require Import Prelude CInt BitField Fe.

Definition p25519 : Z := 2 ^ 255 - 19.

Definition fe_weights : list Z :=
  [2 ^ 0; 2 ^ 26; 2 ^ 51; 2 ^ 77; 2 ^ 102; 2 ^ 128; 2 ^ 153; 2 ^ 179; 2 ^ 204; 2 ^ 230].

(** The integer a limb vector stands for. *)
Definition fval (h : list Z) : Z := val fe_weights h.

(** [fbnd k h]: the limbs are bounded by [k]% of 2^25, 2^24, 2^25, ...
    The source's 1.01*2^25, 1.1*2^25, 1.1*2^26 and 1.65*2^26 are 101, 110, 220
    and 330. *)
Definition fe_bounds (k : Z) : list (Z * Z) :=
  (fun e => (- (k * 2 ^ e / 100), k * 2 ^ e / 100)) <$> [25; 24; 25; 24; 25; 24; 25; 24; 25; 24].

Definition fbnd (k : Z) (h : list Z) : Prop := within h (fe_bounds k).

Lemma within_length h ivs : within h ivs -> length h = length ivs.
Proof. apply Forall2_length. Qed.

Lemma within_mono h (ks js : list (Z * Z)) :
  within h ks -> Forall2 (fun i j => j.1 <= i.1 /\ i.2 <= j.2) ks js -> within h js.
Proof.
  intros H. revert js. induction H; intros js Hj; inversion Hj; subst; constructor;
    [lia|]. by apply IHForall2.
Qed.

Lemma fbnd_mono k k' h : k <= k' -> fbnd k h -> fbnd k' h.
Proof.
  intros Hk H. apply (within_mono _ _ _ H). unfold fe_bounds.
  assert (He : forall e, k * 2 ^ e / 100 <= k' * 2 ^ e / 100).
  { intros e. apply Z.div_le_mono; [lia|]. apply Z.mul_le_mono_nonneg_r; lia. }
  apply Forall2_fmap. induction [25; 24; 25; 24; 25; 24; 25; 24; 25; 24]; constructor;
    [|done]. cbn [fst snd]. specialize (He a). lia.
Qed.

Lemma fbnd_length k h : fbnd k h -> length h = 10%nat.
Proof. apply within_length. Qed.

(** ** The three readings agree *)

Section FeAgree.
Context {M} {C : CInt M} {inj : M -> Z -> Prop} {HR : Refines C inj}.
Context (fm gm : list M) (fx gx : list Z) (fi gi : list ival).
Hypothesis Hf : agrees inj fm fx fi.
Hypothesis Hg : agrees inj gm gx gi.

Lemma fe_add_agrees :
  agrees inj (fe_add fm gm) (@fe_add _ exact fx gx) (fe_add fi gi).
Proof using Hf Hg HR. unfold fe_add. agree_tac. Qed.

Lemma fe_sub_agrees :
  agrees inj (fe_sub fm gm) (@fe_sub _ exact fx gx) (fe_sub fi gi).
Proof using Hf Hg HR. unfold fe_sub. agree_tac. Qed.

Lemma fe_neg_agrees : agrees inj (fe_neg fm) (@fe_neg _ exact fx) (fe_neg fi).
Proof using Hf HR. unfold fe_neg. agree_tac. Qed.

Lemma fe_carry_agrees : agrees inj (fe_carry fm) (@fe_carry _ exact fx) (fe_carry fi).
Proof using Hf HR. unfold fe_carry. agree_tac. Qed.

Lemma fe_store_agrees : agrees inj (fe_store fm) (@fe_store _ exact fx) (fe_store fi).
Proof using Hf HR. unfold fe_store. agree_tac. Qed.

Lemma fe_double_agrees : agrees inj (fe_double fm) (@fe_double _ exact fx) (fe_double fi).
Proof using Hf HR. unfold fe_double. agree_tac. Qed.

Lemma fe_mul_products_agrees :
  agrees inj (fe_mul_products fm gm) (@fe_mul_products _ exact fx gx) (fe_mul_products fi gi).
Proof using Hf Hg HR. unfold fe_mul_products. agree_tac. Qed.

Lemma fe_sq_products_agrees :
  agrees inj (fe_sq_products fm) (@fe_sq_products _ exact fx) (fe_sq_products fi).
Proof using Hf HR. unfold fe_sq_products. agree_tac. Qed.

Lemma fe_freeze_agrees : agrees inj (fe_freeze fm) (@fe_freeze _ exact fx) (fe_freeze fi).
Proof using Hf HR. unfold fe_freeze, fe_quotient. agree_tac. Qed.
End FeAgree.

(** ** Exact values *)

Lemma ten_limbs (h : list Z) : length h = 10%nat ->
  exists h0 h1 h2 h3 h4 h5 h6 h7 h8 h9, h = [h0; h1; h2; h3; h4; h5; h6; h7; h8; h9].
Proof.
  intros H. do 10 (destruct h as [|? h]; [done|]). destruct h; [|done]. by eauto 11.
Qed.

Ltac ten h H :=
  apply ten_limbs in H as (?&?&?&?&?&?&?&?&?&?&->).

Lemma fval_add f g : length f = 10%nat -> length g = 10%nat ->
  fval (@fe_add _ exact f g) = fval f + fval g.
Proof. intros Hf Hg. ten f Hf. ten g Hg. unfold fval, fe_weights, fe_add, limb. cbn -[Z.pow]. ring. Qed.

Lemma fval_sub f g : length f = 10%nat -> length g = 10%nat ->
  fval (@fe_sub _ exact f g) = fval f - fval g.
Proof. intros Hf Hg. ten f Hf. ten g Hg. unfold fval, fe_weights, fe_sub, limb. cbn -[Z.pow]. ring. Qed.

Lemma fval_neg f : length f = 10%nat -> fval (@fe_neg _ exact f) = - fval f.
Proof. intros Hf. ten f Hf. unfold fval, fe_weights, fe_neg, limb. cbn -[Z.pow]. ring. Qed.

Lemma fval_store f : length f = 10%nat -> fval (@fe_store _ exact f) = fval f.
Proof. intros Hf. ten f Hf. reflexivity. Qed.

Lemma fval_double f : length f = 10%nat -> fval (@fe_double _ exact f) = 2 * fval f.
Proof. intros Hf. ten f Hf. unfold fval, fe_weights, fe_double, limb. cbn -[Z.pow]. ring. Qed.

Lemma fval_carry f : length f = 10%nat -> fval (@fe_carry _ exact f) =[p25519]= fval f.
Proof.
  intros Hf. unfold fe_carry, fval.
  assert (Hc : forall o b i j h, length h = 10%nat -> i <> j -> (i < 10)%nat -> (j < 10)%nat ->
    nth j fe_weights 0 = 2 ^ b * nth i fe_weights 0 ->
    val fe_weights (@carry _ exact 64 o b i j h) = val fe_weights h).
  { intros o b i j h Hl ????. apply val_carry; rewrite ?Hl; done. }
  rewrite Hc by (rewrite ?length_carry_mul, ?length_carry; done || lia).
  rewrite val_carry_mul; rewrite ?length_carry; rewrite ?Hf; [|done || lia..].
  do 10 rewrite Hc by (rewrite ?length_carry; done || lia).
  match goal with |- _ + ?c * _ =[_]= _ => generalize c; intros k end.
  apply (eqmod_mul_intro _ (- k)); [done|].
  change (19 * nth 0 fe_weights 0 - 2 ^ 25 * nth 9 fe_weights 0) with (- p25519). ring.
Qed.

(** The part of the product above 2^255. *)
Definition fe_high (f g : list Z) : Z :=
  match f, g with
  | [f0; f1; f2; f3; f4; f5; f6; f7; f8; f9], [g0; g1; g2; g3; g4; g5; g6; g7; g8; g9] =>
     f1 * (2 ^ 1 * g9) + f2 * (2 ^ 0 * g8 + 2 ^ 26 * g9) + f3 * (2 ^ 1 * g7 + 2 ^ 26 *
      g8 + 2 ^ 52 * g9) + f4 * (2 ^ 0 * g6 + 2 ^ 26 * g7 + 2 ^ 51 * g8 + 2 ^ 77 * g9) +
      f5 * (2 ^ 1 * g5 + 2 ^ 26 * g6 + 2 ^ 52 * g7 + 2 ^ 77 * g8 + 2 ^ 103 * g9) + f6 *
      (2 ^ 0 * g4 + 2 ^ 26 * g5 + 2 ^ 51 * g6 + 2 ^ 77 * g7 + 2 ^ 102 * g8 + 2 ^ 128 *
      g9) + f7 * (2 ^ 1 * g3 + 2 ^ 26 * g4 + 2 ^ 52 * g5 + 2 ^ 77 * g6 + 2 ^ 103 * g7 +
      2 ^ 128 * g8 + 2 ^ 154 * g9) + f8 * (2 ^ 0 * g2 + 2 ^ 26 * g3 + 2 ^ 51 * g4 + 2 ^
      77 * g5 + 2 ^ 102 * g6 + 2 ^ 128 * g7 + 2 ^ 153 * g8 + 2 ^ 179 * g9) + f9 * (2 ^ 1
      * g1 + 2 ^ 26 * g2 + 2 ^ 52 * g3 + 2 ^ 77 * g4 + 2 ^ 103 * g5 + 2 ^ 128 * g6 + 2 ^
      154 * g7 + 2 ^ 179 * g8 + 2 ^ 205 * g9)
  | _, _ => 0
  end.

Lemma fval_mul_products f g : length f = 10%nat -> length g = 10%nat ->
  fval (@fe_mul_products _ exact f g) =[p25519]= fval f * fval g.
Proof.
  intros Hf Hg. apply (eqmod_mul_intro _ (- fe_high f g)); [done|]. ten f Hf. ten g Hg.
  unfold fval, fe_weights, fe_mul_products, limb, clet, fe_high, p25519.
  cbn [val nth exact lit add mul]. ring.
Qed.

Lemma fe_sq_products_mul f : @fe_sq_products _ exact f = @fe_mul_products _ exact f f.
Proof.
  unfold fe_sq_products, fe_mul_products, clet. cbn [exact lit add mul].
  repeat (apply (f_equal2 (@cons Z)); [ring|]). done.
Qed.

(** ** The machine code *)

Lemma length_fe_mul_products {A} {C : CInt A} f g : length (fe_mul_products f g) = 10%nat.
Proof. reflexivity. Qed.
Lemma length_fe_sq_products {A} {C : CInt A} f : length (fe_sq_products f) = 10%nat.
Proof. reflexivity. Qed.
Lemma length_fe_carry {A} {C : CInt A} f : length (fe_carry f) = length f.
Proof. unfold fe_carry. by rewrite ?length_carry, ?length_carry_mul, ?length_carry. Qed.

Section Mul.
Context (f g : list Z).
Hypothesis Hf : fbnd 330 f.
Hypothesis Hg : fbnd 330 g.

Lemma fe_mul_run :
  fe_mul f g = @fe_mul _ exact f g /\ fbnd 101 (fe_mul f g).
Proof using Hf Hg.
  apply (machine_run _ _ (fe_mul (Some <$> fe_bounds 330) (Some <$> fe_bounds 330))).
  - unfold fe_mul.
    apply fe_store_agrees, fe_carry_agrees, fe_mul_products_agrees; by apply machine_start.
  - vm_compute. reflexivity.
Qed.

Lemma fe_mul_ok :
  fbnd 101 (fe_mul f g) /\ fval (fe_mul f g) =[p25519]= fval f * fval g.
Proof using Hf Hg.
  destruct fe_mul_run as [He Hb]. split; [done|]. rewrite He. unfold fe_mul.
  rewrite fval_store by (by rewrite length_fe_carry).
  rewrite fval_carry by done.
  apply fval_mul_products; by apply fbnd_length with 330.
Qed.

Lemma fe_mul_checked : fe_mul (Some <$> f) (Some <$> g) = Some <$> fe_mul f g.
Proof using Hf Hg.
  destruct fe_mul_run as [-> _].
  apply (checked_run _ _ (fe_mul (Some <$> fe_bounds 330) (Some <$> fe_bounds 330)) (fe_bounds 101)).
  - unfold fe_mul.
    apply fe_store_agrees, fe_carry_agrees, fe_mul_products_agrees; by apply checked_start.
  - vm_compute. reflexivity.
Qed.

Lemma fe_sq_run : fe_sq f = @fe_sq _ exact f /\ fbnd 101 (fe_sq f).
Proof using Hf.
  apply (machine_run _ _ (fe_sq (Some <$> fe_bounds 330))).
  - unfold fe_sq.
    apply fe_store_agrees, fe_carry_agrees, fe_sq_products_agrees; by apply machine_start.
  - vm_compute. reflexivity.
Qed.

Lemma fe_sq_ok : fbnd 101 (fe_sq f) /\ fval (fe_sq f) =[p25519]= fval f * fval f.
Proof using Hf.
  destruct fe_sq_run as [He Hb]. split; [done|]. rewrite He. unfold fe_sq.
  rewrite fval_store by (by rewrite length_fe_carry).
  rewrite fval_carry by done. rewrite fe_sq_products_mul.
  apply fval_mul_products; by apply fbnd_length with 330.
Qed.

Lemma fe_sq_checked : fe_sq (Some <$> f) = Some <$> fe_sq f.
Proof using Hf.
  destruct fe_sq_run as [-> _].
  apply (checked_run _ _ (fe_sq (Some <$> fe_bounds 330)) (fe_bounds 101)).
  - unfold fe_sq.
    apply fe_store_agrees, fe_carry_agrees, fe_sq_products_agrees; by apply checked_start.
  - vm_compute. reflexivity.
Qed.

Lemma fe_sq2_run : fe_sq2 f = @fe_sq2 _ exact f /\ fbnd 101 (fe_sq2 f).
Proof using Hf.
  apply (machine_run _ _ (fe_sq2 (Some <$> fe_bounds 330))).
  - unfold fe_sq2.
    apply fe_store_agrees, fe_carry_agrees, fe_double_agrees, fe_sq_products_agrees;
      by apply machine_start.
  - vm_compute. reflexivity.
Qed.

Lemma fe_sq2_ok : fbnd 101 (fe_sq2 f) /\ fval (fe_sq2 f) =[p25519]= 2 * (fval f * fval f).
Proof using Hf.
  destruct fe_sq2_run as [He Hb]. split; [done|]. rewrite He. unfold fe_sq2.
  rewrite fval_store by (by rewrite length_fe_carry).
  rewrite fval_carry by done. rewrite fval_double by done. rewrite fe_sq_products_mul.
  apply eqmod_mul; [done|]. apply fval_mul_products; by apply fbnd_length with 330.
Qed.

Lemma fe_sq2_checked : fe_sq2 (Some <$> f) = Some <$> fe_sq2 f.
Proof using Hf.
  destruct fe_sq2_run as [-> _].
  apply (checked_run _ _ (fe_sq2 (Some <$> fe_bounds 330)) (fe_bounds 101)).
  - unfold fe_sq2.
    apply fe_store_agrees, fe_carry_agrees, fe_double_agrees, fe_sq_products_agrees;
      by apply checked_start.
  - vm_compute. reflexivity.
Qed.
End Mul.

(** ** Additive operations *)

Lemma bound_add k l e : 0 <= e ->
  k * 2 ^ e / 100 + l * 2 ^ e / 100 <= (k + l) * 2 ^ e / 100.
Proof.
  intros. rewrite Z.mul_add_distr_r.
  generalize (k * 2 ^ e) (l * 2 ^ e). intros x y.
  apply Z.div_le_lower_bound; [lia|].
  pose proof (Z.mul_div_le x 100 ltac:(lia)). pose proof (Z.mul_div_le y 100 ltac:(lia)). lia.
Qed.

Lemma bound_fits k : k <= 6300 ->
  k * 2 ^ 25 / 100 < 2 ^ 31 /\ k * 2 ^ 24 / 100 < 2 ^ 31.
Proof. intros. split; apply Z.div_lt_upper_bound; lia. Qed.

Ltac fbnd_limbs H :=
  let Hl := fresh in
  pose proof (fbnd_length _ _ H) as Hl; apply ten_limbs in Hl as (?&?&?&?&?&?&?&?&?&?&->);
  unfold fbnd, within, fe_bounds in H; cbn [fmap list_fmap] in H;
  repeat match type of H with
  | Forall2 _ (_ :: _) (_ :: _) => apply Forall2_cons_1 in H as [? H]
  end; cbn [fst snd] in *.

Ltac name_bounds :=
  unfold fbnd, within, fe_bounds; cbn [fmap list_fmap];
  repeat match goal with
  | H : context [?a / 100] |- _ => let x := fresh "bd" in set (x := a / 100) in *; clearbody x
  end.

Lemma fe_add_ok k l f g : fbnd k f -> fbnd l g -> k + l <= 6300 ->
  fbnd (k + l) (fe_add f g) /\ fval (fe_add f g) = fval f + fval g.
Proof.
  intros Hf Hg Hkl.
  pose proof (bound_add k l 25 ltac:(lia)). pose proof (bound_add k l 24 ltac:(lia)).
  destruct (bound_fits _ Hkl). rewrite <- fval_add by (by eapply fbnd_length).
  clear -H H0 H1 H2 Hf Hg. fbnd_limbs Hf. fbnd_limbs Hg. name_bounds.
  assert (Hx : forall a b, - 2 ^ 31 < a + b < 2 ^ 31 -> add 32 a b = a + b).
  { intros a b Hab. apply i32_small. lia. }
  unfold fe_add, limb. cbn [nth]. rewrite !Hx by lia. split; [|done].
  repeat constructor; cbn [fst snd]; lia.
Qed.

Lemma fe_sub_ok k l f g : fbnd k f -> fbnd l g -> k + l <= 6300 ->
  fbnd (k + l) (fe_sub f g) /\ fval (fe_sub f g) = fval f - fval g.
Proof.
  intros Hf Hg Hkl.
  pose proof (bound_add k l 25 ltac:(lia)). pose proof (bound_add k l 24 ltac:(lia)).
  destruct (bound_fits _ Hkl). rewrite <- fval_sub by (by eapply fbnd_length).
  clear -H H0 H1 H2 Hf Hg. fbnd_limbs Hf. fbnd_limbs Hg. name_bounds.
  assert (Hx : forall a b, - 2 ^ 31 < a - b < 2 ^ 31 -> sub 32 a b = a - b).
  { intros a b Hab. apply i32_small. lia. }
  unfold fe_sub, limb. cbn [nth]. rewrite !Hx by lia. split; [|done].
  repeat constructor; cbn [fst snd]; lia.
Qed.

Lemma fe_neg_ok k f : fbnd k f -> k <= 6300 -> fbnd k (fe_neg f) /\ fval (fe_neg f) = - fval f.
Proof.
  intros Hf Hk. destruct (bound_fits _ Hk). rewrite <- fval_neg by (by eapply fbnd_length).
  fbnd_limbs Hf. name_bounds.
  assert (Hx : forall b, - 2 ^ 31 < b < 2 ^ 31 -> sub 32 (lit 0) b = 0 - b).
  { intros b Hab. apply i32_small. lia. }
  unfold fe_neg, limb. cbn [nth]. rewrite !Hx by lia. split; [|done].
  repeat constructor; cbn [fst snd]; lia.
Qed.

Lemma fe_copy_id k f : fbnd k f -> fe_copy f = f.
Proof. intros Hf. by fbnd_limbs Hf. Qed.

(** ** Canonical encoding *)

Lemma shift_chain x y m n : 0 <= m -> 0 <= n ->
  Z.shiftr (x + Z.shiftr y m) n = Z.shiftr (2 ^ m * x + y) (m + n).
Proof.
  intros. rewrite !Z.shiftr_div_pow2, Z.pow_add_r, <- Z.div_div by lia.
  rewrite (Z.mul_comm (2 ^ m) x), Z.div_add_l by lia. done.
Qed.

Lemma fe_quotient_floor h : length h = 10%nat ->
  @fe_quotient _ exact h = (fval h + (19 * nth 9 h 0 + 2 ^ 24) / 2 ^ 25) / 2 ^ 255.
Proof.
  intros Hl. ten h Hl. unfold fe_quotient, clet, limb.
  cbn [exact lit add mul sar nth].
  rewrite (Z.shiftr_div_pow2 (_ + 2 ^ 24)) by lia.
  generalize ((19 * x8 + 2 ^ 24) / 2 ^ 25). intros t.
  rewrite (shift_chain x0), (shift_chain x1 _ (26 + 25)), (shift_chain x2 _ (26 + 25 + 26)),
    (shift_chain x3 _ (26 + 25 + 26 + 25)), (shift_chain x4 _ (26 + 25 + 26 + 25 + 26)),
    (shift_chain x5 _ (26 + 25 + 26 + 25 + 26 + 25)),
    (shift_chain x6 _ (26 + 25 + 26 + 25 + 26 + 25 + 26)),
    (shift_chain x7 _ (26 + 25 + 26 + 25 + 26 + 25 + 26 + 25)),
    (shift_chain x8 _ (26 + 25 + 26 + 25 + 26 + 25 + 26 + 25 + 26)) by lia.
  rewrite Z.shiftr_div_pow2 by lia.
  apply (f_equal2 Z.div); [|reflexivity]. unfold fval, fe_weights. cbn [val]. lia.
Qed.

(** The claim of the source's comment: [q] is the quotient by [p]. *)
Lemma quotient_exact H h9 : - 2 ^ 257 <= H <= 2 ^ 257 ->
  - 2 ^ 231 < H - 2 ^ 230 * h9 < 2 ^ 231 ->
  (H + (19 * h9 + 2 ^ 24) / 2 ^ 25) / 2 ^ 255 = H / p25519.
Proof.
  intros HB HL. symmetry.
  pose proof (Z.div_mod H p25519 ltac:(done)) as Hd.
  pose proof (Z.mod_pos_bound H p25519 ltac:(done)) as Hr.
  pose proof (Z.div_mod (19 * h9 + 2 ^ 24) (2 ^ 25) ltac:(done)) as Ht.
  pose proof (Z.mod_pos_bound (19 * h9 + 2 ^ 24) (2 ^ 25) ltac:(done)) as Hu.
  apply Z.div_unique_pos with (H + (19 * h9 + 2 ^ 24) / 2 ^ 25 - 2 ^ 255 * (H / p25519));
    [|lia].
  generalize dependent (H / p25519). generalize dependent (H mod p25519).
  generalize dependent ((19 * h9 + 2 ^ 24) / 2 ^ 25).
  generalize dependent ((19 * h9 + 2 ^ 24) mod 2 ^ 25).
  unfold p25519. intros. lia.
Qed.

Definition fe_norm : list (Z * Z) :=
  (fun e => (0, 2 ^ e - 1)) <$> [26; 25; 26; 25; 26; 25; 26; 25; 26; 25].

Lemma fe_freeze_run h : fbnd 330 h ->
  fe_freeze h = @fe_freeze _ exact h /\ within (fe_freeze h) fe_norm.
Proof.
  intros Hh. apply (machine_run _ _ (fe_freeze (Some <$> fe_bounds 330))).
  - by apply fe_freeze_agrees, machine_start.
  - vm_compute. reflexivity.
Qed.

Lemma val_bound_330 h : fbnd 330 h ->
  - 2 ^ 257 <= fval h <= 2 ^ 257 /\ - 2 ^ 231 < fval h - 2 ^ 230 * nth 9 h 0 < 2 ^ 231.
Proof.
  intros Hh. fbnd_limbs Hh.
  change (330 * 2 ^ 25 / 100) with 110729625 in *. change (330 * 2 ^ 24 / 100) with 55364812 in *.
  unfold fval, fe_weights. cbn [val nth]. lia.
Qed.

Lemma norm_bound h : within h fe_norm -> 0 <= fval h < 2 ^ 255.
Proof.
  intros H. pose proof (within_length _ _ H) as Hl. apply ten_limbs in Hl as (?&?&?&?&?&?&?&?&?&?&->).
  unfold within, fe_norm in H. cbn [fmap list_fmap] in H.
  repeat match type of H with
  | Forall2 _ (_ :: _) (_ :: _) => apply Forall2_cons_1 in H as [? H]
  end; cbn [fst snd] in *. unfold fval, fe_weights. cbn [val]. lia.
Qed.

Lemma fe_freeze_exact h : length h = 10%nat ->
  exists c, fval (@fe_freeze _ exact h) = fval h + 19 * @fe_quotient _ exact h - 2 ^ 255 * c.
Proof.
  intros Hl. unfold fe_freeze, clet. generalize (@fe_quotient _ exact h). intros q.
  unfold carry_out.
  match goal with |- context [split 32 0 25 (limb ?g 9)] => set (g' := g) end.
  exists (@split _ exact 32 0 25 (@limb _ exact g' 9)).1. unfold fval.
  rewrite val_upd by (subst g'; rewrite ?length_carry, ?length_upd, Hl; done || lia).
  assert (Hv : val fe_weights g' = val fe_weights h + 19 * q).
  { subst g'.
    assert (Hc : forall b i j h, length h = 10%nat -> i <> j -> (i < 10)%nat -> (j < 10)%nat ->
      nth j fe_weights 0 = 2 ^ b * nth i fe_weights 0 ->
      val fe_weights (@carry _ exact 32 0 b i j h) = val fe_weights h).
    { intros b i j h' Hl' ????. apply val_carry; rewrite ?Hl'; done. }
    do 9 rewrite Hc by (rewrite ?length_carry, ?length_upd; done || lia).
    rewrite val_upd by (rewrite Hl; done || lia). unfold limb. cbn [exact lit add mul].
    change (nth 0 fe_weights 0) with 1. lia. }
  rewrite Hv. change (nth 9 fe_weights 0) with (2 ^ 230). unfold limb.
  cbn [exact split fst snd lit]. lia.
Qed.

Lemma fe_freeze_ok h : fbnd 330 h ->
  within (fe_freeze h) fe_norm /\ fval (fe_freeze h) = fval h mod p25519.
Proof.
  intros Hh. destruct (fe_freeze_run h Hh) as [He Hn]. split; [done|].
  pose proof (norm_bound _ Hn) as Hb. rewrite He in *.
  pose proof (fbnd_length _ _ Hh) as Hl.
  destruct (fe_freeze_exact h Hl) as [c Hc].
  destruct (val_bound_330 h Hh) as [H1 H2].
  rewrite fe_quotient_floor, quotient_exact in Hc by done.
  pose proof (Z.div_mod (fval h) p25519 ltac:(done)) as Hd.
  pose proof (Z.mod_pos_bound (fval h) p25519 ltac:(done)) as Hr.
  assert (c = fval h / p25519); unfold p25519 in *; lia.
Qed.

(** One spare bit on top, so that the last byte is a whole field. *)
Definition fe_widths : list Z := [26; 25; 26; 25; 26; 25; 26; 25; 26; 26].

Lemma fe_bytes_ok h : within h fe_norm -> fe_bytes h = le_bytes 32 (fval h).
Proof.
  intros H.
  assert (Hh : fields (fval h) 0 fe_widths = h).
  { apply (fields_val fe_widths).
    - by repeat constructor.
    - unfold within, fe_norm in H. cbn [fmap list_fmap] in H.
      repeat (apply Forall2_cons_inv_r in H as (? & ? & ? & H & ->); constructor;
        [cbn in *; lia|]). apply Forall2_nil_inv_r in H as ->. constructor. }
  generalize dependent (fval h). intros v <-. clear H.
  rewrite le_bytes_fields. unfold fe_bytes, limb, fe_widths.
  cbn [fields nth]. cbn [seq fmap list_fmap].
  repeat (apply (f_equal2 cons); [first
    [ rewrite byte_join_field by lia; reflexivity
    | rewrite byte_field by lia; reflexivity ]|]).
  reflexivity.
Qed.

Lemma fe_tobytes_ok h : fbnd 330 h ->
  fe_tobytes h = le_bytes 32 (fval h mod p25519).
Proof.
  intros Hh. destruct (fe_freeze_ok h Hh) as [Hn Hv].
  unfold fe_tobytes. by rewrite fe_bytes_ok, Hv.
Qed.

Lemma le_bytes_small x : 0 <= x < p25519 -> le (le_bytes 32 x) = x.
Proof. intros. rewrite le_le_bytes. apply Z.mod_small. unfold p25519 in *. lia. Qed.

Lemma fe_tobytes_inj f g : fbnd 330 f -> fbnd 330 g ->
  fe_tobytes f = fe_tobytes g <-> fval f =[p25519]= fval g.
Proof.
  intros Hf Hg. rewrite !fe_tobytes_ok by done. unfold eqmod.
  pose proof (Z.mod_pos_bound (fval f) p25519 ltac:(done)).
  pose proof (Z.mod_pos_bound (fval g) p25519 ltac:(done)).
  split; [|by intros ->]. intros Hb.
  by rewrite <- (le_bytes_small (fval f mod _)), <- (le_bytes_small (fval g mod _)), Hb.
Qed.

Lemma fe_isnegative_ok f : fbnd 330 f ->
  fe_isnegative f = (fval f mod p25519) mod 2.
Proof.
  intros Hf. unfold fe_isnegative. rewrite fe_tobytes_ok by done.
  change 1 with (2 ^ 1 - 1). rewrite land_mask by lia.
  rewrite le_bytes_lookup by lia. unfold field.
  rewrite Z.div_1_r. change (2 ^ 8) with (2 ^ 1 * 2 ^ 7).
  rewrite Z.rem_mul_r, (Z.mul_comm (2 ^ 1)), Z.mod_add by lia. apply Zmod_mod.
Qed.

(** The disjunction of bytes is a byte, zero only when they all are. *)
Lemma lor_bytes s a : is_bytes s -> is_u8 a ->
  is_u8 (foldl Z.lor a s) /\ (foldl Z.lor a s = 0 <-> a = 0 /\ le s = 0).
Proof.
  intros Hs. revert a. induction Hs as [|b s Hb Hs IH]; intros a Ha; cbn.
  - split; [done|]. tauto.
  - destruct (IH (a .| b)) as [H1 H2]; [by apply lor_word|]. split; [done|].
    rewrite H2, Z.lor_eq_0_iff.
    pose proof (le_bound s Hs). destruct Hb. lia.
Qed.

(** The branch-free test [((b0 | ... | b31) - 1) >> 8) + 1]. *)
Lemma nonzero_bytes s : is_bytes s ->
  ((foldl Z.lor 0 s - 1) .>> 8) + 1 = if le s =? 0 then 0 else 1.
Proof.
  intros Hs. destruct (lor_bytes s 0 Hs) as [Hb Hz]; [done|].
  set (x := foldl _ _ _) in *. rewrite Z.shiftr_div_pow2 by done.
  destruct (Z.eqb_spec (le s) 0) as [E|E].
  - replace x with 0 by (symmetry; by apply Hz). reflexivity.
  - rewrite Z.div_small; [done|]. unfold is_word in *.
    assert (x <> 0) by (intros Hx; by apply Hz in Hx as [_ ?]). lia.
Qed.

Lemma fe_isnonzero_ok f : fbnd 330 f ->
  fe_isnonzero f = if fval f mod p25519 =? 0 then 0 else 1.
Proof.
  intros Hf. unfold fe_isnonzero. rewrite fe_tobytes_ok by done.
  rewrite nonzero_bytes by apply le_bytes_is_bytes.
  by rewrite le_bytes_small by (by apply Z.mod_pos_bound).
Qed.

(** ** Powers: the addition chains *)

(** [x] holds [u ^ a * v ^ b]. *)
Definition pw (u v a b : Z) (x : list Z) : Prop :=
  0 <= a /\ 0 <= b /\ fbnd 330 x /\ fval x =[p25519]= u ^ a * v ^ b.

Lemma fbnd_330 x : fbnd 101 x -> fbnd 330 x.
Proof. apply fbnd_mono. lia. Qed.

Section Powers.
Context (u v : Z).

Lemma pw_last a b c d x y : pw u v a b x -> pw u v c d y ->
  fbnd 101 (fe_mul x y) /\ fval (fe_mul x y) =[p25519]= u ^ (a + c) * v ^ (b + d).
Proof.
  intros (?&?&Hx&Ex) (?&?&Hy&Ey). destruct (fe_mul_ok x y Hx Hy) as [Hb Hv].
  split; [done|]. rewrite Hv, Ex, Ey, !Z.pow_add_r by lia.
  apply eq_subrelation; [apply _|]. ring.
Qed.

Lemma pw_mul a b c d x y :
  pw u v a b x -> pw u v c d y -> pw u v (a + c) (b + d) (fe_mul x y).
Proof.
  intros Hx Hy. destruct (pw_last a b c d x y Hx Hy) as [Hb Hv].
  destruct Hx as (?&?&_), Hy as (?&?&_). split_and!; [lia|lia|by apply fbnd_330|done].
Qed.

Lemma pw_sq a b x : pw u v a b x -> pw u v (a + a) (b + b) (fe_sq x).
Proof.
  intros (?&?&Hx&Ex). destruct (fe_sq_ok x Hx) as [Hb Hv].
  split_and!; [lia|lia|by apply fbnd_330|]. rewrite Hv, Ex, !Z.pow_add_r by lia.
  apply eq_subrelation; [apply _|]. ring.
Qed.

Lemma pw_sq_n a b n x : pw u v a b x ->
  pw u v (2 ^ Z.of_nat n * a) (2 ^ Z.of_nat n * b) (fe_sq_n n x).
Proof.
  intros H. induction n as [|n IH]; [by rewrite Z.pow_0_r, !Z.mul_1_l|].
  assert (He : forall k, 2 ^ Z.of_nat (S n) * k = 2 ^ Z.of_nat n * k + 2 ^ Z.of_nat n * k)
    by (intros; rewrite Nat2Z.inj_succ, Z.pow_succ_r; lia).
  rewrite !He. by apply pw_sq.
Qed.

Lemma pw_clet (P : list Z -> Prop) a b e K :
  pw u v a b e -> (forall x, pw u v a b x -> P (K x)) -> P (clet e K).
Proof. intros H HK. by apply HK. Qed.

(** The result of a chain, with its exponents computed. *)
Lemma pw_end a b c d m n x y : pw u v a b x -> pw u v c d y -> a + c = m -> b + d = n ->
  fbnd 101 (fe_mul x y) /\ fval (fe_mul x y) =[p25519]= u ^ m * v ^ n.
Proof. intros ? ? <- <-. by apply pw_last. Qed.
End Powers.

Ltac pw_expr :=
  lazymatch goal with
  | H : pw _ _ _ _ ?x |- pw _ _ _ _ ?x => exact H
  | |- pw _ _ _ _ (fe_mul _ _) => eapply pw_mul; pw_expr
  | |- pw _ _ _ _ (fe_sq _) => eapply pw_sq; pw_expr
  | |- pw _ _ _ _ (fe_sq_n _ _) => eapply pw_sq_n; pw_expr
  end.
Ltac pw_chain P :=
  repeat (eapply (pw_clet _ _ P); [pw_expr|];
    lazymatch goal with
    | |- forall x, pw _ _ ?a ?b x -> _ =>
        let a' := eval vm_compute in a in let b' := eval vm_compute in b in
        change a with a'; change b with b'; intros ? ?
    end);
  cbv beta; eapply pw_end; [pw_expr|pw_expr|vm_compute; reflexivity..].

Lemma fe_invert_pow z : fbnd 330 z ->
  fbnd 101 (fe_invert z) /\ fval (fe_invert z) =[p25519]= fval z ^ (p25519 - 2) * 1 ^ 0.
Proof.
  intros Hz.
  assert (pw (fval z) 1 1 0 z)
    by (split_and!; [lia|lia|done|]; by rewrite Z.pow_1_r, Z.mul_1_r).
  unfold fe_invert.
  pw_chain (fun x => fbnd 101 x /\ fval x =[p25519]= fval z ^ (p25519 - 2) * 1 ^ 0).
Qed.

Lemma fe_invert_ok z : fbnd 330 z ->
  fbnd 101 (fe_invert z) /\ fval (fe_invert z) =[p25519]= fval z ^ (p25519 - 2).
Proof.
  intros Hz. destruct (fe_invert_pow z Hz) as [Hb Hv]. split; [done|].
  by rewrite Hv, Z.pow_0_r, Z.mul_1_r.
Qed.

Lemma fe_divpowm1_ok u v (m := (p25519 - 5) / 8) : fbnd 330 u -> fbnd 330 v ->
  fbnd 101 (fe_divpowm1 u v) /\
  fval (fe_divpowm1 u v) =[p25519]= fval u ^ (m + 1) * fval v ^ (7 * m + 3).
Proof.
  intros Hu Hv.
  assert (pw (fval u) (fval v) 1 0 u)
    by (split_and!; [lia|lia|done|]; by rewrite Z.pow_1_r, Z.mul_1_r).
  assert (pw (fval u) (fval v) 0 1 v)
    by (split_and!; [lia|lia|done|]; by rewrite Z.pow_1_r, Z.mul_1_l).
  unfold fe_divpowm1.
  pw_chain (fun x => fbnd 101 x /\
    fval x =[p25519]= fval u ^ (m + 1) * fval v ^ (7 * m + 3)).
Qed.

(** ** Conditional move *)

Lemma fe_cmov_ok f g b : b = 0 \/ b = 1 -> fbnd 6300 f -> fbnd 6300 g ->
  fe_cmov f g b = if b =? 1 then g else f.
Proof.
  intros Hb Hf Hg. destruct (bound_fits 6300 ltac:(lia)). fbnd_limbs Hf. fbnd_limbs Hg.
  name_bounds. unfold fe_cmov, limb. cbn [nth].
  destruct Hb as [-> | ->].
  - change (i32 (- 0)) with 0. rewrite !Z.land_0_r, !Z.lxor_0_r.
    rewrite !i32_small by lia. done.
  - change (i32 (- (1))) with (-1). rewrite !Z.land_m1_r.
    rewrite <- !Z.lxor_assoc, !Z.lxor_nilpotent, !Z.lxor_0_l.
    rewrite !i32_small by lia. done.
Qed.

Lemma cmov_assert_ok b : is_u8 b -> cmov_assert b = true <-> b = 0 \/ b = 1.
Proof.
  intros Hb.
  assert (H : forallb (fun n => Bool.eqb (cmov_assert (Z.of_nat n)) (n <=? 1)%nat) (seq 0 256) = true)
    by (vm_compute; reflexivity).
  rewrite forallb_forall in H. unfold is_word in Hb.
  specialize (H (Z.to_nat b) ltac:(apply in_seq; lia)). rewrite Z2Nat.id in H by lia.
  apply Bool.eqb_prop in H. rewrite H. lia.
Qed.
