(* ===== verification/Primality.v ===== *)
(** * The field prime 2^255 - 19 is prime

    Pocklington's criterion, with the modular powers evaluated on [bigZ], and
    the certificate chain for the modulus of crypto-ops.c.  With Fermat's
    theorem it makes the exponentiations of the field code inversions and
    square roots. *)

From Stdlib Require Import Zdivisibility Zcong ZmodInv.
From Bignums Require Import BigZ.
From S2P Require Import Prelude.

(** ** Modular powers *)

Fixpoint powm (n a : bigZ) (e : positive) : bigZ :=
  match e with
  | xH => (a mod n)%bigZ
  | xO e => let x := powm n a e in (x * x mod n)%bigZ
  | xI e => let x := powm n a e in (x * x mod n * a mod n)%bigZ
  end.

Lemma powm_spec n a e : BigZ.to_Z (powm n a e) = (BigZ.to_Z a ^ Zpos e) mod BigZ.to_Z n.
Proof.
  induction e as [e IH|e IH|]; cbn [powm]; rewrite ?BigZ.spec_modulo, ?BigZ.spec_mul.
  - rewrite ?BigZ.spec_modulo, ?BigZ.spec_mul, IH, Zmult_mod_idemp_l.
    rewrite Pos2Z.inj_xI, Z.pow_add_r, Z.pow_twice_r, Z.pow_1_r by lia.
    by rewrite <- Zmult_mod_idemp_l, <- Zmult_mod, Zmult_mod_idemp_l.
  - rewrite IH, Pos2Z.inj_xO, Z.pow_twice_r. by rewrite <- Zmult_mod.
  - by rewrite Z.pow_1_r.
Qed.

(** ** Divisors *)

Lemma factor_search n k : 0 <= k ->
  (forall m, 1 < m <= k -> ~ (m | n)) \/ exists m, 1 < m <= k /\ (m | n).
Proof.
  intros Hk. pattern k. apply natlike_ind; [|clear k Hk|done].
  - left. lia.
  - intros k Hk [IH|(m & Hm & Hd)]; [|right; exists m; split; [lia|done]].
    destruct (Z.BoolSpec_divide (Z.succ k) n) as [Hd|Hd].
    + destruct (Z.lt_ge_cases 1 (Z.succ k)); [right; exists (Z.succ k); split; [lia|done]|].
      left. lia.
    + left. intros m Hm. destruct (decide (m = Z.succ k)) as [->|]; [done|]. apply IH. lia.
Qed.

Lemma prime_or_factor n : 1 < n -> Z.prime n \/ exists a b, 1 < a < n /\ 1 < b < n /\ n = a * b.
Proof.
  intros Hn. destruct (factor_search n (n - 1)) as [H|(a & Ha & b & Hb)]; [lia| |].
  - left. split; [done|]. intros m Hm. apply H. lia.
  - right. exists a, b. split_and!; nia.
Qed.

(** If all prime divisors of [n] are 1 modulo [F], so are all divisors. *)
Lemma divisors_mod F n : 0 < F -> 0 < n ->
  (forall r, Z.prime r -> (r | n) -> (F | r - 1)) -> forall m, 1 < m -> (m | n) -> (F | m - 1).
Proof.
  intros HF Hn HP m Hm. assert (H0 : 0 <= m) by lia. revert Hm. pattern m.
  apply Z_lt_induction; [|done]. clear m H0. intros m IH Hm Hd.
  destruct (prime_or_factor m Hm) as [Hp|(a & b & Ha & Hb & ->)]; [by apply HP|].
  replace (a * b - 1) with ((a - 1) * b + (b - 1)) by ring.
  apply Z.divide_add_r; [apply Z.divide_mul_l|]; apply IH; try lia.
  - etransitivity; [|exact Hd]. by exists b; rewrite Z.mul_comm.
  - etransitivity; [|exact Hd]. by exists a.
Qed.

(** ** Pocklington's criterion *)

Lemma bezout_nonneg x y q m : 1 <= q -> 1 <= m -> x * q + y * m = 1 ->
  exists u v, 0 <= u /\ 0 <= v /\ u * q = 1 + v * m.
Proof.
  intros Hq Hm Hxy. set (k := Z.abs x + Z.abs y). exists (x + k * m), (- y + k * q).
  assert (Hk : forall j, 1 <= j -> k <= k * j).
  { intros j Hj. rewrite <- (Z.mul_1_r k) at 1. apply Z.mul_le_mono_nonneg_l; lia. }
  pose proof (Hk m Hm). pose proof (Hk q Hq). split_and!; [lia|lia|].
  rewrite <- Hxy. ring.
Qed.

Section Pocklington.
Context (n a : Z) (Hn : 1 < n).

(** [q] divides [n - 1], and the order of [a] keeps its factor [q]. *)
Definition keeps (q : Z) : Prop :=
  Z.prime q /\ exists R, n - 1 = q * R /\ 0 < R /\ a ^ (n - 1) mod n = 1 /\ Z.gcd (a ^ R - 1) n = 1.

Lemma eqmod_of_divide r x : (r | n) -> x =[n]= 1 -> x =[r]= 1.
Proof using Hn.
  intros Hr Hx. assert (r <> 0) by (intros ->; apply Z.divide_0_l in Hr; lia).
  apply eqmod_divide in Hx; [|lia]. apply eqmod_divide; [done|]. by etransitivity.
Qed.

Lemma keeps_divides q r : keeps q -> Z.prime r -> (r | n) -> (q | r - 1).
Proof using Hn.
  intros (Hq & R & HR & HR0 & H1 & Hg) Hr Hd. pose proof (Z.prime_ge_2 r Hr) as Hr2.
  pose proof (Z.prime_ge_2 q Hq).
  destruct (Z.BoolSpec_divide q (r - 1)) as [|Hnd]; [done|]. exfalso.
  apply (Z.coprime_prime_l q _ Hq) in Hnd.
  assert (Ha : a ^ (n - 1) =[r]= 1).
  { apply eqmod_of_divide; [done|]. unfold eqmod. by rewrite H1, Z.mod_small by lia. }
  assert (Har : a mod r <> 0).
  { intros E. assert (Ea : a =[r]= 0) by done. rewrite Ea, Z.pow_0_l in Ha by lia.
    unfold eqmod in Ha. rewrite Z.mod_0_l, Z.mod_small in Ha by lia. lia. }
  pose proof (Z.fermat_nz r a Hr Har) as Hf.
  assert (Hf' : a ^ (r - 1) =[r]= 1) by (unfold eqmod; by rewrite Hf, Z.mod_small by lia).
  apply Z.Bezout_coprime_iff in Hnd as (x & y & Hxy).
  destruct (bezout_nonneg x y q (r - 1)) as (u & v & Hu & Hv & He); [lia|lia|done|].
  assert (HvR : 0 <= v * R) by (apply Z.mul_nonneg_nonneg; lia).
  assert (HvR' : 0 <= (r - 1) * (v * R)) by (apply Z.mul_nonneg_nonneg; lia).
  assert (HaR : a ^ R =[r]= 1).
  { transitivity (a ^ R * (a ^ (r - 1)) ^ (v * R)).
    { by rewrite Hf', Z.pow_1_l, Z.mul_1_r by exact HvR. }
    rewrite <- Z.pow_mul_r, <- Z.pow_add_r by (done || lia).
    replace (R + (r - 1) * (v * R)) with ((n - 1) * u).
    - rewrite Z.pow_mul_r by lia. by rewrite Ha, Z.pow_1_l.
    - rewrite HR. transitivity (R * (u * q)); [ring|]. rewrite He. ring. }
  apply eqmod_divide in HaR; [|lia].
  pose proof (Z.gcd_greatest _ _ _ HaR Hd) as Hg'. rewrite Hg in Hg'.
  apply Z.divide_1_r_nonneg in Hg'; lia.
Qed.

Fixpoint product (qs : list Z) : Z := match qs with [] => 1 | q :: qs => q * product qs end.

Lemma prime_coprime_product q qs : Z.prime q -> Forall Z.prime qs -> q ∉ qs ->
  Z.coprime q (product qs).
Proof.
  intros Hq HF. induction HF as [|p qs Hp _ IH]; intros Hni; cbn; [apply Z.coprime_1_r|].
  apply not_elem_of_cons in Hni as [Hne Hni]. apply Z.coprime_mul_r; [|by apply IH].
  apply Z.coprime_prime_l; [done|]. intros Hd. by apply Z.divide_prime_prime in Hd.
Qed.

Lemma product_divides qs m : Forall Z.prime qs -> NoDup qs -> Forall (fun q => (q | m)) qs ->
  (product qs | m).
Proof.
  intros HP HN HD. induction HD as [|q qs [k Hk] HD IH]; cbn; [apply Z.divide_1_l|].
  inversion HP; inversion HN; subst. destruct IH as [j Hj]; [done..|].
  destruct (Z.gauss (product qs) q k) as [i Hi].
  - exists j. lia.
  - rewrite Z.gcd_comm. by apply prime_coprime_product.
  - exists i. rewrite Hi. ring.
Qed.

Lemma pocklington qs : Forall keeps qs -> NoDup qs -> n < product qs * product qs -> Z.prime n.
Proof using Hn.
  intros HK HN HF.
  assert (HP : Forall Z.prime qs) by (eapply list.Forall_impl; [exact HK|]; by intros q (? & _)).
  assert (HF0 : 0 < product qs).
  { clear -HP. induction HP as [|q qs Hq _ IH]; cbn; [lia|]. pose proof (Z.prime_ge_2 q Hq). nia. }
  assert (Hdiv : forall m, 1 < m -> (m | n) -> (product qs | m - 1)).
  { apply divisors_mod; [done|lia|]. intros r Hr Hd. apply product_divides; [done..|].
    eapply list.Forall_impl; [exact HK|]. intros q Hq. by apply keeps_divides. }
  split; [done|]. intros m Hm [k Hk].
  assert (Hk1 : 1 < k < n) by nia.
  assert (product qs <= m - 1).
  { apply Z.divide_pos_le; [lia|]. apply Hdiv; [lia|]. by exists k. }
  assert (product qs <= k - 1).
  { apply Z.divide_pos_le; [lia|]. apply Hdiv; [lia|]. exists m. lia. }
  nia.
Qed.
End Pocklington.

(** ** Certificates *)

(** Trial division, for the leaves of the chain. *)
Definition trial (n : Z) : bool :=
  (1 <? n) && forallb (fun k => negb (n mod Z.of_nat k =? 0)) (seq 2 (Z.to_nat (Z.sqrt n) - 1)).

Lemma trial_prime n : trial n = true -> Z.prime n.
Proof.
  intros H. apply andb_true_iff in H as [Hn HF]. apply Z.ltb_lt in Hn.
  rewrite forallb_forall in HF. split; [done|].
  assert (Hs : forall m, 1 < m -> m * m <= n -> ~ (m | n)).
  { intros m Hm Hmn Hd. apply Z.mod_divide in Hd; [|lia].
    assert (Hle : m <= Z.sqrt n) by (apply Z.sqrt_le_square; lia).
    specialize (HF (Z.to_nat m)). rewrite Z2Nat.id, Hd in HF by lia.
    discriminate HF. apply in_seq. lia. }
  intros m Hm Hd. destruct (Z.le_gt_cases (m * m) n); [apply (Hs m); [lia|done|done]|].
  destruct Hd as [k Hk]. apply (Hs k); [nia|nia|]. exists m. lia.
Qed.

(** One step of the criterion, with base 2. *)
Definition keeps_check (n q : Z) : bool :=
  let R := (n - 1) / q in
  let x := powm (BigZ.of_Z n) 2%bigZ (Z.to_pos R) in
  (q * R =? n - 1) && (0 <? R) &&
  BigZ.eqb (powm (BigZ.of_Z n) x (Z.to_pos q)) 1%bigZ &&
  BigZ.eqb (BigZ.gcd (x - 1) (BigZ.of_Z n)) 1%bigZ.

Lemma keeps_check_ok n q : 1 < n -> Z.prime q -> keeps_check n q = true -> keeps n 2 q.
Proof.
  intros Hn Hq H. unfold keeps_check in H. cbv zeta in H.
  rewrite !andb_true_iff, Z.eqb_eq, Z.ltb_lt, !BigZ.spec_eqb, !Z.eqb_eq in H.
  destruct H as [[[HR HR0] Hp] Hg]. split; [done|]. exists ((n - 1) / q).
  pose proof (Z.prime_ge_2 q Hq).
  rewrite powm_spec, BigZ.spec_of_Z, Z2Pos.id in Hp by lia.
  rewrite BigZ.spec_gcd, BigZ.spec_sub, BigZ.spec_of_Z in Hg.
  rewrite powm_spec, BigZ.spec_of_Z, Z2Pos.id in Hp, Hg by lia.
  change (BigZ.to_Z 1%bigZ) with 1 in Hp, Hg. change (BigZ.to_Z 2%bigZ) with 2 in Hp, Hg.
  rewrite Z.mod_pow_l, <- Z.pow_mul_r in Hp by lia.
  rewrite <- Z.gcd_mod_l, Zminus_mod_idemp_l, Z.gcd_mod_l in Hg.
  split_and!; [lia|lia| |done]. by replace (n - 1) with ((n - 1) / q * q) by lia.
Qed.

Definition step_check (n : Z) (qs : list Z) : bool :=
  (1 <? n) && bool_decide (NoDup qs) && forallb (keeps_check n) qs && (n <? product qs * product qs).

Lemma step_prime n qs : Forall Z.prime qs -> step_check n qs = true -> Z.prime n.
Proof.
  intros HP H. unfold step_check in H.
  rewrite !andb_true_iff, bool_decide_eq_true, !Z.ltb_lt, forallb_forall in H.
  destruct H as [[[Hn HN] HK] HF]. apply (pocklington n 2 Hn qs); [|done|done].
  rewrite list.Forall_forall in HP |- *. intros q Hq. apply keeps_check_ok; [done|by apply HP|].
  apply HK. by apply list_elem_of_In.
Qed.

Ltac prime_leaf := apply trial_prime; vm_compute; reflexivity.
Ltac prime_step ps := apply (step_prime _ ps); [repeat first [apply Forall_nil_2|apply Forall_cons_2; [assumption|]]|vm_compute; reflexivity].

(** The chain of certificates for 2^255 - 19. *)
Lemma prime_2_255_19 : Z.prime (2 ^ 255 - 19).
Proof.
  assert (Z.prime 991) by prime_leaf.
  assert (Z.prime 103) by prime_leaf.
  assert (Z.prime 127) by prime_leaf.
  assert (Z.prime 419) by prime_leaf.
  assert (Z.prime 97) by prime_leaf.
  assert (Z.prime 1723) by prime_leaf.
  assert (Z.prime 4153) by prime_leaf.
  assert (Z.prime 8574133) by prime_step [991; 103].
  assert (Z.prime 1919519569386763) by prime_step [8574133; 127].
  assert (Z.prime 569003) by prime_step [419; 97].
  assert (Z.prime 2773320623) by prime_step [569003].
  assert (Z.prime 72106336199) by prime_step [2773320623].
  assert (Z.prime 75445702479781427272750846543864801)
    by prime_step [1919519569386763; 72106336199].
  assert (Z.prime 430751) by prime_step [1723].
  assert (Z.prime 31757755568855353) by prime_step [430751; 4153].
  assert (Z.prime 74058212732561358302231226437062788676166966415465897661863160754340907)
    by prime_step [75445702479781427272750846543864801; 31757755568855353].
  prime_step [74058212732561358302231226437062788676166966415465897661863160754340907].
Qed.
