(* ===== verification/FeField.v ===== *)
(** * The limbs form the field Z/p

    With p = 2^255 - 19 prime, the exponentiations of crypto-ops.c are
    inversion and square root: [fe_invert] inverts every non-zero element and
    [fe_divpowm1] yields a root of [u/v], up to a root of -1, whenever there
    is one. *)

From Stdlib Require Import Zdivisibility ZmodInv.
From Bignums Require Import BigZ.
From S2P Require Import Prelude CInt BitField Fe FeProofs Primality.

Notation "a == b" := (eqmod p25519 a b) (at level 70, only parsing) : cn_scope.
Notation "a != b" := (~ eqmod p25519 a b) (at level 70, only parsing) : cn_scope.

Lemma eq_eqmod m a b : a = b -> eqmod m a b.
Proof. by intros ->. Qed.

(** ** The field *)

Lemma p_prime : Z.prime p25519.
Proof. exact prime_2_255_19. Qed.

Lemma eqmod_0 a : a == 0 <-> (p25519 | a).
Proof. rewrite eqmod_divide by done. by rewrite Z.sub_0_r. Qed.

Lemma eqmod_sub_0 a b : a - b == 0 <-> a == b.
Proof. rewrite eqmod_0. symmetry. by apply eqmod_divide. Qed.

Lemma mul_zero a b : a * b == 0 -> a == 0 \/ b == 0.
Proof. rewrite !eqmod_0. intros H. by apply Z.divide_prime_mul in H; [|exact p_prime]. Qed.

Lemma mul_nonzero a b : a != 0 -> b != 0 -> a * b != 0.
Proof. intros Ha Hb H. by apply mul_zero in H as [|]. Qed.

Lemma mul_cancel a b c : a != 0 -> a * b == a * c -> b == c.
Proof.
  intros Ha H. apply eqmod_sub_0 in H.
  destruct (mul_zero a (b - c)) as [?|Hb]; [|done|by apply eqmod_sub_0].
  etransitivity; [|exact H]. apply eq_eqmod. ring.
Qed.

Lemma neq_eval a b : (a mod p25519 =? b mod p25519) = false -> a != b.
Proof. by rewrite Z.eqb_neq. Qed.

Ltac neq_tac := apply neq_eval; vm_compute; reflexivity.

Lemma one_nonzero : 1 != 0.
Proof. neq_tac. Qed.

Lemma fermat a : a != 0 -> a ^ (p25519 - 1) == 1.
Proof. intros Ha. unfold eqmod. by rewrite (Z.fermat_nz p25519 a p_prime). Qed.

Lemma eqmod_dec a b : a == b \/ a != b.
Proof. unfold eqmod. destruct (Z.eq_dec (a mod p25519) (b mod p25519)); auto. Qed.

(** A root of unity of order two is 1 or -1; equal squares have equal or
    opposite roots. *)
Lemma square_roots a b : a * a == b * b -> a == b \/ a == - b.
Proof.
  intros H. destruct (mul_zero (a - b) (a + b)) as [Hz|Hz].
  - apply eqmod_sub_0 in H. etransitivity; [|exact H]. apply eq_eqmod. ring.
  - left. by apply eqmod_sub_0.
  - right. apply eqmod_sub_0. rewrite <- Hz. apply eq_eqmod. ring.
Qed.

Lemma inv_pow a : a != 0 -> a * a ^ (p25519 - 2) == 1.
Proof.
  intros Ha. rewrite <- Z.pow_succ_r by (unfold p25519; lia).
  replace (Z.succ (p25519 - 2)) with (p25519 - 1) by lia. by apply fermat.
Qed.

(** ** Square roots of ratios *)

Section SqrtRatio.
Context (m : Z) (Hp : 8 * m + 5 = p25519) (Hm : 0 <= m).

Lemma sqrt_ratio_nonzero x v : v != 0 ->
  (v * (x * x)) ^ (m + 1) * v ^ (7 * m + 3) == x ^ (2 * m + 2).
Proof using Hp Hm.
  intros Hv. rewrite Z.pow_mul_l, <- (Z.pow_2_r x), <- Z.pow_mul_r by lia.
  transitivity (v ^ (p25519 - 1) * x ^ (2 * (m + 1))).
  - apply eq_eqmod. replace (p25519 - 1) with ((m + 1) + (7 * m + 3)) by lia.
    rewrite (Z.pow_add_r v (m + 1) (7 * m + 3)) by lia. generalize (v ^ (m + 1)), (v ^ (7 * m + 3)). intros. ring.
  - rewrite fermat by done. apply eq_eqmod. rewrite Z.mul_1_l. f_equal. lia.
Qed.

(** If [u = v x^2] then the candidate squares to [u/v] or to [-u/v]. *)
Lemma sqrt_ratio u v x (c := u ^ (m + 1) * v ^ (7 * m + 3)) :
  u == v * (x * x) -> v * (c * c) == u \/ v * (c * c) == - u.
Proof using Hp Hm.
  intros Hu. subst c. rewrite Hu.
  destruct (eqmod_dec v 0) as [Hv|Hv].
  { left. rewrite Hv. by rewrite !Z.mul_0_l. }
  rewrite (sqrt_ratio_nonzero x v Hv).
  destruct (eqmod_dec x 0) as [Hx|Hx].
  { left. rewrite Hx, Z.pow_0_l, Z.mul_0_r by lia. done. }
  assert (Hs : x ^ (4 * m + 2) * x ^ (4 * m + 2) == 1 * 1).
  { rewrite <- Z.pow_add_r by lia. replace (4 * m + 2 + (4 * m + 2)) with (p25519 - 1) by lia.
    by apply fermat. }
  assert (He : v * (x ^ (2 * m + 2) * x ^ (2 * m + 2)) = v * (x * x) * x ^ (4 * m + 2)).
  { rewrite <- Z.pow_add_r by lia.
    replace (2 * m + 2 + (2 * m + 2)) with (2 + (4 * m + 2)) by lia.
    rewrite Z.pow_add_r, Z.pow_2_r by lia. ring. }
  rewrite He. destruct (square_roots _ _ Hs) as [H1|H1]; [left|right]; rewrite H1; apply eq_eqmod; ring.
Qed.
End SqrtRatio.

(** ** Non-squares *)

Lemma nonsquare a : a ^ ((p25519 - 1) / 2) == -1 -> forall x, x * x != a.
Proof.
  intros Ha x Hx. rewrite <- Hx in Ha.
  assert (Hp : 2 * ((p25519 - 1) / 2) = p25519 - 1) by reflexivity.
  destruct (eqmod_dec x 0) as [H0|H0].
  - rewrite H0, Z.pow_0_l in Ha by reflexivity. revert Ha. neq_tac.
  - rewrite <- Z.pow_2_r, <- Z.pow_mul_r, Hp, fermat in Ha by (assumption || discriminate).
    revert Ha. neq_tac.
Qed.

Lemma pow_eval a e r : 0 <= a -> 
  BigZ.to_Z (powm (BigZ.of_Z p25519) (BigZ.of_Z a) e) = r -> a ^ Zpos e == r.
Proof.
  intros Ha <-. rewrite powm_spec, !BigZ.spec_of_Z. by rewrite eqmod_mod.
Qed.

Lemma fe_divpowm1_root u v x : fbnd 330 u -> fbnd 330 v -> fval u == fval v * (x * x) ->
  let c := fval (fe_divpowm1 u v) in
  fbnd 101 (fe_divpowm1 u v) /\ (fval v * (c * c) == fval u \/ fval v * (c * c) == - fval u).
Proof.
  intros Hu Hv Hx. destruct (fe_divpowm1_ok u v Hu Hv) as [Hb Hc]. split; [done|].
  rewrite Hc. apply (sqrt_ratio ((p25519 - 5) / 8) eq_refl ltac:(done) (fval u) (fval v) x Hx).
Qed.

(** ** Claims *)

(** Limbs of a sample element: the field constant sqrt(-1) of the code. *)
Definition sample_fe : list Z :=
  [-32595792; -7943725; 9377950; 3500415; 12389472; -272473; -25146209; -2005654; 326686; 11406482].

Lemma sample_fe_bound k : 101 <= k -> fbnd k sample_fe.
Proof.
  intros Hk. apply (fbnd_mono 101 k); [exact Hk|].
  repeat constructor; vm_compute; intuition discriminate.
Qed.

(** C18: [fe_mul] multiplies in Z/p.  For limbs up to 3.3 times the reduced
    size the product is congruent to the product of the values, its limbs are
    back within 1.01 times the reduced size, and no 32-bit or 64-bit
    operation of the hundred products and the carry chain overflows. *)
Theorem fe_mul_correct f g : fbnd 330 f -> fbnd 330 g ->
  fbnd 101 (fe_mul f g) /\ fval (fe_mul f g) == fval f * fval g /\
  fe_mul (Some <$> f) (Some <$> g) = Some <$> fe_mul f g.
Proof.
  intros Hf Hg. destruct (fe_mul_ok f g Hf Hg). split_and!; [done|done|by apply fe_mul_checked].
Qed.

Lemma fe_mul_correct_witness :
  fbnd 101 (fe_mul sample_fe sample_fe) /\
  fval (fe_mul sample_fe sample_fe) == fval sample_fe * fval sample_fe /\
  fe_mul (Some <$> sample_fe) (Some <$> sample_fe) = Some <$> fe_mul sample_fe sample_fe.
Proof. apply (fe_mul_correct sample_fe sample_fe); apply sample_fe_bound; lia. Defined.

(** The two specialised squarings agree with multiplication: [fe_sq] is
    the square and [fe_sq2] twice the square, with the same bounds and
    without overflow. *)
Theorem fe_squares_correct f : fbnd 330 f ->
  (fbnd 101 (fe_sq f) /\ fval (fe_sq f) == fval f * fval f /\
   fe_sq (Some <$> f) = Some <$> fe_sq f) /\
  (fbnd 101 (fe_sq2 f) /\ fval (fe_sq2 f) == 2 * (fval f * fval f) /\
   fe_sq2 (Some <$> f) = Some <$> fe_sq2 f).
Proof.
  intros Hf. destruct (fe_sq_ok f Hf), (fe_sq2_ok f Hf).
  split_and!; [done|done|by apply fe_sq_checked|done|done|by apply fe_sq2_checked].
Qed.

Lemma fe_squares_correct_witness : fval (fe_sq sample_fe) == fval sample_fe * fval sample_fe.
Proof. apply (fe_squares_correct sample_fe). apply sample_fe_bound. lia. Defined.

(** [fe_tobytes] writes the canonical encoding, the little-endian bytes of
    the representative in [0, p); two elements have the same encoding exactly
    when they are equal in the field. *)
Theorem fe_tobytes_canonical f g : fbnd 330 f -> fbnd 330 g ->
  fe_tobytes f = le_bytes 32 (fval f mod p25519) /\
  (fe_tobytes f = fe_tobytes g <-> fval f == fval g).
Proof.
  intros Hf Hg. split; [by apply fe_tobytes_ok|]. split; [by apply fe_tobytes_inj|].
  intros He. rewrite !fe_tobytes_ok by done. by rewrite He.
Qed.

Lemma fe_tobytes_canonical_witness :
  fe_tobytes sample_fe = le_bytes 32 (fval sample_fe mod p25519) /\
  (fe_tobytes sample_fe = fe_tobytes sample_fe <-> fval sample_fe == fval sample_fe).
Proof. apply (fe_tobytes_canonical sample_fe sample_fe); apply sample_fe_bound; lia. Defined.

(** [fe_isnegative] is the parity of the canonical representative and
    [fe_isnonzero] is 0 exactly on the zero of the field. *)
Theorem fe_tests_correct f : fbnd 330 f ->
  fe_isnegative f = (fval f mod p25519) mod 2 /\ (fe_isnonzero f = 0 <-> fval f == 0) /\
  (fe_isnonzero f = 1 <-> fval f != 0).
Proof.
  intros Hf. split; [by apply fe_isnegative_ok|]. rewrite fe_isnonzero_ok by done.
  unfold eqmod. change (0 mod p25519) with 0. destruct (Z.eqb_spec (fval f mod p25519) 0); lia.
Qed.

Lemma fe_tests_correct_witness : fe_isnegative sample_fe = (fval sample_fe mod p25519) mod 2.
Proof. apply (fe_tests_correct sample_fe). apply sample_fe_bound. lia. Defined.

(** The addition chain of [fe_invert] inverts: the result times the
    argument is 1 for every non-zero element, and 0 is mapped to 0. *)
Theorem fe_invert_correct z : fbnd 330 z ->
  fbnd 101 (fe_invert z) /\
  (fval z != 0 -> fval z * fval (fe_invert z) == 1) /\
  (fval z == 0 -> fval (fe_invert z) == 0).
Proof.
  intros Hz. destruct (fe_invert_ok z Hz) as [Hb Hv]. split; [done|].
  split; intros Hz0; rewrite Hv; [by apply inv_pow|]. rewrite Hz0. by rewrite Z.pow_0_l.
Qed.

Lemma fe_invert_correct_witness : fval sample_fe * fval (fe_invert sample_fe) == 1.
Proof.
  apply (fe_invert_correct sample_fe); [apply sample_fe_bound; lia|].
  apply neq_eval. vm_compute. reflexivity.
Defined.

(** [fe_divpowm1 u v] finds square roots of ratios: if [u = v x^2] for
    some [x], its result [c] satisfies [v c^2 = u] or [v c^2 = -u]. *)
Theorem fe_divpowm1_correct u v x : fbnd 330 u -> fbnd 330 v ->
  fval u == fval v * (x * x) ->
  let c := fval (fe_divpowm1 u v) in
  fbnd 101 (fe_divpowm1 u v) /\ (fval v * (c * c) == fval u \/ fval v * (c * c) == - fval u).
Proof. apply fe_divpowm1_root. Qed.

Lemma fe_divpowm1_correct_witness :
  let c := fval (fe_divpowm1 sample_fe sample_fe) in
  fbnd 101 (fe_divpowm1 sample_fe sample_fe) /\
  (fval sample_fe * (c * c) == fval sample_fe \/ fval sample_fe * (c * c) == - fval sample_fe).
Proof.
  apply (fe_divpowm1_correct sample_fe sample_fe 1); [apply sample_fe_bound; lia..|].
  apply eq_eqmod. ring.
Defined.

(** [fe_cmov] moves without branching: it keeps [f] for 0 and replaces it
    by [g] for 1, and those are the only flags its assertion lets through. *)
Theorem fe_cmov_correct f g b : is_u8 b -> fbnd 6300 f -> fbnd 6300 g ->
  (cmov_assert b = true <-> b = 0 \/ b = 1) /\
  (cmov_assert b = true -> fe_cmov f g b = if b =? 1 then g else f).
Proof.
  intros Hb Hf Hg. pose proof (cmov_assert_ok b Hb) as Ha. split; [done|].
  intros H. apply Ha in H. rewrite fe_cmov_ok by done. destruct H as [-> | ->]; done.
Qed.

Lemma fe_cmov_correct_witness : fe_cmov sample_fe [1; 2; 3; 4; 5; 6; 7; 8; 9; 10] 1 = [1; 2; 3; 4; 5; 6; 7; 8; 9; 10].
Proof.
  apply (fe_cmov_correct sample_fe [1; 2; 3; 4; 5; 6; 7; 8; 9; 10] 1);
    [vm_compute; intuition congruence|apply sample_fe_bound; lia| |reflexivity].
  repeat constructor; vm_compute; intuition discriminate.
Defined.
