(* ===== verification/Sc.v ===== *)
(** * Scalars modulo the group order: crypto-ops.c, [sc_*]

    A scalar is 32 bytes.  The functions unpack it into limbs of 21 bits held
    in [int64_t] variables [s0 ... s23], multiply, fold the limbs above 2^252
    back with the constants of [l], carry, and pack the result.  The limbs are
    a list; each of the three idioms of the source is one operation on it:
    - [carry_r i]: [carry = (s_i + (1<<20)) >> 21; s_(i+1) += carry; s_i -= carry << 21];
    - [carry_f i]: the same without the rounding term;
    - [fold_l i]: [s_(i-12) += s_i * 666643; ...; s_(i-7) -= s_i * 683901].
    A folded limb is dead, it keeps its value until [s12 = 0] reuses it. *)

From S2P Require Import Prelude CInt Fe.

Section Sc.
Context {A : Type} {C : CInt A}.

Definition carry_r (i : nat) (h : list A) : list A := carry 64 (2 ^ 20) 21 i (S i) h.
Definition carry_f (i : nat) (h : list A) : list A := carry 64 0 21 i (S i) h.

Definition fold_l (i : nat) (h : list A) : list A :=
  h |> addmul 64 666643 i (i - 12) |> addmul 64 470296 i (i - 11)
    |> addmul 64 654183 i (i - 10) |> submul 64 997805 i (i - 9)
    |> addmul 64 136657 i (i - 8) |> submul 64 683901 i (i - 7).

(** The end of every [sc_*]: two rounds of carries, the fold of [s12], the
    floor carries, the second fold and the last floor carries. *)
Definition sc_round (h : list A) : list A :=
  h |> carry_r 0 |> carry_r 2 |> carry_r 4 |> carry_r 6 |> carry_r 8 |> carry_r 10
    |> carry_r 1 |> carry_r 3 |> carry_r 5 |> carry_r 7 |> carry_r 9 |> carry_r 11
    |> fold_l 12 |> clear 12.

Definition sc_floor (h : list A) : list A :=
  h |> carry_f 0 |> carry_f 1 |> carry_f 2 |> carry_f 3 |> carry_f 4 |> carry_f 5
    |> carry_f 6 |> carry_f 7 |> carry_f 8 |> carry_f 9 |> carry_f 10 |> carry_f 11.

Definition sc_last (h : list A) : list A :=
  h |> fold_l 12 |> carry_f 0 |> carry_f 1 |> carry_f 2 |> carry_f 3 |> carry_f 4
    |> carry_f 5 |> carry_f 6 |> carry_f 7 |> carry_f 8 |> carry_f 9 |> carry_f 10.

Definition sc_finish (h : list A) : list A := sc_last (sc_floor (sc_round h)).

(** The 24-limb reduction of [sc_reduce], [sc_mul], [sc_muladd], [sc_mulsub]. *)
Definition sc_fold_high (h : list A) : list A :=
  h |> fold_l 23 |> fold_l 22 |> fold_l 21 |> fold_l 20 |> fold_l 19 |> fold_l 18
    |> carry_r 6 |> carry_r 8 |> carry_r 10 |> carry_r 12 |> carry_r 14 |> carry_r 16
    |> carry_r 7 |> carry_r 9 |> carry_r 11 |> carry_r 13 |> carry_r 15.

Definition sc_fold_low (h : list A) : list A :=
  h |> fold_l 17 |> fold_l 16 |> fold_l 15 |> fold_l 14 |> fold_l 13 |> fold_l 12
    |> clear 12.

Definition sc_reduce_limbs (h : list A) : list A :=
  sc_finish (sc_fold_low (sc_fold_high h)).

(** The carries after a product. *)
Definition sc_wide_carry (h : list A) : list A :=
  h |> carry_r 0 |> carry_r 2 |> carry_r 4 |> carry_r 6 |> carry_r 8 |> carry_r 10
    |> carry_r 12 |> carry_r 14 |> carry_r 16 |> carry_r 18 |> carry_r 20
    |> carry_r 22 |> carry_r 1 |> carry_r 3 |> carry_r 5 |> carry_r 7 |> carry_r 9
    |> carry_r 11 |> carry_r 13 |> carry_r 15 |> carry_r 17 |> carry_r 19
    |> carry_r 21.

Definition sc_add_limbs (a b : list A) : list A :=
  [ limb a 0 [+] limb b 0; limb a 1 [+] limb b 1; limb a 2 [+] limb b 2;
    limb a 3 [+] limb b 3; limb a 4 [+] limb b 4; limb a 5 [+] limb b 5;
    limb a 6 [+] limb b 6; limb a 7 [+] limb b 7; limb a 8 [+] limb b 8;
    limb a 9 [+] limb b 9; limb a 10 [+] limb b 10; limb a 11 [+] limb b 11; lit 0 ].

Definition sc_sub_limbs (a b : list A) : list A :=
  [ limb a 0 [-] limb b 0; limb a 1 [-] limb b 1; limb a 2 [-] limb b 2;
    limb a 3 [-] limb b 3; limb a 4 [-] limb b 4; limb a 5 [-] limb b 5;
    limb a 6 [-] limb b 6; limb a 7 [-] limb b 7; limb a 8 [-] limb b 8;
    limb a 9 [-] limb b 9; limb a 10 [-] limb b 10; limb a 11 [-] limb b 11; lit 0 ].

Definition sc_mul_products (a b : list A) : list A :=
  let: a0 := limb a 0 in let: a1 := limb a 1 in let: a2 := limb a 2 in let: a3 := limb a 3 in
  let: a4 := limb a 4 in let: a5 := limb a 5 in let: a6 := limb a 6 in let: a7 := limb a 7 in
  let: a8 := limb a 8 in let: a9 := limb a 9 in let: a10 := limb a 10 in
  let: a11 := limb a 11 in let: b0 := limb b 0 in let: b1 := limb b 1 in
  let: b2 := limb b 2 in let: b3 := limb b 3 in let: b4 := limb b 4 in let: b5 := limb b 5 in
  let: b6 := limb b 6 in let: b7 := limb b 7 in let: b8 := limb b 8 in let: b9 := limb b 9 in
  let: b10 := limb b 10 in let: b11 := limb b 11 in
  [ a0 [*] b0;
    a0 [*] b1 [+] a1 [*] b0;
    a0 [*] b2 [+] a1 [*] b1 [+] a2 [*] b0;
    a0 [*] b3 [+] a1 [*] b2 [+] a2 [*] b1 [+] a3 [*] b0;
    a0 [*] b4 [+] a1 [*] b3 [+] a2 [*] b2 [+] a3 [*] b1 [+] a4 [*] b0;
    a0 [*] b5 [+] a1 [*] b4 [+] a2 [*] b3 [+] a3 [*] b2 [+] a4 [*] b1 [+] a5 [*] b0;
    a0 [*] b6 [+] a1 [*] b5 [+] a2 [*] b4 [+] a3 [*] b3 [+] a4 [*] b2 [+] a5 [*] b1
      [+] a6 [*] b0;
    a0 [*] b7 [+] a1 [*] b6 [+] a2 [*] b5 [+] a3 [*] b4 [+] a4 [*] b3 [+] a5 [*] b2
      [+] a6 [*] b1 [+] a7 [*] b0;
    a0 [*] b8 [+] a1 [*] b7 [+] a2 [*] b6 [+] a3 [*] b5 [+] a4 [*] b4 [+] a5 [*] b3
      [+] a6 [*] b2 [+] a7 [*] b1 [+] a8 [*] b0;
    a0 [*] b9 [+] a1 [*] b8 [+] a2 [*] b7 [+] a3 [*] b6 [+] a4 [*] b5 [+] a5 [*] b4
      [+] a6 [*] b3 [+] a7 [*] b2 [+] a8 [*] b1 [+] a9 [*] b0;
    a0 [*] b10 [+] a1 [*] b9 [+] a2 [*] b8 [+] a3 [*] b7 [+] a4 [*] b6 [+] a5 [*] b5
      [+] a6 [*] b4 [+] a7 [*] b3 [+] a8 [*] b2 [+] a9 [*] b1 [+] a10 [*] b0;
    a0 [*] b11 [+] a1 [*] b10 [+] a2 [*] b9 [+] a3 [*] b8 [+] a4 [*] b7 [+] a5 [*] b6
      [+] a6 [*] b5 [+] a7 [*] b4 [+] a8 [*] b3 [+] a9 [*] b2 [+] a10 [*] b1
      [+] a11 [*] b0;
    a1 [*] b11 [+] a2 [*] b10 [+] a3 [*] b9 [+] a4 [*] b8 [+] a5 [*] b7 [+] a6 [*] b6
      [+] a7 [*] b5 [+] a8 [*] b4 [+] a9 [*] b3 [+] a10 [*] b2 [+] a11 [*] b1;
    a2 [*] b11 [+] a3 [*] b10 [+] a4 [*] b9 [+] a5 [*] b8 [+] a6 [*] b7 [+] a7 [*] b6
      [+] a8 [*] b5 [+] a9 [*] b4 [+] a10 [*] b3 [+] a11 [*] b2;
    a3 [*] b11 [+] a4 [*] b10 [+] a5 [*] b9 [+] a6 [*] b8 [+] a7 [*] b7 [+] a8 [*] b6
      [+] a9 [*] b5 [+] a10 [*] b4 [+] a11 [*] b3;
    a4 [*] b11 [+] a5 [*] b10 [+] a6 [*] b9 [+] a7 [*] b8 [+] a8 [*] b7 [+] a9 [*] b6
      [+] a10 [*] b5 [+] a11 [*] b4;
    a5 [*] b11 [+] a6 [*] b10 [+] a7 [*] b9 [+] a8 [*] b8 [+] a9 [*] b7 [+] a10 [*] b6
      [+] a11 [*] b5;
    a6 [*] b11 [+] a7 [*] b10 [+] a8 [*] b9 [+] a9 [*] b8 [+] a10 [*] b7 [+] a11 [*] b6;
    a7 [*] b11 [+] a8 [*] b10 [+] a9 [*] b9 [+] a10 [*] b8 [+] a11 [*] b7;
    a8 [*] b11 [+] a9 [*] b10 [+] a10 [*] b9 [+] a11 [*] b8;
    a9 [*] b11 [+] a10 [*] b10 [+] a11 [*] b9;
    a10 [*] b11 [+] a11 [*] b10;
    a11 [*] b11;
    lit 0 ].

Definition sc_muladd_products (a b c : list A) : list A :=
  let: a0 := limb a 0 in let: a1 := limb a 1 in let: a2 := limb a 2 in let: a3 := limb a 3 in
  let: a4 := limb a 4 in let: a5 := limb a 5 in let: a6 := limb a 6 in let: a7 := limb a 7 in
  let: a8 := limb a 8 in let: a9 := limb a 9 in let: a10 := limb a 10 in
  let: a11 := limb a 11 in let: b0 := limb b 0 in let: b1 := limb b 1 in
  let: b2 := limb b 2 in let: b3 := limb b 3 in let: b4 := limb b 4 in let: b5 := limb b 5 in
  let: b6 := limb b 6 in let: b7 := limb b 7 in let: b8 := limb b 8 in let: b9 := limb b 9 in
  let: b10 := limb b 10 in let: b11 := limb b 11 in let: c0 := limb c 0 in
  let: c1 := limb c 1 in let: c2 := limb c 2 in let: c3 := limb c 3 in let: c4 := limb c 4 in
  let: c5 := limb c 5 in let: c6 := limb c 6 in let: c7 := limb c 7 in let: c8 := limb c 8 in
  let: c9 := limb c 9 in let: c10 := limb c 10 in let: c11 := limb c 11 in
  [ c0 [+] a0 [*] b0;
    c1 [+] (a0 [*] b1 [+] a1 [*] b0);
    c2 [+] (a0 [*] b2 [+] a1 [*] b1 [+] a2 [*] b0);
    c3 [+] (a0 [*] b3 [+] a1 [*] b2 [+] a2 [*] b1 [+] a3 [*] b0);
    c4 [+] (a0 [*] b4 [+] a1 [*] b3 [+] a2 [*] b2 [+] a3 [*] b1 [+] a4 [*] b0);
    c5 [+] (a0 [*] b5 [+] a1 [*] b4 [+] a2 [*] b3 [+] a3 [*] b2 [+] a4 [*] b1
      [+] a5 [*] b0);
    c6 [+] (a0 [*] b6 [+] a1 [*] b5 [+] a2 [*] b4 [+] a3 [*] b3 [+] a4 [*] b2
      [+] a5 [*] b1 [+] a6 [*] b0);
    c7 [+] (a0 [*] b7 [+] a1 [*] b6 [+] a2 [*] b5 [+] a3 [*] b4 [+] a4 [*] b3
      [+] a5 [*] b2 [+] a6 [*] b1 [+] a7 [*] b0);
    c8 [+] (a0 [*] b8 [+] a1 [*] b7 [+] a2 [*] b6 [+] a3 [*] b5 [+] a4 [*] b4
      [+] a5 [*] b3 [+] a6 [*] b2 [+] a7 [*] b1 [+] a8 [*] b0);
    c9 [+] (a0 [*] b9 [+] a1 [*] b8 [+] a2 [*] b7 [+] a3 [*] b6 [+] a4 [*] b5
      [+] a5 [*] b4 [+] a6 [*] b3 [+] a7 [*] b2 [+] a8 [*] b1 [+] a9 [*] b0);
    c10 [+] (a0 [*] b10 [+] a1 [*] b9 [+] a2 [*] b8 [+] a3 [*] b7 [+] a4 [*] b6
      [+] a5 [*] b5 [+] a6 [*] b4 [+] a7 [*] b3 [+] a8 [*] b2 [+] a9 [*] b1
      [+] a10 [*] b0);
    c11 [+] (a0 [*] b11 [+] a1 [*] b10 [+] a2 [*] b9 [+] a3 [*] b8 [+] a4 [*] b7
      [+] a5 [*] b6 [+] a6 [*] b5 [+] a7 [*] b4 [+] a8 [*] b3 [+] a9 [*] b2 [+] a10 [*] b1
      [+] a11 [*] b0);
    a1 [*] b11 [+] a2 [*] b10 [+] a3 [*] b9 [+] a4 [*] b8 [+] a5 [*] b7 [+] a6 [*] b6
      [+] a7 [*] b5 [+] a8 [*] b4 [+] a9 [*] b3 [+] a10 [*] b2 [+] a11 [*] b1;
    a2 [*] b11 [+] a3 [*] b10 [+] a4 [*] b9 [+] a5 [*] b8 [+] a6 [*] b7 [+] a7 [*] b6
      [+] a8 [*] b5 [+] a9 [*] b4 [+] a10 [*] b3 [+] a11 [*] b2;
    a3 [*] b11 [+] a4 [*] b10 [+] a5 [*] b9 [+] a6 [*] b8 [+] a7 [*] b7 [+] a8 [*] b6
      [+] a9 [*] b5 [+] a10 [*] b4 [+] a11 [*] b3;
    a4 [*] b11 [+] a5 [*] b10 [+] a6 [*] b9 [+] a7 [*] b8 [+] a8 [*] b7 [+] a9 [*] b6
      [+] a10 [*] b5 [+] a11 [*] b4;
    a5 [*] b11 [+] a6 [*] b10 [+] a7 [*] b9 [+] a8 [*] b8 [+] a9 [*] b7 [+] a10 [*] b6
      [+] a11 [*] b5;
    a6 [*] b11 [+] a7 [*] b10 [+] a8 [*] b9 [+] a9 [*] b8 [+] a10 [*] b7 [+] a11 [*] b6;
    a7 [*] b11 [+] a8 [*] b10 [+] a9 [*] b9 [+] a10 [*] b8 [+] a11 [*] b7;
    a8 [*] b11 [+] a9 [*] b10 [+] a10 [*] b9 [+] a11 [*] b8;
    a9 [*] b11 [+] a10 [*] b10 [+] a11 [*] b9;
    a10 [*] b11 [+] a11 [*] b10;
    a11 [*] b11;
    lit 0 ].

Definition sc_mulsub_products (a b c : list A) : list A :=
  let: a0 := limb a 0 in let: a1 := limb a 1 in let: a2 := limb a 2 in let: a3 := limb a 3 in
  let: a4 := limb a 4 in let: a5 := limb a 5 in let: a6 := limb a 6 in let: a7 := limb a 7 in
  let: a8 := limb a 8 in let: a9 := limb a 9 in let: a10 := limb a 10 in
  let: a11 := limb a 11 in let: b0 := limb b 0 in let: b1 := limb b 1 in
  let: b2 := limb b 2 in let: b3 := limb b 3 in let: b4 := limb b 4 in let: b5 := limb b 5 in
  let: b6 := limb b 6 in let: b7 := limb b 7 in let: b8 := limb b 8 in let: b9 := limb b 9 in
  let: b10 := limb b 10 in let: b11 := limb b 11 in let: c0 := limb c 0 in
  let: c1 := limb c 1 in let: c2 := limb c 2 in let: c3 := limb c 3 in let: c4 := limb c 4 in
  let: c5 := limb c 5 in let: c6 := limb c 6 in let: c7 := limb c 7 in let: c8 := limb c 8 in
  let: c9 := limb c 9 in let: c10 := limb c 10 in let: c11 := limb c 11 in
  [ c0 [-] (a0 [*] b0);
    c1 [-] (a0 [*] b1 [+] a1 [*] b0);
    c2 [-] (a0 [*] b2 [+] a1 [*] b1 [+] a2 [*] b0);
    c3 [-] (a0 [*] b3 [+] a1 [*] b2 [+] a2 [*] b1 [+] a3 [*] b0);
    c4 [-] (a0 [*] b4 [+] a1 [*] b3 [+] a2 [*] b2 [+] a3 [*] b1 [+] a4 [*] b0);
    c5 [-] (a0 [*] b5 [+] a1 [*] b4 [+] a2 [*] b3 [+] a3 [*] b2 [+] a4 [*] b1
      [+] a5 [*] b0);
    c6 [-] (a0 [*] b6 [+] a1 [*] b5 [+] a2 [*] b4 [+] a3 [*] b3 [+] a4 [*] b2
      [+] a5 [*] b1 [+] a6 [*] b0);
    c7 [-] (a0 [*] b7 [+] a1 [*] b6 [+] a2 [*] b5 [+] a3 [*] b4 [+] a4 [*] b3
      [+] a5 [*] b2 [+] a6 [*] b1 [+] a7 [*] b0);
    c8 [-] (a0 [*] b8 [+] a1 [*] b7 [+] a2 [*] b6 [+] a3 [*] b5 [+] a4 [*] b4
      [+] a5 [*] b3 [+] a6 [*] b2 [+] a7 [*] b1 [+] a8 [*] b0);
    c9 [-] (a0 [*] b9 [+] a1 [*] b8 [+] a2 [*] b7 [+] a3 [*] b6 [+] a4 [*] b5
      [+] a5 [*] b4 [+] a6 [*] b3 [+] a7 [*] b2 [+] a8 [*] b1 [+] a9 [*] b0);
    c10 [-] (a0 [*] b10 [+] a1 [*] b9 [+] a2 [*] b8 [+] a3 [*] b7 [+] a4 [*] b6
      [+] a5 [*] b5 [+] a6 [*] b4 [+] a7 [*] b3 [+] a8 [*] b2 [+] a9 [*] b1
      [+] a10 [*] b0);
    c11 [-] (a0 [*] b11 [+] a1 [*] b10 [+] a2 [*] b9 [+] a3 [*] b8 [+] a4 [*] b7
      [+] a5 [*] b6 [+] a6 [*] b5 [+] a7 [*] b4 [+] a8 [*] b3 [+] a9 [*] b2 [+] a10 [*] b1
      [+] a11 [*] b0);
    lit 0 [-] (a1 [*] b11 [+] a2 [*] b10 [+] a3 [*] b9 [+] a4 [*] b8 [+] a5 [*] b7
      [+] a6 [*] b6 [+] a7 [*] b5 [+] a8 [*] b4 [+] a9 [*] b3 [+] a10 [*] b2
      [+] a11 [*] b1);
    lit 0 [-] (a2 [*] b11 [+] a3 [*] b10 [+] a4 [*] b9 [+] a5 [*] b8 [+] a6 [*] b7
      [+] a7 [*] b6 [+] a8 [*] b5 [+] a9 [*] b4 [+] a10 [*] b3 [+] a11 [*] b2);
    lit 0 [-] (a3 [*] b11 [+] a4 [*] b10 [+] a5 [*] b9 [+] a6 [*] b8 [+] a7 [*] b7
      [+] a8 [*] b6 [+] a9 [*] b5 [+] a10 [*] b4 [+] a11 [*] b3);
    lit 0 [-] (a4 [*] b11 [+] a5 [*] b10 [+] a6 [*] b9 [+] a7 [*] b8 [+] a8 [*] b7
      [+] a9 [*] b6 [+] a10 [*] b5 [+] a11 [*] b4);
    lit 0 [-] (a5 [*] b11 [+] a6 [*] b10 [+] a7 [*] b9 [+] a8 [*] b8 [+] a9 [*] b7
      [+] a10 [*] b6 [+] a11 [*] b5);
    lit 0 [-] (a6 [*] b11 [+] a7 [*] b10 [+] a8 [*] b9 [+] a9 [*] b8 [+] a10 [*] b7
      [+] a11 [*] b6);
    lit 0 [-] (a7 [*] b11 [+] a8 [*] b10 [+] a9 [*] b9 [+] a10 [*] b8 [+] a11 [*] b7);
    lit 0 [-] (a8 [*] b11 [+] a9 [*] b10 [+] a10 [*] b9 [+] a11 [*] b8);
    lit 0 [-] (a9 [*] b11 [+] a10 [*] b10 [+] a11 [*] b9);
    lit 0 [-] (a10 [*] b11 [+] a11 [*] b10);
    (lit 0 [-] a11) [*] b11;
    lit 0 ].
End Sc.

(** ** Bytes to limbs and back *)

Definition sc_load (b : bytes) : list Z :=
  [ 2097151 .& load_3 b 0; 2097151 .& (load_4 b 2 .>> 5); 2097151 .& (load_3 b 5 .>> 2);
    2097151 .& (load_4 b 7 .>> 7); 2097151 .& (load_4 b 10 .>> 4);
    2097151 .& (load_3 b 13 .>> 1); 2097151 .& (load_4 b 15 .>> 6);
    2097151 .& (load_3 b 18 .>> 3); 2097151 .& load_3 b 21; 2097151 .& (load_4 b 23 .>> 5);
    2097151 .& (load_3 b 26 .>> 2); load_4 b 28 .>> 7 ].

Definition sc_load_wide (b : bytes) : list Z :=
  [ 2097151 .& load_3 b 0; 2097151 .& (load_4 b 2 .>> 5); 2097151 .& (load_3 b 5 .>> 2);
    2097151 .& (load_4 b 7 .>> 7); 2097151 .& (load_4 b 10 .>> 4);
    2097151 .& (load_3 b 13 .>> 1); 2097151 .& (load_4 b 15 .>> 6);
    2097151 .& (load_3 b 18 .>> 3); 2097151 .& load_3 b 21; 2097151 .& (load_4 b 23 .>> 5);
    2097151 .& (load_3 b 26 .>> 2); 2097151 .& (load_4 b 28 .>> 7);
    2097151 .& (load_4 b 31 .>> 4); 2097151 .& (load_3 b 34 .>> 1);
    2097151 .& (load_4 b 36 .>> 6); 2097151 .& (load_3 b 39 .>> 3); 2097151 .& load_3 b 42;
    2097151 .& (load_4 b 44 .>> 5); 2097151 .& (load_3 b 47 .>> 2);
    2097151 .& (load_4 b 49 .>> 7); 2097151 .& (load_4 b 52 .>> 4);
    2097151 .& (load_3 b 55 .>> 1); 2097151 .& (load_4 b 57 .>> 6); load_4 b 60 .>> 3 ].

Definition sc_store (h : list Z) : bytes :=
  [ u8 (limb h 0 .>> 0); u8 (limb h 0 .>> 8);
    u8 ((limb h 0 .>> 16) .| i64 (limb h 1 .<< 5)); u8 (limb h 1 .>> 3);
    u8 (limb h 1 .>> 11); u8 ((limb h 1 .>> 19) .| i64 (limb h 2 .<< 2));
    u8 (limb h 2 .>> 6); u8 ((limb h 2 .>> 14) .| i64 (limb h 3 .<< 7));
    u8 (limb h 3 .>> 1); u8 (limb h 3 .>> 9);
    u8 ((limb h 3 .>> 17) .| i64 (limb h 4 .<< 4)); u8 (limb h 4 .>> 4);
    u8 (limb h 4 .>> 12); u8 ((limb h 4 .>> 20) .| i64 (limb h 5 .<< 1));
    u8 (limb h 5 .>> 7); u8 ((limb h 5 .>> 15) .| i64 (limb h 6 .<< 6));
    u8 (limb h 6 .>> 2); u8 (limb h 6 .>> 10);
    u8 ((limb h 6 .>> 18) .| i64 (limb h 7 .<< 3)); u8 (limb h 7 .>> 5);
    u8 (limb h 7 .>> 13); u8 (limb h 8 .>> 0); u8 (limb h 8 .>> 8);
    u8 ((limb h 8 .>> 16) .| i64 (limb h 9 .<< 5)); u8 (limb h 9 .>> 3);
    u8 (limb h 9 .>> 11); u8 ((limb h 9 .>> 19) .| i64 (limb h 10 .<< 2));
    u8 (limb h 10 .>> 6); u8 ((limb h 10 .>> 14) .| i64 (limb h 11 .<< 7));
    u8 (limb h 11 .>> 1); u8 (limb h 11 .>> 9); u8 (limb h 11 .>> 17) ].

(** ** The functions *)

Definition sc_0 : bytes := replicate 32 0.

Definition sc_reduce (s : bytes) : bytes := sc_store (sc_reduce_limbs (sc_load_wide s)).

Definition sc_reduce32 (s : bytes) : bytes := sc_store (sc_finish (sc_load s ++ [0])).

Definition sc_add (a b : bytes) : bytes :=
  sc_store (sc_finish (sc_add_limbs (sc_load a) (sc_load b))).

Definition sc_sub (a b : bytes) : bytes :=
  sc_store (sc_finish (sc_sub_limbs (sc_load a) (sc_load b))).

Definition sc_mul (a b : bytes) : bytes :=
  sc_store (sc_reduce_limbs (sc_wide_carry (sc_mul_products (sc_load a) (sc_load b)))).

Definition sc_muladd (a b c : bytes) : bytes :=
  sc_store (sc_reduce_limbs
    (sc_wide_carry (sc_muladd_products (sc_load a) (sc_load b) (sc_load c)))).

Definition sc_mulsub (a b c : bytes) : bytes :=
  sc_store (sc_reduce_limbs
    (sc_wide_carry (sc_mulsub_products (sc_load a) (sc_load b) (sc_load c)))).

Definition signum (a : Z) : Z := if 0 <? a then 1 else if a <? 0 then -1 else 0.

Definition sc_check (s : bytes) : Z :=
  (signum (1559614444 - load_4 s 0) + (signum (1477600026 - load_4 s 4) .<< 1)
   + (signum (2734136534 - load_4 s 8) .<< 2) + (signum (350157278 - load_4 s 12) .<< 3)
   + (signum (- load_4 s 16) .<< 4) + (signum (- load_4 s 20) .<< 5)
   + (signum (- load_4 s 24) .<< 6) + (signum (268435456 - load_4 s 28) .<< 7)) .>> 8.

Definition sc_isnonzero (s : bytes) : Z := ((foldl Z.lor 0 (take 32 s) - 1) .>> 8) + 1.
