(* ===== verification/ScProofs.v ===== *)
(** * Correctness of the scalar arithmetic

    Every [sc_*] returns the canonical encoding of its result modulo the group
    order [l], without overflowing [int64_t], for all byte strings. *)

From S2P Require Import Prelude CInt BitField Fe FeProofs Sc.

Definition l_order : Z := 2 ^ 252 + 27742317777372353535851937790883648493.

(** Weights of the first [n] of [N] limbs; the others are dead. *)
Definition sc_weights (n N : nat) : list Z :=
  (fun k => if (k <? n)%nat then 2 ^ (21 * Z.of_nat k) else 0) <$> seq 0 N.

Lemma length_sc_weights n N : length (sc_weights n N) = N.
Proof. unfold sc_weights. by rewrite length_fmap, length_seq. Qed.

Lemma nth_sc_weights n N k : (k < N)%nat ->
  nth k (sc_weights n N) 0 = if (k <? n)%nat then 2 ^ (21 * Z.of_nat k) else 0.
Proof.
  intros Hk. unfold sc_weights. rewrite nth_lookup, list_lookup_fmap, lookup_seq_lt by done.
  done.
Qed.

(** ** One step of the reduction *)

Section Steps.
Context (N : nat).

Lemma val_weights_S n h : length h = N -> (n < N)%nat ->
  val (sc_weights (S n) N) h = val (sc_weights n N) h + 2 ^ (21 * Z.of_nat n) * nth n h 0.
Proof.
  intros Hl Hn. subst N. unfold sc_weights.
  assert (H : forall s, (s <= n)%nat -> (n < s + length h)%nat ->
    val ((fun k => if (k <? S n)%nat then 2 ^ (21 * Z.of_nat k) else 0) <$> seq s (length h)) h
    = val ((fun k => if (k <? n)%nat then 2 ^ (21 * Z.of_nat k) else 0) <$> seq s (length h)) h
      + 2 ^ (21 * Z.of_nat n) * nth (n - s) h 0).
  2:{ specialize (H 0%nat). rewrite Nat.sub_0_r in H. apply H; lia. }
  clear Hn. induction h as [|x h IH]; intros s Hs Hn; cbn [length seq fmap list_fmap val nth] in *; [lia|].
  destruct (Nat.eq_dec s n) as [->|Hne].
  - rewrite Nat.ltb_irrefl, (proj2 (Nat.ltb_lt n (S n))), Nat.sub_diag by lia. cbn [nth].
    assert (He : forall h t, (n < t)%nat ->
      val ((fun k => if (k <? S n)%nat then 2 ^ (21 * Z.of_nat k) else 0) <$> seq t (length h)) h =
      val ((fun k => if (k <? n)%nat then 2 ^ (21 * Z.of_nat k) else 0) <$> seq t (length h)) h).
    { clear. induction h as [|y h IH]; intros t Ht;
        cbn [length seq fmap list_fmap val]; [done|].
      rewrite IH by lia. by rewrite !(proj2 (Nat.ltb_ge _ _)) by lia. }
    rewrite He by lia. lia.
  - rewrite IH by lia. rewrite !(proj2 (Nat.ltb_lt _ _)) by lia.
    replace (n - s)%nat with (S (n - S s)) by lia. cbn [nth]. lia.
Qed.

Lemma val_carry_21 o n i h : length h = N -> (S i < n)%nat -> (n <= N)%nat ->
  val (sc_weights n N) (@carry _ exact 64 o 21 i (S i) h) = val (sc_weights n N) h.
Proof.
  intros Hl Hi Hn. apply val_carry; rewrite ?length_sc_weights; try lia.
  rewrite !nth_sc_weights, !(proj2 (Nat.ltb_lt _ _)) by lia.
  rewrite <- Z.pow_add_r by lia. f_equal. lia.
Qed.

Lemma nth_upd_ne i j (x : Z) h : i <> j -> nth i (upd j x h) 0 = nth i h 0.
Proof. intros. rewrite nth_upd. by rewrite (proj2 (Nat.eqb_neq i j)). Qed.

Lemma val_addmul n m i j h : length h = N -> (j < n)%nat -> (n <= N)%nat ->
  val (sc_weights n N) (@addmul _ exact 64 m i j h) =
  val (sc_weights n N) h + 2 ^ (21 * Z.of_nat j) * (nth i h 0 * m).
Proof.
  intros Hl Hj Hn. unfold addmul, limb. cbn [exact add mul lit].
  rewrite val_upd by (rewrite ?length_sc_weights; lia).
  rewrite nth_sc_weights, (proj2 (Nat.ltb_lt _ _)) by lia. ring.
Qed.

Lemma val_submul n m i j h : length h = N -> (j < n)%nat -> (n <= N)%nat ->
  val (sc_weights n N) (@submul _ exact 64 m i j h) =
  val (sc_weights n N) h - 2 ^ (21 * Z.of_nat j) * (nth i h 0 * m).
Proof.
  intros Hl Hj Hn. unfold submul, limb. cbn [exact sub mul lit].
  rewrite val_upd by (rewrite ?length_sc_weights; lia).
  rewrite nth_sc_weights, (proj2 (Nat.ltb_lt _ _)) by lia. ring.
Qed.

Lemma nth_addmul m i j k h : k <> j -> nth k (@addmul _ exact 64 m i j h) 0 = nth k h 0.
Proof. apply nth_upd_ne. Qed.
Lemma nth_submul m i j k h : k <> j -> nth k (@submul _ exact 64 m i j h) 0 = nth k h 0.
Proof. apply nth_upd_ne. Qed.

(** Folding limb [i] replaces 2^252 by its residue: the value drops by a
    multiple of [l]. *)
Lemma val_fold i h : length h = N -> (12 <= i)%nat -> (i < N)%nat ->
  val (sc_weights i N) (@fold_l _ exact i h) =
  val (sc_weights (S i) N) h - l_order * (2 ^ (21 * Z.of_nat (i - 12)) * nth i h 0).
Proof.
  intros Hl Hi Hn. unfold fold_l.
  rewrite val_submul, val_addmul, val_submul, !val_addmul
    by (rewrite ?length_addmul, ?length_submul, ?length_addmul, ?length_submul, ?length_addmul; lia).
  repeat first [rewrite nth_addmul by lia | rewrite nth_submul by lia].
  rewrite val_weights_S by lia.
  assert (He : forall d, (d <= 12)%nat ->
    2 ^ (21 * Z.of_nat (i - 12 + d)) = 2 ^ (21 * Z.of_nat (i - 12)) * 2 ^ (21 * Z.of_nat d))
    by (intros; rewrite <- Z.pow_add_r by lia; f_equal; lia).
  replace (i - 7)%nat with (i - 12 + 5)%nat by lia.
  replace (i - 8)%nat with (i - 12 + 4)%nat by lia.
  replace (i - 9)%nat with (i - 12 + 3)%nat by lia.
  replace (i - 10)%nat with (i - 12 + 2)%nat by lia.
  replace (i - 11)%nat with (i - 12 + 1)%nat by lia.
  replace (2 ^ (21 * Z.of_nat i)) with (2 ^ (21 * Z.of_nat (i - 12 + 12)))
    by (do 3 f_equal; lia).
  rewrite !He by lia. unfold l_order.
  generalize (2 ^ (21 * Z.of_nat (i - 12))) (nth i h 0) (val (sc_weights i N) h). intros.
  change (2 ^ (21 * Z.of_nat 1)) with (2 ^ 21). change (2 ^ (21 * Z.of_nat 2)) with (2 ^ 42).
  change (2 ^ (21 * Z.of_nat 3)) with (2 ^ 63). change (2 ^ (21 * Z.of_nat 4)) with (2 ^ 84).
  change (2 ^ (21 * Z.of_nat 5)) with (2 ^ 105). change (2 ^ (21 * Z.of_nat 12)) with (2 ^ 252).
  ring.
Qed.

Lemma length_fold {A} {C : CInt A} i h : length (fold_l i h) = length h.
Proof.
  unfold fold_l.
  by rewrite ?length_addmul, ?length_submul, ?length_addmul, ?length_submul, ?length_addmul.
Qed.

Lemma val_clear n h : length h = N -> (n < N)%nat ->
  val (sc_weights (S n) N) (@clear _ exact n h) = val (sc_weights n N) h.
Proof.
  intros Hl Hn. rewrite val_weights_S by (rewrite ?length_clear; lia).
  unfold clear. rewrite nth_upd, Nat.eqb_refl, (proj2 (Nat.ltb_lt _ _)) by lia. cbn [andb].
  rewrite val_upd by (rewrite ?length_sc_weights; lia).
  rewrite nth_sc_weights, Nat.ltb_irrefl by lia. cbn. lia.
Qed.
End Steps.

(** ** The stages, in exact arithmetic *)

Lemma l_order_nz : l_order <> 0.
Proof. done. Qed.

Section Stages.
Context (N : nat).
Abbreviation W n := (sc_weights n N).

Lemma val_fold_mod i h : length h = N -> (12 <= i)%nat -> (i < N)%nat ->
  val (W i) (@fold_l _ exact i h) =[l_order]= val (W (S i)) h.
Proof.
  intros. rewrite val_fold by done.
  apply eqmod_mul_intro with (- (2 ^ (21 * Z.of_nat (i - 12)) * nth i h 0)); [done|ring].
Qed.

Lemma val_carry_r n i h : length h = N -> (S i < n)%nat -> (n <= N)%nat ->
  val (W n) (@carry_r _ exact i h) = val (W n) h.
Proof. apply val_carry_21. Qed.

Lemma val_carry_f n i h : length h = N -> (S i < n)%nat -> (n <= N)%nat ->
  val (W n) (@carry_f _ exact i h) = val (W n) h.
Proof. apply val_carry_21. Qed.

Lemma length_carry_r {A} {C : CInt A} i h : length (carry_r i h) = length h.
Proof. apply length_carry. Qed.
Lemma length_carry_f {A} {C : CInt A} i h : length (carry_f i h) = length h.
Proof. apply length_carry. Qed.

End Stages.

Ltac sc_len := repeat first
  [ rewrite length_carry_r | rewrite length_carry_f | rewrite length_fold
  | rewrite length_clear ]; done || lia.
Ltac sc_val N := repeat first
  [ rewrite (val_carry_r N) by sc_len | rewrite (val_carry_f N) by sc_len
  | rewrite (val_clear N) by sc_len | rewrite (val_fold_mod N) by sc_len ].

Lemma val_round N h : length h = N -> (13 <= N)%nat ->
  val (sc_weights 13 N) (@sc_round _ exact h) =[l_order]= val (sc_weights 13 N) h.
Proof. intros. unfold sc_round. sc_val N. done. Qed.

Lemma val_floor N h : length h = N -> (13 <= N)%nat ->
  val (sc_weights 13 N) (@sc_floor _ exact h) = val (sc_weights 13 N) h.
Proof. intros. unfold sc_floor. sc_val N. done. Qed.

Lemma val_last N h : length h = N -> (13 <= N)%nat ->
  val (sc_weights 12 N) (@sc_last _ exact h) = val (sc_weights 13 N) h - l_order * nth 12 h 0.
Proof.
  intros. unfold sc_last. sc_val N. rewrite val_fold by lia.
  change (2 ^ (21 * Z.of_nat (12 - 12))) with 1. ring.
Qed.

Lemma length_round {A} {C : CInt A} h : length (sc_round h) = length h.
Proof. unfold sc_round. rewrite length_clear, length_fold. by rewrite !length_carry_r. Qed.
Lemma length_floor {A} {C : CInt A} h : length (sc_floor h) = length h.
Proof. unfold sc_floor. by rewrite !length_carry_f. Qed.
Lemma length_last {A} {C : CInt A} h : length (sc_last h) = length h.
Proof. unfold sc_last. by rewrite !length_carry_f, length_fold. Qed.
Lemma val_fold_high h : length h = 24%nat ->
  val (sc_weights 18 24) (@sc_fold_high _ exact h) =[l_order]= val (sc_weights 24 24) h.
Proof. intros. unfold sc_fold_high. sc_val 24%nat. done. Qed.

Lemma val_fold_low h : length h = 24%nat ->
  val (sc_weights 13 24) (@sc_fold_low _ exact h) =[l_order]= val (sc_weights 18 24) h.
Proof. intros. unfold sc_fold_low. sc_val 24%nat. done. Qed.

Lemma val_wide_carry h : length h = 24%nat ->
  val (sc_weights 24 24) (@sc_wide_carry _ exact h) = val (sc_weights 24 24) h.
Proof. intros. unfold sc_wide_carry. sc_val 24%nat. done. Qed.

Lemma length_fold_high {A} {C : CInt A} h : length (sc_fold_high h) = length h.
Proof. unfold sc_fold_high. by rewrite !length_carry_r, !length_fold. Qed.
Lemma length_fold_low {A} {C : CInt A} h : length (sc_fold_low h) = length h.
Proof. unfold sc_fold_low. by rewrite length_clear, !length_fold. Qed.
Lemma length_wide_carry {A} {C : CInt A} h : length (sc_wide_carry h) = length h.
Proof. unfold sc_wide_carry. by rewrite !length_carry_r. Qed.

(** ** The three readings of the stages agree *)

Section ScAgree.
Context {M} {C : CInt M} {inj : M -> Z -> Prop} {HR : Refines C inj}.
Context (hm : list M) (hx : list Z) (hi : list ival).
Hypothesis Hh : agrees inj hm hx hi.

Lemma sc_round_agrees : agrees inj (sc_round hm) (@sc_round _ exact hx) (sc_round hi).
Proof using Hh HR. unfold sc_round, fold_l, carry_r. agree_tac. Qed.
Lemma sc_floor_agrees : agrees inj (sc_floor hm) (@sc_floor _ exact hx) (sc_floor hi).
Proof using Hh HR. unfold sc_floor, carry_f. agree_tac. Qed.
Lemma sc_last_agrees : agrees inj (sc_last hm) (@sc_last _ exact hx) (sc_last hi).
Proof using Hh HR. unfold sc_last, fold_l, carry_f. agree_tac. Qed.
Lemma sc_fold_high_agrees :
  agrees inj (sc_fold_high hm) (@sc_fold_high _ exact hx) (sc_fold_high hi).
Proof using Hh HR. unfold sc_fold_high, fold_l, carry_r. agree_tac. Qed.
Lemma sc_fold_low_agrees :
  agrees inj (sc_fold_low hm) (@sc_fold_low _ exact hx) (sc_fold_low hi).
Proof using Hh HR. unfold sc_fold_low, fold_l. agree_tac. Qed.
Lemma sc_wide_carry_agrees :
  agrees inj (sc_wide_carry hm) (@sc_wide_carry _ exact hx) (sc_wide_carry hi).
Proof using Hh HR. unfold sc_wide_carry, carry_r. agree_tac. Qed.
End ScAgree.

Section ScAgree2.
Context {M} {C : CInt M} {inj : M -> Z -> Prop} {HR : Refines C inj}.
Context (am bm cm : list M) (ax bx cx : list Z) (ai bi ci : list ival).
Hypothesis Ha : agrees inj am ax ai.
Hypothesis Hb : agrees inj bm bx bi.
Hypothesis Hc : agrees inj cm cx ci.

Lemma sc_add_limbs_agrees :
  agrees inj (sc_add_limbs am bm) (@sc_add_limbs _ exact ax bx) (sc_add_limbs ai bi).
Proof using Ha Hb HR. unfold sc_add_limbs. agree_tac. Qed.
Lemma sc_sub_limbs_agrees :
  agrees inj (sc_sub_limbs am bm) (@sc_sub_limbs _ exact ax bx) (sc_sub_limbs ai bi).
Proof using Ha Hb HR. unfold sc_sub_limbs. agree_tac. Qed.
Lemma sc_mul_products_agrees :
  agrees inj (sc_mul_products am bm) (@sc_mul_products _ exact ax bx) (sc_mul_products ai bi).
Proof using Ha Hb HR. unfold sc_mul_products. agree_tac. Qed.
Lemma sc_muladd_products_agrees : agrees inj (sc_muladd_products am bm cm)
  (@sc_muladd_products _ exact ax bx cx) (sc_muladd_products ai bi ci).
Proof using Ha Hb Hc HR. unfold sc_muladd_products. agree_tac. Qed.
Lemma sc_mulsub_products_agrees : agrees inj (sc_mulsub_products am bm cm)
  (@sc_mulsub_products _ exact ax bx cx) (sc_mulsub_products ai bi ci).
Proof using Ha Hb Hc HR. unfold sc_mulsub_products. agree_tac. Qed.
End ScAgree2.

(** ** The end of every function *)

Definition sc_widths : list Z := [21; 21; 21; 21; 21; 21; 21; 21; 21; 21; 21; 25].

(** Only the first twelve limbs count. *)
Lemma val_twelve N h : (12 <= N)%nat ->
  val (sc_weights 12 N) h = val (weights 0 sc_widths) (take 12 h).
Proof.
  intros HN.
  assert (Hz : forall s n h, (12 <= s)%nat ->
    val ((fun k => if (k <? 12)%nat then 2 ^ (21 * Z.of_nat k) else 0) <$> seq s n) h = 0).
  { clear. intros s n. revert s. induction n as [|n IH]; intros s h Hs; [done|].
    destruct h; [done|]. cbn [seq fmap list_fmap val].
    rewrite IH, (proj2 (Nat.ltb_ge _ _)) by lia. lia. }
  unfold sc_weights. replace N with (12 + (N - 12))%nat by lia.
  rewrite seq_app, fmap_app. change (seq 0 12) with [0;1;2;3;4;5;6;7;8;9;10;11]%nat.
  cbn [fmap list_fmap app].
  do 12 (destruct h as [|? h]; [reflexivity|cbn [val]]). rewrite Hz by lia. cbn. lia.
Qed.

Definition live (n N : nat) (top : Z * Z) : list (Z * Z) :=
  replicate n (0, 2 ^ 21 - 1) ++ top :: replicate (N - S n) (- 2 ^ 63, 2 ^ 63).

Lemma live_split n N top h : within h (live n N top) ->
  exists xs x ys, h = xs ++ x :: ys /\ length xs = n /\
    Forall (fun y => 0 <= y < 2 ^ 21) xs /\ top.1 <= x <= top.2.
Proof.
  intros H. apply Forall2_app_inv_r in H as (xs & t & Hx & Ht & ->).
  apply Forall2_cons_inv_r in Ht as (x & ys & Hb & _ & ->).
  exists xs, x, ys. split_and!; [done|by rewrite (Forall2_length Hx), length_replicate| |lia..].
  clear -Hx. revert n Hx. induction xs as [|y xs IH]; intros [|n] Hx; inversion Hx; subst;
    constructor; [cbn in *; lia|by apply (IH n)].
Qed.

Lemma val_limbs_bound xs e : 0 <= e -> Forall (fun y => 0 <= y < 2 ^ 21) xs ->
  0 <= val (weights e (replicate (length xs) 21)) xs < 2 ^ (e + 21 * Z.of_nat (length xs)) \/
  xs = [].
Proof.
  intros He H. destruct xs as [|x xs]; [by right|left].
  revert e He x xs H.
  assert (G : forall xs e, 0 <= e -> Forall (fun y => 0 <= y < 2 ^ 21) xs ->
    0 <= val (weights e (replicate (length xs) 21)) xs <=
      2 ^ (e + 21 * Z.of_nat (length xs)) - 2 ^ e).
  { intros xs. induction xs as [|x xs IH]; intros e He H.
    - cbn. rewrite Z.add_0_r. lia.
    - inversion H as [|? ? Hx Hxs]; subst. cbn [length replicate weights val].
      specialize (IH (e + 21) ltac:(lia) Hxs).
      replace (e + 21 * Z.of_nat (S (length xs))) with (e + 21 + 21 * Z.of_nat (length xs)) by lia.
      pose proof (Z.pow_add_r 2 e 21 ltac:(lia) ltac:(lia)). nia. }
  intros e He x xs H. specialize (G (x :: xs) e He H). lia.
Qed.

(** Twelve limbs of 21 bits and the carry out of them. *)
Lemma val_live N h : (13 <= N)%nat -> within h (live 12 N (-1, 0)) ->
  0 <= val (sc_weights 12 N) h < 2 ^ 252 /\ -1 <= nth 12 h 0 <= 0.
Proof.
  intros HN H. apply live_split in H as (xs & x & ys & -> & Hl & Hx & Ht).
  rewrite val_twelve, take_app_length' by lia. split.
  - destruct (val_limbs_bound xs 0 ltac:(lia) Hx) as [Hb| ->]; [|done].
    rewrite Hl in Hb. exact Hb.
  - replace (nth 12 (xs ++ x :: ys) 0) with x; [done|].
    rewrite app_nth2 by lia. by rewrite Hl.
Qed.

(** The packed bytes are those of the value. *)
Lemma sc_store_fields h : length h = 12%nat -> Forall2 (fun w x => 0 <= x < 2 ^ w) sc_widths h ->
  sc_store h = le_bytes 32 (val (weights 0 sc_widths) h).
Proof.
  intros Hl H.
  assert (Hh : fields (val (weights 0 sc_widths) h) 0 sc_widths = h)
    by (apply fields_val; [by repeat constructor|done]).
  generalize dependent (val (weights 0 sc_widths) h). intros v <-. clear H Hl.
  rewrite le_bytes_fields. unfold sc_store, limb, sc_widths.
  cbn [fields nth]. cbn [seq fmap list_fmap].
  repeat (apply (f_equal2 cons); [first
    [ rewrite byte_join_field by lia; reflexivity
    | rewrite byte_field by lia; reflexivity ]|]).
  reflexivity.
Qed.

Lemma sc_store_take h : (12 <= length h)%nat -> sc_store h = sc_store (take 12 h).
Proof.
  intros Hl. do 12 (destruct h as [|? h]; [cbn in Hl; lia|]). reflexivity.
Qed.

Lemma sc_store_ok N h : (12 <= N)%nat -> within h (live 11 N (- 2 ^ 22, 2 ^ 22)) ->
  0 <= val (sc_weights 12 N) h < l_order ->
  sc_store h = le_bytes 32 (val (sc_weights 12 N) h).
Proof.
  intros HN H Hv. apply live_split in H as (xs & x & ys & -> & Hl & Hx & Ht).
  rewrite val_twelve in * by done.
  replace (take 12 (xs ++ x :: ys)) with (xs ++ [x]) in *
    by (change (x :: ys) with ([x] ++ ys); rewrite app_assoc, take_app_length'; [done|];
        rewrite length_app, Hl; done).
  rewrite sc_store_take by (rewrite length_app, Hl; cbn; lia).
  replace (take 12 (xs ++ x :: ys)) with (xs ++ [x])
    by (change (x :: ys) with ([x] ++ ys); rewrite app_assoc, take_app_length'; [done|];
        rewrite length_app, Hl; done).
  apply sc_store_fields; [rewrite length_app, Hl; done|].
  assert (Hs : val (weights 0 sc_widths) (xs ++ [x]) =
    val (weights 0 (replicate (length xs) 21)) xs + 2 ^ 231 * x).
  { rewrite Hl. do 11 (destruct xs as [|? xs]; [done|]). destruct xs; [|done].
    cbn [app val sc_widths weights replicate]. cbn. lia. }
  destruct (val_limbs_bound xs 0 ltac:(lia) Hx) as [Hb| ->]; [|done].
  rewrite Hs in Hv. rewrite Hl in Hv, Hb. change (0 + 21 * Z.of_nat 11) with 231 in Hb.
  assert (0 <= x < 2 ^ 25).
  { unfold l_order in Hv. cbn [fst snd] in Ht.
    generalize dependent (val (weights 0 (replicate 11 21)) xs). intros. lia. }
  change sc_widths with (replicate 11 21 ++ [25]). apply Forall2_app;
    [|constructor; [done|constructor]].
  rewrite <- Hl. clear -Hx. induction Hx; constructor; done.
Qed.

(** After the floor carries the fold of [s12] lands in [0, l). *)
Lemma val_last_range N f : length f = N -> (13 <= N)%nat -> within f (live 12 N (-1, 0)) ->
  0 <= val (sc_weights 12 N) (@sc_last _ exact f) < l_order /\
  val (sc_weights 12 N) (@sc_last _ exact f) =[l_order]= val (sc_weights 13 N) f.
Proof.
  intros Hl HN Hw. destruct (val_live N f HN Hw) as [Hv Hq].
  rewrite val_last by done. split.
  - rewrite val_weights_S by lia. change (21 * Z.of_nat 12) with 252.
    generalize dependent (val (sc_weights 12 N) f). generalize dependent (nth 12 f 0).
    unfold l_order. intros. lia.
  - apply eqmod_mul_intro with (- nth 12 f 0); [done|].
    generalize (val (sc_weights 13 N) f) (nth 12 f 0). intros. ring.
Qed.

#[local] Opaque sc_floor sc_round sc_last sc_store.

(** The tail of the code computes the canonical residue of its input. *)
Lemma sc_finish_ok N ms es ivs : agrees (C:=machine) eq ms es ivs -> length es = N ->
  (13 <= N)%nat ->
  covers (sc_floor (sc_round ivs)) (live 12 N (-1, 0)) = true ->
  covers (sc_last (sc_floor (sc_round ivs))) (live 11 N (- 2 ^ 22, 2 ^ 22)) = true ->
  sc_store (sc_finish ms) = le_bytes 32 (val (sc_weights 13 N) es mod l_order).
Proof.
  intros Ha Hl HN H1 H2. unfold sc_finish.
  pose proof (sc_floor_agrees _ _ _ (sc_round_agrees _ _ _ Ha)) as Ha1.
  pose proof (sc_last_agrees _ _ _ Ha1) as Ha2.
  destruct (machine_run _ _ _ _ Ha1 H1) as [He1 Hw1]. rewrite He1 in Hw1.
  destruct (machine_run _ _ _ _ Ha2 H2) as [He2 Hw2]. rewrite He2 in Hw2. rewrite He2.
  destruct (val_last_range N _ (eq_trans (length_floor _) (eq_trans (length_round _) Hl)) HN Hw1)
    as [Hr Hm].
  rewrite (sc_store_ok N _ ltac:(lia) Hw2 Hr). apply (f_equal (le_bytes 32)).
  apply (eqmod_small l_order _ _ Hr); [by apply Z.mod_pos_bound|].
  rewrite eqmod_mod, Hm, val_floor, val_round; [done|done|done| |done].
  by rewrite length_round.
Qed.

(** ** Unpacking *)

Lemma load_3_field b i : is_bytes b -> (i + 2 < length b)%nat ->
  load_3 b i = field (le b) (8 * Z.of_nat i) 24.
Proof.
  intros Hb Hi. unfold load_3. rewrite !bytes_lookup by (done || lia).
  replace (8 * Z.of_nat (i + 1)) with (8 * Z.of_nat i + 8) by lia.
  rewrite field_lor by lia.
  replace (8 * Z.of_nat (i + 2)) with (8 * Z.of_nat i + (8 + 8)) by lia.
  by rewrite field_lor by lia.
Qed.

Lemma load_4_field b i : is_bytes b -> (i + 3 < length b)%nat ->
  load_4 b i = field (le b) (8 * Z.of_nat i) 32.
Proof.
  intros Hb Hi. unfold load_4. fold (load_3 b i). rewrite load_3_field by (done || lia).
  rewrite bytes_lookup by (done || lia).
  replace (8 * Z.of_nat (i + 3)) with (8 * Z.of_nat i + 24) by lia.
  by rewrite field_lor by lia.
Qed.

Lemma mask_field v e w : 21 <= w -> 2097151 .& field v e w = field v e 21.
Proof.
  intros. rewrite Z.land_comm. change 2097151 with (2 ^ 21 - 1).
  rewrite land_mask by lia. apply field_wrap. lia.
Qed.

Ltac load_limbs :=
  rewrite ?load_3_field, ?load_4_field by (done || lia);
  rewrite ?field_shiftr, ?mask_field by lia; reflexivity.

Lemma sc_load_fields b : is_bytes b -> length b = 32%nat ->
  sc_load b = fields (le b) 0 sc_widths.
Proof. intros Hb Hl. unfold sc_load. load_limbs. Qed.

Definition sc_wide_widths : list Z := replicate 23 21 ++ [29].

Lemma sc_load_wide_fields b : is_bytes b -> length b = 64%nat ->
  sc_load_wide b = fields (le b) 0 sc_wide_widths.
Proof. intros Hb Hl. unfold sc_load_wide. load_limbs. Qed.

Definition sc_bounds (ws : list Z) : list (Z * Z) := (fun w => (0, 2 ^ w - 1)) <$> ws.

Lemma fields_within v e ws : Forall (Z.le 0) ws -> within (fields v e ws) (sc_bounds ws).
Proof.
  intros H. unfold sc_bounds, within. revert e.
  induction H; intros e; cbn [fields fmap list_fmap]; constructor; [|done].
  cbn. pose proof (field_bound v e x). lia.
Qed.

Lemma sc_load_ok b : is_bytes b -> length b = 32%nat ->
  within (sc_load b) (sc_bounds sc_widths) /\ val (weights 0 sc_widths) (sc_load b) = le b.
Proof.
  intros Hb Hl. rewrite sc_load_fields by done. split.
  - apply fields_within. by repeat constructor.
  - rewrite val_fields by (done || by repeat constructor).
    rewrite Z.mul_1_l. apply field_full. pose proof (le_bound b Hb) as H. by rewrite Hl in H.
Qed.

Lemma sc_load_wide_ok b : is_bytes b -> length b = 64%nat ->
  within (sc_load_wide b) (sc_bounds sc_wide_widths) /\
  val (weights 0 sc_wide_widths) (sc_load_wide b) = le b.
Proof.
  intros Hb Hl. rewrite sc_load_wide_fields by done. split.
  - apply fields_within. by repeat constructor.
  - rewrite val_fields by (done || by repeat constructor).
    rewrite Z.mul_1_l. apply field_full. pose proof (le_bound b Hb) as H. by rewrite Hl in H.
Qed.

(** ** The functions *)

Lemma twelve_limbs (h : list Z) : length h = 12%nat ->
  exists h0 h1 h2 h3 h4 h5 h6 h7 h8 h9 h10 h11,
    h = [h0; h1; h2; h3; h4; h5; h6; h7; h8; h9; h10; h11].
Proof.
  intros H. do 12 (destruct h as [|? h]; [done|]). destruct h; [|done]. by eauto 13.
Qed.

Ltac twelve H := apply twelve_limbs in H as (?&?&?&?&?&?&?&?&?&?&?&?&->).

(** [sc_weights] and [weights] spelled out. *)
Definition pow21 : list Z := (fun k => 2 ^ k) <$>
  [0; 21; 42; 63; 84; 105; 126; 147; 168; 189; 210; 231; 252; 273; 294; 315; 336; 357; 378;
   399; 420; 441; 462; 483].

Lemma weights_12 : weights 0 sc_widths = take 12 pow21.
Proof. reflexivity. Qed.
Lemma weights_24 : weights 0 sc_wide_widths = pow21.
Proof. reflexivity. Qed.
Lemma sc_weights_13 : sc_weights 13 13 = take 13 pow21.
Proof. reflexivity. Qed.
Lemma sc_weights_24 : sc_weights 24 24 = pow21.
Proof. reflexivity. Qed.

Ltac sc_ring :=
  rewrite ?weights_12, ?weights_24, ?sc_weights_13, ?sc_weights_24;
  unfold pow21, limb, clet; cbn [fmap list_fmap take val nth app exact lit add sub mul]; ring.

Section ExactProducts.
Context (a b c : list Z).
Hypothesis Ha : length a = 12%nat.
Hypothesis Hb : length b = 12%nat.
Hypothesis Hc : length c = 12%nat.
Abbreviation v := (val (weights 0 sc_widths)).

Lemma val_pad : val (sc_weights 13 13) (a ++ [0]) = v a.
Proof using Ha. clear -Ha. twelve Ha. sc_ring. Qed.
Lemma val_add_limbs : val (sc_weights 13 13) (@sc_add_limbs _ exact a b) = v a + v b.
Proof using Ha Hb. clear -Ha Hb. twelve Ha. twelve Hb. unfold sc_add_limbs. sc_ring. Qed.
Lemma val_sub_limbs : val (sc_weights 13 13) (@sc_sub_limbs _ exact a b) = v a - v b.
Proof using Ha Hb. clear -Ha Hb. twelve Ha. twelve Hb. unfold sc_sub_limbs. sc_ring. Qed.
Lemma val_mul_products : val (sc_weights 24 24) (@sc_mul_products _ exact a b) = v a * v b.
Proof using Ha Hb. clear -Ha Hb. twelve Ha. twelve Hb. unfold sc_mul_products. sc_ring. Qed.
Lemma val_muladd_products :
  val (sc_weights 24 24) (@sc_muladd_products _ exact a b c) = v a * v b + v c.
Proof using Ha Hb Hc. clear -Ha Hb Hc. twelve Ha. twelve Hb. twelve Hc. unfold sc_muladd_products. sc_ring. Qed.
Lemma val_mulsub_products :
  val (sc_weights 24 24) (@sc_mulsub_products _ exact a b c) = v c - v a * v b.
Proof using Ha Hb Hc. clear -Ha Hb Hc. twelve Ha. twelve Hb. twelve Hc. unfold sc_mulsub_products. sc_ring. Qed.
End ExactProducts.

#[local] Opaque sc_finish sc_fold_low sc_fold_high sc_wide_carry sc_mul_products
  sc_muladd_products sc_mulsub_products sc_add_limbs sc_sub_limbs.


(** What the interval run has to show for the reduction of [N] limbs. *)
Definition finishes (N : nat) (ivs : list ival) : Prop :=
  covers (sc_floor (sc_round ivs)) (live 12 N (-1, 0)) = true /\
  covers (sc_last (sc_floor (sc_round ivs))) (live 11 N (- 2 ^ 22, 2 ^ 22)) = true.

Lemma val_reduce_limbs es : length es = 24%nat ->
  val (sc_weights 13 24) (@sc_fold_low _ exact (@sc_fold_high _ exact es))
    =[l_order]= val (sc_weights 24 24) es.
Proof.
  intros. rewrite val_fold_low by (by rewrite length_fold_high). by rewrite val_fold_high.
Qed.

Lemma sc_reduce_limbs_ok ms es ivs : agrees (C:=machine) eq ms es ivs -> length es = 24%nat ->
  finishes 24 (sc_fold_low (sc_fold_high ivs)) ->
  sc_store (sc_reduce_limbs ms) = le_bytes 32 (val (sc_weights 24 24) es mod l_order).
Proof.
  intros Ha Hl [H1 H2]. unfold sc_reduce_limbs.
  rewrite <- (val_reduce_limbs es Hl : _ mod _ = _ mod _).
  apply (sc_finish_ok 24 _ _ _ (sc_fold_low_agrees _ _ _ (sc_fold_high_agrees _ _ _ Ha)));
    [by rewrite length_fold_low, length_fold_high|lia|done|done].
Qed.

Definition start32 : list ival := Some <$> sc_bounds sc_widths.
Definition start64 : list ival := Some <$> sc_bounds sc_wide_widths.

Lemma load_start a : is_b32 a ->
  agrees (C:=machine) eq (sc_load a) (sc_load a) start32 /\
  length (sc_load a) = 12%nat /\ val (weights 0 sc_widths) (sc_load a) = le a.
Proof.
  intros [Ha Hl]. destruct (sc_load_ok a Ha Hl) as [Hw Hv].
  split_and!; [by apply machine_start|done|done].
Qed.

Lemma sc_finish_13 ms es ivs v : agrees (C:=machine) eq ms es ivs -> length es = 13%nat ->
  finishes 13 ivs -> val (sc_weights 13 13) es = v ->
  sc_store (sc_finish ms) = le_bytes 32 (v mod l_order).
Proof.
  intros Ha Hl [H1 H2] <-.
  apply (sc_finish_ok 13 _ _ _ Ha Hl ltac:(lia) H1 H2).
Qed.

Lemma sc_wide_ok ms es ivs v : agrees (C:=machine) eq ms es ivs -> length es = 24%nat ->
  finishes 24 (sc_fold_low (sc_fold_high (sc_wide_carry ivs))) -> val (sc_weights 24 24) es = v ->
  sc_store (sc_reduce_limbs (sc_wide_carry ms)) = le_bytes 32 (v mod l_order).
Proof.
  intros Ha Hl Hr <-.
  rewrite (sc_reduce_limbs_ok _ _ _ (sc_wide_carry_agrees _ _ _ Ha)); [|by rewrite length_wide_carry|done].
  by rewrite val_wide_carry.
Qed.

Lemma sc_reduce_value s : is_bytes_n 64 s -> sc_reduce s = le_bytes 32 (le s mod l_order).
Proof.
  intros [Hs Hl]. destruct (sc_load_wide_ok s Hs Hl) as [Hw Hv]. unfold sc_reduce.
  rewrite (sc_reduce_limbs_ok _ _ _ (machine_start _ _ Hw)); [|done|split; vm_compute; reflexivity].
  by rewrite sc_weights_24, <- weights_24, Hv.
Qed.

Lemma sc_reduce32_value s : is_b32 s -> sc_reduce32 s = le_bytes 32 (le s mod l_order).
Proof.
  intros Hs. destruct (load_start s Hs) as (Ha & Hl & Hv). unfold sc_reduce32.
  destruct (sc_load_ok s) as [Hw _]; [apply Hs..|].
  apply (sc_finish_13 _ (sc_load s ++ [0]) (Some <$> (sc_bounds sc_widths ++ [(0, 0)]))).
  - apply machine_start. apply Forall2_app; [done|]. by repeat constructor.
  - by rewrite length_app, Hl.
  - split; vm_compute; reflexivity.
  - by rewrite val_pad, Hv.
Qed.

Lemma sc_add_value a b : is_b32 a -> is_b32 b ->
  sc_add a b = le_bytes 32 ((le a + le b) mod l_order).
Proof.
  intros Ha Hb. destruct (load_start a Ha) as (Aa & La & <-), (load_start b Hb) as (Ab & Lb & <-).
  unfold sc_add. rewrite <- val_add_limbs by done.
  eapply sc_finish_13; [by apply (sc_add_limbs_agrees _ _ _ _ _ _ Aa Ab)|done| |done].
  split; vm_compute; reflexivity.
Qed.

Lemma sc_sub_value a b : is_b32 a -> is_b32 b ->
  sc_sub a b = le_bytes 32 ((le a - le b) mod l_order).
Proof.
  intros Ha Hb. destruct (load_start a Ha) as (Aa & La & <-), (load_start b Hb) as (Ab & Lb & <-).
  unfold sc_sub. rewrite <- val_sub_limbs by done.
  eapply sc_finish_13; [by apply (sc_sub_limbs_agrees _ _ _ _ _ _ Aa Ab)|done| |done].
  split; vm_compute; reflexivity.
Qed.

Lemma sc_mul_value a b : is_b32 a -> is_b32 b ->
  sc_mul a b = le_bytes 32 ((le a * le b) mod l_order).
Proof.
  intros Ha Hb. destruct (load_start a Ha) as (Aa & La & <-), (load_start b Hb) as (Ab & Lb & <-).
  unfold sc_mul. rewrite <- val_mul_products by done.
  eapply sc_wide_ok; [by apply (sc_mul_products_agrees _ _ _ _ _ _ Aa Ab)|done| |done].
  split; vm_compute; reflexivity.
Qed.

Lemma sc_muladd_value a b c : is_b32 a -> is_b32 b -> is_b32 c ->
  sc_muladd a b c = le_bytes 32 ((le a * le b + le c) mod l_order).
Proof.
  intros Ha Hb Hc. destruct (load_start a Ha) as (Aa & La & <-),
    (load_start b Hb) as (Ab & Lb & <-), (load_start c Hc) as (Ac & Lc & <-).
  unfold sc_muladd. rewrite <- val_muladd_products by done.
  eapply sc_wide_ok; [by apply (sc_muladd_products_agrees _ _ _ _ _ _ _ _ _ Aa Ab Ac)|done| |done].
  split; vm_compute; reflexivity.
Qed.

Lemma sc_mulsub_value a b c : is_b32 a -> is_b32 b -> is_b32 c ->
  sc_mulsub a b c = le_bytes 32 ((le c - le a * le b) mod l_order).
Proof.
  intros Ha Hb Hc. destruct (load_start a Ha) as (Aa & La & <-),
    (load_start b Hb) as (Ab & Lb & <-), (load_start c Hc) as (Ac & Lc & <-).
  unfold sc_mulsub. rewrite <- val_mulsub_products by done.
  eapply sc_wide_ok; [by apply (sc_mulsub_products_agrees _ _ _ _ _ _ _ _ _ Aa Ab Ac)|done| |done].
  split; vm_compute; reflexivity.
Qed.

(** ** No signed overflow *)

#[local] Transparent sc_finish.
Abbreviation cagrees := (agrees (C:=checked) (fun m x => m = Some x)).

Lemma finish_checked N ms cs es ivs : agrees (C:=machine) eq ms es ivs -> cagrees cs es ivs ->
  finishes N ivs -> sc_finish cs = Some <$> sc_finish ms.
Proof.
  intros Hm Hc [_ H]. unfold sc_finish.
  pose proof (sc_last_agrees _ _ _ (sc_floor_agrees _ _ _ (sc_round_agrees _ _ _ Hm))) as Hm'.
  pose proof (sc_last_agrees _ _ _ (sc_floor_agrees _ _ _ (sc_round_agrees _ _ _ Hc))) as Hc'.
  destruct (machine_run _ _ _ _ Hm' H) as [-> _].
  exact (checked_run _ _ _ _ Hc' H).
Qed.

Lemma reduce_checked ms cs es ivs : agrees (C:=machine) eq ms es ivs -> cagrees cs es ivs ->
  finishes 24 (sc_fold_low (sc_fold_high ivs)) ->
  sc_reduce_limbs cs = Some <$> sc_reduce_limbs ms.
Proof.
  intros Hm Hc H. unfold sc_reduce_limbs.
  exact (finish_checked _ _ _ _ _
    (sc_fold_low_agrees _ _ _ (sc_fold_high_agrees _ _ _ Hm))
    (sc_fold_low_agrees _ _ _ (sc_fold_high_agrees _ _ _ Hc)) H).
Qed.

Lemma wide_checked ms cs es ivs : agrees (C:=machine) eq ms es ivs -> cagrees cs es ivs ->
  finishes 24 (sc_fold_low (sc_fold_high (sc_wide_carry ivs))) ->
  sc_reduce_limbs (sc_wide_carry cs) = Some <$> sc_reduce_limbs (sc_wide_carry ms).
Proof.
  intros Hm Hc H.
  exact (reduce_checked _ _ _ _ (sc_wide_carry_agrees _ _ _ Hm) (sc_wide_carry_agrees _ _ _ Hc) H).
Qed.

Lemma load_checked a : is_b32 a -> cagrees (Some <$> sc_load a) (sc_load a) start32.
Proof. intros [Ha Hl]. by apply checked_start, sc_load_ok. Qed.

Lemma sc_no_overflow_value a b c s : is_b32 a -> is_b32 b -> is_b32 c -> is_bytes_n 64 s ->
  let la := sc_load a in let lb := sc_load b in let lc := sc_load c in
  let ca := Some <$> la in let cb := Some <$> lb in let cc := Some <$> lc in
  sc_reduce_limbs (Some <$> sc_load_wide s) = Some <$> sc_reduce_limbs (sc_load_wide s) /\
  sc_finish (sc_add_limbs ca cb) = Some <$> sc_finish (sc_add_limbs la lb) /\
  sc_finish (sc_sub_limbs ca cb) = Some <$> sc_finish (sc_sub_limbs la lb) /\
  sc_reduce_limbs (sc_wide_carry (sc_mul_products ca cb)) =
    Some <$> sc_reduce_limbs (sc_wide_carry (sc_mul_products la lb)) /\
  sc_reduce_limbs (sc_wide_carry (sc_muladd_products ca cb cc)) =
    Some <$> sc_reduce_limbs (sc_wide_carry (sc_muladd_products la lb lc)) /\
  sc_reduce_limbs (sc_wide_carry (sc_mulsub_products ca cb cc)) =
    Some <$> sc_reduce_limbs (sc_wide_carry (sc_mulsub_products la lb lc)).
Proof.
  intros Ha Hb Hc Hs. cbv zeta.
  destruct (load_start a Ha) as (Aa & _ & _), (load_start b Hb) as (Ab & _ & _),
    (load_start c Hc) as (Ac & _ & _).
  pose proof (load_checked a Ha) as Ca. pose proof (load_checked b Hb) as Cb.
  pose proof (load_checked c Hc) as Cc.
  destruct Hs as [Hs Hl]. destruct (sc_load_wide_ok s Hs Hl) as [Hw _].
  split_and!.
  - apply (reduce_checked _ _ _ _ (machine_start _ _ Hw) (checked_start _ _ Hw)).
    split; vm_compute; reflexivity.
  - apply (finish_checked 13 _ _ _ _ (sc_add_limbs_agrees _ _ _ _ _ _ Aa Ab)
      (sc_add_limbs_agrees _ _ _ _ _ _ Ca Cb)). split; vm_compute; reflexivity.
  - apply (finish_checked 13 _ _ _ _ (sc_sub_limbs_agrees _ _ _ _ _ _ Aa Ab)
      (sc_sub_limbs_agrees _ _ _ _ _ _ Ca Cb)). split; vm_compute; reflexivity.
  - apply (wide_checked _ _ _ _ (sc_mul_products_agrees _ _ _ _ _ _ Aa Ab)
      (sc_mul_products_agrees _ _ _ _ _ _ Ca Cb)). split; vm_compute; reflexivity.
  - apply (wide_checked _ _ _ _ (sc_muladd_products_agrees _ _ _ _ _ _ _ _ _ Aa Ab Ac)
      (sc_muladd_products_agrees _ _ _ _ _ _ _ _ _ Ca Cb Cc)). split; vm_compute; reflexivity.
  - apply (wide_checked _ _ _ _ (sc_mulsub_products_agrees _ _ _ _ _ _ _ _ _ Aa Ab Ac)
      (sc_mulsub_products_agrees _ _ _ _ _ _ _ _ _ Ca Cb Cc)). split; vm_compute; reflexivity.
Qed.

(** ** Canonicity test *)

Lemma signum_cases x : (0 < x /\ signum x = 1) \/ (x = 0 /\ signum x = 0) \/ (x < 0 /\ signum x = -1).
Proof. unfold signum. destruct (Z.ltb_spec 0 x), (Z.ltb_spec x 0); lia. Qed.

Lemma load4_words s : is_b32 s ->
  le s = load_4 s 0 + 2 ^ 32 * load_4 s 4 + 2 ^ 64 * load_4 s 8 + 2 ^ 96 * load_4 s 12
    + 2 ^ 128 * load_4 s 16 + 2 ^ 160 * load_4 s 20 + 2 ^ 192 * load_4 s 24
    + 2 ^ 224 * load_4 s 28 /\
  Forall is_u32 [load_4 s 0; load_4 s 4; load_4 s 8; load_4 s 12; load_4 s 16; load_4 s 20;
    load_4 s 24; load_4 s 28].
Proof.
  intros [Hb Hl]. rewrite !load_4_field by (done || lia). split.
  - pose proof (val_fields (le s) 0 [32; 32; 32; 32; 32; 32; 32; 32] ltac:(lia)
      ltac:(by repeat constructor)) as H.
    rewrite Z.mul_1_l, field_full in H by (pose proof (le_bound s Hb) as H'; by rewrite Hl in H').
    rewrite <- H at 1. clear H.
    change (weights 0 _) with [1; 2 ^ 32; 2 ^ 64; 2 ^ 96; 2 ^ 128; 2 ^ 160; 2 ^ 192; 2 ^ 224].
    change (fields (le s) 0 _) with ((fun i => field (le s) (8 * Z.of_nat i) 32) <$>
      [0; 4; 8; 12; 16; 20; 24; 28]%nat).
    cbn [fmap list_fmap val]. generalize (field (le s)). intros f. ring.
  - repeat constructor; apply field_bound; lia.
Qed.

(** [S] has the sign of [D]: the comparison of the words below [P] is done. *)
Definition compares (P Q D S : Z) : Prop :=
  - P < D < P /\ - Q < S < Q /\ (S < 0 <-> D < 0) /\ (0 < S <-> 0 < D).

Lemma compares_step P Q D S d : compares P Q D S -> 0 < P -> 0 < Q -> - 2 ^ 32 < d < 2 ^ 32 ->
  compares (P * 2 ^ 32) (Q * 2) (D + P * d) (S + signum d * Q).
Proof.
  intros (H1 & H2 & H3 & H4) HP HQ Hd. unfold compares.
  destruct (signum_cases d) as [[? ->]|[[? ->]|[? ->]]]; [|subst; split_and!; lia|];
    (assert (- P * 2 ^ 32 < D + P * d < P * 2 ^ 32) by nia); split_and!; try lia; nia.
Qed.

Lemma sc_check_value s : is_b32 s -> sc_check s = if le s <? l_order then 0 else -1.
Proof.
  intros Hs. destruct (load4_words s Hs) as [Hv Hw]. rewrite Hv. clear Hv Hs.
  unfold sc_check. rewrite Z.shiftr_div_pow2, !Z.shiftl_mul_pow2 by lia.
  repeat match goal with H : Forall _ (_ :: _) |- _ => apply Forall_cons_1 in H as [[? ?] H] end.
  clear Hw.
  assert (C0 : compares 1 1 0 0) by (unfold compares; lia).
  pose proof (compares_step _ _ _ _ (1559614444 - load_4 s 0) C0 ltac:(lia) ltac:(lia) ltac:(lia)) as C1.
  pose proof (compares_step _ _ _ _ (1477600026 - load_4 s 4) C1 ltac:(lia) ltac:(lia) ltac:(lia)) as C2.
  pose proof (compares_step _ _ _ _ (2734136534 - load_4 s 8) C2 ltac:(lia) ltac:(lia) ltac:(lia)) as C3.
  pose proof (compares_step _ _ _ _ (350157278 - load_4 s 12) C3 ltac:(lia) ltac:(lia) ltac:(lia)) as C4.
  pose proof (compares_step _ _ _ _ (- load_4 s 16) C4 ltac:(lia) ltac:(lia) ltac:(lia)) as C5.
  pose proof (compares_step _ _ _ _ (- load_4 s 20) C5 ltac:(lia) ltac:(lia) ltac:(lia)) as C6.
  pose proof (compares_step _ _ _ _ (- load_4 s 24) C6 ltac:(lia) ltac:(lia) ltac:(lia)) as C7.
  pose proof (compares_step _ _ _ _ (268435456 - load_4 s 28) C7 ltac:(lia) ltac:(lia) ltac:(lia)) as C8.
  destruct C8 as (_ & Hr & Hn & _).
  match type of Hr with _ < ?S < _ => set (x := S) in * end.
  replace (_ + _) with x by (unfold x; lia). clearbody x.
  match goal with |- _ = if ?b then _ else _ => destruct b eqn:E end;
    apply Z.ltb_lt in E || apply Z.ltb_ge in E; unfold l_order in E.
  - rewrite Z.div_small; lia.
  - symmetry. apply Z.div_unique_pos with (x + 256); lia.
Qed.

Lemma sc_isnonzero_value s : is_b32 s -> sc_isnonzero s = if le s =? 0 then 0 else 1.
Proof.
  intros [Hb Hl]. unfold sc_isnonzero. rewrite take_ge by lia.
  by apply nonzero_bytes.
Qed.

(** ** Claims *)

Definition ones32 : bytes := replicate 32 255.

Lemma ones32_b32 : is_b32 ones32.
Proof. split; [by repeat constructor|reflexivity]. Qed.

(** [sc_reduce] maps 64 bytes and [sc_reduce32] 32 bytes to the canonical
    32-byte encoding of the number they hold, reduced modulo the group order l. *)
Theorem sc_reduce_correct s t : is_bytes_n 64 s -> is_b32 t ->
  sc_reduce s = le_bytes 32 (le s mod l_order) /\ sc_reduce32 t = le_bytes 32 (le t mod l_order).
Proof. intros Hs Ht. split; [by apply sc_reduce_value|by apply sc_reduce32_value]. Qed.

Lemma sc_reduce_correct_witness :
  sc_reduce (ones32 ++ ones32) = le_bytes 32 (le (ones32 ++ ones32) mod l_order).
Proof.
  refine (proj1 (sc_reduce_correct (ones32 ++ ones32) ones32 _ ones32_b32)). split; [by repeat constructor|reflexivity].
Defined.

(** C19: the scalar operations compute a + b, a - b, a b, a b + c and c - a b
    modulo the group order l, each with the canonical 32-byte result, for any
    32-byte operands, reduced or not. *)
Theorem sc_operations_correct a b c : is_b32 a -> is_b32 b -> is_b32 c ->
  sc_add a b = le_bytes 32 ((le a + le b) mod l_order) /\
  sc_sub a b = le_bytes 32 ((le a - le b) mod l_order) /\
  sc_mul a b = le_bytes 32 ((le a * le b) mod l_order) /\
  sc_muladd a b c = le_bytes 32 ((le a * le b + le c) mod l_order) /\
  sc_mulsub a b c = le_bytes 32 ((le c - le a * le b) mod l_order).
Proof.
  intros Ha Hb Hc. split_and!; [by apply sc_add_value|by apply sc_sub_value|by apply sc_mul_value
    |by apply sc_muladd_value|by apply sc_mulsub_value].
Qed.

Lemma sc_operations_correct_witness : sc_add ones32 ones32 = le_bytes 32 ((le ones32 + le ones32) mod l_order).
Proof. exact (proj1 (sc_operations_correct ones32 ones32 ones32 ones32_b32 ones32_b32 ones32_b32)). Defined.

(** C34: no signed 64-bit operation of the scalar arithmetic overflows,
    whatever the operand bytes: each run with checked arithmetic returns the
    limbs of the wrapping run. *)
Theorem sc_no_overflow a b c s : is_b32 a -> is_b32 b -> is_b32 c -> is_bytes_n 64 s ->
  let la := sc_load a in let lb := sc_load b in let lc := sc_load c in
  let ca := Some <$> la in let cb := Some <$> lb in let cc := Some <$> lc in
  sc_reduce_limbs (Some <$> sc_load_wide s) = Some <$> sc_reduce_limbs (sc_load_wide s) /\
  sc_finish (sc_add_limbs ca cb) = Some <$> sc_finish (sc_add_limbs la lb) /\
  sc_finish (sc_sub_limbs ca cb) = Some <$> sc_finish (sc_sub_limbs la lb) /\
  sc_reduce_limbs (sc_wide_carry (sc_mul_products ca cb)) =
    Some <$> sc_reduce_limbs (sc_wide_carry (sc_mul_products la lb)) /\
  sc_reduce_limbs (sc_wide_carry (sc_muladd_products ca cb cc)) =
    Some <$> sc_reduce_limbs (sc_wide_carry (sc_muladd_products la lb lc)) /\
  sc_reduce_limbs (sc_wide_carry (sc_mulsub_products ca cb cc)) =
    Some <$> sc_reduce_limbs (sc_wide_carry (sc_mulsub_products la lb lc)).
Proof. apply sc_no_overflow_value. Qed.

Lemma sc_no_overflow_witness :
  sc_reduce_limbs (Some <$> sc_load_wide (ones32 ++ ones32)) =
  Some <$> sc_reduce_limbs (sc_load_wide (ones32 ++ ones32)).
Proof.
  refine (proj1 (sc_no_overflow ones32 ones32 ones32 (ones32 ++ ones32)
    ones32_b32 ones32_b32 ones32_b32 _)). split; [by repeat constructor|reflexivity].
Defined.

(** [sc_check] returns 0 exactly for the canonical encodings (numbers
    below l) and -1 for all others; [sc_isnonzero] is 0 only on zero. *)
Theorem sc_check_correct s : is_b32 s ->
  sc_check s = (if le s <? l_order then 0 else -1) /\
  sc_isnonzero s = (if le s =? 0 then 0 else 1).
Proof. intros Hs. split; [by apply sc_check_value|by apply sc_isnonzero_value]. Qed.

Lemma sc_check_correct_witness : sc_check ones32 = (if le ones32 <? l_order then 0 else -1).
Proof. exact (proj1 (sc_check_correct ones32 ones32_b32)). Defined.
