(* ===== verification/Ge.v ===== *)
(** * Group elements: crypto-ops.c, [ge_*]

    Points of the twisted Edwards curve in the source's five coordinate
    systems.  Every function is the sequence of field operations of the
    source; a structure written through a pointer is returned. *)

From S2P Require Import Prelude CInt Fe.

Abbreviation fe := (list Z) (only parsing).

Module P2.
Record t := mk { X : fe; Y : fe; Z : fe }.
End P2.
Module P3.
Record t := mk { X : fe; Y : fe; Z : fe; T : fe }.
End P3.
Module P1.
Record t := mk { X : fe; Y : fe; Z : fe; T : fe }.
End P1.
Module Pre.
Record t := mk { yplusx : fe; yminusx : fe; xy2d : fe }.
End Pre.
Module Ca.
Record t := mk { YplusX : fe; YminusX : fe; Z : fe; T2d : fe }.
End Ca.

Abbreviation ge_p2 := P2.t.
Abbreviation ge_p3 := P3.t.
Abbreviation ge_p1p1 := P1.t.
Abbreviation ge_precomp := Pre.t.
Abbreviation ge_cached := Ca.t.

(** Constants of crypto-ops-data.c. *)
Definition fe_d : fe :=
  [-10913610; 13857413; -15372611; 6949391; 114729; -8787816; -6275908; -3247719; -18696448;
   -12055116].
Definition fe_sqrtm1 : fe :=
  [-32595792; -7943725; 9377950; 3500415; 12389472; -272473; -25146209; -2005654; 326686;
   11406482].
Definition fe_d2 : fe :=
  [-21827239; -5839606; -30745221; 13898782; 229458; 15978800; -12551817; -6495438; 29715968;
   9444199].

(** ** Addition, subtraction and doubling *)

Definition ge_add (p : ge_p3) (q : ge_cached) : ge_p1p1 :=
  let rX := fe_add (P3.Y p) (P3.X p) in
  let rY := fe_sub (P3.Y p) (P3.X p) in
  let rZ := fe_mul rX (Ca.YplusX q) in
  let rY := fe_mul rY (Ca.YminusX q) in
  let rT := fe_mul (Ca.T2d q) (P3.T p) in
  let rX := fe_mul (P3.Z p) (Ca.Z q) in
  let t0 := fe_add rX rX in
  let rX := fe_sub rZ rY in
  let rY := fe_add rZ rY in
  let rZ := fe_add t0 rT in
  let rT := fe_sub t0 rT in
  P1.mk rX rY rZ rT.

Definition ge_sub (p : ge_p3) (q : ge_cached) : ge_p1p1 :=
  let rX := fe_add (P3.Y p) (P3.X p) in
  let rY := fe_sub (P3.Y p) (P3.X p) in
  let rZ := fe_mul rX (Ca.YminusX q) in
  let rY := fe_mul rY (Ca.YplusX q) in
  let rT := fe_mul (Ca.T2d q) (P3.T p) in
  let rX := fe_mul (P3.Z p) (Ca.Z q) in
  let t0 := fe_add rX rX in
  let rX := fe_sub rZ rY in
  let rY := fe_add rZ rY in
  let rZ := fe_sub t0 rT in
  let rT := fe_add t0 rT in
  P1.mk rX rY rZ rT.

Definition ge_madd (p : ge_p3) (q : ge_precomp) : ge_p1p1 :=
  let rX := fe_add (P3.Y p) (P3.X p) in
  let rY := fe_sub (P3.Y p) (P3.X p) in
  let rZ := fe_mul rX (Pre.yplusx q) in
  let rY := fe_mul rY (Pre.yminusx q) in
  let rT := fe_mul (Pre.xy2d q) (P3.T p) in
  let t0 := fe_add (P3.Z p) (P3.Z p) in
  let rX := fe_sub rZ rY in
  let rY := fe_add rZ rY in
  let rZ := fe_add t0 rT in
  let rT := fe_sub t0 rT in
  P1.mk rX rY rZ rT.

Definition ge_msub (p : ge_p3) (q : ge_precomp) : ge_p1p1 :=
  let rX := fe_add (P3.Y p) (P3.X p) in
  let rY := fe_sub (P3.Y p) (P3.X p) in
  let rZ := fe_mul rX (Pre.yminusx q) in
  let rY := fe_mul rY (Pre.yplusx q) in
  let rT := fe_mul (Pre.xy2d q) (P3.T p) in
  let t0 := fe_add (P3.Z p) (P3.Z p) in
  let rX := fe_sub rZ rY in
  let rY := fe_add rZ rY in
  let rZ := fe_sub t0 rT in
  let rT := fe_add t0 rT in
  P1.mk rX rY rZ rT.

Definition ge_p2_dbl (p : ge_p2) : ge_p1p1 :=
  let rX := fe_sq (P2.X p) in
  let rZ := fe_sq (P2.Y p) in
  let rT := fe_sq2 (P2.Z p) in
  let rY := fe_add (P2.X p) (P2.Y p) in
  let t0 := fe_sq rY in
  let rY := fe_add rZ rX in
  let rZ := fe_sub rZ rX in
  let rX := fe_sub t0 rY in
  let rT := fe_sub rT rZ in
  P1.mk rX rY rZ rT.

(** ** Conversions *)

Definition ge_p1p1_to_p2 (p : ge_p1p1) : ge_p2 :=
  P2.mk (fe_mul (P1.X p) (P1.T p)) (fe_mul (P1.Y p) (P1.Z p)) (fe_mul (P1.Z p) (P1.T p)).

Definition ge_p1p1_to_p3 (p : ge_p1p1) : ge_p3 :=
  P3.mk (fe_mul (P1.X p) (P1.T p)) (fe_mul (P1.Y p) (P1.Z p)) (fe_mul (P1.Z p) (P1.T p))
        (fe_mul (P1.X p) (P1.Y p)).

Definition ge_p3_to_p2 (p : ge_p3) : ge_p2 :=
  P2.mk (fe_copy (P3.X p)) (fe_copy (P3.Y p)) (fe_copy (P3.Z p)).

Definition ge_p3_to_cached (p : ge_p3) : ge_cached :=
  Ca.mk (fe_add (P3.Y p) (P3.X p)) (fe_sub (P3.Y p) (P3.X p)) (fe_copy (P3.Z p))
        (fe_mul (P3.T p) fe_d2).

Definition ge_p3_dbl (p : ge_p3) : ge_p1p1 := ge_p2_dbl (ge_p3_to_p2 p).

Definition ge_p2_0 : ge_p2 := P2.mk fe_0 fe_1 fe_1.
Definition ge_p3_0 : ge_p3 := P3.mk fe_0 fe_1 fe_1 fe_0.
Definition ge_precomp_0 : ge_precomp := Pre.mk fe_1 fe_1 fe_0.
Definition ge_cached_0 : ge_cached := Ca.mk fe_1 fe_1 fe_1 fe_0.

Definition ge_mul8 (t : ge_p2) : ge_p1p1 :=
  let r := ge_p2_dbl t in
  let u := ge_p1p1_to_p2 r in
  let r := ge_p2_dbl u in
  let u := ge_p1p1_to_p2 r in
  ge_p2_dbl u.

(** ** Encoding *)

Definition set_sign (s : bytes) (x : fe) : bytes :=
  <[31%nat := u8 ((s !!! 31%nat) .^ (fe_isnegative x .<< 7))]> s.

Definition ge_tobytes (h : ge_p2) : bytes :=
  let recip := fe_invert (P2.Z h) in
  let x := fe_mul (P2.X h) recip in
  let y := fe_mul (P2.Y h) recip in
  set_sign (fe_tobytes y) x.

Definition ge_p3_tobytes (h : ge_p3) : bytes :=
  let recip := fe_invert (P3.Z h) in
  let x := fe_mul (P3.X h) recip in
  let y := fe_mul (P3.Y h) recip in
  set_sign (fe_tobytes y) x.

(** [ge_p3_is_point_at_infinity] compares limbs, not field elements. *)
Definition ge_p3_is_point_at_infinity (p : ge_p3) : Z :=
  if forallb (fun n => (limb (P3.X p) n .| limb (P3.T p) n =? 0)
                       && (limb (P3.Y p) n =? limb (P3.Z p) n)) (seq 0 10)
  then 1 else 0.

(** ** Decoding *)

(** The loads and carries of fe_frombytes.c, inlined in the source; [mask] is
    the mask of the last load. *)
Definition fe_loads (mask : Z) (s : bytes) : list Z :=
  [ load_4 s 0; load_3 s 4 .<< 6; load_3 s 7 .<< 5; load_3 s 10 .<< 3; load_3 s 13 .<< 2;
    load_4 s 16; load_3 s 20 .<< 7; load_3 s 23 .<< 5; load_3 s 26 .<< 4;
    (load_3 s 29 .& mask) .<< 2 ].

Definition fe_loads_carry {A} {C : CInt A} (h : list A) : list A :=
  h
  |> carry_mul 64 (2 ^ 24) 25 19 9 0
  |> carry 64 (2 ^ 24) 25 1 2
  |> carry 64 (2 ^ 24) 25 3 4
  |> carry 64 (2 ^ 24) 25 5 6
  |> carry 64 (2 ^ 24) 25 7 8
  |> carry 64 (2 ^ 25) 26 0 1
  |> carry 64 (2 ^ 25) 26 2 3
  |> carry 64 (2 ^ 25) 26 4 5
  |> carry 64 (2 ^ 25) 26 6 7
  |> carry 64 (2 ^ 25) 26 8 9.

Definition fe_frombytes {A} {C : CInt A} (h : list A) : list A := fe_store (fe_loads_carry h).

(** The canonicity test of [ge_frombytes_vartime]. *)
Definition fe_noncanonical (h : list Z) : bool :=
  (limb h 9 =? 33554428) && (limb h 8 =? 268435440) && (limb h 7 =? 536870880)
  && (limb h 6 =? 2147483520) && (limb h 5 =? 4294967295) && (limb h 4 =? 67108860)
  && (limb h 3 =? 134217720) && (limb h 2 =? 536870880) && (limb h 1 =? 1073741760)
  && (4294967277 <=? limb h 0).

(** [None] is the return value -1. *)
Definition ge_frombytes_vartime (s : bytes) : option ge_p3 :=
  let h := fe_loads 8388607 s in
  if fe_noncanonical h then None else
  let Y := fe_frombytes h in
  let Z := fe_1 in
  let u := fe_sq Y in
  let v := fe_mul u fe_d in
  let u := fe_sub u Z in
  let v := fe_add v Z in
  let X := fe_divpowm1 u v in
  let vxx := fe_sq X in
  let vxx := fe_mul vxx v in
  let check := fe_sub vxx u in
  X ← (if fe_isnonzero check =? 0 then Some X else
       let check := fe_add vxx u in
       if fe_isnonzero check =? 0 then Some (fe_mul X fe_sqrtm1) else None);
  X ← (if fe_isnegative X =? (s !!! 31%nat) .>> 7 then Some X else
       if fe_isnonzero X =? 0 then None else Some (fe_neg X));
  Some (P3.mk X Y Z (fe_mul X Y)).
