(* ===== verification/GeProofs.v ===== *)
(** * Points: the limb code refines extended Edwards coordinates over Z/p

    [Ed] is the abstract component: a point is four residues (X:Y:Z:T), the
    operations are the polynomials of the unified addition law for
    [-x^2 + y^2 = 1 + d x^2 y^2].  Each [ge_*] of the source is shown to
    compute the abstract operation, within the limb bounds that keep the field
    code free of overflow. *)

From S2P Require Import Prelude CInt BitField Fe FeProofs FeField Ge.

(** The curve constant: d = -121665/121666. *)
Definition d : Z := 37095705934669439343138083508754565189542113879843219016388785533085940283555.

Lemma d_def : d * 121666 == -121665.
Proof. vm_compute. reflexivity. Qed.
Lemma fe_d_ok : fbnd 101 fe_d /\ fval fe_d == d.
Proof. split; [|vm_compute; reflexivity]. repeat constructor; vm_compute; intuition discriminate. Qed.
Lemma fe_d2_ok : fbnd 101 fe_d2 /\ fval fe_d2 == 2 * d.
Proof. split; [|vm_compute; reflexivity]. repeat constructor; vm_compute; intuition discriminate. Qed.
Lemma fe_sqrtm1_ok : fbnd 101 fe_sqrtm1 /\ fval fe_sqrtm1 * fval fe_sqrtm1 == -1.
Proof. split; [|vm_compute; reflexivity]. repeat constructor; vm_compute; intuition discriminate. Qed.
Lemma fe_0_ok : fbnd 0 fe_0 /\ fval fe_0 = 0.
Proof. split; [|vm_compute; reflexivity]. repeat constructor; vm_compute; intuition discriminate. Qed.
Lemma fe_1_ok : fbnd 1 fe_1 /\ fval fe_1 = 1.
Proof. split; [|vm_compute; reflexivity]. repeat constructor; vm_compute; intuition discriminate. Qed.

Module Ed.
Record pt := mk { pX : Z; pY : Z; pZ : Z; pT : Z }.

Definition eqpt (P Q : pt) : Prop := pX P == pX Q /\ pY P == pY Q /\ pZ P == pZ Q /\ pT P == pT Q.

#[global] Instance eqpt_equiv : Equivalence eqpt.
Proof.
  split.
  - intros P. by split_and!.
  - intros P Q (?&?&?&?). by split_and!.
  - intros P Q R (?&?&?&?) (?&?&?&?). split_and!; by etransitivity.
Qed.

(** Proportional coordinates are the same point. *)
Definition proj (P Q : pt) : Prop := exists k k', k * k' == 1 /\
  pX Q == k * pX P /\ pY Q == k * pY P /\ pZ Q == k * pZ P /\ pT Q == k * pT P.

Definition zero : pt := mk 0 1 1 0.
Definition neg (P : pt) : pt := mk (- pX P) (pY P) (pZ P) (- pT P).

(** (E:H:G:F) before the final products, as [p1p1] holds it. *)
Definition finish (E H G F : Z) : pt := mk (E * F) (H * G) (G * F) (E * H).

Definition add (P Q : pt) : pt :=
  let A := (pY P - pX P) * (pY Q - pX Q) in
  let B := (pY P + pX P) * (pY Q + pX Q) in
  let C := 2 * d * pT P * pT Q in
  let D := 2 * pZ P * pZ Q in
  finish (B - A) (B + A) (D + C) (D - C).

Definition dbl (P : pt) : pt :=
  let A := pX P * pX P in
  let B := pY P * pY P in
  finish (2 * pX P * pY P) (B + A) (B - A) (2 * pZ P * pZ P - (B - A)).

End Ed.

(** ** Field expressions with their bounds *)

(** [know t] adds the bound and the value of the field expression [t]. *)
Ltac know t :=
  lazymatch goal with
  | H : fbnd _ t |- _ => idtac
  | _ =>
    lazymatch t with
    | fe_add ?a ?b => know a; know b;
        match goal with Ha : fbnd ?k a |- _ => match goal with Hb : fbnd ?l b |- _ =>
          let B := fresh "B" in let V := fresh "V" in
          destruct (fe_add_ok k l a b Ha Hb ltac:(lia)) as [B V] end end
    | fe_sub ?a ?b => know a; know b;
        match goal with Ha : fbnd ?k a |- _ => match goal with Hb : fbnd ?l b |- _ =>
          let B := fresh "B" in let V := fresh "V" in
          destruct (fe_sub_ok k l a b Ha Hb ltac:(lia)) as [B V] end end
    | fe_neg ?a => know a;
        match goal with Ha : fbnd ?k a |- _ =>
          let B := fresh "B" in let V := fresh "V" in
          destruct (fe_neg_ok k a Ha ltac:(lia)) as [B V] end
    | fe_mul ?a ?b => know a; know b;
        match goal with Ha : fbnd ?k a |- _ => match goal with Hb : fbnd ?l b |- _ =>
          let B := fresh "B" in let V := fresh "V" in
          destruct (fe_mul_ok a b (fbnd_mono k 330 a ltac:(lia) Ha)
            (fbnd_mono l 330 b ltac:(lia) Hb)) as [B V] end end
    | fe_sq ?a => know a;
        match goal with Ha : fbnd ?k a |- _ =>
          let B := fresh "B" in let V := fresh "V" in
          destruct (fe_sq_ok a (fbnd_mono k 330 a ltac:(lia) Ha)) as [B V] end
    | fe_sq2 ?a => know a;
        match goal with Ha : fbnd ?k a |- _ =>
          let B := fresh "B" in let V := fresh "V" in
          destruct (fe_sq2_ok a (fbnd_mono k 330 a ltac:(lia) Ha)) as [B V] end
    | fe_d => pose proof (proj1 fe_d_ok); pose proof (proj2 fe_d_ok)
    | fe_d2 => pose proof (proj1 fe_d2_ok); pose proof (proj2 fe_d2_ok)
    | fe_0 => pose proof (proj1 fe_0_ok); pose proof (proj2 fe_0_ok)
    | fe_1 => pose proof (proj1 fe_1_ok); pose proof (proj2 fe_1_ok)
    end
  end.

Ltac know_all :=
  repeat match goal with
  | |- context [fbnd _ ?t] => progress know t
  | |- context [fval ?t] => progress know t
  end.

Ltac bound_done :=
  match goal with H : fbnd ?k ?t |- fbnd _ ?t => apply (fbnd_mono k _ t); [lia|exact H] end.

Ltac value_done :=
  repeat match goal with
  | H : fval ?t = _ |- context [fval ?t] => rewrite H
  | H : fval ?t == _ |- context [fval ?t] => rewrite H
  | H : Ed.pZ ?t == 1 |- context [Ed.pZ ?t] => rewrite H
  end; apply eq_eqmod; ring.

(** ** What a structure of limbs represents *)

Definition rep3 (h : ge_p3) (P : Ed.pt) : Prop :=
  fbnd 110 (P3.X h) /\ fbnd 110 (P3.Y h) /\ fbnd 110 (P3.Z h) /\ fbnd 110 (P3.T h) /\
  fval (P3.X h) == Ed.pX P /\ fval (P3.Y h) == Ed.pY P /\
  fval (P3.Z h) == Ed.pZ P /\ fval (P3.T h) == Ed.pT P.

(** [Y] and [Z] may be sums, as hashing to the curve leaves them. *)
Definition rep2 (h : ge_p2) (P : Ed.pt) : Prop :=
  fbnd 110 (P2.X h) /\ fbnd 220 (P2.Y h) /\ fbnd 220 (P2.Z h) /\
  fval (P2.X h) == Ed.pX P /\ fval (P2.Y h) == Ed.pY P /\ fval (P2.Z h) == Ed.pZ P.

(** A [p1p1] represents the point its conversion yields. *)
Definition rep1 (h : ge_p1p1) (P : Ed.pt) : Prop :=
  fbnd 330 (P1.X h) /\ fbnd 330 (P1.Y h) /\ fbnd 330 (P1.Z h) /\ fbnd 330 (P1.T h) /\
  Ed.eqpt (Ed.finish (fval (P1.X h)) (fval (P1.Y h)) (fval (P1.Z h)) (fval (P1.T h))) P.

Definition repc (h : ge_cached) (P : Ed.pt) : Prop :=
  fbnd 220 (Ca.YplusX h) /\ fbnd 220 (Ca.YminusX h) /\ fbnd 110 (Ca.Z h) /\
  fbnd 110 (Ca.T2d h) /\
  fval (Ca.YplusX h) == Ed.pY P + Ed.pX P /\ fval (Ca.YminusX h) == Ed.pY P - Ed.pX P /\
  fval (Ca.Z h) == Ed.pZ P /\ fval (Ca.T2d h) == 2 * d * Ed.pT P.

Definition repp (h : ge_precomp) (P : Ed.pt) : Prop :=
  fbnd 110 (Pre.yplusx h) /\ fbnd 110 (Pre.yminusx h) /\ fbnd 110 (Pre.xy2d h) /\
  Ed.pZ P == 1 /\
  fval (Pre.yplusx h) == Ed.pY P + Ed.pX P /\ fval (Pre.yminusx h) == Ed.pY P - Ed.pX P /\
  fval (Pre.xy2d h) == 2 * d * Ed.pT P.

(** ** The operations *)

Ltac unrep :=
  repeat match goal with
  | H : rep3 _ _ |- _ => destruct H as (?&?&?&?&?&?&?&?)
  | H : rep2 _ _ |- _ => destruct H as (?&?&?&?&?&?)
  | H : repc _ _ |- _ => destruct H as (?&?&?&?&?&?&?&?)
  | H : repp _ _ |- _ => destruct H as (?&?&?&?&?&?&?)
  end.

Ltac rep_tac :=
  intros; unrep; cbn zeta; cbn [P1.X P1.Y P1.Z P1.T P2.X P2.Y P2.Z P3.X P3.Y P3.Z P3.T
    Ca.YplusX Ca.YminusX Ca.Z Ca.T2d Pre.yplusx Pre.yminusx Pre.xy2d];
  know_all; split_and!; try bound_done;
  rewrite ?(fe_copy_id 110) by done;
  try (try split_and!; unfold Ed.add, Ed.neg, Ed.dbl, Ed.finish; cbn [Ed.pX Ed.pY Ed.pZ Ed.pT]; value_done).

Lemma ge_add_ok p q P Q : rep3 p P -> repc q Q -> rep1 (ge_add p q) (Ed.add P Q).
Proof. unfold rep1, ge_add. rep_tac. Qed.

Lemma ge_sub_ok p q P Q : rep3 p P -> repc q Q -> rep1 (ge_sub p q) (Ed.add P (Ed.neg Q)).
Proof. unfold rep1, ge_sub. rep_tac. Qed.

Lemma ge_madd_ok p q P Q : rep3 p P -> repp q Q -> rep1 (ge_madd p q) (Ed.add P Q).
Proof. unfold rep1, ge_madd. rep_tac. Qed.

Lemma ge_msub_ok p q P Q : rep3 p P -> repp q Q -> rep1 (ge_msub p q) (Ed.add P (Ed.neg Q)).
Proof. unfold rep1, ge_msub. rep_tac. Qed.

Lemma ge_p2_dbl_ok p P : rep2 p P -> rep1 (ge_p2_dbl p) (Ed.dbl P).
Proof. unfold rep1, ge_p2_dbl. rep_tac. Qed.

Lemma ge_p3_to_p2_ok p P : rep3 p P -> rep2 (ge_p3_to_p2 p) P.
Proof.
  unfold rep3, rep2, ge_p3_to_p2. intros (?&?&?&?&?&?&?&?). cbn [P2.X P2.Y P2.Z].
  rewrite !(fe_copy_id 110) by done. split_and!; done || bound_done.
Qed.

Lemma ge_p3_to_cached_ok p P : rep3 p P -> repc (ge_p3_to_cached p) P.
Proof.
  intros H. pose proof H as (?&?&HZ&?&?&?&?&?). unfold repc, ge_p3_to_cached.
  cbn [Ca.YplusX Ca.YminusX Ca.Z Ca.T2d]. rewrite (fe_copy_id 110 _ HZ). rep_tac.
Qed.

Lemma ge_p3_dbl_ok p P : rep3 p P -> rep1 (ge_p3_dbl p) (Ed.dbl P).
Proof. intros. by apply ge_p2_dbl_ok, ge_p3_to_p2_ok. Qed.

Lemma ge_p1p1_to_p3_ok p P : rep1 p P -> rep3 (ge_p1p1_to_p3 p) P.
Proof.
  intros (?&?&?&?&HX&HY&HZ&HT). unfold rep3, ge_p1p1_to_p3.
  cbn [P3.X P3.Y P3.Z P3.T Ed.pX Ed.pY Ed.pZ Ed.pT Ed.finish] in *.
  know_all. split_and!; try bound_done;
    match goal with V : fval ?t == _ |- fval ?t == _ => etransitivity; [exact V|assumption] end.
Qed.

Lemma ge_p1p1_to_p2_ok p P : rep1 p P -> rep2 (ge_p1p1_to_p2 p) P.
Proof.
  intros (?&?&?&?&HX&HY&HZ&HT). unfold rep2, ge_p1p1_to_p2.
  cbn [P2.X P2.Y P2.Z Ed.pX Ed.pY Ed.pZ Ed.pT Ed.finish] in *.
  know_all. split_and!; try bound_done;
    match goal with V : fval ?t == _ |- fval ?t == _ => etransitivity; [exact V|assumption] end.
Qed.

Lemma ge_p3_0_ok : rep3 ge_p3_0 Ed.zero.
Proof.
  know (@fe_0 Z machine). know (@fe_1 Z machine).
  split_and!; first [bound_done | vm_compute; reflexivity].
Qed.
Lemma ge_p2_0_ok : rep2 ge_p2_0 Ed.zero.
Proof.
  know (@fe_0 Z machine). know (@fe_1 Z machine).
  split_and!; first [bound_done | vm_compute; reflexivity].
Qed.
Lemma ge_cached_0_ok : repc ge_cached_0 Ed.zero.
Proof.
  know (@fe_0 Z machine). know (@fe_1 Z machine).
  split_and!; first [bound_done | vm_compute; reflexivity].
Qed.
Lemma ge_precomp_0_ok : repp ge_precomp_0 Ed.zero.
Proof.
  know (@fe_0 Z machine). know (@fe_1 Z machine).
  split_and!; first [bound_done | vm_compute; reflexivity].
Qed.

Lemma ge_mul8_ok t P : rep2 t P -> rep1 (ge_mul8 t) (Ed.dbl (Ed.dbl (Ed.dbl P))).
Proof. intros. unfold ge_mul8. by do 3 (apply ge_p2_dbl_ok; try apply ge_p1p1_to_p2_ok). Qed.
