(* ===== verification/EdAssoc.v ===== *)
(** * Associativity of the Edwards addition law, as polynomial identities

    On the curve [-x^2 + y^2 = 1 + d x^2 y^2] the sum of two points is
    [((x1 y2 + y1 x2)/(1 + k), (y1 y2 + x1 x2)/(1 - k))] with
    [k = d x1 x2 y1 y2].  The cross-multiplied difference of [(P1+P2)+P3] and
    [P1+(P2+P3)] lies in the ideal of the three curve equations; the cofactors
    are given and the identities checked by [ring]. *)

From S2P Require Import Prelude.

Definition curve_poly (d x y : Z) : Z := 1 + d * x ^ 2 * y ^ 2 + x ^ 2 - y ^ 2.

Definition dk (d x1 y1 x2 y2 : Z) : Z := d * x1 * x2 * y1 * y2.
Definition sx (x1 y1 x2 y2 : Z) : Z := x1 * y2 + y1 * x2.
Definition sy (x1 y1 x2 y2 : Z) : Z := y1 * y2 + x1 * x2.

(** Numerators and denominators of [(P1 + P2) + P3], over the denominators of
    [P1 + P2]. *)
Definition num_x (d x1 y1 x2 y2 x3 y3 : Z) : Z :=
  sx x1 y1 x2 y2 * (1 - dk d x1 y1 x2 y2) * y3 + sy x1 y1 x2 y2 * (1 + dk d x1 y1 x2 y2) * x3.
Definition num_y (d x1 y1 x2 y2 x3 y3 : Z) : Z :=
  sy x1 y1 x2 y2 * (1 + dk d x1 y1 x2 y2) * y3 + sx x1 y1 x2 y2 * (1 - dk d x1 y1 x2 y2) * x3.
Definition den_x (d x1 y1 x2 y2 x3 y3 : Z) : Z :=
  1 - dk d x1 y1 x2 y2 ^ 2 + d * sx x1 y1 x2 y2 * sy x1 y1 x2 y2 * x3 * y3.
Definition den_y (d x1 y1 x2 y2 x3 y3 : Z) : Z :=
  1 - dk d x1 y1 x2 y2 ^ 2 - d * sx x1 y1 x2 y2 * sy x1 y1 x2 y2 * x3 * y3.

(** ** Cofactors *)

Definition cof_x1 (d x1 y1 x2 y2 x3 y3 : Z) : Z :=
  y1 * (d*x2*y2^4*x3^2*y3 + d*x2^2*y2^3*x3 + d*x2^2*y2^3*x3^3 + d*x2^3*y2^2*y3 -
  d*x2^3*y2^2*y3^3 - d*x2^4*y2*x3*y3^2 - d^2*x2^3*y2^4*x3^2*y3 - d^2*x2^4*y2^3*x3*y3^2) + x1 *
  (- d*x2*y2^4*x3*y3^2 + d*x2^2*y2^3*y3 - d*x2^2*y2^3*y3^3 + d*x2^3*y2^2*x3 + d*x2^3*y2^2*x3^3 +
  d*x2^4*y2*x3^2*y3 + d^2*x2^3*y2^4*x3*y3^2 + d^2*x2^4*y2^3*x3^2*y3).
Definition cof_x2 (d x1 y1 x2 y2 x3 y3 : Z) : Z :=
  y1 * (- y2*x3 + y2*x3*y3^2 - y2*x3^3 - x2*y3 + x2*y3^3 - x2*x3^2*y3 - d*y2*x3^3*y3^2 -
  d*x2*x3^2*y3^3 + d*x2*y2^2*x3^2*y3 + d*x2^2*y2*x3*y3^2) + y1^3 * (y2*x3 - y2*x3*y3^2 + y2*x3^3
  + x2*y3 - x2*y3^3 + x2*x3^2*y3 + d*y2*x3^3*y3^2 + d*x2*x3^2*y3^3 - d*x2*y2^2*x3^2*y3 -
  d*x2^2*y2*x3*y3^2) + x1 * (- y2*y3 + y2*y3^3 - y2*x3^2*y3 - x2*x3 + x2*x3*y3^2 - x2*x3^3 -
  d*y2*x3^2*y3^3 - d*x2*x3^3*y3^2 - d*x2*y2^2*x3*y3^2 - d*x2^2*y2*x3^2*y3) + x1*y1^2 * (y2*y3 -
  y2*y3^3 + y2*x3^2*y3 + x2*x3 - x2*x3*y3^2 + x2*x3^3 + d*y2*x3^2*y3^3 + d*x2*x3^3*y3^2 +
  d*x2*y2^2*x3*y3^2 + d*x2^2*y2*x3^2*y3 - d^2*x2*y2^2*x3^3*y3^2 + d^2*x2^2*y2*x3^2*y3^3) +
  x1^2*y1 * (- y2*x3 + y2*x3*y3^2 - y2*x3^3 - x2*y3 + x2*y3^3 - x2*x3^2*y3 - d*y2*x3^3*y3^2 -
  d*x2*x3^2*y3^3 + d*x2*y2^2*x3^2*y3 + d*x2^2*y2*x3*y3^2 + d^2*x2*y2^2*x3^2*y3^3 -
  d^2*x2^2*y2*x3^3*y3^2) + x1^3 * (- y2*y3 + y2*y3^3 - y2*x3^2*y3 - x2*x3 + x2*x3*y3^2 - x2*x3^3
  - d*y2*x3^2*y3^3 - d*x2*x3^3*y3^2 - d*x2*y2^2*x3*y3^2 - d*x2^2*y2*x3^2*y3).
Definition cof_x3 (d x1 y1 x2 y2 x3 y3 : Z) : Z :=
  y1 * (y2*x3 - y2^3*x3 + x2*y3 - x2*y2^2*y3 + x2^2*y2*x3 + x2^3*y3) + y1^3 * (- y2*x3 + y2^3*x3
  - x2*y3 + x2*y2^2*y3 - x2^2*y2*x3 - x2^3*y3) + x1 * (y2*y3 - y2^3*y3 + x2*x3 - x2*y2^2*x3 +
  x2^2*y2*y3 + x2^3*x3) + x1*y1^2 * (- y2*y3 + y2^3*y3 - x2*x3 + x2*y2^2*x3 - x2^2*y2*y3 -
  x2^3*x3 + d*x2*y2^2*x3 - d*x2^2*y2*y3) + x1^2*y1 * (y2*x3 - y2^3*x3 + x2*y3 - x2*y2^2*y3 +
  x2^2*y2*x3 + x2^3*y3 - d*x2*y2^2*y3 + d*x2^2*y2*x3) + x1^3 * (y2*y3 - y2^3*y3 + x2*x3 -
  x2*y2^2*x3 + x2^2*y2*y3 + x2^3*x3).
Definition cof_y1 (d x1 y1 x2 y2 x3 y3 : Z) : Z :=
  y1 * (- d*x2*y2^4*x3*y3^2 + d*x2^2*y2^3*y3 - d*x2^2*y2^3*y3^3 + d*x2^3*y2^2*x3 +
  d*x2^3*y2^2*x3^3 + d*x2^4*y2*x3^2*y3 + d^2*x2^3*y2^4*x3*y3^2 + d^2*x2^4*y2^3*x3^2*y3) + x1 *
  (d*x2*y2^4*x3^2*y3 + d*x2^2*y2^3*x3 + d*x2^2*y2^3*x3^3 + d*x2^3*y2^2*y3 - d*x2^3*y2^2*y3^3 -
  d*x2^4*y2*x3*y3^2 - d^2*x2^3*y2^4*x3^2*y3 - d^2*x2^4*y2^3*x3*y3^2).
Definition cof_y2 (d x1 y1 x2 y2 x3 y3 : Z) : Z :=
  y1 * (- y2*y3 + y2*y3^3 - y2*x3^2*y3 - x2*x3 + x2*x3*y3^2 - x2*x3^3 - d*y2*x3^2*y3^3 -
  d*x2*x3^3*y3^2 - d*x2*y2^2*x3*y3^2 - d*x2^2*y2*x3^2*y3) + y1^3 * (y2*y3 - y2*y3^3 + y2*x3^2*y3
  + x2*x3 - x2*x3*y3^2 + x2*x3^3 + d*y2*x3^2*y3^3 + d*x2*x3^3*y3^2 + d*x2*y2^2*x3*y3^2 +
  d*x2^2*y2*x3^2*y3) + x1 * (- y2*x3 + y2*x3*y3^2 - y2*x3^3 - x2*y3 + x2*y3^3 - x2*x3^2*y3 -
  d*y2*x3^3*y3^2 - d*x2*x3^2*y3^3 + d*x2*y2^2*x3^2*y3 + d*x2^2*y2*x3*y3^2) + x1*y1^2 * (y2*x3 -
  y2*x3*y3^2 + y2*x3^3 + x2*y3 - x2*y3^3 + x2*x3^2*y3 + d*y2*x3^3*y3^2 + d*x2*x3^2*y3^3 -
  d*x2*y2^2*x3^2*y3 - d*x2^2*y2*x3*y3^2 - d^2*x2*y2^2*x3^2*y3^3 + d^2*x2^2*y2*x3^3*y3^2) +
  x1^2*y1 * (- y2*y3 + y2*y3^3 - y2*x3^2*y3 - x2*x3 + x2*x3*y3^2 - x2*x3^3 - d*y2*x3^2*y3^3 -
  d*x2*x3^3*y3^2 - d*x2*y2^2*x3*y3^2 - d*x2^2*y2*x3^2*y3 + d^2*x2*y2^2*x3^3*y3^2 -
  d^2*x2^2*y2*x3^2*y3^3) + x1^3 * (- y2*x3 + y2*x3*y3^2 - y2*x3^3 - x2*y3 + x2*y3^3 - x2*x3^2*y3
  - d*y2*x3^3*y3^2 - d*x2*x3^2*y3^3 + d*x2*y2^2*x3^2*y3 + d*x2^2*y2*x3*y3^2).
Definition cof_y3 (d x1 y1 x2 y2 x3 y3 : Z) : Z :=
  y1 * (y2*y3 - y2^3*y3 + x2*x3 - x2*y2^2*x3 + x2^2*y2*y3 + x2^3*x3) + y1^3 * (- y2*y3 + y2^3*y3
  - x2*x3 + x2*y2^2*x3 - x2^2*y2*y3 - x2^3*x3) + x1 * (y2*x3 - y2^3*x3 + x2*y3 - x2*y2^2*y3 +
  x2^2*y2*x3 + x2^3*y3) + x1*y1^2 * (- y2*x3 + y2^3*x3 - x2*y3 + x2*y2^2*y3 - x2^2*y2*x3 -
  x2^3*y3 + d*x2*y2^2*y3 - d*x2^2*y2*x3) + x1^2*y1 * (y2*y3 - y2^3*y3 + x2*x3 - x2*y2^2*x3 +
  x2^2*y2*y3 + x2^3*x3 - d*x2*y2^2*x3 + d*x2^2*y2*y3) + x1^3 * (y2*x3 - y2^3*x3 + x2*y3 -
  x2*y2^2*y3 + x2^2*y2*x3 + x2^3*y3).

(** [P1 + (P2 + P3)] is [(P2 + P3) + P1]. *)
Lemma assoc_x d x1 y1 x2 y2 x3 y3 :
  num_x d x1 y1 x2 y2 x3 y3 * den_x d x2 y2 x3 y3 x1 y1
  - num_x d x2 y2 x3 y3 x1 y1 * den_x d x1 y1 x2 y2 x3 y3
  = cof_x1 d x1 y1 x2 y2 x3 y3 * curve_poly d x1 y1
    + cof_x2 d x1 y1 x2 y2 x3 y3 * curve_poly d x2 y2
    + cof_x3 d x1 y1 x2 y2 x3 y3 * curve_poly d x3 y3.
Proof.
  unfold num_x, den_x, cof_x1, cof_x2, cof_x3, curve_poly, dk, sx, sy. ring.
Qed.

Lemma assoc_y d x1 y1 x2 y2 x3 y3 :
  num_y d x1 y1 x2 y2 x3 y3 * den_y d x2 y2 x3 y3 x1 y1
  - num_y d x2 y2 x3 y3 x1 y1 * den_y d x1 y1 x2 y2 x3 y3
  = cof_y1 d x1 y1 x2 y2 x3 y3 * curve_poly d x1 y1
    + cof_y2 d x1 y1 x2 y2 x3 y3 * curve_poly d x2 y2
    + cof_y3 d x1 y1 x2 y2 x3 y3 * curve_poly d x3 y3.
Proof.
  unfold num_y, den_y, cof_y1, cof_y2, cof_y3, curve_poly, dk, sx, sy. ring.
Qed.
