(* ===== verification/EdGroup.v ===== *)
(** * The group of the curve -x^2 + y^2 = 1 + d x^2 y^2 over Z/p

    [d] is not a square and -1 is one, so the addition law has no exceptional
    points; with associativity (EdAssoc) the points of the curve are an
    abelian group.  [affine] relates the extended coordinates of GeProofs to
    the points of the group, and each coordinate formula of [Ed] to the group
    operation. *)

From Stdlib Require Import Zdivisibility Zcong.
From S2P Require Import Prelude CInt BitField Fe FeProofs FeField Ge GeProofs EdAssoc.

(** ** Abelian groups *)

Class AbelianGroup (G : Type) := {
  plus : G -> G -> G;
  neutral : G;
  opp : G -> G;
  plus_comm x y : plus x y = plus y x;
  plus_assoc x y z : plus x (plus y z) = plus (plus x y) z;
  plus_neutral x : plus neutral x = x;
  plus_opp x : plus x (opp x) = neutral;
}.

Section Multiples.
Context `{AbelianGroup G}.

Fixpoint nat_mul (n : nat) (x : G) : G :=
  match n with O => neutral | S n => plus x (nat_mul n x) end.

(** The multiple [z x] for an integer [z]. *)
Definition int_mul (z : Z) (x : G) : G :=
  plus (nat_mul (Z.to_nat z) x) (opp (nat_mul (Z.to_nat (- z)) x)).

Lemma plus_neutral_r x : plus x neutral = x.
Proof. by rewrite plus_comm, plus_neutral. Qed.

Lemma plus_cancel x y z : plus x y = plus x z -> y = z.
Proof.
  intros E. apply (f_equal (plus (opp x))) in E.
  by rewrite !plus_assoc, (plus_comm (opp x)), plus_opp, !plus_neutral in E.
Qed.

Lemma swap4 a b c e : plus (plus a b) (plus c e) = plus (plus a c) (plus b e).
Proof.
  rewrite !plus_assoc. f_equal. rewrite <- !plus_assoc. f_equal. apply plus_comm.
Qed.

Lemma opp_plus x y : opp (plus x y) = plus (opp x) (opp y).
Proof.
  apply (plus_cancel (plus x y)). rewrite plus_opp, swap4, !plus_opp. by rewrite plus_neutral.
Qed.

Lemma opp_neutral : opp neutral = neutral.
Proof. by rewrite <- (plus_neutral (opp neutral)), plus_opp. Qed.

Lemma nat_mul_add m n x : nat_mul (m + n) x = plus (nat_mul m x) (nat_mul n x).
Proof.
  induction m as [|m IH]; cbn; [by rewrite plus_neutral|]. by rewrite IH, plus_assoc.
Qed.

(** Only the difference of the two counts matters. *)
Lemma int_mul_diff m n x :
  int_mul (Z.of_nat m - Z.of_nat n) x = plus (nat_mul m x) (opp (nat_mul n x)).
Proof.
  unfold int_mul. destruct (Nat.le_ge_cases m n) as [Hl|Hl].
  - replace (Z.to_nat (Z.of_nat m - Z.of_nat n)) with 0%nat by lia.
    replace (Z.to_nat (- (Z.of_nat m - Z.of_nat n))) with (n - m)%nat by lia. cbn [nat_mul].
    replace n with (m + (n - m))%nat at 2 by lia.
    by rewrite nat_mul_add, opp_plus, plus_assoc, plus_opp.
  - replace (Z.to_nat (Z.of_nat m - Z.of_nat n)) with (m - n)%nat by lia.
    replace (Z.to_nat (- (Z.of_nat m - Z.of_nat n))) with 0%nat by lia. cbn [nat_mul].
    rewrite opp_neutral, plus_neutral_r.
    replace m with ((m - n) + n)%nat at 2 by lia.
    by rewrite nat_mul_add, <- plus_assoc, plus_opp, plus_neutral_r.
Qed.

Lemma int_mul_add a b x : int_mul (a + b) x = plus (int_mul a x) (int_mul b x).
Proof.
  replace (a + b) with (Z.of_nat (Z.to_nat a + Z.to_nat b) -
    Z.of_nat (Z.to_nat (- a) + Z.to_nat (- b))) by lia.
  rewrite int_mul_diff, !nat_mul_add, opp_plus. unfold int_mul. apply swap4.
Qed.

Lemma int_mul_0 x : int_mul 0 x = neutral.
Proof.
  unfold int_mul. change (Z.to_nat 0) with 0%nat. change (Z.to_nat (- 0)) with 0%nat.
  cbn [nat_mul]. by rewrite opp_neutral, plus_neutral.
Qed.

Lemma int_mul_1 x : int_mul 1 x = x.
Proof.
  unfold int_mul. change (Z.to_nat 1) with 1%nat. change (Z.to_nat (- (1))) with 0%nat.
  cbn [nat_mul]. by rewrite opp_neutral, !plus_neutral_r.
Qed.

Lemma int_mul_opp a x : int_mul (- a) x = opp (int_mul a x).
Proof.
  apply (plus_cancel (int_mul a x)). rewrite <- int_mul_add, plus_opp, Z.add_opp_diag_r.
  apply int_mul_0.
Qed.

Lemma int_mul_mul a b x : int_mul (a * b) x = int_mul a (int_mul b x).
Proof.
  assert (Hn : forall n, int_mul (Z.of_nat n * b) x = int_mul (Z.of_nat n) (int_mul b x)).
  { intros n. induction n as [|n IH]; [by rewrite Z.mul_0_l, !int_mul_0|].
    rewrite Nat2Z.inj_succ, <- Z.add_1_l, Z.mul_add_distr_r, Z.mul_1_l, !int_mul_add, IH.
    by rewrite int_mul_1. }
  destruct (Z.le_ge_cases 0 a) as [Ha|Ha].
  - rewrite <- (Z2Nat.id a) by done. apply Hn.
  - replace a with (- Z.of_nat (Z.to_nat (- a))) by lia.
    by rewrite Z.mul_opp_l, !int_mul_opp, Hn.
Qed.
End Multiples.

(** ** The curve *)

Definition on_curve (x y : Z) : Prop := - (x * x) + y * y == 1 + d * (x * x) * (y * y).

Lemma on_curve_poly x y : on_curve x y <-> curve_poly d x y == 0.
Proof.
  unfold on_curve, curve_poly. rewrite <- eqmod_sub_0.
  split; intros H; apply eqmod_0, Z.divide_opp_r, eqmod_0; rewrite <- H; apply eq_eqmod; ring.
Qed.

#[global] Instance on_curve_proper :
  Proper (eqmod p25519 ==> eqmod p25519 ==> iff) on_curve.
Proof. intros x x' Hx y y' Hy. unfold on_curve. by rewrite Hx, Hy. Qed.

Lemma d_nonsquare x : x * x != d.
Proof.
  apply nonsquare. change ((p25519 - 1) / 2) with
    (Zpos 28948022309329048855892746252171976963317496166410141009864396001978282409974).
  transitivity (p25519 - 1); [|vm_compute; reflexivity].
  apply pow_eval; [done|]. vm_compute. reflexivity.
Qed.

(** [inv] is the inverse of the field, by the extended Euclidean algorithm. *)
Definition inv (a : Z) : Z := Z.invmod a p25519.

Lemma inv_ok a : a != 0 -> a * inv a == 1.
Proof.
  intros Ha. unfold inv, eqmod. rewrite Z.mul_comm, Z.invmod_prime; [done|exact p_prime|done].
Qed.

(** A multiple [a s^2] of a non-zero square by a non-square is not a square. *)
Lemma nonsquare_ratio a r s : (forall x, x * x != a) -> s != 0 -> r * r != a * (s * s).
Proof.
  intros Ha Hs H. apply (Ha (r * inv s)). pose proof (inv_ok s Hs) as Hi.
  transitivity (r * r * (inv s * inv s)); [apply eq_eqmod; ring|]. rewrite H.
  transitivity (a * (s * inv s) * (s * inv s)); [apply eq_eqmod; ring|]. rewrite Hi.
  apply eq_eqmod. ring.
Qed.

Lemma d_ratio r s : s != 0 -> r * r != d * (s * s).
Proof. apply nonsquare_ratio, d_nonsquare. Qed.

(** The square root of -1. *)
Definition im : Z := fval fe_sqrtm1.
Lemma im_sq : im * im == -1.
Proof. apply fe_sqrtm1_ok. Qed.

Lemma two_nonzero : 2 != 0.
Proof. neq_tac. Qed.

(** Congruences from linear combinations of congruences. *)
Lemma lin_comb1 c a b l r : a == b -> l = r + c * (a - b) -> l == r.
Proof.
  intros H ->. apply eqmod_sub_0 in H. rewrite H. apply eq_eqmod. ring.
Qed.
Lemma lin_comb2 c c' a b a' b' l r : a == b -> a' == b' ->
  l = r + c * (a - b) + c' * (a' - b') -> l == r.
Proof.
  intros H H' ->. apply eqmod_sub_0 in H, H'. rewrite H, H'. apply eq_eqmod. ring.
Qed.
Lemma lin_comb3 c c' c'' a b a' b' a'' b'' l r : a == b -> a' == b' -> a'' == b'' ->
  l = r + c * (a - b) + c' * (a' - b') + c'' * (a'' - b'') -> l == r.
Proof.
  intros H H' H'' ->. apply eqmod_sub_0 in H, H', H''. rewrite H, H', H''. apply eq_eqmod. ring.
Qed.

(** ** Completeness: the denominators never vanish *)

Section Complete.
Context (x1 y1 x2 y2 : Z) (H1 : on_curve x1 y1) (H2 : on_curve x2 y2).
Let k := dk d x1 y1 x2 y2.

Lemma complete_square s : s * s = 1 -> k * k == 1 ->
  (im * x1 + s * k * y1) * (im * x1 + s * k * y1)
  == d * ((x1 * y1 * (im * x2 + s * y2)) * (x1 * y1 * (im * x2 + s * y2))).
Proof using H1 H2.
  intros Hs Hk. unfold on_curve in H1, H2.
  transitivity (- (x1 * x1) + y1 * y1 + 2 * s * k * im * x1 * y1).
  - apply (lin_comb2 (x1 * x1) (y1 * y1) _ _ _ _ _ _ im_sq Hk).
    replace (im * x1 + s * k * y1) with (im * x1 + s * (k * y1)) by ring.
    transitivity (im * im * (x1 * x1) + 2 * s * k * im * x1 * y1 + (s * s) * (k * k) * (y1 * y1)); [ring|].
    rewrite Hs. ring.
  - symmetry. rewrite H1.
    transitivity (d * (x1 * x1) * (y1 * y1) * ((im * im) * (x2 * x2) + (s * s) * (y2 * y2))
      + 2 * s * k * im * x1 * y1); [apply eq_eqmod; unfold k, dk; ring|].
    rewrite Hs, im_sq.
    apply (lin_comb2 (d * (x1 * x1) * (y1 * y1)) 1 _ _ _ _ _ _ H2 Hk). unfold k, dk. ring.
Qed.

Lemma complete : k * k != 1.
Proof using H1 H2.
  intros Hk.
  assert (Hn : k != 0) by (intros E; rewrite E in Hk; revert Hk; neq_tac).
  assert (Hf : forall a b, a * b == k -> a != 0).
  { intros a b E E0. apply Hn. rewrite <- E, E0. done. }
  assert (Hx1 : x1 != 0) by (apply (Hf _ (d * x2 * y1 * y2)), eq_eqmod; unfold k, dk; ring).
  assert (Hy1 : y1 != 0) by (apply (Hf _ (d * x1 * x2 * y2)), eq_eqmod; unfold k, dk; ring).
  assert (Hy2 : y2 != 0) by (apply (Hf _ (d * x1 * x2 * y1)), eq_eqmod; unfold k, dk; ring).
  assert (Hz : forall s, s * s = 1 -> im * x2 + s * y2 == 0).
  { intros s Hs. destruct (eqmod_dec (im * x2 + s * y2) 0) as [|Hnz]; [done|]. exfalso.
    eapply d_ratio; [|by apply (complete_square s)]. by repeat apply mul_nonzero. }
  apply (mul_nonzero 2 y2 two_nonzero Hy2).
  apply (lin_comb2 1 (-1) _ _ _ _ _ _ (Hz 1 eq_refl) (Hz (-1) eq_refl)). ring.
Qed.

Lemma den_plus : 1 + k != 0.
Proof using H1 H2.
  intros E. apply complete. apply (lin_comb1 (k - 1) _ _ _ _ E). ring.
Qed.
Lemma den_minus : 1 - k != 0.
Proof using H1 H2.
  intros E. apply complete. apply (lin_comb1 (- 1 - k) _ _ _ _ E). ring.
Qed.
End Complete.

(** ** Sums, as solutions of the two defining equations *)

Definition asum (x1 y1 x2 y2 x3 y3 : Z) : Prop :=
  let k := dk d x1 y1 x2 y2 in
  x3 * (1 + k) == sx x1 y1 x2 y2 /\ y3 * (1 - k) == sy x1 y1 x2 y2.

Definition add_x (x1 y1 x2 y2 : Z) : Z := sx x1 y1 x2 y2 * inv (1 + dk d x1 y1 x2 y2).
Definition add_y (x1 y1 x2 y2 : Z) : Z := sy x1 y1 x2 y2 * inv (1 - dk d x1 y1 x2 y2).

Lemma div_mul a b : b != 0 -> a * inv b * b == a.
Proof.
  intros Hb. apply (lin_comb1 a _ _ _ _ (inv_ok b Hb)). ring.
Qed.

Section Sum.
Context (x1 y1 x2 y2 : Z) (H1 : on_curve x1 y1) (H2 : on_curve x2 y2).

Lemma asum_add : asum x1 y1 x2 y2 (add_x x1 y1 x2 y2) (add_y x1 y1 x2 y2).
Proof using H1 H2.
  split; apply div_mul; [by apply den_plus|by apply den_minus].
Qed.

Lemma asum_unique x3 y3 x4 y4 :
  asum x1 y1 x2 y2 x3 y3 -> asum x1 y1 x2 y2 x4 y4 -> x3 == x4 /\ y3 == y4.
Proof using H1 H2.
  intros [Hx Hy] [Hx' Hy']. split.
  - apply (mul_cancel (1 + dk d x1 y1 x2 y2)); [by apply den_plus|].
    rewrite (Z.mul_comm _ x3), (Z.mul_comm _ x4). by rewrite Hx, Hx'.
  - apply (mul_cancel (1 - dk d x1 y1 x2 y2)); [by apply den_minus|].
    rewrite (Z.mul_comm _ y3), (Z.mul_comm _ y4). by rewrite Hy, Hy'.
Qed.

(** The sum is on the curve: cofactors of the two curve equations. *)
Definition clo_1 : Z :=
  (y2^4 - 4*x2^2*y2^2 + 2*x2^2*y2^4 + x2^4 - 2*x2^4*y2^2 - 2*d*x2^2*y2^2 - 2*d*x2^4*y2^4
   - d^2*x2^4*y2^4)
  + y1^2 * (- d*x2^2*y2^4 + d*x2^4*y2^2 + d^2*x2^4*y2^4)
  + x1^2 * (d*x2^2*y2^4 - d*x2^4*y2^2 - d^2*x2^4*y2^4) + x1^2*y1^2 * (d^3*x2^4*y2^4).
Definition clo_2 : Z :=
  (1 + y2^2 - x2^2 + 2*x2^2*y2^2 + d*x2^2*y2^2)
  + y1^2 * (- y2^2 + x2^2 - 2*x2^2*y2^2 - 2*d*x2^2*y2^2) + y1^4 * (d*x2^2*y2^2)
  + x1^2 * (y2^2 - x2^2 + 2*x2^2*y2^2 + 2*d*x2^2*y2^2) + x1^4 * (d*x2^2*y2^2).

Lemma asum_on_curve x3 y3 : asum x1 y1 x2 y2 x3 y3 -> on_curve x3 y3.
Proof using H1 H2.
  intros [Hx Hy]. set (k := dk d x1 y1 x2 y2) in *. apply on_curve_poly.
  assert (Hd : (1 + k) * (1 - k) * ((1 + k) * (1 - k)) != 0)
    by (repeat apply mul_nonzero; first [by apply den_plus|by apply den_minus]).
  apply (mul_cancel _ _ _ Hd). rewrite Z.mul_0_r.
  set (X := sx x1 y1 x2 y2) in *. set (Y := sy x1 y1 x2 y2) in *.
  transitivity ((1 + k) * (1 - k) * ((1 + k) * (1 - k)) + d * (X * X) * (Y * Y)
    + X * X * ((1 - k) * (1 - k)) - Y * Y * ((1 + k) * (1 + k))).
  - rewrite <- Hx, <- Hy. apply eq_eqmod. unfold curve_poly. ring.
  - apply on_curve_poly in H1, H2.
    apply (lin_comb2 clo_1 clo_2 _ _ _ _ _ _ H1 H2).
    unfold X, Y, k, clo_1, clo_2, curve_poly, dk, sx, sy. generalize d. intros. ring.
Qed.
End Sum.

(** ** Associativity *)

(** Adding a third point over common denominators. *)
Lemma asum_den x1 y1 x2 y2 x3 y3 a b u v :
  on_curve x1 y1 -> on_curve x2 y2 -> on_curve x3 y3 ->
  asum x1 y1 x2 y2 a b -> asum a b x3 y3 u v ->
  den_x d x1 y1 x2 y2 x3 y3 != 0 /\ den_y d x1 y1 x2 y2 x3 y3 != 0 /\
  u * den_x d x1 y1 x2 y2 x3 y3 == num_x d x1 y1 x2 y2 x3 y3 /\
  v * den_y d x1 y1 x2 y2 x3 y3 == num_y d x1 y1 x2 y2 x3 y3.
Proof.
  intros H1 H2 H3 H12 [Hu Hv]. pose proof (asum_on_curve _ _ _ _ H1 H2 _ _ H12) as Hc.
  pose proof (den_plus _ _ _ _ H1 H2) as Hp. pose proof (den_minus _ _ _ _ H1 H2) as Hm.
  pose proof (den_plus _ _ _ _ Hc H3) as Hp'. pose proof (den_minus _ _ _ _ Hc H3) as Hm'.
  destruct H12 as [Ha Hb]. set (k := dk d x1 y1 x2 y2) in *.
  assert (Ex : den_x d x1 y1 x2 y2 x3 y3 == (1 + k) * (1 - k) * (1 + dk d a b x3 y3)).
  { unfold den_x. fold k. rewrite <- Ha, <- Hb. apply eq_eqmod. unfold dk. ring. }
  assert (Ey : den_y d x1 y1 x2 y2 x3 y3 == (1 + k) * (1 - k) * (1 - dk d a b x3 y3)).
  { unfold den_y. fold k. rewrite <- Ha, <- Hb. apply eq_eqmod. unfold dk. ring. }
  rewrite Ex, Ey. split_and!; [by repeat apply mul_nonzero|by repeat apply mul_nonzero| |].
  - transitivity ((1 + k) * (1 - k) * (u * (1 + dk d a b x3 y3))); [apply eq_eqmod; ring|].
    rewrite Hu. unfold num_x. fold k. rewrite <- Ha, <- Hb. apply eq_eqmod. unfold sx. ring.
  - transitivity ((1 + k) * (1 - k) * (v * (1 - dk d a b x3 y3))); [apply eq_eqmod; ring|].
    rewrite Hv. unfold num_y. fold k. rewrite <- Ha, <- Hb. apply eq_eqmod. unfold sy. ring.
Qed.

Lemma frac_eq u u' n n' e e' : e != 0 -> e' != 0 -> u * e == n -> u' * e' == n' ->
  n * e' == n' * e -> u == u'.
Proof.
  intros He He' Hu Hu' Hn. apply (mul_cancel (e * e')); [by apply mul_nonzero|].
  transitivity (u * e * e'); [apply eq_eqmod; ring|]. rewrite Hu, Hn, <- Hu'.
  apply eq_eqmod. ring.
Qed.

Lemma asum_assoc x1 y1 x2 y2 x3 y3 a b a' b' u v u' v' :
  on_curve x1 y1 -> on_curve x2 y2 -> on_curve x3 y3 ->
  asum x1 y1 x2 y2 a b -> asum a b x3 y3 u v ->
  asum x2 y2 x3 y3 a' b' -> asum a' b' x1 y1 u' v' -> u == u' /\ v == v'.
Proof.
  intros H1 H2 H3 Hs Ht Hs' Ht'.
  destruct (asum_den _ _ _ _ _ _ _ _ _ _ H1 H2 H3 Hs Ht) as (N1 & N2 & Ex & Ey).
  destruct (asum_den _ _ _ _ _ _ _ _ _ _ H2 H3 H1 Hs' Ht') as (N1' & N2' & Ex' & Ey').
  apply on_curve_poly in H1, H2, H3. split.
  - apply (frac_eq _ _ _ _ _ _ N1 N1' Ex Ex'). apply eqmod_sub_0. rewrite assoc_x.
    rewrite H1, H2, H3. apply eq_eqmod. ring.
  - apply (frac_eq _ _ _ _ _ _ N2 N2' Ey Ey'). apply eqmod_sub_0. rewrite assoc_y.
    rewrite H1, H2, H3. apply eq_eqmod. ring.
Qed.

Lemma asum_comm x1 y1 x2 y2 x3 y3 : asum x1 y1 x2 y2 x3 y3 -> asum x2 y2 x1 y1 x3 y3.
Proof.
  intros [Hx Hy]. split.
  - transitivity (x3 * (1 + dk d x1 y1 x2 y2)); [apply eq_eqmod; unfold dk; ring|].
    rewrite Hx. apply eq_eqmod. unfold sx. ring.
  - transitivity (y3 * (1 - dk d x1 y1 x2 y2)); [apply eq_eqmod; unfold dk; ring|].
    rewrite Hy. apply eq_eqmod. unfold sy. ring.
Qed.

#[global] Instance asum_proper : Proper (eqmod p25519 ==> eqmod p25519 ==> eqmod p25519 ==>
  eqmod p25519 ==> eqmod p25519 ==> eqmod p25519 ==> iff) asum.
Proof.
  intros a a' Ha b b' Hb c c' Hc e e' He f f' Hf g g' Hg. unfold asum, dk, sx, sy. cbv zeta.
  by rewrite Ha, Hb, Hc, He, Hf, Hg.
Qed.

(** ** The group *)

Definition point_ok (x y : Z) : bool :=
  (0 <=? x) && (x <? p25519) && (0 <=? y) && (y <? p25519)
  && ((- (x * x) + y * y) mod p25519 =? (1 + d * (x * x) * (y * y)) mod p25519).

Record epoint := mkpoint { ex : Z; ey : Z; epoint_ok : point_ok ex ey = true }.

Lemma point_ok_spec x y : point_ok x y = true <->
  0 <= x < p25519 /\ 0 <= y < p25519 /\ on_curve x y.
Proof. unfold point_ok, on_curve, eqmod. rewrite !andb_true_iff, Z.eqb_eq. lia. Qed.

Lemma epoint_on_curve e : on_curve (ex e) (ey e).
Proof. pose proof (epoint_ok e) as H. by apply point_ok_spec in H as (_ & _ & H). Qed.

Lemma epoint_eq e f : ex e == ex f -> ey e == ey f -> e = f.
Proof.
  destruct e as [x y H], f as [x' y' H']. cbn [ex ey].
  pose proof H as (Hx & Hy & _)%point_ok_spec. pose proof H' as (Hx' & Hy' & _)%point_ok_spec.
  intros E1 E2. apply eqmod_small in E1; [|done..]. apply eqmod_small in E2; [|done..]. subst.
  f_equal. apply proof_irrel.
Qed.

Lemma point_mod_ok x y : on_curve x y -> point_ok (x mod p25519) (y mod p25519) = true.
Proof.
  intros H. apply point_ok_spec. split_and!; try by apply Z.mod_pos_bound. by rewrite !eqmod_mod.
Qed.

Definition point_of (x y : Z) (H : on_curve x y) : epoint := mkpoint _ _ (point_mod_ok x y H).

Definition eadd (e f : epoint) : epoint :=
  point_of _ _ (asum_on_curve _ _ _ _ (epoint_on_curve e) (epoint_on_curve f) _ _
    (asum_add _ _ _ _ (epoint_on_curve e) (epoint_on_curve f))).

Lemma neg_on_curve x y : on_curve x y -> on_curve (- x) y.
Proof. unfold on_curve. intros H. rewrite !Z.mul_opp_opp. exact H. Qed.

Definition eneg (e : epoint) : epoint := point_of _ _ (neg_on_curve _ _ (epoint_on_curve e)).

Definition ezero : epoint := mkpoint 0 1 eq_refl.

Lemma eadd_asum e f : asum (ex e) (ey e) (ex f) (ey f) (ex (eadd e f)) (ey (eadd e f)).
Proof.
  cbn [eadd point_of ex ey]. rewrite !eqmod_mod. apply asum_add; apply epoint_on_curve.
Qed.

Lemma eadd_intro e f g : asum (ex e) (ey e) (ex f) (ey f) (ex g) (ey g) -> eadd e f = g.
Proof.
  intros H. destruct (asum_unique _ _ _ _ (epoint_on_curve e) (epoint_on_curve f) _ _ _ _
    (eadd_asum e f) H) as [Hx Hy]. by apply epoint_eq.
Qed.

Lemma eadd_comm e f : eadd e f = eadd f e.
Proof. apply eadd_intro, asum_comm, eadd_asum. Qed.

Lemma eadd_assoc e f g : eadd e (eadd f g) = eadd (eadd e f) g.
Proof.
  rewrite (eadd_comm e).
  destruct (asum_assoc _ _ _ _ _ _ _ _ _ _ _ _ _ _ (epoint_on_curve e) (epoint_on_curve f)
    (epoint_on_curve g) (eadd_asum e f) (eadd_asum (eadd e f) g) (eadd_asum f g)
    (eadd_asum (eadd f g) e)) as [Hx Hy].
  symmetry. by apply epoint_eq.
Qed.

Lemma eadd_zero e : eadd ezero e = e.
Proof.
  apply eadd_intro. cbn [ezero ex ey]. unfold asum, dk, sx, sy. cbv zeta.
  split; apply eq_eqmod; ring.
Qed.

Lemma eadd_neg e : eadd e (eneg e) = ezero.
Proof.
  apply eadd_intro. cbn [eneg point_of ezero ex ey]. rewrite !eqmod_mod.
  pose proof (epoint_on_curve e) as H. unfold on_curve in H.
  unfold asum, dk, sx, sy. cbv zeta. split; [apply eq_eqmod; ring|].
  apply (lin_comb1 (-1) _ _ _ _ H). ring.
Qed.

#[global] Instance epoint_group : AbelianGroup epoint := {|
  plus := eadd; neutral := ezero; opp := eneg;
  plus_comm := eadd_comm; plus_assoc := eadd_assoc;
  plus_neutral := eadd_zero; plus_opp := eadd_neg;
|}.

(** ** Extended coordinates of a point *)

Record affine (P : Ed.pt) (e : epoint) : Prop := mkaffine {
  affine_Z : Ed.pZ P != 0;
  affine_X : Ed.pX P == ex e * Ed.pZ P;
  affine_Y : Ed.pY P == ey e * Ed.pZ P;
  affine_T : Ed.pT P == ex e * ey e * Ed.pZ P;
}.

Lemma affine_unique P e f : affine P e -> affine P f -> e = f.
Proof.
  intros [HZ HX HY _] [_ HX' HY' _].
  apply epoint_eq; apply (mul_cancel (Ed.pZ P) _ _ HZ); rewrite !(Z.mul_comm (Ed.pZ P)).
  - by rewrite <- HX, HX'.
  - by rewrite <- HY, HY'.
Qed.

Lemma affine_zero : affine Ed.zero ezero.
Proof. split; [exact one_nonzero|vm_compute; reflexivity..]. Qed.

Lemma affine_neg P e : affine P e -> affine (Ed.neg P) (eneg e).
Proof.
  intros [HZ HX HY HT]. split; cbn [Ed.neg Ed.pX Ed.pY Ed.pZ Ed.pT eneg point_of ex ey];
    rewrite ?eqmod_mod; [done|rewrite HX|exact HY|rewrite HT]; apply eq_eqmod; ring.
Qed.

Lemma affine_proj P Q e : Ed.proj P Q -> affine P e -> affine Q e.
Proof.
  intros (k & k' & Hk & EX & EY & EZ & ET) [HZ HX HY HT]. split.
  - rewrite EZ. apply mul_nonzero; [|done]. intros E. rewrite E in Hk. by apply one_nonzero.
  - rewrite EX, EZ, HX. apply eq_eqmod. ring.
  - rewrite EY, EZ, HY. apply eq_eqmod. ring.
  - rewrite ET, EZ, HT. apply eq_eqmod. ring.
Qed.

(** [Ed.finish] with the four values of a sum over a common factor. *)
Lemma affine_finish x1 y1 x2 y2 g c E H G F (k := dk d x1 y1 x2 y2) :
  on_curve x1 y1 -> on_curve x2 y2 -> c != 0 -> asum x1 y1 x2 y2 (ex g) (ey g) ->
  E == c * sx x1 y1 x2 y2 -> H == c * sy x1 y1 x2 y2 -> G == c * (1 + k) -> F == c * (1 - k) ->
  affine (Ed.finish E H G F) g.
Proof.
  intros H1 H2 Hc [Hx Hy] HE HH HG HF. fold k in Hx, Hy.
  pose proof (den_plus _ _ _ _ H1 H2) as Hp. pose proof (den_minus _ _ _ _ H1 H2) as Hm.
  split; cbn [Ed.finish Ed.pX Ed.pY Ed.pZ Ed.pT]; rewrite ?HG, ?HF, ?HE, ?HH, <- ?Hx, <- ?Hy.
  - by repeat apply mul_nonzero.
  - apply eq_eqmod. ring.
  - apply eq_eqmod. ring.
  - apply eq_eqmod. ring.
Qed.

Lemma affine_add P Q e f : affine P e -> affine Q f -> affine (Ed.add P Q) (eadd e f).
Proof.
  intros [HZ HX HY HT] [HZ' HX' HY' HT'].
  apply (affine_finish _ _ _ _ _ (2 * (Ed.pZ P * Ed.pZ Q)) _ _ _ _
    (epoint_on_curve e) (epoint_on_curve f)); [|apply eadd_asum|..].
  - apply mul_nonzero; [exact two_nonzero|by apply mul_nonzero].
  - rewrite HX, HY, HX', HY'. apply eq_eqmod. unfold sx. ring.
  - rewrite HX, HY, HX', HY'. apply eq_eqmod. unfold sy. ring.
  - rewrite HT, HT'. apply eq_eqmod. unfold dk. ring.
  - rewrite HT, HT'. apply eq_eqmod. unfold dk. ring.
Qed.

Lemma affine_dbl P e : affine P e -> affine (Ed.dbl P) (eadd e e).
Proof.
  intros [HZ HX HY HT]. pose proof (epoint_on_curve e) as He.
  apply (affine_finish _ _ _ _ _ (Ed.pZ P * Ed.pZ P) _ _ _ _ He He); [|apply eadd_asum|..];
    unfold on_curve in He; rewrite ?HX, ?HY.
  - by apply mul_nonzero.
  - apply eq_eqmod. unfold sx. ring.
  - apply eq_eqmod. unfold sy. ring.
  - apply (lin_comb1 (Ed.pZ P * Ed.pZ P) _ _ _ _ He). unfold dk. ring.
  - apply (lin_comb1 (- (Ed.pZ P * Ed.pZ P)) _ _ _ _ He). unfold dk. ring.
Qed.
