(* ===== verification/GeMult.v ===== *)
(** * Scalar multiplication: crypto-ops.c

    Recoding of scalars ([slide], the radix-16 digits of [ge_scalarmult] and
    [ge_scalarmult_base]), constant-time table selection, and the
    multiplication loops.  The digit arrays are lists of [signed char]. *)

From S2P Require Import Prelude CInt Fe Ge.

(** ** Sliding windows *)

(** [for (k = i + b; k < 256; ++k) if (!r[k]) { r[k] = 1; break; } else r[k] = 0]:
    [n] is [256 - k]. *)
Fixpoint slide_carry (n k : nat) (r : list Z) : list Z :=
  match n with
  | O => r
  | S n => if r !!! k =? 0 then <[k := 1]> r else slide_carry n (S k) (<[k := 0]> r)
  end.

(** The loop on [b]: [n] is [7 - b]. *)
Fixpoint slide_window (n b i : nat) (r : list Z) : list Z :=
  match n with
  | O => r
  | S n =>
    if (i + b <? 256)%nat then
      if r !!! (i + b)%nat =? 0 then slide_window n (S b) i r
      else if r !!! i + ((r !!! (i + b)%nat) .<< Z.of_nat b) <=? 15 then
        slide_window n (S b) i
          (<[(i + b)%nat := 0]> (<[i := i8 (r !!! i + ((r !!! (i + b)%nat) .<< Z.of_nat b))]> r))
      else if -15 <=? r !!! i - ((r !!! (i + b)%nat) .<< Z.of_nat b) then
        slide_window n (S b) i
          (slide_carry (256 - (i + b)) (i + b)
            (<[i := i8 (r !!! i - ((r !!! (i + b)%nat) .<< Z.of_nat b))]> r))
      else r
    else r
  end.

Definition slide_bits (a : bytes) : list Z :=
  (fun i => 1 .& ((a !!! (i / 8)%nat) .>> Z.of_nat (i mod 8))) <$> seq 0 256.

Definition slide_step (r : list Z) (i : nat) : list Z :=
  if r !!! i =? 0 then r else slide_window 6 1 i r.

Definition slide (a : bytes) : list Z := foldl slide_step (slide_bits a) (seq 0 256).

(** ** Radix 16 *)

(** The loop of [ge_scalarmult] over [a[0..30]] and its last byte. *)
Fixpoint recode16 (carry : Z) (a : bytes) : list Z :=
  match a with
  | [] => []
  | [x] =>
      let carry := carry + x in
      let carry2 := (carry + 8) .>> 4 in
      [i8 (carry - (carry2 .<< 4)); i8 carry2]
  | x :: a =>
      let carry := carry + x in
      let carry2 := (carry + 8) .>> 4 in
      let e0 := i8 (carry - (carry2 .<< 4)) in
      let carry := (carry2 + 8) .>> 4 in
      let e1 := i8 (carry2 - (carry .<< 4)) in
      e0 :: e1 :: recode16 carry a
  end.

(** The nibbles of [ge_scalarmult_base] and its signed carry loop. *)
Definition nibbles (a : bytes) : list Z :=
  mjoin ((fun x => [(x .>> 0) .& 15; (x .>> 4) .& 15]) <$> a).

Fixpoint base_carry (carry : Z) (e : list Z) : list Z :=
  match e with
  | [] => []
  | [x] => [i8 (x + carry)]
  | x :: e =>
      let x := i8 (x + carry) in
      let carry := i8 (x + 8) in
      let carry := carry .>> 4 in
      i8 (x - (carry .<< 4)) :: base_carry carry e
  end.

Definition base_digits (a : bytes) : list Z := base_carry 0 (nibbles a).

(** ** Constant-time selection *)

Definition equal (b c : Z) : Z :=
  let ub := u8 b in
  let uc := u8 c in
  let x := ub .^ uc in
  let y := u32 (x - 1) in
  u8 (y .>> 31).

Definition negative (b : Z) : Z := u8 (u64 b .>> 63).

Definition babs (b : Z) : Z := u8 (b - ((- negative b .& b) .<< 1)).

Definition ge_cached_cmov (t u : ge_cached) (b : Z) : ge_cached :=
  Ca.mk (fe_cmov (Ca.YplusX t) (Ca.YplusX u) b) (fe_cmov (Ca.YminusX t) (Ca.YminusX u) b)
        (fe_cmov (Ca.Z t) (Ca.Z u) b) (fe_cmov (Ca.T2d t) (Ca.T2d u) b).

Definition ge_precomp_cmov (t u : ge_precomp) (b : Z) : ge_precomp :=
  Pre.mk (fe_cmov (Pre.yplusx t) (Pre.yplusx u) b) (fe_cmov (Pre.yminusx t) (Pre.yminusx u) b)
         (fe_cmov (Pre.xy2d t) (Pre.xy2d u) b).

#[global] Instance ge_cached_inhabited : Inhabited ge_cached := populate ge_cached_0.
#[global] Instance ge_precomp_inhabited : Inhabited ge_precomp := populate ge_precomp_0.

(** The selection in the loop of [ge_scalarmult]. *)
Definition select_cached (Ai : list ge_cached) (b : Z) : ge_cached :=
  let cur := foldl (fun cur j => ge_cached_cmov cur (Ai !!! j) (equal (babs b) (Z.of_nat (S j))))
               ge_cached_0 (seq 0 8) in
  let minuscur := Ca.mk (fe_copy (Ca.YminusX cur)) (fe_copy (Ca.YplusX cur)) (fe_copy (Ca.Z cur))
                        (fe_neg (Ca.T2d cur)) in
  ge_cached_cmov cur minuscur (negative b).

(** [select]: [row] is [ge_base[pos]]. *)
Definition select (row : list ge_precomp) (b : Z) : ge_precomp :=
  let t := foldl (fun t j => ge_precomp_cmov t (row !!! j) (equal (babs b) (Z.of_nat (S j))))
             ge_precomp_0 (seq 0 8) in
  let minust := Pre.mk (fe_copy (Pre.yminusx t)) (fe_copy (Pre.yplusx t)) (fe_neg (Pre.xy2d t)) in
  ge_precomp_cmov t minust (negative b).

(** ** Variable base *)

(** [Ai[0..7] = A, 2A, ..., 8A]. *)
Fixpoint cached_multiples (n : nat) (A : ge_p3) (c : ge_cached) : list ge_cached :=
  match n with
  | O => []
  | S n => c :: cached_multiples n A (ge_p3_to_cached (ge_p1p1_to_p3 (ge_add A c)))
  end.

Definition scalarmult_digit (Ai : list ge_cached) (r : ge_p2) (b : Z) : ge_p1p1 :=
  let r := ge_p1p1_to_p2 (ge_p2_dbl r) in
  let r := ge_p1p1_to_p2 (ge_p2_dbl r) in
  let r := ge_p1p1_to_p2 (ge_p2_dbl r) in
  let u := ge_p1p1_to_p3 (ge_p2_dbl r) in
  ge_add u (select_cached Ai b).

Definition ge_scalarmult (a : bytes) (A : ge_p3) : ge_p2 :=
  let e := recode16 0 a in
  let Ai := cached_multiples 8 A (ge_p3_to_cached A) in
  foldl (fun r b => ge_p1p1_to_p2 (scalarmult_digit Ai r b)) ge_p2_0 (reverse e).

(** The last iteration converts to [ge_p3]. *)
Definition ge_scalarmult_p3 (a : bytes) (A : ge_p3) : ge_p3 :=
  let e := recode16 0 a in
  let Ai := cached_multiples 8 A (ge_p3_to_cached A) in
  let r := foldl (fun r b => ge_p1p1_to_p2 (scalarmult_digit Ai r b)) ge_p2_0 (reverse (drop 1 e)) in
  ge_p1p1_to_p3 (scalarmult_digit Ai r (e !!! 0%nat)).

(** ** Double scalar multiplication *)

(** A, 3A, 5A, ..., 15A *)
Fixpoint dsm_multiples (n : nat) (s2 : ge_p3) (c : ge_cached) : list ge_cached :=
  match n with
  | O => []
  | S n => c :: dsm_multiples n s2 (ge_p3_to_cached (ge_p1p1_to_p3 (ge_add s2 c)))
  end.

Definition ge_dsm_precomp (s : ge_p3) : list ge_cached :=
  let s2 := ge_p1p1_to_p3 (ge_p3_dbl s) in
  dsm_multiples 8 s2 (ge_p3_to_cached s).

Definition dsm_add (Ai : list ge_cached) (t : ge_p1p1) (x : Z) : ge_p1p1 :=
  if 0 <? x then ge_add (ge_p1p1_to_p3 t) (Ai !!! Z.to_nat (Z.quot x 2))
  else if x <? 0 then ge_sub (ge_p1p1_to_p3 t) (Ai !!! Z.to_nat (Z.quot (- x) 2))
  else t.

Definition dsm_madd (Bi : list ge_precomp) (t : ge_p1p1) (x : Z) : ge_p1p1 :=
  if 0 <? x then ge_madd (ge_p1p1_to_p3 t) (Bi !!! Z.to_nat (Z.quot x 2))
  else if x <? 0 then ge_msub (ge_p1p1_to_p3 t) (Bi !!! Z.to_nat (Z.quot (- x) 2))
  else t.

(** The pairs of digits from the top, without the leading zero pairs that the
    first loop skips. *)
Fixpoint skip_zeros (ds : list (Z * Z)) : list (Z * Z) :=
  match ds with
  | (x, y) :: t => if (x =? 0) && (y =? 0) then skip_zeros t else ds
  | [] => []
  end.

Definition dsm_digits (a b : bytes) : list (Z * Z) :=
  skip_zeros (reverse (zip (slide a) (slide b))).

Definition ge_double_scalarmult_precomp_vartime2
    (a : bytes) (Ai : list ge_cached) (b : bytes) (Bi : list ge_cached) : ge_p2 :=
  foldl (fun r d => ge_p1p1_to_p2 (dsm_add Bi (dsm_add Ai (ge_p2_dbl r) d.1) d.2))
    ge_p2_0 (dsm_digits a b).

Definition ge_double_scalarmult_precomp_vartime
    (a : bytes) (A : ge_p3) (b : bytes) (Bi : list ge_cached) : ge_p2 :=
  ge_double_scalarmult_precomp_vartime2 a (ge_dsm_precomp A) b Bi.

(** [ge_Bi] is the table of crypto-ops-data.c. *)
Definition ge_double_scalarmult_base_vartime (ge_Bi : list ge_precomp)
    (a : bytes) (A : ge_p3) (b : bytes) : ge_p2 :=
  let Ai := ge_dsm_precomp A in
  foldl (fun r d => ge_p1p1_to_p2 (dsm_madd ge_Bi (dsm_add Ai (ge_p2_dbl r) d.1) d.2))
    ge_p2_0 (dsm_digits a b).

(** The [_p3] variants write their result in the iteration [i == 0] only:
    with no digit pair at all ([None]) the output is left unwritten. *)
Definition dsm_p3 (step : ge_p2 -> Z * Z -> ge_p1p1) (ds : list (Z * Z)) : option ge_p3 :=
  match reverse ds with
  | [] => None
  | d0 :: rest =>
      let r := foldl (fun r d => ge_p1p1_to_p2 (step r d)) ge_p2_0 (reverse rest) in
      Some (ge_p1p1_to_p3 (step r d0))
  end.

Definition ge_double_scalarmult_precomp_vartime2_p3
    (a : bytes) (Ai : list ge_cached) (b : bytes) (Bi : list ge_cached) : option ge_p3 :=
  dsm_p3 (fun r d => dsm_add Bi (dsm_add Ai (ge_p2_dbl r) d.1) d.2) (dsm_digits a b).

Definition ge_double_scalarmult_base_vartime_p3 (ge_Bi : list ge_precomp)
    (a : bytes) (A : ge_p3) (b : bytes) : option ge_p3 :=
  let Ai := ge_dsm_precomp A in
  dsm_p3 (fun r d => dsm_madd ge_Bi (dsm_add Ai (ge_p2_dbl r) d.1) d.2) (dsm_digits a b).

(** ** Fixed base *)

Definition base_step (h : ge_p3) (row : list ge_precomp) (b : Z) : ge_p3 :=
  ge_p1p1_to_p3 (ge_madd h (select row b)).

(** [for (i = ...; i < 64; i += 2) { select(&t, i / 2, e[i]); ... }]; [f] gives
    the digit of the [i]-th iteration. *)
Definition base_loop (ge_base : list (list ge_precomp)) (f : nat -> Z) (h : ge_p3) : ge_p3 :=
  foldl (fun h i => base_step h (ge_base !!! i) (f i)) h (seq 0 32).

(** Odd digits, four doublings, even digits. *)
Definition ge_scalarmult_base (ge_base : list (list ge_precomp)) (a : bytes) : ge_p3 :=
  let e := base_digits a in
  let h := base_loop ge_base (fun i => e !!! (2 * i + 1)%nat) ge_p3_0 in
  let s := ge_p1p1_to_p2 (ge_p3_dbl h) in
  let s := ge_p1p1_to_p2 (ge_p2_dbl s) in
  let s := ge_p1p1_to_p2 (ge_p2_dbl s) in
  let h := ge_p1p1_to_p3 (ge_p2_dbl s) in
  base_loop ge_base (fun i => e !!! (2 * i)%nat) h.
