(* ===== verification/GeMultProofs.v ===== *)
(** * Correctness of the scalar multiplications

    [comb A B m n P]: the extended point [P] is reached from [A] and [B] by
    additions, doublings and negations that count [m] times [A] and [n] times
    [B].  The loops of the source, run on limbs, represent such a point with
    the integers their scalar arguments encode; in every abelian group where
    the curve operations are interpreted, it is the linear combination. *)

From S2P Require Import Prelude CInt BitField Fe FeProofs FeField Ge GeProofs EdAssoc EdGroup GeMult.

Section Comb.
Context (A B : Ed.pt).

Inductive comb : Z -> Z -> Ed.pt -> Prop :=
| comb_zero : comb 0 0 Ed.zero
| comb_A : comb 1 0 A
| comb_B : comb 0 1 B
| comb_add m n m' n' P Q : comb m n P -> comb m' n' Q -> comb (m + m') (n + n') (Ed.add P Q)
| comb_dbl m n P : comb m n P -> comb (m + m) (n + n) (Ed.dbl P)
| comb_neg m n P : comb m n P -> comb (- m) (- n) (Ed.neg P)
| comb_proj m n P Q : Ed.proj P Q -> comb m n P -> comb m n Q.

(** Lifted to the structures of the source. *)
Definition R3 (m n : Z) (h : ge_p3) : Prop := exists P, rep3 h P /\ comb m n P.
Definition R2 (m n : Z) (h : ge_p2) : Prop := exists P, rep2 h P /\ comb m n P.
Definition R1 (m n : Z) (h : ge_p1p1) : Prop := exists P, rep1 h P /\ comb m n P.
Definition Rc (m n : Z) (h : ge_cached) : Prop := exists P, repc h P /\ comb m n P.
Definition Rp (m n : Z) (h : ge_precomp) : Prop := exists P, repp h P /\ comb m n P.

Lemma R_add m n m' n' p q : R3 m n p -> Rc m' n' q -> R1 (m + m') (n + n') (ge_add p q).
Proof. intros (P&?&?) (Q&?&?). exists (Ed.add P Q). split; [by apply ge_add_ok|by constructor]. Qed.

Lemma R_sub m n m' n' p q : R3 m n p -> Rc m' n' q -> R1 (m - m') (n - n') (ge_sub p q).
Proof.
  intros (P&?&?) (Q&?&?). exists (Ed.add P (Ed.neg Q)). split; [by apply ge_sub_ok|].
  by apply comb_add, comb_neg.
Qed.

Lemma R_madd m n m' n' p q : R3 m n p -> Rp m' n' q -> R1 (m + m') (n + n') (ge_madd p q).
Proof. intros (P&?&?) (Q&?&?). exists (Ed.add P Q). split; [by apply ge_madd_ok|by constructor]. Qed.

Lemma R_msub m n m' n' p q : R3 m n p -> Rp m' n' q -> R1 (m - m') (n - n') (ge_msub p q).
Proof.
  intros (P&?&?) (Q&?&?). exists (Ed.add P (Ed.neg Q)). split; [by apply ge_msub_ok|].
  by apply comb_add, comb_neg.
Qed.

Lemma R_dbl m n p : R2 m n p -> R1 (m + m) (n + n) (ge_p2_dbl p).
Proof. intros (P&?&?). exists (Ed.dbl P). split; [by apply ge_p2_dbl_ok|by constructor]. Qed.
Lemma R_p3_dbl m n p : R3 m n p -> R1 (m + m) (n + n) (ge_p3_dbl p).
Proof. intros (P&?&?). exists (Ed.dbl P). split; [by apply ge_p3_dbl_ok|by constructor]. Qed.
Lemma R_to3 m n p : R1 m n p -> R3 m n (ge_p1p1_to_p3 p).
Proof. intros (P&?&?). exists P. split; [by apply ge_p1p1_to_p3_ok|done]. Qed.
Lemma R_to2 m n p : R1 m n p -> R2 m n (ge_p1p1_to_p2 p).
Proof. intros (P&?&?). exists P. split; [by apply ge_p1p1_to_p2_ok|done]. Qed.
Lemma R_cached m n p : R3 m n p -> Rc m n (ge_p3_to_cached p).
Proof. intros (P&?&?). exists P. split; [by apply ge_p3_to_cached_ok|done]. Qed.
Lemma R3_0 : R3 0 0 ge_p3_0.
Proof. exists Ed.zero. split; [apply ge_p3_0_ok|constructor]. Qed.
Lemma R2_0 : R2 0 0 ge_p2_0.
Proof. exists Ed.zero. split; [apply ge_p2_0_ok|constructor]. Qed.
Lemma Rc_0 : Rc 0 0 ge_cached_0.
Proof. exists Ed.zero. split; [apply ge_cached_0_ok|constructor]. Qed.
Lemma Rp_0 : Rp 0 0 ge_precomp_0.
Proof. exists Ed.zero. split; [apply ge_precomp_0_ok|constructor]. Qed.

(** A negated table entry. *)
Lemma R_neg_cached m n c : Rc m n c ->
  Rc (- m) (- n) (Ca.mk (fe_copy (Ca.YminusX c)) (fe_copy (Ca.YplusX c)) (fe_copy (Ca.Z c))
                        (fe_neg (Ca.T2d c))).
Proof.
  intros (P & (?&?&?&?&?&?&?&?) & ?). exists (Ed.neg P). split; [|by constructor].
  destruct (fe_neg_ok 110 (Ca.T2d c)) as [Hb Hv]; [done|lia|].
  split_and!; cbn [Ca.YplusX Ca.YminusX Ca.Z Ca.T2d Ed.pX Ed.pY Ed.pZ Ed.pT Ed.neg];
    rewrite ?(fe_copy_id 220), ?(fe_copy_id 110) by done; try done; rewrite ?Hv;
    match goal with H : fval ?t == _ |- context [fval ?t] => rewrite H end; apply eq_eqmod; ring.
Qed.

Lemma R_neg_precomp m n c : Rp m n c ->
  Rp (- m) (- n) (Pre.mk (fe_copy (Pre.yminusx c)) (fe_copy (Pre.yplusx c)) (fe_neg (Pre.xy2d c))).
Proof.
  intros (P & (?&?&?&?&?&?&?) & ?). exists (Ed.neg P). split; [|by constructor].
  destruct (fe_neg_ok 110 (Pre.xy2d c)) as [Hb Hv]; [done|lia|].
  split_and!; cbn [Pre.yplusx Pre.yminusx Pre.xy2d Ed.pX Ed.pY Ed.pZ Ed.pT Ed.neg];
    rewrite ?(fe_copy_id 110) by done; try done; rewrite ?Hv;
    match goal with H : fval ?t == _ |- context [fval ?t] => rewrite H end; apply eq_eqmod; ring.
Qed.
End Comb.

(** In the group of the curve [comb A B m n P] says that [P] is [m A + n B]. *)
Lemma comb_affine A B m n P a b : comb A B m n P -> affine A a -> affine B b ->
  affine P (plus (int_mul m a) (int_mul n b)).
Proof.
  intros HC HA HB.
  induction HC as [| | |m n m' n' P Q _ IH1 _ IH2|m n P _ IH|m n P _ IH|m n P Q HE _ IH].
  - rewrite !int_mul_0, plus_neutral. exact affine_zero.
  - by rewrite int_mul_0, int_mul_1, plus_neutral_r.
  - by rewrite int_mul_0, int_mul_1, plus_neutral.
  - rewrite !int_mul_add, swap4. by apply affine_add.
  - rewrite !int_mul_add, swap4. by apply affine_dbl.
  - rewrite !int_mul_opp, <- opp_plus. by apply affine_neg.
  - by apply (affine_proj P).
Qed.

(** ** Radix-16 digits *)

Fixpoint val16 (e : list Z) : Z :=
  match e with [] => 0 | x :: e => x + 16 * val16 e end.

Definition digit16 (x : Z) : Prop := -8 <= x <= 8.

Lemma shr4 x : x .>> 4 = x / 16.
Proof. by rewrite Z.shiftr_div_pow2. Qed.
Lemma shl4 x : x .<< 4 = x * 16.
Proof. by rewrite Z.shiftl_mul_pow2. Qed.

(** The last byte at most 127: what the source assumes of a scalar. *)
Definition small_top (a : bytes) : Prop := exists s x, a = s ++ [x] /\ x <= 127.

Lemma small_top_le a : is_b32 a -> le a < 2 ^ 255 -> small_top a.
Proof.
  intros [Ha Hl] Hv. destruct (exists_last (l:=a)) as (s & x & ->); [by destruct a|].
  exists s, x. split; [done|]. rewrite le_app in Hv. rewrite length_app in Hl. cbn in Hl.
  apply Forall_app in Ha as [Hs Hx]. pose proof (le_bound s Hs).
  replace (length s) with 31%nat in * by lia. change (256 ^ Z.of_nat 31) with (2 ^ 248) in *.
  cbn in Hv. lia.
Qed.

Lemma recode16_step c x (c0 := c + x) (c2 := (c0 + 8) / 16) (c' := (c2 + 8) / 16) :
  0 <= c <= 1 -> is_u8 x ->
  i8 (c0 - c2 * 16) = c0 - c2 * 16 /\ i8 (c2 - c' * 16) = c2 - c' * 16 /\ i8 c2 = c2 /\
  digit16 (c0 - c2 * 16) /\ digit16 (c2 - c' * 16) /\ 0 <= c' <= 1 /\
  (x <= 127 -> 0 <= c2 <= 8).
Proof.
  intros Hc [Hx0 Hx1]. change (2 ^ 8) with 256 in Hx1. unfold digit16.
  assert (- 8 <= c0 - c2 * 16 <= 7) by lia.
  assert (0 <= c2 <= 16) by lia.
  assert (- 8 <= c2 - c' * 16 <= 7) by lia.
  rewrite !i8_small by lia. lia.
Qed.

Lemma recode16_ok a c : is_bytes a -> 0 <= c <= 1 -> small_top a ->
  val16 (recode16 c a) = le a + c /\ Forall digit16 (recode16 c a) /\
  length (recode16 c a) = (2 * length a)%nat.
Proof.
  intros Ha. revert c. induction a as [|x a IH]; intros c Hc (s & y & Hs & Hy).
  { by destruct s. }
  inversion Ha as [|? ? Hx Ha']; subst.
  destruct (recode16_step c x Hc Hx) as (E1 & E2 & E3 & D1 & D2 & Hc' & Htop).
  destruct a as [|x' a].
  - cbn [recode16]. rewrite shl4, !shr4, E1, E3. cbn [val16 le length].
    destruct s as [|? [|? s]]; simplify_eq/=. specialize (Htop Hy).
    split_and!; [lia| |done]. constructor; [exact D1|]. constructor; [unfold digit16; lia|constructor].
  - change (recode16 c (x :: x' :: a)) with
      (let carry := c + x in
       let carry2 := (carry + 8) .>> 4 in
       let e0 := i8 (carry - (carry2 .<< 4)) in
       let carry := (carry2 + 8) .>> 4 in
       let e1 := i8 (carry2 - (carry .<< 4)) in
       e0 :: e1 :: recode16 carry (x' :: a)).
    cbv zeta. rewrite !shl4, !shr4, E1, E2.
    destruct s as [|z s]; [done|]. injection Hs as <- Hs.
    destruct (IH Ha' _ Hc') as (Hv & Hd & Hl); [by exists s, y|].
    set (w := recode16 _ (x' :: a)) in *. cbn [val16 length]. rewrite Hv, Hl.
    change (le (x :: x' :: a)) with (x + 256 * le (x' :: a)).
    split_and!; [lia| |cbn [length]; lia]. by constructor; [|constructor].
Qed.

(** ** Table selection *)

Definition digits17 : list Z := [-8; -7; -6; -5; -4; -3; -2; -1; 0; 1; 2; 3; 4; 5; 6; 7; 8].

Lemma digit16_cases b : digit16 b -> b ∈ digits17.
Proof.
  unfold digit16. intros H. apply list_elem_of_In. cbn. lia.
Qed.

(** On digits, [equal], [negative] and [babs] are what their names say. *)
Lemma equal_digit b j : digit16 b -> (j < 8)%nat ->
  equal (babs b) (Z.of_nat (S j)) = if Z.abs b =? Z.of_nat (S j) then 1 else 0.
Proof.
  intros Hb Hj. apply digit16_cases in Hb.
  assert (H : forallb (fun b => forallb (fun j => equal (babs b) (Z.of_nat (S j)) =?
    (if Z.abs b =? Z.of_nat (S j) then 1 else 0)) (seq 0 8)) digits17 = true)
    by (vm_compute; reflexivity).
  rewrite forallb_forall in H. apply list_elem_of_In in Hb. specialize (H b Hb). cbv beta in H.
  rewrite forallb_forall in H. specialize (H j ltac:(apply in_seq; lia)). lia.
Qed.

Lemma negative_digit b : digit16 b -> negative b = if b <? 0 then 1 else 0.
Proof.
  intros Hb. apply digit16_cases in Hb.
  assert (H : forallb (fun b => negative b =? (if b <? 0 then 1 else 0)) digits17 = true)
    by (vm_compute; reflexivity).
  rewrite forallb_forall in H. apply list_elem_of_In in Hb. specialize (H b Hb). lia.
Qed.

Lemma fbnd_6300 k f : k <= 6300 -> fbnd k f -> fbnd 6300 f.
Proof. apply fbnd_mono. Qed.

Lemma cached_cmov_ok A B m n m' n' t u c : Rc A B m n t -> Rc A B m' n' u -> c = 0 \/ c = 1 ->
  ge_cached_cmov t u c = if c =? 1 then u else t.
Proof.
  intros (P & (?&?&?&?&_) & _) (Q & (?&?&?&?&_) & _) Hc. destruct t, u. cbn in *.
  unfold ge_cached_cmov. cbn. rewrite !fe_cmov_ok by (done || (eapply fbnd_6300; [|eassumption]; lia)).
  by destruct (c =? 1).
Qed.

Lemma precomp_cmov_ok A B m n m' n' t u c : Rp A B m n t -> Rp A B m' n' u -> c = 0 \/ c = 1 ->
  ge_precomp_cmov t u c = if c =? 1 then u else t.
Proof.
  intros (P & (?&?&?&_) & _) (Q & (?&?&?&_) & _) Hc. destruct t, u. cbn in *.
  unfold ge_precomp_cmov. cbn. rewrite !fe_cmov_ok by (done || (eapply fbnd_6300; [|eassumption]; lia)).
  by destruct (c =? 1).
Qed.

(** The conditional moves pick entry [|b|]. *)
Lemma select_fold {T} (cmov : T -> T -> Z -> T) (R : Z -> T -> Prop) zero (tab : nat -> T) b :
  R 0 zero -> (forall j, (j < 8)%nat -> R (Z.of_nat (S j)) (tab j)) ->
  (forall x y t u c, R x t -> R y u -> c = 0 \/ c = 1 -> cmov t u c = if c =? 1 then u else t) ->
  digit16 b ->
  R (Z.abs b) (foldl (fun t j => cmov t (tab j) (equal (babs b) (Z.of_nat (S j)))) zero (seq 0 8)).
Proof.
  intros H0 Ht Hc Hb.
  assert (H : forall k, (k <= 8)%nat ->
    R (if Z.abs b <=? Z.of_nat k then Z.abs b else 0)
      (foldl (fun t j => cmov t (tab j) (equal (babs b) (Z.of_nat (S j)))) zero (seq 0 k))).
  { induction k as [|k IH]; intros Hk.
    - cbn [seq foldl]. destruct (Z.leb_spec (Z.abs b) (Z.of_nat 0)); [|done].
      by replace (Z.abs b) with 0 by lia.
    - rewrite seq_S, foldl_app, Nat.add_0_l. cbn [foldl]. rewrite equal_digit by (done || lia).
      erewrite Hc; [|apply IH; lia|apply Ht; lia|destruct (_ =? _); auto].
      specialize (IH ltac:(lia)).
      destruct (Z.eqb_spec (Z.abs b) (Z.of_nat (S k))) as [E|E].
      + rewrite (proj2 (Z.leb_le _ _)), E by lia. cbn [Z.eqb Pos.eqb]. apply Ht. lia.
      + cbn. destruct (Z.leb_spec (Z.abs b) (Z.of_nat k)), (Z.leb_spec (Z.abs b) (Z.of_nat (S k)));
          try lia; done. }
  specialize (H 8%nat ltac:(lia)). rewrite (proj2 (Z.leb_le _ _)) in H; [done|].
  unfold digit16 in Hb. lia.
Qed.

Section Select.
Context (A B : Ed.pt) (m n : Z).

Lemma select_cached_ok Ai b :
  (forall j, (j < 8)%nat -> Rc A B (Z.of_nat (S j) * m) (Z.of_nat (S j) * n) (Ai !!! j)) ->
  digit16 b -> Rc A B (b * m) (b * n) (select_cached Ai b).
Proof.
  intros Ht Hb. unfold select_cached.
  set (cur := foldl _ _ _).
  assert (Hcur : Rc A B (Z.abs b * m) (Z.abs b * n) cur).
  { apply (select_fold ge_cached_cmov (fun k => Rc A B (k * m) (k * n)) ge_cached_0
      (fun j => Ai !!! j)); [apply Rc_0|done| |done].
    intros x y t u c Hx Hy. apply (cached_cmov_ok A B _ _ _ _ _ _ _ Hx Hy). }
  pose proof (R_neg_cached A B _ _ _ Hcur) as Hneg.
  rewrite negative_digit by done.
  rewrite (cached_cmov_ok A B _ _ _ _ _ _ _ Hcur Hneg) by (destruct (b <? 0); auto).
  destruct (Z.ltb_spec b 0); cbn [Z.eqb].
  - replace (b * m) with (- (Z.abs b * m)) by lia. by replace (b * n) with (- (Z.abs b * n)) by lia.
  - replace (b * m) with (Z.abs b * m) by lia. by replace (b * n) with (Z.abs b * n) by lia.
Qed.

Lemma select_ok row b :
  (forall j, (j < 8)%nat -> Rp A B (Z.of_nat (S j) * m) (Z.of_nat (S j) * n) (row !!! j)) ->
  digit16 b -> Rp A B (b * m) (b * n) (select row b).
Proof.
  intros Ht Hb. unfold select.
  set (cur := foldl _ _ _).
  assert (Hcur : Rp A B (Z.abs b * m) (Z.abs b * n) cur).
  { apply (select_fold ge_precomp_cmov (fun k => Rp A B (k * m) (k * n)) ge_precomp_0
      (fun j => row !!! j)); [apply Rp_0|done| |done].
    intros x y t u c Hx Hy. apply (precomp_cmov_ok A B _ _ _ _ _ _ _ Hx Hy). }
  pose proof (R_neg_precomp A B _ _ _ Hcur) as Hneg.
  rewrite negative_digit by done.
  rewrite (precomp_cmov_ok A B _ _ _ _ _ _ _ Hcur Hneg) by (destruct (b <? 0); auto).
  destruct (Z.ltb_spec b 0); cbn [Z.eqb].
  - replace (b * m) with (- (Z.abs b * m)) by lia. by replace (b * n) with (- (Z.abs b * n)) by lia.
  - replace (b * m) with (Z.abs b * m) by lia. by replace (b * n) with (Z.abs b * n) by lia.
Qed.

(** ** The variable-base loop *)

Lemma cached_multiples_ok h k c N : R3 A B m n h -> Rc A B (k * m) (k * n) c ->
  forall j, (j < N)%nat ->
    Rc A B ((k + Z.of_nat j) * m) ((k + Z.of_nat j) * n) (cached_multiples N h c !!! j).
Proof.
  intros Hh. revert k c. induction N as [|N IH]; intros k c Hc j Hj; [lia|].
  destruct j as [|j].
  - by rewrite Z.add_0_r.
  - cbn [cached_multiples]. change ((?x :: ?l) !!! S j) with (l !!! j).
    replace (k + Z.of_nat (S j)) with (k + 1 + Z.of_nat j) by lia. apply IH; [|lia].
    replace ((k + 1) * m) with (m + k * m) by ring.
    replace ((k + 1) * n) with (n + k * n) by ring.
    by apply R_cached, R_to3, R_add.
Qed.

Lemma scalarmult_digit_ok Ai r k b :
  (forall j, (j < 8)%nat -> Rc A B (Z.of_nat (S j) * m) (Z.of_nat (S j) * n) (Ai !!! j)) ->
  R2 A B (k * m) (k * n) r -> digit16 b ->
  R1 A B ((16 * k + b) * m) ((16 * k + b) * n) (scalarmult_digit Ai r b).
Proof.
  intros Ht Hr Hb. unfold scalarmult_digit.
  replace ((16 * k + b) * m) with (16 * (k * m) + b * m) by ring.
  replace ((16 * k + b) * n) with (16 * (k * n) + b * n) by ring.
  apply R_add; [|by apply select_cached_ok]. apply R_to3.
  replace (16 * (k * m)) with (8 * (k * m) + 8 * (k * m)) by ring.
  replace (16 * (k * n)) with (8 * (k * n) + 8 * (k * n)) by ring. apply R_dbl, R_to2.
  replace (8 * (k * m)) with (4 * (k * m) + 4 * (k * m)) by ring.
  replace (8 * (k * n)) with (4 * (k * n) + 4 * (k * n)) by ring. apply R_dbl, R_to2.
  replace (4 * (k * m)) with (2 * (k * m) + 2 * (k * m)) by ring.
  replace (4 * (k * n)) with (2 * (k * n) + 2 * (k * n)) by ring. apply R_dbl, R_to2.
  replace (2 * (k * m)) with (k * m + k * m) by ring.
  replace (2 * (k * n)) with (k * n + k * n) by ring. by apply R_dbl.
Qed.

Lemma scalarmult_loop_ok Ai e :
  (forall j, (j < 8)%nat -> Rc A B (Z.of_nat (S j) * m) (Z.of_nat (S j) * n) (Ai !!! j)) ->
  Forall digit16 e ->
  R2 A B (val16 e * m) (val16 e * n)
    (foldl (fun r b => ge_p1p1_to_p2 (scalarmult_digit Ai r b)) ge_p2_0 (reverse e)).
Proof.
  intros Ht. induction 1 as [|b e Hb He IH]; [apply R2_0|].
  rewrite reverse_cons, foldl_app. cbn [foldl val16]. apply R_to2.
  rewrite (Z.add_comm b). by apply scalarmult_digit_ok.
Qed.
End Select.

Lemma table_start A B h : R3 A B 1 0 h -> forall j, (j < 8)%nat ->
  Rc A B (Z.of_nat (S j) * 1) (Z.of_nat (S j) * 0)
    (cached_multiples 8 h (ge_p3_to_cached h) !!! j).
Proof.
  intros Hh j Hj. replace (Z.of_nat (S j)) with (1 + Z.of_nat j) by lia.
  by apply cached_multiples_ok; [|apply R_cached|].
Qed.

Lemma scalarmult_value a h P : is_b32 a -> le a < 2 ^ 255 -> rep3 h P ->
  R2 P P (le a) 0 (ge_scalarmult a h) /\ R3 P P (le a) 0 (ge_scalarmult_p3 a h).
Proof.
  intros Ha Hv HP. pose proof (small_top_le a Ha Hv) as Hs. destruct Ha as [Ha Hl].
  destruct (recode16_ok a 0 Ha ltac:(lia) Hs) as (Hd & Hf & Hn).
  assert (Hh : R3 P P 1 0 h) by (exists P; split; [done|constructor]).
  rewrite Z.add_0_r in Hd. rewrite Hl in Hn.
  rewrite <- Hd. replace (val16 (recode16 0 a)) with (val16 (recode16 0 a) * 1) by lia.
  replace 0 with (val16 (recode16 0 a) * 0) at 2 4 by lia.
  unfold ge_scalarmult, ge_scalarmult_p3. set (e := recode16 0 a) in *. split.
  - apply scalarmult_loop_ok; [by apply table_start|done].
  - destruct e as [|b e]; [done|]. inversion Hf; subst. cbn [val16].
    change ((b :: e) !!! 0%nat) with b. rewrite (Z.add_comm b). apply R_to3.
    apply scalarmult_digit_ok; [by apply table_start| |done].
    apply scalarmult_loop_ok; [by apply table_start|done].
Qed.

(** ** Sliding windows *)

Fixpoint val2 (r : list Z) : Z :=
  match r with [] => 0 | x :: r => x + 2 * val2 r end.

Definition bit (x : Z) : Prop := x = 0 \/ x = 1.
Definition odd15 (x : Z) : Prop := Z.odd x = true /\ -15 <= x <= 15.
Definition window_digit (x : Z) : Prop := x = 0 \/ odd15 x.

Lemma val2_app r s : val2 (r ++ s) = val2 r + 2 ^ Z.of_nat (length r) * val2 s.
Proof.
  induction r as [|x r IH]; cbn [app val2 length]; [rewrite Z.pow_0_r; lia|].
  rewrite IH, Nat2Z.inj_succ, Z.pow_succ_r by lia. ring.
Qed.

Lemma val2_zeros n : val2 (replicate n 0) = 0.
Proof. induction n; cbn; lia. Qed.

Lemma val2_bits u : Forall bit u -> 0 <= val2 u < 2 ^ Z.of_nat (length u).
Proof.
  induction 1 as [|x u Hx Hu IH]; cbn [val2 length]; [lia|].
  rewrite Nat2Z.inj_succ, Z.pow_succ_r by lia. destruct Hx; lia.
Qed.

Lemma lookup_mid (q : list Z) h u : (q ++ h :: u) !!! length q = h.
Proof. by rewrite list_lookup_total_middle. Qed.

Lemma insert_mid (q : list Z) h u y : <[length q := y]> (q ++ h :: u) = q ++ y :: u.
Proof. rewrite <- (Nat.add_0_r (length q)). by rewrite insert_app_r. Qed.

(** The carry loop increments the number held by the bits from [k] on. *)
Fixpoint incr (u : list Z) : list Z :=
  match u with [] => [] | h :: u => if h =? 0 then 1 :: u else 0 :: incr u end.

Lemma slide_carry_incr q u : slide_carry (length u) (length q) (q ++ u) = q ++ incr u.
Proof.
  revert q. induction u as [|h u IH]; intros q; [done|].
  cbn [slide_carry length incr]. rewrite lookup_mid, !insert_mid.
  destruct (h =? 0); [done|].
  replace (S (length q)) with (length (q ++ [0])) by (rewrite length_app; cbn; lia).
  replace (q ++ 0 :: u) with ((q ++ [0]) ++ u) by (by rewrite <- app_assoc).
  rewrite IH. by rewrite <- app_assoc.
Qed.

Lemma incr_ok u : Forall bit u -> val2 u + 1 < 2 ^ Z.of_nat (length u) ->
  val2 (incr u) = val2 u + 1 /\ Forall bit (incr u) /\ length (incr u) = length u.
Proof.
  induction 1 as [|x u Hx Hu IH]; cbn [val2 length incr]; [cbn; lia|].
  rewrite Nat2Z.inj_succ, Z.pow_succ_r by lia. intros Hv.
  destruct Hx as [-> | ->]; cbn [Z.eqb val2 length].
  - split_and!; [lia| |done]. constructor; [by right|done].
  - destruct IH as (E & F & L); [lia|]. rewrite E, L.
    split_and!; [lia| |done]. constructor; [by left|done].
Qed.

Lemma odd_shift x z : Z.odd (x + 2 ^ Z.of_nat (S z)) = Z.odd x /\ Z.odd (x - 2 ^ Z.of_nat (S z)) = Z.odd x.
Proof.
  rewrite Nat2Z.inj_succ, Z.pow_succ_r by lia. rewrite Z.odd_add, Z.odd_sub.
  rewrite Z.odd_mul. cbn. by rewrite !xorb_false_r.
Qed.

Section Window.
Context (pre : list Z).
Abbreviation i := (length pre).

(** What the window loop leaves at [i] and above. *)
Definition window_post (v : Z) (len : nat) (r : list Z) : Prop :=
  exists x t, r = pre ++ x :: t /\ odd15 x /\ Forall bit t /\ length t = len /\
    x + 2 * val2 t = v /\ 2 ^ Z.of_nat i * (2 * val2 t) <= 2 ^ 253.

(** The subtracting branch never carries past the top. *)
Lemma window_room z x w : (S z <= 6)%nat -> odd15 x -> 0 <= w ->
  2 ^ Z.of_nat i * (2 ^ Z.of_nat (S z) * (1 + 2 * w)) <= 2 ^ 253 ->
  2 ^ Z.of_nat i * (x + 2 ^ Z.of_nat (S z) * (1 + 2 * w)) <= 2 ^ 253 ->
  15 < x + 2 ^ Z.of_nat (S z) -> -15 <= x - 2 ^ Z.of_nat (S z) ->
  Z.of_nat (i + S z) <= 252 /\ w + 1 <= 2 ^ (252 - Z.of_nat (i + S z)).
Proof.
  intros Hz [Hodd Hx] Hw H1 H2 Ha Hs.
  rewrite Z.mul_assoc, <- Z.pow_add_r in H1 by lia.
  replace (Z.of_nat i + Z.of_nat (S z)) with (Z.of_nat (i + S z)) in H1 by lia.
  destruct (Z.le_gt_cases (Z.of_nat (i + S z)) 252) as [Hle|Hgt].
  - split; [done|].
    replace 253 with (Z.of_nat (i + S z) + 1 + (252 - Z.of_nat (i + S z))) in H1 by lia.
    rewrite !Z.pow_add_r in H1 by lia.
    assert (0 < 2 ^ Z.of_nat (i + S z)) by lia. set (q := 2 ^ (252 - _)) in *.
    assert (1 + 2 * w <= 2 * q) by nia. lia.
  - exfalso. assert (Z.of_nat (i + S z) <= 253).
    { destruct (Z.le_gt_cases (Z.of_nat (i + S z)) 253); [done|].
      assert (2 ^ 254 <= 2 ^ Z.of_nat (i + S z)) by (apply Z.pow_le_mono_r; lia). nia. }
    replace (Z.of_nat (i + S z)) with 253 in H1 by lia. assert (w = 0) by lia. subst w.
    replace 253 with (Z.of_nat i + Z.of_nat (S z)) in H2 by lia.
    rewrite Z.pow_add_r in H2 by lia. assert (0 < 2 ^ Z.of_nat i) by lia.
    assert (x <= 0) by nia.
    destruct z as [|[|[|[|[|[|z]]]]]]; cbn in Ha, Hs; lia.
Qed.

Lemma slide_window_ok n z x u : (n + S z = 7)%nat -> (i + S z + length u = 256)%nat ->
  Forall bit u -> odd15 x ->
  2 ^ Z.of_nat i * (2 ^ Z.of_nat (S z) * val2 u) <= 2 ^ 253 ->
  2 ^ Z.of_nat i * (x + 2 ^ Z.of_nat (S z) * val2 u) <= 2 ^ 253 ->
  window_post (x + 2 ^ Z.of_nat (S z) * val2 u) (255 - i)
    (slide_window n (S z) i (pre ++ x :: replicate z 0 ++ u)).
Proof.
  revert z x u. induction n as [|n IH]; intros z x u Hn Hl Hu Hx H1 H2.
  all: assert (Hstop : window_post (x + 2 ^ Z.of_nat (S z) * val2 u) (255 - i)
      (pre ++ x :: replicate z 0 ++ u)).
  1, 3: exists x, (replicate z 0 ++ u); rewrite val2_app, val2_zeros, length_app, length_replicate;
      rewrite Nat2Z.inj_succ, Z.pow_succ_r in * by lia; split_and!;
      [done|done| |lia|lia|lia]; apply Forall_app; split; [|done];
      apply Forall_replicate; by left.
  { exact Hstop. }
  cbn [slide_window]. destruct (Nat.ltb_spec (i + S z) 256); [|exact Hstop].
  destruct u as [|h u]; [cbn in Hl; lia|]. inversion Hu as [|? ? Hh Hu']; subst.
  set (q := pre ++ x :: replicate z 0).
  assert (Hq : length q = (length pre + S z)%nat)
    by (unfold q; rewrite length_app; cbn; by rewrite length_replicate).
  assert (Hr : forall v, pre ++ x :: replicate z 0 ++ v = q ++ v)
    by (intros; unfold q; by rewrite <- app_assoc).
  rewrite Hr, <- Hq, !lookup_mid.
  replace ((q ++ h :: u) !!! length pre) with x
    by (unfold q; rewrite <- app_assoc; by rewrite <- app_comm_cons, lookup_mid).
  assert (Hset : forall y v, <[length pre := y]> (q ++ v) = pre ++ y :: replicate z 0 ++ v)
    by (intros; unfold q; rewrite <- app_assoc; apply insert_mid).
  assert (Hmid : forall y h v w, <[length q := w]> (pre ++ y :: replicate z 0 ++ h :: v)
    = pre ++ y :: replicate z 0 ++ w :: v).
  { intros y h' v w. replace (length q) with (length (pre ++ y :: replicate z 0))
      by (unfold q; by rewrite !length_app).
    change (y :: replicate z 0 ++ h' :: v) with ((y :: replicate z 0) ++ h' :: v).
    rewrite app_assoc, insert_mid. by rewrite <- app_assoc. }
  assert (Hz1 : forall y v, pre ++ y :: replicate z 0 ++ 0 :: v = pre ++ y :: replicate (S z) 0 ++ v).
  { intros. rewrite replicate_S_end, <- app_assoc. done. }
  assert (Hlen : (length pre + S (S z) + length u = 256)%nat) by (cbn in Hl; lia).
  assert (Hpow : 2 ^ Z.of_nat (S (S z)) = 2 * 2 ^ Z.of_nat (S z))
    by (rewrite (Nat2Z.inj_succ (S z)), Z.pow_succ_r; lia).
  pose proof (val2_bits u Hu') as Hub. destruct (odd_shift x z) as [Ho1 Ho2].
  destruct Hh as [-> | ->].
  - cbn [Z.eqb]. rewrite <- Hr, Hz1. cbn [val2] in *.
    replace (x + 2 ^ Z.of_nat (S z) * (0 + 2 * val2 u))
      with (x + 2 ^ Z.of_nat (S (S z)) * val2 u) by (rewrite Hpow; ring).
    apply IH; [lia|lia|done|done|rewrite Hpow; nia|rewrite Hpow; nia].
  - cbn [Z.eqb Pos.eqb]. rewrite Z.shiftl_mul_pow2, Z.mul_1_l by lia. cbn [val2] in *.
    destruct (Z.leb_spec (x + 2 ^ Z.of_nat (S z)) 15) as [Ha|Ha].
    + rewrite i8_small by (destruct Hx; assert (0 < 2 ^ Z.of_nat (S z)) by lia; lia).
      rewrite Hset, Hmid, Hz1.
      replace (x + 2 ^ Z.of_nat (S z) * (1 + 2 * val2 u))
        with (x + 2 ^ Z.of_nat (S z) + 2 ^ Z.of_nat (S (S z)) * val2 u) by (rewrite Hpow; ring).
      apply IH; [lia|lia|done| |rewrite Hpow; nia|rewrite Hpow; nia].
      destruct Hx as [? ?]. split; [congruence|]. assert (0 < 2 ^ Z.of_nat (S z)) by lia. lia.
    + destruct (Z.leb_spec (-15) (x - 2 ^ Z.of_nat (S z))) as [Hs|Hs].
      2:{ rewrite <- Hr. exact Hstop. }
      rewrite i8_small by (destruct Hx; assert (0 < 2 ^ Z.of_nat (S z)) by lia; lia).
      destruct (window_room z x (val2 u)) as [Hi Hw]; [lia|done|lia|done|done|lia|lia|].
      destruct (incr_ok u Hu') as (E & F & L).
      { apply Z.le_lt_trans with (2 ^ (252 - Z.of_nat (length pre + S z))); [done|].
        apply Z.pow_lt_mono_r; lia. }
      rewrite Hset. set (y := x - 2 ^ Z.of_nat (S z)) in *.
      replace (slide_carry _ _ _) with (pre ++ y :: replicate (S z) 0 ++ incr u).
      2:{ replace (256 - length q)%nat with (length (1 :: u)) by (cbn [length]; lia).
          replace (length q) with (length (pre ++ y :: replicate z 0))
            by (unfold q; by rewrite !length_app).
          change (y :: replicate z 0 ++ 1 :: u) with ((y :: replicate z 0) ++ 1 :: u).
          rewrite (app_assoc pre), slide_carry_incr, <- app_assoc. cbn [incr Z.eqb Pos.eqb].
          symmetry. apply Hz1. }
      replace (x + 2 ^ Z.of_nat (S z) * (1 + 2 * val2 u))
        with (y + 2 ^ Z.of_nat (S (S z)) * val2 (incr u)) by (rewrite E, Hpow; unfold y; ring).
      apply IH; [lia|lia|done| | |].
      * destruct Hx as [? ?]. split; [by rewrite Ho2|].
        assert (0 < 2 ^ Z.of_nat (S z)) by lia. lia.
      * rewrite E, Z.mul_assoc, <- Z.pow_add_r by lia.
        replace 253 with ((Z.of_nat (length pre) + Z.of_nat (S (S z))) +
          (252 - Z.of_nat (length pre + S z))) by lia.
        rewrite (Z.pow_add_r 2 (_ + _)) by lia. apply Z.mul_le_mono_nonneg_l; lia.
      * rewrite E, Hpow. unfold y. lia.
Qed.
End Window.

(** ** The whole recoding *)

Lemma slide_step_ok v i r pre t :
  r = pre ++ t -> length pre = i -> (i + length t = 256)%nat -> (i < 256)%nat ->
  Forall window_digit pre -> Forall bit t ->
  val2 pre + 2 ^ Z.of_nat i * val2 t = v -> 2 ^ Z.of_nat i * val2 t <= 2 ^ 253 ->
  exists pre' t', slide_step r i = pre' ++ t' /\ length pre' = S i /\
    (S i + length t' = 256)%nat /\ Forall window_digit pre' /\ Forall bit t' /\
    val2 pre' + 2 ^ Z.of_nat (S i) * val2 t' = v /\ 2 ^ Z.of_nat (S i) * val2 t' <= 2 ^ 253.
Proof.
  intros -> Hi Hl Hi' Hp Ht Hv Hb. destruct t as [|h t]; [cbn in Hl; lia|].
  inversion Ht as [|? ? Hh Ht']; subst. cbn [length val2] in *. unfold slide_step.
  rewrite lookup_mid.
  assert (Hpow : 2 ^ Z.of_nat (S (length pre)) = 2 * 2 ^ Z.of_nat (length pre))
    by (rewrite Nat2Z.inj_succ, Z.pow_succ_r; lia).
  assert (Happ : forall x u, pre ++ x :: u = (pre ++ [x]) ++ u)
    by (intros; by rewrite <- app_assoc).
  destruct Hh as [-> | ->]; cbn [Z.eqb].
  - exists (pre ++ [0]), t. rewrite <- Happ, length_app, val2_app, Hpow. cbn [length val2].
    split_and!; [done|lia|lia| |done|lia|lia].
    apply Forall_app. split; [done|]. by repeat constructor.
  - destruct (slide_window_ok pre 6 0 1 t) as (x & u & E & Hx & Hu & Lu & Ev & Eb);
      [lia|lia|done|done|change (2 ^ Z.of_nat 1) with 2; lia|change (2 ^ Z.of_nat 1) with 2; lia|].
    change (pre ++ 1 :: replicate 0 0 ++ t) with (pre ++ 1 :: t) in E. rewrite E.
    change (2 ^ Z.of_nat 1) with 2 in Ev.
    exists (pre ++ [x]), u. rewrite <- Happ, length_app, val2_app, Hpow. cbn [length val2].
    split_and!; [done|lia|lia| |done|nia|lia].
    apply Forall_app. split; [done|]. constructor; [by right|constructor].
Qed.

Lemma slide_bits_ok a : is_b32 a ->
  Forall bit (slide_bits a) /\ length (slide_bits a) = 256%nat /\ val2 (slide_bits a) = le a.
Proof.
  intros [Ha Hl]. unfold slide_bits.
  assert (E : forall i, (i < 256)%nat ->
    1 .& ((a !!! (i / 8)%nat) .>> Z.of_nat (i mod 8)) = field (le a) (Z.of_nat i) 1).
  { intros i Hi. pose proof (Nat.mod_upper_bound i 8 ltac:(lia)).
    pose proof (Nat.div_mod i 8 ltac:(lia)).
    assert ((i / 8 < 32)%nat) by (apply Nat.Div0.div_lt_upper_bound; lia).
    rewrite bytes_lookup by (done || lia). rewrite field_shiftr by lia.
    rewrite Z.land_comm. change 1 with (2 ^ 1 - 1) at 1. rewrite land_mask by lia.
    change (wrap 1 (field (le a) (8 * Z.of_nat (i / 8) + Z.of_nat (i mod 8)) (8 - Z.of_nat (i mod 8)))
      = field (le a) (Z.of_nat i) 1).
    rewrite field_wrap by lia. f_equal. lia. }
  assert (G : forall n s, (s + n <= 256)%nat ->
    let r := (fun i => 1 .& ((a !!! (i / 8)%nat) .>> Z.of_nat (i mod 8))) <$> seq s n in
    Forall bit r /\ length r = n /\ val2 r = field (le a) (Z.of_nat s) (Z.of_nat n)).
  { induction n as [|n IH]; intros s Hs; cbv zeta.
    - cbn. split_and!; [constructor|done|]. unfold field. by rewrite Z.mod_1_r.
    - destruct (IH (S s) ltac:(lia)) as (F & L & V). cbn [seq fmap list_fmap val2 length].
      rewrite E by lia. split_and!.
      + constructor; [|done]. pose proof (field_bound (le a) (Z.of_nat s) 1). unfold bit. lia.
      + by rewrite L.
      + rewrite V. replace (Z.of_nat (S s)) with (Z.of_nat s + 1) by lia.
        replace (Z.of_nat (S n)) with (1 + Z.of_nat n) by lia.
        rewrite <- field_join by lia. lia. }
  destruct (G 256%nat 0%nat ltac:(lia)) as (F & L & V). split_and!; [done|done|].
  rewrite V. apply field_full. pose proof (le_bound a Ha) as H. by rewrite Hl in H.
Qed.

Lemma slide_ok a : is_b32 a -> le a <= 2 ^ 253 ->
  val2 (slide a) = le a /\ Forall window_digit (slide a) /\ length (slide a) = 256%nat.
Proof.
  intros Ha Hv. destruct (slide_bits_ok a Ha) as (F & L & V).
  assert (H : forall k, (k <= 256)%nat -> exists pre t,
    foldl slide_step (slide_bits a) (seq 0 k) = pre ++ t /\ length pre = k /\
    (k + length t = 256)%nat /\ Forall window_digit pre /\ Forall bit t /\
    val2 pre + 2 ^ Z.of_nat k * val2 t = le a /\ 2 ^ Z.of_nat k * val2 t <= 2 ^ 253).
  { induction k as [|k IH]; intros Hk.
    - exists [], (slide_bits a). change (2 ^ Z.of_nat 0) with 1. cbn [val2].
      split_and!; [done|done|done|apply Forall_nil_2|done|lia|lia].
    - destruct (IH ltac:(lia)) as (pre & t & E & ? & ? & ? & ? & ? & ?).
      rewrite seq_S, foldl_app, Nat.add_0_l. cbn [foldl].
      eapply slide_step_ok; eauto; lia. }
  destruct (H 256%nat ltac:(lia)) as (pre & t & E & Lp & Lt & Fp & _ & Ev & _).
  destruct t; [|cbn in Lt; lia]. unfold slide. rewrite E, app_nil_r. cbn [val2] in Ev.
  split_and!; [lia|done|done].
Qed.

(** ** Double scalar multiplication *)

(** The table of odd multiples. *)
Definition odd_table (A B : Ed.pt) (m n : Z) (Ai : list ge_cached) : Prop :=
  forall j, (j < 8)%nat ->
    Rc A B ((2 * Z.of_nat j + 1) * m) ((2 * Z.of_nat j + 1) * n) (Ai !!! j).

Definition odd_ptable (A B : Ed.pt) (m n : Z) (Bi : list ge_precomp) : Prop :=
  forall j, (j < 8)%nat ->
    Rp A B ((2 * Z.of_nat j + 1) * m) ((2 * Z.of_nat j + 1) * n) (Bi !!! j).

Section Dsm.
Context (A B : Ed.pt).

Lemma dsm_multiples_ok m n s2 k c N : R3 A B (2 * m) (2 * n) s2 -> Rc A B (k * m) (k * n) c ->
  forall j, (j < N)%nat ->
    Rc A B ((2 * Z.of_nat j + k) * m) ((2 * Z.of_nat j + k) * n) (dsm_multiples N s2 c !!! j).
Proof.
  intros Hs. revert k c. induction N as [|N IH]; intros k c Hc j Hj; [lia|].
  destruct j as [|j].
  - by replace (2 * Z.of_nat 0 + k) with k by lia.
  - cbn [dsm_multiples]. change ((?x :: ?l) !!! S j) with (l !!! j).
    replace (2 * Z.of_nat (S j) + k) with (2 * Z.of_nat j + (k + 2)) by lia.
    apply IH; [|lia].
    replace ((k + 2) * m) with (2 * m + k * m) by ring.
    replace ((k + 2) * n) with (2 * n + k * n) by ring.
    by apply R_cached, R_to3, R_add.
Qed.

Lemma ge_dsm_precomp_ok m n s : R3 A B m n s -> odd_table A B m n (ge_dsm_precomp s).
Proof.
  intros Hs j Hj. unfold ge_dsm_precomp. apply dsm_multiples_ok; [| |done].
  - replace (2 * m) with (m + m) by lia. replace (2 * n) with (n + n) by lia.
    by apply R_to3, R_p3_dbl.
  - rewrite !Z.mul_1_l. by apply R_cached.
Qed.

(** [x/2] is the index of the odd multiple [x]. *)
Lemma odd_index x : odd15 x -> 0 < x ->
  (Z.to_nat (Z.quot x 2) < 8)%nat /\ 2 * Z.of_nat (Z.to_nat (Z.quot x 2)) + 1 = x.
Proof.
  intros [Ho Hb] Hx. rewrite Zodd_bool_iff, Zodd_ex_iff in Ho. destruct Ho as [k ->].
  rewrite Z.quot_div_nonneg by lia.
  replace ((2 * k + 1) / 2) with k by (apply Z.div_unique with 1; lia). lia.
Qed.

Lemma odd15_opp x : odd15 x -> odd15 (- x).
Proof. intros [? ?]. split; [by rewrite Z.odd_opp|lia]. Qed.

Lemma dsm_add_ok m n Ai M N t x : odd_table A B m n Ai -> R1 A B M N t -> window_digit x ->
  R1 A B (M + x * m) (N + x * n) (dsm_add Ai t x).
Proof.
  intros HA Ht [-> | Hx]; unfold dsm_add.
  { cbn. by rewrite !Z.mul_0_l, !Z.add_0_r. }
  destruct (Z.ltb_spec 0 x).
  - destruct (odd_index x Hx) as [Hj E]; [done|]. specialize (HA _ Hj). rewrite E in HA.
    apply R_add; [by apply R_to3|done].
  - destruct (Z.ltb_spec x 0).
    + destruct (odd_index (- x) (odd15_opp x Hx)) as [Hj E]; [lia|]. specialize (HA _ Hj).
      rewrite E in HA. replace (M + x * m) with (M - - x * m) by lia.
      replace (N + x * n) with (N - - x * n) by lia. apply R_sub; [by apply R_to3|done].
    + destruct Hx as [Ho _]. by replace x with 0 in Ho by lia.
Qed.

Lemma dsm_madd_ok m n Bi M N t x : odd_ptable A B m n Bi -> R1 A B M N t -> window_digit x ->
  R1 A B (M + x * m) (N + x * n) (dsm_madd Bi t x).
Proof.
  intros HA Ht [-> | Hx]; unfold dsm_madd.
  { cbn. by rewrite !Z.mul_0_l, !Z.add_0_r. }
  destruct (Z.ltb_spec 0 x).
  - destruct (odd_index x Hx) as [Hj E]; [done|]. specialize (HA _ Hj). rewrite E in HA.
    apply R_madd; [by apply R_to3|done].
  - destruct (Z.ltb_spec x 0).
    + destruct (odd_index (- x) (odd15_opp x Hx)) as [Hj E]; [lia|]. specialize (HA _ Hj).
      rewrite E in HA. replace (M + x * m) with (M - - x * m) by lia.
      replace (N + x * n) with (N - - x * n) by lia. apply R_msub; [by apply R_to3|done].
    + destruct Hx as [Ho _]. by replace x with 0 in Ho by lia.
Qed.

(** Digit pairs from the top. *)
Definition top2 (acc : Z * Z) (ds : list (Z * Z)) : Z * Z :=
  foldl (fun acc d => (2 * acc.1 + d.1, 2 * acc.2 + d.2)) acc ds.

Lemma top2_skip ds : top2 (0, 0) (skip_zeros ds) = top2 (0, 0) ds.
Proof.
  induction ds as [|[x y] ds IH]; [done|]. cbn [skip_zeros].
  destruct (Z.eqb_spec x 0) as [->|]; [|done]. destruct (Z.eqb_spec y 0) as [->|]; [|done].
  cbn [andb]. rewrite IH. done.
Qed.

Lemma top2_reverse_zip xs ys : length xs = length ys ->
  top2 (0, 0) (reverse (zip xs ys)) = (val2 xs, val2 ys).
Proof.
  revert ys. induction xs as [|x xs IH]; intros [|y ys] Hl; try done.
  cbn [zip_with]. rewrite reverse_cons. unfold top2 in *. rewrite foldl_app, IH by (cbn in Hl; lia).
  cbn. f_equal; lia.
Qed.

Definition pair_digits (ds : list (Z * Z)) : Prop :=
  Forall (fun d => window_digit d.1 /\ window_digit d.2) ds.

Lemma skip_zeros_digits ds : pair_digits ds -> pair_digits (skip_zeros ds).
Proof.
  induction 1 as [|[x y] ds Hd Hds IH]; [constructor|]. cbn [skip_zeros].
  destruct (_ && _); [done|]. by constructor.
Qed.

(** A step of the loop doubles and adds the digits of the two scalars. *)
Section Loop.
Context (step : ge_p2 -> Z * Z -> ge_p1p1).
Hypothesis Hstep : forall M N r d, R2 A B M N r -> window_digit d.1 -> window_digit d.2 ->
  R1 A B (2 * M + d.1) (2 * N + d.2) (step r d).

Lemma dsm_loop_ok ds r M N : R2 A B M N r -> pair_digits ds ->
  R2 A B (top2 (M, N) ds).1 (top2 (M, N) ds).2 (foldl (fun r d => ge_p1p1_to_p2 (step r d)) r ds).
Proof using Hstep.
  intros Hr Hd. revert r M N Hr. induction Hd as [|d ds [H1 H2] Hds IH]; intros r M N Hr; [done|].
  cbn [foldl top2]. apply IH, R_to2. by apply Hstep.
Qed.

Lemma dsm_p3_ok ds : pair_digits ds ->
  match dsm_p3 step ds with
  | Some h => ds <> [] /\ R3 A B (top2 (0, 0) ds).1 (top2 (0, 0) ds).2 h
  | None => ds = []
  end.
Proof using Hstep.
  intros Hd. unfold dsm_p3. destruct (reverse ds) as [|d rs] eqn:E.
  - by rewrite <- (reverse_involutive ds), E.
  - assert (Hds : ds = reverse rs ++ [d]) by (by rewrite <- reverse_cons, <- E, reverse_involutive).
    subst ds. clear E. apply Forall_app in Hd as [Hr Hd]. inversion Hd as [|? ? [H1 H2] _]; subst.
    split; [by destruct (reverse rs)|]. unfold top2. rewrite foldl_app. cbn [foldl fst snd].
    fold (top2 (0, 0) (reverse rs)). apply R_to3, Hstep; [|done..].
    apply dsm_loop_ok; [apply R2_0|done].
Qed.
End Loop.

Lemma digits_ok a b : is_b32 a -> is_b32 b -> le a <= 2 ^ 253 -> le b <= 2 ^ 253 ->
  pair_digits (dsm_digits a b) /\ top2 (0, 0) (dsm_digits a b) = (le a, le b).
Proof.
  intros Ha Hb Hav Hbv.
  destruct (slide_ok a Ha Hav) as (<- & Da & La), (slide_ok b Hb Hbv) as (<- & Db & Lb).
  unfold dsm_digits. rewrite top2_skip, top2_reverse_zip by congruence. split; [|done].
  apply skip_zeros_digits. unfold pair_digits. rewrite Forall_reverse.
  clear La Lb Ha Hb Hav Hbv. revert Db. generalize (slide b). induction Da; intros s Hs; [constructor|].
  inversion Hs; subst; [constructor|]. constructor; [done|]. by apply IHDa.
Qed.

Lemma cached_step Ai Bi : odd_table A B 1 0 Ai -> odd_table A B 0 1 Bi ->
  forall M N r d, R2 A B M N r -> window_digit d.1 -> window_digit d.2 ->
  R1 A B (2 * M + d.1) (2 * N + d.2) (dsm_add Bi (dsm_add Ai (ge_p2_dbl r) d.1) d.2).
Proof.
  intros HA HB M N r [x y] Hr Hx Hy. cbn [fst snd] in *.
  replace (2 * M + x) with (M + M + x * 1 + y * 0) by lia.
  replace (2 * N + y) with (N + N + x * 0 + y * 1) by lia.
  by apply dsm_add_ok; [|apply dsm_add_ok; [|apply R_dbl|]|].
Qed.

Lemma precomp_step Ai Bi : odd_table A B 1 0 Ai -> odd_ptable A B 0 1 Bi ->
  forall M N r d, R2 A B M N r -> window_digit d.1 -> window_digit d.2 ->
  R1 A B (2 * M + d.1) (2 * N + d.2) (dsm_madd Bi (dsm_add Ai (ge_p2_dbl r) d.1) d.2).
Proof.
  intros HA HB M N r [x y] Hr Hx Hy. cbn [fst snd] in *.
  replace (2 * M + x) with (M + M + x * 1 + y * 0) by lia.
  replace (2 * N + y) with (N + N + x * 0 + y * 1) by lia.
  by apply dsm_madd_ok; [|apply dsm_add_ok; [|apply R_dbl|]|].
Qed.

Context (a b : bytes).
Hypothesis Ha : is_b32 a.
Hypothesis Hb : is_b32 b.
Hypothesis Hav : le a <= 2 ^ 253.
Hypothesis Hbv : le b <= 2 ^ 253.

Lemma dsm_vartime2_ok Ai Bi : odd_table A B 1 0 Ai -> odd_table A B 0 1 Bi ->
  R2 A B (le a) (le b) (ge_double_scalarmult_precomp_vartime2 a Ai b Bi).
Proof using Ha Hb Hav Hbv.
  intros HA HB. destruct (digits_ok a b Ha Hb Hav Hbv) as [Hd Hv].
  pose proof (dsm_loop_ok _ (cached_step Ai Bi HA HB) _ _ _ _ (R2_0 A B) Hd) as H.
  by rewrite Hv in H.
Qed.

Lemma dsm_base_ok h Bi : R3 A B 1 0 h -> odd_ptable A B 0 1 Bi ->
  R2 A B (le a) (le b) (ge_double_scalarmult_base_vartime Bi a h b).
Proof using Ha Hb Hav Hbv.
  intros HA HB. destruct (digits_ok a b Ha Hb Hav Hbv) as [Hd Hv].
  pose proof (dsm_loop_ok _ (precomp_step _ Bi (ge_dsm_precomp_ok _ _ _ HA) HB) _ _ _ _
    (R2_0 A B) Hd) as H.
  by rewrite Hv in H.
Qed.

(** Both scalars zero: the [_p3] variants write nothing. *)
Lemma dsm_p3_value step :
  (forall M N r d, R2 A B M N r -> window_digit d.1 -> window_digit d.2 ->
    R1 A B (2 * M + d.1) (2 * N + d.2) (step r d)) ->
  match dsm_p3 step (dsm_digits a b) with
  | Some h => R3 A B (le a) (le b) h
  | None => le a = 0 /\ le b = 0
  end.
Proof using Ha Hb Hav Hbv.
  intros Hs. destruct (digits_ok a b Ha Hb Hav Hbv) as [Hd Hv].
  pose proof (dsm_p3_ok step Hs _ Hd) as H.
  destruct (dsm_p3 step _).
  - rewrite Hv in H. apply H.
  - rewrite H in Hv. cbn in Hv. by simplify_eq.
Qed.
End Dsm.

(** ** Fixed base *)

Lemma nibble_split x : is_u8 x -> (x .>> 0) .& 15 = x mod 16 /\ (x .>> 4) .& 15 = x / 16.
Proof.
  intros [H0 H1]. change (2 ^ 8) with 256 in H1. change 15 with (2 ^ 4 - 1).
  rewrite !land_mask, Z.shiftr_0_r, shr4 by lia. change (2 ^ 4) with 16.
  split; [done|]. apply Z.mod_small. lia.
Qed.

Lemma nibbles_ok a : is_bytes a ->
  val16 (nibbles a) = le a /\ Forall (fun x => 0 <= x < 16) (nibbles a) /\
  length (nibbles a) = (2 * length a)%nat.
Proof.
  unfold nibbles. induction 1 as [|x a Hx Ha IH]; [by split_and!|].
  destruct IH as (Hv & Hf & Hl). destruct (nibble_split x Hx) as [E1 E2].
  rewrite fmap_cons, mjoin_cons. cbn [app]. rewrite E1, E2. cbn [val16 length].
  destruct Hx as [H0 H1]. change (2 ^ 8) with 256 in H1. cbn [le]. rewrite Hv.
  split_and!; [lia| |lia]. constructor; [lia|]. constructor; [lia|done].
Qed.

Lemma base_carry_ok e x c : Forall (fun x => 0 <= x < 16) e -> 0 <= x <= 7 -> 0 <= c <= 1 ->
  val16 (base_carry c (e ++ [x])) = val16 (e ++ [x]) + c /\
  Forall digit16 (base_carry c (e ++ [x])) /\ length (base_carry c (e ++ [x])) = S (length e).
Proof.
  intros He Hx. revert c. induction He as [|y e Hy He IH]; intros c Hc.
  - cbn [base_carry app val16]. rewrite i8_small by lia.
    split_and!; [lia| |done]. constructor; [unfold digit16; lia|constructor].
  - destruct (e ++ [x]) as [|z t] eqn:E; [by destruct e|].
    cbn [app]. rewrite E.
    change (base_carry c (y :: z :: t)) with
      (let x := i8 (y + c) in let carry := i8 (x + 8) in let carry := carry .>> 4 in
       i8 (x - (carry .<< 4)) :: base_carry carry (z :: t)).
    cbv zeta. rewrite (i8_small (y + c)) by lia. rewrite (i8_small (y + c + 8)) by lia.
    rewrite shl4, shr4. rewrite i8_small by lia.
    destruct (IH ((y + c + 8) / 16)) as (Hv & Hf & Hl); [lia|].
    set (w := base_carry _ (z :: t)) in *.
    change (val16 ?h) with (val16 h). cbn [length]. rewrite Hl.
    change (val16 ((y + c - (y + c + 8) / 16 * 16) :: w)) with
      (y + c - (y + c + 8) / 16 * 16 + 16 * val16 w).
    change (val16 (y :: z :: t)) with (y + 16 * val16 (z :: t)).
    split_and!; [lia| |done]. constructor; [unfold digit16; lia|done].
Qed.

Lemma base_digits_ok a : is_b32 a -> le a < 2 ^ 255 ->
  val16 (base_digits a) = le a /\ Forall digit16 (base_digits a) /\ length (base_digits a) = 64%nat.
Proof.
  intros Ha Hv. destruct (small_top_le a Ha Hv) as (s & x & -> & Hx). destruct Ha as [Ha Hl].
  apply Forall_app in Ha as Hsx. destruct Hsx as [Hs Hxs]. inversion Hxs as [|? ? Hx8 _]; subst.
  destruct (nibbles_ok _ Ha) as (Vn & Fn & Ln). unfold base_digits.
  destruct (nibble_split x Hx8) as [E1 E2].
  assert (E : nibbles (s ++ [x]) = (nibbles s ++ [x mod 16]) ++ [x / 16]).
  { unfold nibbles. rewrite fmap_app, mjoin_app. cbn. rewrite E1, E2. by rewrite <- app_assoc. }
  rewrite E in *. apply Forall_app in Fn as [Fe _].
  destruct Hx8 as [H0 _].
  destruct (base_carry_ok _ (x / 16) 0 Fe) as (V & F & L); [lia|lia|].
  rewrite V, Vn, L. split_and!; [lia|done|].
  rewrite length_app in Ln. cbn in Ln. rewrite Hl in Ln. lia.
Qed.

Fixpoint sum256 (k : nat) (f : nat -> Z) : Z :=
  match k with O => 0 | S k => sum256 k f + f k * 256 ^ Z.of_nat k end.

Lemma sum256_shift k f : sum256 (S k) f = f 0%nat + 256 * sum256 k (fun i => f (S i)).
Proof.
  induction k as [|k IH]; [cbn; lia|].
  cbn [sum256] in *. rewrite IH, Nat2Z.inj_succ, Z.pow_succ_r by lia. ring.
Qed.

Lemma val16_sum k e : length e = (2 * k)%nat ->
  val16 e = sum256 k (fun i => e !!! (2 * i)%nat) + 16 * sum256 k (fun i => e !!! (2 * i + 1)%nat).
Proof.
  revert e. induction k as [|k IH]; intros e Hl; [by destruct e|].
  destruct e as [|x [|y e]]; [cbn in Hl; lia|cbn in Hl; lia|].
  rewrite !sum256_shift. cbn [val16]. rewrite (IH e) by (cbn in Hl; lia).
  assert (Hs : forall g h, (forall i, g i = h i) -> sum256 k g = sum256 k h).
  { intros g h Hgh. clear -Hgh. induction k; cbn; [done|]. by rewrite IHk, Hgh. }
  rewrite (Hs (fun i => (x :: y :: e) !!! (2 * S i)%nat) (fun i => e !!! (2 * i)%nat)).
  2:{ intros i. replace (2 * S i)%nat with (S (S (2 * i))) by lia. done. }
  rewrite (Hs (fun i => (x :: y :: e) !!! (2 * S i + 1)%nat) (fun i => e !!! (2 * i + 1)%nat)).
  2:{ intros i. replace (2 * S i + 1)%nat with (S (S (2 * i + 1))) by lia. done. }
  change ((x :: y :: e) !!! (2 * 0)%nat) with x.
  change ((x :: y :: e) !!! (2 * 0 + 1)%nat) with y. ring.
Qed.

(** [ge_base[i][j]] is [(j+1) * 256^i * B]. *)
Definition base_table (A B : Ed.pt) (tab : list (list ge_precomp)) : Prop :=
  forall i j, (i < 32)%nat -> (j < 8)%nat ->
    Rp A B 0 (Z.of_nat (S j) * 256 ^ Z.of_nat i) ((tab !!! i) !!! j).

Lemma base_loop_ok A B tab f h N : base_table A B tab -> R3 A B 0 N h ->
  (forall i, (i < 32)%nat -> digit16 (f i)) ->
  R3 A B 0 (N + sum256 32 f) (base_loop tab f h).
Proof.
  intros Ht Hh Hf. unfold base_loop.
  assert (G : forall k, (k <= 32)%nat -> R3 A B 0 (N + sum256 k f)
    (foldl (fun h i => base_step h (tab !!! i) (f i)) h (seq 0 k))); [|by apply G].
  induction k as [|k IH]; intros Hk; [by rewrite Z.add_0_r|].
  rewrite seq_S, foldl_app, Nat.add_0_l. cbn [foldl sum256]. unfold base_step. apply R_to3.
  rewrite Z.add_assoc.
  assert (Hs : Rp A B (f k * 0) (f k * 256 ^ Z.of_nat k) (select (tab !!! k) (f k))).
  { apply select_ok; [|apply Hf; lia]. intros j Hj.
    replace (Z.of_nat (S j) * 0) with 0 by lia. apply Ht; lia. }
  rewrite Z.mul_0_r in Hs. apply (R_madd A B 0 _ 0 _); [|done]. apply IH. lia.
Qed.

#[local] Opaque base_loop sum256.

Lemma scalarmult_base_value A B tab a : base_table A B tab -> is_b32 a -> le a < 2 ^ 255 ->
  R3 A B 0 (le a) (ge_scalarmult_base tab a).
Proof.
  intros Ht Ha Hv. destruct (base_digits_ok a Ha Hv) as (Vd & Fd & Ld).
  assert (Hd : forall i, (i < 64)%nat -> digit16 (base_digits a !!! i)).
  { intros i Hi. apply (Forall_lookup_total_1 _ _ _ Fd). lia. }
  unfold ge_scalarmult_base. rewrite <- Vd, (val16_sum 32) by done.
  generalize dependent (base_digits a). intros e _ _ _ Hd. rewrite Z.add_comm.
  apply base_loop_ok; [done| |intros; apply Hd; lia].
  pose proof (base_loop_ok A B tab (fun i => e !!! (2 * i + 1)%nat) ge_p3_0 0 Ht (R3_0 A B)
    ltac:(intros; apply Hd; lia)) as H1.
  revert H1. generalize (sum256 32 (fun i => e !!! (2 * i + 1)%nat))
    (base_loop tab (fun i => e !!! (2 * i + 1)%nat) ge_p3_0).
  intros od h H1. rewrite Z.add_0_l in H1.
  replace (16 * od) with (8 * od + 8 * od) by ring. apply R_to3, (R_dbl A B 0 (8 * od)), R_to2.
  replace (8 * od) with (4 * od + 4 * od) by ring. apply (R_dbl A B 0 (4 * od)), R_to2.
  replace (4 * od) with (2 * od + 2 * od) by ring. apply (R_dbl A B 0 (2 * od)), R_to2.
  replace (2 * od) with (od + od) by ring. by apply (R_p3_dbl A B 0 od).
Qed.
