(* ===== verification/GeCodec.v ===== *)
(** * Encoding and decoding of points

    [ge_frombytes_vartime] accepts only canonical encodings of points of the
    curve, and [ge_p3_tobytes] gives back the bytes that were decoded. *)

From S2P Require Import Prelude CInt BitField Fe FeProofs FeField Sc ScProofs Ge GeProofs EdAssoc EdGroup.

(** ** The inlined fe_frombytes *)

Section Agree.
Context {M} {C : CInt M} {inj : M -> Z -> Prop} {HR : Refines C inj}.

Lemma fe_frombytes_agrees hm hx hi : agrees inj hm hx hi ->
  agrees inj (fe_frombytes hm) (@fe_frombytes _ exact hx) (fe_frombytes hi).
Proof using HR. intros H. apply fe_store_agrees. unfold fe_loads_carry. agree_tac. Qed.
End Agree.

(** The fields of the encoding that the loads extract; the last one has 23
    bits when the sign bit is masked and 24 bits otherwise. *)
Definition load_fields (w v : Z) : list Z :=
  [field v 0 32; field v 32 24; field v 56 24; field v 80 24; field v 104 24; field v 128 32;
   field v 160 24; field v 184 24; field v 208 24; field v 232 w].

Definition load_shifts : list Z := [0; 6; 5; 3; 2; 0; 7; 5; 4; 2].
Definition load_widths (w : Z) : list Z := [32; 24; 24; 24; 24; 32; 24; 24; 24; w].

Lemma fe_loads_fields w s : 0 <= w <= 24 -> is_b32 s ->
  fe_loads (2 ^ w - 1) s = zip_with (fun f k => f * 2 ^ k) (load_fields w (le s)) load_shifts.
Proof.
  intros Hw [Hs Hl]. unfold fe_loads. rewrite !load_3_field, !load_4_field by (done || lia).
  rewrite land_mask by lia.
  change ((field (le s) (8 * Z.of_nat 29) 24) mod 2 ^ w) with
    (wrap w (field (le s) (8 * Z.of_nat 29) 24)).
  rewrite field_wrap, !Z.shiftl_mul_pow2 by lia.
  cbn [load_fields load_shifts zip_with]. rewrite !Z.mul_1_r. reflexivity.
Qed.

Lemma load_fields_bound w v : 0 <= w ->
  Forall2 (fun x w => 0 <= x < 2 ^ w) (load_fields w v) (load_widths w).
Proof. repeat constructor; apply field_bound; lia. Qed.

Lemma load_fields_sum w v : 0 <= w ->
  val [2 ^ 0; 2 ^ 32; 2 ^ 56; 2 ^ 80; 2 ^ 104; 2 ^ 128; 2 ^ 160; 2 ^ 184; 2 ^ 208; 2 ^ 232]
    (load_fields w v) = v mod 2 ^ (232 + w).
Proof.
  intros Hw. pose proof (val_fields v 0 (load_widths w) ltac:(lia)
    ltac:(by repeat constructor)) as H.
  replace (sum _) with (232 + w) in H by (unfold load_widths; cbn [sum]; lia). rewrite Z.mul_1_l in H.
  transitivity (field v 0 (232 + w)); [exact H|]. unfold field. by rewrite Z.div_1_r.
Qed.

Definition loads_bounds (w : Z) : list (Z * Z) :=
  zip_with (fun w k => (0, (2 ^ w - 1) * 2 ^ k)) (load_widths w) load_shifts.

Lemma fe_loads_within w s : 0 <= w <= 24 -> is_b32 s -> within (fe_loads (2 ^ w - 1) s) (loads_bounds w).
Proof.
  intros Hw Hs. rewrite fe_loads_fields by done. pose proof (load_fields_bound w (le s) ltac:(lia)) as H.
  unfold within, loads_bounds, load_widths, load_fields, load_shifts in *. cbn [zip_with].
  repeat (apply Forall2_cons_1 in H as [? H]; apply Forall2_cons_2; [cbn [fst snd]; lia|]).
  constructor.
Qed.

Lemma fval_loads w s : 0 <= w <= 24 -> is_b32 s -> fval (fe_loads (2 ^ w - 1) s) = le s mod 2 ^ (232 + w).
Proof.
  intros Hw Hs. rewrite fe_loads_fields, <- load_fields_sum by (done || lia).
  unfold load_fields, load_shifts, fval, fe_weights. cbn [zip_with val]. lia.
Qed.

Lemma fval_loads_carry h : length h = 10%nat ->
  fval (@fe_loads_carry _ exact h) =[p25519]= fval h.
Proof.
  intros Hf. unfold fe_loads_carry, fval.
  assert (Hc : forall o b i j h, length h = 10%nat -> i <> j -> (i < 10)%nat -> (j < 10)%nat ->
    nth j fe_weights 0 = 2 ^ b * nth i fe_weights 0 ->
    val fe_weights (@carry _ exact 64 o b i j h) = val fe_weights h).
  { intros o b i j h' Hl ????. apply val_carry; rewrite ?Hl; done. }
  do 9 rewrite Hc by (rewrite ?length_carry, ?length_carry_mul; done || lia).
  rewrite val_carry_mul; rewrite ?Hf; [|done || lia..].
  match goal with |- _ + ?c * _ =[_]= _ => generalize c; intros k end.
  apply (eqmod_mul_intro _ (- k)); [done|].
  change (19 * nth 0 fe_weights 0 - 2 ^ 25 * nth 9 fe_weights 0) with (- p25519). ring.
Qed.

Lemma length_loads_carry {A} {C : CInt A} h : length (fe_loads_carry h) = length h.
Proof. unfold fe_loads_carry. by rewrite !length_carry, length_carry_mul. Qed.

Lemma fe_frombytes_ok w s (h := fe_loads (2 ^ w - 1) s) : w = 23 \/ w = 24 -> is_b32 s ->
  fbnd 110 (fe_frombytes h) /\ fval (fe_frombytes h) == le s mod 2 ^ (232 + w).
Proof.
  intros Hw Hs. pose proof (fe_loads_within w s ltac:(lia) Hs) as Hi. fold h in Hi.
  destruct (machine_run _ _ _ (fe_bounds 110) (fe_frombytes_agrees _ _ _ (machine_start _ _ Hi)))
    as [He Hb]; [destruct Hw as [-> | ->]; vm_compute; reflexivity|].
  split; [done|]. rewrite He. unfold fe_frombytes.
  rewrite fval_store by (by rewrite length_loads_carry).
  rewrite fval_loads_carry by done. by rewrite <- fval_loads by (done || lia).
Qed.

Lemma fe_frombytes_ok_23 s (h := fe_loads 8388607 s) : is_b32 s ->
  fbnd 110 (fe_frombytes h) /\ fval (fe_frombytes h) == le s mod 2 ^ 255.
Proof. apply (fe_frombytes_ok 23). by left. Qed.

(** The ten comparisons test that the encoded number is at least [p]. *)
Lemma fe_noncanonical_ok s : is_b32 s ->
  fe_noncanonical (fe_loads 8388607 s) = (p25519 <=? le s mod 2 ^ 255).
Proof.
  intros Hs. change 8388607 with (2 ^ 23 - 1). change 255 with (232 + 23).
  rewrite fe_loads_fields, <- load_fields_sum by done.
  pose proof (load_fields_bound 23 (le s) ltac:(lia)) as H.
  unfold load_fields, load_widths, load_shifts, fe_noncanonical, limb, p25519 in *.
  cbn [zip_with val nth].
  repeat (apply Forall2_cons_1 in H as [? H]). clear H.
  repeat match goal with |- context [field ?v ?e ?w] => generalize dependent (field v e w) end.
  intros. lia.
Qed.

(** ** The encoding of an affine point

    The 255 low bits are [y], the top bit is the parity of [x]. *)
Definition encode (x y : Z) : bytes := le_bytes 32 (y + 2 ^ 255 * (x mod 2)).

Lemma lxor_top f b : 0 <= f < 2 ^ 7 -> 0 <= b < 2 -> u8 (f .^ (b .<< 7)) = f + 2 ^ 7 * b.
Proof.
  intros Hf Hb. assert (Ha : is_word 7 f) by done.
  assert (He : f .^ (b .<< 7) = f .| (b .<< 7)).
  { apply Z.lxor_lor, Z.bits_inj'. intros i Hi. rewrite Z.land_spec, Z.bits_0.
    apply word_iff_bits in Ha as [? Ha]; [|lia].
    destruct (Z.lt_ge_cases i 7).
    - rewrite (Z.shiftl_spec_low b) by lia. apply andb_false_r.
    - by rewrite (Ha i). }
  rewrite He, lor_shiftl_add by (done || lia). rewrite wrap_small; [lia|]. unfold is_word. lia.
Qed.

Lemma set_sign_ok x y : fbnd 330 x -> 0 <= y < p25519 ->
  set_sign (le_bytes 32 y) x = encode (fval x mod p25519) y.
Proof.
  intros Hx Hy. unfold set_sign. rewrite fe_isnegative_ok by done. unfold encode.
  pose proof (Z.mod_pos_bound (fval x mod p25519) 2 ltac:(lia)) as Hb. revert Hb.
  generalize ((fval x mod p25519) mod 2). intros b Hb.
  match goal with |- ?l = le_bytes 32 ?v =>
    assert (Hl : length l = 32%nat) by (by rewrite length_insert, length_le_bytes);
    rewrite <- Hl at 2; apply (bytes_of_fields l v); rewrite Hl end.
  clear Hl. intros i Hi. unfold field. destruct (decide (i = 31%nat)) as [->|Hn].
  - rewrite list_lookup_total_insert_eq by (rewrite length_le_bytes; lia).
    rewrite le_bytes_lookup by lia. change (8 * Z.of_nat 31) with 248. unfold field.
    replace (y + 2 ^ 255 * b) with (y + 2 ^ 7 * b * 2 ^ 248) by lia.
    rewrite Z.div_add by lia.
    assert (0 <= y / 2 ^ 248 < 2 ^ 7).
    { split; [apply Z.div_pos; lia|]. apply Z.div_lt_upper_bound; unfold p25519 in *; lia. }
    rewrite Z.mod_small by lia. rewrite lxor_top by lia. rewrite Z.mod_small by lia. done.
  - rewrite list_lookup_total_insert_ne by done. rewrite le_bytes_lookup by done. unfold field.
    replace (y + 2 ^ 255 * b) with (y + 2 ^ (247 - 8 * Z.of_nat i) * b * 2 ^ 8 * 2 ^ (8 * Z.of_nat i)).
    + rewrite Z.div_add by lia. by rewrite Z.mod_add.
    + f_equal. transitivity (2 ^ (247 - 8 * Z.of_nat i) * 2 ^ 8 * 2 ^ (8 * Z.of_nat i) * b); [ring|].
      rewrite <- !Z.pow_add_r by lia. do 2 f_equal. lia.
Qed.

(** Both encoders divide by [Z] and encode. *)
Lemma tobytes_ok X Y Z x y z (zi := z ^ (p25519 - 2)) :
  fbnd 110 X -> fbnd 220 Y -> fbnd 220 Z -> fval X == x -> fval Y == y -> fval Z == z ->
  set_sign (fe_tobytes (fe_mul Y (fe_invert Z))) (fe_mul X (fe_invert Z))
  = encode ((x * zi) mod p25519) ((y * zi) mod p25519).
Proof.
  intros HX HY HZ Vx Vy Vz.
  destruct (fe_invert_ok Z) as [Bi Vi]; [by eapply fbnd_mono; [|exact HZ]|].
  know (fe_mul X (fe_invert Z)). know (fe_mul Y (fe_invert Z)).
  rewrite fe_tobytes_ok by (by eapply fbnd_mono; [|exact B0]).
  rewrite set_sign_ok; [|by eapply fbnd_mono; [|exact B]|by apply Z.mod_pos_bound].
  rewrite Vi, Vz in V, V0. rewrite Vx in V. rewrite Vy in V0. unfold eqmod in V, V0.
  fold zi in V, V0. by rewrite V, V0.
Qed.

Lemma ge_p3_tobytes_ok h P (zi := Ed.pZ P ^ (p25519 - 2)) : rep3 h P ->
  ge_p3_tobytes h = encode ((Ed.pX P * zi) mod p25519) ((Ed.pY P * zi) mod p25519).
Proof. intros. unrep. unfold ge_p3_tobytes. cbn zeta. erewrite tobytes_ok by (bound_done || eassumption). reflexivity. Qed.

Lemma ge_tobytes_ok h P (zi := Ed.pZ P ^ (p25519 - 2)) : rep2 h P ->
  ge_tobytes h = encode ((Ed.pX P * zi) mod p25519) ((Ed.pY P * zi) mod p25519).
Proof. intros. unrep. unfold ge_tobytes. cbn zeta. erewrite tobytes_ok by (bound_done || eassumption). reflexivity. Qed.

(** ** Decoding *)

Lemma isnonzero_0 k f : fbnd k f -> k <= 330 -> (fe_isnonzero f =? 0) = true -> fval f == 0.
Proof.
  intros Hf Hk. rewrite fe_isnonzero_ok by (by eapply fbnd_mono; [|exact Hf]). unfold eqmod.
  change (0 mod p25519) with 0.
  destruct (Z.eqb_spec (fval f mod p25519) 0); [done|discriminate].
Qed.

(** The square root: one of the two candidates, or none. *)
Lemma decode_root (X u v X' : list Z) (vxx := fe_mul (fe_sq X) v) : fbnd 101 X -> fbnd 102 u -> fbnd 102 v ->
  (if fe_isnonzero (fe_sub vxx u) =? 0 then Some X else
   if fe_isnonzero (fe_add vxx u) =? 0 then Some (fe_mul X fe_sqrtm1) else None) = Some X' ->
  fbnd 101 X' /\ fval v * (fval X' * fval X') == fval u.
Proof.
  intros HX Hu Hv H. subst vxx.
  know (fe_sub (fe_mul (fe_sq X) v) u). know (fe_add (fe_mul (fe_sq X) v) u).
  revert H. destruct (fe_isnonzero (fe_sub _ _) =? 0) eqn:E1;
    [|destruct (fe_isnonzero (fe_add _ _) =? 0) eqn:E2]; intros H;
    [injection H as <-; split; [done|]|injection H as <-|discriminate].
  - apply isnonzero_0 with (k := 203) in E1; [|bound_done|lia].
    rewrite V1, V0, V in E1.
    transitivity (fval X * fval X * fval v - fval u + fval u); [apply eq_eqmod; ring|].
    rewrite E1. done.
  - apply isnonzero_0 with (k := 203) in E2; [|bound_done|lia].
    rewrite V2, V0, V in E2. destruct fe_sqrtm1_ok as [Bs Vs].
    know (fe_mul X fe_sqrtm1). split; [done|]. rewrite V3.
    transitivity (fval v * (fval X * fval X) * (fval fe_sqrtm1 * fval fe_sqrtm1)); [apply eq_eqmod; ring|].
    rewrite Vs.
    transitivity (fval u - (fval X * fval X * fval v + fval u)); [apply eq_eqmod; ring|].
    rewrite E2. apply eq_eqmod. ring.
Qed.

Lemma mod_opp_parity x : x mod p25519 <> 0 -> ((- x) mod p25519) mod 2 = 1 - (x mod p25519) mod 2.
Proof.
  intros Hx. rewrite Z.mod_opp_l_nz by done.
  pose proof (Z.mod_pos_bound x p25519 ltac:(done)) as Hb. revert Hx Hb.
  generalize (x mod p25519). unfold p25519. intros. Z.div_mod_to_equations. lia.
Qed.

Lemma decode_sign (X X' : list Z) b : fbnd 101 X -> 0 <= b < 2 ->
  (if fe_isnegative X =? b then Some X else
   if fe_isnonzero X =? 0 then None else Some (fe_neg X)) = Some X' ->
  fbnd 101 X' /\ (fval X' mod p25519) mod 2 = b /\ fval X' * fval X' == fval X * fval X.
Proof.
  intros HX Hb. pose proof (fbnd_mono 101 330 X ltac:(lia) HX).
  rewrite fe_isnegative_ok, fe_isnonzero_ok by done.
  destruct (Z.eqb_spec ((fval X mod p25519) mod 2) b); [intros [= <-]; by split_and!|].
  destruct (Z.eqb_spec (fval X mod p25519) 0); [discriminate|].
  change (1 =? 0) with false. cbv iota. intros H0. apply (inj Some) in H0 as <-.
  destruct (fe_neg_ok 101 X) as [B V]; [done|lia|]. split_and!; [done| |].
  - rewrite V, mod_opp_parity by done.
    pose proof (Z.mod_pos_bound (fval X mod p25519) 2). lia.
  - rewrite V. apply eq_eqmod. ring.
Qed.

Lemma top_bit s : is_b32 s -> le s = le s mod 2 ^ 255 + 2 ^ 255 * ((s !!! 31%nat) .>> 7)
  /\ 0 <= (s !!! 31%nat) .>> 7 < 2.
Proof.
  intros [Hs Hl]. rewrite bytes_lookup by (done || lia).
  change (8 * Z.of_nat 31) with 248. rewrite field_shiftr by lia. cbn [Z.add Z.sub Z.opp].
  split; [|by apply field_bound].
  rewrite <- (field_full (le s) 256) at 1 by (pose proof (le_bound s Hs) as Hb; by rewrite Hl in Hb).
  change 256 with (255 + 1). rewrite <- (field_join (le s) 0 255 1) by lia. unfold field at 1. by rewrite Z.div_1_r.
Qed.

Lemma curve_of_root xx yy : (yy * d + 1) * xx == yy - 1 -> - xx + yy == 1 + d * xx * yy.
Proof.
  intros H. transitivity ((yy - 1) + (1 - xx)); [apply eq_eqmod; ring|].
  rewrite <- H. apply eq_eqmod. ring.
Qed.

Lemma ge_frombytes_sound s h : is_b32 s -> ge_frombytes_vartime s = Some h ->
  exists x y, 0 <= x < p25519 /\ 0 <= y < p25519 /\ on_curve x y /\ s = encode x y /\
    rep3 h (Ed.mk x y 1 (x * y)).
Proof.
  intros Hs. unfold ge_frombytes_vartime. rewrite fe_noncanonical_ok by done. cbn zeta.
  destruct (Z.leb_spec p25519 (le s mod 2 ^ 255)) as [|Hy]; [discriminate|].
  destruct (fe_frombytes_ok_23 s Hs) as [HY VY]. revert HY VY.
  generalize (fe_frombytes (fe_loads 8388607 s)). intros Y HY VY.
  know (fe_sub (fe_sq Y) fe_1). know (fe_add (fe_mul (fe_sq Y) fe_d) fe_1).
  destruct (fe_divpowm1_ok (fe_sub (fe_sq Y) fe_1) (fe_add (fe_mul (fe_sq Y) fe_d) fe_1))
    as [HX _]; [bound_done..|].
  revert HX. generalize (fe_divpowm1 (fe_sub (fe_sq Y) fe_1) (fe_add (fe_mul (fe_sq Y) fe_d) fe_1)).
  intros X HX HD. apply bind_Some in HD as (X1 & HX1 & HD).
  apply bind_Some in HD as (X2 & HX2 & HD). apply (inj Some) in HD as <-.
  destruct (top_bit s Hs) as [Ht Hb].
  apply decode_root in HX1 as [HB1 HE1]; [|bound_done..].
  apply decode_sign in HX2 as (HB2 & HS2 & HE2); [|done..].
  know (fe_mul X2 Y).
  exists (fval X2 mod p25519), (le s mod 2 ^ 255).
  split_and!; [by apply Z.mod_pos_bound..|by apply Z.mod_pos_bound|done| | |].
  - unfold on_curve. rewrite eqmod_mod, HE2. rewrite <- VY.
    rewrite V2, V0, V1, V, (proj2 fe_1_ok), (proj2 fe_d_ok) in HE1. by apply curve_of_root.
  - unfold encode. rewrite HS2, <- Ht. destruct Hs as [Hs <-]. by rewrite le_bytes_le.
  - split_and!; first [bound_done|idtac]; cbn [P3.X P3.Y P3.Z P3.T Ed.pX Ed.pY Ed.pZ Ed.pT].
    + by rewrite eqmod_mod.
    + done.
    + vm_compute. reflexivity.
    + rewrite eqmod_mod, <- VY. done.
Qed.

Lemma ge_frombytes_tobytes s h : is_b32 s -> ge_frombytes_vartime s = Some h -> ge_p3_tobytes h = s.
Proof.
  intros Hs Hd. destruct (ge_frombytes_sound s h Hs Hd) as (x & y & Hx & Hy & _ & -> & Hr).
  rewrite (ge_p3_tobytes_ok h _ Hr). cbn [Ed.pX Ed.pY Ed.pZ].
  rewrite Z.pow_1_l, !Z.mul_1_r, !Z.mod_small by done. done.
Qed.

(** ** Every point decodes *)

Lemma nonzero_isnonzero k f : fbnd k f -> k <= 330 -> fval f == 0 -> (fe_isnonzero f =? 0) = true.
Proof.
  intros Hf Hk H0. rewrite fe_isnonzero_ok by (by eapply fbnd_mono; [|exact Hf]). unfold eqmod in H0.
  rewrite H0. reflexivity.
Qed.

Lemma decode_root_some (X u v : list Z) (vxx := fe_mul (fe_sq X) v) (c := fval X) :
  fbnd 101 X -> fbnd 102 u -> fbnd 102 v ->
  fval v * (c * c) == fval u \/ fval v * (c * c) == - fval u ->
  exists X', (if fe_isnonzero (fe_sub vxx u) =? 0 then Some X else
   if fe_isnonzero (fe_add vxx u) =? 0 then Some (fe_mul X fe_sqrtm1) else None) = Some X'.
Proof.
  intros HX Hu Hv Hc. subst vxx.
  know (fe_sub (fe_mul (fe_sq X) v) u). know (fe_add (fe_mul (fe_sq X) v) u).
  destruct (fe_isnonzero (fe_sub _ _) =? 0) eqn:E1; [by eexists|].
  destruct Hc as [Hc|Hc].
  - rewrite (nonzero_isnonzero 203) in E1; [discriminate|bound_done|lia|].
    rewrite V1, V0, V, <- Hc. apply eq_eqmod. unfold c. ring.
  - rewrite (nonzero_isnonzero 203); [by eexists|bound_done|lia|].
    rewrite V2, V0, V.
    transitivity (fval v * (c * c) + fval u); [apply eq_eqmod; unfold c; ring|].
    rewrite Hc. apply eq_eqmod. ring.
Qed.

Lemma decode_sign_some (X : list Z) b : fbnd 101 X -> 0 <= b < 2 ->
  fval X != 0 \/ b = 0 ->
  exists X', (if fe_isnegative X =? b then Some X else
   if fe_isnonzero X =? 0 then None else Some (fe_neg X)) = Some X'.
Proof.
  intros HX Hb Hz. pose proof (fbnd_mono 101 330 X ltac:(lia) HX).
  rewrite fe_isnegative_ok, fe_isnonzero_ok by done.
  destruct (Z.eqb_spec ((fval X mod p25519) mod 2) b); [by eexists|].
  destruct (Z.eqb_spec (fval X mod p25519) 0) as [E|E]; [|by eexists].
  destruct Hz as [Hz| ->]; [by destruct Hz|]. rewrite E in *. done.
Qed.

(** The denominator [d y^2 + 1] does not vanish. *)
Lemma decode_denominator y : y * y * d + 1 != 0.
Proof.
  intros H. destruct fe_sqrtm1_ok as [_ Hi]. set (i := fval fe_sqrtm1) in *.
  destruct (eqmod_dec y 0) as [Hy|Hy].
  { rewrite Hy in H. by apply one_nonzero. }
  apply (d_nonsquare (i * y ^ (p25519 - 2))). pose proof (inv_pow y Hy) as Hinv. revert Hinv.
  generalize (y ^ (p25519 - 2)). intros k Hk. clearbody i.
  transitivity (i * i * (k * k)); [apply eq_eqmod; ring|]. rewrite Hi.
  transitivity (- (y * y * d + 1) * (k * k) + y * k * (y * k) * d); [apply eq_eqmod; ring|].
  rewrite H, Hk. apply eq_eqmod. ring.
Qed.

Lemma root_of_curve x y : on_curve x y -> (y * y * d + 1) * (x * x) == y * y - 1.
Proof.
  unfold on_curve. intros H.
  transitivity ((1 + d * (x * x) * (y * y)) + x * x - 1); [apply eq_eqmod; ring|].
  rewrite <- H. apply eq_eqmod. ring.
Qed.

Lemma le_encode x y : 0 <= y < p25519 -> le (encode x y) = y + 2 ^ 255 * (x mod 2).
Proof.
  intros Hy. unfold encode. rewrite le_le_bytes. apply Z.mod_small.
  pose proof (Z.mod_pos_bound x 2). unfold p25519 in Hy. lia.
Qed.

Lemma encode_b32 x y : is_b32 (encode x y).
Proof. split; [apply le_bytes_is_bytes|apply length_le_bytes]. Qed.

Lemma encode_y x y : 0 <= y < p25519 -> le (encode x y) mod 2 ^ 255 = y.
Proof.
  intros Hy. rewrite le_encode by done. rewrite Z.mul_comm, Z.mod_add by lia.
  apply Z.mod_small. unfold p25519 in Hy. lia.
Qed.

Lemma encode_sign x y : 0 <= y < p25519 -> (encode x y !!! 31%nat) .>> 7 = x mod 2.
Proof.
  intros Hy. destruct (top_bit (encode x y) (encode_b32 x y)) as [He _].
  rewrite encode_y, le_encode in He by done. lia.
Qed.

Lemma bind_some_ex {A B} (mx : option A) (f : A -> option B) a :
  mx = Some a -> (exists b, f a = Some b) -> exists b, mx ≫= f = Some b.
Proof. by intros ->. Qed.

Lemma ge_frombytes_some x y : 0 <= x < p25519 -> 0 <= y < p25519 -> on_curve x y ->
  exists h, ge_frombytes_vartime (encode x y) = Some h.
Proof.
  intros Hx Hy Hc. pose proof (encode_b32 x y) as Hs. apply root_of_curve in Hc.
  unfold ge_frombytes_vartime. rewrite fe_noncanonical_ok, encode_y by done. cbn zeta.
  destruct (Z.leb_spec p25519 y); [lia|].
  destruct (fe_frombytes_ok_23 _ Hs) as [HY VY]. rewrite encode_y in VY by done. revert HY VY.
  generalize (fe_frombytes (fe_loads 8388607 (encode x y))). intros Y HY VY.
  know (fe_sub (fe_sq Y) fe_1). know (fe_add (fe_mul (fe_sq Y) fe_d) fe_1).
  set (u := fe_sub (fe_sq Y) fe_1) in *. set (v := fe_add (fe_mul (fe_sq Y) fe_d) fe_1) in *.
  assert (Vu : fval u == y * y - 1) by (rewrite V0, V, VY, (proj2 fe_1_ok); done).
  assert (Vv : fval v == y * y * d + 1)
    by (rewrite V2, V1, V, VY, (proj2 fe_1_ok), (proj2 fe_d_ok); done).
  clearbody u v.
  destruct (fe_divpowm1_root u v x) as [HX Hr]; [bound_done|bound_done|by rewrite Vu, Vv|].
  revert HX Hr. generalize (fe_divpowm1 u v). intros X HX Hr.
  destruct (decode_root_some X u v HX) as [X1 E1]; [bound_done..|exact Hr|].
  apply (bind_some_ex _ _ X1 E1).
  apply decode_root in E1 as [HB1 HE1]; [|bound_done..].
  destruct (decode_sign_some X1 (x mod 2)) as [X2 E2]; [done|by apply Z.mod_pos_bound| |].
  - destruct (Z.eq_dec x 0) as [->|Hx0]; [by right|]. left. intros HX1.
    rewrite HX1, Vv, Vu, <- Hc in HE1.
    assert (Hz : (y * y * d + 1) * (x * x) == 0) by (rewrite <- HE1; apply eq_eqmod; ring).
    apply mul_zero in Hz as [Hz|Hz]; [by apply (decode_denominator y)|].
    apply Hx0, (eqmod_small p25519); [lia|lia|]. by apply mul_zero in Hz as [|].
  - rewrite encode_sign by done. apply (bind_some_ex _ _ X2 E2). by eexists.
Qed.

Lemma encode_inj x y x' y' : 0 <= y < p25519 -> 0 <= y' < p25519 ->
  encode x y = encode x' y' -> y = y' /\ x mod 2 = x' mod 2.
Proof.
  intros Hy Hy' He. split.
  - by rewrite <- (encode_y x y), He, encode_y by done.
  - by rewrite <- (encode_sign x y), He, encode_sign by done.
Qed.

(** A point is determined by [y] and the parity of [x]. *)
Lemma curve_x_unique x x' y : 0 <= x < p25519 -> 0 <= x' < p25519 ->
  on_curve x y -> on_curve x' y -> x mod 2 = x' mod 2 -> x = x'.
Proof.
  intros Hx Hx' Hc Hc' Hs. apply root_of_curve in Hc, Hc'.
  assert (He : x * x == x' * x').
  { apply (mul_cancel (y * y * d + 1)); [apply decode_denominator|]. by rewrite Hc, Hc'. }
  apply square_roots in He as [He|He]; [by apply (eqmod_small p25519)|].
  destruct (Z.eq_dec x' 0) as [->|]; [by apply (eqmod_small p25519)|].
  exfalso. unfold eqmod in He. rewrite Z.mod_small, Z.mod_opp_l_nz, (Z.mod_small x') in He
    by (try rewrite (Z.mod_small x'); done || lia).
  assert (p25519 mod 2 = 1) by reflexivity. revert He Hs H. clear.
  generalize p25519. intros p -> Hs Hp. Z.div_mod_to_equations. lia.
Qed.

Lemma ge_frombytes_encode x y : 0 <= x < p25519 -> 0 <= y < p25519 -> on_curve x y ->
  exists h, ge_frombytes_vartime (encode x y) = Some h /\ rep3 h (Ed.mk x y 1 (x * y)).
Proof.
  intros Hx Hy Hc. destruct (ge_frombytes_some x y Hx Hy Hc) as [h Eh]. exists h. split; [done|].
  destruct (ge_frombytes_sound _ _ (encode_b32 x y) Eh) as (x' & y' & Hx' & Hy' & Hc' & He & Hr).
  apply encode_inj in He as [<- Hs]; [|done..].
  by rewrite (curve_x_unique x x' y).
Qed.

(** ** Claims *)

(** The base point of the curve. *)
Definition Bx : Z := 15112221349535400772501151409588531511454012693041857206046113283949847762202.
Definition By : Z := 46316835694926478169428394003475163141307993866256225615783033603165251855960.

Lemma B_on_curve : on_curve Bx By.
Proof. vm_compute. reflexivity. Qed.

(** [ge_frombytes_vartime] accepts a 32-byte string exactly when it is
    the canonical encoding of a point of the curve: [y] below [p], [x] a root
    of the curve equation whose parity is the top bit, and not the sign bit
    set on [x = 0]. *)
Theorem ge_frombytes_accepts s : is_b32 s ->
  is_Some (ge_frombytes_vartime s) <->
  exists x y, 0 <= x < p25519 /\ 0 <= y < p25519 /\ on_curve x y /\ s = encode x y.
Proof.
  intros Hs. split.
  - intros [h Eh]. destruct (ge_frombytes_sound s h Hs Eh) as (x & y & ? & ? & ? & ? & _).
    by exists x, y.
  - intros (x & y & Hx & Hy & Hc & ->). by apply ge_frombytes_some.
Qed.

Lemma ge_frombytes_accepts_witness : is_Some (ge_frombytes_vartime (encode Bx By)).
Proof.
  apply (ge_frombytes_accepts (encode Bx By) (encode_b32 Bx By)). exists Bx, By.
  split_and!; [done|done|done|done|exact B_on_curve|reflexivity].
Defined.

(** C33: decoding the encoding of any point of the curve succeeds and yields
    that point in extended coordinates with [Z = 1], and encoding it again
    gives the same bytes. *)
Theorem ge_decode_encode x y : 0 <= x < p25519 -> 0 <= y < p25519 -> on_curve x y ->
  exists h, ge_frombytes_vartime (encode x y) = Some h /\
    rep3 h (Ed.mk x y 1 (x * y)) /\ ge_p3_tobytes h = encode x y.
Proof.
  intros Hx Hy Hc. destruct (ge_frombytes_encode x y Hx Hy Hc) as (h & Eh & Hr).
  exists h. split_and!; [done|done|]. apply ge_frombytes_tobytes; [apply encode_b32|done].
Qed.

Lemma ge_decode_encode_witness : exists h, ge_frombytes_vartime (encode Bx By) = Some h /\
  rep3 h (Ed.mk Bx By 1 (Bx * By)) /\ ge_p3_tobytes h = encode Bx By.
Proof. apply (ge_decode_encode Bx By); [done|done|exact B_on_curve]. Defined.

(** Encoding after a successful decoding reproduces the input bytes, so
    no two byte strings decode to structures with the same encoding. *)
Theorem ge_encode_decode s h : is_b32 s -> ge_frombytes_vartime s = Some h -> ge_p3_tobytes h = s.
Proof. apply ge_frombytes_tobytes. Qed.

Lemma ge_encode_decode_witness : exists h,
  ge_frombytes_vartime (encode Bx By) = Some h /\ ge_p3_tobytes h = encode Bx By.
Proof.
  destruct (ge_frombytes_encode Bx By) as (h & Eh & _); [done|done|exact B_on_curve|].
  exists h. split; [exact Eh|]. apply (ge_encode_decode (encode Bx By) h); [apply encode_b32|exact Eh].
Defined.

(** Both encoders write the affine point: for a structure representing
    (X:Y:Z) with [Z] invertible the bytes are the encoding of (X/Z, Y/Z). *)
Theorem ge_tobytes_affine h2 h3 P : rep2 h2 P -> rep3 h3 P -> Ed.pZ P != 0 ->
  exists x y, 0 <= x < p25519 /\ 0 <= y < p25519 /\
    x * Ed.pZ P == Ed.pX P /\ y * Ed.pZ P == Ed.pY P /\
    ge_tobytes h2 = encode x y /\ ge_p3_tobytes h3 = encode x y.
Proof.
  intros H2 H3 HZ. rewrite (ge_tobytes_ok h2 P H2), (ge_p3_tobytes_ok h3 P H3).
  set (zi := Ed.pZ P ^ (p25519 - 2)).
  assert (Hzi : Ed.pZ P * zi == 1) by (by apply inv_pow). clearbody zi.
  assert (Hd : forall a, (a * zi) mod p25519 * Ed.pZ P == a).
  { intros a. rewrite eqmod_mod. transitivity (a * (Ed.pZ P * zi)); [apply eq_eqmod; ring|].
    rewrite Hzi. apply eq_eqmod. ring. }
  exists ((Ed.pX P * zi) mod p25519), ((Ed.pY P * zi) mod p25519).
  split_and!; try done; by apply Z.mod_pos_bound.
Qed.

Lemma ge_tobytes_affine_witness : exists x y, 0 <= x < p25519 /\ 0 <= y < p25519 /\
  x * 1 == 0 /\ y * 1 == 1 /\ ge_tobytes ge_p2_0 = encode x y /\ ge_p3_tobytes ge_p3_0 = encode x y.
Proof.
  apply (ge_tobytes_affine ge_p2_0 ge_p3_0 Ed.zero);
    [exact ge_p2_0_ok|exact ge_p3_0_ok|exact one_nonzero].
Defined.
