(* ===== verification/GeSpec.v ===== *)
(** * What the point functions compute in the group of the curve

    [G3 h e]: the limbs of [h] are within bounds and represent the group
    element [e]; likewise for the other coordinate systems.  The functions of
    crypto-ops.c refine the group operations: addition, negation, multiples
    and linear combinations. *)

From S2P Require Import Prelude CInt BitField Fe FeProofs FeField Sc ScProofs Ge GeProofs EdAssoc EdGroup GeMult GeMultProofs GeCodec.

Definition G3 (h : ge_p3) (e : epoint) : Prop := exists P, rep3 h P /\ affine P e.
Definition G2 (h : ge_p2) (e : epoint) : Prop := exists P, rep2 h P /\ affine P e.
Definition G1 (h : ge_p1p1) (e : epoint) : Prop := exists P, rep1 h P /\ affine P e.
Definition Gc (h : ge_cached) (e : epoint) : Prop := exists P, repc h P /\ affine P e.
Definition Gp (h : ge_precomp) (e : epoint) : Prop := exists P, repp h P /\ affine P e.

(** ** From counting to the group and back *)

Lemma affine_same P Q e : affine P e -> affine Q e -> Ed.proj P Q.
Proof.
  intros [HZ HX HY HT] [HZ' HX' HY' HT'].
  pose proof (inv_ok _ HZ) as Hi. pose proof (inv_ok _ HZ') as Hi'.
  exists (Ed.pZ Q * inv (Ed.pZ P)), (Ed.pZ P * inv (Ed.pZ Q)). split_and!.
  - transitivity ((Ed.pZ P * inv (Ed.pZ P)) * (Ed.pZ Q * inv (Ed.pZ Q))); [apply eq_eqmod; ring|].
    by rewrite Hi, Hi'.
  - rewrite HX, HX'.
    transitivity (ex e * Ed.pZ Q * (Ed.pZ P * inv (Ed.pZ P))); [rewrite Hi|]; apply eq_eqmod; ring.
  - rewrite HY, HY'.
    transitivity (ey e * Ed.pZ Q * (Ed.pZ P * inv (Ed.pZ P))); [rewrite Hi|]; apply eq_eqmod; ring.
  - transitivity (Ed.pZ Q * (Ed.pZ P * inv (Ed.pZ P))); [rewrite Hi|]; apply eq_eqmod; ring.
  - rewrite HT, HT'.
    transitivity (ex e * ey e * Ed.pZ Q * (Ed.pZ P * inv (Ed.pZ P))); [rewrite Hi|]; apply eq_eqmod; ring.
Qed.

(** Every multiple is reached by some extended point. *)
Lemma comb_exists A B m n : exists P, comb A B m n P.
Proof.
  assert (HA : forall k, exists P, comb A B (Z.of_nat k) 0 P).
  { induction k as [|k [P HP]]; [exists Ed.zero; constructor|].
    exists (Ed.add A P). rewrite Nat2Z.inj_succ, <- Z.add_1_l. apply (comb_add _ _ 1 0 _ 0); [constructor|done]. }
  assert (HB : forall k, exists P, comb A B 0 (Z.of_nat k) P).
  { induction k as [|k [P HP]]; [exists Ed.zero; constructor|].
    exists (Ed.add B P). rewrite Nat2Z.inj_succ, <- Z.add_1_l. apply (comb_add _ _ 0 1 0 _); [constructor|done]. }
  assert (HA' : exists P, comb A B m 0 P).
  { destruct (HA (Z.to_nat (Z.abs m))) as [P HP]. rewrite Z2Nat.id in HP by lia.
    destruct (Z.abs_eq_or_opp m) as [E|E]; rewrite E in HP; [by exists P|].
    exists (Ed.neg P). apply comb_neg in HP. by rewrite Z.opp_involutive in HP. }
  assert (HB' : exists P, comb A B 0 n P).
  { destruct (HB (Z.to_nat (Z.abs n))) as [P HP]. rewrite Z2Nat.id in HP by lia.
    destruct (Z.abs_eq_or_opp n) as [E|E]; rewrite E in HP; [by exists P|].
    exists (Ed.neg P). apply comb_neg in HP. by rewrite Z.opp_involutive in HP. }
  destruct HA' as [P HP], HB' as [Q HQ]. exists (Ed.add P Q).
  rewrite <- (Z.add_0_r m), <- (Z.add_0_l n). by constructor.
Qed.

Section Pair.
Context (A B : Ed.pt) (a b : epoint) (HA : affine A a) (HB : affine B b).

Lemma affine_comb m n P : affine P (plus (int_mul m a) (int_mul n b)) -> comb A B m n P.
Proof using HA HB.
  intros HP. destruct (comb_exists A B m n) as [Q HQ].
  apply (comb_proj _ _ _ _ Q); [|done]. eapply affine_same; [|exact HP].
  by apply (comb_affine A B).
Qed.

Lemma R3_G3 m n h : R3 A B m n h -> G3 h (plus (int_mul m a) (int_mul n b)).
Proof using HA HB. intros (P & HP & HC). exists P. split; [done|]. by apply (comb_affine A B). Qed.
Lemma R2_G2 m n h : R2 A B m n h -> G2 h (plus (int_mul m a) (int_mul n b)).
Proof using HA HB. intros (P & HP & HC). exists P. split; [done|]. by apply (comb_affine A B). Qed.
Lemma Gc_Rc m n h : Gc h (plus (int_mul m a) (int_mul n b)) -> Rc A B m n h.
Proof using HA HB. intros (P & HP & HC). exists P. split; [done|]. by apply affine_comb. Qed.
Lemma Gp_Rp m n h : Gp h (plus (int_mul m a) (int_mul n b)) -> Rp A B m n h.
Proof using HA HB. intros (P & HP & HC). exists P. split; [done|]. by apply affine_comb. Qed.
End Pair.

(** A projective representative of each element. *)
Definition repr (e : epoint) : Ed.pt := Ed.mk (ex e) (ey e) 1 (ex e * ey e).

Lemma affine_repr e : affine (repr e) e.
Proof. split; cbn [repr Ed.pX Ed.pY Ed.pZ Ed.pT]; [exact one_nonzero|apply eq_eqmod; ring..]. Qed.

(** ** Encodings *)

Definition encode_point (e : epoint) : bytes := encode (ex e) (ey e).

Lemma affine_div P e (zi := Ed.pZ P ^ (p25519 - 2)) : affine P e ->
  (Ed.pX P * zi) mod p25519 = ex e /\ (Ed.pY P * zi) mod p25519 = ey e.
Proof.
  intros [HZ HX HY _]. pose proof (inv_pow _ HZ) as Hi. fold zi in Hi. clearbody zi.
  pose proof (epoint_ok e) as (Hx & Hy & _)%point_ok_spec.
  split; (apply (eqmod_small p25519); [by apply Z.mod_pos_bound|done|]); rewrite eqmod_mod.
  - rewrite HX. transitivity (ex e * (Ed.pZ P * zi)); [|rewrite Hi]; apply eq_eqmod; ring.
  - rewrite HY. transitivity (ey e * (Ed.pZ P * zi)); [|rewrite Hi]; apply eq_eqmod; ring.
Qed.

Lemma G3_tobytes h e : G3 h e -> ge_p3_tobytes h = encode_point e.
Proof.
  intros (P & HP & HE). rewrite (ge_p3_tobytes_ok h P HP).
  destruct (affine_div P e HE) as [-> ->]. reflexivity.
Qed.

Lemma G2_tobytes h e : G2 h e -> ge_tobytes h = encode_point e.
Proof.
  intros (P & HP & HE). rewrite (ge_tobytes_ok h P HP).
  destruct (affine_div P e HE) as [-> ->]. reflexivity.
Qed.

Lemma encode_point_inj e f : encode_point e = encode_point f -> e = f.
Proof.
  intros H. pose proof (epoint_ok e) as (Hx & Hy & Hc)%point_ok_spec.
  pose proof (epoint_ok f) as (Hx' & Hy' & Hc')%point_ok_spec.
  apply encode_inj in H as [Hye Hs]; [|done..]. rewrite <- Hye in Hc'.
  apply epoint_eq; apply eq_eqmod; [|done]. by apply (curve_x_unique _ _ (ey e)).
Qed.

Lemma decode_point s h : is_b32 s -> ge_frombytes_vartime s = Some h ->
  exists e, s = encode_point e /\ G3 h e.
Proof.
  intros Hs Hd. destruct (ge_frombytes_sound s h Hs Hd) as (x & y & Hx & Hy & Hc & -> & Hr).
  exists (mkpoint x y (proj2 (point_ok_spec x y) (conj Hx (conj Hy Hc)))).
  split; [done|]. eexists. split; [exact Hr|].
  split; cbn [Ed.pX Ed.pY Ed.pZ Ed.pT ex ey]; [exact one_nonzero|apply eq_eqmod; ring..].
Qed.

Lemma decode_encode_point e : exists h,
  ge_frombytes_vartime (encode_point e) = Some h /\ G3 h e.
Proof.
  pose proof (epoint_ok e) as (Hx & Hy & Hc)%point_ok_spec.
  destruct (ge_frombytes_encode _ _ Hx Hy Hc) as (h & Eh & Hr). exists h. split; [exact Eh|].
  exists (repr e). split; [exact Hr|apply affine_repr].
Qed.

(** ** The multiplications in the group *)

Section Mult.
Context (a b : bytes) (Ha : is_b32 a) (Hb : is_b32 b).

Lemma G_scalarmult h e : le a < 2 ^ 255 -> G3 h e ->
  G2 (ge_scalarmult a h) (int_mul (le a) e) /\ G3 (ge_scalarmult_p3 a h) (int_mul (le a) e).
Proof using Ha.
  intros Hv (P & HP & HE). destruct (scalarmult_value a h P Ha Hv HP) as [H2 H3].
  apply (R2_G2 P P e e HE HE) in H2. apply (R3_G3 P P e e HE HE) in H3.
  by rewrite int_mul_0, plus_neutral_r in H2, H3.
Qed.

(** The table of odd multiples that the double-scalar loops read. *)
Definition Gc_table (Ai : list ge_cached) (e : epoint) : Prop :=
  forall j, (j < 8)%nat -> Gc (Ai !!! j) (int_mul (2 * Z.of_nat j + 1) e).
Definition Gp_table (Bi : list ge_precomp) (e : epoint) : Prop :=
  forall j, (j < 8)%nat -> Gp (Bi !!! j) (int_mul (2 * Z.of_nat j + 1) e).

Lemma mul_left k (e f : epoint) : int_mul k e = plus (int_mul (k * 1) e) (int_mul (k * 0) f).
Proof. by rewrite Z.mul_1_r, Z.mul_0_r, int_mul_0, plus_neutral_r. Qed.
Lemma mul_right k (e f : epoint) : int_mul k f = plus (int_mul (k * 0) e) (int_mul (k * 1) f).
Proof. by rewrite Z.mul_1_r, Z.mul_0_r, int_mul_0, plus_neutral. Qed.

Lemma G_dsm_precomp h e : G3 h e -> Gc_table (ge_dsm_precomp h) e.
Proof.
  intros (P & HP & HE) j Hj.
  destruct (ge_dsm_precomp_ok P P 1 0 h) with j as (Q & HQ & HC); [|done|].
  - exists P. split; [done|constructor].
  - exists Q. split; [done|]. rewrite (mul_left _ e e). by apply (comb_affine P P).
Qed.

Context (Hav : le a <= 2 ^ 253) (Hbv : le b <= 2 ^ 253).

Lemma G_dsm2 Ai Bi e f : Gc_table Ai e -> Gc_table Bi f ->
  G2 (ge_double_scalarmult_precomp_vartime2 a Ai b Bi) (plus (int_mul (le a) e) (int_mul (le b) f)).
Proof using Ha Hb Hav Hbv.
  intros HA HB. apply (R2_G2 (repr e) (repr f) e f (affine_repr e) (affine_repr f)).
  apply dsm_vartime2_ok; [done..| |]; intros j Hj;
    apply (Gc_Rc _ _ e f (affine_repr e) (affine_repr f)).
  - rewrite <- mul_left. by apply HA.
  - rewrite <- mul_right. by apply HB.
Qed.

Lemma G_dsm h Bi e f : G3 h e -> Gc_table Bi f ->
  G2 (ge_double_scalarmult_precomp_vartime a h b Bi) (plus (int_mul (le a) e) (int_mul (le b) f)).
Proof using Ha Hb Hav Hbv. intros HA HB. by apply G_dsm2; [apply G_dsm_precomp|]. Qed.

Lemma G_dsm_base h Bi e f : G3 h e -> Gp_table Bi f ->
  G2 (ge_double_scalarmult_base_vartime Bi a h b) (plus (int_mul (le a) e) (int_mul (le b) f)).
Proof using Ha Hb Hav Hbv.
  intros (P & HP & HE) HB. apply (R2_G2 P (repr f) e f HE (affine_repr f)).
  apply dsm_base_ok; [done..|exists P; split; [done|constructor]|]. intros j Hj.
  apply (Gp_Rp _ _ e f HE (affine_repr f)). rewrite <- mul_right. by apply HB.
Qed.

(** The [_p3] variants: the same point, or nothing when both scalars are 0. *)
Definition G_opt (r : option ge_p3) (e : epoint) : Prop :=
  match r with Some h => G3 h e | None => le a = 0 /\ le b = 0 end.

Lemma G_dsm2_p3 Ai Bi e f : Gc_table Ai e -> Gc_table Bi f ->
  G_opt (ge_double_scalarmult_precomp_vartime2_p3 a Ai b Bi)
    (plus (int_mul (le a) e) (int_mul (le b) f)).
Proof using Ha Hb Hav Hbv.
  intros HA HB. unfold ge_double_scalarmult_precomp_vartime2_p3.
  pose proof (dsm_p3_value (repr e) (repr f) a b Ha Hb Hav Hbv
    (fun r d => dsm_add Bi (dsm_add Ai (ge_p2_dbl r) d.1) d.2)) as H.
  destruct (dsm_p3 _ _); cbn [G_opt]; [apply (R3_G3 _ _ e f (affine_repr e) (affine_repr f))|];
    apply H; apply cached_step; intros j Hj;
    apply (Gc_Rc _ _ e f (affine_repr e) (affine_repr f));
    first [rewrite <- mul_left; by apply HA|rewrite <- mul_right; by apply HB].
Qed.

Lemma G_dsm_base_p3 h Bi e f : G3 h e -> Gp_table Bi f ->
  G_opt (ge_double_scalarmult_base_vartime_p3 Bi a h b) (plus (int_mul (le a) e) (int_mul (le b) f)).
Proof using Ha Hb Hav Hbv.
  intros HA HB. unfold ge_double_scalarmult_base_vartime_p3.
  pose proof (G_dsm_precomp h e HA) as HT.
  pose proof (dsm_p3_value (repr e) (repr f) a b Ha Hb Hav Hbv
    (fun r d => dsm_madd Bi (dsm_add (ge_dsm_precomp h) (ge_p2_dbl r) d.1) d.2)) as H.
  destruct (dsm_p3 _ _); cbn [G_opt]; [apply (R3_G3 _ _ e f (affine_repr e) (affine_repr f))|];
    apply H; apply precomp_step; intros j Hj;
    first [apply (Gc_Rc _ _ e f (affine_repr e) (affine_repr f)); rewrite <- mul_left; by apply HT
          |apply (Gp_Rp _ _ e f (affine_repr e) (affine_repr f)); rewrite <- mul_right; by apply HB].
Qed.
End Mult.

(** ** Fixed base *)

Definition Gp_base (tab : list (list ge_precomp)) (e : epoint) : Prop :=
  forall i j, (i < 32)%nat -> (j < 8)%nat ->
    Gp ((tab !!! i) !!! j) (int_mul (Z.of_nat (S j) * 256 ^ Z.of_nat i) e).

Lemma G_scalarmult_base tab a e : Gp_base tab e -> is_b32 a -> le a < 2 ^ 255 ->
  G3 (ge_scalarmult_base tab a) (int_mul (le a) e).
Proof.
  intros HT Ha Hv. rewrite (mul_right _ ezero e), Z.mul_0_r, Z.mul_1_r.
  apply (R3_G3 (repr ezero) (repr e) ezero e (affine_repr _) (affine_repr _)).
  apply scalarmult_base_value; [|done..]. intros i j Hi Hj.
  apply (Gp_Rp _ _ ezero e (affine_repr _) (affine_repr _)).
  replace (plus _ _) with (int_mul (Z.of_nat (S j) * 256 ^ Z.of_nat i) e); [by apply HT|].
  by rewrite int_mul_0, plus_neutral.
Qed.

(** ** Claims *)

Lemma B_ok : point_ok Bx By = true.
Proof. vm_compute. reflexivity. Qed.

(** The base point as a group element, and a structure that represents it. *)
Definition eB : epoint := mkpoint Bx By B_ok.

Definition scalar (n : Z) : bytes := le_bytes 32 n.

Lemma scalar_b32 n : is_b32 (scalar n).
Proof. split; [apply le_bytes_is_bytes|apply length_le_bytes]. Qed.

Lemma G3_0 : G3 ge_p3_0 ezero.
Proof. exists Ed.zero. split; [exact ge_p3_0_ok|exact affine_zero]. Qed.
Lemma G2_0 : G2 ge_p2_0 ezero.
Proof. exists Ed.zero. split; [exact ge_p2_0_ok|exact affine_zero]. Qed.
Lemma Gc_0 : Gc ge_cached_0 ezero.
Proof. exists Ed.zero. split; [exact ge_cached_0_ok|exact affine_zero]. Qed.
Lemma Gp_0 : Gp ge_precomp_0 ezero.
Proof. exists Ed.zero. split; [exact ge_precomp_0_ok|exact affine_zero]. Qed.

(** C24: the points of the curve form an abelian group under the addition law,
    and the point functions refine it: on any operands, the neutral element
    and equal or opposite points included, [ge_add], [ge_sub], [ge_madd] and
    [ge_msub] represent the sum and the difference, [ge_p2_dbl] and
    [ge_p3_dbl] the double, [ge_mul8] eight times the point, and the
    conversions the same point. *)
Theorem ge_operations_refine_group p q r s e f : G3 p e -> G2 q e -> Gc r f -> Gp s f ->
  G1 (ge_add p r) (plus e f) /\ G1 (ge_sub p r) (plus e (opp f)) /\
  G1 (ge_madd p s) (plus e f) /\ G1 (ge_msub p s) (plus e (opp f)) /\
  G1 (ge_p2_dbl q) (plus e e) /\ G1 (ge_p3_dbl p) (plus e e) /\
  G1 (ge_mul8 q) (int_mul 8 e) /\ G2 (ge_p3_to_p2 p) e /\ Gc (ge_p3_to_cached p) e /\
  (forall t g, G1 t g -> G2 (ge_p1p1_to_p2 t) g /\ G3 (ge_p1p1_to_p3 t) g).
Proof.
  intros (P & HP & HE) (Q & HQ & HE') (R & HR & HF) (S & HS & HF').
  split_and!.
  - exists (Ed.add P R). split; [by apply ge_add_ok|by apply affine_add].
  - exists (Ed.add P (Ed.neg R)). split; [by apply ge_sub_ok|by apply affine_add, affine_neg].
  - exists (Ed.add P S). split; [by apply ge_madd_ok|by apply affine_add].
  - exists (Ed.add P (Ed.neg S)). split; [by apply ge_msub_ok|by apply affine_add, affine_neg].
  - exists (Ed.dbl Q). split; [by apply ge_p2_dbl_ok|by apply affine_dbl].
  - exists (Ed.dbl P). split; [by apply ge_p3_dbl_ok|by apply affine_dbl].
  - exists (Ed.dbl (Ed.dbl (Ed.dbl Q))). split; [by apply ge_mul8_ok|].
    change 8 with ((1 + 1) + (1 + 1) + ((1 + 1) + (1 + 1))). rewrite !int_mul_add, int_mul_1.
    by repeat apply affine_dbl.
  - exists P. split; [by apply ge_p3_to_p2_ok|done].
  - exists P. split; [by apply ge_p3_to_cached_ok|done].
  - intros t g (T & HT & HG). split; exists T; split; [by apply ge_p1p1_to_p2_ok|done|by apply ge_p1p1_to_p3_ok|done].
Qed.

(** On the base point, decoded from its encoding. *)
Lemma ge_operations_refine_group_witness : exists h, ge_frombytes_vartime (encode_point eB) = Some h /\
  G1 (ge_add h ge_cached_0) (plus eB ezero) /\ G1 (ge_p3_dbl h) (plus eB eB) /\ G1 (ge_mul8 (ge_p3_to_p2 h)) (int_mul 8 eB).
Proof.
  destruct (decode_encode_point eB) as (h & Eh & Hh). exists h. split; [exact Eh|].
  assert (H2 : G2 (ge_p3_to_p2 h) eB) by (destruct Hh as (P & HP & HE); exists P; split; [by apply ge_p3_to_p2_ok|exact HE]).
  destruct (ge_operations_refine_group h (ge_p3_to_p2 h) ge_cached_0 ge_precomp_0 eB ezero Hh H2 Gc_0 Gp_0) as (A & _ & _ & _ & _ & D & E & _).
  split; [exact A|]. split; [exact D|exact E].
Defined.

(** C9: [ge_scalarmult] and [ge_scalarmult_p3] compute the multiple of the
    point by the 255-bit scalar: signed radix-16 digits, table look-ups by
    conditional moves and 64 rounds of four doublings and an addition. *)
Theorem ge_scalarmult_correct a h e : is_b32 a -> le a < 2 ^ 255 -> G3 h e ->
  G2 (ge_scalarmult a h) (int_mul (le a) e) /\ G3 (ge_scalarmult_p3 a h) (int_mul (le a) e).
Proof. intros. by apply G_scalarmult. Qed.

Lemma ge_scalarmult_correct_witness : exists h,
  ge_frombytes_vartime (encode_point eB) = Some h /\
  G2 (ge_scalarmult (scalar 1000) h) (int_mul (le (scalar 1000)) eB).
Proof.
  destruct (decode_encode_point eB) as (h & Eh & Hh). exists h. split; [exact Eh|].
  refine (proj1 (ge_scalarmult_correct (scalar 1000) h eB _ _ Hh)); [apply scalar_b32|].
  vm_compute. reflexivity.
Defined.

(** On encoded points: decoding a 32-byte string, multiplying by a scalar
    and encoding the result gives the encoding of that multiple of the
    point the string encodes. *)
Theorem ge_scalarmult_bytes s h a : is_b32 s -> ge_frombytes_vartime s = Some h ->
  is_b32 a -> le a < 2 ^ 255 ->
  exists e, s = encode_point e /\
    ge_tobytes (ge_scalarmult a h) = encode_point (int_mul (le a) e) /\
    ge_p3_tobytes (ge_scalarmult_p3 a h) = encode_point (int_mul (le a) e).
Proof.
  intros Hs Hd Ha Hv. destruct (decode_point s h Hs Hd) as (e & He & Hh).
  destruct (G_scalarmult a Ha h e Hv Hh) as [H2 H3].
  exists e. split_and!; [done|by apply G2_tobytes|by apply G3_tobytes].
Qed.

Lemma ge_scalarmult_bytes_witness : exists h, ge_frombytes_vartime (encode_point eB) = Some h /\
  exists e, encode_point eB = encode_point e /\
    ge_tobytes (ge_scalarmult (scalar 77) h) = encode_point (int_mul (le (scalar 77)) e) /\
    ge_p3_tobytes (ge_scalarmult_p3 (scalar 77) h) = encode_point (int_mul (le (scalar 77)) e).
Proof.
  destruct (decode_encode_point eB) as (h & Eh & _). exists h. split; [exact Eh|].
  refine (ge_scalarmult_bytes (encode_point eB) h (scalar 77) _ Eh _ _);
    [apply encode_b32|apply scalar_b32|vm_compute; reflexivity].
Defined.

(** [ge_double_scalarmult_precomp_vartime] computes [a A + b B] for
    scalars up to 2^253, with the sliding-window digits of both scalars and
    the precomputed odd multiples of both points. *)
Theorem ge_double_scalarmult_correct a b h k e f : is_b32 a -> is_b32 b ->
  le a <= 2 ^ 253 -> le b <= 2 ^ 253 -> G3 h e -> G3 k f ->
  G2 (ge_double_scalarmult_precomp_vartime a h b (ge_dsm_precomp k))
    (plus (int_mul (le a) e) (int_mul (le b) f)).
Proof.
  intros. apply G_dsm; try done. by apply G_dsm_precomp.
Qed.

Lemma ge_double_scalarmult_correct_witness :
  G2 (ge_double_scalarmult_precomp_vartime (scalar 5) ge_p3_0 (scalar 7) (ge_dsm_precomp ge_p3_0))
    (plus (int_mul (le (scalar 5)) ezero) (int_mul (le (scalar 7)) ezero)).
Proof.
  refine (ge_double_scalarmult_correct (scalar 5) (scalar 7) ge_p3_0 ge_p3_0 ezero ezero
    (scalar_b32 5) (scalar_b32 7) _ _ G3_0 G3_0); vm_compute; discriminate.
Defined.

Lemma slide_zero_digits a : is_b32 a -> le a = 0 -> a = replicate 32 0.
Proof.
  intros [Hb Hl] Hv. apply le_inj; [done|by repeat constructor|done|]. rewrite Hv. reflexivity.
Qed.

Lemma dsm_digits_zero : dsm_digits (replicate 32 0) (replicate 32 0) = [].
Proof. vm_compute. reflexivity. Qed.

Lemma G_opt_cases a b r e : G_opt a b r e ->
  (forall h, r = Some h -> G3 h e) /\ (r = None -> le a = 0 /\ le b = 0).
Proof. destruct r as [h|]; cbn [G_opt]; intros H; split; [by intros ? [= <-]|done|done|done]. Qed.

(** [ge_double_scalarmult_precomp_vartime2_p3] stores [a A + b B], except
    when both scalars are zero: then its loop body never runs and the output
    structure is left unwritten. *)
Theorem dsm_p3_unwritten a b h k e f (Ai := ge_dsm_precomp h) (Bi := ge_dsm_precomp k) :
  is_b32 a -> is_b32 b -> le a <= 2 ^ 253 -> le b <= 2 ^ 253 -> G3 h e -> G3 k f ->
  (forall r, ge_double_scalarmult_precomp_vartime2_p3 a Ai b Bi = Some r ->
     G3 r (plus (int_mul (le a) e) (int_mul (le b) f))) /\
  (ge_double_scalarmult_precomp_vartime2_p3 a Ai b Bi = None <-> le a = 0 /\ le b = 0).
Proof.
  intros Ha Hb Hav Hbv He Hf.
  destruct (G_opt_cases _ _ _ _ (G_dsm2_p3 a b Ha Hb Hav Hbv _ _ e f
    (G_dsm_precomp h e He) (G_dsm_precomp k f Hf))) as [HS HN].
  split; [exact HS|]. split; [exact HN|]. intros [Ea Eb].
  rewrite (slide_zero_digits a Ha Ea), (slide_zero_digits b Hb Eb).
  unfold ge_double_scalarmult_precomp_vartime2_p3. by rewrite dsm_digits_zero.
Qed.

Lemma dsm_p3_unwritten_witness :
  ge_double_scalarmult_precomp_vartime2_p3 (scalar 0) (ge_dsm_precomp ge_p3_0)
    (scalar 0) (ge_dsm_precomp ge_p3_0) = None.
Proof.
  refine (proj2 (proj2 (dsm_p3_unwritten (scalar 0) (scalar 0) ge_p3_0 ge_p3_0 ezero ezero
    (scalar_b32 0) (scalar_b32 0) _ _ G3_0 G3_0)) _); vm_compute;
    [discriminate|discriminate|by split].
Defined.

(** The digits of [slide] are zero or odd of absolute value at most 15
    and their binary value is the scalar, for scalars up to 2^253. *)
Theorem slide_digits a : is_b32 a -> le a <= 2 ^ 253 ->
  val2 (slide a) = le a /\ Forall window_digit (slide a) /\ length (slide a) = 256%nat.
Proof. apply slide_ok. Qed.

Lemma slide_digits_witness : val2 (slide (scalar (2 ^ 253 - 1))) = le (scalar (2 ^ 253 - 1)).
Proof.
  refine (proj1 (slide_digits (scalar (2 ^ 253 - 1)) (scalar_b32 _) _)). vm_compute. discriminate.
Defined.
