(* ===== verification/GeDataProofs.v ===== *)
(** * The tables hold the multiples of the base point

    Every entry is checked against its neighbours: a row is built by adding
    its first entry, and eight doublings lead from one row to the next.  The
    checks are evaluated on [bigZ]. *)

From Bignums Require Import BigZ.
From S2P Require Import Prelude CInt BitField Fe FeProofs FeField Ge GeProofs EdAssoc EdGroup GeMult GeMultProofs GeCodec GeSpec GeData.

(** ** Field values on [bigZ] *)

Definition bP : bigZ := BigZ.of_Z p25519.
Definition bd : bigZ := BigZ.of_Z d.
Definition red (x : bigZ) : bigZ := (x mod bP)%bigZ.
Definition eqp (u v : bigZ) : bool := BigZ.eqb (red (u - v)) 0%bigZ.

Lemma bP_spec : BigZ.to_Z bP = p25519.
Proof. apply BigZ.spec_of_Z. Qed.

Lemma red_spec x : BigZ.to_Z (red x) == BigZ.to_Z x.
Proof. unfold red. rewrite BigZ.spec_modulo, bP_spec. apply eqmod_mod. Qed.

Lemma eqp_spec u v : eqp u v = true -> BigZ.to_Z u == BigZ.to_Z v.
Proof.
  unfold eqp, red. rewrite BigZ.spec_eqb, BigZ.spec_modulo, bP_spec, BigZ.spec_sub, Z.eqb_eq.
  intros H. apply eqmod_sub_0. exact H.
Qed.

#[local] Instance fbnd_dec k h : Decision (fbnd k h).
Proof. unfold fbnd, within. apply _. Defined.

(** Twice the coordinates of an entry, and its third field. *)
Definition b2x (r : ge_precomp) : bigZ := BigZ.of_Z (fval (Pre.yplusx r) - fval (Pre.yminusx r)).
Definition b2y (r : ge_precomp) : bigZ := BigZ.of_Z (fval (Pre.yplusx r) + fval (Pre.yminusx r)).
Definition b2d (r : ge_precomp) : bigZ := BigZ.of_Z (fval (Pre.xy2d r)).

Definition bounds_ok (r : ge_precomp) : bool :=
  bool_decide (fbnd 110 (Pre.yplusx r)) && bool_decide (fbnd 110 (Pre.yminusx r))
  && bool_decide (fbnd 110 (Pre.xy2d r)).

(** [t] is the sum of [r] and [s]. *)
Definition check_sum (r s t : ge_precomp) : bool :=
  let k := red (b2d r * red (b2x s * b2y s)) in
  bounds_ok t
  && eqp (b2x t * (8 + k)) (4 * (b2x r * b2y s + b2y r * b2x s))
  && eqp (b2y t * (8 - k)) (4 * (b2y r * b2y s + b2x r * b2x s))
  && eqp (2 * b2d t) (bd * red (b2x t * b2y t)).

(** ** Entries and group elements *)

Lemma Gp_values r e : Gp r e ->
  fval (Pre.yplusx r) == ey e + ex e /\ fval (Pre.yminusx r) == ey e - ex e /\
  fval (Pre.xy2d r) == 2 * d * (ex e * ey e).
Proof.
  intros (P & (_ & _ & _ & HZ & Hp & Hm & Hd) & [_ HX HY HT]).
  rewrite HZ, ?Z.mul_1_r in HX, HY, HT. rewrite Hp, Hm, Hd, HX, HY, HT. done.
Qed.

Lemma Gp_intro r e : bounds_ok r = true ->
  fval (Pre.yplusx r) == ey e + ex e -> fval (Pre.yminusx r) == ey e - ex e ->
  fval (Pre.xy2d r) == 2 * d * (ex e * ey e) -> Gp r e.
Proof.
  unfold bounds_ok. rewrite !andb_true_iff, !bool_decide_eq_true.
  intros [[? ?] ?] ???. exists (repr e). split; [|apply affine_repr]. by split_and!.
Qed.

Lemma eight_nonzero : 8 != 0.
Proof. neq_tac. Qed.

(** An entry with twice the coordinates of [e] represents [e]. *)
Lemma Gp_doubled t e : bounds_ok t = true ->
  BigZ.to_Z (b2x t) == 2 * ex e -> BigZ.to_Z (b2y t) == 2 * ey e ->
  2 * BigZ.to_Z (b2d t) == d * (BigZ.to_Z (b2x t) * BigZ.to_Z (b2y t)) -> Gp t e.
Proof.
  intros Hb HX HY HT. rewrite HX, HY in HT. unfold b2x, b2y, b2d in *.
  rewrite BigZ.spec_of_Z in HX, HY, HT.
  apply Gp_intro; [done|..]; apply (mul_cancel 2 _ _ two_nonzero).
  - apply (lin_comb2 1 1 _ _ _ _ _ _ HX HY). ring.
  - apply (lin_comb2 (-1) 1 _ _ _ _ _ _ HX HY). ring.
  - rewrite HT. apply eq_eqmod. ring.
Qed.

Lemma Gp_b2 r e : Gp r e ->
  BigZ.to_Z (b2x r) == 2 * ex e /\ BigZ.to_Z (b2y r) == 2 * ey e /\
  BigZ.to_Z (b2d r) == 2 * d * (ex e * ey e).
Proof.
  intros (Hp & Hm & Hd)%Gp_values. unfold b2x, b2y, b2d. rewrite !BigZ.spec_of_Z, Hp, Hm, Hd.
  split_and!; apply eq_eqmod; ring.
Qed.

Ltac bspec := repeat first [rewrite BigZ.spec_add|rewrite BigZ.spec_sub|rewrite BigZ.spec_mul
  |rewrite red_spec].

Lemma check_sum_ok r s t e f : Gp r e -> Gp s f -> check_sum r s t = true -> Gp t (plus e f).
Proof.
  intros (X1 & Y1 & D1)%Gp_b2 (X2 & Y2 & _)%Gp_b2 H. unfold check_sum in H. cbv zeta in H.
  rewrite !andb_true_iff in H. destruct H as [[[Hb Hx] Hy] Ht].
  apply eqp_spec in Hx, Hy, Ht.
  revert Hx Hy Ht. bspec. change (BigZ.to_Z 8%bigZ) with 8. change (BigZ.to_Z 4%bigZ) with 4.
  change (BigZ.to_Z 2%bigZ) with 2.
  change (BigZ.to_Z bd) with (BigZ.to_Z (BigZ.of_Z d)). rewrite BigZ.spec_of_Z.
  intros Hx Hy Ht.
  rewrite X1, Y1, D1, X2, Y2 in Hx, Hy.
  pose proof (epoint_on_curve e) as He. pose proof (epoint_on_curve f) as Hf.
  destruct (eadd_asum e f) as [Sx Sy]. cbn [plus epoint_group].
  set (k := dk d (ex e) (ey e) (ex f) (ey f)) in *.
  apply Gp_doubled; [done| | |exact Ht].
  - apply (mul_cancel (8 * (1 + k))); [by apply mul_nonzero, den_plus; [exact eight_nonzero|..]|].
    transitivity (BigZ.to_Z (b2x t) * (8 + 2 * d * (ex e * ey e) * (2 * ex f * (2 * ey f))));
      [apply eq_eqmod; unfold k, dk; ring|]. rewrite Hx.
    apply (lin_comb1 (-16) _ _ _ _ Sx). unfold sx. ring.
  - apply (mul_cancel (8 * (1 - k))); [by apply mul_nonzero, den_minus; [exact eight_nonzero|..]|].
    transitivity (BigZ.to_Z (b2y t) * (8 - 2 * d * (ex e * ey e) * (2 * ex f * (2 * ey f))));
      [apply eq_eqmod; unfold k, dk; ring|]. rewrite Hy.
    apply (lin_comb1 (-16) _ _ _ _ Sy). unfold sy. ring.
Qed.

(** ** Five doublings *)

Definition bdbl (q : bigZ * bigZ * bigZ) : bigZ * bigZ * bigZ :=
  let '(X, Y, Z) := q in
  let A := red (X * X) in
  let B := red (Y * Y) in
  let E := (2 * red (X * Y))%bigZ in
  let H := (B + A)%bigZ in
  let G := (B - A)%bigZ in
  let F := (2 * red (Z * Z) - G)%bigZ in
  (red (E * F), red (H * G), red (G * F)).

(** The triple is projective coordinates of [e]. *)
Definition baffine (q : bigZ * bigZ * bigZ) (e : epoint) : Prop :=
  let '(X, Y, Z) := q in
  exists T, affine (Ed.mk (BigZ.to_Z X) (BigZ.to_Z Y) (BigZ.to_Z Z) T) e.

Lemma affine_eqpt P Q e : Ed.eqpt P Q -> affine P e -> affine Q e.
Proof.
  intros (EX & EY & EZ & ET) [HZ HX HY HT]. split; by rewrite <- ?EZ, <- ?EX, <- ?EY, <- ?ET.
Qed.

Lemma bdbl_ok q m e : baffine q (int_mul m e) -> baffine (bdbl q) (int_mul (m + m) e).
Proof.
  rewrite int_mul_add. destruct q as [[X Y] Z]. intros [T HT]. apply affine_dbl in HT.
  exists (Ed.pT (Ed.dbl (Ed.mk (BigZ.to_Z X) (BigZ.to_Z Y) (BigZ.to_Z Z) T))).
  eapply affine_eqpt; [|exact HT]. unfold Ed.dbl, Ed.finish. cbn [Ed.pX Ed.pY Ed.pZ Ed.pT].
  split_and!; cbn [Ed.pX Ed.pY Ed.pZ Ed.pT]; [..|done]; bspec;
    change (BigZ.to_Z 2%bigZ) with 2; apply eq_eqmod; ring.
Qed.

(** [t] is 32 times [r]. *)
Definition check_shift (r t : ge_precomp) : bool :=
  let '(X, Y, Z) := bdbl (bdbl (bdbl (bdbl (bdbl (b2x r, b2y r, 2%bigZ))))) in
  bounds_ok t && eqp (2 * X) (b2x t * Z) && eqp (2 * Y) (b2y t * Z)
  && eqp (2 * b2d t) (bd * red (b2x t * b2y t)).

Lemma check_shift_ok r t e : Gp r e -> check_shift r t = true -> Gp t (int_mul 32 e).
Proof.
  intros (X1 & Y1 & _)%Gp_b2 H.
  assert (Hr : baffine (b2x r, b2y r, 2%bigZ) e).
  { exists (2 * (ex e * ey e)). change (BigZ.to_Z 2%bigZ) with 2.
    split; cbn [Ed.pX Ed.pY Ed.pZ Ed.pT]; [exact two_nonzero|rewrite X1|rewrite Y1|];
      apply eq_eqmod; ring. }
  rewrite <- (int_mul_1 e) in Hr. do 5 apply bdbl_ok in Hr. 
  match type of Hr with baffine _ (int_mul ?m e) => change m with 32 in Hr end.
  revert Hr. generalize (int_mul 32 e).
  intros f Hf. unfold check_shift in H.
  destruct (bdbl (bdbl (bdbl (bdbl (bdbl (b2x r, b2y r, 2%bigZ)))))) as [[X Y] Z].
  destruct Hf as [T [HZ HX HY _]]. cbn [Ed.pX Ed.pY Ed.pZ Ed.pT] in *.
  rewrite !andb_true_iff in H. destruct H as [[[Hb Hx] Hy] Ht].
  apply eqp_spec in Hx, Hy, Ht.
  revert Hx Hy Ht. bspec. change (BigZ.to_Z 2%bigZ) with 2.
  change (BigZ.to_Z bd) with (BigZ.to_Z (BigZ.of_Z d)). rewrite BigZ.spec_of_Z.
  rewrite HX, HY. intros Hx Hy Ht. apply Gp_doubled; [done| | |exact Ht];
    apply (mul_cancel _ _ _ HZ).
  - transitivity (BigZ.to_Z (b2x t) * BigZ.to_Z Z); [apply eq_eqmod; ring|]. rewrite <- Hx.
    apply eq_eqmod. ring.
  - transitivity (BigZ.to_Z (b2y t) * BigZ.to_Z Z); [apply eq_eqmod; ring|]. rewrite <- Hy.
    apply eq_eqmod. ring.
Qed.

(** ** The tables *)

Abbreviation entry l i := (nth i l ge_precomp_0).

Definition check_row (row : list ge_precomp) : bool :=
  (length row =? 8)%nat &&
  forallb (fun j => check_sum (entry row j) (entry row 0) (entry row (S j))) (seq 0 7).

Fixpoint check_rows (row : list ge_precomp) (rows : list (list ge_precomp)) : bool :=
  check_row row &&
  match rows with
  | [] => true
  | next :: rows => check_shift (entry row 7) (entry next 0) && check_rows next rows
  end.

Lemma check_row_ok row e : Gp (entry row 0) e -> check_row row = true ->
  forall j, (j < 8)%nat -> Gp (entry row j) (int_mul (Z.of_nat (S j)) e).
Proof.
  intros H0 H. unfold check_row in H. rewrite andb_true_iff, forallb_forall in H. destruct H as [_ H].
  induction j as [|j IH]; intros Hj; [by rewrite int_mul_1|].
  rewrite Nat2Z.inj_succ, <- Z.add_1_r, int_mul_add, int_mul_1.
  apply (check_sum_ok (entry row j) (entry row 0)); [apply IH; lia|done|]. apply H, in_seq. lia.
Qed.

Lemma check_rows_ok rows row e : Gp (entry row 0) e -> check_rows row rows = true ->
  forall i j, (i < S (length rows))%nat -> (j < 8)%nat ->
    Gp (entry (nth i (row :: rows) []) j) (int_mul (Z.of_nat (S j) * 256 ^ Z.of_nat i) e).
Proof.
  revert row e. induction rows as [|next rows IH]; intros row e H0 H i j Hi Hj;
    cbn [check_rows] in H; apply andb_true_iff in H as [Hr H].
  - destruct i; [|cbn in Hi; lia]. rewrite Z.mul_1_r. by apply check_row_ok.
  - apply andb_true_iff in H as [Hs H]. destruct i as [|i].
    + rewrite Z.mul_1_r. by apply check_row_ok.
    + cbn [nth]. rewrite (Nat2Z.inj_succ i), Z.pow_succ_r, (Z.mul_comm 256), Z.mul_assoc, int_mul_mul by lia.
      apply IH; [|done|cbn in Hi; lia|done].
      change 256 with (32 * Z.of_nat 8). rewrite int_mul_mul.
      apply (check_shift_ok (entry row 7)); [|done]. apply check_row_ok; [done|done|lia].
Qed.

Lemma base_entry_ok : Gp (entry ge_base_0 0) eB.
Proof. apply Gp_intro; vm_compute; reflexivity. Qed.

Lemma ge_base_checked : check_rows (hd [] ge_base) (tl ge_base) = true.
Proof. vm_compute. reflexivity. Qed.

Lemma lookup_nth {A} `{Inhabited A} (l : list A) i x : (i < length l)%nat -> l !!! i = nth i l x.
Proof.
  intros Hi. destruct (nth_lookup_or_length l i x) as [E|]; [by apply list_lookup_total_correct|lia].
Qed.

Lemma check_row_length row : check_row row = true -> length row = 8%nat.
Proof. intros [H _]%andb_true_iff. by apply Nat.eqb_eq in H. Qed.

Lemma check_rows_length rows row : check_rows row rows = true ->
  Forall (fun r => length r = 8%nat) (row :: rows).
Proof.
  revert row. induction rows as [|next rows IH]; intros row H; cbn [check_rows] in H;
    apply andb_true_iff in H as [Hr H]; constructor; try by apply check_row_length.
  - apply Forall_nil_2.
  - apply andb_true_iff in H as [_ H]. by apply IH.
Qed.

Lemma ge_base_ok : Gp_base ge_base eB.
Proof.
  intros i j Hi Hj. change ge_base with (hd [] ge_base :: tl ge_base).
  pose proof (check_rows_length _ _ ge_base_checked) as Hl.
  rewrite (lookup_nth _ i []) by done.
  rewrite (lookup_nth _ j ge_precomp_0); [by apply check_rows_ok; [exact base_entry_ok|exact ge_base_checked|..]|].
  rewrite list.Forall_forall in Hl. rewrite Hl; [done|].
  apply list_elem_of_In, nth_In. exact Hi.
Qed.

(** Consecutive odd multiples differ by [2 B], the second entry of [ge_base]. *)
Definition check_odd : bool :=
  forallb (fun j => check_sum (entry ge_Bi j) (entry ge_base_0 1) (entry ge_Bi (S j))) (seq 0 7).

Lemma ge_Bi_checked : check_odd = true.
Proof. vm_compute. reflexivity. Qed.

Lemma ge_Bi_ok : Gp_table ge_Bi eB.
Proof.
  pose proof ge_Bi_checked as H. unfold check_odd in H. rewrite forallb_forall in H.
  assert (H2 : Gp (entry ge_base_0 1) (int_mul 2 eB)).
  { pose proof (ge_base_ok 0%nat 1%nat ltac:(lia) ltac:(lia)) as H2. exact H2. }
  intros j Hj. rewrite (lookup_nth _ j ge_precomp_0) by exact Hj. revert Hj.
  induction j as [|j IH]; intros Hj; [rewrite int_mul_1; exact base_entry_ok|].
  replace (2 * Z.of_nat (S j) + 1) with (2 * Z.of_nat j + 1 + 2) by lia. rewrite int_mul_add.
  apply (check_sum_ok (entry ge_Bi j) (entry ge_base_0 1)); [apply IH; lia|done|].
  apply H, in_seq. lia.
Qed.

(** ** Claims *)

(** The tables of crypto-ops-data.c are what their comments say:
    [ge_base[i][j]] is (j + 1) 256^i times the base point, for all 256
    entries, and [ge_Bi[j]] is 2 j + 1 times the base point, with limbs
    within the bounds the point additions assume. *)
Theorem ge_tables_correct : Gp_base ge_base eB /\ Gp_table ge_Bi eB.
Proof. split; [exact ge_base_ok|exact ge_Bi_ok]. Qed.

(** C8: [ge_scalarmult_base] computes the multiple of the base point by a
    255-bit scalar, and [ge_p3_tobytes] of it is the canonical encoding of
    that point. *)
Theorem ge_scalarmult_base_correct a : is_b32 a -> le a < 2 ^ 255 ->
  G3 (ge_scalarmult_base ge_base a) (int_mul (le a) eB) /\
  ge_p3_tobytes (ge_scalarmult_base ge_base a) = encode_point (int_mul (le a) eB).
Proof.
  intros Ha Hv. pose proof (G_scalarmult_base ge_base a eB ge_base_ok Ha Hv) as H.
  split; [exact H|by apply G3_tobytes].
Qed.

Lemma ge_scalarmult_base_correct_witness :
  ge_p3_tobytes (ge_scalarmult_base ge_base (scalar 12345)) = encode_point (int_mul (le (scalar 12345)) eB).
Proof.
  refine (proj2 (ge_scalarmult_base_correct (scalar 12345) (scalar_b32 _) _)).
  vm_compute. reflexivity.
Defined.

(** [ge_double_scalarmult_base_vartime] and its [_p3] variant compute
    [a A + b B] with [B] the base point, for scalars up to 2^253; the variant
    writes no result when both scalars are zero. *)
Theorem ge_double_scalarmult_base_correct a b h e : is_b32 a -> is_b32 b ->
  le a <= 2 ^ 253 -> le b <= 2 ^ 253 -> G3 h e ->
  G2 (ge_double_scalarmult_base_vartime ge_Bi a h b) (plus (int_mul (le a) e) (int_mul (le b) eB)) /\
  (forall r, ge_double_scalarmult_base_vartime_p3 ge_Bi a h b = Some r ->
     G3 r (plus (int_mul (le a) e) (int_mul (le b) eB))) /\
  (ge_double_scalarmult_base_vartime_p3 ge_Bi a h b = None <-> le a = 0 /\ le b = 0).
Proof.
  intros Ha Hb Hav Hbv He. split; [by apply G_dsm_base; [..|exact ge_Bi_ok]|].
  destruct (G_opt_cases _ _ _ _ (G_dsm_base_p3 a b Ha Hb Hav Hbv h ge_Bi e eB He ge_Bi_ok)) as [HS HN].
  split; [exact HS|]. split; [exact HN|]. intros [Ea Eb].
  rewrite (slide_zero_digits a Ha Ea), (slide_zero_digits b Hb Eb).
  unfold ge_double_scalarmult_base_vartime_p3. by rewrite dsm_digits_zero.
Qed.

Lemma ge_double_scalarmult_base_correct_witness :
  G2 (ge_double_scalarmult_base_vartime ge_Bi (scalar 3) ge_p3_0 (scalar 4))
    (plus (int_mul (le (scalar 3)) ezero) (int_mul (le (scalar 4)) eB)).
Proof.
  refine (proj1 (ge_double_scalarmult_base_correct (scalar 3) (scalar 4) ge_p3_0 ezero
    (scalar_b32 3) (scalar_b32 4) _ _ G3_0)); vm_compute; discriminate.
Defined.
