(* ===== verification/GeHash.v ===== *)
(** * Hashing to the curve: [ge_fromfe_frombytes_vartime]

    The function maps 32 bytes to a point of the curve by Elligator 2 with the
    non-square 2.  Its four square-root constants, its branches and its
    assertions are modelled; the theorem shows that every input passes the
    assertions and yields the point that Elligator 2 prescribes. *)

From S2P Require Import Prelude CInt BitField Fe FeProofs FeField Sc ScProofs Ge GeProofs EdAssoc EdGroup GeMult GeMultProofs GeCodec GeSpec.

(** ** Constants of crypto-ops-data.c *)

Definition fe_ma2 : list Z := [-12721188; -3529; 0; 0; 0; 0; 0; 0; 0; 0].
Definition fe_ma : list Z := [-486662; 0; 0; 0; 0; 0; 0; 0; 0; 0].
Definition fe_fffb1 : list Z :=
  [-31702527; -2466483; -26106795; -12203692; -12169197; -321052; 14850977; -10296299; -16929438; -407568].
Definition fe_fffb2 : list Z :=
  [8166131; -6741800; -17040804; 3154616; 21461005; 1466302; -30876704; -6368709; 10503587; -13363080].
Definition fe_fffb3 : list Z :=
  [-13620103; 14639558; 4532995; 7679154; 16815101; -15883539; -22863840; -14813421; 13716513; -6477756].
Definition fe_fffb4 : list Z :=
  [-21786234; -12173074; 21573800; 4524538; -4645904; 16204591; 8012863; -8444712; 3212926; 6885324].

(** ** The function *)

(** The loads differ from those of [ge_frombytes_vartime]: the top bit stays. *)
Definition fromfe_loads (s : bytes) : list Z :=
  [ load_4 s 0; load_3 s 4 .<< 6; load_3 s 7 .<< 5; load_3 s 10 .<< 3; load_3 s 13 .<< 2;
    load_4 s 16; load_3 s 20 .<< 7; load_3 s 23 .<< 5; load_3 s 26 .<< 4; load_3 s 29 .<< 2 ].

(** The code at label [negative]: the assertion is the last [None]. *)
Definition fromfe_negative (w x rX z : list Z) : option (list Z * list Z * Z) :=
  let x := fe_mul x fe_sqrtm1 in
  let y := fe_sub w x in
  if negb (fe_isnonzero y =? 0) then
    let y := fe_add w x in
    if fe_isnonzero y =? 0 then Some (fe_mul rX fe_fffb3, z, 1) else None
  else Some (fe_mul rX fe_fffb4, z, 1).

(** From the square-root candidate to label [setsign]: the coordinate [r->X],
    [z] and [sign]. *)
Definition fromfe_root (u v w x rX : list Z) : option (list Z * list Z * Z) :=
  let y := fe_sq rX in
  let x := fe_mul y x in
  let y := fe_sub w x in
  let z := fe_copy fe_ma in
  let positive rX := Some (fe_mul rX u, fe_mul z v, 0) in
  if negb (fe_isnonzero y =? 0) then
    let y := fe_add w x in
    if negb (fe_isnonzero y =? 0) then fromfe_negative w x rX z
    else positive (fe_mul rX fe_fffb1)
  else positive (fe_mul rX fe_fffb2).

(** The debugging assertion that the result is on the curve. *)
Definition fromfe_check (X Y Z : list Z) : bool :=
  let check_iz := fe_invert Z in
  let check_x := fe_mul X check_iz in
  let check_y := fe_mul Y check_iz in
  let check_x := fe_sq check_x in
  let check_y := fe_sq check_y in
  let check_v := fe_mul check_x check_y in
  let check_v := fe_mul fe_d check_v in
  let check_v := fe_add check_v check_x in
  let check_v := fe_sub check_v check_y in
  let check_x := fe_1 in
  let check_v := fe_add check_v check_x in
  fe_isnonzero check_v =? 0.

(** From label [setsign] to the end; [None] is a failed assertion. *)
Definition fromfe_setsign (w rX z : list Z) (sign : Z) : option ge_p2 :=
  rX ← (if negb (fe_isnegative rX =? sign)
        then if fe_isnonzero rX =? 0 then None else Some (fe_neg rX)
        else Some rX);
  let rZ := fe_add z w in
  let rY := fe_sub z w in
  let rX := fe_mul rX rZ in
  if fromfe_check rX rY rZ then Some (P2.mk rX rY rZ) else None.

Definition ge_fromfe_frombytes_vartime (s : bytes) : option ge_p2 :=
  let u := fe_frombytes (fromfe_loads s) in
  let v := fe_sq2 u in
  let w := fe_1 in
  let w := fe_add v w in
  let x := fe_sq w in
  let y := fe_mul fe_ma2 v in
  let x := fe_add x y in
  let rX := fe_divpowm1 w x in
  '(rX, z, sign) ← fromfe_root u v w x rX;
  fromfe_setsign w rX z sign.

(** ** The curve constant

    [mA] is the Montgomery coefficient of the curve; the comments of the data
    file name it [A]. *)
Definition mA : Z := 486662.

Lemma mA_d : (mA + 2) * d == - (mA - 2).
Proof. vm_compute. reflexivity. Qed.

Ltac const_ok := split; [|vm_compute; reflexivity]; repeat constructor; vm_compute; intuition discriminate.

Lemma fe_ma2_ok : fbnd 101 fe_ma2 /\ fval fe_ma2 == - (mA * mA).
Proof. const_ok. Qed.
Lemma fe_ma_ok : fbnd 2 fe_ma /\ fval fe_ma == - mA.
Proof. const_ok. Qed.
Lemma fe_fffb1_ok : fbnd 101 fe_fffb1 /\ fval fe_fffb1 * fval fe_fffb1 == - 2 * mA * (mA + 2).
Proof. const_ok. Qed.
Lemma fe_fffb2_ok : fbnd 101 fe_fffb2 /\ fval fe_fffb2 * fval fe_fffb2 == 2 * mA * (mA + 2).
Proof. const_ok. Qed.
Lemma fe_fffb3_ok : fbnd 101 fe_fffb3 /\ fval fe_fffb3 * fval fe_fffb3 == - im * mA * (mA + 2).
Proof. const_ok. Qed.
Lemma fe_fffb4_ok : fbnd 101 fe_fffb4 /\ fval fe_fffb4 * fval fe_fffb4 == im * mA * (mA + 2).
Proof. const_ok. Qed.

(** 2 and [A] are non-squares. *)
Ltac euler_tac :=
  apply nonsquare; replace ((p25519 - 1) / 2) with (Zpos (Z.to_pos ((p25519 - 1) / 2))) by reflexivity;
  transitivity (p25519 - 1); [apply pow_eval; [done|]|]; vm_compute; reflexivity.

Lemma two_nonsquare x : x * x != 2.
Proof. euler_tac. Qed.
Lemma mA_nonsquare x : x * x != mA.
Proof. euler_tac. Qed.

(** ** The candidate root *)

Section Candidate.
Context (m : Z) (Hp : 8 * m + 5 = p25519) (Hm : 0 <= m).

(** The candidate squares to [w/x] up to a fourth root of unity. *)
Lemma fourth_power w x (c := w ^ (m + 1) * x ^ (7 * m + 3)) (s := x * (c * c)) :
  w != 0 -> x != 0 -> s * s * (s * s) == w * w * (w * w).
Proof using Hp Hm.
  intros Hw Hx.
  assert (E : s * s * (s * s) = w * w * (w * w) * w ^ (p25519 - 1) * (x ^ (p25519 - 1)) ^ 7).
  { subst s c. replace (p25519 - 1) with (m * 8 + 4) by lia. replace (7 * m + 3) with (m * 7 + 3) by lia.
    rewrite !(Z.pow_add_r _ (m * _)), (Z.pow_add_r w m 1), !(Z.pow_mul_r _ m), Z.pow_1_r by lia.
    ring. }
  rewrite E, !fermat by done. rewrite Z.pow_1_l by done. apply eq_eqmod. ring.
Qed.
End Candidate.

Lemma fe_divpowm1_fourth (w x : list Z) (c := fval (fe_divpowm1 w x)) (s := fval x * (c * c)) :
  fbnd 330 w -> fbnd 330 x -> fval w != 0 -> fval x != 0 ->
  s == fval w \/ s == - fval w \/ s * im == fval w \/ s * im == - fval w.
Proof.
  intros Bw Bx Hw Hx. destruct (fe_divpowm1_ok w x Bw Bx) as [_ Hc].
  assert (H : (s * s) * (s * s) == (fval w * fval w) * (fval w * fval w)).
  { subst s c. rewrite Hc. by apply (fourth_power ((p25519 - 5) / 8)). }
  apply square_roots in H as [H|H]; [apply square_roots in H as [H|H]; auto|].
  do 2 right. apply square_roots. pose proof im_sq as Hi. clearbody s. revert H Hi.
  generalize im. intros i H Hi. apply (lin_comb2 (i * i) (- (fval w * fval w)) _ _ _ _ _ _ H Hi). ring.
Qed.

(** ** The branches *)

#[local] Opaque fe_mul fe_sq fe_sq2 fe_add fe_sub fe_neg fe_copy fe_divpowm1 fe_invert fe_isnonzero fe_isnegative fe_frombytes.

Definition ew (u : Z) : Z := 2 * (u * u) + 1.
Definition ex2 (u : Z) : Z := ew u * ew u - mA * mA * (2 * (u * u)).

Lemma ew_nonzero u : ew u != 0.
Proof.
  unfold ew. intros H. destruct (eqmod_dec u 0) as [H0|H0].
  { rewrite H0 in H. by apply one_nonzero. }
  apply (nonsquare_ratio 2 im u two_nonsquare H0). pose proof im_sq as Hi. revert Hi. generalize im.
  intros i Hi. apply (lin_comb2 1 (-1) _ _ _ _ _ _ Hi H). ring.
Qed.

Lemma mA_nonzero : mA != 0.
Proof. neq_tac. Qed.

Lemma ex2_nonzero u : ex2 u != 0.
Proof.
  unfold ex2. intros H. destruct (eqmod_dec u 0) as [H0|H0].
  { unfold ew in H. rewrite H0 in H. by apply one_nonzero. }
  apply (nonsquare_ratio 2 (ew u) (mA * u) two_nonsquare); [by apply mul_nonzero; [apply mA_nonzero|]|].
  apply (lin_comb1 1 _ _ _ _ H). ring.
Qed.

(** What the branches establish for the coordinate, [z] and the sign. *)
Definition fromfe_good (u : Z) (r : list Z * list Z * Z) : Prop :=
  let '(rX, z, sign) := r in
  let t := fval rX * fval rX * ex2 u in
  fbnd 101 rX /\ fbnd 101 z /\
  ((sign = 0 /\ fval z == - mA * (2 * (u * u)) /\ t == mA * (mA + 2) * (2 * (u * u)) * ew u /\
    exists k, ew u * ex2 u == k * k) \/
   (sign = 1 /\ fval z == - mA /\ t == mA * (mA + 2) * ew u)).

Lemma isnonzero_spec k f : fbnd k f -> k <= 330 ->
  (fe_isnonzero f =? 0) = true /\ fval f == 0 \/ (fe_isnonzero f =? 0) = false /\ fval f != 0.
Proof.
  intros Hf Hk. destruct (fe_isnonzero f =? 0) eqn:E; [left|right]; (split; [done|]).
  - by apply (isnonzero_0 k f).
  - intros H. by rewrite (nonzero_isnonzero k f Hf Hk H) in E.
Qed.

Ltac case_zero f := let H := fresh "Hz" in
  match goal with B : fbnd ?k f |- _ =>
    destruct (isnonzero_spec k f B ltac:(lia)) as [[-> H]|[-> H]] end; cbn [negb].

Section Branch.
Context (u v w x rX f : list Z) (i e : Z).
Context (Bu : fbnd 330 u) (Bv : fbnd 101 v) (Br : fbnd 101 rX) (Bf : fbnd 101 f).
Context (Vv : fval v == 2 * (fval u * fval u)) (Vw : fval w == ew (fval u)) (Vx : fval x == ex2 (fval u)).

Lemma positive_ok : i * i == e -> e * e == 1 -> fval x * (fval rX * fval rX) == e * fval w ->
  fval f * fval f == e * (2 * mA * (mA + 2)) ->
  fromfe_good (fval u) (fe_mul (fe_mul rX f) u, fe_mul fe_ma v, 0).
Proof using Bu Bv Br Bf Vv Vw Vx.
  intros Hi He Hs Hf. destruct fe_ma_ok as [Ba Va].
  know (fe_mul (fe_mul rX f) u). know (fe_mul fe_ma v).
  split_and!; [done..|left]. rewrite Vw, Vx in Hs. revert Hs Hf Hi He.
  generalize (ew (fval u)), (ex2 (fval u)). intros W X Hs Hf Hi He.
  split_and!; [done|by rewrite V1, Va, Vv| |exists (i * X * fval rX)].
  - rewrite V0, V. clear - Hs Hf He. revert Hs Hf He. generalize (fval rX), (fval f), (fval u).
    intros r g U Hs Hf He.
    apply (lin_comb3 (g * g * U * U) (e * W * U * U) (W * U * U * 2 * mA * (mA + 2)) _ _ _ _ _ _ _ _ Hs Hf He). ring.
  - clear - Hs Hi He. revert Hs Hi He. generalize (fval rX). intros r Hs Hi He.
    apply (lin_comb3 (- e * X) (- X * X * r * r) (- W * X) _ _ _ _ _ _ _ _ Hs Hi He). ring.
Qed.

Lemma negative_ok : e * e == 1 -> fval x * (fval rX * fval rX) * im == e * fval w ->
  fval f * fval f == e * (im * mA * (mA + 2)) ->
  fromfe_good (fval u) (fe_mul rX f, fe_ma, 1).
Proof using Br Bf Vw Vx.
  intros He Hs Hf. destruct fe_ma_ok as [Ba Va].
  know (fe_mul rX f).
  split_and!; [done|bound_done|right]. rewrite Vw, Vx in Hs. revert Hs Hf He.
  generalize (ew (fval u)), (ex2 (fval u)), im. intros W X j Hs Hf He.
  split_and!; [done..|].
  rewrite V. clear - Hs Hf He. revert Hs Hf He. generalize (fval rX), (fval f).
  intros r g Hs Hf He.
  apply (lin_comb3 (e * mA * (mA + 2)) (X * r * r) (W * mA * (mA + 2)) _ _ _ _ _ _ _ _ Hs Hf He). ring.
Qed.
End Branch.

Lemma fromfe_negative_ok (u w x rX x' : list Z) : 
  fbnd 102 w -> fbnd 101 x' -> fbnd 101 rX -> fval x' == fval x * (fval rX * fval rX) ->
  fval w == ew (fval u) -> fval x == ex2 (fval u) ->
  fval x * (fval rX * fval rX) * im == fval w \/ fval x * (fval rX * fval rX) * im == - fval w ->
  exists r, fromfe_negative w x' rX fe_ma = Some r /\ fromfe_good (fval u) r.
Proof.
  intros Bw Bx Br Vx' Vw Vx Hn. unfold fromfe_negative. cbn zeta.
  pose proof (proj1 fe_sqrtm1_ok : fbnd 101 fe_sqrtm1) as Bi.
  know (fe_sub w (fe_mul x' fe_sqrtm1)). know (fe_add w (fe_mul x' fe_sqrtm1)).
  fold im in V. rewrite Vx' in V.
  case_zero (fe_sub w (fe_mul x' fe_sqrtm1)); rewrite V0, V in Hz.
  - eexists. split; [reflexivity|]. destruct fe_fffb4_ok as [Bf Vf].
    refine (negative_ok u w x rX fe_fffb4 1 Br Bf Vw Vx _ _ _); [reflexivity| |rewrite Z.mul_1_l; exact Vf].
    apply (lin_comb1 (-1) _ _ _ _ Hz). ring.
  - destruct Hn as [Hn|Hn]; [destruct Hz; apply (lin_comb1 (-1) _ _ _ _ Hn); ring|].
    rewrite (nonzero_isnonzero 203); [|bound_done|lia|].
    + eexists. split; [reflexivity|]. destruct fe_fffb3_ok as [Bf Vf].
      refine (negative_ok u w x rX fe_fffb3 (-1) Br Bf Vw Vx _ _ _); [reflexivity|rewrite Hn; apply eq_eqmod; ring|].
      rewrite Vf. apply eq_eqmod. ring.
    + rewrite V1, V. apply (lin_comb1 1 _ _ _ _ Hn). ring.
Qed.

Lemma fromfe_root_ok (u v w x : list Z) :
  fbnd 330 u -> fbnd 101 v -> fbnd 102 w -> fbnd 202 x ->
  fval v == 2 * (fval u * fval u) -> fval w == ew (fval u) -> fval x == ex2 (fval u) ->
  exists r, fromfe_root u v w x (fe_divpowm1 w x) = Some r /\ fromfe_good (fval u) r.
Proof.
  intros Bu Bv Bw Bx Vv Vw Vx.
  pose proof (ew_nonzero (fval u)) as Hw. pose proof (ex2_nonzero (fval u)) as Hx.
  rewrite <- Vw in Hw. rewrite <- Vx in Hx.
  destruct (fe_divpowm1_ok w x) as [Bc _]; [bound_done..|].
  pose proof (fe_divpowm1_fourth w x ltac:(bound_done) ltac:(bound_done) Hw Hx) as Hc.
  revert Bc Hc. generalize (fe_divpowm1 w x). cbv zeta. intros rX Bc Hc.
  know (fe_sub w (fe_mul (fe_sq rX) x)). know (fe_add w (fe_mul (fe_sq rX) x)).
  unfold fromfe_root. cbn zeta. rewrite (fe_copy_id 2 _ (proj1 fe_ma_ok)).
  case_zero (fe_sub w (fe_mul (fe_sq rX) x)); rewrite V1, V0, V in Hz.
  - eexists. split; [reflexivity|]. destruct fe_fffb2_ok as [Bf Vf].
    refine (positive_ok u v w x rX fe_fffb2 1 1 Bu Bv Bc Bf Vv Vw Vx _ _ _ _); [reflexivity|reflexivity| |rewrite Z.mul_1_l; exact Vf].
    apply (lin_comb1 (-1) _ _ _ _ Hz). ring.
  - case_zero (fe_add w (fe_mul (fe_sq rX) x)); rewrite V2, V0, V in Hz0.
    + eexists. split; [reflexivity|]. destruct fe_fffb1_ok as [Bf Vf].
      refine (positive_ok u v w x rX fe_fffb1 im (-1) Bu Bv Bc Bf Vv Vw Vx im_sq _ _ _); [reflexivity| |].
      * apply (lin_comb1 1 _ _ _ _ Hz0). ring.
      * rewrite Vf. apply eq_eqmod. ring.
    + assert (Hn : fval x * (fval rX * fval rX) * im == fval w \/
                   fval x * (fval rX * fval rX) * im == - fval w).
      { destruct Hc as [Hc|[Hc|Hc]]; [destruct Hz|destruct Hz0|done].
        - apply (lin_comb1 (-1) _ _ _ _ Hc). ring.
        - apply (lin_comb1 1 _ _ _ _ Hc). ring. }
      refine (fromfe_negative_ok u w x rX (fe_mul (fe_sq rX) x) Bw B0 Bc _ Vw Vx Hn).
      rewrite V0, V. apply eq_eqmod. ring.
Qed.

(** ** From the Montgomery form to the curve *)

Definition montgomery (U : Z) : Prop := exists V, V * V == U * U * U + mA * (U * U) + U.

(** A square root of [-(A + 2)]. *)
Definition mk : Z := 6853475219497561581579357271197624642482790079785650197046958215289687604742.

Lemma mk_sq : mk * mk == - (mA + 2).
Proof. vm_compute. reflexivity. Qed.
Lemma mA2_nonzero : mA + 2 != 0.
Proof. neq_tac. Qed.

Section Map.
Context (r z w : Z) (Hw : w != 0) (H : r * r * (z * z + mA * z * w + w * w) == - (mA + 2) * z * w).

Lemma map_den : z + w != 0.
Proof using Hw H.
  intros Hz. assert (Hr : d * (r * r) == 1 * 1).
  { apply (mul_cancel ((mA + 2) * (w * w))).
    - apply mul_nonzero; [exact mA2_nonzero|by apply mul_nonzero].
    - apply (lin_comb3 1 (w * w * (r * r)) (- (r * r * (z - w + mA * w) + (mA + 2) * w))
        _ _ _ _ _ _ _ _ H mA_d Hz). ring. }
  destruct (eqmod_dec r 0) as [H0|H0]; [|by apply (d_ratio 1 r H0)].
  rewrite H0, Z.mul_0_r in Hr. by apply one_nonzero.
Qed.

Lemma map_curve y : y * (z + w) == z - w -> on_curve r y.
Proof using Hw H.
  intros Hy. unfold on_curve.
  apply (mul_cancel ((mA + 2) * ((z + w) * (z + w)))).
  - apply mul_nonzero; [exact mA2_nonzero|apply mul_nonzero; exact map_den].
  - apply (lin_comb3 (-4) (- (r * r * ((z - w) * (z - w))))
      ((mA + 2 - (mA + 2) * d * (r * r)) * (y * (z + w) + (z - w))) _ _ _ _ _ _ _ _ H mA_d Hy). ring.
Qed.

Lemma map_montgomery U : U * w == z -> montgomery U.
Proof using Hw H.
  intros HU. destruct (eqmod_dec r 0) as [H0|H0].
  - exists 0. assert (Hz : z == 0).
    { destruct (mul_zero (mA + 2) (z * w)) as [|Hz]; [|by destruct mA2_nonzero|].
      - rewrite H0 in H. apply (lin_comb1 1 _ _ _ _ H). ring.
      - by apply mul_zero in Hz as [|]. }
    rewrite Hz in HU. apply mul_zero in HU as [HU|]; [|done]. by rewrite HU.
  - exists (U * mk * inv r). pose proof (inv_ok r H0) as Hk. pose proof mk_sq as Hm. revert Hk Hm.
    generalize (inv r), mk. intros k q Hk Hm. apply (mul_cancel (r * r * (w * w))).
    { by repeat apply mul_nonzero. }
    transitivity (- (mA + 2) * U * z * w).
    + apply (lin_comb3 (U * U * (w * w) * (q * q) * (r * k + 1)) (U * U * (w * w)) (- (mA + 2) * U * w)
        _ _ _ _ _ _ _ _ Hk Hm HU). ring.
    + apply (lin_comb2 (- U) (- U * (r * r) * (U * w + z + mA * w)) _ _ _ _ _ _ H HU). ring.
Qed.
End Map.

(** ** Elligator 2 *)

(** The point that Elligator 2 assigns to [u]: its Montgomery coordinate is
    [-A/(1 + 2u^2)] if that is on the curve and [-2Au^2/(1 + 2u^2)] otherwise,
    its [x] is odd in the first case and even in the second. *)
Definition elligator2 (u : Z) (e : epoint) : Prop :=
  exists U, U + 1 != 0 /\ ey e * (U + 1) == U - 1 /\ montgomery U /\
    ((U * ew u == - mA /\ ex e mod 2 = 1) \/
     ((forall U', U' * ew u == - mA -> ~ montgomery U') /\
      U * ew u == - mA * (2 * (u * u)) /\ ex e mod 2 = 0)).

Lemma first_not_montgomery u k U : ew u * ex2 u == k * k -> U * ew u == - mA -> ~ montgomery U.
Proof.
  intros Hk HU [V HV]. pose proof (ew_nonzero u) as Hw. pose proof (ex2_nonzero u) as Hx.
  apply (nonsquare_ratio mA (ew u * ew u * V) (im * k) mA_nonsquare).
  - intros H0. assert (Hz : ew u * ex2 u == 0).
    { pose proof im_sq as Hi. revert H0 Hi. generalize im. intros i H0 Hi.
      apply (lin_comb3 1 (- (i * k)) (k * k) _ _ _ _ _ _ _ _ Hk H0 Hi). ring. }
    by apply mul_zero in Hz as [|].
  - pose proof im_sq as Hi. unfold ex2 in Hk. assert (He : 2 * (u * u) = ew u - 1) by (unfold ew; ring).
    rewrite He in Hk. revert Hk HU Hi. generalize (ew u), im. intros w i Hk HU Hi. clear - Hk HU Hi HV.
    transitivity (w * w * w * w * (U * U * U + mA * (U * U) + U)).
    { apply (lin_comb1 (w * w * w * w) _ _ _ _ HV). ring. }
    apply (lin_comb3 (- mA) (w * (U * w * (U * w) - U * w * mA + mA * mA + mA * w * (U * w - mA) + w * w))
      (- mA * k * k) _ _ _ _ _ _ _ _ Hk HU Hi). ring.
Qed.

Lemma elligator2_unique u e f : elligator2 u e -> elligator2 u f -> e = f.
Proof.
  intros (U & HU & HY & HM & HC) (U' & HU' & HY' & HM' & HC').
  pose proof (ew_nonzero u) as Hw.
  assert (HE : U == U' /\ ex e mod 2 = ex f mod 2).
  { destruct HC as [[E ->]|(N & E & ->)], HC' as [[E' ->]|(N' & E' & ->)];
      [|by destruct (N' U)|by destruct (N U')|]; (split; [|done]);
      apply (mul_cancel (ew u)); try done; by rewrite !(Z.mul_comm (ew u)), E, E'. }
  destruct HE as [HE Hs].
  assert (Hy : ey e == ey f).
  { apply (mul_cancel (U + 1)); [done|]. rewrite !(Z.mul_comm (U + 1)), HY, HE, <- HY'. done. }
  pose proof (epoint_ok e) as (Hx & Hye & Hc)%point_ok_spec.
  pose proof (epoint_ok f) as (Hx' & Hyf & Hc')%point_ok_spec. rewrite <- Hy in Hc'.
  apply epoint_eq; [|done]. apply eq_eqmod. by apply (curve_x_unique _ _ (ey e)).
Qed.

(** ** The whole function *)

Lemma fromfe_check_ok (X Y Z : list Z) r y : fbnd 101 X -> fbnd 220 Y -> fbnd 220 Z -> fval Z != 0 ->
  fval X == r * fval Z -> fval Y == y * fval Z -> on_curve r y -> fromfe_check X Y Z = true.
Proof.
  intros BX BY BZ HZ HX HY HC. unfold fromfe_check. cbn zeta.
  destruct (fe_invert_ok Z) as [Bi Vi]; [bound_done|]. pose proof (inv_pow _ HZ) as Hi. rewrite <- Vi in Hi.
  revert Bi Hi. clear Vi. generalize (fe_invert Z). intros zi Bi Hi.
  set (cx := fe_sq (fe_mul X zi)). set (cy := fe_sq (fe_mul Y zi)).
  assert (Ex : fbnd 101 cx /\ fval cx == r * r).
  { subst cx. know (fe_sq (fe_mul X zi)). split; [done|]. rewrite V0, V, HX. revert Hi.
    generalize (fval Z), (fval zi). intros c k Hi. apply (lin_comb1 (r * r * (c * k + 1)) _ _ _ _ Hi). ring. }
  assert (Ey : fbnd 101 cy /\ fval cy == y * y).
  { subst cy. know (fe_sq (fe_mul Y zi)). split; [done|]. rewrite V0, V, HY. revert Hi.
    generalize (fval Z), (fval zi). intros c k Hi. apply (lin_comb1 (y * y * (c * k + 1)) _ _ _ _ Hi). ring. }
  clearbody cx cy. destruct Ex as [Bx Vx], Ey as [By Vy].
  know (fe_add (fe_sub (fe_add (fe_mul fe_d (fe_mul cx cy)) cx) cy) fe_1).
  apply (nonzero_isnonzero _ _ B3); [lia|]. rewrite V3, V2, V1, V0, V, Vx, Vy, (proj2 fe_d_ok), (proj2 fe_1_ok).
  apply (lin_comb1 (-1) _ _ _ _ HC). ring.
Qed.

Lemma fromfe_loads_ok s : is_b32 s -> fromfe_loads s = fe_loads (2 ^ 24 - 1) s.
Proof.
  intros [Hs Hl]. unfold fromfe_loads, fe_loads. do 9 f_equal. rewrite load_3_field by (done || lia).
  rewrite land_mask by lia. rewrite Z.mod_small; [done|]. by apply field_bound.
Qed.

#[global] Instance ew_proper : Proper (eqmod p25519 ==> eqmod p25519) ew.
Proof. intros u u' H. unfold ew. by rewrite H. Qed.

Lemma elligator2_eqmod u u' e : u == u' -> elligator2 u e -> elligator2 u' e.
Proof.
  intros Hu (U & HU & HY & HM & HC). exists U. split_and!; [done..|].
  rewrite <- Hu. destruct HC as [HC|(HN & HC)]; [by left|right]. split; [|done].
  intros U' HU'. apply HN. by rewrite Hu.
Qed.

(** The Montgomery form of what the branches establish. *)
Lemma fromfe_good_curve u rX z sign : fromfe_good u (rX, z, sign) ->
  fval rX * fval rX * (fval z * fval z + mA * fval z * ew u + ew u * ew u) == - (mA + 2) * fval z * ew u.
Proof.
  intros (_ & _ & [(_ & Hz & Ht & _)|(_ & Hz & Ht)]); unfold ex2 in Ht;
    assert (He : 2 * (u * u) = ew u - 1) by (unfold ew; ring); rewrite ?He in *; rewrite Hz;
    revert Ht; generalize (fval rX), (ew u); intros r w Ht; apply (lin_comb1 1 _ _ _ _ Ht); ring.
Qed.

Lemma fromfe_good_sign u rX z sign : fromfe_good u (rX, z, sign) -> fval rX != 0 \/ sign = 0.
Proof.
  intros (_ & _ & [(-> & _)|(_ & _ & Ht)]); [by right|left]. intros H0. rewrite H0 in Ht.
  destruct (mul_zero (mA * (mA + 2)) (ew u)) as [H|H]; [by rewrite <- Ht| |by apply (ew_nonzero u)].
  by apply (mul_nonzero mA (mA + 2) mA_nonzero mA2_nonzero).
Qed.

(** The point from the coordinate [r] and the Montgomery coordinate [z/w]. *)
Lemma fromfe_point (r z w : list Z) (Z := fe_add z w) (Y := fe_sub z w) (X := fe_mul r Z) :
  fbnd 101 r -> fbnd 101 z -> fbnd 102 w -> fval w != 0 ->
  fval r * fval r * (fval z * fval z + mA * fval z * fval w + fval w * fval w)
    == - (mA + 2) * fval z * fval w ->
  exists e, fromfe_check X Y Z = true /\ G2 (P2.mk X Y Z) e /\ fval Z != 0 /\
    ex e = fval r mod p25519 /\ ey e * (fval z + fval w) == fval z - fval w.
Proof.
  intros Br Bz Bw Hw H. subst X Y Z. know (fe_mul r (fe_add z w)). know (fe_sub z w).
  pose proof (map_den _ _ _ Hw H) as HZ. pose proof (inv_ok _ HZ) as Hi.
  set (y := (fval z - fval w) * inv (fval z + fval w)) in *.
  assert (Hy : y * (fval z + fval w) == fval z - fval w).
  { apply (lin_comb1 (fval z - fval w) _ _ _ _ Hi). subst y. ring. }
  pose proof (map_curve _ _ _ Hw H y Hy) as HC. clearbody y.
  exists (point_of _ _ HC). split_and!.
  - apply (fromfe_check_ok _ _ _ (fval r) y); [done|bound_done|bound_done| | | |done].
    + by rewrite V.
    + by rewrite V0, V.
    + by rewrite V1, V, Hy.
  - exists (Ed.mk (fval r * (fval z + fval w)) (fval z - fval w) (fval z + fval w) (fval r * (fval z - fval w))).
    split.
    + split_and!; cbn [P2.X P2.Y P2.Z Ed.pX Ed.pY Ed.pZ]; [bound_done..|by rewrite V0, V|by rewrite V1|by rewrite V].
    + split; cbn [Ed.pX Ed.pY Ed.pZ Ed.pT point_of ex ey]; [done|by rewrite eqmod_mod|by rewrite eqmod_mod, Hy|].
      rewrite !eqmod_mod. rewrite <- Hy. apply eq_eqmod. ring.
  - by rewrite V.
  - done.
  - cbn [point_of ey]. by rewrite eqmod_mod.
Qed.

Lemma fromfe_finish (u : Z) (w rX z : list Z) sign : fbnd 102 w -> fval w == ew u ->
  fromfe_good u (rX, z, sign) ->
  exists r e, fromfe_setsign w rX z sign = Some r /\ G2 r e /\ elligator2 u e.
Proof.
  intros Bw Vw HG. pose proof (ew_nonzero u) as Hw. pose proof HG as (Br & Bz & HS).
  assert (Hb : 0 <= sign < 2) by (destruct HS as [(-> & _)|(-> & _)]; lia).
  destruct (decode_sign_some rX sign Br Hb (fromfe_good_sign _ _ _ _ HG)) as [X EX].
  destruct (decode_sign rX X sign Br Hb EX) as (BX & HX & HE). unfold fromfe_setsign. rewrite if_negb, EX. cbn [mbind option_bind].
  pose proof (fromfe_good_curve _ _ _ _ HG) as HC. rewrite <- HE, <- Vw in HC. rewrite <- Vw in Hw.
  destruct (fromfe_point X z w BX Bz Bw Hw HC) as (e & Hk & H2 & HZ & Hx & Hy).
  rewrite Hk. eexists _, e. split_and!; [reflexivity|done|].
  pose proof (inv_ok _ Hw) as Hi. set (U := fval z * inv (fval w)).
  assert (HU : U * fval w == fval z).
  { apply (lin_comb1 (fval z) _ _ _ _ Hi). subst U. ring. }
  exists U. split_and!.
  - intros H0. apply HZ. know (fe_add z w). rewrite V. apply (lin_comb2 (fval w) (-1) _ _ _ _ _ _ H0 HU). ring.
  - apply (mul_cancel (fval w) _ _ Hw).
    apply (lin_comb2 (ey e - 1) 1 _ _ _ _ _ _ HU Hy). ring.
  - exact (map_montgomery _ _ _ Hw HC U HU).
  - rewrite <- Vw, HU, Hx, HX. destruct HS as [(-> & Hz & _ & k & Hk')|(-> & Hz & _)].
    + right. split_and!; [|done|done]. intros U'. by apply (first_not_montgomery u k).
    + by left.
Qed.

Lemma fromfe_elligator2 s : is_b32 s ->
  exists r e, ge_fromfe_frombytes_vartime s = Some r /\ G2 r e /\ elligator2 (le s) e.
Proof.
  intros Hs. unfold ge_fromfe_frombytes_vartime. rewrite fromfe_loads_ok by done. cbn zeta.
  destruct (fe_frombytes_ok 24 s ltac:(auto) Hs) as [Bu Vu].
  rewrite Z.mod_small in Vu by (destruct Hs as [Hb Hl]; pose proof (le_bound s Hb) as H; by rewrite Hl in H).
  revert Bu Vu. generalize (fe_frombytes (fe_loads (2 ^ 24 - 1) s)). intros u Bu Vu.
  destruct (fe_sq2_ok u) as [Bv Vv]; [bound_done|]. revert Bv Vv. generalize (fe_sq2 u). intros v Bv Vv.
  destruct fe_ma2_ok as [B2 V2]. know (fe_add v fe_1).
  know (fe_add (fe_sq (fe_add v fe_1)) (fe_mul fe_ma2 v)).
  assert (Vw : fval (fe_add v fe_1) == ew (fval u)) by (rewrite V, Vv; done).
  destruct (fromfe_root_ok u v (fe_add v fe_1) (fe_add (fe_sq (fe_add v fe_1)) (fe_mul fe_ma2 v)))
    as (((rX & z) & sign) & ER & HG); [bound_done|exact Bv|exact B|exact B3|exact Vv|exact Vw| |].
  { rewrite V3, V0, V1, Vw, V2, Vv. unfold ex2. apply eq_eqmod. ring. }
  rewrite ER. cbn [mbind option_bind]. clear ER.
  destruct (fromfe_finish (fval u) _ rX z sign B Vw HG) as (r & e & Er & H2 & HE).
  exists r, e. split_and!; [exact Er|done|]. by apply (elligator2_eqmod (fval u)).
Qed.

(** ** Claim *)

(** C32: [ge_fromfe_frombytes_vartime] passes its assertions on every 32-byte
    string and yields the point of the curve that Elligator 2 assigns to the
    number the string holds, all 256 bits included; there is exactly one such
    point. *)
Theorem ge_fromfe_correct s : is_b32 s ->
  exists r e, ge_fromfe_frombytes_vartime s = Some r /\ G2 r e /\ elligator2 (le s) e /\
    forall f, elligator2 (le s) f -> f = e.
Proof.
  intros Hs. destruct (fromfe_elligator2 s Hs) as (r & e & E & HG & HE).
  exists r, e. split_and!; [done..|]. intros f Hf. exact (elligator2_unique _ _ _ Hf HE).
Qed.

Lemma ge_fromfe_correct_witness : exists r e,
  ge_fromfe_frombytes_vartime (scalar 12345) = Some r /\ G2 r e /\ elligator2 (le (scalar 12345)) e /\
  forall f, elligator2 (le (scalar 12345)) f -> f = e.
Proof. exact (ge_fromfe_correct (scalar 12345) (scalar_b32 _)). Defined.
