(* ===== verification/GroupOrder.v ===== *)
(** * The order of the group

    The group order [l] of the base point is prime, the base point has order
    [l], and the whole curve has 8 l points: a point of order 8 and one of
    order [l] force a multiple of 8 l, and a curve has at most two points for
    each [y].  So [8 l e] is neutral for every point [e], and [l e] for every
    multiple of 8; the signature scheme rests on both. *)

From Stdlib Require Import Zdivisibility Zcong Permutation.
From Bignums Require Import BigZ.
From S2P Require Import Prelude CInt BitField Fe FeProofs Primality FeField Sc ScProofs Ge GeProofs EdAssoc EdGroup GeMult GeMultProofs GeCodec GeSpec GeData GeDataProofs.

(** ** Multiples in an abelian group *)

Section Orders.
Context `{AbelianGroup G}.

Lemma int_mul_neutral a : int_mul a neutral = neutral.
Proof. rewrite <- (int_mul_0 neutral) at 1. by rewrite <- int_mul_mul, Z.mul_0_r, int_mul_0. Qed.

Lemma nat_mul_plus n x y : nat_mul n (plus x y) = plus (nat_mul n x) (nat_mul n y).
Proof. induction n as [|n IH]; cbn; [by rewrite plus_neutral|]. by rewrite IH, swap4. Qed.

Lemma int_mul_plus a x y : int_mul a (plus x y) = plus (int_mul a x) (int_mul a y).
Proof. unfold int_mul. by rewrite !nat_mul_plus, opp_plus, swap4. Qed.

Lemma int_mul_gcd a b x : int_mul a x = neutral -> int_mul b x = neutral ->
  int_mul (Z.gcd a b) x = neutral.
Proof.
  intros Ha Hb. destruct (Z.gcd_bezout a b _ eq_refl) as (k & j & <-).
  by rewrite int_mul_add, !int_mul_mul, Ha, Hb, !int_mul_neutral, plus_neutral.
Qed.

Lemma int_mul_divide a b x : (a | b) -> int_mul a x = neutral -> int_mul b x = neutral.
Proof. intros [k ->] Ha. by rewrite int_mul_mul, Ha, int_mul_neutral. Qed.

(** Multiples depend on the scalar modulo any exponent of the element. *)
Lemma int_mul_eqmod m a b x : m <> 0 -> int_mul m x = neutral -> a =[m]= b -> int_mul a x = int_mul b x.
Proof.
  intros Hz Hm Hab. apply eqmod_divide in Hab; [|done].
  replace a with ((a - b) + b) by ring. rewrite int_mul_add.
  by rewrite (int_mul_divide m (a - b)), plus_neutral.
Qed.

Lemma int_mul_nat n x : int_mul (Z.of_nat n) x = nat_mul n x.
Proof.
  unfold int_mul. replace (Z.to_nat (- Z.of_nat n)) with 0%nat by lia. rewrite Nat2Z.id. cbn [nat_mul].
  by rewrite opp_neutral, plus_neutral_r.
Qed.

(** A finite group: the number of elements is an exponent. *)
Context (pts : list G) (Hnd : NoDup pts) (Hall : forall x, x ∈ pts).

Definition total (l : list G) : G := foldr plus neutral l.

Lemma total_perm l k : l ≡ₚ k -> total l = total k.
Proof.
  unfold total. induction 1 as [|x l k _ IH|x y l|l k j _ IH _ IH']; cbn; [done|by rewrite IH| |congruence].
  by rewrite !plus_assoc, (plus_comm x y).
Qed.

Lemma total_shift x l : total (plus x <$> l) = plus (nat_mul (length l) x) (total l).
Proof.
  unfold total. induction l as [|y l IH]; cbn; [by rewrite plus_neutral|]. by rewrite IH, swap4.
Qed.

Lemma shift_perm x : plus x <$> pts ≡ₚ pts.
Proof using Hnd Hall.
  apply NoDup_Permutation; [|done|].
  - apply NoDup_fmap_2; [|done]. intros y z. apply plus_cancel.
  - intros y. split; [done|]. intros _. apply list_elem_of_fmap. exists (plus (opp x) y). split; [|done].
    by rewrite plus_assoc, plus_opp, plus_neutral.
Qed.

Lemma exponent x : int_mul (Z.of_nat (length pts)) x = neutral.
Proof using Hnd Hall.
  pose proof (total_perm _ _ (shift_perm x)) as E. rewrite total_shift, <- int_mul_nat in E.
  apply (plus_cancel (total pts)). by rewrite plus_comm, E, plus_neutral_r.
Qed.
End Orders.

(** ** The points of the curve, listed *)

#[global] Instance epoint_dec : EqDecision epoint.
Proof.
  intros e f. destruct (decide (ex e = ex f /\ ey e = ey f)) as [[Hx Hy]|Hn].
  - left. apply epoint_eq; by apply eq_eqmod.
  - right. intros ->. by apply Hn.
Defined.

Definition point_at (c : Z * Z) : option epoint :=
  match bool_dec (point_ok c.1 c.2) true with
  | left H => Some (mkpoint c.1 c.2 H)
  | right _ => None
  end.

Section Listing.
(** The field size as a variable, so that no list of that length is evaluated. *)
Context (n : Z) (Hn : n = p25519).

Definition curve_points : list epoint :=
  remove_dups (omap point_at (list_prod (seqZ 0 n) (seqZ 0 n))).

Lemma point_at_coords e : point_at (ex e, ey e) = Some e.
Proof.
  unfold point_at. cbn [fst snd]. destruct (bool_dec _ _) as [H|H]; [|destruct H; apply epoint_ok].
  f_equal. by apply epoint_eq.
Qed.

Lemma curve_points_all e : e ∈ curve_points.
Proof using Hn.
  apply elem_of_remove_dups, list_elem_of_omap. exists (ex e, ey e). split; [|apply point_at_coords].
  pose proof (epoint_ok e) as (Hx & Hy & _)%point_ok_spec. rewrite <- Hn in Hx, Hy.
  apply list_elem_of_In, in_prod; apply list_elem_of_In, elem_of_seqZ; lia.
Qed.

Lemma curve_points_nodup : NoDup curve_points.
Proof. apply NoDup_remove_dups. Qed.

(** A point is determined by [y] and the parity of [x]. *)
Definition code (e : epoint) : Z := ey e + n * (ex e mod 2).

Lemma code_inj e f : code e = code f -> e = f.
Proof using Hn.
  unfold code. intros E. pose proof (epoint_ok e) as (Hx & Hy & Hc)%point_ok_spec.
  pose proof (epoint_ok f) as (Hx' & Hy' & Hc')%point_ok_spec.
  pose proof (Z.mod_pos_bound (ex e) 2 ltac:(lia)). pose proof (Z.mod_pos_bound (ex f) 2 ltac:(lia)).
  rewrite <- Hn in Hy, Hy'.
  assert (Hs : ey e = ey f /\ ex e mod 2 = ex f mod 2).
  { revert E. generalize dependent (ex e mod 2). generalize dependent (ex f mod 2). intros b Hb c Hc0 E.
    assert (Hb' : b = 0 \/ b = 1) by lia. assert (Hc1 : c = 0 \/ c = 1) by lia.
    destruct Hb' as [-> | ->], Hc1 as [-> | ->]; lia. }
  destruct Hs as [Es Ep].
  rewrite <- Es in Hc'. apply epoint_eq; apply eq_eqmod; [|done]. by apply (curve_x_unique _ _ (ey e)).
Qed.

Lemma curve_points_count : Z.of_nat (length curve_points) <= 2 * n.
Proof using Hn.
  rewrite <- (length_fmap code).
  assert (Hs : (length (code <$> curve_points) <= length (seqZ 0 (2 * n)))%nat).
  { apply submseteq_length, NoDup_submseteq.
    - apply NoDup_fmap_2; [exact code_inj|apply curve_points_nodup].
    - intros c (e & -> & _)%list_elem_of_fmap. apply elem_of_seqZ. unfold code.
      pose proof (epoint_ok e) as (Hx & Hy & Hc)%point_ok_spec. rewrite <- Hn in Hy.
      pose proof (Z.mod_pos_bound (ex e) 2 ltac:(lia)). nia. }
  rewrite length_seqZ in Hs. pose proof (epoint_ok ezero) as (_ & Hy & _)%point_ok_spec. lia.
Qed.
End Listing.

(** ** Multiples, evaluated *)

(** Extended coordinates on [bigZ], reduced after each product. *)
Record bpt := bmk { bX : bigZ; bY : bigZ; bZ : bigZ; bT : bigZ }.

Definition badd (P Q : bpt) : bpt :=
  let A := red ((bY P - bX P) * (bY Q - bX Q)) in
  let B := red ((bY P + bX P) * (bY Q + bX Q)) in
  let C := red (red (2 * bd * bT P) * bT Q) in
  let D := (2 * red (bZ P * bZ Q))%bigZ in
  let E := (B - A)%bigZ in
  let H := (B + A)%bigZ in
  let G := (D + C)%bigZ in
  let F := (D - C)%bigZ in
  bmk (red (E * F)) (red (H * G)) (red (G * F)) (red (E * H)).

Fixpoint bmul (n : positive) (P : bpt) : bpt :=
  match n with
  | xH => P
  | xO n => let Q := bmul n P in badd Q Q
  | xI n => let Q := bmul n P in badd (badd Q Q) P
  end.

Definition bpoint (e : epoint) : bpt :=
  bmk (BigZ.of_Z (ex e)) (BigZ.of_Z (ey e)) 1%bigZ (red (BigZ.of_Z (ex e) * BigZ.of_Z (ey e))).

Definition bval (P : bpt) : Ed.pt :=
  Ed.mk (BigZ.to_Z (bX P)) (BigZ.to_Z (bY P)) (BigZ.to_Z (bZ P)) (BigZ.to_Z (bT P)).

Lemma bd_spec : BigZ.to_Z bd = d.
Proof. unfold bd. apply BigZ.spec_of_Z. Qed.

Lemma badd_ok P Q e f : affine (bval P) e -> affine (bval Q) f -> affine (bval (badd P Q)) (plus e f).
Proof.
  intros HP HQ. eapply affine_eqpt; [|exact (affine_add _ _ _ _ HP HQ)].
  unfold Ed.add, Ed.finish, bval, badd. cbn [Ed.pX Ed.pY Ed.pZ Ed.pT bX bY bZ bT].
  split_and!; cbn [Ed.pX Ed.pY Ed.pZ Ed.pT]; bspec;
    change (BigZ.to_Z 2%bigZ) with 2; rewrite ?bd_spec; apply eq_eqmod; ring.
Qed.

Lemma bmul_ok n P e : affine (bval P) e -> affine (bval (bmul n P)) (int_mul (Zpos n) e).
Proof.
  intros HP. induction n as [n IH|n IH|]; cbn [bmul].
  - rewrite Pos2Z.inj_xI, <- Z.add_diag, !int_mul_add, int_mul_1. by repeat apply badd_ok.
  - rewrite Pos2Z.inj_xO, <- Z.add_diag, int_mul_add. by apply badd_ok.
  - by rewrite int_mul_1.
Qed.

Lemma bpoint_ok e : affine (bval (bpoint e)) e.
Proof.
  split; cbn [bval bpoint bX bY bZ bT Ed.pX Ed.pY Ed.pZ Ed.pT]; bspec; rewrite ?BigZ.spec_of_Z;
    change (BigZ.to_Z 1%bigZ) with 1; [exact one_nonzero|apply eq_eqmod; ring..].
Qed.

Definition is_neutral (P : bpt) : bool := eqp (bX P) 0 && eqp (bY P) (bZ P).

Lemma is_neutral_ok P e : affine (bval P) e -> is_neutral P = true -> e = neutral.
Proof.
  intros HP [Hx Hy]%andb_prop. apply eqp_spec in Hx, Hy. destruct HP as [HZ HX HY _].
  cbn [bval Ed.pX Ed.pY Ed.pZ] in *. change (BigZ.to_Z 0%bigZ) with 0 in Hx.
  apply epoint_eq; apply (mul_cancel _ _ _ HZ); rewrite Z.mul_comm; cbn [neutral epoint_group ezero ex ey].
  - by rewrite <- HX, Hx, Z.mul_0_r.
  - by rewrite <- HY, Hy, Z.mul_1_r.
Qed.

Definition is_opposite (P : bpt) : bool := eqp (bY P) (0 - bZ P).

Lemma is_opposite_ok P e : affine (bval P) e -> is_opposite P = true -> e <> neutral.
Proof.
  intros [HZ _ HY _] H ->. apply eqp_spec in H. rewrite BigZ.spec_sub in H.
  cbn [bval Ed.pX Ed.pY Ed.pZ neutral epoint_group ezero ex ey] in *. change (BigZ.to_Z 0%bigZ) with 0 in H.
  rewrite H in HY. apply (mul_nonzero 2 (BigZ.to_Z (bZ P)) two_nonzero HZ).
  apply (lin_comb1 (-1) _ _ _ _ HY). ring.
Qed.

(** ** The order of the base point *)

Lemma prime_l : Z.prime l_order.
Proof.
  assert (Z.prime 2551) by prime_leaf.
  assert (Z.prime 3797) by prime_leaf.
  assert (Z.prime 1224481) by prime_step [2551].
  assert (Z.prime 531581) by prime_step [3797].
  assert (Z.prime 1257559732178653) by prime_step [1224481; 531581].
  assert (Z.prime 4434155615661930479) by prime_step [1257559732178653].
  assert (Z.prime 172054593956031949258510691) by prime_step [4434155615661930479].
  assert (Z.prime 19757330305831588566944191468367130476339) by prime_step [172054593956031949258510691].
  assert (Z.prime 276602624281642239937218680557139826668747)
    by prime_step [19757330305831588566944191468367130476339].
  prime_step [276602624281642239937218680557139826668747].
Qed.

Lemma base_order : int_mul l_order eB = neutral.
Proof.
  apply (is_neutral_ok (bmul (Z.to_pos l_order) (bpoint eB))); [|vm_compute; reflexivity].
  apply (bmul_ok (Z.to_pos l_order)), bpoint_ok.
Qed.

(** A point of order 8. *)
Definition e8 : epoint := mkpoint
  14399317868200118260347934320527232580618823971194345261214217575416788799818
  55188659117513257062467267217118295137698188065244968500265048394206261417927 eq_refl.

Lemma e8_8 : int_mul 8 e8 = neutral.
Proof.
  apply (is_neutral_ok (bmul 8 (bpoint e8))); [|vm_compute; reflexivity]. apply (bmul_ok 8), bpoint_ok.
Qed.

Lemma e8_4 : int_mul 4 e8 <> neutral.
Proof.
  apply (is_opposite_ok (bmul 4 (bpoint e8))); [|vm_compute; reflexivity]. apply (bmul_ok 4), bpoint_ok.
Qed.

Lemma eB_nonzero : eB <> neutral.
Proof. intros H. apply (f_equal ex) in H. discriminate. Qed.

(** ** The order of the group *)

Section Count.
Context (n : Z) (Hn : n = p25519).
Let N : Z := Z.of_nat (length (curve_points n)).

Lemma N_exponent e : int_mul N e = neutral.
Proof using Hn. apply exponent; [apply curve_points_nodup|by apply curve_points_all]. Qed.

Lemma divides_8 : (8 | N).
Proof using Hn.
  pose proof (int_mul_gcd _ _ _ (N_exponent e8) e8_8) as Hg. rewrite <- Z.gcd_mod_l in Hg.
  apply Z.mod_divide; [done|]. pose proof (Z.mod_pos_bound N 8 ltac:(lia)) as Hb.
  destruct (decide (N mod 8 = 0)) as [|Hne]; [done|]. destruct e8_4.
  revert Hb Hne Hg. generalize (N mod 8). intros r Hb Hne.
  assert (Hr : r = 1 \/ r = 2 \/ r = 3 \/ r = 4 \/ r = 5 \/ r = 6 \/ r = 7) by lia.
  intros Hg. apply (int_mul_divide (Z.gcd r 8)); [|done].
  destruct Hr as [->|[->|[->|[->|[->|[->| ->]]]]]]; by apply Z.mod_divide.
Qed.

Lemma divides_l : (l_order | N).
Proof using Hn.
  pose proof (int_mul_gcd _ _ _ (N_exponent eB) base_order) as Hg.
  pose proof (Z.gcd_nonneg N l_order) as H0. pose proof (Z.gcd_divide_r N l_order) as Hr.
  pose proof (Z.gcd_divide_l N l_order) as Hl.
  destruct prime_l as [_ Hp]. revert Hg H0 Hr Hl. generalize (Z.gcd N l_order). intros g Hg H0 Hr Hl.
  destruct (decide (g = l_order)) as [<-|Hne]; [done|].
  pose proof (Z.divide_pos_le g l_order (eq_refl : 0 < l_order) Hr).
  destruct (decide (g = 0)) as [->|]; [apply Z.divide_0_l in Hr; destruct (l_order_nz Hr)|].
  destruct (decide (g = 1)) as [->|]; [rewrite int_mul_1 in Hg; destruct (eB_nonzero Hg)|].
  destruct (Hp g); [lia|exact Hr].
Qed.

Lemma group_order : N = 8 * l_order.
Proof using Hn.
  pose proof (curve_points_count n Hn) as Hc. fold N in Hc. rewrite Hn in Hc.
  assert (Hp : 0 < N).
  { pose proof (curve_points_all n Hn neutral) as H. subst N. destruct (curve_points n); [by apply elem_of_nil in H|].
    cbn [length]. lia. }
  destruct divides_8 as [a Ha], divides_l as [b Hb]. clearbody N.
  assert (Hd : (8 | b)).
  { apply (Z.gauss 8 l_order b); [|vm_compute; reflexivity]. exists a. lia. }
  destruct Hd as [c ->]. unfold p25519, l_order in *. nia.
Qed.
End Count.

Lemma order_8l e : int_mul (8 * l_order) e = neutral.
Proof. rewrite <- (group_order p25519 eq_refl). by apply N_exponent. Qed.
