(* ===== verification/Crypto.v ===== *)
(** * Keys, signatures and ring signatures: src/src/crypto/crypto.c

    Functions that only compute live in the error monad [result]: a failed
    [assert], a call of [abort], a hash that does not return.  Functions that
    draw random scalars live in [rand], which threads the generator of
    random.c.  A return code 0 without output is [None]; output parameters are
    returned; a [ge_p3] that the source passes as bytes is a [ge_p3]. *)

From S2P Require Import Prelude Keccak Random CInt Fe Sc Ge GeMult GeData GeHash.

(** ** Effects *)

Inductive stop :=
  | AssertFailed
  | AbortCalled
  | NoReturn       (* a loop that does not end *)
  | OutOfBounds.   (* a read past the array the caller passed *)

Inductive result (A : Type) : Type :=
  | Ok (a : A)
  | Stop (s : stop).
Arguments Ok {A} _.
Arguments Stop {A} _.

#[global] Instance result_ret : MRet result := @Ok.
#[global] Instance result_bind : MBind result := fun A B f m =>
  match m with Ok a => f a | Stop s => Stop s end.

Definition rand (A : Type) : Type := random_state -> result (A * random_state).
#[global] Instance rand_ret : MRet rand := fun A a s => Ok (a, s).
#[global] Instance rand_bind : MBind rand := fun A B f m s =>
  match m s with Ok (a, s) => f a s | Stop e => Stop e end.

Definition lift {A} (m : result A) : rand A := fun s => a ← m; Ok (a, s).

(** The macro [assert]. *)
Definition require (b : bool) : result unit := if b then Ok tt else Stop AssertFailed.

Definition of_assert {A} (o : option A) : result A :=
  match o with Some a => Ok a | None => Stop AssertFailed end.
Definition or_abort {A} (o : option A) : result A :=
  match o with Some a => Ok a | None => Stop AbortCalled end.

Definition fast_hash (data : bytes) : result bytes :=
  match cn_fast_hash data with
  | Done h => Ok h
  | Aborted => Stop AbortCalled
  | OutOfFuel => Stop NoReturn
  end.

(** ** Scalars and keys *)

Definition check_scalar (s : bytes) : bool := sc_check s =? 0.

Definition check_public_key (public_key : bytes) : bool :=
  match ge_frombytes_vartime public_key with Some _ => true | None => false end.

Definition random_scalar : rand bytes := fun s =>
  '(tmp, s) ← of_assert (generate_random_bytes_not_thread_safe 64 s);
  Ok (sc_reduce tmp, s).

Definition hash_to_scalar (data : bytes) : result bytes :=
  hash ← fast_hash data;
  Ok (sc_reduce32 hash).

(** The public key and the secret key. *)
Definition generate_keys : rand (bytes * bytes) :=
  secret_key ← random_scalar;
  let point := ge_scalarmult_base ge_base secret_key in
  mret (ge_p3_tobytes point, secret_key).

Definition check_key (public_key : bytes) : bool :=
  match ge_frombytes_vartime public_key with Some _ => true | None => false end.

Definition secret_key_to_public_key (secret_key : bytes) : option bytes :=
  if negb (sc_check secret_key =? 0) then None else
  let point := ge_scalarmult_base ge_base secret_key in
  Some (ge_p3_tobytes point).

Definition generate_key_derivation (public_key secret_key : bytes) : result (option bytes) :=
  require (sc_check secret_key =? 0);;
  match ge_frombytes_vartime public_key with
  | None => Ok None
  | Some point =>
      let point2 := ge_scalarmult secret_key point in
      let point3 := ge_mul8 point2 in
      let point2 := ge_p1p1_to_p2 point3 in
      Ok (Some (ge_tobytes point2))
  end.

(** ** Derived keys *)

(** [VARINT_WRITE] on a 64-bit [size_t]: nine shifts by seven leave one bit. *)
Fixpoint varint_write (fuel : nat) (i : Z) : bytes :=
  match fuel with
  | O => [u8 i]
  | S fuel =>
      if 0x80 <=? i then ((u8 i .& 0x7f) .| 0x80) :: varint_write fuel (i .>> 7)
      else [u8 i]
  end.
Definition VARINT_WRITE (i : Z) : bytes := varint_write 9 i.

(** Bytes of the array [output_index]: (sizeof(size_t) * 8 + 6) / 7. *)
Definition varint_size : nat := (8 * 8 + 6) / 7.

Definition derivation_to_scalar (derivation : bytes) (output_index : Z) : result bytes :=
  let written := VARINT_WRITE output_index in
  require (length written <=? varint_size)%nat;;
  hash_to_scalar (take 32 derivation ++ written).

Definition derivation_to_scalar_suffix (derivation : bytes) (output_index : Z)
    (suffix : bytes) (suffixLength : nat) : result bytes :=
  require (suffixLength <=? 32)%nat;;
  let written := VARINT_WRITE output_index in
  require (length written <=? varint_size + 32)%nat;;
  hash_to_scalar (take 32 derivation ++ written ++ take suffixLength suffix).

Definition derive_public_key (derivation : bytes) (output_index : Z) (base : bytes)
    : result (option bytes) :=
  match ge_frombytes_vartime base with
  | None => Ok None
  | Some point1 =>
      scalar ← derivation_to_scalar derivation output_index;
      let point2 := ge_scalarmult_base ge_base scalar in
      let point3 := ge_p3_to_cached point2 in
      let point4 := ge_add point1 point3 in
      let point5 := ge_p1p1_to_p2 point4 in
      Ok (Some (ge_tobytes point5))
  end.

(** The source passes the address of its pointer argument, so the hash reads
    the 32 bytes of the stack at that address: the argument [frame]. *)
Definition derive_public_key_suffix (frame derivation : bytes) (output_index : Z) (base : bytes)
    (suffix : bytes) (suffixLength : nat) : result (option bytes) :=
  match ge_frombytes_vartime base with
  | None => Ok None
  | Some point1 =>
      scalar ← derivation_to_scalar_suffix frame output_index suffix suffixLength;
      let point2 := ge_scalarmult_base ge_base scalar in
      let point3 := ge_p3_to_cached point2 in
      let point4 := ge_add point1 point3 in
      let point5 := ge_p1p1_to_p2 point4 in
      Ok (Some (ge_tobytes point5))
  end.

Definition underive_public_key_and_get_scalar (derivation : bytes) (output_index : Z)
    (derived_key : bytes) : result (option (bytes * bytes)) :=
  match ge_frombytes_vartime derived_key with
  | None => Ok None
  | Some point1 =>
      hashed_derivation ← derivation_to_scalar derivation output_index;
      let point2 := ge_scalarmult_base ge_base hashed_derivation in
      let point3 := ge_p3_to_cached point2 in
      let point4 := ge_sub point1 point3 in
      let point5 := ge_p1p1_to_p2 point4 in
      Ok (Some (ge_tobytes point5, hashed_derivation))
  end.

Definition derive_secret_key (derivation : bytes) (output_index : Z) (base : bytes) : result bytes :=
  require (sc_check base =? 0);;
  scalar ← derivation_to_scalar derivation output_index;
  Ok (sc_add base scalar).

Definition derive_secret_key_suffix (derivation : bytes) (output_index : Z) (base : bytes)
    (suffix : bytes) (suffixLength : nat) : result bytes :=
  require (sc_check base =? 0);;
  scalar ← derivation_to_scalar_suffix derivation output_index suffix suffixLength;
  Ok (sc_add base scalar).

Definition underive_public_key (derivation : bytes) (output_index : Z) (derived_key : bytes)
    : result (option bytes) :=
  match ge_frombytes_vartime derived_key with
  | None => Ok None
  | Some point1 =>
      scalar ← derivation_to_scalar derivation output_index;
      let point2 := ge_scalarmult_base ge_base scalar in
      let point3 := ge_p3_to_cached point2 in
      let point4 := ge_sub point1 point3 in
      let point5 := ge_p1p1_to_p2 point4 in
      Ok (Some (ge_tobytes point5))
  end.

Definition underive_public_key_suffix (derivation : bytes) (output_index : Z) (derived_key : bytes)
    (suffix : bytes) (suffixLength : nat) : result (option bytes) :=
  match ge_frombytes_vartime derived_key with
  | None => Ok None
  | Some point1 =>
      scalar ← derivation_to_scalar_suffix derivation output_index suffix suffixLength;
      let point2 := ge_scalarmult_base ge_base scalar in
      let point3 := ge_p3_to_cached point2 in
      let point4 := ge_sub point1 point3 in
      let point5 := ge_p1p1_to_p2 point4 in
      Ok (Some (ge_tobytes point5))
  end.

(** ** Hashing to points *)

Definition hash_data_to_ec (data : bytes) : result bytes :=
  h ← fast_hash data;
  point ← of_assert (ge_fromfe_frombytes_vartime h);
  let point2 := ge_mul8 point in
  let point := ge_p1p1_to_p2 point2 in
  Ok (ge_tobytes point).

Definition hash_to_ec (key : bytes) : result ge_p3 :=
  h ← fast_hash (take 32 key);
  point ← of_assert (ge_fromfe_frombytes_vartime h);
  let point2 := ge_mul8 point in
  Ok (ge_p1p1_to_p3 point2).

Definition hash_to_point (h : bytes) : result bytes :=
  point ← of_assert (ge_fromfe_frombytes_vartime h);
  Ok (ge_tobytes point).

Definition hash_to_ec_ex (hash : bytes) : result bytes :=
  tmp ← hash_to_ec hash;
  Ok (ge_p3_tobytes tmp).

Definition generate_key_image (pub sec : bytes) : result bytes :=
  require (sc_check sec =? 0);;
  point ← hash_to_ec pub;
  let point2 := ge_scalarmult sec point in
  Ok (ge_tobytes point2).

Definition generate_incomplete_key_image (pub : bytes) : result bytes :=
  point ← hash_to_ec pub;
  Ok (ge_p3_tobytes point).

(** ** Signatures *)

(** The 64 bytes of a [signature_t]: the challenge and the response. *)
Record signature := mksig { sig_c : bytes; sig_r : bytes }.

(** The bytes of an [s_comm]. *)
Record s_comm := mk_s_comm { sc_h : bytes; sc_key : bytes; sc_comm : bytes }.
Definition s_comm_bytes (b : s_comm) : bytes := sc_h b ++ sc_key b ++ sc_comm b.

(** The debugging assertions of [generate_signature]. *)
Definition signature_asserts (pub sec : bytes) : result unit :=
  require (sc_check sec =? 0);;
  let t := ge_scalarmult_base ge_base sec in
  let t2 := ge_p3_tobytes t in
  require (bool_decide (take 32 pub = t2)).

Definition generate_signature (prefix_hash pub sec : bytes) : rand signature :=
  lift (signature_asserts pub sec);;
  k ← random_scalar;
  let tmp3 := ge_scalarmult_base ge_base k in
  let buf := mk_s_comm (take 32 prefix_hash) (take 32 pub) (ge_p3_tobytes tmp3) in
  c ← lift (hash_to_scalar (s_comm_bytes buf));
  mret (mksig c (sc_mulsub c sec k)).

Definition check_signature (prefix_hash pub : bytes) (sig : signature) : result bool :=
  require (check_key pub);;
  tmp3 ← or_abort (ge_frombytes_vartime pub);
  if negb (sc_check (sig_c sig) =? 0) || negb (sc_check (sig_r sig) =? 0) then Ok false else
  let tmp2 := ge_double_scalarmult_base_vartime ge_Bi (sig_c sig) tmp3 (sig_r sig) in
  let buf := mk_s_comm (take 32 prefix_hash) (take 32 pub) (ge_tobytes tmp2) in
  c ← hash_to_scalar (s_comm_bytes buf);
  let c := sc_sub c (sig_c sig) in
  Ok (sc_isnonzero c =? 0).

(** ** Ring signatures *)

(** An [rs_comm]: the prefix hash and the commitments [ab]; its [rs_comm_size]
    bytes. *)
Record rs_comm := mk_rs_comm { rs_h : bytes; rs_ab : list (bytes * bytes) }.
Definition rs_comm_bytes (b : rs_comm) : bytes :=
  rs_h b ++ mjoin ((fun p => p.1 ++ p.2) <$> rs_ab b).

(** The debugging assertions of [generate_ring_signature_ex]. *)
Definition ring_asserts (image : bytes) (pubs : list bytes) (sec : bytes) (sec_index : nat) : result unit :=
  require (sc_check sec =? 0);;
  let t := ge_scalarmult_base ge_base sec in
  let t2 := ge_p3_tobytes t in
  require (bool_decide (take 32 (pubs !!! sec_index) = t2));;
  t3 ← generate_key_image (pubs !!! sec_index) sec;
  require (bool_decide (take 32 image = t3));;
  require (forallb check_key pubs).

(** The variables of the loop: the array [sig], the commitments written so
    far, [sum] and [k]. *)
Record ring_vars := mk_vars {
  rv_sig : list signature;
  rv_ab : list (bytes * bytes);
  rv_sum : bytes;
  rv_k : bytes;
}.

(** The branch [i == sec_index] of the loop. *)
Definition ring_own (pub : bytes) (v : ring_vars) : rand ring_vars :=
  k ← random_scalar;
  let tmp3 := ge_scalarmult_base ge_base k in
  let a := ge_p3_tobytes tmp3 in
  tmp3 ← lift (hash_to_ec pub);
  let tmp2 := ge_scalarmult k tmp3 in
  let b := ge_tobytes tmp2 in
  mret (mk_vars (rv_sig v) (rv_ab v ++ [(a, b)]) (rv_sum v) k).

(** The commitments of a ring member: the same code in signing and checking. *)
Definition ring_commit (image_pre : list ge_cached) (pub : bytes) (s : signature) : result (bytes * bytes) :=
  tmp3 ← or_abort (ge_frombytes_vartime pub);
  let tmp2 := ge_double_scalarmult_base_vartime ge_Bi (sig_c s) tmp3 (sig_r s) in
  let a := ge_tobytes tmp2 in
  tmp3 ← hash_to_ec pub;
  let tmp2 := ge_double_scalarmult_precomp_vartime (sig_r s) tmp3 (sig_c s) image_pre in
  let b := ge_tobytes tmp2 in
  Ok (a, b).

(** The other branch. *)
Definition ring_other (image_pre : list ge_cached) (i : nat) (pub : bytes) (v : ring_vars) : rand ring_vars :=
  c ← random_scalar;
  r ← random_scalar;
  ab ← lift (ring_commit image_pre pub (mksig c r));
  mret (mk_vars (<[i := mksig c r]> (rv_sig v)) (rv_ab v ++ [ab]) (sc_add (rv_sum v) c) (rv_k v)).

Fixpoint ring_loop (image_pre : list ge_cached) (sec_index i : nat) (pubs : list bytes) (v : ring_vars)
    : rand ring_vars :=
  match pubs with
  | [] => mret v
  | pub :: pubs =>
      v ← (if (i =? sec_index)%nat then ring_own pub v else ring_other image_pre i pub v);
      ring_loop image_pre sec_index (S i) pubs v
  end.

(** [sig] is the content of the output array at entry, of which the entry
    [sec_index] is overwritten last. *)
Definition generate_ring_signature_ex (prefix_hash image : bytes) (pubs : list bytes)
    (sec : bytes) (sec_index : nat) (sig : list signature) : rand (list signature) :=
  lift (require (sec_index <? length pubs)%nat);;
  lift (ring_asserts image pubs sec sec_index);;
  image_unp ← lift (or_abort (ge_frombytes_vartime image));
  let image_pre := ge_dsm_precomp image_unp in
  v ← ring_loop image_pre sec_index 0 pubs (mk_vars sig [] sc_0 []);
  h ← lift (hash_to_scalar (rs_comm_bytes (mk_rs_comm (take 32 prefix_hash) (rv_ab v))));
  let c := sc_sub h (rv_sum v) in
  mret (<[sec_index := mksig c (sc_mulsub c sec (rv_k v))]> (rv_sig v)).

(** The loop of [check_ring_signature_ex]; [None] is [return 0]. *)
Fixpoint check_ring_loop (image_pre : list ge_cached) (pubs : list bytes) (sig : list signature)
    (ab : list (bytes * bytes)) (sum : bytes) : result (option (list (bytes * bytes) * bytes)) :=
  match pubs, sig with
  | pub :: pubs, s :: sig =>
      if negb (sc_check (sig_c s) =? 0) || negb (sc_check (sig_r s) =? 0) then Ok None else
      p ← ring_commit image_pre pub s;
      check_ring_loop image_pre pubs sig (ab ++ [p]) (sc_add sum (sig_c s))
  | [], _ => Ok (Some (ab, sum))
  | _ :: _, [] => Stop OutOfBounds
  end.

Definition check_ring_signature_ex (prefix_hash image : bytes) (pubs : list bytes) (sig : list signature)
    : result bool :=
  require (forallb check_key pubs);;
  match ge_frombytes_vartime image with
  | None => Ok false
  | Some image_unp =>
      let image_pre := ge_dsm_precomp image_unp in
      o ← check_ring_loop image_pre pubs sig [] sc_0;
      match o with
      | None => Ok false
      | Some (ab, sum) =>
          h ← hash_to_scalar (rs_comm_bytes (mk_rs_comm (take 32 prefix_hash) ab));
          let h := sc_sub h sum in
          Ok (sc_isnonzero h =? 0)
      end
  end.

Definition generate_ring_signature (prefix_hash image : bytes) (pubs : list bytes)
    (sec : bytes) (sec_index : nat) (sig : list signature) : rand (list signature) :=
  generate_ring_signature_ex prefix_hash image pubs sec sec_index sig.

Definition check_ring_signature (prefix_hash image : bytes) (pubs : list bytes) (sig : list signature)
    : result bool :=
  check_ring_signature_ex prefix_hash image pubs sig.
