(* ===== verification/CryptoProofs.v ===== *)
(** * Correctness of keys, signatures and ring signatures

    The functions of crypto.c in terms of the group of the curve: derived keys
    match, a generated signature is accepted, acceptance is the Schnorr
    equation on the points, and likewise for ring signatures. *)

From Stdlib Require Import Zdivisibility Zcong ZmodInv.
From S2P Require Import Prelude Keccak KeccakProofs Random CInt BitField Fe FeProofs FeField Sc ScProofs Ge GeProofs EdAssoc EdGroup GeMult GeMultProofs GeCodec GeSpec GeData GeDataProofs GeHash GroupOrder Crypto.

#[local] Opaque ge_scalarmult_base ge_scalarmult ge_double_scalarmult_base_vartime
  ge_double_scalarmult_precomp_vartime ge_dsm_precomp ge_mul8 ge_add ge_sub ge_tobytes ge_p3_tobytes
  ge_frombytes_vartime ge_fromfe_frombytes_vartime ge_p1p1_to_p2 ge_p1p1_to_p3 ge_p3_to_cached
  squeezed stirred generate_random_bytes_not_thread_safe sc_reduce sc_reduce32 sc_add sc_sub sc_mulsub sc_check sc_isnonzero cn_fast_hash ge_base ge_Bi.

(** ** Scalars *)

Definition canon (s : bytes) : Prop := is_b32 s /\ le s < l_order.

Lemma l_bound : 0 < l_order < 2 ^ 253.
Proof. unfold l_order. lia. Qed.

Lemma scalar_le n : 0 <= n < 2 ^ 256 -> le (scalar n) = n.
Proof. intros. unfold scalar. rewrite le_le_bytes by lia. by apply Z.mod_small. Qed.

Lemma canon_scalar n : canon (scalar (n mod l_order)).
Proof.
  pose proof l_bound. pose proof (Z.mod_pos_bound n l_order ltac:(lia)).
  split; [apply scalar_b32|]. rewrite scalar_le; lia.
Qed.

Lemma le_scalar_mod n : le (scalar (n mod l_order)) = n mod l_order.
Proof. pose proof l_bound. pose proof (Z.mod_pos_bound n l_order ltac:(lia)). apply scalar_le. lia. Qed.

Lemma canon_range s : canon s -> 0 <= le s < l_order.
Proof. intros [[Hb _] Hv]. pose proof (le_bound s Hb). lia. Qed.

Lemma sc_check_canon s : is_b32 s -> (sc_check s =? 0) = bool_decide (canon s).
Proof.
  intros Hs. rewrite sc_check_value by done. unfold canon.
  destruct (Z.ltb_spec (le s) l_order) as [H|H].
  - by rewrite bool_decide_true.
  - rewrite bool_decide_false; [done|]. intros [_ ?]. lia.
Qed.

Lemma canon_check s : canon s -> (sc_check s =? 0) = true.
Proof. intros Hs. rewrite sc_check_canon by apply Hs. by apply bool_decide_true. Qed.

(** ** Hashes *)

(** The digest that [cn_fast_hash] returns, and its residue modulo [l]. *)
Definition digest (data : bytes) : bytes := match fast_hash data with Ok h => h | Stop _ => [] end.
Definition Hs (data : bytes) : Z := le (digest data) mod l_order.

Lemma fast_hash_eq data : fast_hash data = Ok (digest data) /\ is_b32 (digest data).
Proof.
  unfold digest, fast_hash. destruct (cn_fast_hash_squeeze data) as (st & tail & _ & -> & Hl).
  split; [done|]. split; [|exact Hl]. unfold squeeze. apply state_bytes_are_bytes.
Qed.

Lemma hash_to_scalar_eq data : hash_to_scalar data = Ok (scalar (Hs data)).
Proof.
  unfold hash_to_scalar. destruct (fast_hash_eq data) as [-> Hb]. cbn [mbind result_bind].
  by rewrite sc_reduce32_value.
Qed.

(** ** Points *)

Definition pub_of (n : Z) : bytes := encode_point (int_mul n eB).

Lemma b32_255 s : canon s -> le s < 2 ^ 255.
Proof. intros [_ ?]. pose proof l_bound. lia. Qed.
Lemma b32_253 s : canon s -> le s <= 2 ^ 253.
Proof. intros [_ ?]. pose proof l_bound. lia. Qed.

Lemma base_mult s : canon s -> G3 (ge_scalarmult_base ge_base s) (int_mul (le s) eB).
Proof. intros Hc. apply G_scalarmult_base; [exact ge_base_ok|apply Hc|by apply b32_255]. Qed.

Lemma base_bytes s : canon s -> ge_p3_tobytes (ge_scalarmult_base ge_base s) = pub_of (le s).
Proof. intros Hc. by apply G3_tobytes, base_mult. Qed.

Lemma G1_ge_add p r e f : G3 p e -> Gc r f -> G1 (ge_add p r) (plus e f).
Proof.
  intros (P & HP & HE) (R & HR & HF). exists (Ed.add P R). split; [by apply ge_add_ok|by apply affine_add].
Qed.
Lemma G1_ge_sub p r e f : G3 p e -> Gc r f -> G1 (ge_sub p r) (plus e (opp f)).
Proof.
  intros (P & HP & HE) (R & HR & HF). exists (Ed.add P (Ed.neg R)).
  split; [by apply ge_sub_ok|by apply affine_add, affine_neg].
Qed.
Lemma Gc_cached p e : G3 p e -> Gc (ge_p3_to_cached p) e.
Proof. intros (P & HP & HE). exists P. split; [by apply ge_p3_to_cached_ok|done]. Qed.
Lemma G2_p1p1 t e : G1 t e -> G2 (ge_p1p1_to_p2 t) e.
Proof. intros (P & HP & HE). exists P. split; [by apply ge_p1p1_to_p2_ok|done]. Qed.
Lemma G3_p1p1 t e : G1 t e -> G3 (ge_p1p1_to_p3 t) e.
Proof. intros (P & HP & HE). exists P. split; [by apply ge_p1p1_to_p3_ok|done]. Qed.
Lemma G1_mul8 q e : G2 q e -> G1 (ge_mul8 q) (int_mul 8 e).
Proof.
  intros (Q & HQ & HE). exists (Ed.dbl (Ed.dbl (Ed.dbl Q))). split; [by apply ge_mul8_ok|].
  change 8 with ((1 + 1) + (1 + 1) + ((1 + 1) + (1 + 1))). rewrite !int_mul_add, int_mul_1.
  by repeat apply affine_dbl.
Qed.
#[export] Hint Resolve G1_ge_add G1_ge_sub Gc_cached G2_p1p1 G3_p1p1 G1_mul8 base_mult : cn.

(** Every 32-byte string is the encoding of one point or does not decode. *)
Lemma decode_cases s : is_b32 s ->
  ge_frombytes_vartime s = None \/ exists h e, ge_frombytes_vartime s = Some h /\ s = encode_point e /\ G3 h e.
Proof.
  intros Hs. destruct (ge_frombytes_vartime s) as [h|] eqn:E; [right|by left].
  destruct (decode_point s h Hs E) as (e & He & Hh). by exists h, e.
Qed.

Lemma encode_point_b32 e : is_b32 (encode_point e).
Proof. apply encode_b32. Qed.

Lemma check_key_encode e : check_key (encode_point e) = true.
Proof. unfold check_key. by destruct (decode_encode_point e) as (h & -> & _). Qed.

Lemma check_key_spec s : is_b32 s -> check_key s = true <-> exists e, s = encode_point e.
Proof.
  intros Hs. split.
  - unfold check_key. destruct (decode_cases s Hs) as [->|(h & e & _ & -> & _)]; [done|by exists e].
  - intros [e ->]. apply check_key_encode.
Qed.

Lemma take_32 s : is_b32 s -> take 32 s = s.
Proof. intros [_ Hl]. apply take_ge. lia. Qed.

(** ** Keys *)

Lemma secret_key_value s : is_b32 s ->
  secret_key_to_public_key s = if le s <? l_order then Some (pub_of (le s)) else None.
Proof.
  intros Hs. unfold secret_key_to_public_key. rewrite sc_check_value by done.
  destruct (Z.ltb_spec (le s) l_order); [|done]. cbn [negb]. by rewrite base_bytes.
Qed.

Lemma canon_pub s : canon s -> secret_key_to_public_key s = Some (pub_of (le s)).
Proof. intros Hc. rewrite secret_key_value by apply Hc. destruct Hc as [_ Hv]. by rewrite (proj2 (Z.ltb_lt _ _) Hv). Qed.

Lemma derivation_value s e : canon s ->
  generate_key_derivation (encode_point e) s = Ok (Some (encode_point (int_mul 8 (int_mul (le s) e)))).
Proof.
  intros Hc. unfold generate_key_derivation. rewrite canon_check by done. cbn [require mbind result_bind].
  destruct (decode_encode_point e) as (h & -> & Hh). do 2 f_equal. apply G2_tobytes.
  apply G2_p1p1, G1_mul8. apply (G_scalarmult s); [apply Hc|by apply b32_255|done].
Qed.

(** ** Variable-length integers *)

(** A reader of what [VARINT_WRITE] writes: the number and the remaining bytes. *)
Fixpoint varint_read (bs : bytes) : option (Z * bytes) :=
  match bs with
  | [] => None
  | b :: bs =>
      if b <? 0x80 then Some (b, bs)
      else '(i, rest) ← varint_read bs; Some (b - 0x80 + 0x80 * i, rest)
  end.

Lemma varint_byte i : (u8 i .& 0x7f) .| 0x80 = i mod 128 + 128.
Proof.
  change 0x7f with (2 ^ 7 - 1). rewrite land_mask by lia. change 0x80 with (1 .<< 7).
  rewrite lor_shiftl_add by (lia || apply Z.mod_pos_bound; lia). unfold wrap.
  rewrite Z.mod_mod_divide; [done|by exists 2].
Qed.

Lemma varint_read_write fuel i rest : 0 <= i < 2 ^ (7 * (Z.of_nat fuel + 1)) ->
  varint_read (varint_write fuel i ++ rest) = Some (i, rest).
Proof.
  revert i. induction fuel as [|fuel IH]; intros i Hi; cbn [varint_write].
  - cbn [app varint_read]. rewrite wrap_small by (unfold is_word; lia).
    destruct (Z.ltb_spec i 0x80); [done|lia].
  - destruct (Z.leb_spec 0x80 i) as [Hl|Hl]; cbn [app varint_read].
    + rewrite varint_byte. pose proof (Z.mod_pos_bound i 128 ltac:(lia)).
      destruct (Z.ltb_spec (i mod 128 + 128) 0x80); [lia|]. rewrite Z.shiftr_div_pow2 by lia.
      change (2 ^ 7) with 128. rewrite IH; cbn [mbind option_bind].
      * do 2 f_equal. rewrite (Z.div_mod i 128) at 3 by lia. lia.
      * split; [apply Z.div_pos; lia|]. apply Z.div_lt_upper_bound; [lia|].
        change 128 with (2 ^ 7). rewrite <- Z.pow_add_r by lia.
        replace (7 + 7 * (Z.of_nat fuel + 1)) with (7 * (Z.of_nat (S fuel) + 1)) by lia. lia.
    + rewrite wrap_small by (unfold is_word; lia). by destruct (Z.ltb_spec i 0x80); [|lia].
Qed.

Lemma length_varint_write fuel i : (1 <= length (varint_write fuel i) <= S fuel)%nat.
Proof.
  revert i. induction fuel as [|fuel IH]; intros i; cbn [varint_write]; [cbn; lia|].
  destruct (0x80 <=? i); cbn [length]; [specialize (IH (i .>> 7)); lia|lia].
Qed.

Lemma VARINT_roundtrip i rest : 0 <= i < 2 ^ 64 -> varint_read (VARINT_WRITE i ++ rest) = Some (i, rest).
Proof. intros Hi. apply varint_read_write. cbn. lia. Qed.

Lemma length_VARINT i : (length (VARINT_WRITE i) <=? varint_size)%nat = true.
Proof. apply Nat.leb_le. pose proof (length_varint_write 9 i) as []. by change varint_size with 10%nat. Qed.

Lemma derivation_scalar_eq d i :
  derivation_to_scalar d i = Ok (scalar (Hs (take 32 d ++ VARINT_WRITE i))).
Proof.
  unfold derivation_to_scalar. rewrite length_VARINT. cbn [require mbind result_bind]. apply hash_to_scalar_eq.
Qed.

Lemma derivation_scalar_suffix_eq d i sfx n : (n <= 32)%nat ->
  derivation_to_scalar_suffix d i sfx n = Ok (scalar (Hs (take 32 d ++ VARINT_WRITE i ++ take n sfx))).
Proof.
  intros Hn. unfold derivation_to_scalar_suffix. rewrite (proj2 (Nat.leb_le n 32) Hn).
  pose proof (length_VARINT i) as Hl. apply Nat.leb_le in Hl.
  assert ((length (VARINT_WRITE i) <=? varint_size + 32)%nat = true) as -> by (apply Nat.leb_le; lia).
  cbn [require mbind result_bind]. apply hash_to_scalar_eq.
Qed.

(** ** Derived keys *)

Lemma Hs_range data : 0 <= Hs data < l_order.
Proof. apply Z.mod_pos_bound. apply l_bound. Qed.

Lemma canon_Hs data : canon (scalar (Hs data)).
Proof. apply canon_scalar. Qed.
Lemma le_Hs data : le (scalar (Hs data)) = Hs data.
Proof. apply le_scalar_mod. Qed.

Lemma base_eqmod a b : a =[l_order]= b -> int_mul a eB = int_mul b eB.
Proof. apply int_mul_eqmod; [exact l_order_nz|exact base_order]. Qed.

(** The code shared by the derivations: add or subtract a multiple of the base point. *)
Lemma derive_add h e s : G3 h e -> canon s ->
  ge_tobytes (ge_p1p1_to_p2 (ge_add h (ge_p3_to_cached (ge_scalarmult_base ge_base s))))
  = encode_point (plus e (int_mul (le s) eB)).
Proof. intros. apply G2_tobytes. auto with cn. Qed.

Lemma derive_sub h e s : G3 h e -> canon s ->
  ge_tobytes (ge_p1p1_to_p2 (ge_sub h (ge_p3_to_cached (ge_scalarmult_base ge_base s))))
  = encode_point (plus e (opp (int_mul (le s) eB))).
Proof. intros. apply G2_tobytes. auto with cn. Qed.

Section Derive.
Context (d : bytes) (i : Z) (sfx : bytes) (n : nat) (Hn : (n <= 32)%nat).
Let t : Z := Hs (take 32 d ++ VARINT_WRITE i).
Let ts : Z := Hs (take 32 d ++ VARINT_WRITE i ++ take n sfx).

Ltac derive_tac lem e :=
  let h := fresh in let Hh := fresh in
  destruct (decode_encode_point e) as (h & -> & Hh);
  rewrite ?derivation_scalar_eq, ?derivation_scalar_suffix_eq by done; cbn [mbind result_bind];
  rewrite (lem h e _ Hh (canon_Hs _)), le_Hs; done.

Lemma derive_public_value e :
  derive_public_key d i (encode_point e) = Ok (Some (encode_point (plus e (int_mul t eB)))).
Proof. unfold derive_public_key. derive_tac derive_add e. Qed.

Lemma derive_public_suffix_value d' e :
  derive_public_key_suffix d d' i (encode_point e) sfx n
  = Ok (Some (encode_point (plus e (int_mul ts eB)))).
Proof using Hn. unfold derive_public_key_suffix. derive_tac derive_add e. Qed.

Lemma underive_public_value e :
  underive_public_key d i (encode_point e) = Ok (Some (encode_point (plus e (opp (int_mul t eB))))).
Proof. unfold underive_public_key. derive_tac derive_sub e. Qed.

Lemma underive_scalar_value e :
  underive_public_key_and_get_scalar d i (encode_point e)
  = Ok (Some (encode_point (plus e (opp (int_mul t eB))), scalar t)).
Proof. unfold underive_public_key_and_get_scalar. derive_tac derive_sub e. Qed.

Lemma underive_public_suffix_value e :
  underive_public_key_suffix d i (encode_point e) sfx n
  = Ok (Some (encode_point (plus e (opp (int_mul ts eB))))).
Proof using Hn. unfold underive_public_key_suffix. derive_tac derive_sub e. Qed.

Lemma derive_secret_value b : canon b ->
  derive_secret_key d i b = Ok (scalar ((le b + t) mod l_order)) /\
  derive_secret_key_suffix d i b sfx n = Ok (scalar ((le b + ts) mod l_order)).
Proof using Hn.
  intros Hb. unfold derive_secret_key, derive_secret_key_suffix. rewrite canon_check by done.
  cbn [require mbind result_bind]. rewrite derivation_scalar_eq, derivation_scalar_suffix_eq by done.
  cbn [mbind result_bind]. 
  rewrite !sc_add_value by (apply Hb || apply canon_Hs). rewrite !le_Hs. done.
Qed.

Lemma pub_add b u : pub_of ((le b + u) mod l_order) = encode_point (plus (int_mul (le b) eB) (int_mul u eB)).
Proof. unfold pub_of. by rewrite (base_eqmod _ _ (eqmod_mod _ _)), int_mul_add. Qed.

Lemma plus_minus (x y : epoint) : plus (plus x y) (opp y) = x.
Proof. by rewrite <- plus_assoc, plus_opp, plus_neutral_r. Qed.
End Derive.

(** ** Hashing to points *)

(** The point that [hash_to_ec] computes: eight times the Elligator image of
    the digest. *)
Definition hash_point (key : bytes) (f : epoint) : Prop :=
  exists e, elligator2 (le (digest (take 32 key))) e /\ f = int_mul 8 e.

Lemma hash_point_unique key f g : hash_point key f -> hash_point key g -> f = g.
Proof. intros (e & He & ->) (e' & He' & ->). by rewrite (elligator2_unique _ e e' He He'). Qed.

Lemma bind_ok {A B} (m : result A) (f : A -> result B) a : m = Ok a -> (a ← m; f a) = f a.
Proof. by intros ->. Qed.

Lemma of_assert_ok {A} (o : option A) a : o = Some a -> of_assert o = Ok a.
Proof. by intros ->. Qed.
Lemma or_abort_ok {A} (o : option A) a : o = Some a -> or_abort o = Ok a.
Proof. by intros ->. Qed.

Lemma hash_to_ec_value key : exists h f, hash_to_ec key = Ok h /\ G3 h f /\ hash_point key f.
Proof.
  destruct (fast_hash_eq (take 32 key)) as [E Hb].
  destruct (fromfe_elligator2 _ Hb) as (r & e & Er & Hr & He).
  exists (ge_p1p1_to_p3 (ge_mul8 r)), (int_mul 8 e). split_and!.
  - unfold hash_to_ec. rewrite (bind_ok _ _ _ E), (bind_ok _ _ _ (of_assert_ok _ _ Er)). reflexivity.
  - apply G3_p1p1, G1_mul8, Hr.
  - exists e. split; [exact He|reflexivity].
Qed.

(** Eight times a point has order dividing [l]. *)
Lemma hash_point_order key f : hash_point key f -> int_mul l_order f = neutral.
Proof. intros (e & _ & ->). rewrite <- int_mul_mul, Z.mul_comm. apply order_8l. Qed.

Lemma key_image_value pub s : canon s -> exists f, hash_point pub f /\
  generate_key_image pub s = Ok (encode_point (int_mul (le s) f)).
Proof.
  intros Hc. unfold generate_key_image. rewrite canon_check by done. cbn [require mbind result_bind].
  destruct (hash_to_ec_value pub) as (h & f & -> & Hh & Hf). exists f. split; [done|].
  cbn [mbind result_bind]. f_equal. apply G2_tobytes.
  apply (G_scalarmult s); [apply Hc|by apply b32_255|done].
Qed.

(** ** Random scalars *)

Definition ready (s : random_state) : Prop := length (rstate s) = 25%nat /\ curstate s = 1.

Lemma random_scalar_value s : ready s -> exists n s', random_scalar s = Ok (scalar n, s') /\
  0 <= n < l_order /\ ready s'.
Proof.
  intros [Hl Hc]. unfold random_scalar. destruct (generate_value 64 s Hl Hc) as [-> Hn].
  cbn [of_assert mbind result_bind]. rewrite sc_reduce_value.
  - eexists _, _. split_and!; [reflexivity|apply Z.mod_pos_bound, l_bound..|].
    split; [|done]. cbn [rstate]. by rewrite length_stirred.
  - split; [apply Forall_take, squeezed_is_bytes|exact Hn].
Qed.

Lemma bind_rand {A B} (m : rand A) (f : A -> rand B) s a s' : m s = Ok (a, s') ->
  (a ← m; f a) s = f a s'.
Proof. intros E. unfold mbind, rand_bind. by rewrite E. Qed.

Lemma bind_lift {A B} (m : result A) (f : A -> rand B) s a : m = Ok a ->
  (a ← lift m; f a) s = f a s.
Proof. intros ->. done. Qed.

(** ** Signatures *)

(** The equation of an accepted signature [(c, r)] on the points. *)
Definition schnorr (h : bytes) (e : epoint) (c r : Z) : Prop :=
  Hs (h ++ encode_point e ++ encode_point (plus (int_mul c e) (int_mul r eB))) = c.

#[global] Instance schnorr_dec h e c r : Decision (schnorr h e c r).
Proof. unfold schnorr. apply _. Defined.

(** The closing comparison of both verifiers. *)
Lemma sub_isnonzero a b : canon a -> is_b32 b ->
  (sc_isnonzero (sc_sub a b) =? 0) = bool_decide (le b mod l_order = le a).
Proof.
  intros Ha Hb. pose proof l_bound as Hl. pose proof (canon_range a Ha) as Hr. destruct Ha as [Ha _].
  rewrite sc_sub_value by done. rewrite sc_isnonzero_value by apply scalar_b32.
  fold (scalar ((le a - le b) mod l_order)). rewrite le_scalar_mod.
  assert (Hz : (le a - le b) mod l_order = 0 <-> le b mod l_order = le a).
  { rewrite Z.mod_divide, <- eqmod_divide by lia. unfold eqmod. rewrite (Z.mod_small (le a)) by done. by split. }
  destruct (Z.eqb_spec ((le a - le b) mod l_order) 0) as [E|E];
    [rewrite bool_decide_true|rewrite bool_decide_false]; [done|by apply Hz|done|by rewrite <- Hz].
Qed.

Lemma canon_mod s : canon s -> le s mod l_order = le s.
Proof. intros Hc. by apply Z.mod_small, canon_range. Qed.

Lemma G_check_signature h e c r : G3 h e -> canon c -> canon r ->
  ge_tobytes (ge_double_scalarmult_base_vartime ge_Bi c h r)
  = encode_point (plus (int_mul (le c) e) (int_mul (le r) eB)).
Proof.
  intros Hh Hc Hr. apply G2_tobytes.
  apply G_dsm_base; [apply Hc|apply Hr|by apply b32_253..|exact Hh|exact ge_Bi_ok].
Qed.

Lemma canon_dec s : Decision (canon s).
Proof. unfold canon, is_bytes_n, is_bytes. apply _. Defined.
#[global] Existing Instance canon_dec.

Definition sig_b32 (s : signature) : Prop := is_b32 (sig_c s) /\ is_b32 (sig_r s).
Definition sig_canon (s : signature) : Prop := canon (sig_c s) /\ canon (sig_r s).

#[global] Instance sig_canon_dec s : Decision (sig_canon s).
Proof. unfold sig_canon. apply _. Defined.

Lemma sig_check s : sig_b32 s ->
  negb (sc_check (sig_c s) =? 0) || negb (sc_check (sig_r s) =? 0) = negb (bool_decide (sig_canon s)).
Proof.
  intros [Hc Hr]. rewrite !sc_check_canon by done. rewrite <- negb_andb, <- bool_decide_and. done.
Qed.

Lemma check_signature_value h e s : is_b32 h -> sig_b32 s ->
  check_signature h (encode_point e) s =
  Ok (bool_decide (sig_canon s /\ schnorr h e (le (sig_c s)) (le (sig_r s)))).
Proof.
  intros Hh Hs. unfold check_signature. rewrite check_key_encode, (bind_ok _ _ tt eq_refl).
  destruct (decode_encode_point e) as (p & Ep & Hp). rewrite (bind_ok _ _ _ (or_abort_ok _ _ Ep)).
  rewrite sig_check by done. destruct (decide (sig_canon s)) as [Hc|Hc].
  - rewrite bool_decide_true by done. cbn [negb]. cbv zeta.
    rewrite (G_check_signature p e _ _ Hp (proj1 Hc) (proj2 Hc)), (bind_ok _ _ _ (hash_to_scalar_eq _)).
    rewrite (take_32 h Hh), (take_32 _ (encode_point_b32 e)).
    rewrite sub_isnonzero; [|apply canon_Hs|apply Hs]. rewrite le_Hs, canon_mod by apply Hc.
    f_equal. apply bool_decide_ext. unfold schnorr, s_comm_bytes. cbn [sc_h sc_key sc_comm].
    split; [intros E; split; [exact Hc|symmetry; exact E]|intros [_ E]; symmetry; exact E].
  - rewrite bool_decide_false by done. cbn [negb]. rewrite bool_decide_false; [done|]. by intros [? _].
Qed.

(** What the signer returns: the challenge and [k - c x]. *)
Lemma generate_signature_value h x s : is_b32 h -> canon x -> ready s ->
  exists k s', 0 <= k < l_order /\ ready s' /\
    let c := Hs (h ++ pub_of (le x) ++ pub_of k) in
    generate_signature h (pub_of (le x)) x s =
    Ok (mksig (scalar c) (scalar ((k - c * le x) mod l_order)), s').
Proof.
  intros Hh Hx Hs. destruct (random_scalar_value s Hs) as (k & s' & Ek & Hk & Hr).
  exists k, s'. split_and!; [lia|lia|done|]. cbv zeta.
  assert (Ck : canon (scalar k)) by (rewrite <- (Z.mod_small k l_order) by done; apply canon_scalar).
  assert (Lk : le (scalar k) = k) by (apply scalar_le; pose proof l_bound; lia).
  assert (Ea : signature_asserts (pub_of (le x)) x = Ok tt).
  { unfold signature_asserts. rewrite canon_check by done. cbn [require]. rewrite (bind_ok _ _ tt eq_refl).
    cbv zeta. rewrite base_bytes, bool_decide_true by (done || apply take_32, encode_point_b32). done. }
  unfold generate_signature. rewrite (bind_lift _ _ _ _ Ea), (bind_rand _ _ _ _ _ Ek).
  cbv zeta. rewrite base_bytes, Lk by done.
  rewrite (bind_lift _ _ _ _ (hash_to_scalar_eq _)). unfold s_comm_bytes. cbn [sc_h sc_key sc_comm].
  rewrite (take_32 h Hh), (take_32 (pub_of (le x)) (encode_point_b32 _)).
  unfold mret, rand_ret. rewrite sc_mulsub_value by (apply Hx || apply scalar_b32). rewrite le_Hs, Lk. done.
Qed.

(** The response cancels the secret: [c (x B) + (k - c x) B = k B]. *)
Lemma response_cancels c x k e : int_mul l_order e = neutral ->
  plus (int_mul c (int_mul x e)) (int_mul ((k - c * x) mod l_order) e) = int_mul k e.
Proof.
  intros He. rewrite (int_mul_eqmod _ _ (k - c * x) e l_order_nz He (eqmod_mod _ _)).
  rewrite <- int_mul_mul, <- int_mul_add. f_equal. ring.
Qed.

Lemma signature_accepted h x s : is_b32 h -> canon x -> ready s ->
  exists sig s', generate_signature h (pub_of (le x)) x s = Ok (sig, s') /\ ready s' /\ sig_canon sig /\
    check_signature h (pub_of (le x)) sig = Ok true.
Proof.
  intros Hh Hx Hs. destruct (generate_signature_value h x s Hh Hx Hs) as (k & s' & Hk & Hr & E). cbv zeta in E.
  eexists _, s'. split; [exact E|]. split; [done|]. clear E.
  set (c := CryptoProofs.Hs (h ++ pub_of (le x) ++ pub_of k)).
  assert (HS : sig_canon (mksig (scalar c) (scalar ((k - c * le x) mod l_order))))
    by (split; apply canon_scalar).
  split; [done|]. unfold pub_of at 1. rewrite check_signature_value by (done || split; apply scalar_b32).
  f_equal. apply bool_decide_true. split; [done|]. cbn [sig_c sig_r].
  subst c. rewrite le_Hs, le_scalar_mod. unfold schnorr. by rewrite response_cancels by exact base_order.
Qed.

(** ** Extraction of the secret *)

Lemma l_inverse a : ~ a =[l_order]= 0 -> exists k, k * a =[l_order]= 1.
Proof.
  intros Ha. exists (Z.invmod a l_order). unfold eqmod. rewrite Z.invmod_prime; [done|exact prime_l|].
  intros E. apply Ha. unfold eqmod. by rewrite E.
Qed.

Lemma order_8 (e : epoint) : int_mul l_order (int_mul 8 e) = neutral.
Proof. rewrite <- int_mul_mul, Z.mul_comm. apply order_8l. Qed.

Lemma cancel_left (a b c : epoint) : plus (plus a b) (plus c (opp a)) = plus c b.
Proof. by rewrite (plus_comm c), swap4, plus_opp, plus_neutral, plus_comm. Qed.

(** Two answers to different challenges for the same commitment give the
    secret key, up to a point of small order. *)
Lemma extract e c r c' r' : 0 <= c < l_order -> 0 <= c' < l_order -> c <> c' ->
  plus (int_mul c e) (int_mul r eB) = plus (int_mul c' e) (int_mul r' eB) ->
  exists x, 0 <= x < l_order /\ int_mul 8 e = int_mul 8 (int_mul x eB).
Proof.
  intros Hc Hc' Hne E.
  assert (Hd : int_mul (c - c') e = int_mul (r' - r) eB).
  { rewrite <- !Z.add_opp_r, !int_mul_add, !int_mul_opp. apply (plus_cancel (plus (int_mul c' e) (int_mul r eB))).
    rewrite cancel_left, (plus_comm (int_mul c' e)), cancel_left. rewrite E. apply plus_comm. }
  destruct (l_inverse (c - c')) as [k Hk].
  { intros H0. apply Hne. apply (eqmod_small l_order); [done..|].
    rewrite <- (Z.sub_add c' c), H0. done. }
  exists ((k * (r' - r)) mod l_order). split; [apply Z.mod_pos_bound, l_bound|].
  rewrite (base_eqmod _ _ (eqmod_mod _ _)), int_mul_mul, <- Hd, <- !int_mul_mul.
  replace (8 * k * (c - c')) with (k * (c - c') * 8) by ring. rewrite (int_mul_mul (k * (c - c'))).
  rewrite (int_mul_eqmod _ _ 1 _ l_order_nz (order_8 e) Hk). by rewrite int_mul_1.
Qed.

(** ** Multiples of the base point *)

Lemma base_multiple_zero a : int_mul a eB = neutral -> a =[l_order]= 0.
Proof.
  intros Ha. destruct (decide (a mod l_order = 0)) as [E|E]; [by unfold eqmod; rewrite E|].
  destruct (l_inverse a) as [k Hk]; [intros H0; apply E; unfold eqmod in H0; by rewrite H0|].
  destruct eB_nonzero. rewrite <- (int_mul_1 eB), <- (base_eqmod _ _ Hk), int_mul_mul, Ha.
  apply int_mul_neutral.
Qed.

Lemma base_multiple_inj a b : int_mul a eB = int_mul b eB -> a =[l_order]= b.
Proof.
  intros E. rewrite <- (Z.sub_add b a). rewrite (base_multiple_zero (a - b)); [done|].
  by rewrite <- Z.add_opp_r, int_mul_add, int_mul_opp, E, plus_opp.
Qed.

Lemma pub_of_inj a b : 0 <= a < l_order -> 0 <= b < l_order -> pub_of a = pub_of b -> a = b.
Proof.
  intros Ha Hb E%encode_point_inj%base_multiple_inj. by apply (eqmod_small l_order).
Qed.

(** ** Claims *)

Definition ready_start : random_state := mkrandom (replicate 25 0) 1.
Lemma ready_start_ok : ready ready_start.
Proof. by split. Qed.
Definition hash0 : bytes := replicate 32 0.
Lemma hash0_b32 : is_b32 hash0.
Proof. split; [by repeat constructor|reflexivity]. Qed.
Lemma canon_5 : canon (scalar 5).
Proof. split; [apply scalar_b32|vm_compute; reflexivity]. Qed.
Lemma canon_7 : canon (scalar 7).
Proof. split; [apply scalar_b32|vm_compute; reflexivity]. Qed.

(** [secret_key_to_public_key] accepts exactly the scalars below the group
    order and returns the encoding of the multiple of the base point, different
    secret keys having different public keys; [generate_keys] returns such a
    pair from any initialised generator. *)
Theorem keys_correct s t st : is_b32 s -> is_b32 t -> ready st ->
  secret_key_to_public_key s = (if le s <? l_order then Some (encode_point (int_mul (le s) eB)) else None) /\
  (forall k, secret_key_to_public_key s = Some k -> secret_key_to_public_key t = Some k -> s = t) /\
  exists pub sec st', generate_keys st = Ok ((pub, sec), st') /\ ready st' /\
    check_scalar sec = true /\ secret_key_to_public_key sec = Some pub.
Proof.
  intros Hs Ht Hst. split_and!; [by apply secret_key_value| |].
  - intros k. rewrite !secret_key_value by done.
    destruct (Z.ltb_spec (le s) l_order) as [Ls|], (Z.ltb_spec (le t) l_order) as [Lt|]; try discriminate.
    intros E1 E2. assert (E : pub_of (le s) = pub_of (le t)) by congruence.
    apply pub_of_inj in E; [|by apply canon_range..]. destruct Hs as [Bs Ls'], Ht as [Bt Lt'].
    apply le_inj; congruence.
  - destruct (random_scalar_value st Hst) as (n & st' & En & Hn & Hst').
    assert (Cn : canon (scalar n)) by (rewrite <- (Z.mod_small n l_order) by done; apply canon_scalar).
    exists (pub_of (le (scalar n))), (scalar n), st'. split_and!; [|done|by apply canon_check|by apply canon_pub].
    unfold generate_keys. rewrite (bind_rand _ _ _ _ _ En). unfold mret, rand_ret. by rewrite base_bytes.
Qed.

Lemma keys_correct_witness : exists pub sec st', generate_keys ready_start = Ok ((pub, sec), st') /\
  ready st' /\ check_scalar sec = true /\ secret_key_to_public_key sec = Some pub.
Proof.
  exact (proj2 (proj2 (keys_correct (scalar 5) (scalar 7) ready_start (scalar_b32 5) (scalar_b32 7) ready_start_ok))).
Defined.

(** C30: key agreement: for any two key pairs, each side's
    [generate_key_derivation] from its own secret key and the other's public
    key returns the same 32 bytes, the encoding of 8 a b B; an argument that
    does not decode gives the error return. *)
Theorem key_agreement a b pa pb q : is_b32 a -> is_b32 b -> is_b32 q ->
  secret_key_to_public_key a = Some pa -> secret_key_to_public_key b = Some pb ->
  generate_key_derivation pb a = generate_key_derivation pa b /\
  generate_key_derivation pb a = Ok (Some (encode_point (int_mul (8 * (le a * le b)) eB))) /\
  (generate_key_derivation q a = Ok None <-> check_key q = false).
Proof.
  intros Ha Hb Hq. rewrite !secret_key_value by done.
  destruct (Z.ltb_spec (le a) l_order) as [La|]; [|discriminate].
  destruct (Z.ltb_spec (le b) l_order) as [Lb|]; [|discriminate].
  intros E1 E2. apply (inj Some) in E1 as <-, E2 as <-.
  assert (Ca : canon a) by done. assert (Cb : canon b) by done.
  assert (E8 : forall u v, int_mul 8 (int_mul u (int_mul v eB)) = int_mul (8 * (u * v)) eB)
    by (intros; by rewrite <- !int_mul_mul, Z.mul_assoc).
  unfold pub_of. rewrite !derivation_value, !E8 by done. split_and!.
  - by rewrite (Z.mul_comm (le b)).
  - done.
  - unfold check_key. destruct (decode_cases q Hq) as [E|(h & e & E & -> & Hh)].
    + unfold generate_key_derivation. rewrite canon_check, (bind_ok _ _ tt eq_refl), E by done. done.
    + rewrite derivation_value, E by done. split; discriminate.
Qed.

Lemma key_agreement_witness :
  generate_key_derivation (pub_of (le (scalar 7))) (scalar 5)
  = generate_key_derivation (pub_of (le (scalar 5))) (scalar 7).
Proof.
  exact (proj1 (key_agreement (scalar 5) (scalar 7) _ _ hash0 (scalar_b32 5) (scalar_b32 7) hash0_b32
    (canon_pub _ canon_5) (canon_pub _ canon_7))).
Defined.

(** C29: one-time keys: from a derivation and an output index,
    [derive_public_key] of a spend key's public half is the public half of
    [derive_secret_key] of its secret half, [underive_public_key] takes it
    back, and [underive_public_key_and_get_scalar] also returns the scalar that
    was added. *)
Theorem derived_keys_match d i b pb : is_b32 b ->
  secret_key_to_public_key b = Some pb ->
  exists x px t, derive_secret_key d i b = Ok x /\ secret_key_to_public_key x = Some px /\
    derive_public_key d i pb = Ok (Some px) /\ underive_public_key d i px = Ok (Some pb) /\
    underive_public_key_and_get_scalar d i px = Ok (Some (pb, t)) /\ x = sc_add b t.
Proof.
  intros Hb. rewrite secret_key_value by done.
  destruct (Z.ltb_spec (le b) l_order) as [Lb|]; [|discriminate]. intros E. apply (inj Some) in E as <-.
  assert (Cb : canon b) by done. set (t := Hs (take 32 d ++ VARINT_WRITE i)).
  exists (scalar ((le b + t) mod l_order)), (pub_of ((le b + t) mod l_order)), (scalar t).
  destruct (derive_secret_value d i [] 0 ltac:(lia) b Cb) as [E1 _]. split_and!.
  - exact E1.
  - rewrite (canon_pub _ (canon_scalar _)). by rewrite le_scalar_mod.
  - rewrite pub_add. unfold pub_of at 1. by rewrite derive_public_value.
  - rewrite pub_add, underive_public_value. by rewrite plus_minus.
  - rewrite pub_add, underive_scalar_value. by rewrite plus_minus.
  - rewrite sc_add_value by (done || apply scalar_b32).
    assert (Lt : le (scalar t) = t) by apply le_Hs. by rewrite Lt.
Qed.

Lemma derived_keys_match_witness : exists x px t,
  derive_secret_key hash0 300 (scalar 5) = Ok x /\ secret_key_to_public_key x = Some px /\
  derive_public_key hash0 300 (pub_of (le (scalar 5))) = Ok (Some px) /\
  underive_public_key hash0 300 px = Ok (Some (pub_of (le (scalar 5)))) /\
  underive_public_key_and_get_scalar hash0 300 px = Ok (Some (pub_of (le (scalar 5)), t)) /\
  x = sc_add (scalar 5) t.
Proof.
  exact (derived_keys_match hash0 300 (scalar 5) _ (scalar_b32 5) (canon_pub _ canon_5)).
Defined.

(** With a suffix, [derive_secret_key_suffix] and
    [underive_public_key_suffix] hash the derivation, but
    [derive_public_key_suffix] hashes the 32 bytes [frame] found at the address
    of its pointer argument: its result is the public half of the derived
    secret key exactly when both hashes agree modulo the group order. *)
Theorem derive_suffix_mismatch frame d i b pb sfx n : is_b32 b -> (n <= 32)%nat ->
  secret_key_to_public_key b = Some pb ->
  exists x px, derive_secret_key_suffix d i b sfx n = Ok x /\ secret_key_to_public_key x = Some px /\
    underive_public_key_suffix d i px sfx n = Ok (Some pb) /\
    (derive_public_key_suffix frame d i pb sfx n = Ok (Some px) <->
     hash_to_scalar (take 32 frame ++ VARINT_WRITE i ++ take n sfx) =
     hash_to_scalar (take 32 d ++ VARINT_WRITE i ++ take n sfx)).
Proof.
  intros Hb Hn. rewrite secret_key_value by done.
  destruct (Z.ltb_spec (le b) l_order) as [Lb|]; [|discriminate]. intros E. apply (inj Some) in E as <-.
  assert (Cb : canon b) by done. set (ts := Hs (take 32 d ++ VARINT_WRITE i ++ take n sfx)).
  exists (scalar ((le b + ts) mod l_order)), (pub_of ((le b + ts) mod l_order)).
  destruct (derive_secret_value d i sfx n Hn b Cb) as [_ E1]. split_and!.
  - exact E1.
  - rewrite (canon_pub _ (canon_scalar _)). by rewrite le_scalar_mod.
  - rewrite pub_add, underive_public_suffix_value by done. by rewrite plus_minus.
  - rewrite pub_add. unfold pub_of at 1. rewrite derive_public_suffix_value by done.
    rewrite !hash_to_scalar_eq. fold ts. set (tf := Hs (take 32 frame ++ _)). split.
    + intros E. assert (Ee : encode_point (plus (int_mul (le b) eB) (int_mul tf eB))
        = encode_point (plus (int_mul (le b) eB) (int_mul ts eB))) by congruence.
      apply encode_point_inj, plus_cancel, base_multiple_inj, eqmod_small in Ee; [by rewrite Ee|apply Hs_range..].
    + intros E. apply (f_equal (fun r => match r with Ok s => le s | Stop _ => 0 end)) in E.
      unfold tf, ts in E. rewrite !le_Hs in E. unfold tf, ts. by rewrite E.
Qed.

Lemma derive_suffix_mismatch_witness : exists x px,
  derive_secret_key_suffix hash0 1 (scalar 5) hash0 8 = Ok x /\ secret_key_to_public_key x = Some px /\
  underive_public_key_suffix hash0 1 px hash0 8 = Ok (Some (pub_of (le (scalar 5)))) /\
  (derive_public_key_suffix (scalar 9) hash0 1 (pub_of (le (scalar 5))) hash0 8 = Ok (Some px) <->
   hash_to_scalar (take 32 (scalar 9) ++ VARINT_WRITE 1 ++ take 8 hash0) =
   hash_to_scalar (take 32 hash0 ++ VARINT_WRITE 1 ++ take 8 hash0)).
Proof.
  refine (derive_suffix_mismatch (scalar 9) hash0 1 (scalar 5) _ hash0 8 (scalar_b32 5) _ (canon_pub _ canon_5)). lia.
Defined.

(** C7: completeness: a signature that [generate_signature] produces for a
    32-byte hash with a key pair is accepted by [check_signature]; no assertion
    fails, and the generator stays usable. *)
Theorem signature_complete h x px st : is_b32 h -> is_b32 x -> secret_key_to_public_key x = Some px ->
  ready st -> exists sig st', generate_signature h px x st = Ok (sig, st') /\ ready st' /\
    check_signature h px sig = Ok true.
Proof.
  intros Hh Hx E Hst. rewrite secret_key_value in E by done.
  destruct (Z.ltb_spec (le x) l_order) as [Lx|]; [|discriminate]. apply (inj Some) in E as <-.
  destruct (signature_accepted h x st Hh (conj Hx Lx) Hst) as (sig & st' & E & Hr & _ & C). by exists sig, st'.
Qed.

Lemma signature_complete_witness : exists sig st',
  generate_signature hash0 (pub_of (le (scalar 5))) (scalar 5) ready_start = Ok (sig, st') /\ ready st' /\
  check_signature hash0 (pub_of (le (scalar 5))) sig = Ok true.
Proof.
  exact (signature_complete hash0 (scalar 5) _ ready_start hash0_b32 (scalar_b32 5) (canon_pub _ canon_5) ready_start_ok).
Defined.

(** C28: [check_signature] decides exactly the Schnorr equation: on a key that
    encodes the point [e] it accepts (c, r) iff both numbers are below the
    group order and c is the hash of the message, the key and c e + r B; a
    string that encodes no point fails the assertion. *)
Theorem check_signature_correct h pub sig : is_b32 h -> is_b32 pub -> sig_b32 sig ->
  (check_signature h pub sig = Ok true <->
   exists e, pub = encode_point e /\ sig_canon sig /\ schnorr h e (le (sig_c sig)) (le (sig_r sig))) /\
  (check_signature h pub sig = Stop AssertFailed <-> check_key pub = false).
Proof.
  intros Hh Hp Hs. destruct (decode_cases pub Hp) as [E|(p & e & E & -> & _)].
  - assert (Ek : check_key pub = false) by (unfold check_key; by rewrite E).
    unfold check_signature. rewrite Ek. cbn [require mbind result_bind]. split; [|done].
    split; [discriminate|]. intros (e & -> & _). by rewrite check_key_encode in Ek.
  - rewrite check_signature_value, check_key_encode by done. split; [|split; discriminate]. split.
    + intros Ee. exists e. split; [done|]. apply (bool_decide_unpack _). by injection Ee as ->.
    + intros (e' & Ee%encode_point_inj & HC). rewrite Ee. f_equal. by apply bool_decide_true.
Qed.

Lemma check_signature_correct_witness :
  check_signature hash0 (encode_point eB) (mksig (scalar 5) (scalar 7)) = Stop AssertFailed
  <-> check_key (encode_point eB) = false.
Proof.
  exact (proj2 (check_signature_correct hash0 (encode_point eB) (mksig (scalar 5) (scalar 7))
    hash0_b32 (encode_point_b32 eB) (conj (scalar_b32 5) (scalar_b32 7)))).
Defined.

(** Extraction: two signatures that [ge_double_scalarmult_base_vartime]
    maps to the same commitment with different challenges determine the secret
    key: 8 times the public point is 8 x B for an [x] computed from them. *)
Theorem signature_extraction h e s t : G3 h e -> sig_canon s -> sig_canon t ->
  le (sig_c s) <> le (sig_c t) ->
  ge_tobytes (ge_double_scalarmult_base_vartime ge_Bi (sig_c s) h (sig_r s)) =
  ge_tobytes (ge_double_scalarmult_base_vartime ge_Bi (sig_c t) h (sig_r t)) ->
  exists x, 0 <= x < l_order /\ int_mul 8 e = int_mul 8 (int_mul x eB).
Proof.
  intros Hh [Cs Rs] [Ct Rt] Hne. rewrite !(G_check_signature h e) by done.
  intros E%encode_point_inj. exact (extract e _ _ _ _ (canon_range _ Cs) (canon_range _ Ct) Hne E).
Qed.

Lemma signature_extraction_witness : exists x, 0 <= x < l_order /\
  int_mul 8 (int_mul 0 eB) = int_mul 8 (int_mul x eB).
Proof.
  refine (signature_extraction ge_p3_0 (int_mul 0 eB) (mksig (scalar 5) (scalar 7)) (mksig (scalar 7) (scalar 7))
    _ (conj canon_5 canon_7) (conj canon_7 canon_7) _ _).
  - rewrite int_mul_0. exact G3_0.
  - vm_compute. discriminate.
  - rewrite !(G_check_signature ge_p3_0 neutral); [|exact G3_0|exact canon_7|exact canon_7|exact G3_0|exact canon_5|exact canon_7].
    cbn [sig_c sig_r]. by rewrite !int_mul_neutral.
Defined.

(** Variable-length integers: what [VARINT_WRITE] writes for a 64-bit
    number takes at most ten bytes (the assertions on the buffers hold) and is
    read back from the front of any continuation, so that the data hashed for
    different output indices differ. *)
Theorem varint_roundtrip i rest : 0 <= i < 2 ^ 64 ->
  varint_read (VARINT_WRITE i ++ rest) = Some (i, rest) /\ (length (VARINT_WRITE i) <= varint_size)%nat.
Proof. intros Hi. split; [by apply VARINT_roundtrip|apply Nat.leb_le, length_VARINT]. Qed.

Lemma varint_roundtrip_witness :
  varint_read (VARINT_WRITE 18446744073709551615 ++ [7]) = Some (18446744073709551615, [7]).
Proof. refine (proj1 (varint_roundtrip 18446744073709551615 [7] _)). lia. Defined.

(** [hash_to_ec] passes the assertions of the code on every key and
    returns 8 times the Elligator image of the key's digest, a point in the
    subgroup of order l; [generate_key_image] is its multiple by the secret
    key, [hash_to_ec_ex], [generate_incomplete_key_image] and
    [hash_data_to_ec] encode it, and [hash_to_point] encodes the image itself. *)
Theorem hash_to_ec_correct key x : is_b32 x -> check_scalar x = true ->
  exists h f, hash_to_ec key = Ok h /\ G3 h (int_mul 8 f) /\ elligator2 (le (digest (take 32 key))) f /\
    int_mul l_order (int_mul 8 f) = neutral /\
    generate_key_image key x = Ok (encode_point (int_mul (le x) (int_mul 8 f))) /\
    hash_to_ec_ex key = Ok (encode_point (int_mul 8 f)) /\
    generate_incomplete_key_image key = Ok (encode_point (int_mul 8 f)) /\
    hash_data_to_ec (take 32 key) = Ok (encode_point (int_mul 8 f)) /\
    hash_to_point (digest (take 32 key)) = Ok (encode_point f).
Proof.
  unfold check_scalar. intros Hx Hc. rewrite sc_check_canon in Hc by done. apply bool_decide_eq_true_1 in Hc.
  destruct (hash_to_ec_value key) as (h & g & E & Hh & f & Hf & ->). exists h, f.
  destruct (fast_hash_eq (take 32 key)) as [Ed Hd].
  destruct (fromfe_elligator2 _ Hd) as (r & e & Er & Hr & He). rewrite (elligator2_unique _ _ _ He Hf) in Hr.
  destruct (key_image_value key x Hc) as (g & (f' & Hf' & ->) & Eg).
  rewrite (elligator2_unique _ _ _ Hf' Hf) in Eg.
  split_and!; [done|done|done|apply order_8|done|..].
  - unfold hash_to_ec_ex. rewrite (bind_ok _ _ _ E). by rewrite (G3_tobytes _ _ Hh).
  - unfold generate_incomplete_key_image. rewrite (bind_ok _ _ _ E). by rewrite (G3_tobytes _ _ Hh).
  - unfold hash_data_to_ec. rewrite (bind_ok _ _ _ Ed), (bind_ok _ _ _ (of_assert_ok _ _ Er)).
    by rewrite (G2_tobytes _ _ (G2_p1p1 _ _ (G1_mul8 _ _ Hr))).
  - unfold hash_to_point. rewrite (bind_ok _ _ _ (of_assert_ok _ _ Er)). by rewrite (G2_tobytes _ _ Hr).
Qed.

Lemma hash_to_ec_correct_witness : exists h f, hash_to_ec hash0 = Ok h /\ G3 h (int_mul 8 f) /\
  elligator2 (le (digest (take 32 hash0))) f /\ int_mul l_order (int_mul 8 f) = neutral /\
  generate_key_image hash0 (scalar 5) = Ok (encode_point (int_mul (le (scalar 5)) (int_mul 8 f))) /\
  hash_to_ec_ex hash0 = Ok (encode_point (int_mul 8 f)) /\
  generate_incomplete_key_image hash0 = Ok (encode_point (int_mul 8 f)) /\
  hash_data_to_ec (take 32 hash0) = Ok (encode_point (int_mul 8 f)) /\
  hash_to_point (digest (take 32 hash0)) = Ok (encode_point f).
Proof. refine (hash_to_ec_correct hash0 (scalar 5) (scalar_b32 5) _). vm_compute. reflexivity. Defined.

(** The order of the curve: multiplying any decoded point by 8
    ([ge_mul8]) and then by the group order l ([ge_scalarmult]) gives the
    neutral element, and l is a prime for which the multiples of the base point
    repeat only modulo l. *)
Theorem curve_order s h a b : is_b32 s -> ge_frombytes_vartime s = Some h ->
  ge_tobytes (ge_scalarmult (scalar l_order) (ge_p1p1_to_p3 (ge_mul8 (ge_p3_to_p2 h)))) = encode_point ezero /\
  Z.prime l_order /\ (int_mul a eB = int_mul b eB <-> a =[l_order]= b).
Proof.
  intros Hs Hd. destruct (decode_point s h Hs Hd) as (e & _ & P & HP & HE).
  assert (H2 : G2 (ge_p3_to_p2 h) e) by (exists P; split; [by apply ge_p3_to_p2_ok|done]).
  split_and!; [|exact prime_l|split; [apply base_multiple_inj|apply base_eqmod]].
  assert (Ll : le (scalar l_order) = l_order) by (apply scalar_le; pose proof l_bound; lia).
  destruct (G_scalarmult (scalar l_order) (scalar_b32 _) _ _ ltac:(rewrite Ll; pose proof l_bound; lia)
    (G3_p1p1 _ _ (G1_mul8 _ _ H2))) as [HG _].
  by rewrite (G2_tobytes _ _ HG), Ll, order_8.
Qed.

Lemma curve_order_witness : exists h, ge_frombytes_vartime (encode_point e8) = Some h /\
  ge_tobytes (ge_scalarmult (scalar l_order) (ge_p1p1_to_p3 (ge_mul8 (ge_p3_to_p2 h)))) = encode_point ezero.
Proof.
  destruct (decode_encode_point e8) as (h & E & _). exists h. split; [exact E|].
  exact (proj1 (curve_order (encode_point e8) h 0 0 (encode_point_b32 e8) E)).
Defined.
