(* ===== verification/RingProofs.v ===== *)
(** * Correctness of ring signatures

    The loops of [generate_ring_signature_ex] and [check_ring_signature_ex]
    compute lists of commitments on the points; a generated signature is
    accepted, acceptance is one equation, and the image is bound only up to
    points of small order. *)

From Stdlib Require Import Zdivisibility Zcong ZmodInv.
From S2P Require Import Prelude Keccak KeccakProofs Random CInt BitField Fe FeProofs FeField Sc ScProofs Ge GeProofs EdAssoc EdGroup GeMult GeMultProofs GeCodec GeSpec GeData GeDataProofs GeHash GroupOrder Crypto CryptoProofs.

#[local] Opaque ge_scalarmult_base ge_scalarmult ge_double_scalarmult_base_vartime
  ge_double_scalarmult_precomp_vartime ge_dsm_precomp ge_mul8 ge_add ge_sub ge_tobytes ge_p3_tobytes
  ge_frombytes_vartime ge_fromfe_frombytes_vartime ge_p1p1_to_p2 ge_p1p1_to_p3 ge_p3_to_cached
  squeezed stirred generate_random_bytes_not_thread_safe sc_reduce sc_reduce32 sc_add sc_sub sc_mulsub sc_check sc_isnonzero cn_fast_hash ge_base ge_Bi.

(** ** Ring signatures *)

(** The hash point as a function. *)
Definition hp (key : bytes) : epoint :=
  match hash_to_ec key with
  | Ok h => let zi := fval (P3.Z h) ^ (p25519 - 2) in
            default ezero (point_at ((fval (P3.X h) * zi) mod p25519, (fval (P3.Y h) * zi) mod p25519))
  | Stop _ => ezero
  end.

Lemma hp_value key : exists h, hash_to_ec key = Ok h /\ G3 h (hp key) /\ hash_point key (hp key).
Proof.
  destruct (hash_to_ec_value key) as (h & f & E & Hh & Hf). exists h. split; [exact E|].
  assert (Hp : hp key = f); [|by rewrite Hp]. unfold hp. rewrite E. cbv zeta.
  destruct Hh as (P & (_ & _ & _ & _ & HX & HY & HZ & _) & HE). destruct (affine_div P f HE) as [Ex Ey].
  assert (Cx : (fval (P3.X h) * fval (P3.Z h) ^ (p25519 - 2)) mod p25519 = ex f).
  { rewrite <- Ex. change (fval (P3.X h) * fval (P3.Z h) ^ (p25519 - 2) == Ed.pX P * Ed.pZ P ^ (p25519 - 2)).
    by rewrite HX, HZ. }
  assert (Cy : (fval (P3.Y h) * fval (P3.Z h) ^ (p25519 - 2)) mod p25519 = ey f).
  { rewrite <- Ey. change (fval (P3.Y h) * fval (P3.Z h) ^ (p25519 - 2) == Ed.pY P * Ed.pZ P ^ (p25519 - 2)).
    by rewrite HY, HZ. }
  rewrite Cx, Cy. by rewrite point_at_coords.
Qed.

Lemma hp_order key : int_mul l_order (hp key) = neutral.
Proof. destruct (hp_value key) as (_ & _ & _ & Hp). by apply hash_point_order in Hp. Qed.

Section Ring.
Context (img : epoint) (pre : list ge_cached) (Hpre : Gc_table pre img).

(** The commitments of the member [e] with the signature [s]. *)
Definition commit (e : epoint) (s : signature) : bytes * bytes :=
  let c := le (sig_c s) in let r := le (sig_r s) in
  (encode_point (plus (int_mul c e) (int_mul r eB)),
   encode_point (plus (int_mul r (hp (encode_point e))) (int_mul c img))).

Lemma ring_commit_value e s : sig_canon s -> ring_commit pre (encode_point e) s = Ok (commit e s).
Proof using Hpre.
  intros [Hc Hr]. unfold ring_commit.
  destruct (decode_encode_point e) as (p & Ep & Hp). rewrite (bind_ok _ _ _ (or_abort_ok _ _ Ep)). cbv zeta.
  destruct (hp_value (encode_point e)) as (q & Eq & Hq & _). rewrite (bind_ok _ _ _ Eq).
  rewrite (G_check_signature p e _ _ Hp Hc Hr). unfold commit. cbv zeta. do 2 f_equal.
  apply G2_tobytes, G_dsm; [apply Hr|apply Hc|by apply b32_253..|done|done].
Qed.

Definition csum (sigs : list signature) : Z := foldr (fun s z => le (sig_c s) + z) 0 sigs.

Lemma csum_app l k : csum (l ++ k) = csum l + csum k.
Proof. induction l as [|s l IH]; cbn; [done|]. unfold csum in *. lia. Qed.

Lemma add_sum z s : canon s -> sc_add (scalar (z mod l_order)) s = scalar ((z + le s) mod l_order).
Proof.
  intros Hs. rewrite sc_add_value by (apply Hs || apply scalar_b32). unfold scalar at 1.
  rewrite <- (Zplus_mod_idemp_l z). f_equal. fold (scalar (z mod l_order)). by rewrite le_scalar_mod.
Qed.

Lemma check_ring_loop_value es : forall sigs ab z, length sigs = length es -> Forall sig_b32 sigs ->
  check_ring_loop pre (encode_point <$> es) sigs ab (scalar (z mod l_order)) =
  Ok (if bool_decide (Forall sig_canon sigs)
      then Some (ab ++ zip_with commit es sigs, scalar ((z + csum sigs) mod l_order)) else None).
Proof using Hpre.
  induction es as [|e es IH]; intros [|s sigs] ab z Hl Hb; try discriminate.
  - cbn. by rewrite app_nil_r, Z.add_0_r.
  - apply Forall_cons_1 in Hb as [Hs Hb]. cbn [fmap list_fmap check_ring_loop]. rewrite sig_check by done.
    destruct (decide (sig_canon s)) as [Hc|Hc].
    + rewrite (bool_decide_true (sig_canon s)) by done. cbn [negb].
      rewrite (bind_ok _ _ _ (ring_commit_value e s Hc)), add_sum by apply Hc.
      injection Hl as Hl. change (encode_point <$> es) with (list_fmap _ _ encode_point es) in IH.
      rewrite IH by done. cbn [zip_with]. rewrite <- app_assoc. cbn [app csum foldr].
      rewrite (bool_decide_ext (Forall sig_canon (s :: sigs)) (Forall sig_canon sigs))
        by (rewrite list.Forall_cons; tauto). unfold csum. by rewrite Z.add_assoc.
    + rewrite (bool_decide_false (sig_canon s)) by done. cbn [negb].
      rewrite bool_decide_false; [done|]. rewrite list.Forall_cons. tauto.
Qed.

(** The members outside the signer's place: fresh scalars and their commitments. *)
Lemma ring_others j es : forall i pubs dn old rest ab z k s, length dn = i -> length old = length es ->
  (j < i \/ i + length es <= j)%nat -> ready s ->
  exists new s', ready s' /\ length new = length es /\ Forall sig_canon new /\
    ring_loop pre j i ((encode_point <$> es) ++ pubs)
      (mk_vars (dn ++ old ++ rest) ab (scalar (z mod l_order)) k) s =
    ring_loop pre j (i + length es) pubs
      (mk_vars (dn ++ new ++ rest) (ab ++ zip_with commit es new) (scalar ((z + csum new) mod l_order)) k) s'.
Proof using Hpre.
  induction es as [|e es IH]; intros i pubs dn [|o old] rest ab z k s Hd Ho Hj Hs; try discriminate.
  - exists [], s. split_and!; [done|done|constructor|]. cbn [fmap list_fmap app length zip_with csum foldr].
    by rewrite Nat.add_0_r, app_nil_r, Z.add_0_r.
  - destruct (random_scalar_value s Hs) as (c & s1 & Ec & Hc & Hs1).
    destruct (random_scalar_value s1 Hs1) as (r & s2 & Er & Hr & Hs2).
    assert (HS : sig_canon (mksig (scalar c) (scalar r))).
    { split; cbn [sig_c sig_r]; [rewrite <- (Z.mod_small c l_order)|rewrite <- (Z.mod_small r l_order)];
        (done || apply canon_scalar). }
    cbn [length] in Ho, Hj. injection Ho as Ho.
    destruct (IH (S i) pubs (dn ++ [mksig (scalar c) (scalar r)]) old rest
      (ab ++ [commit e (mksig (scalar c) (scalar r))]) (z + le (scalar c)) k s2)
      as (new & s' & Hs' & Hn & HF & E); [by rewrite length_app, Hd; cbn; lia|done|lia|done|].
    exists (mksig (scalar c) (scalar r) :: new), s'. split_and!; [done|by cbn; f_equal|by constructor|].
    cbn [fmap list_fmap app ring_loop]. rewrite (proj2 (Nat.eqb_neq i j)) by lia.
    rewrite (bind_rand _ _ _ (mk_vars ((dn ++ [mksig (scalar c) (scalar r)]) ++ old ++ rest)
      (ab ++ [commit e (mksig (scalar c) (scalar r))]) (scalar ((z + le (scalar c)) mod l_order)) k) s2).
    + rewrite E. cbn [length zip_with csum foldr sig_c]. rewrite <- !app_assoc. cbn [app].
      unfold csum. by rewrite Z.add_assoc, Nat.add_succ_r.
    + unfold ring_other. rewrite (bind_rand _ _ _ _ _ Ec), (bind_rand _ _ _ _ _ Er).
      rewrite (bind_lift _ _ _ _ (ring_commit_value e _ HS)). unfold mret, rand_ret. cbn [rv_sig rv_ab rv_sum rv_k].
      rewrite add_sum by apply HS. rewrite <- Hd, insert_app_r_alt, Nat.sub_diag by lia.
      by rewrite <- app_assoc.
Qed.

Lemma ring_own_value e v s : ready s -> exists n s', 0 <= n < l_order /\ ready s' /\
  ring_own (encode_point e) v s = Ok (mk_vars (rv_sig v)
    (rv_ab v ++ [(pub_of n, encode_point (int_mul n (hp (encode_point e))))]) (rv_sum v) (scalar n), s').
Proof.
  intros Hs. destruct (random_scalar_value s Hs) as (n & s' & En & Hn & Hs').
  exists n, s'. split_and!; [lia|lia|done|].
  assert (Cn : canon (scalar n)) by (rewrite <- (Z.mod_small n l_order) by done; apply canon_scalar).
  assert (Ln : le (scalar n) = n) by (apply scalar_le; pose proof l_bound; lia).
  unfold ring_own. rewrite (bind_rand _ _ _ _ _ En). cbv zeta.
  destruct (hp_value (encode_point e)) as (q & Eq & Hq & _). rewrite (bind_lift _ _ _ _ Eq).
  unfold mret, rand_ret. rewrite base_bytes, Ln by done.
  destruct (G_scalarmult (scalar n) (proj1 Cn) q _ (b32_255 _ Cn) Hq) as [H2 _].
  by rewrite (G2_tobytes _ _ H2), Ln.
Qed.

(** The whole loop: the signer at [length es1]. *)
Lemma ring_loop_value es1 e es2 sig1 o sig2 s : length sig1 = length es1 -> length sig2 = length es2 ->
  ready s -> exists new1 new2 n s', ready s' /\ 0 <= n < l_order /\ length new1 = length es1 /\
    length new2 = length es2 /\ Forall sig_canon new1 /\ Forall sig_canon new2 /\
    ring_loop pre (length es1) 0 (encode_point <$> es1 ++ e :: es2)
      (mk_vars (sig1 ++ o :: sig2) [] sc_0 []) s =
    Ok (mk_vars (new1 ++ o :: new2)
      (zip_with commit es1 new1 ++ (pub_of n, encode_point (int_mul n (hp (encode_point e))))
        :: zip_with commit es2 new2)
      (scalar ((csum new1 + csum new2) mod l_order)) (scalar n), s').
Proof using Hpre.
  intros H1 H2 Hs. change sc_0 with (scalar (0 mod l_order)). rewrite fmap_app, fmap_cons.
  destruct (ring_others (length es1) es1 0 (encode_point e :: (encode_point <$> es2)) [] sig1 (o :: sig2)
    [] 0 [] s) as (new1 & s1 & Hs1 & L1 & F1 & E1); [done|done|lia|done|].
  destruct (ring_own_value e (mk_vars (new1 ++ o :: sig2) (zip_with commit es1 new1)
    (scalar ((0 + csum new1) mod l_order)) []) s1 Hs1) as (n & s2 & Hn & Hs2 & E2).
  destruct (ring_others (length es1) es2 (S (length es1)) [] (new1 ++ [o]) sig2 []
    (zip_with commit es1 new1 ++ [(pub_of n, encode_point (int_mul n (hp (encode_point e))))])
    (0 + csum new1) (scalar n) s2) as (new2 & s3 & Hs3 & L2 & F2 & E3);
    [rewrite length_app; cbn; lia|done|lia|done|].
  exists new1, new2, n, s3. do 6 (split; [assumption|]).
  cbn [app] in E1. rewrite E1, Nat.add_0_l. cbn [ring_loop]. rewrite Nat.eqb_refl.
  rewrite (bind_rand _ _ _ _ _ E2). cbn [rv_sig rv_ab rv_sum rv_k].
  rewrite !app_nil_r, <- app_assoc in E3. cbn [app] in E3. rewrite E3. cbn [ring_loop].
  unfold mret, rand_ret. by rewrite <- !app_assoc, Z.add_0_l.
Qed.
End Ring.

(** The equation of an accepted ring signature. *)
Definition ring_eq (h : bytes) (img : epoint) (es : list epoint) (sigs : list signature) : Prop :=
  csum sigs mod l_order = Hs (rs_comm_bytes (mk_rs_comm h (zip_with (commit img) es sigs))).

#[global] Instance ring_eq_dec h img es sigs : Decision (ring_eq h img es sigs).
Proof. unfold ring_eq. apply _. Defined.

Lemma check_keys_encode es : forallb check_key (encode_point <$> es) = true.
Proof. induction es as [|e es IH]; cbn [fmap list_fmap forallb]; [done|]. by rewrite check_key_encode. Qed.

Lemma check_ring_value h img es sigs : is_b32 h -> length sigs = length es -> Forall sig_b32 sigs ->
  check_ring_signature_ex h (encode_point img) (encode_point <$> es) sigs =
  Ok (bool_decide (Forall sig_canon sigs /\ ring_eq h img es sigs)).
Proof.
  intros Hh Hl Hb. unfold check_ring_signature_ex. rewrite check_keys_encode, (bind_ok _ _ tt eq_refl).
  destruct (decode_encode_point img) as (p & -> & Hp). cbv zeta.
  change sc_0 with (scalar (0 mod l_order)).
  rewrite (bind_ok _ _ _ (check_ring_loop_value img _ (G_dsm_precomp p img Hp) es sigs [] 0 Hl Hb)).
  destruct (decide (Forall sig_canon sigs)) as [HF|HF].
  - rewrite (bool_decide_true (Forall _ _)), app_nil_l, Z.add_0_l by done.
    rewrite (bind_ok _ _ _ (hash_to_scalar_eq _)), sub_isnonzero by (apply canon_Hs || apply scalar_b32).
    rewrite le_Hs, le_scalar_mod, Z.mod_mod, (take_32 h Hh) by exact l_order_nz.
    f_equal. apply bool_decide_ext. unfold ring_eq. tauto.
  - rewrite (bool_decide_false (Forall _ _)) by done. rewrite bool_decide_false; [done|]. tauto.
Qed.

Lemma ring_asserts_ok x es j : canon x -> es !! j = Some (int_mul (le x) eB) ->
  ring_asserts (encode_point (int_mul (le x) (hp (pub_of (le x))))) (encode_point <$> es) x j = Ok tt.
Proof.
  intros Hx Hj. unfold ring_asserts. rewrite canon_check by done. rewrite (bind_ok _ _ tt eq_refl). cbv zeta.
  rewrite (list_lookup_total_correct (encode_point <$> es) j (pub_of (le x))) by (by rewrite list_lookup_fmap, Hj).
  rewrite base_bytes, (take_32 (pub_of _) (encode_point_b32 _)), bool_decide_true, (bind_ok _ _ tt eq_refl) by done.
  destruct (key_image_value (pub_of (le x)) x Hx) as (f & Hf & Ef). rewrite (bind_ok _ _ _ Ef).
  destruct (hp_value (pub_of (le x))) as (_ & _ & _ & Hp). rewrite (hash_point_unique _ _ _ Hf Hp).
  rewrite (take_32 _ (encode_point_b32 _)), bool_decide_true, (bind_ok _ _ tt eq_refl) by done.
  by rewrite check_keys_encode.
Qed.

(** The closing entry of the signer with the secret [x] and the image
    [x Hp + tor]; the image of the code has [tor] neutral. *)
Section Close.
Context (h : bytes) (x n : Z) (tor : epoint) (Hx : 0 <= x < l_order).
Context (es1 es2 : list epoint) (new1 new2 : list signature) (Hl : length new1 = length es1).
Let e : epoint := int_mul x eB.
Let f : epoint := hp (encode_point e).
Let img : epoint := plus (int_mul x f) tor.

Definition closing_challenge : Z :=
  (Hs (rs_comm_bytes (mk_rs_comm h (zip_with (commit img) es1 new1 ++
      (pub_of n, encode_point (int_mul n f)) :: zip_with (commit img) es2 new2)))
   - (csum new1 + csum new2)) mod l_order.

Definition closing_signature : signature :=
  mksig (scalar closing_challenge) (scalar ((n - closing_challenge * x) mod l_order)).

Lemma le_closing : le (scalar closing_challenge) = closing_challenge.
Proof. apply le_scalar_mod. Qed.

Context (Htor : int_mul closing_challenge tor = neutral).

(** The signer's commitments are those of the final entry. *)
Lemma own_commit : commit img e closing_signature = (pub_of n, encode_point (int_mul n f)).
Proof using Hx Htor.
  unfold commit, closing_signature. cbn [sig_c sig_r]. rewrite le_closing, le_scalar_mod.
  unfold pub_of, e at 1. rewrite response_cancels by exact base_order. fold f.
  unfold img. rewrite int_mul_plus, Htor, plus_neutral_r.
  by rewrite (plus_comm _ (int_mul _ (int_mul x f))), response_cancels by apply hp_order.
Qed.

(** The closing entry makes the challenges add up to the hash. *)
Lemma ring_close : ring_eq h img (es1 ++ e :: es2) (new1 ++ closing_signature :: new2).
Proof using Hx Hl Htor.
  unfold ring_eq. rewrite zip_with_app by done. cbn [zip_with]. rewrite own_commit.
  rewrite csum_app. cbn [csum foldr closing_signature sig_c]. fold (csum new2).
  rewrite le_closing. unfold closing_challenge. set (hv := Hs _).
  replace (csum new1 + ((hv - (csum new1 + csum new2)) mod l_order + csum new2))
    with ((hv - (csum new1 + csum new2)) mod l_order + (csum new1 + csum new2)) by ring.
  rewrite Zplus_mod_idemp_l, Z.sub_add. apply Z.mod_small, Hs_range.
Qed.

Lemma closing_accepted : is_b32 h -> length new2 = length es2 -> Forall sig_canon (new1 ++ new2) ->
  Forall sig_canon (new1 ++ closing_signature :: new2) /\
  check_ring_signature_ex h (encode_point img) (encode_point <$> es1 ++ e :: es2)
    (new1 ++ closing_signature :: new2) = Ok true.
Proof using Hx Hl Htor.
  intros Hh H2 [F1 F2]%Forall_app.
  assert (HF : Forall sig_canon (new1 ++ closing_signature :: new2)).
  { apply Forall_app. split; [done|]. constructor; [split; apply canon_scalar|done]. }
  split; [done|]. rewrite check_ring_value; [|done|by rewrite !length_app; cbn [length]; lia|].
  - f_equal. apply bool_decide_true. split; [done|exact ring_close].
  - eapply list.Forall_impl; [exact HF|]. by intros t [[] []].
Qed.
End Close.

Lemma sub_sum a z : canon a -> sc_sub a (scalar (z mod l_order)) = scalar ((le a - z) mod l_order).
Proof.
  intros Ha. rewrite sc_sub_value by (apply Ha || apply scalar_b32). fold (scalar (z mod l_order)).
  rewrite le_scalar_mod. by rewrite Zminus_mod_idemp_r.
Qed.

Lemma ring_accepted h x es j sig s : is_b32 h -> canon x -> es !! j = Some (int_mul (le x) eB) ->
  length sig = length es -> ready s ->
  let image := encode_point (int_mul (le x) (hp (pub_of (le x)))) in
  exists sigs s', generate_ring_signature_ex h image (encode_point <$> es) x j sig s = Ok (sigs, s') /\
    ready s' /\ length sigs = length es /\ Forall sig_canon sigs /\
    check_ring_signature_ex h image (encode_point <$> es) sigs = Ok true.
Proof.
  intros Hh Hx Hj Hl Hs. cbv zeta. pose proof (lookup_lt_Some _ _ _ Hj) as Hlt.
  unfold generate_ring_signature_ex.
  rewrite length_fmap, (proj2 (Nat.ltb_lt j _) Hlt), (bind_lift _ _ _ tt eq_refl).
  rewrite (bind_lift _ _ _ _ (ring_asserts_ok x es j Hx Hj)).
  set (img := int_mul (le x) (hp (pub_of (le x)))).
  destruct (decode_encode_point img) as (p & Ep & Hp). rewrite (bind_lift _ _ _ _ (or_abort_ok _ _ Ep)). cbv zeta.
  destruct (list_elem_of_split_length es j _ Hj) as (es1 & es2 & -> & ->).
  destruct (lookup_lt_is_Some_2 sig (length es1)) as [o Ho]; [by rewrite Hl|].
  destruct (list_elem_of_split_length sig _ _ Ho) as (sig1 & sig2 & -> & L1).
  assert (L2 : length sig2 = length es2) by (rewrite !length_app in Hl; cbn [length] in Hl; lia).
  destruct (ring_loop_value img _ (G_dsm_precomp p img Hp) es1 (int_mul (le x) eB) es2 sig1 o sig2 s
    (eq_sym L1) L2 Hs) as (new1 & new2 & n & s' & Hs' & Hn & N1 & N2 & F1 & F2 & E).
  rewrite (bind_rand _ _ _ _ _ E). cbn [rv_sig rv_ab rv_sum rv_k]. rewrite (take_32 h Hh).
  rewrite (bind_lift _ _ _ _ (hash_to_scalar_eq _)). unfold mret, rand_ret. clear E.
  rewrite sub_sum, le_Hs by apply canon_Hs.
  rewrite sc_mulsub_value by (apply Hx || apply scalar_b32).
  assert (Ln : le (scalar n) = n) by (apply scalar_le; pose proof l_bound; lia).
  rewrite Ln, le_scalar_mod, <- N1, insert_app_r_alt, Nat.sub_diag by lia. cbn [insert list_insert].
  pose proof (closing_accepted h (le x) n neutral (canon_range x Hx) es1 es2 new1 new2 N1
    (int_mul_neutral _) Hh N2 (Forall_app_2 _ _ _ F1 F2)) as [HF HC].
  fold (pub_of (le x)) in HF, HC. rewrite plus_neutral_r in HC.
  eexists _, s'. split; [reflexivity|]. split; [done|].
  split; [rewrite !length_app; cbn [length]; lia|].
  revert HF HC. unfold closing_signature, closing_challenge. rewrite plus_neutral_r. fold (pub_of (le x)).
  intros HF HC. exact (conj HF HC).
Qed.


(** ** Claims *)

Lemma int_mul_8_divides c (t : epoint) : int_mul 8 t = neutral -> (8 | c) -> int_mul c t = neutral.
Proof. intros Ht Hd. by apply (int_mul_divide 8). Qed.

(** C1: completeness of ring signatures: the signer whose public key stands at
    [sec_index] among keys that all decode, with the image of
    [generate_key_image], obtains one signature entry per member, passes every
    assertion, and the result is accepted by [check_ring_signature]. *)
Theorem ring_signature_complete h x px image es j sig st :
  is_b32 h -> is_b32 x -> secret_key_to_public_key x = Some px -> generate_key_image px x = Ok image ->
  (encode_point <$> es) !! j = Some px -> length sig = length es -> ready st ->
  exists sigs st', generate_ring_signature h image (encode_point <$> es) x j sig st = Ok (sigs, st') /\
    ready st' /\ length sigs = length es /\
    check_ring_signature h image (encode_point <$> es) sigs = Ok true.
Proof.
  intros Hh Hx E Ei Hj Hl Hst. rewrite secret_key_value in E by done.
  destruct (Z.ltb_spec (le x) l_order) as [Lx|]; [|discriminate]. apply (inj Some) in E as <-.
  assert (Cx : canon x) by done.
  rewrite list_lookup_fmap in Hj. apply fmap_Some in Hj as (e & Hj & Ee%encode_point_inj). rewrite <- Ee in Hj.
  destruct (key_image_value (pub_of (le x)) x Cx) as (f & Hf & Ef).
  destruct (hp_value (pub_of (le x))) as (_ & _ & _ & Hp). rewrite (hash_point_unique _ _ _ Hf Hp) in Ef.
  rewrite Ef in Ei. injection Ei as <-.
  destruct (ring_accepted h x es j sig st Hh Cx Hj Hl Hst) as (sigs & st' & E & Hr & HL & _ & HC).
  by exists sigs, st'.
Qed.

Definition sample_ring : list epoint := [e8; int_mul (le (scalar 5)) eB; eB].
Definition sample_sigs : list signature := replicate 3 (mksig hash0 hash0).

Lemma ring_signature_complete_witness : exists image sigs st',
  generate_key_image (pub_of (le (scalar 5))) (scalar 5) = Ok image /\
  generate_ring_signature hash0 image (encode_point <$> sample_ring) (scalar 5) 1 sample_sigs ready_start
    = Ok (sigs, st') /\
  check_ring_signature hash0 image (encode_point <$> sample_ring) sigs = Ok true.
Proof.
  destruct (key_image_value (pub_of (le (scalar 5))) (scalar 5) canon_5) as (f & _ & Ef).
  destruct (ring_signature_complete hash0 (scalar 5) _ _ sample_ring 1 sample_sigs ready_start hash0_b32
    (scalar_b32 5) (canon_pub _ canon_5) Ef eq_refl eq_refl ready_start_ok) as (sigs & st' & E & _ & _ & C).
  eexists _, sigs, st'. split; [exact Ef|]. split; [exact E|exact C].
Defined.

(** C27: [check_ring_signature] decides one equation: for keys and an image
    that decode, it accepts iff every number of every entry is below the group
    order and the challenges add up, modulo the order, to the hash of the
    message and the commitments c e + r B and r Hp(e) + c I of all members; an
    image that does not decode is rejected. *)
Theorem check_ring_correct h image es sigs : is_b32 h -> is_b32 image ->
  length sigs = length es -> Forall sig_b32 sigs ->
  exists b, check_ring_signature h image (encode_point <$> es) sigs = Ok b /\
    (b = true <-> exists img, image = encode_point img /\ Forall sig_canon sigs /\ ring_eq h img es sigs).
Proof.
  intros Hh Hi Hl Hb. unfold check_ring_signature. destruct (decode_cases image Hi) as [E|(p & e & _ & -> & _)].
  - exists false. split.
    + unfold check_ring_signature_ex. by rewrite check_keys_encode, (bind_ok _ _ tt eq_refl), E.
    + split; [discriminate|]. intros (img & -> & _). by destruct (decode_encode_point img) as (p & E' & _); rewrite E in E'.
  - eexists. split; [by apply check_ring_value|]. rewrite bool_decide_eq_true. split.
    + intros HC. by exists e.
    + intros (img & Ee%encode_point_inj & HC). by rewrite Ee.
Qed.

Lemma check_ring_correct_witness : exists b,
  check_ring_signature hash0 (encode_point eB) (encode_point <$> sample_ring) sample_sigs = Ok b /\
  (b = true <-> exists img, encode_point eB = encode_point img /\ Forall sig_canon sample_sigs /\
     ring_eq hash0 img sample_ring sample_sigs).
Proof.
  refine (check_ring_correct hash0 (encode_point eB) sample_ring sample_sigs hash0_b32 (encode_point_b32 eB) eq_refl _).
  by repeat constructor.
Defined.

(** C31: the image is not bound to the subgroup: for a point [tor] with
    8 tor = 0, [check_ring_signature] also accepts a signer with secret key [x]
    under the image x Hp + tor, the last entry closed as the signer closes it,
    whenever the closing challenge is a multiple of 8.  There are eight such
    points, so the spent-image test that compares images does not recognise
    the second use of a key. *)
Theorem ring_image_torsion h x n tor es1 es2 new1 new2
    (img := plus (int_mul (le x) (hp (pub_of (le x)))) tor)
    (last := closing_signature h (le x) n tor es1 es2 new1 new2) :
  is_b32 h -> canon x -> int_mul 8 tor = neutral -> length new1 = length es1 -> length new2 = length es2 ->
  Forall sig_canon (new1 ++ new2) -> (8 | le (sig_c last)) ->
  check_ring_signature h (encode_point img) (encode_point <$> es1 ++ int_mul (le x) eB :: es2)
    (new1 ++ last :: new2) = Ok true.
Proof.
  intros Hh Hx Ht L1 L2 HF Hd. subst last. unfold closing_signature in Hd. cbn [sig_c] in Hd.
  rewrite le_closing in Hd.
  exact (proj2 (closing_accepted h (le x) n tor (canon_range x Hx) es1 es2 new1 new2 L1
    (int_mul_8_divides _ _ Ht Hd) Hh L2 HF)).
Qed.

Lemma closing_single h x n tor :
  le (sig_c (closing_signature h x n tor [] [] [] [])) =
  Hs (h ++ pub_of n ++ encode_point (int_mul n (hp (pub_of x)))).
Proof.
  unfold closing_signature. cbn [sig_c]. rewrite le_closing. unfold closing_challenge.
  cbn [zip_with app csum foldr]. rewrite Z.add_0_r, Z.sub_0_r. unfold rs_comm_bytes.
  cbn [rs_h rs_ab fmap list_fmap mjoin list_join fst snd]. rewrite app_nil_r.
  apply Z.mod_small, Hs_range.
Qed.

(** A message for which the key pair of the secret 0 closes with a multiple of 8. *)
Lemma ring_image_torsion_witness :
  check_ring_signature (scalar 3)
    (encode_point (plus (int_mul (le (scalar 0)) (hp (pub_of (le (scalar 0))))) e8))
    [encode_point (int_mul (le (scalar 0)) eB)]
    [closing_signature (scalar 3) (le (scalar 0)) 0 e8 [] [] [] []] = Ok true.
Proof.
  refine (ring_image_torsion (scalar 3) (scalar 0) 0 e8 [] [] [] [] (scalar_b32 3) _ e8_8 eq_refl eq_refl _ _).
  - split; [apply scalar_b32|vm_compute; reflexivity].
  - constructor.
  - rewrite closing_single. unfold pub_of. rewrite !int_mul_0. apply Z.mod_divide; [lia|].
    vm_compute. reflexivity.
Defined.
