(* ===== verification/Stream.v ===== *)
(** * Binary streams: src/src/stream/reader.*, writer.*, cryptonote.h, crypto.h

    A [Reader] is a function of the bytes left in the stream; [None] is the
    exception it throws.  A [Writer] appends, so writing is the string of bytes
    appended, [None] for an exception; the streams written to are in memory and
    do not fail.  The classes [Readable] and [Format] state what a pair of
    functions promises its clients. *)

From S2P Require Import Prelude.

(** ** Readers and writers *)

Definition Reader (A : Type) : Type := bytes -> option (A * bytes).

#[export] Instance reader_ret : MRet Reader := fun A x s => Some (x, s).
#[export] Instance reader_bind : MBind Reader := fun A B f r s => '(x, s) ← r s; f x s.

(** [throw std::runtime_error] *)
Definition throw {A} : Reader A := fun _ => None.

(** [Reader::read(void *data, size_t size)] *)
Definition read (size : nat) : Reader bytes :=
  fun s => if (size <=? length s)%nat then Some (take size s, drop size s) else None.

Definition endOfStream (s : bytes) : bool := match s with [] => true | _ => false end.

(** The integer types of the overloads. *)
Inductive int_type := int8_t | uint8_t | int16_t | uint16_t | int32_t | uint32_t | int64_t | uint64_t.

#[export] Instance int_type_eq_dec : EqDecision int_type.
Proof. solve_decision. Defined.

Definition bits (T : int_type) : Z :=
  match T with int8_t | uint8_t => 8 | int16_t | uint16_t => 16 | int32_t | uint32_t => 32 | int64_t | uint64_t => 64 end.
Definition signed (T : int_type) : bool :=
  match T with int8_t | int16_t | int32_t | int64_t => true | _ => false end.

(** Conversion to [T]. *)
Definition to_type (T : int_type) (x : Z) : Z := if signed T then swrap (bits T) x else wrap (bits T) x.

(** The values of [T]. *)
Definition has_type (T : int_type) (x : Z) : Prop :=
  if signed T then - 2 ^ (bits T - 1) <= x < 2 ^ (bits T - 1) else 0 <= x < 2 ^ bits T.

Fixpoint readVarint_loop (T : int_type) (shift temp : Z) (s : bytes) : option (Z * bytes) :=
  match s with
  | [] => None
  | piece :: s =>
      if (bits T - 7 <=? shift) && ((1 .<< (bits T - shift)) <=? piece) then None
      else
        let temp := to_type T (u64 temp .| u64 ((piece .& 0x7f) .<< shift)) in
        if piece .& 0x80 =? 0 then
          if (piece =? 0) && negb (shift =? 0) then None else Some (temp, s)
        else readVarint_loop T (u8 (shift + 7)) temp s
  end.
Definition readVarint (T : int_type) : Reader Z := readVarint_loop T 0 0.

(** The loop divides a 64-bit value by 128: nine turns leave one bit. *)
Fixpoint writeVarint_loop (fuel : nat) (v : Z) : bytes :=
  match fuel with
  | O => [u8 v]
  | S fuel => if 0x80 <=? v then u8 (v .| 0x80) :: writeVarint_loop fuel (v .>> 7) else [u8 v]
  end.
Definition writeVarint (value : Z) : bytes := writeVarint_loop 9 (u64 value).

(** [operator>>] and [operator<<] on vectors: the size, then the items. *)
Fixpoint read_items {A} (r : Reader A) (size : nat) : Reader (list A) :=
  match size with
  | O => mret []
  | S size => x ← r; l ← read_items r size; mret (x :: l)
  end.

(** Every item takes a byte at least, so a size beyond the bytes left throws:
    in the allocation or at the end of the stream. *)
Definition read_vector {A} (r : Reader A) : Reader (list A) :=
  fun s => '(size, s) ← readVarint uint64_t s;
    if size <=? Z.of_nat (length s) then read_items r (Z.to_nat size) s else None.

Fixpoint write_items {A} (w : A -> option bytes) (v : list A) : option bytes :=
  match v with
  | [] => Some []
  | x :: v => a ← w x; b ← write_items w v; Some (a ++ b)
  end.
Definition write_vector {A} (w : A -> option bytes) (v : list A) : option bytes :=
  items ← write_items w v; Some (writeVarint (Z.of_nat (length v)) ++ items).

(** Strings: the size, then the bytes. *)
Definition read_string : Reader bytes :=
  fun s => '(size, s) ← readVarint uint64_t s;
    if size <=? Z.of_nat (length s) then read (Z.to_nat size) s else None.
Definition write_string (v : bytes) : option bytes := Some (writeVarint (Z.of_nat (length v)) ++ v).

(** The fields of a structure, one after the other. *)
Fixpoint cat (fields : list (option bytes)) : option bytes :=
  match fields with
  | [] => Some []
  | f :: fields => a ← f; b ← cat fields; Some (a ++ b)
  end.

(** [ISTREAMOP] and [OSTREAMOP]: a structure of [n] bytes. *)
Definition read_pod (n : nat) : Reader bytes := read n.
Definition write_pod (v : bytes) : option bytes := Some v.

Definition write_int (v : Z) : option bytes := Some (writeVarint v).

(** [readHeight] *)
Definition readHeight : Reader Z :=
  height ← readVarint uint64_t;
  if height =? 2 ^ 64 - 1 then mret (2 ^ 32 - 1)
  else if (2 ^ 32 - 1 <? height) && (height <? 2 ^ 64 - 1) then throw
  else mret (u32 height).

(** ** The contract *)

(** What is written is read back. *)
Class Readable {A} (write : A -> option bytes) (read : Reader A) (valid : A -> Prop) : Prop := {
  write_read x : valid x -> exists bs, write x = Some bs /\ is_bytes bs /\ forall rest, read (bs ++ rest) = Some (x, rest);
  write_nonempty x : valid x -> write x <> Some [];
}.

(** And only what would be written is read. *)
Class Format {A} (write : A -> option bytes) (read : Reader A) (valid : A -> Prop) : Prop := {
  #[global] format_readable :: Readable write read valid;
  read_write s x rest : is_bytes s -> read s = Some (x, rest) ->
    valid x /\ is_bytes rest /\ exists bs, write x = Some bs /\ s = bs ++ rest;
}.

(** ** Varints *)

Lemma bits_range T : 8 <= bits T <= 64.
Proof. destruct T; cbn; lia. Qed.

Lemma to_type_small T x : 0 <= x < 2 ^ (bits T - 1) -> to_type T x = x.
Proof.
  intros Hx. unfold to_type. pose proof (bits_range T). destruct (signed T).
  - apply swrap_small; [lia|]. lia.
  - apply wrap_small. split; [lia|]. eapply Z.lt_le_trans; [apply Hx|]. apply Z.pow_le_mono_r; lia.
Qed.

Lemma low_bits piece : is_u8 piece -> piece .& 0x7f = piece mod 128 /\ (piece .& 0x80 =? 0) = (piece <? 128).
Proof.
  intros H. split; [exact (Z.land_ones piece 7 ltac:(lia))|]. revert piece H.
  refine (fun p H => Bool.eqb_prop _ _ (byte_all (fun b => Bool.eqb (b .& 0x80 =? 0) (b <? 128)) _ p H)). vm_compute. reflexivity.
Qed.

Lemma high_byte v : u8 (v .| 0x80) = v mod 128 + 128.
Proof.
  assert (E : u8 (v .| 0x80) = (v mod 256) .| 0x80).
  { unfold wrap. rewrite <- Z.land_ones, Z.land_lor_distr_l, Z.land_ones by lia. done. }
  rewrite E. replace (v mod 128) with ((v mod 256) mod 128) by (change 256 with (128 * 2); rewrite Z.rem_mul_r by lia; rewrite Z.mul_comm, Z.mod_add, Z.mod_mod by lia; done).
  refine (proj1 (Z.eqb_eq _ _) (byte_all (fun b => b .| 0x80 =? b mod 128 + 128) _ _ (Z.mod_pos_bound v 256 ltac:(lia)))). vm_compute. reflexivity.
Qed.

(** One step of the accumulation: the bits of the piece go above those read. *)
Lemma step_value T shift t p : 0 <= shift < bits T -> 0 <= t < 2 ^ shift -> 0 <= p < 128 ->
  to_type T (u64 t .| u64 (p .<< shift)) = to_type T (t + p * 2 ^ shift).
Proof.
  intros Hs Ht Hp. pose proof (bits_range T) as B.
  assert (Hw : is_word 64 t) by (split; [lia|]; eapply Z.lt_le_trans; [apply Ht|]; apply Z.pow_le_mono_r; lia).
  assert (E : u64 t .| u64 (p .<< shift) = u64 (t + p * 2 ^ shift)).
  { rewrite <- lor_shiftl_add by (lia || done). unfold wrap. rewrite <- !Z.land_ones by lia. by rewrite Z.land_lor_distr_l. }
  rewrite E. unfold to_type, wrap, swrap. destruct (signed T).
  - f_equal. rewrite <- (Z.add_mod_idemp_l (t + _)), <- (Z.add_mod_idemp_l (_ mod 2 ^ 64)) by lia. f_equal. f_equal.
    replace (2 ^ 64) with (2 ^ bits T * 2 ^ (64 - bits T)) by (rewrite <- Z.pow_add_r by lia; f_equal; lia).
    rewrite Z.rem_mul_r by lia. rewrite (Z.mul_comm (2 ^ bits T)), Z.mod_add, Z.mod_mod by lia. done.
  - replace (2 ^ 64) with (2 ^ bits T * 2 ^ (64 - bits T)) by (rewrite <- Z.pow_add_r by lia; f_equal; lia).
    rewrite Z.rem_mul_r by lia. rewrite (Z.mul_comm (2 ^ bits T)), Z.mod_add, Z.mod_mod by lia. done.
Qed.

Lemma to_type_shift T shift t : 0 <= shift < bits T -> 0 <= t < 2 ^ shift -> to_type T t = t.
Proof. intros Hs Ht. apply to_type_small. split; [lia|]. eapply Z.lt_le_trans; [apply Ht|]. apply Z.pow_le_mono_r; lia. Qed.

Lemma shift_bound T shift : 0 <= shift < bits T -> (bits T - 7 <=? shift) = true -> 1 .<< (bits T - shift) <= 128.
Proof.
  intros Hs H. rewrite Z.shiftl_mul_pow2, Z.mul_1_l by lia. change 128 with (2 ^ 7). apply Z.pow_le_mono_r; lia.
Qed.

(** Reading a last piece. *)
Lemma read_last T shift t v rest : 0 <= shift < bits T -> 0 <= t < 2 ^ shift -> 0 <= v < 128 -> (shift = 0 \/ 0 < v) ->
  readVarint_loop T shift t ([u8 v] ++ rest) = if v <? 2 ^ (bits T - shift) then Some (to_type T (t + v * 2 ^ shift), rest) else None.
Proof.
  intros Hs Ht Hv H0. assert (Hb : is_u8 v) by (split; [lia|change (2 ^ 8) with 256; lia]). rewrite (wrap_small 8) by done. cbn [app readVarint_loop].
  destruct (low_bits v Hb) as [-> ->]. rewrite (Z.mod_small v 128), (step_value T shift t v) by lia.
  rewrite Z.shiftl_mul_pow2, Z.mul_1_l by lia. destruct (Z.ltb_spec v 128); [|lia]. replace ((v =? 0) && negb (shift =? 0)) with false by lia.
  destruct (Z.ltb_spec v (2 ^ (bits T - shift))).
  - replace ((bits T - 7 <=? shift) && (2 ^ (bits T - shift) <=? v)) with false by lia. done.
  - assert (bits T - shift < 7) by (apply (Z.pow_lt_mono_r_iff 2); [lia|lia|change (2 ^ 7) with 128; lia]).
    replace ((bits T - 7 <=? shift) && (2 ^ (bits T - shift) <=? v)) with true by lia. done.
Qed.

Lemma mod_128 v : (v mod 128 + 128) mod 128 = v mod 128.
Proof. replace (v mod 128 + 128) with (v mod 128 + 1 * 128) by lia. by rewrite Z.mod_add, Z.mod_mod by lia. Qed.

(** Reading what the loop wrote: the value, or an overflow. *)
Lemma read_write_loop T fuel shift t v rest :
  0 <= shift < bits T -> 0 <= t < 2 ^ shift -> 0 <= v < 2 ^ (7 * (Z.of_nat fuel + 1)) -> (shift = 0 \/ 0 < v) ->
  readVarint_loop T shift t (writeVarint_loop fuel v ++ rest) =
  if v <? 2 ^ (bits T - shift) then Some (to_type T (t + v * 2 ^ shift), rest) else None.
Proof.
  revert shift t v. induction fuel as [|fuel IH]; intros shift t v Hs Ht Hv H0; pose proof (bits_range T) as B; cbn [writeVarint_loop].
  { apply read_last; [done|done| |done]. change (2 ^ (7 * (Z.of_nat 0 + 1))) with 128 in Hv. lia. }
  destruct (Z.leb_spec 0x80 v) as [Hl|Hl]; [|apply read_last; (done || lia)].
  rewrite high_byte. pose proof (Z.mod_pos_bound v 128 ltac:(lia)) as M. cbn [app readVarint_loop].
  assert (Hb : is_u8 (v mod 128 + 128)) by (split; [lia|change (2 ^ 8) with 256; lia]). destruct (low_bits _ Hb) as [-> ->].
  rewrite mod_128, (step_value T shift t) by lia. destruct (Z.ltb_spec (v mod 128 + 128) 128); [lia|].
  destruct (bits T - 7 <=? shift) eqn:Eo; cbn [andb].
  - pose proof (shift_bound T shift Hs Eo) as S. replace (1 .<< (bits T - shift) <=? v mod 128 + 128) with true by lia.
    destruct (Z.ltb_spec v (2 ^ (bits T - shift))) as [Hlt|]; [|done]. rewrite Z.shiftl_mul_pow2, Z.mul_1_l in S by lia. lia.
  - apply Z.leb_gt in Eo. rewrite (wrap_small 8) by (split; change (2 ^ 8) with 256; lia).
    assert (Hp : 2 ^ (shift + 7) = 2 ^ shift * 128) by (rewrite Z.pow_add_r by lia; done).
    assert (Hd : v = 128 * (v / 128) + v mod 128) by (apply Z.div_mod; lia).
    assert (T1 : 0 <= t + v mod 128 * 2 ^ shift < 2 ^ (shift + 7)) by (rewrite Hp; nia).
    rewrite (to_type_shift T (shift + 7)) by lia. rewrite Z.shiftr_div_pow2 by lia. change (2 ^ 7) with 128.
    rewrite IH; [|lia|done| |right; apply Z.div_str_pos; lia].
    + replace (bits T - shift) with (7 + (bits T - (shift + 7))) by lia. rewrite (Z.pow_add_r 2 7) by lia. change (2 ^ 7) with 128.
      replace (v / 128 <? 2 ^ (bits T - (shift + 7))) with (v <? 128 * 2 ^ (bits T - (shift + 7))).
      * replace (t + v mod 128 * 2 ^ shift + v / 128 * 2 ^ (shift + 7)) with (t + v * 2 ^ shift) by (rewrite Hp; nia). done.
      * apply Bool.eq_iff_eq_true. rewrite !Z.ltb_lt. split; intros; [apply Z.div_lt_upper_bound; lia|]. nia.
    + split; [apply Z.div_pos; lia|]. apply Z.div_lt_upper_bound; [lia|]. eapply Z.lt_le_trans; [apply Hv|]. change 128 with (2 ^ 7).
      rewrite <- Z.pow_add_r by lia. apply Z.pow_le_mono_r; lia.
Qed.

Lemma pieces_more fuel fuel' v : 0 <= v < 2 ^ (7 * (Z.of_nat fuel + 1)) -> (fuel <= fuel')%nat -> writeVarint_loop fuel' v = writeVarint_loop fuel v.
Proof.
  revert fuel' v. induction fuel as [|fuel IH]; intros fuel' v Hv Hf.
  - change (2 ^ (7 * (Z.of_nat 0 + 1))) with 128 in Hv. destruct fuel'; [done|]. cbn [writeVarint_loop]. destruct (Z.leb_spec 0x80 v); [lia|done].
  - destruct fuel' as [|fuel']; [lia|]. cbn [writeVarint_loop]. destruct (0x80 <=? v); [|done]. f_equal. apply IH; [|lia].
    rewrite Z.shiftr_div_pow2 by lia. split; [apply Z.div_pos; lia|]. apply Z.div_lt_upper_bound; [lia|]. rewrite <- Z.pow_add_r by lia.
    eapply Z.lt_le_trans; [apply Hv|]. apply Z.pow_le_mono_r; lia.
Qed.

(** What is read is what the loop writes: no other string is accepted. *)
Lemma read_loop_canonical T shift t s x rest (k : nat) : shift = 7 * Z.of_nat k -> shift < bits T -> 0 <= t < 2 ^ shift -> is_bytes s ->
  readVarint_loop T shift t s = Some (x, rest) ->
  exists v, 0 <= v < 2 ^ (bits T - shift) /\ (shift = 0 \/ 0 < v) /\ x = to_type T (t + v * 2 ^ shift) /\ s = writeVarint_loop (9 - k) v ++ rest.
Proof.
  revert shift t k. induction s as [|piece s IH]; intros shift t k Hk Hs Ht Hb H; [done|]. pose proof (bits_range T) as B. cbn [readVarint_loop] in H.
  apply Forall_cons_1 in Hb as [Hp Hb]. destruct (low_bits piece Hp) as [E1 E2]. rewrite E1, E2 in H. rewrite (step_value T shift t) in H by lia.
  destruct (_ && _) eqn:Eo; [done|]. rewrite Z.shiftl_mul_pow2, Z.mul_1_l in Eo by lia. pose proof (Z.mod_pos_bound piece 128 ltac:(lia)) as M.
  assert (Hp8 : 0 <= piece < 256) by exact Hp. destruct (Z.ltb_spec piece 128) as [Hl|Hl].
  - destruct (_ && _) eqn:Ez in H; [done|]. injection H as <- <-. exists piece. rewrite Z.mod_small by lia. split_and!; [lia| |lia|done|].
    + destruct (Z.leb_spec (bits T - 7) shift); [lia|]. eapply Z.lt_le_trans; [exact Hl|]. change 128 with (2 ^ 7). apply Z.pow_le_mono_r; lia.
    + rewrite (pieces_more 0) by (change (2 ^ (7 * (Z.of_nat 0 + 1))) with 128; lia). cbn [writeVarint_loop app]. by rewrite (wrap_small 8).
  - destruct (Z.leb_spec (bits T - 7) shift) as [Hge|Hge].
    { pose proof (shift_bound T shift ltac:(lia) ltac:(lia)) as S. rewrite Z.shiftl_mul_pow2, Z.mul_1_l in S by lia. lia. }
    assert (Hq : 2 ^ (shift + 7) = 2 ^ shift * 128) by (rewrite Z.pow_add_r by lia; done).
    rewrite (wrap_small 8) in H by (split; change (2 ^ 8) with 256; lia).
    assert (T1 : 0 <= t + piece mod 128 * 2 ^ shift < 2 ^ (shift + 7)) by (rewrite Hq; nia). rewrite (to_type_shift T (shift + 7)) in H by lia.
    destruct (IH (shift + 7) _ (S k) ltac:(lia) ltac:(lia) T1 Hb H) as (v & Hv & Hn & -> & ->).
    assert (Hm : piece mod 128 = piece - 128) by (replace piece with (piece - 128 + 1 * 128) at 1 by lia; rewrite Z.mod_add by lia; apply Z.mod_small; lia).
    assert (Hv2 : 2 ^ (bits T - shift) = 128 * 2 ^ (bits T - (shift + 7))) by (replace (bits T - shift) with (7 + (bits T - (shift + 7))) by lia; rewrite (Z.pow_add_r 2 7) by lia; done).
    exists (128 * v + piece mod 128). split_and!; [lia|lia|lia|f_equal; rewrite Hq; ring|].
    replace (9 - k)%nat with (S (9 - S k)) by lia. cbn [writeVarint_loop]. destruct (Z.leb_spec 0x80 (128 * v + piece mod 128)); [|lia].
    rewrite high_byte, Z.shiftr_div_pow2 by lia. change (2 ^ 7) with 128. replace (128 * v + piece mod 128) with (piece mod 128 + v * 128) by lia. rewrite Z.mod_add, Z.div_add by lia.
    rewrite (Z.mod_mod piece), (Z.div_small (piece mod 128)) by lia. cbn [app]. f_equal; lia.
Qed.

(** ** Varints of a type *)

Lemma u64_type T x : has_type T x -> u64 x = if x <? 0 then x + 2 ^ 64 else x.
Proof.
  intros H. unfold has_type in H. assert (B : - 2 ^ 63 <= x < 2 ^ 64) by (destruct T; cbn in H; lia).
  unfold wrap. destruct (Z.ltb_spec x 0); [|apply Z.mod_small; lia]. rewrite <- (Z.mod_add x 1), Z.mod_small by lia. lia.
Qed.

Lemma to_type_u64 T x : has_type T x -> to_type T (u64 x) = x.
Proof.
  intros H. rewrite (u64_type T) by done. unfold has_type, to_type, swrap, wrap in *. destruct T; cbn [signed bits] in *;
    destruct (Z.ltb_spec x 0); lia.
Qed.

Lemma write_loop_bytes fuel v : is_bytes (writeVarint_loop fuel v).
Proof.
  revert v. induction fuel as [|fuel IH]; intros v; cbn [writeVarint_loop]; [|destruct (_ <=? _)]; repeat constructor; try apply IH;
    apply (Z.mod_pos_bound _ (2 ^ 8)); lia.
Qed.

Lemma write_varint_bytes v : is_bytes (writeVarint v).
Proof. apply write_loop_bytes. Qed.

(** Reading a written integer of the same type. *)
Lemma readVarint_write T x rest : has_type T x ->
  readVarint T (writeVarint x ++ rest) = if u64 x <? 2 ^ bits T then Some (x, rest) else None.
Proof.
  intros H. unfold readVarint, writeVarint. pose proof (bits_range T). pose proof (Z.mod_pos_bound x (2 ^ 64) ltac:(lia)) as B.
  rewrite read_write_loop; [|lia|done|unfold wrap; change (2 ^ (7 * (Z.of_nat 9 + 1))) with (2 ^ 70); lia|by left].
  rewrite Z.sub_0_r, Z.add_0_l, Z.mul_1_r. by rewrite to_type_u64.
Qed.

(** ** Formats *)

Lemma reader_bind_Some {A B} (r : Reader A) (f : A -> Reader B) s y rest :
  (r ≫= f) s = Some (y, rest) <-> exists x s', r s = Some (x, s') /\ f x s' = Some (y, rest).
Proof.
  unfold mbind, reader_bind. cbn. destruct (r s) as [[x s']|]; cbn; split.
  - intros H. by exists x, s'.
  - intros (x' & s'' & [= <- <-] & H). done.
  - done.
  - intros (x' & s'' & [=] & _).
Qed.

Lemma write_varint_nonempty v : writeVarint v <> [].
Proof. unfold writeVarint. cbn [writeVarint_loop]. by destruct (_ <=? _). Qed.

#[export] Instance int_format T : (signed T = false \/ T = int64_t) -> Format write_int (readVarint T) (has_type T).
Proof.
  intros HT. pose proof (bits_range T) as B. split; [split|].
  - intros x H. eexists. split; [reflexivity|]. split; [apply write_varint_bytes|]. intros rest. rewrite readVarint_write by done.
    rewrite (u64_type T) by done. unfold has_type in H. destruct (Z.ltb_spec x 0);
      destruct T, HT as [HT|HT]; try discriminate; cbn in *; try lia; replace (_ <? _) with true by lia; done.
  - intros x _ [= H]. by apply write_varint_nonempty in H.
  - intros s x rest Hs H. destruct (read_loop_canonical T 0 0 s x rest 0 eq_refl ltac:(lia) ltac:(lia) Hs H) as (v & Hv & _ & -> & E).
    rewrite Z.sub_0_r in Hv. rewrite Z.add_0_l, Z.mul_1_r. assert (Hr : is_bytes rest) by (subst s; by apply Forall_app in Hs as [_ ?]).
    assert (Hx : has_type T (to_type T v) /\ u64 (to_type T v) = v).
    { destruct T, HT as [HT|HT]; try discriminate; unfold has_type, to_type, swrap, wrap in *; cbn [signed bits] in *; split; lia. }
    split_and!; [apply Hx|done|]. exists (writeVarint (to_type T v)). split; [done|]. unfold writeVarint. destruct Hx as [_ ->]. exact E.
Qed.

Lemma read_take n s x rest : is_bytes s -> read n s = Some (x, rest) -> is_bytes_n n x /\ is_bytes rest /\ s = x ++ rest.
Proof.
  intros Hs H. unfold read in H. destruct (Nat.leb_spec n (length s)); [|done]. injection H as <- <-. split_and!.
  - split; [by apply Forall_take|rewrite length_take; lia].
  - by apply Forall_drop.
  - by rewrite take_drop.
Qed.

Lemma read_app n x rest : length x = n -> read n (x ++ rest) = Some (x, rest).
Proof.
  intros Hx. unfold read. rewrite length_app. destruct (Nat.leb_spec n (length x + length rest)); [|lia].
  by rewrite take_app_length', drop_app_length'.
Qed.

#[export] Instance pod_format n : (0 < n)%nat -> Format write_pod (read_pod n) (is_bytes_n n).
Proof.
  intros Hn. split; [split|].
  - intros x [Hb Hl]. exists x. split_and!; [done|done|]. intros rest. by apply read_app.
  - intros x [_ Hl] [= ->]. cbn in Hl. lia.
  - intros s x rest Hs H. destruct (read_take n s x rest Hs H) as (? & ? & ->). split_and!; [done..|]. by exists x.
Qed.

Lemma size_ok n rest : Z.of_nat n < 2 ^ 64 -> readVarint uint64_t (writeVarint (Z.of_nat n) ++ rest) = Some (Z.of_nat n, rest).
Proof. intros H. rewrite readVarint_write by (cbn; lia). rewrite (wrap_small 64) by (split; lia). replace (_ <? _) with true by (cbn [bits]; lia). done. Qed.

#[export] Instance string_format : Format write_string read_string (fun s => is_bytes s /\ Z.of_nat (length s) < 2 ^ 64).
Proof.
  pose proof (int_format uint64_t (or_introl eq_refl)) as I. split; [split|].
  - intros x [Hb Hl]. eexists. split_and!; [done|apply Forall_app_2; [apply write_varint_bytes|done]|]. intros rest. unfold read_string.
    rewrite <- app_assoc, size_ok by done. cbn. rewrite length_app. replace (_ <=? _) with true by lia. rewrite Nat2Z.id. by apply read_app.
  - intros x _ [= H]. apply app_eq_nil in H as [H _]. by apply write_varint_nonempty in H.
  - intros s x rest Hs H. unfold read_string in H. destruct (readVarint uint64_t s) as [[size s']|] eqn:E; [|done]. cbn in H.
    destruct (read_write s size s' Hs E) as (Hsz & Hs' & bs & [= <-] & ->). destruct (Z.leb_spec size (Z.of_nat (length s'))); [|done]. cbn in Hsz.
    destruct (read_take _ _ _ _ Hs' H) as ([Hb Hl] & Hr & ->). assert (E2 : Z.of_nat (length x) = size) by lia. split_and!; [done|lia|done|].
    exists (writeVarint size ++ x). unfold write_string. rewrite E2. split; [done|]. by rewrite app_assoc.
Qed.

Section Items.
Context {A} (w : A -> option bytes) (r : Reader A) (valid : A -> Prop).

Lemma items_write_read {F : Readable w r valid} l : Forall valid l -> exists bs, write_items w l = Some bs /\ is_bytes bs /\ (length l <= length bs)%nat /\
  forall rest, read_items r (length l) (bs ++ rest) = Some (l, rest).
Proof.
  induction 1 as [|x l Hx Hl (bs & E & B & L & R)]; [exists []; split_and!; [done|constructor|done|done]|].
  destruct (write_read x Hx) as (b & Eb & Bb & Rb). exists (b ++ bs). cbn [write_items]. rewrite Eb, E. split_and!; [done|by apply Forall_app_2| |].
  - rewrite length_app. cbn. destruct b; [by destruct (write_nonempty x Hx)|cbn; lia].
  - intros rest. cbn [length read_items]. apply reader_bind_Some. exists x, (bs ++ rest). rewrite <- app_assoc. split; [done|].
    apply reader_bind_Some. by exists l, rest.
Qed.

Lemma items_read_write {F : Format w r valid} n s l rest : is_bytes s -> read_items r n s = Some (l, rest) ->
  Forall valid l /\ length l = n /\ is_bytes rest /\ exists bs, write_items w l = Some bs /\ s = bs ++ rest.
Proof.
  revert s l. induction n as [|n IH]; intros s l Hs H; cbn [read_items] in H.
  - injection H as <- <-. split_and!; [constructor|done|done|]. by exists [].
  - apply reader_bind_Some in H as (x & s' & Hx & H). apply reader_bind_Some in H as (l' & s'' & Hl & H). injection H as <- <-.
    destruct (read_write s x s' Hs Hx) as (Vx & Hs' & b & Eb & ->). destruct (IH s' l' Hs' Hl) as (Vl & Ll & Hr & bs & Ebs & ->).
    split_and!; [by constructor|cbn; lia|done|]. exists (b ++ bs). cbn [write_items]. rewrite Eb, Ebs. split; [done|]. by rewrite app_assoc.
Qed.

#[export] Instance vector_readable {F : Readable w r valid} : Readable (write_vector w) (read_vector r) (fun l => Forall valid l /\ Z.of_nat (length l) < 2 ^ 64).
Proof.
  split.
  - intros l [Hv Hl]. destruct (items_write_read l Hv) as (bs & E & B & L & R). unfold write_vector. rewrite E. eexists.
    split_and!; [done|apply Forall_app_2; [apply write_varint_bytes|done]|]. intros rest. unfold read_vector. rewrite <- app_assoc, size_ok by done.
    cbn. rewrite length_app. replace (_ <=? _) with true by lia. rewrite Nat2Z.id. apply R.
  - intros l _ H. unfold write_vector in H. destruct (write_items w l); [|done]. injection H as H. apply app_eq_nil in H as [H _].
    by apply write_varint_nonempty in H.
Qed.

#[export] Instance vector_format {F : Format w r valid} : Format (write_vector w) (read_vector r) (fun l => Forall valid l /\ Z.of_nat (length l) < 2 ^ 64).
Proof.
  pose proof (int_format uint64_t (or_introl eq_refl)) as I. split; [apply _|].
  intros s l rest Hs H. unfold read_vector in H. destruct (readVarint uint64_t s) as [[size s']|] eqn:E; [|done]. cbn in H.
  destruct (read_write s size s' Hs E) as (Hsz & Hs' & bs & [= <-] & ->). destruct (Z.leb_spec size (Z.of_nat (length s'))); [|done]. cbn in Hsz.
  destruct (items_read_write _ _ _ _ Hs' H) as (Vl & Ll & Hr & b & Eb & ->). assert (E2 : Z.of_nat (length l) = size) by lia. split_and!; [done|lia|done|].
  unfold write_vector. rewrite Eb, E2. eexists. split; [reflexivity|]. by rewrite app_assoc.
Qed.
End Items.

(** Variable-length integers: a written value of any integer type is read back with that type, followed by the
    untouched rest of the stream, except negative values of 8, 16 and 32 bits, which are written with the ten
    bytes of their 64-bit conversion and throw when read; and reading accepts only the string that is written
    for the value (overlong and overflowing strings throw). *)
Theorem stream_varint_roundtrip T x rest : has_type T x ->
  readVarint T (writeVarint x ++ rest) = (if (x <? 0) && negb (bool_decide (T = int64_t)) then None else Some (x, rest)) /\
  (forall s y, is_bytes s -> readVarint T s = Some (y, rest) -> has_type T y /\ s = writeVarint (wrap (bits T) y) ++ rest).
Proof.
  intros H. pose proof (bits_range T) as B. split.
  - rewrite readVarint_write, (u64_type T) by done. destruct T; unfold has_type in H; cbn in H |- *; destruct (Z.ltb_spec x 0);
      cbn [andb negb]; try (replace (_ <? _) with true by lia; done); replace (_ <? _) with false by lia; done.
  - intros s y Hs E. destruct (read_loop_canonical T 0 0 s y rest 0 eq_refl ltac:(lia) ltac:(lia) Hs E) as (v & Hv & _ & -> & ->).
    rewrite Z.sub_0_r in Hv. rewrite Z.add_0_l, Z.mul_1_r. split.
    + destruct T; unfold has_type, to_type, swrap, wrap; cbn [signed bits] in *; lia.
    + unfold writeVarint. do 2 f_equal. destruct T; unfold to_type, swrap, wrap; cbn [signed bits] in *; lia.
Qed.

Lemma stream_varint_roundtrip_witness : readVarint int32_t (writeVarint 300 ++ [7]) = Some (300, [7]) /\ readVarint int32_t (writeVarint (-1) ++ [7]) = None.
Proof.
  split; [exact (proj1 (stream_varint_roundtrip int32_t 300 [7] ltac:(cbn; lia)))|exact (proj1 (stream_varint_roundtrip int32_t (-1) [7] ltac:(cbn; lia)))].
Defined.
