(* ===== verification/Types.v ===== *)
(** * Data of the node: src/src/cryptonote/types.h

    Keys, hashes, key images and signatures are byte strings of their size. *)

From S2P Require Import Prelude.

Record base_input_t := mkbase_input { blockIndex : Z }.
Record key_input_t := mkkey_input { key_amount : Z; outputIndexes : list Z; keyImage : bytes }.
Record multi_signature_input_t := mkmulti_input { multi_amount : Z; signatureCount : Z; outputIndex : Z }.

(** [boost::variant] *)
Inductive transaction_input_t :=
  | base_input (i : base_input_t)
  | key_input (i : key_input_t)
  | multi_signature_input (i : multi_signature_input_t).

Record key_output_t := mkkey_output { out_key : bytes }.
Record multi_signature_output_t := mkmulti_output { out_keys : list bytes; requiredSignatureCount : Z }.
Inductive transaction_output_target_t :=
  | key_output (o : key_output_t)
  | multi_signature_output (o : multi_signature_output_t).
Record transaction_output_t := mkoutput { out_amount : Z; target : transaction_output_target_t }.

Record transaction_prefix_t := mkprefix {
  version : Z;
  unlockTime : Z;
  inputs : list transaction_input_t;
  outputs : list transaction_output_t;
  extra : bytes;
}.
Record transaction_t := mktransaction { prefix : transaction_prefix_t; signatures : list (list bytes) }.

Record transaction_index_t := mkindex { index_block : Z; index_transaction : Z }.
Record multisignature_output_usage_t := mkusage { usage_index : transaction_index_t; usage_output : Z; isUsed : bool }.
Record transaction_entry_t := mkentry { entry_tx : transaction_t; m_global_output_indexes : list Z }.

Record block_header_t := mkheader {
  majorVersion : Z;
  minorVersion : Z;
  nonce : Z;
  timestamp : Z;
  previousBlockHash : bytes;
}.
Record block_t := mkblock { header : block_header_t; baseTransaction : transaction_t; transactionHashes : list bytes }.
Record block_entry_t := mkblock_entry {
  bl : block_t;
  height : Z;
  block_cumulative_size : Z;
  cumulative_difficulty : Z;
  already_generated_coins : Z;
  transactions : list transaction_entry_t;
}.

Record account_public_address_t := mkaddress { spendPublicKey : bytes; viewPublicKey : bytes }.
Record account_keys_t := mkaccount { address : account_public_address_t; spendSecretKey : bytes; viewSecretKey : bytes }.
Record key_pair_t := mkpair { publicKey : bytes; secretKey : bytes }.

(** Inhabitants for total lookups. *)
#[export] Instance input_inhabited : Inhabited transaction_input_t := populate (base_input (mkbase_input 0)).
#[export] Instance output_inhabited : Inhabited transaction_output_t := populate (mkoutput 0 (key_output (mkkey_output []))).

(** ** Values of the C types *)

Definition valid_input (i : transaction_input_t) : Prop :=
  match i with
  | base_input i => is_u32 (blockIndex i)
  | key_input i => is_u64 (key_amount i) /\ (Forall is_u32 (outputIndexes i) /\ Z.of_nat (length (outputIndexes i)) < 2 ^ 64) /\ is_b32 (keyImage i)
  | multi_signature_input i => is_u64 (multi_amount i) /\ is_u8 (signatureCount i) /\ is_u32 (outputIndex i)
  end.
Definition valid_target (t : transaction_output_target_t) : Prop :=
  match t with
  | key_output o => is_b32 (out_key o)
  | multi_signature_output o => (Forall is_b32 (out_keys o) /\ Z.of_nat (length (out_keys o)) < 2 ^ 64) /\ is_u8 (requiredSignatureCount o)
  end.
Definition valid_output (o : transaction_output_t) : Prop := is_u64 (out_amount o) /\ valid_target (target o).
Definition valid_prefix (p : transaction_prefix_t) : Prop :=
  is_u8 (version p) /\ is_u64 (unlockTime p) /\ (Forall valid_input (inputs p) /\ Z.of_nat (length (inputs p)) < 2 ^ 64) /\
  (Forall valid_output (outputs p) /\ Z.of_nat (length (outputs p)) < 2 ^ 64) /\ (is_bytes (extra p) /\ Z.of_nat (length (extra p)) < 2 ^ 64).
Definition valid_header (h : block_header_t) : Prop :=
  is_u8 (majorVersion h) /\ is_u8 (minorVersion h) /\ is_u64 (timestamp h) /\ is_b32 (previousBlockHash h) /\ is_u32 (nonce h).

(** [signature_size_visitor]: the signatures an input needs. *)
Definition getSignaturesCount (i : transaction_input_t) : nat :=
  match i with
  | base_input _ => 0
  | key_input i => length (outputIndexes i)
  | multi_signature_input i => Z.to_nat (signatureCount i)
  end.

Definition valid_signatures (i : transaction_input_t) (sigs : list bytes) : Prop :=
  length sigs = getSignaturesCount i /\ Forall (is_bytes_n 64) sigs.
Definition valid_transaction (tx : transaction_t) : Prop :=
  valid_prefix (prefix tx) /\ Forall2 valid_signatures (inputs (prefix tx)) (signatures tx).
Definition valid_block (b : block_t) : Prop :=
  valid_header (header b) /\ valid_transaction (baseTransaction b) /\
  (Forall is_b32 (transactionHashes b) /\ Z.of_nat (length (transactionHashes b)) < 2 ^ 64).
