(* ===== verification/Binary.v ===== *)
(** * The binary format of transactions and blocks

    src/src/cryptonote/core/transaction/serializer/basics.cpp over the binary
    serializers (src/src/serialization/BinaryInputStreamSerializer.cpp,
    BinaryOutputStreamSerializer.cpp, SerializationOverloads.h) and
    src/src/cryptonote/structures/array.hpp.  A [serialize] function of the
    source runs in two modes; here it is a writer and a reader. *)

From S2P Require Import Prelude Stream Types.

(** ** The serializers *)

(** [binary(&tag, sizeof(tag), "type")] *)
Definition write_tag (tag : Z) : option bytes := Some [tag].
Definition read_tag : Reader Z := b ← read 1; mret (b !!! 0%nat).

(** [binary(&nonce, sizeof(nonce), "nonce")] *)
Definition write_raw32 (x : Z) : option bytes := Some (le_bytes 4 x).
Definition read_raw32 : Reader Z := b ← read 4; mret (le b).

(** [serializeAsBinary] on a vector of bytes. *)
Definition write_binary : bytes -> option bytes := write_string.
Definition read_binary : Reader bytes := read_string.

(** ** Transactions *)

Definition write_base_input (i : base_input_t) : option bytes := cat [write_int (blockIndex i)].
Definition read_base_input : Reader base_input_t := h ← readVarint uint32_t; mret (mkbase_input h).

(** [serializeVarintVector] *)
Definition write_varint_vector : list Z -> option bytes := write_vector write_int.
Definition read_varint_vector : Reader (list Z) := read_vector (readVarint uint32_t).

Definition write_key_input (i : key_input_t) : option bytes :=
  cat [write_int (key_amount i); write_varint_vector (outputIndexes i); write_pod (keyImage i)].
Definition read_key_input : Reader key_input_t :=
  a ← readVarint uint64_t; o ← read_varint_vector; k ← read_pod 32; mret (mkkey_input a o k).

Definition write_multi_signature_input (i : multi_signature_input_t) : option bytes :=
  cat [write_int (multi_amount i); write_int (signatureCount i); write_int (outputIndex i)].
Definition read_multi_signature_input : Reader multi_signature_input_t :=
  a ← readVarint uint64_t; c ← readVarint uint8_t; o ← readVarint uint32_t; mret (mkmulti_input a c o).

Definition input_tag (i : transaction_input_t) : Z :=
  match i with base_input _ => 0xff | key_input _ => 0x2 | multi_signature_input _ => 0x3 end.
Definition write_input (i : transaction_input_t) : option bytes :=
  cat [write_tag (input_tag i);
       match i with
       | base_input i => write_base_input i
       | key_input i => write_key_input i
       | multi_signature_input i => write_multi_signature_input i
       end].

(** [getVariantValue] *)
Definition read_input : Reader transaction_input_t :=
  tag ← read_tag;
  if tag =? 0xff then v ← read_base_input; mret (base_input v)
  else if tag =? 0x2 then v ← read_key_input; mret (key_input v)
  else if tag =? 0x3 then v ← read_multi_signature_input; mret (multi_signature_input v)
  else throw.

Definition write_key_output (o : key_output_t) : option bytes := cat [write_pod (out_key o)].
Definition read_key_output : Reader key_output_t := k ← read_pod 32; mret (mkkey_output k).

Definition write_multi_signature_output (o : multi_signature_output_t) : option bytes :=
  cat [write_vector write_pod (out_keys o); write_int (requiredSignatureCount o)].
Definition read_multi_signature_output : Reader multi_signature_output_t :=
  k ← read_vector (read_pod 32); c ← readVarint uint8_t; mret (mkmulti_output k c).

Definition target_tag (t : transaction_output_target_t) : Z :=
  match t with key_output _ => 0x2 | multi_signature_output _ => 0x3 end.
Definition write_target (t : transaction_output_target_t) : option bytes :=
  cat [write_tag (target_tag t);
       match t with key_output o => write_key_output o | multi_signature_output o => write_multi_signature_output o end].
Definition read_target : Reader transaction_output_target_t :=
  tag ← read_tag;
  if tag =? 0x2 then v ← read_key_output; mret (key_output v)
  else if tag =? 0x3 then v ← read_multi_signature_output; mret (multi_signature_output v)
  else throw.

Definition write_output (o : transaction_output_t) : option bytes := cat [write_int (out_amount o); write_target (target o)].
Definition read_output : Reader transaction_output_t := a ← readVarint uint64_t; t ← read_target; mret (mkoutput a t).

Definition write_prefix (p : transaction_prefix_t) : option bytes :=
  cat [write_int (version p); write_int (unlockTime p); write_vector write_input (inputs p);
       write_vector write_output (outputs p); write_binary (extra p)].
Definition read_prefix : Reader transaction_prefix_t :=
  v ← readVarint uint8_t; u ← readVarint uint64_t; i ← read_vector read_input; o ← read_vector read_output; e ← read_binary;
  mret (mkprefix v u i o e).

(** The signatures of the inputs in order, without sizes. *)
Fixpoint write_signatures (ins : list transaction_input_t) (sigs : list (list bytes)) : option bytes :=
  match ins, sigs with
  | i :: ins, s :: sigs =>
      if (getSignaturesCount i =? length s)%nat then cat [write_items write_pod s; write_signatures ins sigs] else None
  | _, _ => Some []
  end.
Fixpoint read_signatures (ins : list transaction_input_t) : Reader (list (list bytes)) :=
  match ins with
  | [] => mret []
  | i :: ins => s ← read_items (read_pod 64) (getSignaturesCount i); l ← read_signatures ins; mret (s :: l)
  end.

Definition write_transaction (tx : transaction_t) : option bytes :=
  let ins := inputs (prefix tx) in
  cat [write_prefix (prefix tx);
       match signatures tx with
       | [] => if forallb (fun i => getSignaturesCount i =? 0)%nat ins then Some [] else None
       | sigs => if (length ins =? length sigs)%nat then write_signatures ins sigs else None
       end].

(** [signatures.resize(inputs.size())]: no signatures are expected when there are no inputs. *)
Definition read_transaction : Reader transaction_t :=
  p ← read_prefix; s ← read_signatures (inputs p); mret (mktransaction p s).

(** ** Blocks *)

Definition write_header (h : block_header_t) : option bytes :=
  cat [write_int (majorVersion h); write_int (minorVersion h); write_int (timestamp h); write_pod (previousBlockHash h); write_raw32 (nonce h)].
Definition read_header : Reader block_header_t :=
  a ← readVarint uint8_t; b ← readVarint uint8_t; t ← readVarint uint64_t; p ← read_pod 32; n ← read_raw32;
  mret (mkheader a b n t p).

Definition write_block (b : block_t) : option bytes :=
  cat [write_header (header b); write_transaction (baseTransaction b); write_vector write_pod (transactionHashes b)].
Definition read_block : Reader block_t :=
  h ← read_header; t ← read_transaction; l ← read_vector (read_pod 32); mret (mkblock h t l).

Definition write_address (a : account_public_address_t) : option bytes := cat [write_pod (spendPublicKey a); write_pod (viewPublicKey a)].
Definition read_address : Reader account_public_address_t := s ← read_pod 32; v ← read_pod 32; mret (mkaddress s v).

(** ** [BinaryArray] *)

(** [from]: the whole array is consumed. *)
Definition from {A} (r : Reader A) (binaryArray : bytes) : option A :=
  '(x, rest) ← r binaryArray; if endOfStream rest then Some x else None.
Definition to {A} (w : A -> option bytes) (object : A) : option bytes := w object.

(** ** Formats of structures *)

(** A reader that goes on after some fields, and the fields left, which are read back from what is written. *)
Definition Writes {R} (k : Reader R) (fs : R -> list (option bytes)) (P : R -> Prop) : Prop :=
  forall x, P x -> exists bs, cat (fs x) = Some bs /\ is_bytes bs /\ forall rest, k (bs ++ rest) = Some (x, rest).

Record Parses {R} (k : Reader R) (fs : R -> list (option bytes)) (P : R -> Prop) : Prop := {
  parses_write : Writes k fs P;
  parses_read s x rest : is_bytes s -> k s = Some (x, rest) -> P x /\ is_bytes rest /\ exists bs, cat (fs x) = Some bs /\ s = bs ++ rest;
}.

(** [Q] collects the values of the fields that were read. *)
Lemma writes_step {A R} (proj : R -> A) {wa ra va} (F : Readable wa ra va) (k : A -> Reader R) fs P Q :
  (forall a, va a -> Writes (k a) fs (fun x => P x /\ (Q x /\ proj x = a))) ->
  Writes (ra ≫= k) (fun x => wa (proj x) :: fs x) (fun x => (va (proj x) /\ P x) /\ Q x).
Proof.
  intros H x [[Ha Hp] Hq]. destruct (write_read (proj x) Ha) as (a & Ea & Ba & Ra).
  destruct (H _ Ha x (conj Hp (conj Hq eq_refl))) as (b & Eb & Bb & Rb). exists (a ++ b). cbn [cat]. rewrite Ea, Eb.
  split_and!; [done|by apply Forall_app_2|]. intros rest. apply reader_bind_Some. exists (proj x), (b ++ rest). by rewrite <- app_assoc.
Qed.

Lemma parses_step {A R} (proj : R -> A) {wa ra va} (F : Format wa ra va) (k : A -> Reader R) fs P Q :
  (forall a, va a -> Parses (k a) fs (fun x => P x /\ (Q x /\ proj x = a))) ->
  Parses (ra ≫= k) (fun x => wa (proj x) :: fs x) (fun x => (va (proj x) /\ P x) /\ Q x).
Proof.
  intros H. split; [apply (writes_step proj format_readable); intros a Ha; by apply H|].
  intros s x rest Hs E. apply reader_bind_Some in E as (a & s' & Ea & E). destruct (read_write s a s' Hs Ea) as (Ha & Hs' & ba & Wa & ->).
  destruct (parses_read _ _ _ (H _ Ha) s' x rest Hs' E) as ((Hp & Hq & <-) & Hr & bb & Wb & ->). split_and!; [done|done|done|done|].
  exists (ba ++ bb). cbn [cat]. rewrite Wa, Wb. split; [done|]. by rewrite app_assoc.
Qed.

Lemma writes_end {R} (x0 : R) P : (forall x, P x -> x = x0) -> Writes (mret x0) (fun _ => []) P.
Proof. intros H x ->%H. exists []. split_and!; [done|constructor|done]. Qed.

Lemma parses_end {R} (x0 : R) P : (forall x, P x <-> x = x0) -> Parses (mret x0) (fun _ => []) P.
Proof.
  intros H. split; [apply writes_end; intros x; by apply H|].
  intros s x rest Hs [= <- <-]. split_and!; [by apply H|done|]. by exists [].
Qed.

(** Only the first field matters for that. *)
Lemma cat_nonempty {A wa ra va} (F : Readable wa ra va) (a : A) fs : va a -> cat (wa a :: fs) <> Some [].
Proof.
  intros Ha E. cbn [cat] in E. pose proof (write_nonempty a Ha) as N. destruct (wa a) as [b|]; [|done]. cbn in E.
  destruct (cat fs); [|done]. injection E as E. apply app_eq_nil in E as [-> _]. done.
Qed.

Lemma writes_readable {R} w (k : Reader R) fs P valid : (forall x, w x = cat (fs x)) -> (forall x, valid x -> P x /\ True) ->
  Writes k fs (fun x => P x /\ True) -> (forall x, valid x -> w x <> Some []) -> Readable w k valid.
Proof. intros Hw Hv W N. split; [|done]. intros x Hx%Hv. rewrite Hw. by apply W. Qed.

Lemma parses_format {R} w (k : Reader R) fs P valid : (forall x, w x = cat (fs x)) -> (forall x, valid x <-> P x /\ True) ->
  Parses k fs (fun x => P x /\ True) -> (forall x, valid x -> w x <> Some []) -> Format w k valid.
Proof.
  intros Hw Hv [W K] N. split; [by apply (writes_readable w k fs P); [done|apply Hv|done|done]|].
  intros s x rest Hs E. rewrite Hw. destruct (K s x rest Hs E) as (?%Hv & ? & ?). done.
Qed.

Ltac fields projs :=
  lazymatch projs with
  | (?p, ?F, ?ps) => apply (parses_step p F); intros ? ?; fields ps
  | tt => apply parses_end; let x := fresh in intros x; split; [destruct x; cbn; intros; destruct_and!; subst; done|intros ->; cbn; by split_and!]
  end.

#[export] Instance u8_format : Format write_int (readVarint uint8_t) is_u8 := int_format uint8_t (or_introl eq_refl).
#[export] Instance u32_format : Format write_int (readVarint uint32_t) is_u32 := int_format uint32_t (or_introl eq_refl).
#[export] Instance u64_format : Format write_int (readVarint uint64_t) is_u64 := int_format uint64_t (or_introl eq_refl).
#[export] Instance b32_format : Format write_pod (read_pod 32) is_b32 := pod_format 32 ltac:(lia).
#[export] Instance sig_format : Format write_pod (read_pod 64) (is_bytes_n 64) := pod_format 64 ltac:(lia).

#[export] Instance varint_vector_format : Format write_varint_vector read_varint_vector (fun l => Forall is_u32 l /\ Z.of_nat (length l) < 2 ^ 64) :=
  vector_format _ _ _.
#[export] Instance binary_format : Format write_binary read_binary (fun s => is_bytes s /\ Z.of_nat (length s) < 2 ^ 64) := string_format.

#[export] Instance base_input_format : Format write_base_input read_base_input (fun i => is_u32 (blockIndex i)).
Proof.
  eapply (parses_format _ _ (fun i => [write_int (blockIndex i)]) (fun i => is_u32 (blockIndex i) /\ True)); [done|tauto| |].
  - fields (blockIndex, u32_format, tt).
  - intros x Hx. by apply (cat_nonempty (format_readable (Format := u32_format))).
Qed.

#[export] Instance key_input_format : Format write_key_input read_key_input (fun i => valid_input (key_input i)).
Proof.
  eapply (parses_format _ _ (fun i => [write_int (key_amount i); write_varint_vector (outputIndexes i); write_pod (keyImage i)])
    (fun i => is_u64 (key_amount i) /\ (Forall is_u32 (outputIndexes i) /\ Z.of_nat (length (outputIndexes i)) < 2 ^ 64) /\ is_b32 (keyImage i) /\ True));
    [done|cbn; tauto| |].
  - fields (key_amount, u64_format, (outputIndexes, varint_vector_format, (keyImage, b32_format, tt))).
  - intros x [Hx _]. by apply (cat_nonempty (format_readable (Format := u64_format))).
Qed.

#[export] Instance multi_signature_input_format : Format write_multi_signature_input read_multi_signature_input (fun i => valid_input (multi_signature_input i)).
Proof.
  eapply (parses_format _ _ (fun i => [write_int (multi_amount i); write_int (signatureCount i); write_int (outputIndex i)])
    (fun i => is_u64 (multi_amount i) /\ is_u8 (signatureCount i) /\ is_u32 (outputIndex i) /\ True)); [done|cbn; tauto| |].
  - fields (multi_amount, u64_format, (signatureCount, u8_format, (outputIndex, u32_format, tt))).
  - intros x [Hx _]. by apply (cat_nonempty (format_readable (Format := u64_format))).
Qed.

Lemma read_tag_cons t s : read_tag (t :: s) = Some (t, s).
Proof. done. Qed.

Lemma read_tag_Some s t rest : is_bytes s -> read_tag s = Some (t, rest) -> s = t :: rest /\ is_u8 t /\ is_bytes rest.
Proof. intros Hs H. destruct s as [|b s]; [done|]. injection H as <- <-. rewrite drop_0. apply Forall_cons_1 in Hs as [? ?]. done. Qed.

(** A tag followed by an alternative of a variant. *)
Section Variant.
Context {A R} {w : A -> option bytes} {r : Reader A} {valid : A -> Prop} (F : Format w r valid) (inj : A -> R) (tag : Z).

Lemma variant_write x : valid x -> is_u8 tag -> exists bs, cat [write_tag tag; w x] = Some bs /\ is_bytes bs /\
  forall rest, exists s, bs ++ rest = tag :: s /\ (v ← r; mret (inj v)) s = Some (inj x, rest).
Proof using F.
  intros Hx Ht. destruct (write_read x Hx) as (b & Eb & Bb & Rb). exists (tag :: b). cbn [cat write_tag]. rewrite Eb. cbn. rewrite app_nil_r.
  split_and!; [done|by constructor|]. intros rest. exists (b ++ rest). split; [done|]. apply reader_bind_Some. by exists x, rest.
Qed.

Lemma variant_read s y rest : is_bytes s -> (v ← r; mret (inj v)) s = Some (y, rest) ->
  exists x, y = inj x /\ valid x /\ is_bytes rest /\ exists bs, cat [write_tag tag; w x] = Some bs /\ tag :: s = bs ++ rest.
Proof using F.
  intros Hs H. apply reader_bind_Some in H as (x & s' & Hx & [= <- <-]). destruct (read_write s x s' Hs Hx) as (Vx & Hr & b & Eb & ->).
  exists x. split_and!; [done..|]. exists (tag :: b). cbn [cat write_tag]. rewrite Eb. cbn. by rewrite app_nil_r.
Qed.
End Variant.

Lemma tag_nonempty t f : cat [write_tag t; f] <> Some [].
Proof. cbn. by destruct f. Qed.

#[export] Instance input_format : Format write_input read_input valid_input.
Proof.
  split; [split|].
  - intros i Hi. destruct i as [i|i|i];
      [destruct (variant_write base_input_format base_input 0xff i Hi ltac:(done)) as (bs & E & B & H)
      |destruct (variant_write key_input_format key_input 0x2 i Hi ltac:(done)) as (bs & E & B & H)
      |destruct (variant_write multi_signature_input_format multi_signature_input 0x3 i Hi ltac:(done)) as (bs & E & B & H)];
      (exists bs; split_and!; [done|done|]; intros rest; destruct (H rest) as (s & -> & R); unfold read_input; apply reader_bind_Some; eexists _, s;
       split; [apply read_tag_cons|done]).
  - intros x _. apply tag_nonempty.
  - intros s y rest Hs H. unfold read_input in H. apply reader_bind_Some in H as (t & s' & Ht & H). destruct (read_tag_Some _ _ _ Hs Ht) as (-> & Ut & Hs').
    destruct (Z.eqb_spec t 0xff) as [->|_]; [|destruct (Z.eqb_spec t 0x2) as [->|_]; [|destruct (Z.eqb_spec t 0x3) as [->|_]; [|done]]].
    + destruct (variant_read base_input_format base_input 0xff s' y rest Hs' H) as (x & -> & ? & ? & bs & ? & ?). split_and!; [done..|]. by exists bs.
    + destruct (variant_read key_input_format key_input 0x2 s' y rest Hs' H) as (x & -> & ? & ? & bs & ? & ?). split_and!; [done..|]. by exists bs.
    + destruct (variant_read multi_signature_input_format multi_signature_input 0x3 s' y rest Hs' H) as (x & -> & ? & ? & bs & ? & ?). split_and!; [done..|]. by exists bs.
Qed.

#[export] Instance key_output_format : Format write_key_output read_key_output (fun o => valid_target (key_output o)).
Proof.
  eapply (parses_format _ _ (fun o => [write_pod (out_key o)]) (fun o => is_b32 (out_key o) /\ True)); [done|cbn; tauto| |].
  - fields (out_key, b32_format, tt).
  - intros x Hx. by apply (cat_nonempty (format_readable (Format := b32_format))).
Qed.

#[export] Instance hashes_format : Format (write_vector write_pod) (read_vector (read_pod 32)) (fun l => Forall is_b32 l /\ Z.of_nat (length l) < 2 ^ 64) :=
  vector_format _ _ _.

#[export] Instance multi_signature_output_format : Format write_multi_signature_output read_multi_signature_output (fun o => valid_target (multi_signature_output o)).
Proof.
  eapply (parses_format _ _ (fun o => [write_vector write_pod (out_keys o); write_int (requiredSignatureCount o)])
    (fun o => (Forall is_b32 (out_keys o) /\ Z.of_nat (length (out_keys o)) < 2 ^ 64) /\ is_u8 (requiredSignatureCount o) /\ True)); [done|cbn; tauto| |].
  - fields (out_keys, hashes_format, (requiredSignatureCount, u8_format, tt)).
  - intros x [Hx _]. by apply (cat_nonempty (format_readable (Format := hashes_format))).
Qed.

#[export] Instance target_format : Format write_target read_target valid_target.
Proof.
  split; [split|].
  - intros i Hi. destruct i as [i|i];
      [destruct (variant_write key_output_format key_output 0x2 i Hi ltac:(done)) as (bs & E & B & H)
      |destruct (variant_write multi_signature_output_format multi_signature_output 0x3 i Hi ltac:(done)) as (bs & E & B & H)];
      (exists bs; split_and!; [done|done|]; intros rest; destruct (H rest) as (s & -> & R); unfold read_target; apply reader_bind_Some; eexists _, s;
       split; [apply read_tag_cons|done]).
  - intros x _. apply tag_nonempty.
  - intros s y rest Hs H. unfold read_target in H. apply reader_bind_Some in H as (t & s' & Ht & H). destruct (read_tag_Some _ _ _ Hs Ht) as (-> & Ut & Hs').
    destruct (Z.eqb_spec t 0x2) as [->|_]; [|destruct (Z.eqb_spec t 0x3) as [->|_]; [|done]].
    + destruct (variant_read key_output_format key_output 0x2 s' y rest Hs' H) as (x & -> & ? & ? & bs & ? & ?). split_and!; [done..|]. by exists bs.
    + destruct (variant_read multi_signature_output_format multi_signature_output 0x3 s' y rest Hs' H) as (x & -> & ? & ? & bs & ? & ?). split_and!; [done..|]. by exists bs.
Qed.

#[export] Instance output_format : Format write_output read_output valid_output.
Proof.
  eapply (parses_format _ _ (fun o => [write_int (out_amount o); write_target (target o)]) (fun o => is_u64 (out_amount o) /\ valid_target (target o) /\ True));
    [done|unfold valid_output; tauto| |].
  - fields (out_amount, u64_format, (target, target_format, tt)).
  - intros x [Hx _]. by apply (cat_nonempty (format_readable (Format := u64_format))).
Qed.

#[export] Instance inputs_format : Format (write_vector write_input) (read_vector read_input) (fun l => Forall valid_input l /\ Z.of_nat (length l) < 2 ^ 64) :=
  vector_format _ _ _.
#[export] Instance outputs_format : Format (write_vector write_output) (read_vector read_output) (fun l => Forall valid_output l /\ Z.of_nat (length l) < 2 ^ 64) :=
  vector_format _ _ _.

#[export] Instance prefix_format : Format write_prefix read_prefix valid_prefix.
Proof.
  eapply (parses_format _ _ (fun p => [write_int (version p); write_int (unlockTime p); write_vector write_input (inputs p);
       write_vector write_output (outputs p); write_binary (extra p)]) (fun p => is_u8 (version p) /\ is_u64 (unlockTime p) /\ (Forall valid_input (inputs p) /\ Z.of_nat (length (inputs p)) < 2 ^ 64) /\
  (Forall valid_output (outputs p) /\ Z.of_nat (length (outputs p)) < 2 ^ 64) /\ (is_bytes (extra p) /\ Z.of_nat (length (extra p)) < 2 ^ 64) /\ True)); [done|unfold valid_prefix; tauto| |].
  - fields (version, u8_format, (unlockTime, u64_format, (inputs, inputs_format, (outputs, outputs_format, (extra, binary_format, tt))))).
  - intros x [Hx _]. by apply (cat_nonempty (format_readable (Format := u8_format))).
Qed.

(** ** Signatures *)

Lemma signatures_write ins sigs : Forall2 valid_signatures ins sigs -> exists bs, write_signatures ins sigs = Some bs /\ is_bytes bs /\
  forall rest, read_signatures ins (bs ++ rest) = Some (sigs, rest).
Proof.
  induction 1 as [|i s ins sigs [Hl Hs] _ (bs & E & B & R)]; [exists []; split_and!; [done|constructor|done]|].
  destruct (items_write_read write_pod (read_pod 64) (is_bytes_n 64) s Hs) as (b & Eb & Bb & _ & Rb). exists (b ++ bs). cbn [write_signatures].
  rewrite Hl, Nat.eqb_refl. cbn [cat]. rewrite Eb, E. cbn. rewrite app_nil_r. split_and!; [done|by apply Forall_app_2|].
  intros rest. cbn [read_signatures]. apply reader_bind_Some. exists s, (bs ++ rest). rewrite <- app_assoc, <- Hl. split; [done|].
  apply reader_bind_Some. by exists sigs, rest.
Qed.

Lemma signatures_read ins s sigs rest : is_bytes s -> read_signatures ins s = Some (sigs, rest) ->
  Forall2 valid_signatures ins sigs /\ is_bytes rest /\ exists bs, write_signatures ins sigs = Some bs /\ s = bs ++ rest.
Proof.
  revert s sigs. induction ins as [|i ins IH]; intros s sigs Hs H; cbn [read_signatures] in H.
  - injection H as <- <-. split_and!; [constructor|done|]. by exists [].
  - apply reader_bind_Some in H as (x & s' & Hx & H). apply reader_bind_Some in H as (l & s'' & Hl & [= <- <-]).
    destruct (items_read_write write_pod (read_pod 64) (is_bytes_n 64) _ _ _ _ Hs Hx) as (Vx & Lx & Hs' & b & Eb & ->).
    destruct (IH s' l Hs' Hl) as (Vl & Hr & bs & Ebs & ->). split_and!; [by constructor|done|]. exists (b ++ bs). cbn [write_signatures].
    rewrite Lx, Nat.eqb_refl. cbn [cat]. rewrite Eb, Ebs. cbn. rewrite app_nil_r. split; [done|]. by rewrite app_assoc.
Qed.

(** A transaction as it is read back: absent signatures become one empty list per input. *)
Definition normal (tx : transaction_t) : transaction_t :=
  match signatures tx with [] => mktransaction (prefix tx) (replicate (length (inputs (prefix tx))) []) | _ => tx end.

(** What the writer requires of the signatures. *)
Definition signatures_match (tx : transaction_t) : Prop := Forall2 (fun i (s : list bytes) => length s = getSignaturesCount i) (inputs (prefix tx)) (signatures (normal tx)).

Lemma write_signatures_empty ins : forallb (fun i => getSignaturesCount i =? 0)%nat ins = true <->
  Forall2 (fun i (s : list bytes) => length s = getSignaturesCount i) ins (replicate (length ins) []).
Proof.
  induction ins as [|i ins IH]; [done|]. cbn [forallb length replicate]. rewrite andb_true_iff, IH, Nat.eqb_eq. split.
  - intros [H1 H2]. constructor; [by rewrite H1|done].
  - intros H. inversion H; subst. by split.
Qed.

Lemma write_signatures_replicate ins : Forall2 (fun i (s : list bytes) => length s = getSignaturesCount i) ins (replicate (length ins) []) ->
  write_signatures ins (replicate (length ins) []) = Some [].
Proof.
  induction ins as [|i ins IH]; [done|]. cbn [length replicate write_signatures]. intros H. inversion H as [|? ? ? ? H1 H2]; subst.
  cbn in H1. rewrite <- H1. cbn. by rewrite IH.
Qed.

Lemma write_signatures_match ins sigs : length ins = length sigs ->
  (exists bs, write_signatures ins sigs = Some bs) <-> Forall2 (fun i (s : list bytes) => length s = getSignaturesCount i) ins sigs.
Proof.
  revert sigs. induction ins as [|i ins IH]; intros [|s sigs] Hl; try discriminate.
  - split; [constructor|by exists []].
  - cbn [write_signatures]. injection Hl as Hl. specialize (IH sigs Hl). destruct (Nat.eqb_spec (getSignaturesCount i) (length s)) as [E|E].
    + assert (Ep : exists b, write_items write_pod s = Some b) by (clear; induction s as [|x s [b E]]; [by exists []|]; cbn; rewrite E; by eexists).
      destruct Ep as [b Eb]. cbn [cat]. rewrite Eb. split.
      * intros [bs H]. destruct (write_signatures ins sigs) as [b'|]; [|done]. constructor; [done|]. apply IH. by exists b'.
      * intros H. inversion H as [|? ? ? ? H1 H2]; subst. apply IH in H2 as [b' ->]. by eexists.
    + split; [by intros [bs ?]|]. intros H. inversion H; subst. congruence.
Qed.

(** Both ways of writing signatures agree on the normal form. *)
Lemma write_transaction_normal tx : write_transaction tx = write_transaction (normal tx).
Proof.
  unfold normal. destruct (signatures tx) as [|s sigs] eqn:E; [|done]. unfold write_transaction. rewrite E. cbn [prefix signatures].
  destruct (inputs (prefix tx)) as [|i ins] eqn:Ei; [done|]. cbn [length replicate]. destruct (forallb _ _) eqn:F.
  - apply write_signatures_empty in F. pose proof (write_signatures_replicate (i :: ins) F) as W. cbn [length replicate] in W.
    by rewrite length_replicate, Nat.eqb_refl, W.
  - rewrite length_replicate, Nat.eqb_refl. destruct (write_signatures (i :: ins) ([] :: replicate (length ins) [])) as [b|] eqn:W; [|done].
    assert (H : exists bs, write_signatures (i :: ins) ([] :: replicate (length ins) []) = Some bs) by (by exists b).
    apply write_signatures_match in H; [|cbn; by rewrite length_replicate]. apply (write_signatures_empty (i :: ins)) in H. congruence.
Qed.

Lemma write_sigs_valid tx bs : Forall2 valid_signatures (inputs (prefix tx)) (signatures tx) -> write_signatures (inputs (prefix tx)) (signatures tx) = Some bs ->
  write_transaction tx = cat [write_prefix (prefix tx); Some bs].
Proof.
  intros H E. unfold write_transaction. pose proof (Forall2_length H) as L. destruct (signatures tx) as [|s sigs].
  - destruct (inputs (prefix tx)); [|discriminate]. injection E as <-. done.
  - by rewrite L, Nat.eqb_refl, E.
Qed.

#[export] Instance transaction_format : Format write_transaction read_transaction valid_transaction.
Proof.
  split; [split|].
  - intros tx [Hp Hs]. destruct (write_read (prefix tx) Hp) as (a & Ea & Ba & Ra). destruct (signatures_write _ _ Hs) as (b & Eb & Bb & Rb).
    exists (a ++ b). rewrite (write_sigs_valid tx b) by done. cbn [cat]. rewrite Ea. cbn. rewrite app_nil_r. split_and!; [done|by apply Forall_app_2|].
    intros rest. apply reader_bind_Some. exists (prefix tx), (b ++ rest). rewrite <- app_assoc. split; [done|]. apply reader_bind_Some. exists (signatures tx), rest.
    split; [done|]. by destruct tx.
  - intros tx [Hp Hs]. destruct (signatures_write _ _ Hs) as (b & Eb & _). rewrite (write_sigs_valid tx b) by done. by apply (cat_nonempty (format_readable (Format := prefix_format))).
  - intros s tx rest Hs H. apply reader_bind_Some in H as (p & s' & Hp & H). apply reader_bind_Some in H as (l & s'' & Hl & [= <- <-]).
    destruct (read_write s p s' Hs Hp) as (Vp & Hs' & a & Ea & ->). destruct (signatures_read _ _ _ _ Hs' Hl) as (Vs & Hr & b & Eb & ->).
    split_and!; [done|done|]. exists (a ++ b). rewrite (write_sigs_valid (mktransaction p l) b) by done. cbn [cat prefix]. rewrite Ea. cbn. rewrite app_nil_r.
    split; [done|]. by rewrite app_assoc.
Qed.

#[export] Instance raw32_format : Format write_raw32 read_raw32 is_u32.
Proof.
  split; [split|].
  - intros x Hx. exists (le_bytes 4 x). split_and!; [done|apply le_bytes_is_bytes|]. intros rest. apply reader_bind_Some. exists (le_bytes 4 x), rest.
    split; [apply read_app, length_le_bytes|]. rewrite le_le_bytes. change (256 ^ Z.of_nat 4) with (2 ^ 32). by rewrite Z.mod_small.
  - intros x _ [= H].
  - intros s x rest Hs H. apply reader_bind_Some in H as (b & s' & Hb & [= <- <-]). destruct (read_take 4 s b s' Hs Hb) as ([Bb Lb] & Hr & ->).
    split_and!; [|done|]; [pose proof (le_bound b Bb) as B; by rewrite Lb in B|]. exists b. unfold write_raw32. rewrite <- Lb, le_bytes_le by done. done.
Qed.

#[export] Instance header_format : Format write_header read_header valid_header.
Proof.
  eapply (parses_format _ _ (fun h => [write_int (majorVersion h); write_int (minorVersion h); write_int (timestamp h); write_pod (previousBlockHash h); write_raw32 (nonce h)])
    (fun h => is_u8 (majorVersion h) /\ is_u8 (minorVersion h) /\ is_u64 (timestamp h) /\ is_b32 (previousBlockHash h) /\ is_u32 (nonce h) /\ True));
    [done|unfold valid_header; tauto| |].
  - fields (majorVersion, u8_format, (minorVersion, u8_format, (timestamp, u64_format, (previousBlockHash, b32_format, (nonce, raw32_format, tt))))).
  - intros x [Hx _]. by apply (cat_nonempty (format_readable (Format := u8_format))).
Qed.

#[export] Instance block_format : Format write_block read_block valid_block.
Proof.
  eapply (parses_format _ _ (fun b => [write_header (header b); write_transaction (baseTransaction b); write_vector write_pod (transactionHashes b)])
    (fun b => valid_header (header b) /\ valid_transaction (baseTransaction b) /\
       (Forall is_b32 (transactionHashes b) /\ Z.of_nat (length (transactionHashes b)) < 2 ^ 64) /\ True)); [done|unfold valid_block; tauto| |].
  - fields (header, header_format, (baseTransaction, transaction_format, (transactionHashes, hashes_format, tt))).
  - intros x [Hx _]. by apply (cat_nonempty (format_readable (Format := header_format))).
Qed.

#[export] Instance address_format : Format write_address read_address (fun a => is_b32 (spendPublicKey a) /\ is_b32 (viewPublicKey a)).
Proof.
  eapply (parses_format _ _ (fun a => [write_pod (spendPublicKey a); write_pod (viewPublicKey a)])
    (fun a => is_b32 (spendPublicKey a) /\ is_b32 (viewPublicKey a) /\ True)); [done|tauto| |].
  - fields (spendPublicKey, b32_format, (viewPublicKey, b32_format, tt)).
  - intros x [Hx _]. by apply (cat_nonempty (format_readable (Format := b32_format))).
Qed.

(** ** Arrays *)

Section Array.
Context {A} {w : A -> option bytes} {r : Reader A} {valid : A -> Prop} (F : Format w r valid).

Lemma to_from x : valid x -> exists blob, to w x = Some blob /\ is_bytes blob /\ from r blob = Some x.
Proof using F.
  intros Hx. destruct (write_read x Hx) as (bs & E & B & R). exists bs. split_and!; [done|done|]. unfold from.
  specialize (R []). rewrite app_nil_r in R. by rewrite R.
Qed.

Lemma from_to blob x : is_bytes blob -> from r blob = Some x -> valid x /\ to w x = Some blob.
Proof using F.
  intros Hb H. unfold from in H. destruct (r blob) as [[y rest]|] eqn:E; [|done]. cbn in H. destruct rest; [|done]. injection H as <-.
  destruct (read_write blob y [] Hb E) as (V & _ & bs & Eb & ->). split; [done|]. by rewrite app_nil_r.
Qed.
End Array.

Lemma normal_valid tx : valid_prefix (prefix tx) -> Forall (Forall (is_bytes_n 64)) (signatures tx) -> signatures_match tx -> valid_transaction (normal tx).
Proof.
  intros Hp Hs Hm. assert (E : prefix (normal tx) = prefix tx) by (unfold normal; by destruct (signatures tx)). split; [by rewrite E|]. rewrite E.
  unfold signatures_match in Hm. assert (Hs' : Forall (Forall (is_bytes_n 64)) (signatures (normal tx))).
  { unfold normal. destruct (signatures tx) eqn:Es; [|by rewrite Es]. cbn. apply Forall_replicate. constructor. }
  revert Hm Hs'. generalize (signatures (normal tx)). induction 1 as [|i s ins sigs Hl _ IH]; intros H; [constructor|].
  apply Forall_cons_1 in H as [? ?]. constructor; [by split|by apply IH].
Qed.

Lemma write_transaction_Some tx blob : write_transaction tx = Some blob -> signatures_match tx.
Proof.
  rewrite write_transaction_normal. intros H. unfold signatures_match. assert (Ep : prefix (normal tx) = prefix tx) by (unfold normal; by destruct (signatures tx)).
  rewrite <- Ep. unfold write_transaction in H. cbn [cat] in H. destruct (write_prefix _); [|done]. cbn [mbind option_bind] in H.
  destruct (signatures (normal tx)) as [|s sigs] eqn:Es.
  - destruct (inputs (prefix (normal tx))) as [|i ins] eqn:Ei; [constructor|]. unfold normal in Es. destruct (signatures tx) eqn:Et; [|congruence].
    cbn in Es. rewrite Ep in Ei. rewrite Ei in Es. discriminate.
  - destruct (Nat.eqb_spec (length (inputs (prefix (normal tx)))) (length (s :: sigs))) as [L|]; [|done].
    apply write_signatures_match; [done|]. destruct (write_signatures _ _); [by eexists|done].
Qed.

(** C14: Transactions in binary: the writer throws exactly when the signatures do not fit the inputs; otherwise the
    bytes are parsed back to the transaction (absent signatures as one empty list per input), with all bytes
    consumed; and a byte string that is parsed to a transaction is the one that is written for it, so no two
    strings represent the same transaction. *)
Theorem transaction_roundtrip tx : valid_prefix (prefix tx) -> Forall (Forall (is_bytes_n 64)) (signatures tx) ->
  (forall blob, to write_transaction tx = Some blob -> from read_transaction blob = Some (normal tx)) /\
  (is_Some (to write_transaction tx) <-> signatures_match tx) /\
  (forall blob tx', is_bytes blob -> from read_transaction blob = Some tx' -> valid_transaction tx' /\ to write_transaction tx' = Some blob).
Proof.
  intros Hp Hs. assert (H : signatures_match tx -> exists blob, to write_transaction tx = Some blob /\ from read_transaction blob = Some (normal tx)).
  { intros Hm. destruct (to_from transaction_format (normal tx) (normal_valid tx Hp Hs Hm)) as (blob & E & _ & R). exists blob.
    unfold to in *. by rewrite write_transaction_normal. }
  split_and!.
  - intros blob E. destruct (H (write_transaction_Some tx blob E)) as (blob' & E' & R). congruence.
  - split; [intros [blob E]; by apply (write_transaction_Some tx blob)|]. intros (blob & E & _)%H. by exists blob.
  - intros blob tx' Hb E. by apply (from_to transaction_format).
Qed.

(** A transaction with one input of each kind. *)
Definition sample_prefix : transaction_prefix_t :=
  mkprefix 1 300 [base_input (mkbase_input 7); key_input (mkkey_input 1000 [3] (replicate 32 9)); multi_signature_input (mkmulti_input 5 1 200)]
    [mkoutput 128 (key_output (mkkey_output (replicate 32 1))); mkoutput 2 (multi_signature_output (mkmulti_output [replicate 32 2] 1))] [1; 2].
Definition sample_tx : transaction_t := mktransaction sample_prefix [[]; [replicate 64 5]; [replicate 64 6]].

Lemma sample_valid : valid_prefix sample_prefix /\ Forall (Forall (is_bytes_n 64)) (signatures sample_tx).
Proof.
  split.
  - unfold valid_prefix. cbn [sample_prefix version unlockTime inputs outputs extra]. split_and!; try (split; lia); try (cbn; lia).
    + repeat constructor; cbn; try (by apply bytes_check_n); try (split; lia); repeat constructor; cbn; lia.
    + repeat constructor; cbn; try (by apply bytes_check_n); try (split; lia); repeat constructor; cbn; lia.
    + apply (bytes_check_n 2). done.
  - repeat constructor; cbn; lia.
Qed.

Lemma transaction_roundtrip_witness : exists blob, to write_transaction sample_tx = Some blob /\ from read_transaction blob = Some sample_tx.
Proof.
  eexists. split; [vm_compute; reflexivity|].
  refine (proj1 (transaction_roundtrip sample_tx (proj1 sample_valid) (proj2 sample_valid)) _ _). vm_compute. reflexivity.
Defined.

(** Blocks in binary: every well-formed block is parsed back from its bytes, the bytes of a parsed block are the
    ones written for it, and no array with bytes missing or added at the end is parsed. *)
Theorem block_roundtrip b : valid_block b -> exists blob, to write_block b = Some blob /\ is_bytes blob /\ from read_block blob = Some b /\
  (forall blob' b', is_bytes blob' -> from read_block blob' = Some b' -> valid_block b' /\ to write_block b' = Some blob') /\
  (forall k, (k < length blob)%nat -> from read_block (take k blob) = None) /\
  (forall x, is_bytes x -> x <> [] -> from read_block (blob ++ x) = None).
Proof.
  intros Hb. destruct (to_from block_format b Hb) as (blob & E & B & R). exists blob. split_and!; [done..| | |].
  - intros blob' b' Hb' E'. by apply (from_to block_format).
  - intros k Hk. destruct (from read_block (take k blob)) as [b'|] eqn:F; [|done]. destruct (from_to block_format (take k blob) b' (Forall_take _ _ _ B) F) as [V W].
    destruct (write_read b' V) as (bs & Es & _ & Rs). unfold to in W. rewrite W in Es. injection Es as <-. specialize (Rs (drop k blob)). rewrite take_drop in Rs.
    unfold from in R. rewrite Rs in R. cbn in R. destruct (drop k blob) eqn:D; [|done]. apply (f_equal length) in D. rewrite length_drop in D. cbn in D. lia.
  - intros x Hx Hn. destruct (write_read b Hb) as (bs & Es & _ & Rs). unfold to in E. rewrite E in Es. injection Es as <-. unfold from. rewrite Rs. cbn.
    by destruct x.
Qed.

Definition sample_block : block_t := mkblock (mkheader 1 0 70 1000 (replicate 32 4)) sample_tx [replicate 32 3].

Lemma sample_block_valid : valid_block sample_block.
Proof.
  split_and!.
  - cbn. unfold valid_header. cbn. split_and!; try (split; lia). by apply (bytes_check_n 32).
  - split; [apply sample_valid|]. repeat constructor; cbn; try done; try lia.
  - constructor; [by apply (bytes_check_n 32)|constructor].
  - cbn. lia.
Qed.

Lemma block_roundtrip_witness : exists blob, to write_block sample_block = Some blob /\ from read_block blob = Some sample_block.
Proof. destruct (block_roundtrip sample_block sample_block_valid) as (blob & E & _ & R & _). by exists blob. Defined.
