(* ===== verification/StreamCodec.v ===== *)
(** * Stream operators on transactions and blocks

    src/src/stream/transaction.cpp and block.cpp: the [operator>>] and
    [operator<<] the block storage and the wallets use.  They are not the binary
    format of the serializers: bytes of vectors are varints, and so is the tag
    of a variant when it is written, while it is read as one byte; the
    timestamp of a block header is not written. *)

From S2P Require Import Prelude Stream Types Binary.

(** ** Transactions *)

Definition put_base_input (v : base_input_t) : option bytes := cat [write_int (blockIndex v)].
Definition get_base_input : Reader base_input_t := b ← readVarint uint32_t; mret (mkbase_input b).

Definition put_key_input (v : key_input_t) : option bytes :=
  cat [write_int (key_amount v); write_vector write_int (outputIndexes v); write_pod (keyImage v)].
Definition get_key_input : Reader key_input_t :=
  a ← readVarint uint64_t; o ← read_vector (readVarint uint32_t); k ← read_pod 32; mret (mkkey_input a o k).

Definition put_multi_signature_input (v : multi_signature_input_t) : option bytes :=
  cat [write_int (multi_amount v); write_int (signatureCount v); write_int (outputIndex v)].
Definition get_multi_signature_input : Reader multi_signature_input_t :=
  a ← readVarint uint64_t; c ← readVarint uint8_t; o ← readVarint uint32_t; mret (mkmulti_input a c o).

(** [o << tag] on a [uint8_t] writes a varint; [i.read(&tag, 1)] reads a byte. *)
Definition put_input (v : transaction_input_t) : option bytes :=
  cat [write_int (input_tag v);
       match v with
       | base_input i => put_base_input i
       | key_input i => put_key_input i
       | multi_signature_input i => put_multi_signature_input i
       end].
Definition get_input : Reader transaction_input_t :=
  tag ← read_tag;
  if tag =? 0xff then v ← get_base_input; mret (base_input v)
  else if tag =? 0x2 then v ← get_key_input; mret (key_input v)
  else if tag =? 0x3 then v ← get_multi_signature_input; mret (multi_signature_input v)
  else throw.

Definition put_key_output (v : key_output_t) : option bytes := cat [write_pod (out_key v)].
Definition get_key_output : Reader key_output_t := k ← read_pod 32; mret (mkkey_output k).
Definition put_multi_signature_output (v : multi_signature_output_t) : option bytes :=
  cat [write_vector write_pod (out_keys v); write_int (requiredSignatureCount v)].
Definition get_multi_signature_output : Reader multi_signature_output_t :=
  k ← read_vector (read_pod 32); c ← readVarint uint8_t; mret (mkmulti_output k c).
Definition put_target (v : transaction_output_target_t) : option bytes :=
  cat [write_int (target_tag v);
       match v with key_output o => put_key_output o | multi_signature_output o => put_multi_signature_output o end].
Definition get_target : Reader transaction_output_target_t :=
  tag ← read_tag;
  if tag =? 0x2 then v ← get_key_output; mret (key_output v)
  else if tag =? 0x3 then v ← get_multi_signature_output; mret (multi_signature_output v)
  else throw.
Definition put_output (v : transaction_output_t) : option bytes := cat [write_int (out_amount v); put_target (target v)].
Definition get_output : Reader transaction_output_t := a ← readVarint uint64_t; t ← get_target; mret (mkoutput a t).

Definition put_prefix (v : transaction_prefix_t) : option bytes :=
  cat [write_int (version v); write_int (unlockTime v); write_vector put_input (inputs v);
       write_vector put_output (outputs v); write_vector write_int (extra v)].
Definition get_prefix : Reader transaction_prefix_t :=
  v ← readVarint uint8_t; u ← readVarint uint64_t; i ← read_vector get_input; o ← read_vector get_output; e ← read_vector (readVarint uint8_t);
  mret (mkprefix v u i o e).

(** All signatures given are written; their number is not compared with the input's. *)
Fixpoint put_signatures (ins : list transaction_input_t) (sigs : list (list bytes)) : option bytes :=
  match ins, sigs with
  | _ :: ins, s :: sigs => cat [write_items write_pod s; put_signatures ins sigs]
  | _, _ => Some []
  end.
Definition put_transaction (v : transaction_t) : option bytes :=
  let ins := inputs (prefix v) in
  cat [put_prefix (prefix v);
       match signatures v with
       | [] => if forallb (fun i => getSignaturesCount i =? 0)%nat ins then Some [] else None
       | sigs => if (length ins =? length sigs)%nat then put_signatures ins sigs else None
       end].
Definition get_transaction : Reader transaction_t :=
  p ← get_prefix; s ← read_signatures (inputs p); mret (mktransaction p s).

Definition put_entry (v : transaction_entry_t) : option bytes := cat [put_transaction (entry_tx v); write_vector write_int (m_global_output_indexes v)].
Definition get_entry : Reader transaction_entry_t := t ← get_transaction; g ← read_vector (readVarint uint32_t); mret (mkentry t g).

Definition put_index (v : transaction_index_t) : option bytes := cat [write_int (index_block v); write_int (index_transaction v)].
Definition get_index : Reader transaction_index_t := b ← readVarint uint32_t; t ← readVarint uint16_t; mret (mkindex b t).

(** ** Blocks *)

Definition put_header (v : block_header_t) : option bytes :=
  cat [write_int (majorVersion v); write_int (minorVersion v); write_pod (previousBlockHash v); write_raw32 (nonce v)].

(** The timestamp keeps the value [old] of the structure read into. *)
Definition get_header (old : Z) : Reader block_header_t :=
  a ← readVarint uint8_t; b ← readVarint uint8_t; p ← read_pod 32; n ← read_raw32; mret (mkheader a b n old p).

Definition put_block (v : block_t) : option bytes :=
  cat [put_header (header v); put_transaction (baseTransaction v); write_vector write_pod (transactionHashes v)].
Definition get_block (old : Z) : Reader block_t :=
  h ← get_header old; t ← get_transaction; l ← read_vector (read_pod 32); mret (mkblock h t l).

Definition put_block_entry (v : block_entry_t) : option bytes :=
  cat [put_block (bl v); write_int (height v); write_int (block_cumulative_size v); write_int (cumulative_difficulty v);
       write_int (already_generated_coins v); write_vector put_entry (transactions v)].
Definition get_block_entry (old : Z) : Reader block_entry_t :=
  b ← get_block old; h ← readVarint uint32_t; s ← readVarint uint64_t; d ← readVarint uint64_t; g ← readVarint uint64_t;
  t ← read_vector get_entry; mret (mkblock_entry b h s d g t).

Definition put_key_pair (v : key_pair_t) : option bytes := cat [write_pod (secretKey v); write_pod (publicKey v)].
Definition get_key_pair : Reader key_pair_t := s ← read_pod 32; p ← read_pod 32; mret (mkpair p s).
Definition put_address (v : account_public_address_t) : option bytes := cat [write_pod (spendPublicKey v); write_pod (viewPublicKey v)].
Definition get_address : Reader account_public_address_t := s ← read_pod 32; v ← read_pod 32; mret (mkaddress s v).
Definition put_account (v : account_keys_t) : option bytes := cat [put_address (address v); write_pod (spendSecretKey v); write_pod (viewSecretKey v)].
Definition get_account : Reader account_keys_t := a ← get_address; s ← read_pod 32; v ← read_pod 32; mret (mkaccount a s v).

(** ** What round trips *)

(** The inputs that survive: the tag is one byte. *)
Definition stream_input (i : transaction_input_t) : Prop := valid_input i /\ match i with base_input _ => False | _ => True end.

Lemma write_int_tag t : 0 <= t < 128 -> write_int t = write_tag t.
Proof.
  intros Ht. unfold write_int, write_tag, writeVarint. rewrite (wrap_small 64) by (split; lia). cbn [writeVarint_loop].
  destruct (Z.leb_spec 0x80 t); [lia|]. rewrite (wrap_small 8) by (split; [lia|change (2 ^ 8) with 256; lia]). done.
Qed.

Lemma put_input_same i : match i with base_input _ => False | _ => True end -> put_input i = write_input i.
Proof. destruct i; [done|..]; intros _; unfold put_input, write_input; cbn [input_tag]; by rewrite write_int_tag by lia. Qed.

Lemma put_target_same t : put_target t = write_target t.
Proof. destruct t; unfold put_target, write_target; cbn [target_tag]; by rewrite write_int_tag by lia. Qed.

Definition stream_prefix (p : transaction_prefix_t) : Prop := valid_prefix p /\ Forall stream_input (inputs p).
Definition stream_transaction (tx : transaction_t) : Prop := valid_transaction tx /\ Forall stream_input (inputs (prefix tx)).
Definition stream_entry (e : transaction_entry_t) : Prop :=
  stream_transaction (entry_tx e) /\ (Forall is_u32 (m_global_output_indexes e) /\ Z.of_nat (length (m_global_output_indexes e)) < 2 ^ 64).

#[export] Instance put_input_readable : Readable put_input get_input stream_input.
Proof.
  split; intros i [Hi Hn]; rewrite (put_input_same i Hn); [exact (write_read i Hi)|exact (write_nonempty i Hi)].
Qed.

#[export] Instance put_target_format : Format put_target get_target valid_target.
Proof.
  split; [split|].
  - intros t Ht. rewrite put_target_same. exact (write_read t Ht).
  - intros t Ht. rewrite put_target_same. exact (write_nonempty t Ht).
  - intros s t rest Hs H. destruct (read_write (read := read_target) s t rest Hs H) as (? & ? & ?). by rewrite put_target_same.
Qed.

#[export] Instance put_output_format : Format put_output get_output valid_output.
Proof.
  eapply (parses_format _ _ (fun o => [write_int (out_amount o); put_target (target o)]) (fun o => is_u64 (out_amount o) /\ valid_target (target o) /\ True));
    [done|unfold valid_output; tauto| |].
  - fields (out_amount, u64_format, (target, put_target_format, tt)).
  - intros x [Hx _]. by apply (cat_nonempty (format_readable (Format := u64_format))).
Qed.

Ltac readable_fields projs :=
  lazymatch projs with
  | (?p, ?F, ?ps) => apply (writes_step p F); intros ? ?; readable_fields ps
  | tt => apply writes_end; let x := fresh in intros x; destruct x; cbn; intros; destruct_and!; subst; done
  end.

#[export] Instance put_prefix_readable : Readable put_prefix get_prefix stream_prefix.
Proof.
  eapply (writes_readable _ _ (fun v => [write_int (version v); write_int (unlockTime v); write_vector put_input (inputs v);
       write_vector put_output (outputs v); write_vector write_int (extra v)])
    (fun p => is_u8 (version p) /\ is_u64 (unlockTime p) /\ (Forall stream_input (inputs p) /\ Z.of_nat (length (inputs p)) < 2 ^ 64) /\
      (Forall valid_output (outputs p) /\ Z.of_nat (length (outputs p)) < 2 ^ 64) /\ (is_bytes (extra p) /\ Z.of_nat (length (extra p)) < 2 ^ 64) /\ True));
    [done|unfold stream_prefix, valid_prefix; tauto| |].
  - readable_fields (version, (format_readable (Format := u8_format)), (unlockTime, (format_readable (Format := u64_format)),
      (inputs, (vector_readable put_input get_input stream_input), (outputs, (vector_readable put_output get_output valid_output),
      (extra, (vector_readable write_int (readVarint uint8_t) is_u8), tt))))).
  - intros x [[Hx _] _]. by apply (cat_nonempty (format_readable (Format := u8_format))).
Qed.

Lemma put_signatures_valid ins sigs : Forall2 valid_signatures ins sigs -> put_signatures ins sigs = write_signatures ins sigs.
Proof.
  induction 1 as [|i s ins sigs [Hl _] _ IH]; [done|]. cbn [put_signatures write_signatures]. by rewrite Hl, Nat.eqb_refl, IH.
Qed.

#[export] Instance put_transaction_readable : Readable put_transaction get_transaction stream_transaction.
Proof.
  assert (E : forall tx bs, Forall2 valid_signatures (inputs (prefix tx)) (signatures tx) -> write_signatures (inputs (prefix tx)) (signatures tx) = Some bs ->
    put_transaction tx = cat [put_prefix (prefix tx); Some bs]).
  { intros tx bs H E. rewrite <- put_signatures_valid in E by done. unfold put_transaction. pose proof (Forall2_length H) as L. destruct (signatures tx) as [|s sigs].
    - destruct (inputs (prefix tx)); [|discriminate]. by injection E as <-.
    - by rewrite L, Nat.eqb_refl, E. }
  split.
  - intros tx [[Hp Hs] Hi]. destruct (write_read (prefix tx) (conj Hp Hi)) as (a & Ea & Ba & Ra). destruct (signatures_write _ _ Hs) as (b & Eb & Bb & Rb).
    exists (a ++ b). rewrite (E tx b) by done. cbn [cat]. rewrite Ea. cbn [mbind option_bind]. rewrite app_nil_r. split_and!; [done|by apply Forall_app_2|].
    intros rest. apply reader_bind_Some. exists (prefix tx), (b ++ rest). rewrite <- app_assoc. split; [done|]. apply reader_bind_Some. exists (signatures tx), rest.
    split; [done|]. by destruct tx.
  - intros tx [[Hp Hs] Hi]. destruct (signatures_write _ _ Hs) as (b & Eb & _). rewrite (E tx b) by done. by apply (cat_nonempty put_prefix_readable).
Qed.

#[export] Instance put_entry_readable : Readable put_entry get_entry stream_entry.
Proof.
  eapply (writes_readable _ _ (fun v => [put_transaction (entry_tx v); write_vector write_int (m_global_output_indexes v)])
    (fun e => stream_transaction (entry_tx e) /\ (Forall is_u32 (m_global_output_indexes e) /\ Z.of_nat (length (m_global_output_indexes e)) < 2 ^ 64) /\ True));
    [done|unfold stream_entry; tauto| |].
  - readable_fields (entry_tx, put_transaction_readable, (m_global_output_indexes, (vector_readable write_int (readVarint uint32_t) is_u32), tt)).
  - intros x [Hx _]. by apply (cat_nonempty put_transaction_readable).
Qed.

(** A header is read back with the timestamp that was there before. *)
Definition with_timestamp (t : Z) (h : block_header_t) : block_header_t := mkheader (majorVersion h) (minorVersion h) (nonce h) t (previousBlockHash h).

#[export] Instance put_header_readable old : Readable put_header (get_header old)
  (fun h => is_u8 (majorVersion h) /\ is_u8 (minorVersion h) /\ is_b32 (previousBlockHash h) /\ is_u32 (nonce h) /\ timestamp h = old).
Proof.
  eapply (writes_readable _ _ (fun v => [write_int (majorVersion v); write_int (minorVersion v); write_pod (previousBlockHash v); write_raw32 (nonce v)])
    (fun h => is_u8 (majorVersion h) /\ is_u8 (minorVersion h) /\ is_b32 (previousBlockHash h) /\ is_u32 (nonce h) /\ timestamp h = old));
    [done|tauto| |].
  - do 4 (first [apply (writes_step majorVersion (format_readable (Format := u8_format)))|apply (writes_step minorVersion (format_readable (Format := u8_format)))
      |apply (writes_step previousBlockHash (format_readable (Format := b32_format)))|apply (writes_step nonce (format_readable (Format := raw32_format)))]; intros ? ?).
    apply writes_end. intros []; cbn; intros; destruct_and!; subst; done.
  - intros x [Hx _]. by apply (cat_nonempty (format_readable (Format := u8_format))).
Qed.

(** The tag 0xff of a base input is written as the two bytes of a varint and read as one: a base input of any
    height is read back as the input of height 1, with the bytes of its height left in the stream. *)
Lemma base_input_corrupted h : exists bs, put_input (base_input (mkbase_input h)) = Some bs /\
  forall rest, get_input (bs ++ rest) = Some (base_input (mkbase_input 1), writeVarint h ++ rest).
Proof.
  exists (0xff :: 1 :: writeVarint h). split; [|reflexivity].
  unfold put_input, put_base_input, write_int. cbn [input_tag blockIndex cat mbind option_bind]. rewrite !app_nil_r. reflexivity.
Qed.

Lemma cat_cons f fs bs : cat (f :: fs) = Some bs -> exists a b, f = Some a /\ cat fs = Some b /\ bs = a ++ b.
Proof. cbn [cat]. destruct f as [a|]; [|done]. destruct (cat fs) as [b|]; [|done]. intros [= <-]. by exists a, b. Qed.

(** Reading back a field that is written with its type. *)
Lemma read_field {A w r valid} {F : Readable (A := A) w r valid} x a s : valid x -> w x = Some a -> r (a ++ s) = Some (x, s).
Proof. intros Hx E. destruct (write_read x Hx) as (b & Eb & _ & R). rewrite E in Eb. injection Eb as <-. apply R. Qed.

Lemma base_vector_corrupted h ins bs rest l s' : Z.of_nat (S (length ins)) < 2 ^ 64 -> write_vector put_input (base_input (mkbase_input h) :: ins) = Some bs ->
  read_vector get_input (bs ++ rest) = Some (l, s') -> exists l', l = base_input (mkbase_input 1) :: l'.
Proof.
  intros Hn E H. unfold write_vector in E. cbn [write_items length] in E. destruct (base_input_corrupted h) as (a & Ea & R). rewrite Ea in E. cbn [mbind option_bind] in E.
  destruct (write_items put_input ins) as [b|]; [|done]. cbn [mbind option_bind] in E. injection E as <-. unfold read_vector in H.
  rewrite <- app_assoc, size_ok in H by done. cbn [mbind option_bind] in H. destruct (_ <=? _); [|done]. rewrite Nat2Z.id in H. cbn [read_items] in H.
  apply reader_bind_Some in H as (x & s1 & Hx & H). rewrite <- app_assoc, R in Hx. injection Hx as <- <-. apply reader_bind_Some in H as (l' & s2 & _ & [= <- <-]). by exists l'.
Qed.

Lemma base_prefix_corrupted p h ins bs rest p' s' : is_u8 (version p) -> is_u64 (unlockTime p) -> Z.of_nat (length (inputs p)) < 2 ^ 64 ->
  inputs p = base_input (mkbase_input h) :: ins -> put_prefix p = Some bs -> get_prefix (bs ++ rest) = Some (p', s') ->
  exists l, inputs p' = base_input (mkbase_input 1) :: l.
Proof.
  intros Hv Hu Hl Hi E H. unfold put_prefix in E. apply cat_cons in E as (a1 & b1 & E1 & E & ->). apply cat_cons in E as (a2 & b2 & E2 & E & ->).
  apply cat_cons in E as (a3 & b3 & E3 & E & ->). rewrite <- !app_assoc in H. unfold get_prefix in H.
  apply reader_bind_Some in H as (v & s1 & H1 & H). rewrite (read_field (F := format_readable (Format := u8_format)) (version p)) in H1 by done. injection H1 as <- <-.
  apply reader_bind_Some in H as (u & s2 & H2 & H). rewrite (read_field (F := format_readable (Format := u64_format)) (unlockTime p)) in H2 by done. injection H2 as <- <-.
  apply reader_bind_Some in H as (i & s3 & H3 & H). rewrite Hi in E3, Hl. destruct (base_vector_corrupted h ins a3 _ i s3 Hl E3 H3) as (l & ->).
  apply reader_bind_Some in H as (o & s4 & _ & H). apply reader_bind_Some in H as (e & s5 & _ & [= <- <-]). by exists l.
Qed.

(** C26: Stored blocks: whenever the bytes written for a block entry with a base transaction of height [h] are read
    back, the base input has height 1 and the timestamp is the one the structure had before the read; so the
    block is not restored, except for height 1 and an equal timestamp. *)
Theorem stored_block_corrupted e h ins old bs rest e' s' : valid_header (header (bl e)) -> is_u8 (version (prefix (baseTransaction (bl e)))) ->
  is_u64 (unlockTime (prefix (baseTransaction (bl e)))) -> Z.of_nat (length (inputs (prefix (baseTransaction (bl e))))) < 2 ^ 64 ->
  inputs (prefix (baseTransaction (bl e))) = base_input (mkbase_input h) :: ins ->
  put_block_entry e = Some bs -> get_block_entry old (bs ++ rest) = Some (e', s') ->
  timestamp (header (bl e')) = old /\ (exists l, inputs (prefix (baseTransaction (bl e'))) = base_input (mkbase_input 1) :: l) /\
  (e' = e -> h = 1 /\ timestamp (header (bl e)) = old).
Proof.
  intros Hh Hv Hu Hl Hi E H. unfold put_block_entry in E. apply cat_cons in E as (a & b & Eb & E & ->). unfold put_block in Eb.
  apply cat_cons in Eb as (a1 & b1 & E1 & Eb & ->). apply cat_cons in Eb as (a2 & b2 & E2 & Eb & ->). unfold put_transaction in E2.
  apply cat_cons in E2 as (a3 & b3 & E3 & _ & ->). unfold get_block_entry in H. rewrite <- !app_assoc in H.
  apply reader_bind_Some in H as (b' & s1 & H1 & H). do 5 apply reader_bind_Some in H as (? & ? & _ & H). injection H as <- <-. cbn [bl].
  unfold get_block in H1. apply reader_bind_Some in H1 as (h' & s2 & H2 & H1).
  destruct (write_read (Readable := put_header_readable old) (with_timestamp old (header (bl e)))) as (a1' & E1' & _ & R1).
  { destruct Hh as (? & ? & ? & ? & ?). by split_and!. }
  change (put_header (with_timestamp old (header (bl e)))) with (put_header (header (bl e))) in E1'. rewrite E1 in E1'. injection E1' as <-.
  rewrite R1 in H2. injection H2 as <- <-. apply reader_bind_Some in H1 as (t & s3 & Ht & H1). apply reader_bind_Some in H1 as (? & ? & _ & [= <- <-]).
  unfold get_transaction in Ht. apply reader_bind_Some in Ht as (p & s4 & Hp & Ht). apply reader_bind_Some in Ht as (? & ? & _ & [= <- <-]).
  destruct (base_prefix_corrupted _ h ins a3 _ p s4 Hv Hu Hl Hi E3 Hp) as (l & El). cbn [header baseTransaction prefix].
  split; [done|]. split; [by exists l|]. intros He. split; [|by rewrite <- He].
  rewrite <- He in Hi. cbn [bl header baseTransaction prefix] in Hi. rewrite El in Hi. by injection Hi as <- <-.
Qed.

(** The entry of a first block, without outputs. *)
Definition sample_entry : block_entry_t :=
  mkblock_entry (mkblock (mkheader 1 0 70 1000 (replicate 32 4)) (mktransaction (mkprefix 1 100 [base_input (mkbase_input 0)] [] []) []) []) 0 0 0 0 [].

Lemma stored_block_corrupted_witness : exists bs e' s', put_block_entry sample_entry = Some bs /\ get_block_entry 5 bs = Some (e', s') /\
  timestamp (header (bl sample_entry)) = 1000 /\ timestamp (header (bl e')) = 5 /\ e' <> sample_entry.
Proof.
  assert (W : put_block_entry sample_entry = Some (default [] (put_block_entry sample_entry))) by (vm_compute; reflexivity).
  destruct (get_block_entry 5 (default [] (put_block_entry sample_entry) ++ [])) as [[e' s']|] eqn:R; [|vm_compute in R; discriminate].
  assert (Hh : valid_header (header (bl sample_entry))) by (unfold valid_header, is_word; cbn; split_and!; try lia; by apply bytes_check_n).
  destruct (stored_block_corrupted sample_entry 0 [] 5 _ [] e' s' Hh ltac:(split; cbn; lia) ltac:(split; cbn; lia) ltac:(cbn; lia) eq_refl W R) as (T & _ & N).
  rewrite app_nil_r in R. eexists _, e', s'. split_and!; [exact W|exact R|reflexivity|exact T|]. intros [E _]%N. discriminate.
Defined.

(** The stream operators restore every transaction without base inputs that has the signatures its inputs need, and leave the
    rest of the stream. *)
Theorem stream_transaction_roundtrip tx : valid_transaction tx -> Forall stream_input (inputs (prefix tx)) ->
  exists bs, put_transaction tx = Some bs /\ forall rest, get_transaction (bs ++ rest) = Some (tx, rest).
Proof. intros Hv Hi. destruct (write_read tx (conj Hv Hi)) as (bs & E & _ & R). by exists bs. Qed.

Lemma stream_transaction_roundtrip_witness : exists bs, put_transaction (mktransaction (mkprefix 1 0 [key_input (mkkey_input 5 [3] (replicate 32 9))] [] [200]) [[replicate 64 5]]) = Some bs /\
  get_transaction (bs ++ [8]) = Some (mktransaction (mkprefix 1 0 [key_input (mkkey_input 5 [3] (replicate 32 9))] [] [200]) [[replicate 64 5]], [8]).
Proof.
  assert (V : valid_input (key_input (mkkey_input 5 [3] (replicate 32 9)))).
  { unfold valid_input, is_word. cbn. split_and!; try lia; [constructor; [lia|constructor]|by apply bytes_check_n]. }
  destruct (stream_transaction_roundtrip (mktransaction (mkprefix 1 0 [key_input (mkkey_input 5 [3] (replicate 32 9))] [] [200]) [[replicate 64 5]])) as (bs & E & R).
  - split; [|constructor; [split; [done|]; constructor; [by apply bytes_check_n|constructor]|constructor]].
    unfold valid_prefix, is_word. cbn. split_and!; try lia; [by constructor|constructor|by apply (bytes_check_n 1)].
  - by repeat constructor.
  - exists bs. split; [exact E|apply R].
Defined.
