(* ===== verification/Base58.v ===== *)
(** * Base-58 encoding and addresses: src/src/common/base58.cpp, binary.h

    A string is cut into blocks of 8 bytes, each written as 11 digits in base
    58, the last block as fewer.  [encode_addr] puts a varint tag before the
    data and four bytes of its fast hash after it.  A pointer and a size are
    the list of the bytes there; the part of the result a block function
    writes is returned.  [Rejected] is the return value [false], [Asserted] a
    failed assertion or a write outside the buffer. *)

From S2P Require Import Prelude IntUtil Keccak KeccakProofs Random Stream.

Inductive Decoded (A : Type) : Type := Value (a : A) | Rejected | Asserted.
Arguments Value {A} _.
Arguments Rejected {A}.
Arguments Asserted {A}.

#[export] Instance decoded_ret : MRet Decoded := @Value.
#[export] Instance decoded_bind : MBind Decoded :=
  fun A B f r => match r with Value x => f x | Rejected => Rejected | Asserted => Asserted end.

Definition massert (b : bool) : Decoded unit := if b then Value () else Asserted.

(** ** Tables *)

(** "123456789ABCDEFGHJKLMNPQRSTUVWXYZabcdefghijkmnopqrstuvwxyz" *)
Definition alphabet : bytes :=
  [49; 50; 51; 52; 53; 54; 55; 56; 57;
   65; 66; 67; 68; 69; 70; 71; 72; 74; 75; 76; 77; 78; 80; 81; 82; 83; 84; 85; 86; 87; 88; 89; 90;
   97; 98; 99; 100; 101; 102; 103; 104; 105; 106; 107; 109; 110; 111; 112; 113; 114; 115; 116; 117; 118; 119; 120; 121; 122].
Definition alphabet_size : Z := Z.of_nat (length alphabet).
Definition encoded_block_sizes : list nat := [0; 2; 3; 5; 6; 7; 9; 10; 11]%nat.
Definition full_block_size : nat := (length encoded_block_sizes - 1)%nat.
Definition full_encoded_block_size : nat := encoded_block_sizes !!! full_block_size.
Definition addr_checksum_size : nat := 4.

(** The constructor of [reverse_alphabet]. *)
Definition reverse_data : list Z :=
  foldl (fun m_data i => <[Z.to_nat (alphabet !!! i - alphabet !!! 0%nat) := i8 (Z.of_nat i)]> m_data)
    (replicate (Z.to_nat (alphabet !!! (length alphabet - 1)%nat - alphabet !!! 0%nat + 1)) (-1))
    (seq 0 (length alphabet)).

(** [reverse_alphabet::operator()]: the letter is a signed [char], the index a [size_t]. *)
Definition reverse_alphabet (letter : Z) : Z :=
  let idx := u64 (i8 letter - alphabet !!! 0%nat) in
  if idx <? Z.of_nat (length reverse_data) then reverse_data !!! Z.to_nat idx else -1.

(** The constructor of [decoded_block_sizes] and its [operator()]. *)
Definition decoded_data : list Z :=
  foldl (fun m_data i => <[encoded_block_sizes !!! i := Z.of_nat i]> m_data)
    (replicate (encoded_block_sizes !!! full_block_size + 1) (-1)) (seq 0 (full_block_size + 1)).
Definition decoded_block_sizes (encoded_block_size : nat) : Decoded Z :=
  _ ← massert (encoded_block_size <=? full_encoded_block_size)%nat;
  Value (decoded_data !!! encoded_block_size).

(** ** Blocks *)

Definition uint_8be_to_64 (data : bytes) : Decoded Z :=
  _ ← massert ((1 <=? length data)%nat && (length data <=? 8)%nat);
  Value (foldl (fun res b => u64 (res .<< 8) .| b) 0 data).

Definition uint_64_to_8be (num : Z) (size : nat) : Decoded bytes :=
  _ ← massert ((1 <=? size)%nat && (size <=? 8)%nat);
  let num_be := reverse (le_bytes 8 num) in
  Value (drop (8 - size) num_be).

(** The loop of [encode_block], with [i + 1] cells left to write. *)
Fixpoint encode_digits (cells : nat) (num : Z) (res : bytes) : Decoded bytes :=
  if 0 <? num then
    match cells with
    | O => Asserted
    | S i =>
        let remainder := num mod alphabet_size in
        encode_digits i (num / alphabet_size) (<[i := alphabet !!! Z.to_nat remainder]> res)
    end
  else Value res.

Definition encode_block (block : bytes) (res : bytes) : Decoded bytes :=
  _ ← massert ((1 <=? length block)%nat && (length block <=? full_block_size)%nat);
  num ← uint_8be_to_64 block;
  encode_digits (encoded_block_sizes !!! length block) num res.

(** The loop of [decode_block] from the last letter to the first. *)
Fixpoint decode_digits (letters : bytes) (res_num order : Z) : Decoded Z :=
  match letters with
  | [] => Value res_num
  | letter :: letters =>
      let digit := reverse_alphabet letter in
      if digit <? 0 then Rejected
      else
        let '(product_lo, product_hi) := mul128 order (u64 digit) in
        let tmp := u64 (res_num + product_lo) in
        if (tmp <? res_num) || negb (0 =? product_hi) then Rejected
        else decode_digits letters tmp (u64 (order * alphabet_size))
  end.

Definition decode_block (block : bytes) : Decoded bytes :=
  let size := length block in
  _ ← massert ((1 <=? size)%nat && (size <=? full_encoded_block_size)%nat);
  res_size ← decoded_block_sizes size;
  if res_size <=? 0 then Rejected
  else
    res_num ← decode_digits (reverse block) 0 1;
    if (res_size <? Z.of_nat full_block_size) && (u64 (1 .<< (8 * res_size)) <=? res_num) then Rejected
    else uint_64_to_8be res_num (Z.to_nat res_size).

(** ** Strings *)

(** The block at offset [off] of [size] bytes, and the blocks of a loop. *)
Definition slice (off size : nat) (s : bytes) : bytes := take size (drop off s).
Definition blocks (size count : nat) (s : bytes) : list bytes := (fun i => slice (i * size) size s) <$> seq 0 count.

(** The full blocks, then the last one. *)
Definition encode_full (count : nat) (data : bytes) : Decoded bytes :=
  full ← mapM (fun b => encode_block b (replicate full_encoded_block_size (alphabet !!! 0%nat))) (blocks full_block_size count data);
  Value (mjoin full).
Definition encode_last (block : bytes) : Decoded bytes :=
  if (0 <? length block)%nat then encode_block block (replicate (encoded_block_sizes !!! length block) (alphabet !!! 0%nat)) else Value [].

Definition encode (data : bytes) : Decoded bytes :=
  match data with
  | [] => Value []
  | _ =>
      let full_block_count := (length data / full_block_size)%nat in
      let last_block_size := (length data mod full_block_size)%nat in
      full ← encode_full full_block_count data;
      last ← encode_last (slice (full_block_count * full_block_size) last_block_size data);
      Value (full ++ last)
  end.

Definition decode_full (count : nat) (enc : bytes) : Decoded bytes :=
  full ← mapM decode_block (blocks full_encoded_block_size count enc);
  Value (mjoin full).
Definition decode_last (block : bytes) : Decoded bytes :=
  if (0 <? length block)%nat then decode_block block else Value [].

Definition decode (enc : bytes) : Decoded bytes :=
  match enc with
  | [] => Value []
  | _ =>
      let full_block_count := (length enc / full_encoded_block_size)%nat in
      let last_block_size := (length enc mod full_encoded_block_size)%nat in
      last_block_decoded_size ← decoded_block_sizes last_block_size;
      if last_block_decoded_size <? 0 then Rejected
      else
        full ← decode_full full_block_count enc;
        last ← decode_last (slice (full_block_count * full_encoded_block_size) last_block_size enc);
        Value (full ++ last)
  end.

(** ** Varints in strings *)

Fixpoint fromVarint_loop (fuel : nat) (v : Z) : bytes :=
  match fuel with
  | O => [u8 v]
  | S fuel => if 0x80 <=? v then u8 ((u8 v .& 0x7f) .| 0x80) :: fromVarint_loop fuel (v .>> 7) else [u8 v]
  end.
Definition fromVarint (t : Z) : bytes := fromVarint_loop 9 (u64 t).

(** [toVarint] at [uint64_t]: the value returned and [i]. *)
Fixpoint toVarint_loop (str : bytes) (shift read i : Z) : Z * Z :=
  match str with
  | [] => (read, i)
  | byte :: str =>
      let read := read + 1 in
      if (64 <=? shift + 7) && ((1 .<< (64 - shift)) <=? byte) then (-1, i)
      else if (byte =? 0) && negb (shift =? 0) then (-2, i)
      else
        let i := i .| u64 ((byte .& 0x7f) .<< shift) in
        if byte .& 0x80 =? 0 then (read, i) else toVarint_loop str (shift + 7) read i
  end.
Definition toVarint (str : bytes) : Z * Z := toVarint_loop str 0 0 0.

(** ** Addresses *)

Definition fast_hash_of (buf : bytes) : Decoded bytes :=
  match cn_fast_hash buf with Done h => Value h | _ => Asserted end.

Definition encode_addr (tag : Z) (data : bytes) : Decoded bytes :=
  let buf := fromVarint tag ++ data in
  hash ← fast_hash_of buf;
  encode (buf ++ take addr_checksum_size hash).

Definition decode_addr (addr : bytes) : Decoded (Z * bytes) :=
  addr_data ← decode addr;
  if (length addr_data <=? addr_checksum_size)%nat then Rejected
  else
    let checksum := drop (length addr_data - addr_checksum_size) addr_data in
    let addr_data := take (length addr_data - addr_checksum_size) addr_data in
    hash ← fast_hash_of addr_data;
    let expected_checksum := take addr_checksum_size hash in
    if negb (bool_decide (expected_checksum = checksum)) then Rejected
    else
      let '(read, tag) := toVarint addr_data in
      if read <=? 0 then Rejected else Value (tag, drop (Z.to_nat read) addr_data).

(** ** Letters and digits *)

(** [n] digits of a number, the most significant first. *)
Fixpoint digits (n : nat) (num : Z) : bytes :=
  match n with O => [] | S n => digits n (num / 58) ++ [alphabet !!! Z.to_nat (num mod 58)] end.

(** The number written by letters, the least significant first. *)
Fixpoint value (letters : bytes) : Z :=
  match letters with [] => 0 | c :: letters => reverse_alphabet c + 58 * value letters end.

Definition letter (c : Z) : bool := 0 <=? reverse_alphabet c.

Lemma letter_digit c : is_u8 c -> letter c = true -> 0 <= reverse_alphabet c < 58 /\ alphabet !!! Z.to_nat (reverse_alphabet c) = c.
Proof.
  intros Hc Hl. enough (E : implb (letter c) ((reverse_alphabet c <? 58) && (alphabet !!! Z.to_nat (reverse_alphabet c) =? c)) = true).
  { rewrite Hl in E. unfold letter in Hl. cbn in E. lia. }
  clear Hl. revert c Hc. refine (byte_all _ _). vm_compute. reflexivity.
Qed.

Lemma digit_letter d : 0 <= d < 58 -> reverse_alphabet (alphabet !!! Z.to_nat d) = d /\ is_u8 (alphabet !!! Z.to_nat d).
Proof.
  intros Hd. enough (E : forallb (fun i => (reverse_alphabet (alphabet !!! i) =? Z.of_nat i) && byteb (alphabet !!! i)) (seq 0 58) = true).
  { rewrite forallb_forall in E. destruct (proj1 (andb_true_iff _ _) (E (Z.to_nat d) ltac:(apply in_seq; lia))) as [E1 E2].
    split; [lia|by apply byteb_u8]. }
  vm_compute. reflexivity.
Qed.

Lemma length_digits n num : length (digits n num) = n.
Proof. revert num. induction n; intros; cbn; [done|]. rewrite length_app, IHn. cbn. lia. Qed.

Lemma digits_0 n : digits n 0 = replicate n (alphabet !!! 0%nat).
Proof. induction n as [|n IH]; [done|]. cbn [digits]. rewrite Zdiv_0_l, IH, replicate_S_end. done. Qed.

Lemma reverse_digits n num : reverse (digits (S n) num) = alphabet !!! Z.to_nat (num mod 58) :: reverse (digits n (num / 58)).
Proof. cbn [digits]. by rewrite reverse_app. Qed.

Lemma digits_letters n num : Forall (fun c => letter c = true) (reverse (digits n num)) /\ is_bytes (digits n num).
Proof.
  revert num. induction n as [|n IH]; intros num; [split; constructor|]. destruct (IH (num / 58)) as [H1 H2].
  destruct (digit_letter (num mod 58) ltac:(apply Z.mod_pos_bound; lia)) as [E H]. rewrite reverse_digits. split.
  - constructor; [|done]. unfold letter. rewrite E. pose proof (Z.mod_pos_bound num 58). lia.
  - cbn [digits]. apply Forall_app. split; [done|]. constructor; [done|constructor].
Qed.

Lemma value_digits n num : 0 <= num < 58 ^ Z.of_nat n -> value (reverse (digits n num)) = num.
Proof.
  revert num. induction n as [|n IH]; intros num Hn; [cbn in *; lia|]. rewrite reverse_digits. cbn [value].
  rewrite Nat2Z.inj_succ, Z.pow_succ_r in Hn by lia. rewrite IH by (split; [apply Z.div_pos|apply Z.div_lt_upper_bound]; lia).
  destruct (digit_letter (num mod 58) ltac:(apply Z.mod_pos_bound; lia)) as [-> _]. pose proof (Z.div_mod num 58). lia.
Qed.

Lemma digits_value l : is_bytes l -> Forall (fun c => letter c = true) l -> 0 <= value l < 58 ^ Z.of_nat (length l) /\ digits (length l) (value l) = reverse l.
Proof.
  induction l as [|c l IH]; intros Hb Hl; [done|]. apply Forall_cons_1 in Hb as [Hc Hb], Hl as [Hl Hls]. destruct (IH Hb Hls) as [B E].
  destruct (letter_digit c Hc Hl) as [D Ec]. cbn [length value digits]. rewrite Nat2Z.inj_succ, Z.pow_succ_r by lia. split; [lia|].
  rewrite Z.add_comm, (Z.mul_comm 58), Z.div_add_l, (Z.div_small (reverse_alphabet c)), Z.add_0_r, E by lia.
  rewrite Z.add_comm, Z.mod_add, Z.mod_small, Ec by lia. by rewrite reverse_cons.
Qed.

(** ** Numbers in blocks *)

Lemma encode_digits_ok n num tail : 0 <= num < 58 ^ Z.of_nat n ->
  encode_digits n num (replicate n (alphabet !!! 0%nat) ++ tail) = Value (digits n num ++ tail).
Proof.
  revert num tail. induction n as [|n IH]; intros num tail Hn.
  { replace num with 0 by (cbn in Hn; lia). done. }
  cbn [encode_digits]. destruct (Z.ltb_spec 0 num); [|replace num with 0 by lia; by rewrite digits_0].
  rewrite Nat2Z.inj_succ, Z.pow_succ_r in Hn by lia. change alphabet_size with 58. rewrite replicate_S_end, <- app_assoc.
  rewrite insert_app_r_alt by (rewrite length_replicate; lia). rewrite length_replicate, Nat.sub_diag. cbn [app list_insert].
  rewrite IH by (split; [apply Z.div_pos|apply Z.div_lt_upper_bound]; lia). cbn [digits]. by rewrite <- app_assoc.
Qed.

Lemma decode_digits_ok l r order (k : nat) : is_bytes l -> (length l + k <= 11)%nat -> (l <> [] -> order = 58 ^ Z.of_nat k) -> is_u64 r ->
  decode_digits l r order = if forallb letter l && (r + 58 ^ Z.of_nat k * value l <? 2 ^ 64) then Value (r + 58 ^ Z.of_nat k * value l) else Rejected.
Proof.
  revert r order k. induction l as [|c l IH]; intros r order k Hb Hk Ho Hr.
  { cbn. rewrite Z.mul_0_r, Z.add_0_r. destruct (Z.ltb_spec r (2 ^ 64)); [done|]. unfold is_word in Hr. lia. }
  apply Forall_cons_1 in Hb as [Hc Hb]. rewrite (Ho ltac:(done)). cbn [length] in Hk. cbn [decode_digits forallb value].
  unfold letter at 1. destruct (Z.ltb_spec (reverse_alphabet c) 0) as [|Hd]; [by replace (0 <=? reverse_alphabet c) with false by lia|].
  replace (0 <=? reverse_alphabet c) with true by lia. cbn [andb].
  destruct (letter_digit c Hc) as [D _]; [unfold letter; lia|].
  assert (Hp : 0 < 58 ^ Z.of_nat k <= 58 ^ 10) by (split; [lia|apply Z.pow_le_mono_r; lia]). assert (H10 : 58 ^ 10 < 2 ^ 64) by reflexivity.
  rewrite (wrap_small 64 (reverse_alphabet c)) by (split; [lia|eapply Z.lt_trans; [apply D|done]]).
  pose proof (mul128_ok (58 ^ Z.of_nat k) (reverse_alphabet c)) as M. destruct (mul128 _ _) as [lo hi].
  destruct M as (M1 & M2 & M3 & _); [split; lia|split; [lia|eapply Z.lt_trans; [apply D|done]]|].
  set (d := reverse_alphabet c) in *. set (p := 58 ^ Z.of_nat k) in *.
  assert (Hs : 58 ^ Z.of_nat (S k) = 58 * p) by (unfold p; rewrite Nat2Z.inj_succ, Z.pow_succ_r by lia; done).
  assert (V : forallb letter l = true -> 0 <= value l).
  { intros Hl. apply digits_value; [done|]. apply list.Forall_forall. intros x Hx. rewrite forallb_forall in Hl. by apply Hl, list_elem_of_In. }
  destruct (_ || _) eqn:Eo.
  - destruct (forallb letter l) eqn:El; [|done]. specialize (V eq_refl). cbn [andb]. destruct (Z.ltb_spec (r + p * (d + 58 * value l)) (2 ^ 64)) as [Hlt|]; [|done].
    exfalso. assert (Hpd : r + p * d < 2 ^ 64) by nia. unfold is_word in *. assert (hi = 0) by nia. subst hi. assert (lo = p * d) by lia.
    unfold wrap in Eo. rewrite Z.mod_small in Eo by lia. lia.
  - unfold is_word in *. assert (hi = 0) by lia. subst hi. assert (lo = p * d) by lia. subst lo.
    assert (Hpd : r + p * d < 2 ^ 64).
    { destruct (Z.lt_ge_cases (r + p * d) (2 ^ 64)); [done|]. exfalso. unfold wrap in Eo.
      assert (E : (r + p * d) mod 2 ^ 64 = r + p * d - 2 ^ 64) by (symmetry; apply (Z.mod_unique_pos _ _ 1); lia). rewrite E in Eo. lia. }
    rewrite (wrap_small 64 (r + p * d)) by (unfold is_word; lia).
    rewrite (IH _ _ (S k)); [| done | lia | | unfold is_word; lia].
    + rewrite Hs. replace (r + p * d + 58 * p * value l) with (r + p * (d + 58 * value l)) by ring. done.
    + intros Hl. assert (k <= 9)%nat by (clear - Hl Hk; destruct l; [congruence|cbn [length] in Hk; lia]). change alphabet_size with 58. rewrite Hs, Z.mul_comm. apply wrap_small. split; [lia|].
      rewrite <- Hs. eapply Z.le_lt_trans; [|exact H10]. apply Z.pow_le_mono_r; lia.
Qed.

(** ** Bytes in blocks *)

Lemma be_value_loop data r : is_bytes data -> 0 <= r -> r * 256 ^ Z.of_nat (length data) + le (reverse data) < 2 ^ 64 ->
  foldl (fun res b => u64 (res .<< 8) .| b) r data = r * 256 ^ Z.of_nat (length data) + le (reverse data).
Proof.
  revert r. induction data as [|b data IH]; intros r Hb Hr Hlt; [cbn in *; lia|]. apply Forall_cons_1 in Hb as [H8 Hb].
  assert (Hrb : 0 <= le (reverse data)) by (apply le_bound, Forall_reverse, Hb).
  revert Hlt. cbn [foldl length]. rewrite reverse_cons, le_app, length_reverse, Nat2Z.inj_succ, Z.pow_succ_r by lia. cbn [le]. rewrite Z.mul_0_r, Z.add_0_r.
  intros Hlt. assert (Hp : 1 <= 256 ^ Z.of_nat (length data)) by lia. assert (H8' : 0 <= b < 256) by exact H8.
  rewrite wrap_small by (rewrite Z.shiftl_mul_pow2 by lia; unfold is_word; nia).
  rewrite Z.lor_comm, lor_shiftl_add by (lia || done). rewrite IH; [|done|lia|]; change (2 ^ 8) with 256; nia.
Qed.

Lemma be_value data : is_bytes data -> (1 <= length data <= 8)%nat -> uint_8be_to_64 data = Value (le (reverse data)).
Proof.
  intros Hb Hl. unfold uint_8be_to_64, massert. replace (_ && _) with true by lia. cbn [mbind decoded_bind].
  rewrite be_value_loop; [done|done|lia|]. rewrite Z.mul_0_l, Z.add_0_l. eapply Z.lt_le_trans; [apply le_bound, Forall_reverse, Hb|].
  rewrite length_reverse. change (2 ^ 64) with (256 ^ 8). apply Z.pow_le_mono_r; lia.
Qed.

Lemma be_bytes num size : (1 <= size <= 8)%nat -> uint_64_to_8be num size = Value (reverse (le_bytes size num)).
Proof.
  intros Hl. unfold uint_64_to_8be, massert. replace (_ && _) with true by lia. cbn [mbind decoded_bind]. f_equal.
  replace (le_bytes 8 num) with (le_bytes (size + (8 - size)) num) by (f_equal; lia). rewrite le_bytes_app, reverse_app.
  apply drop_app_length'. by rewrite length_reverse, length_le_bytes.
Qed.

(** The block sizes: 1 to 8 bytes, in enough digits. *)
Lemma block_size n : (1 <= n <= 8)%nat -> let e := encoded_block_sizes !!! n in
  (1 <= e <= 11)%nat /\ decoded_block_sizes e = Value (Z.of_nat n) /\ 256 ^ Z.of_nat n <= 58 ^ Z.of_nat e.
Proof.
  intros Hn. do 9 (destruct n as [|n]; [try lia; split_and!; vm_compute; (reflexivity || lia || discriminate)|]). lia.
Qed.

Lemma decoded_size e n : (e <= 11)%nat -> decoded_data !!! e = n -> n = -1 \/ 0 <= n <= 8 /\ encoded_block_sizes !!! Z.to_nat n = e.
Proof.
  intros He <-. do 12 (destruct e as [|e]; [vm_compute; (left; reflexivity) || (right; split; [split; discriminate|reflexivity])|]). lia.
Qed.

Lemma encode_block_ok block : is_bytes block -> (1 <= length block <= 8)%nat -> let e := encoded_block_sizes !!! length block in
  encode_block block (replicate e (alphabet !!! 0%nat)) = Value (digits e (le (reverse block))).
Proof.
  intros Hb Hl e. destruct (block_size _ Hl) as (He & _ & Hp). unfold encode_block, massert.
  replace (_ && _) with true by (change full_block_size with 8%nat; lia). cbn [mbind decoded_bind]. rewrite be_value by done. cbn [mbind decoded_bind].
  rewrite <- (app_nil_r (replicate _ _)), encode_digits_ok, app_nil_r; [done|]. pose proof (le_bound (reverse block) ltac:(by apply Forall_reverse)) as B.
  rewrite length_reverse in B. split; [apply B|]. eapply Z.lt_le_trans; [apply B|exact Hp].
Qed.

Lemma encode_block_full block : is_bytes block -> length block = 8%nat ->
  encode_block block (replicate full_encoded_block_size (alphabet !!! 0%nat)) = Value (digits full_encoded_block_size (le (reverse block))).
Proof. intros Hb Hl. pose proof (encode_block_ok block Hb ltac:(lia)) as E. rewrite Hl in E. exact E. Qed.

Lemma letters_all l : forallb letter l = true <-> Forall (fun c => letter c = true) l.
Proof. rewrite forallb_forall, list.Forall_forall. split; intros H x Hx; apply H; by apply list_elem_of_In. Qed.

Lemma pow_256 n : 0 <= n -> 1 .<< (8 * n) = 256 ^ n.
Proof. intros. rewrite Z.shiftl_mul_pow2, Z.mul_1_l, Z.pow_mul_r by lia. done. Qed.

(** A block is decoded to the bytes of the number it writes, if there are such bytes. *)
Lemma decode_block_ok block n : is_bytes block -> (1 <= n <= 8)%nat -> length block = encoded_block_sizes !!! n ->
  decode_block block = let v := value (reverse block) in
    if forallb letter (reverse block) && (v <? 256 ^ Z.of_nat n) then Value (reverse (le_bytes n v)) else Rejected.
Proof.
  intros Hb Hn Hl. destruct (block_size n Hn) as (He & Hd & _). unfold decode_block, massert. rewrite Hl.
  replace (_ && _) with true by (change full_encoded_block_size with 11%nat; lia). cbn [mbind decoded_bind]. rewrite Hd. cbn [mbind decoded_bind].
  replace (Z.of_nat n <=? 0) with false by lia. rewrite (decode_digits_ok _ _ _ 0); [|by apply Forall_reverse|rewrite length_reverse; lia|done|done].
  rewrite Z.add_0_l, Z.mul_1_l. destruct (forallb letter (reverse block)); [|done]. cbn [andb]. set (v := value _). change full_block_size with 8%nat.
  destruct (decide (n = 8%nat)) as [->|Hn8].
  - change (256 ^ Z.of_nat 8) with (2 ^ 64). destruct (v <? 2 ^ 64); [|done]. cbn [mbind decoded_bind]. replace (Z.of_nat 8 <? Z.of_nat 8) with false by lia.
    cbn [andb]. rewrite Nat2Z.id. by apply be_bytes.
  - assert (Hp : 256 ^ Z.of_nat n < 2 ^ 64) by (change (2 ^ 64) with (256 ^ 8); apply Z.pow_lt_mono_r; lia).
    replace (Z.of_nat n <? Z.of_nat 8) with true by lia. rewrite pow_256, wrap_small by (lia || (unfold is_word; lia)).
    destruct (Z.ltb_spec v (2 ^ 64)); cbn [mbind decoded_bind andb].
    + rewrite Nat2Z.id, be_bytes by lia. destruct (Z.leb_spec (256 ^ Z.of_nat n) v), (Z.ltb_spec v (256 ^ Z.of_nat n)); (done || lia).
    + by destruct (Z.ltb_spec v (256 ^ Z.of_nat n)); [lia|].
Qed.

(** Blocks of bytes and of letters are in bijection. *)
Lemma block_bijection block enc n : is_bytes block -> is_bytes enc -> (1 <= n <= 8)%nat ->
  length block = n -> length enc = encoded_block_sizes !!! n ->
  encode_block block (replicate (encoded_block_sizes !!! n) (alphabet !!! 0%nat)) = Value enc <-> decode_block enc = Value block.
Proof.
  intros Hb He Hn Hl Hle. rewrite (decode_block_ok enc n) by done. subst n. rewrite encode_block_ok by done. destruct (block_size _ Hn) as (_ & _ & Hp). cbn zeta.
  pose proof (le_bound (reverse block) ltac:(by apply Forall_reverse)) as B. rewrite length_reverse in B. split.
  - intros [= <-]. rewrite value_digits by lia. destruct (digits_letters (encoded_block_sizes !!! length block) (le (reverse block))) as [L _].
    rewrite (proj2 (letters_all _) L). replace (_ <? _) with true by lia. cbn [andb]. f_equal. rewrite <- length_reverse, le_bytes_le, reverse_involutive; [done|].
    by apply Forall_reverse.
  - destruct (_ && _) eqn:E; [|done]. intros [= E']. apply andb_true_iff in E as [L%letters_all Hv].
    destruct (digits_value (reverse enc)) as [V D]; [by apply Forall_reverse|done|]. rewrite <- E', reverse_involutive, le_le_bytes, length_reverse, length_le_bytes.
    rewrite Z.mod_small by lia. rewrite reverse_involutive, length_reverse, Hle in D. by rewrite D.
Qed.

(** ** Strings of blocks *)

Lemma Value_inj {A} {x y : A} : Value x = Value y -> x = y.
Proof. congruence. Qed.

Lemma bind_Value {A B} (r : Decoded A) (f : A -> Decoded B) y : (x ← r; f x) = Value y <-> exists x, r = Value x /\ f x = Value y.
Proof. destruct r; cbn; split; [eauto|by intros (? & [= ->] & ?)|done|by intros (? & ? & _)|done|by intros (? & ? & _)]. Qed.

Lemma blocks_cons size count x s : length x = size -> blocks size (S count) (x ++ s) = x :: blocks size count s.
Proof.
  intros <-. unfold blocks. cbn [seq fmap list_fmap]. f_equal; [unfold slice; cbn; rewrite drop_0; apply take_app_length|].
  rewrite <- fmap_S_seq, <- list_fmap_compose. apply list_fmap_ext. intros _ i _. cbn. unfold slice. f_equal.
  rewrite <- drop_drop, drop_app_length. done.
Qed.

Lemma encode_full_cons q x f : length x = 8%nat -> encode_full (S q) (x ++ f) =
  (y ← encode_block x (replicate full_encoded_block_size (alphabet !!! 0%nat)); g ← encode_full q f; Value (y ++ g)).
Proof.
  intros Hx. unfold encode_full. rewrite blocks_cons by done. cbn [mapM]. destruct (encode_block x _); [|done..]. cbn [mbind decoded_bind].
  by destruct (mapM _ (blocks _ q f)).
Qed.

Lemma decode_full_cons q x f : length x = 11%nat -> decode_full (S q) (x ++ f) = (y ← decode_block x; g ← decode_full q f; Value (y ++ g)).
Proof.
  intros Hx. unfold decode_full. rewrite blocks_cons by done. cbn [mapM]. destruct (decode_block x); [|done..]. cbn [mbind decoded_bind].
  by destruct (mapM _ (blocks _ q f)).
Qed.

Lemma split_block a q (f : bytes) : is_bytes f -> length f = (a * S q)%nat -> exists x f', f = x ++ f' /\ length x = a /\ length f' = (a * q)%nat /\ is_bytes x /\ is_bytes f'.
Proof.
  intros Hb Hl. exists (take a f), (drop a f). rewrite take_drop, length_take, length_drop. split_and!; [done|lia|lia|by apply Forall_take|by apply Forall_drop].
Qed.

Lemma decode_block_length block n x : is_bytes block -> (1 <= n <= 8)%nat -> length block = encoded_block_sizes !!! n -> decode_block block = Value x ->
  length x = n /\ is_bytes x.
Proof.
  intros Hb Hn Hl. rewrite (decode_block_ok block n) by done. cbn zeta. destruct (_ && _); [|done]. intros [= <-].
  rewrite length_reverse, length_le_bytes. split; [done|]. apply Forall_reverse, le_bytes_is_bytes.
Qed.

Lemma full_bijection q f g : is_bytes f -> is_bytes g -> length f = (8 * q)%nat -> length g = (11 * q)%nat -> encode_full q f = Value g <-> decode_full q g = Value f.
Proof.
  revert f g. induction q as [|q IH]; intros f g Hf Hg Lf Lg.
  { destruct f; [|cbn in Lf; lia]. destruct g; [|cbn in Lg; lia]. done. }
  destruct (split_block 8 q f Hf Lf) as (x & f' & -> & Lx & Lf' & Bx & Bf'), (split_block 11 q g Hg Lg) as (y & g' & -> & Ly & Lg' & By & Bg').
  rewrite encode_full_cons, decode_full_cons by done. rewrite !bind_Value.
  pose proof (block_bijection x y 8 Bx By ltac:(lia) Lx Ly) as BB. change (encoded_block_sizes !!! 8%nat) with full_encoded_block_size in BB. split.
  - intros (y0 & E & (g0 & Eg & [= Eq])%bind_Value). assert (Ly0 : length y0 = 11%nat).
    { rewrite (Value_inj (eq_trans (eq_sym E) (encode_block_full x Bx Lx))). apply length_digits. }
    apply app_inj_1 in Eq as [-> ->]; [|lia]. exists x. split; [by apply BB|]. apply bind_Value. exists f'. split; [by apply IH|done].
  - intros (x0 & E & (f0 & Ef & [= Eq])%bind_Value). destruct (decode_block_length y 8 x0 By ltac:(lia) Ly E) as [Lx0 _].
    apply app_inj_1 in Eq as [-> ->]; [|lia]. exists y. split; [by apply BB|]. apply bind_Value. exists g'. split; [by apply IH|done].
Qed.

(** Every string of full blocks is encoded, in letters. *)
Lemma encode_full_ok q f : is_bytes f -> length f = (8 * q)%nat -> exists g, encode_full q f = Value g /\ is_bytes g /\ length g = (11 * q)%nat /\ Forall (fun c => letter c = true) g.
Proof.
  revert f. induction q as [|q IH]; intros f Hf Lf.
  { destruct f; [|cbn in Lf; lia]. exists []. repeat split; constructor. }
  destruct (split_block 8 q f Hf Lf) as (x & f' & -> & Lx & Lf' & Bx & Bf'). destruct (IH f' Bf' Lf') as (g & E & Hg & Lg & Ltr).
  rewrite encode_full_cons, encode_block_full, E by done. cbn [mbind decoded_bind].
  destruct (digits_letters full_encoded_block_size (le (reverse x))) as [D1 D2]. eexists. split; [done|]. rewrite length_app, length_digits.
  change full_encoded_block_size with 11%nat at 2. split_and!; [by apply Forall_app|lia|]. apply Forall_app. split; [|done].
  rewrite <- (reverse_involutive (digits _ _)). by apply Forall_reverse.
Qed.

Lemma decode_full_asserts q g : is_bytes g -> length g = (11 * q)%nat -> match decode_full q g with Value f => is_bytes f /\ length f = (8 * q)%nat | Rejected => True | Asserted => False end.
Proof.
  revert g. induction q as [|q IH]; intros g Hg Lg; [split; [constructor|done]|].
  destruct (split_block 11 q g Hg Lg) as (y & g' & -> & Ly & Lg' & By & Bg'). rewrite decode_full_cons by done. specialize (IH g' Bg' Lg').
  destruct (decode_block y) as [x| |] eqn:E; cbn [mbind decoded_bind]; [|done|].
  - destruct (decode_block_length y 8 x By ltac:(lia) Ly E) as [Lx Bx]. destruct (decode_full q g') as [f| |]; cbn [mbind decoded_bind]; [|done|done].
    destruct IH. split; [by apply Forall_app|]. rewrite length_app. lia.
  - rewrite (decode_block_ok y 8) in E by (done || lia). cbn zeta in E. by destruct (_ && _).
Qed.

Lemma encoded_sizes n : (n < 8)%nat -> (encoded_block_sizes !!! n < 11)%nat /\ (encoded_block_sizes !!! n = 0%nat <-> n = 0%nat) /\
  decoded_block_sizes (encoded_block_sizes !!! n) = Value (Z.of_nat n).
Proof. intros Hn. do 8 (destruct n as [|n]; [split_and!; vm_compute; (lia || reflexivity || (intros; discriminate) || (intros; reflexivity))|]). lia. Qed.

Lemma last_bijection t u : is_bytes t -> is_bytes u -> (length t < 8)%nat -> length u = encoded_block_sizes !!! length t ->
  encode_last t = Value u <-> decode_last u = Value t.
Proof.
  intros Bt Bu Ht Hu. destruct (encoded_sizes _ Ht) as (_ & He & _). unfold encode_last, decode_last.
  destruct (decide (length t = 0%nat)) as [E|E].
  - destruct t; [|done]. cbn in Hu. destruct u; [|done]. done.
  - replace (0 <? length t)%nat with true by lia. replace (0 <? length u)%nat with true by lia. by apply block_bijection; try lia.
Qed.

Lemma encode_last_ok t : is_bytes t -> (length t < 8)%nat ->
  exists u, encode_last t = Value u /\ is_bytes u /\ length u = encoded_block_sizes !!! length t /\ Forall (fun c => letter c = true) u.
Proof.
  intros Bt Ht. unfold encode_last. destruct (Nat.ltb_spec 0 (length t)).
  - rewrite encode_block_ok by (done || lia). destruct (digits_letters (encoded_block_sizes !!! length t) (le (reverse t))) as [D1 D2].
    eexists. split; [done|]. rewrite length_digits. split_and!; [done|done|]. rewrite <- (reverse_involutive (digits _ _)). by apply Forall_reverse.
  - exists []. assert (E : length t = 0%nat) by lia. rewrite E. split_and!; [done|constructor|done|constructor].
Qed.

Lemma decode_last_ok u n : is_bytes u -> (n < 8)%nat -> length u = encoded_block_sizes !!! n ->
  match decode_last u with Value t => is_bytes t /\ length t = n | Rejected => True | Asserted => False end.
Proof.
  intros Bu Hn Hu. destruct (encoded_sizes _ Hn) as (_ & He & _). unfold decode_last. destruct (Nat.ltb_spec 0 (length u)).
  - destruct (decode_block u) as [t| |] eqn:E; [|done|].
    + destruct (decode_block_length u n t Bu ltac:(lia) Hu E). done.
    + rewrite (decode_block_ok u n) in E by (done || lia). cbn zeta in E. by destruct (_ && _).
  - split; [constructor|]. cbn. lia.
Qed.

Lemma blocks_app size count (f t : bytes) : length f = (size * count)%nat -> blocks size count (f ++ t) = blocks size count f.
Proof.
  intros Hf. apply list_fmap_ext. intros i x Hx. apply lookup_seq in Hx as [-> Hi]. unfold slice.
  rewrite drop_app_le, take_app_le by (rewrite ?length_drop; nia). done.
Qed.

Lemma encode_split q (f t : bytes) : length f = (8 * q)%nat -> (length t < 8)%nat ->
  encode (f ++ t) = (full ← encode_full q f; last ← encode_last t; Value (full ++ last)).
Proof.
  intros Hf Ht. destruct (f ++ t) as [|c s] eqn:E.
  { apply app_nil in E as [-> ->]. destruct q; [|cbn in Hf; lia]. done. }
  unfold encode. rewrite <- E. clear E. change full_block_size with 8%nat. rewrite length_app, Hf.
  replace ((8 * q + length t) / 8)%nat with q by (rewrite Nat.mul_comm, Nat.div_add_l, Nat.div_small by lia; lia).
  replace ((8 * q + length t) mod 8)%nat with (length t) by (rewrite Nat.add_comm, Nat.mul_comm, Nat.Div0.mod_add, Nat.mod_small by lia; lia).
  replace (slice (q * 8) (length t) (f ++ t)) with t by (unfold slice; rewrite Nat.mul_comm, <- Hf, drop_app_length, take_ge by lia; done).
  unfold encode_full. by rewrite blocks_app by done.
Qed.

Lemma decode_split q n (g u : bytes) : length g = (11 * q)%nat -> (n < 8)%nat -> length u = encoded_block_sizes !!! n ->
  decode (g ++ u) = (full ← decode_full q g; last ← decode_last u; Value (full ++ last)).
Proof.
  intros Hg Hn Hu. destruct (encoded_sizes _ Hn) as (Hlt & _ & Hd). destruct (g ++ u) as [|c s] eqn:E.
  { apply app_nil in E as [-> ->]. destruct q; [|cbn in Hg; lia]. done. }
  unfold decode. rewrite <- E. clear E. change full_encoded_block_size with 11%nat. rewrite length_app, Hg.
  replace ((11 * q + length u) / 11)%nat with q by (rewrite Nat.mul_comm, Nat.div_add_l, Nat.div_small by lia; lia).
  replace ((11 * q + length u) mod 11)%nat with (length u) by (rewrite Nat.add_comm, Nat.mul_comm, Nat.Div0.mod_add, Nat.mod_small by lia; lia).
  rewrite Hu, Hd. cbn [mbind decoded_bind]. replace (Z.of_nat n <? 0) with false by lia. rewrite <- Hu.
  replace (slice (q * 11) (length u) (g ++ u)) with u by (unfold slice; rewrite Nat.mul_comm, <- Hg, drop_app_length, take_ge by lia; done).
  unfold decode_full. by rewrite blocks_app by done.
Qed.

(** A string whose length no string is encoded to is rejected; any other is cut in blocks. *)
Lemma decode_cut enc : is_bytes enc -> decode enc = Rejected \/ exists q n g u, enc = g ++ u /\ length g = (11 * q)%nat /\ (n < 8)%nat /\
  length u = encoded_block_sizes !!! n /\ is_bytes g /\ is_bytes u.
Proof.
  intros Hb. set (q := (length enc / 11)%nat). set (m := (length enc mod 11)%nat).
  assert (Hm : (m < 11)%nat) by (apply Nat.mod_upper_bound; lia). assert (Hl : length enc = (11 * q + m)%nat) by (apply Nat.div_mod_eq).
  destruct (decoded_size m _ ltac:(lia) eq_refl) as [E|[En E]].
  - left. destruct enc as [|c s]; [cbv in E; lia|]. unfold decode. change full_encoded_block_size with 11%nat. fold m.
    unfold decoded_block_sizes, massert. change full_encoded_block_size with 11%nat. replace (m <=? 11)%nat with true by lia. cbn [mbind decoded_bind]. by rewrite E.
  - right. set (n := Z.to_nat (decoded_data !!! m)) in *. exists q, n, (take (11 * q) enc), (drop (11 * q) enc).
    rewrite take_drop, length_take, length_drop, E. split_and!; [done|lia| |lia|by apply Forall_take|by apply Forall_drop].
    assert (n <> 8%nat) by (intros E8; rewrite E8 in E; change (encoded_block_sizes !!! 8%nat) with 11%nat in E; lia). lia.
Qed.

Lemma string_bijection data enc : is_bytes data -> is_bytes enc -> encode data = Value enc <-> decode enc = Value data.
Proof.
  intros Hd He. split.
  - set (q := (length data / 8)%nat). assert (Hr : (length data mod 8 < 8)%nat) by (apply Nat.mod_upper_bound; lia).
    pose proof (Nat.div_mod_eq (length data) 8) as Hl. fold q in Hl. rewrite <- (take_drop (8 * q) data).
    assert (Lf : length (take (8 * q) data) = (8 * q)%nat) by (rewrite length_take; lia).
    assert (Lt : (length (drop (8 * q) data) < 8)%nat) by (rewrite length_drop; lia).
    assert (Bf : is_bytes (take (8 * q) data)) by (by apply Forall_take). assert (Bt : is_bytes (drop (8 * q) data)) by (by apply Forall_drop).
    rewrite (encode_split q) by done. destruct (encode_full_ok q _ Bf Lf) as (g & Eg & Bg & Lg & _), (encode_last_ok _ Bt Lt) as (u & Eu & Bu & Lu & _).
    rewrite Eg, Eu. cbn [mbind decoded_bind]. intros [= <-]. rewrite (decode_split q _ g u Lg Lt Lu).
    rewrite (proj1 (full_bijection q _ g Bf Bg Lf Lg) Eg), (proj1 (last_bijection _ u Bt Bu Lt Lu) Eu). done.
  - destruct (decode_cut enc He) as [->|(q & n & g & u & -> & Lg & Hn & Lu & Bg & Bu)]; [done|]. rewrite (decode_split q n) by done.
    pose proof (decode_full_asserts q g Bg Lg) as F. pose proof (decode_last_ok u n Bu Hn Lu) as L.
    destruct (decode_full q g) as [f| |] eqn:Eg; [|done..]. destruct (decode_last u) as [t| |] eqn:Eu; [|done..]. cbn [mbind decoded_bind]. intros [= <-].
    destruct F as [Bf Lf], L as [Bt Lt]. rewrite <- Lt in Lu. rewrite (encode_split q) by (done || lia).
    rewrite (proj2 (full_bijection q f g Bf Bg Lf Lg) Eg), (proj2 (last_bijection t u Bt Bu ltac:(lia) Lu) Eu). done.
Qed.

(** Every string is encoded. *)
Lemma encode_total data : is_bytes data -> exists enc, encode data = Value enc /\ is_bytes enc /\ Forall (fun c => letter c = true) enc /\
  length enc = (11 * (length data / 8) + encoded_block_sizes !!! (length data mod 8))%nat.
Proof.
  intros Hd. set (q := (length data / 8)%nat). assert (Hr : (length data mod 8 < 8)%nat) by (apply Nat.mod_upper_bound; lia).
  pose proof (Nat.div_mod_eq (length data) 8) as Hl. fold q in Hl. replace (encode data) with (encode (take (8 * q) data ++ drop (8 * q) data)) by (by rewrite take_drop).
  assert (Lf : length (take (8 * q) data) = (8 * q)%nat) by (rewrite length_take; lia).
  assert (Lt : length (drop (8 * q) data) = (length data mod 8)%nat) by (rewrite length_drop; lia).
  assert (Bf : is_bytes (take (8 * q) data)) by (by apply Forall_take). assert (Bt : is_bytes (drop (8 * q) data)) by (by apply Forall_drop).
  rewrite (encode_split q) by lia. destruct (encode_full_ok q _ Bf Lf) as (g & -> & Bg & Lg & Ag), (encode_last_ok _ Bt ltac:(lia)) as (u & -> & Bu & Lu & Au).
  rewrite Lt in Lu. exists (g ++ u). split; [done|]. rewrite length_app. split_and!; [by apply Forall_app|by apply Forall_app|lia].
Qed.

(** No assertion of the decoder fails; what it returns are bytes. *)
Lemma decode_asserts enc : is_bytes enc -> match decode enc with Value data => is_bytes data | Rejected => True | Asserted => False end.
Proof.
  intros He. destruct (decode_cut enc He) as [->|(q & n & g & u & -> & Lg & Hn & Lu & Bg & Bu)]; [done|]. rewrite (decode_split q n) by done.
  pose proof (decode_full_asserts q g Bg Lg) as F. pose proof (decode_last_ok u n Bu Hn Lu) as L.
  destruct (decode_full q g) as [f| |]; [|done..]. destruct (decode_last u) as [t| |]; [|done..]. cbn [mbind decoded_bind]. apply Forall_app. tauto.
Qed.

(** C21: Base-58 strings and byte strings are in bijection.  [encode] of any
    bytes passes its assertions and writes only letters of the alphabet, in
    the length the block sizes say; [decode] of any string returns without a
    failed assertion; and a string decodes to some bytes exactly when those
    bytes encode to it, so no two strings stand for the same data. *)
Theorem base58_bijection data enc : is_bytes data -> is_bytes enc ->
  (exists e, encode data = Value e /\ decode e = Value data /\ Forall (.∈ alphabet) e /\
     length e = (11 * (length data / 8) + encoded_block_sizes !!! (length data mod 8))%nat) /\
  decode enc <> Asserted /\ (decode enc = Value data <-> encode data = Value enc).
Proof.
  intros Hd He. split_and!.
  - destruct (encode_total data Hd) as (e & E & Be & Le & Ll). exists e. split_and!; [done|by apply string_bijection| |done].
    apply list.Forall_forall. intros c Hc. unfold is_bytes in Be. rewrite list.Forall_forall in Be, Le. destruct (letter_digit c (Be c Hc) (Le c Hc)) as [D <-].
    apply list_elem_of_lookup_total_2. change (length alphabet) with 58%nat. lia.
  - pose proof (decode_asserts enc He) as A. by destruct (decode enc).
  - symmetry. by apply string_bijection.
Qed.

Lemma base58_bijection_witness :
  (exists e, encode [1; 2; 3] = Value e /\ decode e = Value [1; 2; 3] /\ Forall (.∈ alphabet) e /\ length e = 5%nat) /\
  decode [49; 48] <> Asserted /\ (decode [49; 48] = Value [1; 2; 3] <-> encode [1; 2; 3] = Value [49; 48]).
Proof. apply (base58_bijection [1; 2; 3] [49; 48]); by apply bytes_forallb. Defined.

(** ** Tags *)

Lemma fromVarint_write t : fromVarint t = writeVarint t.
Proof.
  unfold fromVarint, writeVarint. generalize (u64 t). generalize 9%nat. intros fuel. induction fuel as [|fuel IH]; intros v; [done|].
  cbn [fromVarint_loop writeVarint_loop]. destruct (0x80 <=? v); [|done]. rewrite IH. f_equal. rewrite !high_byte. f_equal.
  rewrite (proj1 (low_bits (u8 v) ltac:(apply wrap_word; lia))). unfold wrap. change (2 ^ 8) with (128 * 2). rewrite Z.rem_mul_r by lia.
  rewrite Z.mul_comm, Z.mod_add, !Z.mod_mod by lia. done.
Qed.

(** [toVarint] is the reader of varints, except at the end of the string: a
    varint cut short is accepted. *)
Lemma toVarint_loop_read s shift read i : 0 <= shift < 64 -> 0 <= i < 2 ^ shift -> is_bytes s -> 0 <= read -> shift mod 7 = 0 ->
  match toVarint_loop s shift read i, readVarint_loop uint64_t shift i s with
  | (n, x), Some (y, rest) => x = y /\ n = read + (Z.of_nat (length s) - Z.of_nat (length rest)) /\ (length rest < length s)%nat
  | (n, x), None => n < 0 \/ n = read + Z.of_nat (length s)
  end.
Proof.
  revert shift read i. induction s as [|b s IH]; intros shift read i Hs Hi Hb Hr Hm; [cbn; lia|]. apply Forall_cons_1 in Hb as [H8 Hb].
  cbn [toVarint_loop readVarint_loop]. cbn [bits to_type signed]. destruct (low_bits b H8) as [E1 E2]. rewrite E1, E2.
  replace (64 <=? shift + 7) with (64 - 7 <=? shift) by lia. destruct (_ && _) eqn:Eo; [lia|].
  pose proof (Z.mod_pos_bound b 128 ltac:(lia)) as M. assert (Hw : is_u64 i) by (split; [lia|]; eapply Z.lt_le_trans; [apply Hi|]; apply Z.pow_le_mono_r; lia).
  assert (Ei : to_type uint64_t (u64 i .| u64 ((b mod 128) .<< shift)) = i .| u64 ((b mod 128) .<< shift)).
  { unfold to_type. cbn [signed bits]. rewrite (wrap_small 64 i) by done. apply wrap_small. apply lor_word; [lia|done|]. apply wrap_word. lia. }
  change (to_type uint64_t (u64 i .| u64 ((b mod 128) .<< shift))) with (u64 (u64 i .| u64 ((b mod 128) .<< shift))) in Ei. rewrite Ei.
  assert (H8' : 0 <= b < 256) by exact H8. destruct (Z.ltb_spec b 128) as [Hl|Hl].
  - destruct ((b =? 0) && negb (shift =? 0)); cbn [length]; lia.
  - replace ((b =? 0) && negb (shift =? 0)) with false by lia.
    assert (Hlt : shift < 57).
    { destruct (Z.leb_spec (64 - 7) shift) as [G|]; [|lia]. cbn [andb] in Eo. rewrite Z.shiftl_mul_pow2, Z.mul_1_l in Eo by lia.
      assert (2 ^ (64 - shift) <= 2 ^ 7) by (apply Z.pow_le_mono_r; lia). lia. }
    rewrite (wrap_small 8) by (split; change (2 ^ 8) with 256; lia).
    assert (Hp : 2 ^ (shift + 7) = 2 ^ shift * 128) by (rewrite Z.pow_add_r by lia; done).
    assert (Hi' : 0 <= i .| u64 ((b mod 128) .<< shift) < 2 ^ (shift + 7)).
    { assert (2 ^ (shift + 7) <= 2 ^ 64) by (apply Z.pow_le_mono_r; lia). rewrite wrap_small by (rewrite Z.shiftl_mul_pow2 by lia; unfold is_word; nia).
      rewrite lor_shiftl_add by (lia || exact Hi). nia. }
    specialize (IH (shift + 7) (read + 1) (i .| u64 ((b mod 128) .<< shift)) ltac:(lia) Hi' Hb ltac:(lia) ltac:(Z.to_euclidean_division_equations; lia)).
    destruct (toVarint_loop s _ _ _) as [n x], (readVarint_loop _ _ _ s) as [[y rest]|]; cbn [length]; lia.
Qed.

Lemma toVarint_write tag data : is_u64 tag -> is_bytes data -> toVarint (fromVarint tag ++ data) = (Z.of_nat (length (fromVarint tag)), tag).
Proof.
  intros Ht Hd. rewrite fromVarint_write. pose proof (readVarint_write uint64_t tag data Ht) as R.
  assert (Bw : is_bytes (writeVarint tag ++ data)) by (apply Forall_app; split; [apply write_varint_bytes|done]).
  pose proof (toVarint_loop_read (writeVarint tag ++ data) 0 0 0 ltac:(lia) ltac:(lia) Bw ltac:(lia) eq_refl) as V. unfold toVarint.
  unfold readVarint in R. rewrite R in V. cbn [bits] in V. rewrite (wrap_small 64 tag) in V by done. unfold is_word in Ht.
  replace (tag <? 2 ^ 64) with true in V by lia. destruct (toVarint_loop _ _ _ _) as [n x]. rewrite length_app in V.
  destruct V as (-> & -> & _). f_equal. lia.
Qed.

(** What [toVarint] accepts: a varint and the rest, or a varint cut short. *)
Lemma toVarint_accepts s n tag : is_bytes s -> toVarint s = (n, tag) -> 0 < n ->
  (is_u64 tag /\ s = fromVarint tag ++ drop (Z.to_nat n) s) \/ drop (Z.to_nat n) s = [].
Proof.
  intros Hs E Hn. pose proof (toVarint_loop_read s 0 0 0 ltac:(lia) ltac:(lia) Hs ltac:(lia) eq_refl) as V. unfold toVarint in E. rewrite E in V.
  destruct (readVarint_loop uint64_t 0 0 s) as [[y rest]|] eqn:R.
  - left. destruct V as (-> & -> & Hl). destruct (read_loop_canonical uint64_t 0 0 s y rest 0 eq_refl ltac:(cbn; lia) ltac:(lia) Hs R) as (v & Hv & _ & -> & ->).
    rewrite Z.sub_0_r in Hv. cbn [bits] in Hv. rewrite Z.add_0_l, Z.mul_1_r. unfold to_type. cbn [signed bits]. rewrite (wrap_small 64 v) by done. split; [done|].
    rewrite fromVarint_write. unfold writeVarint. rewrite (wrap_small 64 v) by done. f_equal. rewrite length_app. symmetry.
    apply drop_app_length'. cbn. lia.
  - right. destruct V as [V|V]; [lia|]. apply drop_ge. lia.
Qed.

(** ** Addresses *)

Lemma fast_hash_ok buf : exists h, fast_hash_of buf = Value h /\ is_bytes_n 32 h.
Proof.
  unfold fast_hash_of. destruct (cn_fast_hash_squeeze buf) as (st & tail & _ & -> & Hl). eexists. split; [done|]. split; [|exact Hl].
  apply state_bytes_are_bytes.
Qed.

(** [encode_addr] as the encoding of a checked string. *)
Lemma encode_addr_eq tag data : exists h, fast_hash_of (fromVarint tag ++ data) = Value h /\ is_bytes_n 32 h /\
  encode_addr tag data = encode ((fromVarint tag ++ data) ++ take 4 h).
Proof.
  destruct (fast_hash_ok (fromVarint tag ++ data)) as (h & E & Hh). exists h. split_and!; [done|done|]. unfold encode_addr. rewrite E. done.
Qed.

Lemma tagged_bytes tag data : is_bytes data -> is_bytes (fromVarint tag ++ data).
Proof. intros Hd. apply Forall_app. split; [rewrite fromVarint_write; apply write_varint_bytes|done]. Qed.

Lemma fromVarint_nonempty tag : (0 < length (fromVarint tag))%nat.
Proof. rewrite fromVarint_write. pose proof (write_varint_nonempty tag). destruct (writeVarint tag); [done|cbn; lia]. Qed.

(** [decode_addr] on a decoded string that ends with its checksum. *)
Lemma decode_addr_checked addr buf h : decode addr = Value (buf ++ take 4 h) -> fast_hash_of buf = Value h -> is_bytes_n 32 h -> (0 < length buf)%nat ->
  decode_addr addr = let '(read, tag) := toVarint buf in if read <=? 0 then Rejected else Value (tag, drop (Z.to_nat read) buf).
Proof.
  intros E Eh [_ Hh] Hl. unfold decode_addr. rewrite E. cbn [mbind decoded_bind]. change addr_checksum_size with 4%nat.
  assert (L4 : length (take 4 h) = 4%nat) by (rewrite length_take; lia). rewrite length_app, L4.
  replace (length buf + 4 <=? 4)%nat with false by lia. replace (length buf + 4 - 4)%nat with (length buf) by lia.
  rewrite take_app_length, drop_app_length, Eh. cbn [mbind decoded_bind]. by rewrite bool_decide_true.
Qed.

(** What [decode_addr] accepts. *)
Lemma decode_addr_inv addr tag data : is_bytes addr -> decode_addr addr = Value (tag, data) -> exists buf h n,
  decode addr = Value (buf ++ take 4 h) /\ fast_hash_of buf = Value h /\ is_bytes buf /\ toVarint buf = (n, tag) /\ 0 < n /\ data = drop (Z.to_nat n) buf.
Proof.
  intros Ha. unfold decode_addr. pose proof (decode_asserts addr Ha) as B. destruct (decode addr) as [s| |]; [|done..]. cbn [mbind decoded_bind].
  change addr_checksum_size with 4%nat. destruct (Nat.leb_spec (length s) 4); [done|]. set (k := (length s - 4)%nat).
  destruct (fast_hash_ok (take k s)) as (h & Eh & _). rewrite Eh. cbn [mbind decoded_bind]. case_bool_decide as Ec; [|done]. cbn [negb].
  destruct (toVarint (take k s)) as [n t] eqn:Et. destruct (Z.leb_spec n 0); [done|]. intros [= <- <-].
  exists (take k s), h, n. rewrite Ec, take_drop. split_and!; [done|done|by apply Forall_take|done|done|done].
Qed.

Lemma address_facts tag data addr : is_u64 tag -> is_bytes data -> is_bytes addr ->
  (exists a, encode_addr tag data = Value a /\ decode_addr a = Value (tag, data)) /\ decode_addr addr <> Asserted /\
  (data <> [] -> decode_addr addr = Value (tag, data) <-> encode_addr tag data = Value addr).
Proof.
  intros Ht Hd Ha. pose proof (tagged_bytes tag data Hd) as Hb. pose proof (fromVarint_nonempty tag) as Hn.
  destruct (encode_addr_eq tag data) as (h & Eh & Hh & Ee).
  assert (Hc : is_bytes ((fromVarint tag ++ data) ++ take 4 h)) by (apply Forall_app; split; [done|apply Forall_take, Hh]).
  assert (R : forall a, is_bytes a -> encode_addr tag data = Value a -> decode_addr a = Value (tag, data)).
  { intros a Hba Ea. rewrite Ee in Ea. apply string_bijection in Ea; [|done|done].
    rewrite (decode_addr_checked a _ h Ea Eh Hh) by (rewrite length_app; lia). rewrite toVarint_write by done.
    replace (_ <=? 0) with false by lia. by rewrite Nat2Z.id, drop_app_length. }
  split_and!.
  - destruct (encode_total _ Hc) as (a & E & Hba & _). exists a. rewrite <- Ee in E. split; [done|by apply R].
  - unfold decode_addr. pose proof (decode_asserts addr Ha) as B. destruct (decode addr) as [s| |]; [|done..]. cbn [mbind decoded_bind].
    destruct (_ <=? _)%nat; [done|]. destruct (fast_hash_ok (take (length s - addr_checksum_size) s)) as (h' & -> & _). cbn [mbind decoded_bind].
    destruct (negb _); [done|]. destruct (toVarint _) as [n t]. by destruct (n <=? 0).
  - intros Hne. split; [|by apply R]. intros E. destruct (decode_addr_inv addr tag data Ha E) as (buf & h' & n & Ed & Eh' & Hbuf & Et & Hpos & Edata).
    destruct (toVarint_accepts buf n tag Hbuf Et Hpos) as [[_ Eb]|Ez]; [|congruence]. rewrite <- Edata in Eb. subst buf.
    rewrite Eh in Eh'. injection Eh' as <-. rewrite Ee. by apply string_bijection.
Qed.

(** An address decodes to the tag and the data it was made of.
    [encode_addr] succeeds on every tag and data; [decode_addr] of its result
    gives both back; [decode_addr] never fails an assertion; and an address it
    accepts with some data after the tag is the one [encode_addr] makes, so
    the base-58 digits, the checksum and the tag are all canonical.  (Without
    data the tag may be a varint cut short, which [toVarint] accepts.) *)
Theorem address_roundtrip tag data addr : is_u64 tag -> is_bytes data -> is_bytes addr ->
  (exists a, encode_addr tag data = Value a /\ decode_addr a = Value (tag, data)) /\ decode_addr addr <> Asserted /\
  (data <> [] -> decode_addr addr = Value (tag, data) <-> encode_addr tag data = Value addr).
Proof. apply address_facts. Qed.

Lemma address_roundtrip_witness :
  (exists a, encode_addr 18 [1; 2; 3; 4] = Value a /\ decode_addr a = Value (18, [1; 2; 3; 4])) /\ decode_addr [65; 66] <> Asserted /\
  ([1; 2; 3; 4] <> [] -> decode_addr [65; 66] = Value (18, [1; 2; 3; 4]) <-> encode_addr 18 [1; 2; 3; 4] = Value [65; 66]).
Proof. apply (address_roundtrip 18 [1; 2; 3; 4] [65; 66]); [by vm_compute|by apply bytes_forallb..]. Defined.
