(* ===== verification/Hex.v ===== *)
(** * Hexadecimal text: src/src/common/hex.cpp, hex.h

    Text and data are lists of bytes.  The functions that return [bool] and
    write through a pointer or a reference return both, with what they have
    written when they fail; the one that throws returns an option. *)

From S2P Require Import Prelude.

(** "0123456789abcdef" *)
Definition radix : bytes := [48; 49; 50; 51; 52; 53; 54; 55; 56; 57; 97; 98; 99; 100; 101; 102].

(** The characters are signed. *)
Definition within (c start stop : Z) : bool := (start <=? i8 c) && (i8 c <=? stop).

(** '0'-'9', 'a'-'f', 'A'-'F' *)
Definition ranges : list (Z * Z * Z) := [(48, 57, 0); (97, 102, 10); (65, 70, 10)].
Fixpoint convert_loop (range : list (Z * Z * Z)) (c : Z) : Z :=
  match range with
  | [] => u8 (-1)
  | (start, stop, base) :: range => if within c start stop then u8 (i8 c - start + base) else convert_loop range c
  end.
Definition convert (c : Z) : Z := convert_loop ranges c.

(** [uint8_t from(char)], which throws. *)
Definition from_char (c : Z) : option Z := let v := convert c in if negb (v =? 0xFF) then Some v else None.
(** [bool from(char, uint8_t &)]: [None] is [false]. *)
Definition try_char (c : Z) : option Z := let v := convert c in if v =? 0xFF then None else Some v.

(** The loop of [from] into a buffer, from position [i] on. *)
Fixpoint from_loop (i : nat) (text : bytes) (data : bytes) : bool * bytes :=
  match text with
  | c1 :: c2 :: text =>
      match try_char c1, try_char c2 with
      | Some value1, Some value2 => from_loop (S i) text (<[i := u8 (value1 .<< 4 .| value2)]> data)
      | _, _ => (false, data)
      end
  | _ => (true, data)
  end.
(** [bool from(text, void *data, size_t bufferSize)] *)
Definition from_buffer (text : bytes) (data : bytes) : bool * bytes :=
  if negb (Z.of_nat (length text) .& 1 =? 0) then (false, data)
  else
    let size := Z.of_nat (length text) .>> 1 in
    if Z.of_nat (length data) <? size then (false, data) else from_loop 0 text data.

Fixpoint from_chars (text : bytes) : option bytes :=
  match text with
  | c1 :: c2 :: text => a ← from_char c1; b ← from_char c2; data ← from_chars text; Some (u8 (a .<< 4 .| b) :: data)
  | _ => Some []
  end.
(** [binary_array_t from(text)] *)
Definition from_text (text : bytes) : option bytes := if negb (Z.of_nat (length text) .& 1 =? 0) then None else from_chars text.

Fixpoint append_loop (text : bytes) (data : bytes) : bool * bytes :=
  match text with
  | c1 :: c2 :: text =>
      match try_char c1, try_char c2 with
      | Some value1, Some value2 => append_loop text (data ++ [u8 (value1 .<< 4 .| value2)])
      | _, _ => (false, data)
      end
  | _ => (true, data)
  end.
(** [bool from(text, binary_array_t &data)], which appends. *)
Definition append_from (text : bytes) (data : bytes) : bool * bytes :=
  if negb (Z.of_nat (length text) .& 1 =? 0) then (false, data) else append_loop text data.

(** [to] appends. *)
Fixpoint append_to (data : bytes) (text : bytes) : bytes :=
  match data with
  | [] => text
  | b :: data => append_to data (text ++ [radix !!! Z.to_nat (b .>> 4)] ++ [radix !!! Z.to_nat (b .& 0xF)])
  end.
Definition to_text (data : bytes) : bytes := append_to data [].

(** [podFrom] on a value of the given bytes, and [podTo]. *)
Definition podFrom (text : bytes) (val : bytes) : bool * bytes :=
  let '(r, val') := from_buffer text val in
  (r && (Z.of_nat (length text) .>> 1 =? Z.of_nat (length val)), val').
Definition podTo (s : bytes) : bytes := to_text s.

(** ** Digits *)

(** The letter in lower case. *)
Definition lower (c : Z) : Z := if (65 <=? c) && (c <=? 70) then c + 32 else c.

Lemma convert_radix n : 0 <= n < 16 -> try_char (radix !!! Z.to_nat n) = Some n.
Proof.
  intros H. assert (E : forallb (fun i => bool_decide (try_char (radix !!! i) = Some (Z.of_nat i))) (seq 0 16) = true) by (vm_compute; reflexivity).
  rewrite forallb_forall in E. specialize (E (Z.to_nat n) ltac:(apply in_seq; lia)). apply bool_decide_eq_true_1 in E. by rewrite Z2Nat.id in E by lia.
Qed.

Lemma convert_digit c n : is_u8 c -> try_char c = Some n -> 0 <= n < 16 /\ radix !!! Z.to_nat n = lower c.
Proof.
  intros Hc E. enough (H : match try_char c with Some n => (0 <=? n) && (n <? 16) && (radix !!! Z.to_nat n =? lower c) | None => true end = true) by (rewrite E in H; lia).
  clear E n. revert c Hc. refine (byte_all _ _). vm_compute. reflexivity.
Qed.

Lemma from_char_try c : from_char c = try_char c.
Proof. unfold from_char, try_char. by destruct (convert c =? 0xFF). Qed.

Lemma nibbles b : is_u8 b -> 0 <= b .>> 4 < 16 /\ 0 <= b .& 0xF < 16 /\ u8 ((b .>> 4) .<< 4 .| (b .& 0xF)) = b.
Proof.
  intros Hb. enough (H : ((0 <=? b .>> 4) && (b .>> 4 <? 16) && (0 <=? b .& 0xF) && (b .& 0xF <? 16) && (u8 ((b .>> 4) .<< 4 .| (b .& 0xF)) =? b)) = true) by lia.
  revert b Hb. refine (byte_all _ _). vm_compute. reflexivity.
Qed.

Lemma join_nibbles a b : 0 <= a < 16 -> 0 <= b < 16 -> let v := u8 (a .<< 4 .| b) in is_u8 v /\ v .>> 4 = a /\ v .& 0xF = b.
Proof.
  intros Ha Hb v. unfold v. rewrite Z.lor_comm, lor_shiftl_add by (lia || (unfold is_word; lia)). change (2 ^ 4) with 16.
  assert (Hw : is_u8 (b + a * 16)) by (unfold is_word; change (2 ^ 8) with 256; lia). rewrite wrap_small by done. split; [done|].
  rewrite Z.shiftr_div_pow2 by lia. change 0xF with (2 ^ 4 - 1). rewrite land_mask by lia. change (2 ^ 4) with 16.
  rewrite Z.div_add, Z.div_small, Z.mod_add, Z.mod_small by lia. done.
Qed.

(** ** Text *)

Definition digits_of (b : Z) : bytes := [radix !!! Z.to_nat (b .>> 4); radix !!! Z.to_nat (b .& 0xF)].

Lemma append_to_app data text : append_to data text = text ++ mjoin (digits_of <$> data).
Proof.
  revert text. induction data as [|b data IH]; intros text; cbn [append_to fmap list_fmap]; [by rewrite app_nil_r|].
  rewrite IH, mjoin_cons, <- app_assoc. done.
Qed.

Lemma to_text_cons b data : to_text (b :: data) = digits_of b ++ to_text data.
Proof. unfold to_text. by rewrite !append_to_app. Qed.

Lemma length_to_text data : length (to_text data) = (2 * length data)%nat.
Proof. induction data as [|b data IH]; [done|]. rewrite to_text_cons, length_app, IH. cbn. lia. Qed.

Lemma from_chars_to data : is_bytes data -> from_chars (to_text data) = Some data.
Proof.
  induction 1 as [|b data Hb Hd IH]; [done|]. rewrite to_text_cons. unfold digits_of. cbn [app from_chars]. rewrite !from_char_try.
  destruct (nibbles b Hb) as (H1 & H2 & H3). rewrite !convert_radix, IH by done. cbn. by rewrite H3.
Qed.

(** Even text of [2 k] characters. *)
Lemma even_size k : (Z.of_nat (2 * k) .& 1 =? 0) = true /\ Z.of_nat (2 * k) .>> 1 = Z.of_nat k.
Proof.
  rewrite Z.shiftr_div_pow2 by lia. change 1 with (2 ^ 1 - 1) at 1. rewrite land_mask by lia. change (2 ^ 1) with 2.
  rewrite Nat2Z.inj_mul, Z.mul_comm, Z.mod_mul, Z.div_mul by lia. done.
Qed.

Lemma odd_size n : (Z.of_nat n .& 1 =? 0) = true -> exists k, n = (2 * k)%nat.
Proof.
  change 1 with (2 ^ 1 - 1). rewrite land_mask by lia. change (2 ^ 1) with 2. intros E. exists (n / 2)%nat. apply Z.eqb_eq in E.
  apply Nat2Z.inj. rewrite Nat2Z.inj_mul, Nat2Z.inj_div. pose proof (Z.div_mod (Z.of_nat n) 2). lia.
Qed.

Lemma from_chars_inv k text data : is_bytes text -> length text = (2 * k)%nat -> from_chars text = Some data ->
  is_bytes data /\ length data = k /\ to_text data = lower <$> text.
Proof.
  revert text data. induction k as [|k IH]; intros text data Hb Hl E.
  - destruct text; [|done]. injection E as <-. split_and!; [constructor|done|done].
  - destruct text as [|c1 [|c2 text]]; [cbn in Hl; lia..|]. cbn [from_chars] in E. rewrite !from_char_try in E.
    apply Forall_cons_1 in Hb as [H1 Hb]. apply Forall_cons_1 in Hb as [H2 Hb].
    destruct (try_char c1) as [a|] eqn:E1; [|done]. destruct (try_char c2) as [b|] eqn:E2; [|done]. cbn [mbind option_bind] in E.
    destruct (from_chars text) as [d|] eqn:E3; [|done]. cbn in E. injection E as <-.
    destruct (IH text d Hb ltac:(cbn in Hl; lia) E3) as (B & L & T). destruct (convert_digit c1 a H1 E1) as [A1 A2], (convert_digit c2 b H2 E2) as [B1 B2].
    destruct (join_nibbles a b A1 B1) as (J1 & J2 & J3). split_and!; [by constructor|cbn; lia|]. rewrite to_text_cons, T. unfold digits_of.
    cbn zeta in *. by rewrite J2, J3, A2, B2.
Qed.

Lemma from_loop_eq k text data i : is_bytes text -> length text = (2 * k)%nat -> (i + k <= length data)%nat ->
  match from_chars text with
  | Some d => from_loop i text data = (true, take i data ++ d ++ drop (i + k) data)
  | None => (from_loop i text data).1 = false
  end.
Proof.
  revert text data i. induction k as [|k IH]; intros text data i Hb Hl Hi.
  - destruct text; [|done]. cbn. by rewrite Nat.add_0_r, take_drop.
  - destruct text as [|c1 [|c2 text]]; [cbn in Hl; lia..|]. apply Forall_cons_1 in Hb as [H1 Hb]. apply Forall_cons_1 in Hb as [H2 Hb].
    cbn [from_chars from_loop]. rewrite !from_char_try.
    destruct (try_char c1) as [a|] eqn:E1; [|done]. destruct (try_char c2) as [b|] eqn:E2; [|done].
    cbn [mbind option_bind]. specialize (IH text (<[i:=u8 (a .<< 4 .| b)]> data) (S i) Hb ltac:(cbn in Hl; lia) ltac:(rewrite length_insert; lia)).
    destruct (from_chars text) as [d|]; [|done]. cbn. rewrite IH. f_equal.
    rewrite (take_S_r _ i (u8 (a .<< 4 .| b))) by (apply list_lookup_insert_eq; lia). rewrite take_insert_ge, <- app_assoc by lia. cbn [app].
    rewrite drop_insert_lt by lia. by replace (S i + k)%nat with (i + S k)%nat by lia.
Qed.

Lemma append_loop_eq k text data : is_bytes text -> length text = (2 * k)%nat ->
  match from_chars text with Some d => append_loop text data = (true, data ++ d) | None => (append_loop text data).1 = false end.
Proof.
  revert text data. induction k as [|k IH]; intros text data Hb Hl.
  - destruct text; [|done]. cbn. by rewrite app_nil_r.
  - destruct text as [|c1 [|c2 text]]; [cbn in Hl; lia..|]. apply Forall_cons_1 in Hb as [H1 Hb]. apply Forall_cons_1 in Hb as [H2 Hb].
    cbn [from_chars append_loop]. rewrite !from_char_try. destruct (try_char c1) as [a|]; [|done]. destruct (try_char c2) as [b|]; [|done].
    cbn [mbind option_bind]. specialize (IH text (data ++ [u8 (a .<< 4 .| b)]) Hb ltac:(cbn in Hl; lia)).
    destruct (from_chars text) as [d|]; [|done]. cbn. by rewrite IH, <- app_assoc.
Qed.

(** A value of fixed size is read back from its text, whatever it held. *)
Lemma pod_roundtrip s val : is_bytes s -> length val = length s -> podFrom (podTo s) val = (true, s).
Proof.
  intros Hs Hl. unfold podFrom, podTo, from_buffer. rewrite length_to_text. destruct (even_size (length s)) as [-> ->]. cbn [negb].
  replace (Z.of_nat (length val) <? Z.of_nat (length s)) with false by lia. pose proof (from_chars_to s Hs) as E.
  assert (Hb : is_bytes (to_text s)).
  { clear. induction s as [|b s IH]; [constructor|]. rewrite to_text_cons. apply Forall_app. split; [|done].
    assert (R : forall i, is_u8 (radix !!! i)) by (intros i; do 16 (destruct i as [|i]; [by vm_compute|]); by vm_compute).
    constructor; [apply R|]. constructor; [apply R|constructor]. }
  pose proof (from_loop_eq (length s) (to_text s) val 0 Hb (length_to_text s) ltac:(lia)) as L. rewrite E in L. rewrite L.
  rewrite Hl. cbn [andb]. rewrite Z.eqb_refl. cbn [andb take app]. rewrite drop_ge by lia. cbn. by rewrite app_nil_r.
Qed.

(** Only the text of a value, in either case, is read as a value. *)
Lemma pod_canonical text val s : is_bytes text -> podFrom text val = (true, s) -> is_bytes_n (length val) s /\ podTo s = lower <$> text.
Proof.
  intros Ht. unfold podFrom, podTo, from_buffer. destruct (Z.of_nat (length text) .& 1 =? 0) eqn:Eo; [|done]. destruct (odd_size _ Eo) as (k & Hk).
  cbn [negb]. rewrite Hk. destruct (even_size k) as [_ ->]. destruct (Z.ltb_spec (Z.of_nat (length val)) (Z.of_nat k)); [done|].
  pose proof (from_loop_eq k text val 0 Ht Hk ltac:(lia)) as L. destruct (from_chars text) as [d|] eqn:E; [|by destruct (from_loop 0 text val) as [[] ?]].
  rewrite L. cbn [andb]. destruct (Z.eqb_spec (Z.of_nat k) (Z.of_nat (length val))) as [Ek|]; [|done]. intros [= <-].
  destruct (from_chars_inv k text d Ht Hk E) as (B & Ld & T). cbn. rewrite drop_ge, app_nil_r by lia. split; [|done]. split; [done|lia].
Qed.
