(* ===== verification/TxExtra.v ===== *)
(** * The extra field of transactions: cryptonote/core/transaction/TransactionExtra.cpp, .h

    The field is a string of padding, public keys and nonces, read with a
    [Reader] until its end.  [parseTransactionExtra] returns its result and
    the fields it has found, which are used even when it fails. *)

From S2P Require Import Prelude Stream Hex.

Definition TX_EXTRA_PADDING_MAX_COUNT : Z := 255.
Definition TX_EXTRA_NONCE_MAX_COUNT : Z := 255.
Definition TX_EXTRA_TAG_PADDING : Z := 0.
Definition TX_EXTRA_TAG_PUBKEY : Z := 1.
Definition TX_EXTRA_NONCE : Z := 2.
Definition TX_EXTRA_NONCE_PAYMENT_ID : Z := 0.

Inductive transaction_extra_t :=
  | transaction_extra_padding_t (size : Z)
  | transaction_extra_public_key_t (publicKey : bytes)
  | transaction_extra_nonce_t (nonce : bytes).

(** ** Parsing *)

(** The loop over padding; [None] is the byte that is not zero. *)
Fixpoint padding_loop (iss : bytes) (size : Z) : option (Z * bytes) :=
  match iss with
  | [] => Some (size, [])
  | pad :: iss' => if size <=? TX_EXTRA_PADDING_MAX_COUNT then if negb (pad =? 0) then None else padding_loop iss' (size + 1) else Some (size, iss)
  end.

(** The field of a known tag: [None] is an error, [Some None] an unknown tag. *)
Definition parse_field (tag : Z) (iss : bytes) : option (option transaction_extra_t * bytes) :=
  if tag =? TX_EXTRA_TAG_PADDING then
    '(size, iss) ← padding_loop iss 1;
    if TX_EXTRA_PADDING_MAX_COUNT <? size then None else Some (Some (transaction_extra_padding_t size), iss)
  else if tag =? TX_EXTRA_TAG_PUBKEY then
    '(publicKey, iss) ← read_pod 32 iss;
    Some (Some (transaction_extra_public_key_t publicKey), iss)
  else if tag =? TX_EXTRA_NONCE then
    '(s, iss) ← read 1 iss;
    let size := s !!! 0%nat in
    if 0 <? size then '(nonce, iss) ← read (Z.to_nat size) iss; Some (Some (transaction_extra_nonce_t nonce), iss)
    else Some (Some (transaction_extra_nonce_t []), iss)
  else Some (None, iss).

(** The loop to the end of the stream: every turn takes a byte at least. *)
Fixpoint parse_loop (fuel : nat) (iss : bytes) (fields : list transaction_extra_t) : bool * list transaction_extra_t :=
  match fuel, iss with
  | _, [] => (true, fields)
  | O, _ => (false, fields)
  | S fuel, tag :: iss =>
      match parse_field tag iss with
      | None => (false, fields)
      | Some (Some f, iss) => parse_loop fuel iss (fields ++ [f])
      | Some (None, iss) => parse_loop fuel iss fields
      end
  end.

Definition parseTransactionExtra (transactionExtra : bytes) : bool * list transaction_extra_t :=
  match transactionExtra with
  | [] => (true, [])
  | _ => parse_loop (length transactionExtra) transactionExtra []
  end.

(** ** Writing *)

Definition addTransactionPublicKeyToExtra (tx_extra tx_pub_key : bytes) : bytes := tx_extra ++ [TX_EXTRA_TAG_PUBKEY] ++ tx_pub_key.

(** [None] is [false], with the extra field as it was. *)
Definition addExtraNonceToTransactionExtra (tx_extra extra_nonce : bytes) : option bytes :=
  if TX_EXTRA_NONCE_MAX_COUNT <? Z.of_nat (length extra_nonce) then None
  else Some (tx_extra ++ [TX_EXTRA_NONCE] ++ [u8 (Z.of_nat (length extra_nonce))] ++ extra_nonce).

(** [ExtraSerializerVisitor] *)
Definition visit (extra : bytes) (t : transaction_extra_t) : option bytes :=
  match t with
  | transaction_extra_padding_t size => if TX_EXTRA_PADDING_MAX_COUNT <? size then None else Some (extra ++ replicate (Z.to_nat size) 0)
  | transaction_extra_public_key_t publicKey => Some (addTransactionPublicKeyToExtra extra publicKey)
  | transaction_extra_nonce_t nonce => addExtraNonceToTransactionExtra extra nonce
  end.

Fixpoint writeTransactionExtra (tx_extra : bytes) (tx_extra_fields : list transaction_extra_t) : option bytes :=
  match tx_extra_fields with
  | [] => Some tx_extra
  | t :: fields => tx_extra ← visit tx_extra t; writeTransactionExtra tx_extra fields
  end.

(** ** Fields *)

(** [findTransactionExtraFieldByType] at the two types it is used with. *)
Fixpoint findPublicKey (fields : list transaction_extra_t) : option bytes :=
  match fields with
  | [] => None
  | transaction_extra_public_key_t publicKey :: _ => Some publicKey
  | _ :: fields => findPublicKey fields
  end.
Fixpoint findNonce (fields : list transaction_extra_t) : option bytes :=
  match fields with
  | [] => None
  | transaction_extra_nonce_t nonce :: _ => Some nonce
  | _ :: fields => findNonce fields
  end.

Definition getTransactionPublicKeyFromExtra (tx_extra : bytes) : bytes :=
  match findPublicKey (parseTransactionExtra tx_extra).2 with Some publicKey => publicKey | None => replicate 32 0 end.

Definition setPaymentIdToTransactionExtraNonce (payment_id : bytes) : bytes := TX_EXTRA_NONCE_PAYMENT_ID :: payment_id.

Definition getPaymentIdFromTransactionExtraNonce (extra_nonce : bytes) : option bytes :=
  if negb (length extra_nonce =? 32 + 1)%nat then None
  else if negb (TX_EXTRA_NONCE_PAYMENT_ID =? extra_nonce !!! 0%nat) then None
  else Some (take 32 (drop 1 extra_nonce)).

(** [hash_t paymentId] starts with any bytes. *)
Definition parsePaymentId (paymentIdString paymentId : bytes) : bool * bytes := podFrom paymentIdString paymentId.

Definition createTxExtraWithPaymentId (paymentIdString extra uninit : bytes) : option bytes :=
  let '(r, paymentIdBin) := parsePaymentId paymentIdString uninit in
  if negb r then None
  else addExtraNonceToTransactionExtra extra (setPaymentIdToTransactionExtraNonce paymentIdBin).

Definition getPaymentIdFromTxExtra (extra : bytes) : option bytes :=
  let '(r, fields) := parseTransactionExtra extra in
  if negb r then None
  else match findNonce fields with Some extra_nonce => getPaymentIdFromTransactionExtraNonce extra_nonce | None => None end.

(** ** Turns of the loop *)

Lemma parse_acc fuel iss fields : parse_loop fuel iss fields = let '(r, l) := parse_loop fuel iss [] in (r, fields ++ l).
Proof.
  revert iss fields. induction fuel as [|fuel IH]; intros [|tag iss] fields; cbn [parse_loop]; rewrite ?app_nil_r; try done.
  destruct (parse_field tag iss) as [[[f|] iss']|]; [|apply IH|by rewrite app_nil_r]. rewrite IH, (IH iss' ([] ++ [f])).
  destruct (parse_loop fuel iss' []). cbn. by rewrite <- app_assoc.
Qed.

Lemma padding_shorter iss size k iss' : padding_loop iss size = Some (k, iss') -> (length iss' <= length iss)%nat.
Proof.
  revert size. induction iss as [|p iss IH]; intros size; cbn [padding_loop]; [by intros [= <- <-]|].
  destruct (size <=? _); [|by intros [= <- <-]]. destruct (negb _); [done|]. intros H%IH. cbn. lia.
Qed.

Lemma read_shorter n s x s' : read n s = Some (x, s') -> (length s' <= length s)%nat.
Proof. unfold read. destruct (_ <=? _)%nat; [|done]. intros [= <- <-]. rewrite length_drop. lia. Qed.

Lemma field_shorter tag iss f iss' : parse_field tag iss = Some (f, iss') -> (length iss' <= length iss)%nat.
Proof.
  unfold parse_field, read_pod. destruct (tag =? _).
  { destruct (padding_loop iss 1) as [[k r]|] eqn:E; [|done]. cbn. destruct (_ <? _); [done|]. intros [= _ <-]. by eapply padding_shorter. }
  destruct (tag =? _). { destruct (read 32 iss) as [[k r]|] eqn:E; [|done]. cbn. intros [= _ <-]. by eapply read_shorter. }
  destruct (tag =? _); [|by intros [= _ <-]]. destruct (read 1 iss) as [[s r]|] eqn:E; [|done]. cbn. apply read_shorter in E. destruct (0 <? _).
  - destruct (read _ r) as [[k r']|] eqn:E'; [|done]. cbn. intros [= _ <-]. apply read_shorter in E'. lia.
  - by intros [= _ <-].
Qed.

(** The length of the string is enough fuel. *)
Lemma parse_fuel fuel iss fields : (length iss <= fuel)%nat -> parse_loop fuel iss fields = parse_loop (length iss) iss fields.
Proof.
  revert iss fields. induction (lt_wf fuel) as [fuel _ IH]. intros iss fields Hl. destruct iss as [|tag iss]; [by destruct fuel|].
  destruct fuel as [|fuel]; [cbn in Hl; lia|]. cbn [length parse_loop] in *. destruct (parse_field tag iss) as [[f iss']|] eqn:E; [|done].
  apply field_shorter in E. destruct f as [f|].
  all: rewrite (IH fuel), (IH (length iss)) by lia; done.
Qed.

Lemma parse_cons tag iss fields : parse_loop (length (tag :: iss)) (tag :: iss) fields =
  match parse_field tag iss with
  | None => (false, fields)
  | Some (Some f, iss) => parse_loop (length iss) iss (fields ++ [f])
  | Some (None, iss) => parse_loop (length iss) iss fields
  end.
Proof.
  cbn [length parse_loop]. destruct (parse_field tag iss) as [[f iss']|] eqn:E; [|done]. apply field_shorter in E. destruct f; by rewrite parse_fuel.
Qed.

Lemma parseTransactionExtra_loop extra : parseTransactionExtra extra = parse_loop (length extra) extra [].
Proof. by destruct extra. Qed.

(** ** Round trip *)

(** The fields that can be written and read: padding is read to the end. *)
Definition valid_field (f : transaction_extra_t) : Prop :=
  match f with
  | transaction_extra_padding_t size => 1 <= size <= 255
  | transaction_extra_public_key_t k => is_b32 k
  | transaction_extra_nonce_t nonce => is_bytes nonce /\ (length nonce <= 255)%nat
  end.
Definition is_padding (f : transaction_extra_t) : bool := match f with transaction_extra_padding_t _ => true | _ => false end.

Definition field_bytes (f : transaction_extra_t) : bytes :=
  match f with
  | transaction_extra_padding_t size => replicate (Z.to_nat size) 0
  | transaction_extra_public_key_t k => TX_EXTRA_TAG_PUBKEY :: k
  | transaction_extra_nonce_t nonce => TX_EXTRA_NONCE :: Z.of_nat (length nonce) :: nonce
  end.

Lemma visit_bytes extra f : valid_field f -> visit extra f = Some (extra ++ field_bytes f).
Proof.
  destruct f as [size|k|nonce]; intros H; cbn in H |- *.
  - unfold TX_EXTRA_PADDING_MAX_COUNT. by destruct (Z.ltb_spec 255 size); [lia|].
  - done.
  - unfold addExtraNonceToTransactionExtra, TX_EXTRA_NONCE_MAX_COUNT. destruct (Z.ltb_spec 255 (Z.of_nat (length nonce))); [lia|].
    rewrite wrap_small by (split; [lia|change (2 ^ 8) with 256; lia]). done.
Qed.

Lemma write_bytes extra fields : Forall valid_field fields -> writeTransactionExtra extra fields = Some (extra ++ mjoin (field_bytes <$> fields)).
Proof.
  intros H. revert extra. induction H as [|f fields Hf Hs IH]; intros extra; cbn [writeTransactionExtra]; [by rewrite app_nil_r|].
  rewrite visit_bytes by done. cbn. rewrite IH, <- app_assoc. done.
Qed.

Lemma padding_zeros n size : 0 <= size -> size + Z.of_nat n <= 256 -> padding_loop (replicate n 0) size = Some (size + Z.of_nat n, []).
Proof.
  revert size. induction n as [|n IH]; intros size H0 Hs; cbn [replicate padding_loop]; [by rewrite Z.add_0_r|].
  unfold TX_EXTRA_PADDING_MAX_COUNT. destruct (Z.leb_spec size 255); [|lia]. cbn. rewrite IH by lia. do 2 f_equal. lia.
Qed.

Lemma parse_known f rest : valid_field f -> is_padding f = false -> exists tag iss, field_bytes f ++ rest = tag :: iss /\ parse_field tag iss = Some (Some f, rest).
Proof.
  destruct f as [size|k|nonce]; intros H Hp; cbn in H |- *; [done| |].
  - exists 1, (k ++ rest). split; [done|]. unfold parse_field, read_pod. cbn. by rewrite read_app by apply H.
  - exists 2, (Z.of_nat (length nonce) :: nonce ++ rest). split; [done|]. unfold parse_field. change (2 =? TX_EXTRA_TAG_PADDING) with false. change (2 =? TX_EXTRA_TAG_PUBKEY) with false. change (2 =? TX_EXTRA_NONCE) with true. cbn iota.
    change (Z.of_nat (length nonce) :: nonce ++ rest) with ([Z.of_nat (length nonce)] ++ nonce ++ rest). rewrite (read_app 1 [Z.of_nat (length nonce)]) by reflexivity. cbn [mbind option_bind lookup_total list_lookup_total].
    destruct (Z.ltb_spec 0 (Z.of_nat (length nonce))).
    + rewrite Nat2Z.id, read_app by reflexivity. done.
    + destruct nonce; [done|cbn in *; lia].
Qed.

(** Padding is the last field. *)
Fixpoint padding_last (fields : list transaction_extra_t) : bool :=
  match fields with [] => true | [_] => true | f :: fields => negb (is_padding f) && padding_last fields end.

Lemma parse_written fields acc : Forall valid_field fields -> padding_last fields = true ->
  let s := mjoin (field_bytes <$> fields) in parse_loop (length s) s acc = (true, acc ++ fields).
Proof.
  intros H. revert acc. induction H as [|f fields Hf Hs IH]; intros acc Hl s; [cbn; by rewrite app_nil_r|]. subst s. cbn [fmap list_fmap]. rewrite mjoin_cons.
  destruct (is_padding f) eqn:Ep.
  - destruct fields as [|g fields]; [|cbn in Hl; rewrite Ep in Hl; done]. destruct f as [size|?|?]; [|done..]. cbn [fmap list_fmap mjoin list_join]. rewrite app_nil_r.
    cbn [field_bytes]. cbn in Hf. replace (Z.to_nat size) with (S (Z.to_nat size - 1)) by lia. cbn [replicate]. rewrite parse_cons. unfold parse_field.
    change (0 =? TX_EXTRA_TAG_PADDING) with true. cbn iota. rewrite padding_zeros by lia. cbn [mbind option_bind]. unfold TX_EXTRA_PADDING_MAX_COUNT.
    destruct (Z.ltb_spec 255 (1 + Z.of_nat (Z.to_nat size - 1))); [lia|]. cbn. do 4 f_equal. lia.
  - destruct (parse_known f (mjoin (field_bytes <$> fields)) Hf Ep) as (tag & iss & -> & E). rewrite parse_cons, E.
    rewrite IH by (destruct fields; [done|cbn in Hl; rewrite Ep in Hl; exact Hl]). by rewrite <- app_assoc.
Qed.

(** ** What is parsed *)

Lemma padding_read iss size k iss' : 1 <= size <= 256 -> padding_loop iss size = Some (k, iss') -> k <= 255 ->
  iss' = [] /\ size <= k /\ iss = replicate (Z.to_nat (k - size)) 0.
Proof.
  revert size. induction iss as [|p iss IH]; intros size Hs; cbn [padding_loop]; unfold TX_EXTRA_PADDING_MAX_COUNT.
  - intros [= <- <-] _. replace (size - size) with 0 by lia. split_and!; [done|lia|done].
  - destruct (Z.leb_spec size 255); [|intros [= <- <-]; lia]. destruct (Z.eqb_spec p 0) as [->|]; [|done]. cbn [negb]. intros E Hk.
    destruct (IH (size + 1) ltac:(lia) E Hk) as (-> & Hle & ->). split_and!; [done|lia|]. replace (Z.to_nat (k - size)) with (S (Z.to_nat (k - (size + 1)))) by lia. done.
Qed.

(** A parsed field is valid and takes its bytes; padding takes the rest. *)
Lemma parse_field_inv tag iss f iss' : is_bytes (tag :: iss) -> parse_field tag iss = Some (Some f, iss') ->
  valid_field f /\ tag :: iss = field_bytes f ++ iss' /\ is_bytes iss' /\ (is_padding f = true -> iss' = []).
Proof.
  intros Hb. apply Forall_cons_1 in Hb as [Ht Hb]. unfold parse_field, read_pod.
  destruct (Z.eqb_spec tag TX_EXTRA_TAG_PADDING) as [->|].
  { destruct (padding_loop iss 1) as [[k r]|] eqn:E; [|done]. cbn [mbind option_bind]. unfold TX_EXTRA_PADDING_MAX_COUNT. destruct (Z.ltb_spec 255 k); [done|].
    intros [= <- <-]. destruct (padding_read iss 1 k r ltac:(lia) E ltac:(lia)) as (-> & Hk & ->). cbn [valid_field field_bytes]. split_and!; [lia|lia| |constructor|done].
    rewrite app_nil_r. replace (Z.to_nat k) with (S (Z.to_nat (k - 1))) by lia. done. }
  destruct (Z.eqb_spec tag TX_EXTRA_TAG_PUBKEY) as [->|].
  { destruct (read 32 iss) as [[k r]|] eqn:E; [|done]. cbn. intros [= <- <-]. destruct (read_take 32 iss k r Hb E) as (Hk & Hr & ->). done. }
  destruct (Z.eqb_spec tag TX_EXTRA_NONCE) as [->|]; [|done]. destruct (read 1 iss) as [[s r]|] eqn:E; [|done]. cbn [mbind option_bind].
  destruct (read_take 1 iss s r Hb E) as ([Hs Hs1] & Hr & ->). destruct s as [|m [|? ?]]; [done| |done]. cbn [lookup_total list_lookup_total].
  apply Forall_cons_1 in Hs as [Hm _]. change (is_u8 m) with (0 <= m < 256) in Hm. destruct (Z.ltb_spec 0 m).
  - destruct (read (Z.to_nat m) r) as [[k r']|] eqn:E'; [|done]. cbn. intros [= <- <-]. destruct (read_take _ r k r' Hr E') as ([Hk Hl] & Hr' & ->).
    cbn. rewrite Hl, Z2Nat.id by lia. split_and!; [done|lia|done|done|done].
  - intros [= <- <-]. cbn. replace m with 0 by lia. split_and!; [constructor|lia|done|done|done].
Qed.

Lemma parse_skip tag iss iss' : parse_field tag iss = Some (None, iss') -> iss' = iss.
Proof.
  unfold parse_field, read_pod. destruct (tag =? _). { destruct (padding_loop iss 1) as [[k r]|]; [|done]. cbn. by destruct (_ <? _). }
  destruct (tag =? _). { by destruct (read 32 iss) as [[k r]|]. }
  destruct (tag =? _); [|by intros [= ->]]. destruct (read 1 iss) as [[s r]|]; [|done]. cbn. destruct (0 <? _); [|done]. by destruct (read _ r) as [[k r']|].
Qed.

Lemma parse_inv n iss fields : (length iss <= n)%nat -> is_bytes iss -> parse_loop (length iss) iss [] = (true, fields) ->
  Forall valid_field fields /\ padding_last fields = true /\ mjoin (field_bytes <$> fields) `sublist_of` iss.
Proof.
  revert iss fields. induction n as [|n IH]; intros iss fields Hn Hb E.
  { destruct iss; [|cbn in Hn; lia]. injection E as <-. split_and!; [constructor|done|constructor]. }
  destruct iss as [|tag iss]; [by apply (IH []); [cbn; lia|constructor|]|]. rewrite parse_cons in E.
  destruct (parse_field tag iss) as [[[f|] iss']|] eqn:Ef; [| |done].
  - destruct (parse_field_inv tag iss f iss' Hb Ef) as (Hf & Es & Hb' & Hp). apply field_shorter in Ef. rewrite parse_acc in E.
    destruct (parse_loop (length iss') iss' []) as [r l] eqn:E'. injection E as -> <-. destruct (IH iss' l ltac:(cbn in Hn; lia) Hb' E') as (V & P & S).
    cbn [app fmap list_fmap]. rewrite mjoin_cons, Es. split_and!; [by constructor| |by apply sublist_app].
    destruct l as [|g l]; [done|]. change (negb (is_padding f) && padding_last (g :: l) = true). rewrite P, andb_true_r. destruct (is_padding f); [|done].
    rewrite (Hp eq_refl) in E'. done.
  - apply parse_skip in Ef. subst iss'. apply Forall_cons_1 in Hb as [_ Hb]. destruct (IH iss fields ltac:(cbn in Hn; lia) Hb E) as (V & P & S).
    split_and!; [done|done|by constructor].
Qed.

(** Fields after fields. *)
Lemma parse_app n a b fields : (length a <= n)%nat -> is_bytes a -> parse_loop (length a) a [] = (true, fields) -> existsb is_padding fields = false ->
  parse_loop (length (a ++ b)) (a ++ b) [] = let '(r, l) := parse_loop (length b) b [] in (r, fields ++ l).
Proof.
  revert a fields. induction n as [|n IH]; intros a fields Hn Hb E Hp.
  { destruct a; [|cbn in Hn; lia]. injection E as <-. cbn. by destruct (parse_loop (length b) b []). }
  destruct a as [|tag a]; [injection E as <-; cbn; by destruct (parse_loop (length b) b [])|]. rewrite parse_cons in E.
  destruct (parse_field tag a) as [[[f|] a']|] eqn:Ef; [| |done].
  - destruct (parse_field_inv tag a f a' Hb Ef) as (Hf & Es & Hb' & _). apply field_shorter in Ef. rewrite parse_acc in E.
    destruct (parse_loop (length a') a' []) as [r l] eqn:E'. injection E as -> <-. cbn in Hp. apply orb_false_iff in Hp as [Hf' Hl].
    rewrite Es, <- app_assoc. destruct (parse_known f (a' ++ b) Hf Hf') as (t & i & -> & Et). rewrite parse_cons, Et, parse_acc, (IH a' l) by (done || (cbn in Hn; lia)).
    by destruct (parse_loop (length b) b []).
  - pose proof (parse_skip _ _ _ Ef) as ->. apply Forall_cons_1 in Hb as [_ Hb]. cbn [app]. rewrite parse_cons.
    assert (Ef' : parse_field tag (a ++ b) = Some (None, a ++ b)).
    { revert Ef. unfold parse_field. destruct (tag =? _). { destruct (padding_loop a 1) as [[k r]|]; [|done]. cbn. by destruct (_ <? _). }
      destruct (tag =? _). { unfold read_pod. by destruct (read 32 a) as [[k r]|]. }
      destruct (tag =? _); [|done]. destruct (read 1 a) as [[s r]|]; [|done]. cbn. destruct (0 <? _); [|done]. by destruct (read _ r) as [[k r']|]. }
    rewrite Ef'. apply IH; [cbn in Hn; lia|done|done|done].
Qed.

(** The fields of a transaction's extra are read back: every list of valid
    fields, with padding only at the end, is written and parsed to itself; and
    a parsed extra has such fields, whose written form is the extra without
    the bytes of unknown tags, which the parser skips one by one. *)
Theorem extra_roundtrip fields extra parsed : Forall valid_field fields -> padding_last fields = true -> is_bytes extra ->
  parseTransactionExtra extra = (true, parsed) ->
  (exists e, writeTransactionExtra [] fields = Some e /\ parseTransactionExtra e = (true, fields)) /\
  Forall valid_field parsed /\ padding_last parsed = true /\ exists e, writeTransactionExtra [] parsed = Some e /\ e `sublist_of` extra.
Proof.
  intros Hv Hl Hb E. rewrite parseTransactionExtra_loop in E. destruct (parse_inv _ extra parsed (Nat.le_refl _) Hb E) as (V & P & S). split_and!.
  - eexists. rewrite write_bytes by done. split; [done|]. rewrite parseTransactionExtra_loop. by apply (parse_written fields []).
  - done.
  - done.
  - eexists. rewrite write_bytes by done. by split.
Qed.

Lemma extra_roundtrip_witness :
  (exists e, writeTransactionExtra [] [transaction_extra_nonce_t [7; 8]; transaction_extra_padding_t 3] = Some e /\
     parseTransactionExtra e = (true, [transaction_extra_nonce_t [7; 8]; transaction_extra_padding_t 3])) /\
  Forall valid_field [transaction_extra_nonce_t [9]] /\ padding_last [transaction_extra_nonce_t [9]] = true /\
  exists e, writeTransactionExtra [] [transaction_extra_nonce_t [9]] = Some e /\ e `sublist_of` [77; 2; 1; 9].
Proof.
  apply (extra_roundtrip [transaction_extra_nonce_t [7; 8]; transaction_extra_padding_t 3] [77; 2; 1; 9] [transaction_extra_nonce_t [9]]);
    [|reflexivity|by apply bytes_forallb|reflexivity].
  repeat constructor; cbn; try lia; by vm_compute.
Defined.

(** ** Keys and payment ids *)

Lemma findNonce_app l k : findNonce (l ++ k) = match findNonce l with Some n => Some n | None => findNonce k end.
Proof. induction l as [|[] l IH]; cbn; auto. Qed.

Lemma findPublicKey_app l k : findPublicKey (l ++ k) = match findPublicKey l with Some n => Some n | None => findPublicKey k end.
Proof. induction l as [|[] l IH]; cbn; auto. Qed.

Lemma parse_append extra fields f : is_bytes extra -> parseTransactionExtra extra = (true, fields) -> existsb is_padding fields = false -> valid_field f ->
  is_padding f = false -> parseTransactionExtra (extra ++ field_bytes f) = (true, fields ++ [f]).
Proof.
  rewrite !parseTransactionExtra_loop. intros Hb E Hp Hf Hf'. rewrite (parse_app _ extra _ fields (Nat.le_refl _)) by done.
  pose proof (parse_written [f] [] ltac:(by constructor) eq_refl) as W. cbn [fmap list_fmap mjoin list_join] in W. rewrite app_nil_r in W. by rewrite W.
Qed.

(** Keys and payment ids are found where they were put: after the public
    key is added to an extra that has no key and no padding, it is the key
    found there; after a payment id is added as text to one without a nonce,
    it is the payment id found there, and the key is unchanged. *)
Theorem extra_keys_found extra fields key id uninit : is_bytes extra -> is_b32 key -> is_b32 id -> length uninit = 32%nat ->
  parseTransactionExtra extra = (true, fields) -> existsb is_padding fields = false ->
  (findPublicKey fields = None -> getTransactionPublicKeyFromExtra (addTransactionPublicKeyToExtra extra key) = key) /\
  (findNonce fields = None -> exists e, createTxExtraWithPaymentId (podTo id) extra uninit = Some e /\ getPaymentIdFromTxExtra e = Some id /\
     getTransactionPublicKeyFromExtra e = getTransactionPublicKeyFromExtra extra).
Proof.
  intros Hb Hk [Hi Li] Hu E Hp. split.
  - intros Hn. unfold getTransactionPublicKeyFromExtra.
    change (addTransactionPublicKeyToExtra extra key) with (extra ++ field_bytes (transaction_extra_public_key_t key)).
    rewrite (parse_append extra fields) by done. cbn. by rewrite findPublicKey_app, Hn.
  - intros Hn. unfold createTxExtraWithPaymentId, parsePaymentId. rewrite pod_roundtrip by (done || lia). cbn [negb].
    unfold setPaymentIdToTransactionExtraNonce. set (nonce := TX_EXTRA_NONCE_PAYMENT_ID :: id).
    assert (Hv : valid_field (transaction_extra_nonce_t nonce)) by (split; [constructor; [by vm_compute|done]|cbn; lia]).
    pose proof (visit_bytes extra _ Hv) as V. cbn [visit] in V. rewrite V. eexists. split; [done|].
    pose proof (parse_append extra fields _ Hb E Hp Hv eq_refl) as P. split.
    + unfold getPaymentIdFromTxExtra. rewrite P. cbn [negb]. rewrite findNonce_app, Hn. cbn. unfold getPaymentIdFromTransactionExtraNonce, nonce.
      cbn [length]. rewrite Li. cbn. by rewrite drop_0, firstn_all2 by lia.
    + unfold getTransactionPublicKeyFromExtra. rewrite P, E. cbn [snd]. rewrite findPublicKey_app. cbn. by destruct (findPublicKey fields).
Qed.

Lemma extra_keys_found_witness :
  (findPublicKey [] = None -> getTransactionPublicKeyFromExtra (addTransactionPublicKeyToExtra [] (replicate 32 5)) = replicate 32 5) /\
  (findNonce [] = None -> exists e, createTxExtraWithPaymentId (podTo (replicate 32 6)) [] (replicate 32 0) = Some e /\
     getPaymentIdFromTxExtra e = Some (replicate 32 6) /\ getTransactionPublicKeyFromExtra e = getTransactionPublicKeyFromExtra []).
Proof.
  apply (extra_keys_found [] [] (replicate 32 5) (replicate 32 6) (replicate 32 0)); [constructor|by apply bytes_check_n..|reflexivity|reflexivity|reflexivity].
Defined.
