(* ===== verification/Amounts.v ===== *)
(** * Amounts: cryptonote/core/util/amount.cpp, CryptoNoteFormatUtils.*, CryptoNoteTools.cpp

    Sums of a transaction in 64-bit words and the checks that they do not
    overflow, the penalty of large blocks, the decomposition of an amount in
    decimal digits, and the offsets of outputs.  A failed assertion is
    [None]. *)

From stdpp Require Import sorting.
From S2P Require Import Prelude IntUtil Types.

(** ** Sums *)

(** The amount an input adds: none for a base input. *)
Definition input_amount (i : transaction_input_t) : Z :=
  match i with base_input _ => 0 | key_input i => key_amount i | multi_signature_input i => multi_amount i end.

Definition getInputAmount (tx : transaction_prefix_t) : Z := foldl (fun amount i => u64 (amount + input_amount i)) 0 (inputs tx).
Definition get_inputs_money_amount (tx : transaction_prefix_t) : Z := foldl (fun money i => u64 (money + input_amount i)) 0 (inputs tx).
Definition getOutputAmount (tx : transaction_prefix_t) : Z := foldl (fun amount o => u64 (amount + out_amount o)) 0 (outputs tx).
Definition get_outs_money_amount (tx : transaction_prefix_t) : Z := foldl (fun amount o => u64 (amount + out_amount o)) 0 (outputs tx).

Definition getInputsAmounts (tx : transaction_prefix_t) : list Z :=
  omap (fun i => match i with base_input _ => None | key_input i => Some (key_amount i) | multi_signature_input i => Some (multi_amount i) end) (inputs tx).

(** [bool get_tx_fee(tx, fee)] and the one that returns the fee. *)
Definition get_tx_fee (tx : transaction_prefix_t) : option Z :=
  let amount_in := foldl (fun amount_in i => u64 (amount_in + input_amount i)) 0 (inputs tx) in
  let amount_out := foldl (fun amount_out o => u64 (amount_out + out_amount o)) 0 (outputs tx) in
  if negb (amount_out <=? amount_in) then None else Some (u64 (amount_in - amount_out)).
Definition get_tx_fee_or_zero (tx : transaction_prefix_t) : Z := match get_tx_fee tx with Some r => r | None => 0 end.

Fixpoint overflow_loop (money : Z) (amounts : list Z) : bool :=
  match amounts with
  | [] => true
  | amount :: amounts => if u64 (amount + money) <? money then false else overflow_loop (u64 (money + amount)) amounts
  end.
Definition check_inputs_overflow (tx : transaction_prefix_t) : bool := overflow_loop 0 (input_amount <$> inputs tx).
Definition check_outs_overflow (tx : transaction_prefix_t) : bool := overflow_loop 0 (out_amount <$> outputs tx).
Definition check_money_overflow (tx : transaction_prefix_t) : bool := check_inputs_overflow tx && check_outs_overflow tx.

Definition check_inputs_types_supported (tx : transaction_prefix_t) : bool :=
  forallb (fun i => match i with base_input _ => false | _ => true end) (inputs tx).

(** The set of the pairs seen. *)
Fixpoint multisignature_loop (inputsUsage : list (Z * Z)) (l : list transaction_input_t) : bool :=
  match l with
  | [] => true
  | multi_signature_input i :: l =>
      let p := (multi_amount i, outputIndex i) in
      if bool_decide (p ∈ inputsUsage) then false else multisignature_loop (p :: inputsUsage) l
  | _ :: l => multisignature_loop inputsUsage l
  end.
Definition checkMultisignatureInputsDiff (tx : transaction_prefix_t) : bool := multisignature_loop [] (inputs tx).

Definition get_block_height (b : block_t) : Z :=
  match inputs (prefix (baseTransaction b)) with [base_input i] => blockIndex i | _ => 0 end.

(** ** The penalty *)

Definition get_penalized_amount (amount median_size current_block_size : Z) : option Z :=
  if negb (current_block_size <=? u64 (2 * median_size)) then None
  else if negb (median_size <=? 2 ^ 32 - 1) then None
  else if negb (current_block_size <=? 2 ^ 32 - 1) then None
  else if amount =? 0 then Some 0
  else if current_block_size <=? median_size then Some amount
  else
    let '(product_low, product_high) := mul128 amount (u64 (current_block_size * u64 (u64 (2 * median_size) - current_block_size))) in
    let '(penalized_amount_high, penalized_amount_low, _) := div128_32 product_high product_low (u32 median_size) in
    let '(penalized_amount_high, penalized_amount_low, _) := div128_32 penalized_amount_high penalized_amount_low (u32 median_size) in
    if negb (0 =? penalized_amount_high) then None
    else if negb (penalized_amount_low <? amount) then None
    else Some penalized_amount_low.

(** ** Digits *)

Definition power_integral_loop (a : Z) (n : nat) : Z := foldl (fun total _ => u64 (total * a)) a (seq 0 n).
Definition power_integral (a b : Z) : Z := if b =? 0 then 1 else power_integral_loop a (Z.to_nat (b - 1)).

(** What the handlers are called with, in order. *)
Inductive part := chunk_part (a_chunk : Z) | dust_part (a_dust : Z).
Definition part_amount (p : part) : Z := match p with chunk_part a => a | dust_part a => a end.

(** The loop divides a 64-bit amount by ten: twenty turns leave nothing. *)
Fixpoint decompose_loop (fuel : nat) (amount dust_threshold : Z) (is_dust_handled : bool) (dust order : Z) : list part :=
  match fuel with
  | O => []
  | S fuel =>
      if 0 =? amount then if negb is_dust_handled && negb (0 =? dust) then [dust_part dust] else []
      else
        let chunk := u64 ((amount mod 10) * order) in
        let amount := amount / 10 in
        let order := u64 (order * 10) in
        if u64 (dust + chunk) <=? dust_threshold then decompose_loop fuel amount dust_threshold is_dust_handled (u64 (dust + chunk)) order
        else
          let handle := negb is_dust_handled && negb (0 =? dust) in
          (if handle then [dust_part dust] else []) ++ (if negb (0 =? chunk) then [chunk_part chunk] else []) ++
          decompose_loop fuel amount dust_threshold (is_dust_handled || handle) dust order
  end.
Definition decompose_amount_into_digits (amount dust_threshold : Z) : list part :=
  if 0 =? amount then [] else decompose_loop 21 amount dust_threshold false 0 1.

Definition decomposeAmount (amount dustThreshold : Z) (decomposedAmounts : list Z) : list Z :=
  decomposedAmounts ++ (part_amount <$> decompose_amount_into_digits amount dustThreshold).

(** ** Offsets *)

(** The loops run in place, up and down. *)
Definition relative_output_offsets_to_absolute (off : list Z) : list Z :=
  foldl (fun res i => <[i := u32 (res !!! i + res !!! (i - 1)%nat)]> res) off (seq 1 (length off - 1)).
Definition absolute_output_offsets_to_relative (off : list Z) : list Z :=
  match off with
  | [] => off
  | _ =>
      let res := merge_sort Z.le off in
      foldl (fun res i => <[i := u32 (res !!! i - res !!! (i - 1)%nat)]> res) res (reverse (seq 1 (length res - 1)))
  end.

(** ** Sums without overflow *)

Definition total (l : list Z) : Z := foldr Z.add 0 l.

Lemma total_app l k : total (l ++ k) = total l + total k.
Proof. induction l as [|x l IH]; cbn; [done|]. unfold total in *. lia. Qed.

Lemma total_nonneg l : Forall (fun x => 0 <= x) l -> 0 <= total l.
Proof. induction 1; cbn; unfold total in *; lia. Qed.

Lemma sum_wrap {A} (f : A -> Z) l a : foldl (fun s x => u64 (s + f x)) (u64 a) l = u64 (a + total (f <$> l)).
Proof.
  revert a. induction l as [|x l IH]; intros a; cbn [foldl fmap list_fmap total foldr]; [by rewrite Z.add_0_r|].
  rewrite wrap_add_l, IH. f_equal. unfold total. lia.
Qed.

Lemma sum_eq {A} (f : A -> Z) l : foldl (fun s x => u64 (s + f x)) 0 l = u64 (total (f <$> l)).
Proof. exact (sum_wrap f l 0). Qed.

Lemma overflow_loop_ok money l : is_u64 money -> Forall is_u64 l -> overflow_loop money l = (money + total l <? 2 ^ 64).
Proof.
  intros Hm Hl. revert money Hm. induction Hl as [|x l Hx Hl IH]; intros money Hm; cbn [overflow_loop total foldr].
  { rewrite Z.add_0_r. unfold is_word in Hm. lia. }
  fold (total l). unfold is_word in *. assert (0 <= total l) by (apply total_nonneg; eapply list.Forall_impl; [exact Hl|intros ? [? _]; done]).
  destruct (Z.lt_ge_cases (x + money) (2 ^ 64)).
  - rewrite (wrap_small 64 (x + money)), (wrap_small 64 (money + x)) by (unfold is_word; lia). replace (x + money <? money) with false by lia.
    rewrite IH by lia. f_equal. lia.
  - assert (E : u64 (x + money) = x + money - 2 ^ 64) by (symmetry; apply (Z.mod_unique_pos _ _ 1); lia). rewrite E.
    replace (_ <? money) with true by lia. lia.
Qed.

Lemma input_amount_u64 i : valid_input i -> is_u64 (input_amount i).
Proof. destruct i as [i|i|i]; cbn; [intros; split; [lia|done]|tauto|tauto]. Qed.

Lemma amounts_u64 tx : valid_prefix tx -> Forall is_u64 (input_amount <$> inputs tx) /\ Forall is_u64 (out_amount <$> outputs tx).
Proof.
  intros (_ & _ & [Hi _] & [Ho _] & _). split; apply Forall_fmap; (eapply list.Forall_impl; [eassumption|]).
  - intros i. apply input_amount_u64.
  - intros o [H _]. exact H.
Qed.

(** The overflow checks are exact and make the fee exact:
    [check_money_overflow] accepts a transaction exactly when the true sums of
    its inputs and of its outputs fit in 64 bits; then the sums computed are
    the true ones, and [get_tx_fee] returns inputs minus outputs, or fails
    exactly when the outputs exceed the inputs. *)
Theorem tx_fee_exact tx : valid_prefix tx ->
  let ins := total (input_amount <$> inputs tx) in
  let outs := total (out_amount <$> outputs tx) in
  check_money_overflow tx = ((ins <? 2 ^ 64) && (outs <? 2 ^ 64)) /\
  (check_money_overflow tx = true -> getInputAmount tx = ins /\ getOutputAmount tx = outs /\
     get_tx_fee tx = if outs <=? ins then Some (ins - outs) else None).
Proof.
  intros Hv ins outs. destruct (amounts_u64 tx Hv) as [Hi Ho].
  assert (E : check_money_overflow tx = ((ins <? 2 ^ 64) && (outs <? 2 ^ 64))).
  { unfold check_money_overflow, check_inputs_overflow, check_outs_overflow. by rewrite !overflow_loop_ok by (done || (split; [lia|done])). }
  split; [done|]. rewrite E. intros H.
  assert (Hin : 0 <= ins) by (apply total_nonneg; eapply list.Forall_impl; [exact Hi|intros ? [? _]; done]).
  assert (Hout : 0 <= outs) by (apply total_nonneg; eapply list.Forall_impl; [exact Ho|intros ? [? _]; done]).
  assert (Ei : u64 ins = ins) by (apply wrap_small; unfold is_word; lia). assert (Eo : u64 outs = outs) by (apply wrap_small; unfold is_word; lia).
  unfold getInputAmount, getOutputAmount, get_tx_fee. rewrite !sum_eq. fold ins outs. rewrite Ei, Eo. split_and!; [done|done|].
  destruct (Z.leb_spec outs ins); cbn [negb]; [|done]. rewrite wrap_small by (unfold is_word; lia). done.
Qed.

(** ** The penalty is exact *)

Lemma penalty_factor c m : 0 <= m < c -> c <= 2 * m -> 0 <= c * (2 * m - c) < m * m.
Proof. intros. nia. Qed.

Lemma penalty_exact amount m c : is_u64 amount -> 0 <= m < 2 ^ 32 -> 0 <= c < 2 ^ 32 -> c <= 2 * m ->
  get_penalized_amount amount m c = Some (if c <=? m then amount else amount * (c * (2 * m - c)) / (m * m)).
Proof.
  intros Ha Hm Hc Hcm. unfold is_word in Ha. unfold get_penalized_amount. rewrite (wrap_small 64 (2 * m)) by (unfold is_word; lia).
  replace (c <=? 2 * m) with true by lia. replace (m <=? 2 ^ 32 - 1) with true by lia. replace (c <=? 2 ^ 32 - 1) with true by lia. cbn [negb].
  destruct (Z.eqb_spec amount 0) as [->|Hz]. { destruct (c <=? m); [done|]. by rewrite Z.mul_0_l, Zdiv_0_l. }
  destruct (Z.leb_spec c m) as [|Hlt]; [done|]. pose proof (penalty_factor c m ltac:(lia) Hcm) as F.
  rewrite (wrap_small 64 (2 * m - c)) by (unfold is_word; lia). rewrite (wrap_small 64 (c * _)) by (unfold is_word; nia). rewrite (wrap_small 32 m) by done.
  set (x := c * (2 * m - c)) in *. pose proof (mul128_ok amount x Ha ltac:(unfold is_word; nia)) as M. destruct (mul128 amount x) as [lo hi].
  destruct M as (Hlo & Hhi & E & _). pose proof (div128_32_exact hi lo m Hhi Hlo ltac:(lia)) as D. destruct (div128_32 hi lo m) as [[qh ql] r].
  destruct D as (Hqh & Hql & Eq & _). pose proof (div128_32_exact qh ql m Hqh Hql ltac:(lia)) as D. destruct (div128_32 qh ql m) as [[ph pl] r'].
  destruct D as (Hph & Hpl & Ep & _). rewrite Eq, E, Z.div_div in Ep by lia.
  assert (B : 0 <= amount * x / (m * m) < amount).
  { split; [apply Z.div_pos; nia|]. apply Z.div_lt_upper_bound; [nia|]. nia. }
  unfold is_word in *. assert (ph = 0) by lia. subst ph. replace (0 =? 0) with true by done. cbn [negb]. replace (pl <? amount) with true by lia. cbn [negb].
  f_equal. lia.
Qed.

(** ** The digits of an amount *)

Definition is_dust (p : part) : bool := match p with dust_part _ => true | chunk_part _ => false end.

(** A chunk is one decimal digit, the dust is at most the threshold. *)
Definition part_ok (dust_threshold : Z) (p : part) : Prop :=
  match p with
  | chunk_part a => exists d j, 1 <= d <= 9 /\ 0 <= j /\ a = d * 10 ^ j
  | dust_part a => 0 < a <= dust_threshold
  end.

Lemma next_digit amount k : 0 < amount -> 0 <= k -> amount * 10 ^ k = (amount mod 10) * 10 ^ k + amount / 10 * 10 ^ (k + 1).
Proof. intros. rewrite Z.pow_add_r by lia. pose proof (Z.div_mod amount 10 ltac:(lia)). change (10 ^ 1) with 10. nia. Qed.

Lemma digit_zero d p : 0 <= d -> 0 < p -> d * p < p -> d * p = 0.
Proof. intros Hd Hp Hl. destruct (Z.eq_dec d 0) as [->|]; [done|]. exfalso. assert (1 * p <= d * p) by (apply Z.mul_le_mono_nonneg_r; lia). lia. Qed.

Lemma decompose_loop_ok fuel amount thr handled dust order k :
  0 <= amount < 10 ^ (Z.of_nat fuel - 1) -> (1 <= fuel)%nat -> 0 <= k -> (0 < amount -> order = 10 ^ k) ->
  0 <= dust <= thr -> dust + amount * 10 ^ k < 2 ^ 64 -> (handled = true -> thr < dust + 10 ^ k) ->
  let parts := decompose_loop fuel amount thr handled dust order in
  total (part_amount <$> parts) = (if handled then 0 else dust) + amount * 10 ^ k /\ Forall (part_ok thr) parts /\
  (length (List.filter is_dust parts) <= if handled then 0 else 1)%nat.
Proof.
  revert amount handled dust order k. induction fuel as [|fuel IH]; intros amount handled dust order k Ha Hf Hk Ho Hd Hs Hh; [lia|].
  cbn [decompose_loop]. destruct (Z.eqb_spec 0 amount) as [<-|Hz].
  { destruct handled; cbn [negb andb]; [cbn; split_and!; [lia|constructor|lia]|]. destruct (Z.eqb_spec 0 dust) as [<-|]; cbn; split_and!; try lia; try (by constructor).
    constructor; [cbn; lia|constructor]. }
  pose proof (next_digit amount k ltac:(lia) Hk) as N. pose proof (Z.mod_pos_bound amount 10 ltac:(lia)) as M.
  assert (Hq : 0 <= amount / 10) by (apply Z.div_pos; lia). assert (P0 : 0 < 10 ^ k) by lia. assert (P1 : 10 ^ (k + 1) = 10 * 10 ^ k) by (rewrite Z.pow_add_r by lia; change (10 ^ 1) with 10; lia).
  rewrite (Ho ltac:(lia)). set (c := (amount mod 10) * 10 ^ k) in *. assert (Hc : 0 <= c <= 9 * 10 ^ k) by (unfold c; nia).
  assert (Hr : 0 <= amount / 10 * 10 ^ (k + 1)) by nia.
  rewrite (wrap_small 64 c) by (unfold is_word; lia). rewrite (wrap_small 64 (dust + c)) by (unfold is_word; lia).
  assert (Hf' : (1 <= fuel)%nat) by (destruct fuel; [cbn in Ha; lia|lia]).
  assert (Ha' : 0 <= amount / 10 < 10 ^ (Z.of_nat fuel - 1)).
  { split; [done|]. apply Z.div_lt_upper_bound; [lia|]. rewrite <- Z.pow_succ_r by lia. replace (Z.succ (Z.of_nat fuel - 1)) with (Z.of_nat (S fuel) - 1) by lia. lia. }
  assert (Ho' : 0 < amount / 10 -> u64 (10 ^ k * 10) = 10 ^ (k + 1)).
  { intros Hp. rewrite P1, Z.mul_comm. apply wrap_small. unfold is_word. nia. }
  destruct (Z.leb_spec (dust + c) thr) as [Hle|Hgt].
  - destruct handled.
    + specialize (Hh eq_refl). assert (c = 0) by (apply digit_zero; lia).
      destruct (IH (amount / 10) true (dust + c) _ (k + 1) Ha' Hf' ltac:(lia) Ho' ltac:(lia) ltac:(lia) ltac:(lia)) as (T & F & L). split_and!; [lia|done|done].
    + destruct (IH (amount / 10) false (dust + c) _ (k + 1) Ha' Hf' ltac:(lia) Ho' ltac:(lia) ltac:(lia) ltac:(done)) as (T & F & L). split_and!; [lia|done|done].
  - set (handle := negb handled && negb (0 =? dust)).
    destruct (IH (amount / 10) (handled || handle) dust _ (k + 1) Ha' Hf' ltac:(lia) Ho' ltac:(lia) ltac:(lia) ltac:(lia)) as (T & F & L).
    rewrite !fmap_app, !total_app, T, !filter_app, !length_app. split_and!.
    + replace (total (part_amount <$> (if negb (0 =? c) then [chunk_part c] else []))) with c by (destruct (Z.eqb_spec 0 c); cbn; lia).
      unfold handle. destruct handled; cbn [negb andb orb]; [cbn; lia|]. destruct (Z.eqb_spec 0 dust); cbn; lia.
    + apply Forall_app; split; [|apply Forall_app; split; [|done]].
      * unfold handle. destruct handled; [constructor|]. destruct (Z.eqb_spec 0 dust); cbn; [constructor|]. constructor; [cbn; lia|constructor].
      * destruct (Z.eqb_spec 0 c); [constructor|]. constructor; [|constructor]. exists (amount mod 10), k. split_and!; [|lia|done|done].
        destruct (Z.eq_dec (amount mod 10) 0) as [E0|]; [|lia]. unfold c in *. rewrite E0 in *. lia.
    + replace (length (List.filter is_dust (if negb (0 =? c) then [chunk_part c] else []))) with 0%nat by (by destruct (0 =? c)).
      revert L. unfold handle. destruct handled; cbn [negb andb orb]; [cbn; lia|]. destruct (Z.eqb_spec 0 dust); cbn; lia.
Qed.

Lemma decompose_exact amount dust_threshold : is_u64 amount -> 0 <= dust_threshold ->
  let parts := decompose_amount_into_digits amount dust_threshold in
  total (part_amount <$> parts) = amount /\ Forall (part_ok dust_threshold) parts /\ (length (List.filter is_dust parts) <= 1)%nat.
Proof.
  intros Ha Ht. unfold decompose_amount_into_digits. destruct (Z.eqb_spec 0 amount) as [<-|]; [cbn; split_and!; [done|constructor|lia]|].
  unfold is_word in Ha. assert (E : 2 ^ 64 < 10 ^ (Z.of_nat 21 - 1)) by reflexivity.
  revert E. generalize (eq_refl : 21%nat = 21%nat). generalize 21%nat at 1 3. intros fuel Ef E.
  destruct (decompose_loop_ok fuel amount dust_threshold false 0 1 0 ltac:(lia) ltac:(lia) ltac:(lia) (fun _ => eq_refl) ltac:(lia) ltac:(lia) ltac:(discriminate)) as (T & F & L).
  rewrite Z.mul_1_r, Z.add_0_l in T. rewrite Ef in T, F, L. split_and!; [exact T|exact F|exact L].
Qed.

(** The decomposition of an amount loses and creates nothing: the parts
    handed to the handlers sum to the amount, every chunk is one non-zero
    decimal digit times a power of ten, and there is at most one dust part,
    not above the threshold; 64-bit overflow does not occur. *)
Theorem decompose_amount_exact amount dust_threshold : is_u64 amount -> 0 <= dust_threshold ->
  let parts := decompose_amount_into_digits amount dust_threshold in
  total (part_amount <$> parts) = amount /\ Forall (part_ok dust_threshold) parts /\ (length (List.filter is_dust parts) <= 1)%nat.
Proof. apply decompose_exact. Qed.

Lemma decompose_amount_exact_witness :
  let parts := decompose_amount_into_digits 62387455827 455827 in
  total (part_amount <$> parts) = 62387455827 /\ Forall (part_ok 455827) parts /\ (length (List.filter is_dust parts) <= 1)%nat.
Proof. apply (decompose_amount_exact 62387455827 455827); [by vm_compute|lia]. Defined.

(** ** Offsets *)

(** Prefix sums and differences. *)
Fixpoint sums (prev : Z) (l : list Z) : list Z := match l with [] => [] | x :: l => let y := u32 (x + prev) in y :: sums y l end.
Fixpoint differences (prev : Z) (l : list Z) : list Z := match l with [] => [] | x :: l => u32 (x - prev) :: differences x l end.

Lemma relative_loop pre prev l : 
  foldl (fun res i => <[i := u32 (res !!! i + res !!! (i - 1)%nat)]> res) (pre ++ prev :: l) (seq (S (length pre)) (length l)) = pre ++ prev :: sums prev l.
Proof.
  revert pre prev. induction l as [|x l IH]; intros pre prev; [done|]. cbn [length seq foldl sums].
  replace (S (length pre) - 1)%nat with (length pre) by lia.
  assert (E1 : (pre ++ prev :: x :: l) !!! S (length pre) = x) by (rewrite lookup_total_app_r by lia; by replace (S (length pre) - length pre)%nat with 1%nat by lia).
  assert (E2 : (pre ++ prev :: x :: l) !!! length pre = prev) by (rewrite lookup_total_app_r by lia; by rewrite Nat.sub_diag).
  rewrite E1, E2. rewrite insert_app_r_alt by lia. replace (S (length pre) - length pre)%nat with 1%nat by lia. cbn [list_insert insert].
  specialize (IH (pre ++ [prev]) (u32 (x + prev))). rewrite length_app, <- !app_assoc in IH. cbn [app length] in IH.
  replace (S (length pre + 1)) with (S (S (length pre))) in IH by lia. exact IH.
Qed.

Lemma relative_eq off : relative_output_offsets_to_absolute off = match off with [] => [] | x :: l => x :: sums x l end.
Proof.
  unfold relative_output_offsets_to_absolute. destruct off as [|x l]; [done|]. cbn [length]. replace (S (length l) - 1)%nat with (length l) by lia.
  exact (relative_loop [] x l).
Qed.

Lemma differences_app prev l y : differences prev (l ++ [y]) = differences prev l ++ [u32 (y - (prev :: l) !!! length l)].
Proof. revert prev. induction l as [|x l IH]; intros prev; [done|]. cbn [app differences length]. by rewrite IH. Qed.

Lemma absolute_loop x l suf :
  foldl (fun res i => <[i := u32 (res !!! i - res !!! (i - 1)%nat)]> res) (x :: l ++ suf) (reverse (seq 1 (length l))) = x :: differences x l ++ suf.
Proof.
  revert suf. induction l as [|y l IH] using rev_ind; intros suf; [done|]. rewrite length_app. cbn [length]. rewrite Nat.add_1_r, seq_S, reverse_app.
  change (reverse [1 + length l]%nat) with [S (length l)]. cbn [app foldl]. replace (S (length l) - 1)%nat with (length l) by lia.
  rewrite <- (app_assoc l [y] suf). cbn [app].
  assert (E1 : (x :: l ++ y :: suf) !!! S (length l) = y) by (change (x :: l ++ y :: suf) with ((x :: l) ++ y :: suf); rewrite lookup_total_app_r by (cbn; lia); cbn [length]; by rewrite Nat.sub_diag).
  assert (E2 : (x :: l ++ y :: suf) !!! length l = (x :: l) !!! length l) by (change (x :: l ++ y :: suf) with ((x :: l) ++ y :: suf); apply lookup_total_app_l; cbn; lia).
  rewrite E1, E2. change (x :: l ++ y :: suf) with ((x :: l) ++ y :: suf). rewrite insert_app_r_alt by (cbn; lia). cbn [length]. rewrite Nat.sub_diag. cbn [insert list_insert app].
  rewrite IH, differences_app, <- app_assoc. done.
Qed.

Lemma absolute_eq off : absolute_output_offsets_to_relative off = match merge_sort Z.le off with [] => [] | x :: l => x :: differences x l end.
Proof.
  unfold absolute_output_offsets_to_relative. destruct off as [|a off]; [done|]. destruct (merge_sort Z.le (a :: off)) as [|x l] eqn:E.
  { pose proof (Permutation_length (merge_sort_Permutation Z.le (a :: off))) as P. rewrite E in P. done. }
  cbn [length]. replace (S (length l) - 1)%nat with (length l) by lia. pose proof (absolute_loop x l []) as A. rewrite !app_nil_r in A. exact A.
Qed.

Lemma sums_differences x l : is_u32 x -> Forall is_u32 l -> sums x (differences x l) = l.
Proof.
  intros Hx Hl. revert x Hx. induction Hl as [|y l Hy Hl IH]; intros x Hx; [done|]. cbn [differences sums].
  assert (E : u32 (u32 (y - x) + x) = y) by (rewrite wrap_add_l; replace (y - x + x) with y by lia; by apply wrap_small). rewrite E. by rewrite IH.
Qed.

Lemma differences_sums x l : is_u32 x -> Forall is_u32 l -> differences x (sums x l) = l.
Proof.
  intros Hx Hl. revert x Hx. induction Hl as [|y l Hy Hl IH]; intros x Hx; [done|]. cbn [differences sums]. rewrite IH by (apply wrap_word; lia). f_equal.
  unfold wrap. rewrite Zminus_mod_idemp_l. replace (y + x - x) with y by lia. by apply wrap_small.
Qed.

Lemma sums_sorted x l : 0 <= x -> Forall is_u32 l -> x + total l < 2 ^ 32 -> Sorted Z.le (x :: sums x l).
Proof.
  intros Hx Hl. revert x Hx. induction Hl as [|y l Hy Hl IH]; intros x Hx Hs; [repeat constructor|]. cbn [sums]. unfold is_word in Hy.
  cbn [total foldr] in Hs. fold (total l) in Hs. assert (0 <= total l) by (apply total_nonneg; eapply list.Forall_impl; [exact Hl|intros ? [? _]; done]).
  rewrite (wrap_small 32) by (unfold is_word; lia). constructor; [apply IH; lia|]. constructor. lia.
Qed.

Lemma sort_sorted l : Sorted Z.le l -> merge_sort Z.le l = l.
Proof. intros H. apply (Sorted_unique Z.le); [apply Sorted_merge_sort; apply _|done|apply merge_sort_Permutation]. Qed.

Lemma u32_sort l : Forall is_u32 l -> Forall is_u32 (merge_sort Z.le l).
Proof. intros H. by rewrite merge_sort_Permutation. Qed.

(** Offsets of outputs survive the change of representation: absolute
    offsets made relative and back are the offsets in order, wrap-around
    included; relative offsets whose sum fits in 32 bits are unchanged by the
    way through absolute ones. *)
Theorem offsets_roundtrip off : Forall is_u32 off ->
  relative_output_offsets_to_absolute (absolute_output_offsets_to_relative off) = merge_sort Z.le off /\
  (total off < 2 ^ 32 -> absolute_output_offsets_to_relative (relative_output_offsets_to_absolute off) = off).
Proof.
  intros Ho. rewrite absolute_eq, !relative_eq. split.
  - pose proof (u32_sort off Ho) as H. destruct (merge_sort Z.le off) as [|x l]; [done|]. apply Forall_cons_1 in H as [Hx Hl]. by rewrite sums_differences.
  - rewrite absolute_eq. destruct off as [|x l]; [done|]. apply Forall_cons_1 in Ho as [Hx Hl]. cbn [total foldr]. fold (total l). intros Ht.
    rewrite sort_sorted by (apply sums_sorted; [apply Hx|done|done]). by rewrite differences_sums.
Qed.

Lemma offsets_roundtrip_witness :
  relative_output_offsets_to_absolute (absolute_output_offsets_to_relative [9; 4; 7]) = merge_sort Z.le [9; 4; 7] /\
  (total [9; 4; 7] < 2 ^ 32 -> absolute_output_offsets_to_relative (relative_output_offsets_to_absolute [9; 4; 7]) = [9; 4; 7]).
Proof. apply (offsets_roundtrip [9; 4; 7]). repeat (constructor; [by vm_compute|]). constructor. Defined.

Lemma tx_fee_exact_witness :
  let tx := mkprefix 1 0 [key_input (mkkey_input 700 [1] (replicate 32 1))] [mkoutput 600 (key_output (mkkey_output (replicate 32 2)))] [] in
  check_money_overflow tx = true /\ get_tx_fee tx = Some 100.
Proof.
  intros tx. assert (Hv : valid_prefix tx).
  { split; [by vm_compute|]. split; [by vm_compute|]. split; [split; [|by vm_compute]|]; [constructor; [|constructor]|split; [split; [|by vm_compute]|]].
    - split; [by vm_compute|]. split; [split; [constructor; [by vm_compute|constructor]|by vm_compute]|by apply bytes_check_n].
    - constructor; [|constructor]. split; [by vm_compute|by apply bytes_check_n].
    - split; [constructor|by vm_compute]. }
  destruct (tx_fee_exact tx Hv) as [E F]. assert (O : check_money_overflow tx = true) by (rewrite E; reflexivity). split; [exact O|].
  destruct (F O) as (_ & _ & ->). reflexivity.
Defined.
