(* ===== verification/Currency.v ===== *)
(** * The currency: cryptonote/core/currency.cpp, CryptoNoteConfig.h; common/math.hpp

    Block rewards, block sizes, fusion transactions and amounts as text.  The
    parameters the builder sets are the fields of a record; a failed
    assertion is [Asserted], the result [false] is [Rejected]. *)

From Stdlib Require Import Floats.SpecFloat.
From stdpp Require Import sorting.
From S2P Require Import Prelude IntUtil Base58 Types Amounts.

Record currency := mkcurrency {
  moneySupply : Z;
  emissionSpeedFactor : Z;
  blockGrantedFullRewardZone : Z;
  minedMoneyUnlockWindow : Z;
  maxBlockHeight : Z;
  lockedTxAllowedDeltaBlocks : Z;
  lockedTxAllowedDeltaSeconds : Z;
  timestampCheckWindow : Z;
  blockFutureTimeLimit : Z;
  rewardBlocksWindow : nat;
  numberOfDecimalPlaces : nat;
  defaultDustThreshold : Z;
  maxBlockSizeInitial : Z;
  maxBlockSizeGrowthSpeedNumerator : Z;
  maxBlockSizeGrowthSpeedDenominator : Z;
  fusionTxMaxSize : Z;
  fusionTxMinInputCount : Z;
  fusionTxMinInOutCountRatio : Z;
}.

(** [CurrencyBuilder] with the parameters of CryptoNoteConfig.h. *)
Definition builder : currency :=
  {| moneySupply := 10000000000000000; emissionSpeedFactor := 18; blockGrantedFullRewardZone := 10000; minedMoneyUnlockWindow := 60;
     maxBlockHeight := 500000000; lockedTxAllowedDeltaBlocks := 1; lockedTxAllowedDeltaSeconds := 120; timestampCheckWindow := 60; blockFutureTimeLimit := 60 * 60 * 2; rewardBlocksWindow := 100;
     numberOfDecimalPlaces := 8; defaultDustThreshold := 100; maxBlockSizeInitial := 20 * 1024; maxBlockSizeGrowthSpeedNumerator := 100 * 1024;
     maxBlockSizeGrowthSpeedDenominator := 365 * 24 * 60 * 60 / 120; fusionTxMaxSize := 10000 * 30 / 100; fusionTxMinInputCount := 12;
     fusionTxMinInOutCountRatio := 4 |}.

(** [Currency::getPoolSize]: the number of blocks the block storage keeps in memory. *)
Definition getPoolSize : Z := 1024.

(** ** Rewards *)

(** [m_moneySupply * 0.20] in double precision, converted to an integer. *)
Definition double_0_20 : spec_float := S754_finite false 7205759403792794 (-55).
Definition double_trunc (f : spec_float) : Z :=
  match f with S754_finite s m e => let v := Z.shiftl (Zpos m) e in if s then - v else v | _ => 0 end.
Definition fifth (supply : Z) : Z := double_trunc (SFmul 53 1024 (binary_normalize 53 1024 supply 0 false) double_0_20).

Definition of_assert {A} (o : option A) : Decoded A := match o with Some x => Value x | None => Asserted end.

Definition base_reward (c : currency) (alreadyGeneratedCoins : Z) : Z :=
  let baseReward := u64 (moneySupply c - alreadyGeneratedCoins) .>> emissionSpeedFactor c in
  let baseReward := if alreadyGeneratedCoins =? 0 then 1 else baseReward in
  let baseReward := if alreadyGeneratedCoins =? 1 then fifth (moneySupply c) else baseReward in
  if moneySupply c <=? u64 (alreadyGeneratedCoins + baseReward) then 0 else baseReward.

(** Returns ([reward], [emissionChange]).  Shifting by 64, which the assertion lets pass, is undefined. *)
Definition getBlockReward (c : currency) (medianSize currentBlockSize alreadyGeneratedCoins fee : Z) : Decoded (Z * Z) :=
  _ ← massert (alreadyGeneratedCoins <=? moneySupply c);
  _ ← massert ((0 <? emissionSpeedFactor c) && (emissionSpeedFactor c <? 8 * 8));
  let baseReward := base_reward c alreadyGeneratedCoins in
  let medianSize := Z.max medianSize (blockGrantedFullRewardZone c) in
  if u64 (2 * medianSize) <? currentBlockSize then Rejected
  else
    penalizedBaseReward ← of_assert (get_penalized_amount baseReward medianSize currentBlockSize);
    penalizedFee ← of_assert (get_penalized_amount fee medianSize currentBlockSize);
    let emissionChange := i64 (u64 (penalizedBaseReward - u64 (fee - penalizedFee))) in
    let reward := u64 (penalizedBaseReward + penalizedFee) in
    Value (reward, emissionChange).

Definition maxBlockCumulativeSize (c : currency) (height : Z) : Decoded Z :=
  _ ← massert (height <=? (2 ^ 64 - 1) / maxBlockSizeGrowthSpeedNumerator c);
  let maxSize := u64 (maxBlockSizeInitial c + u64 (height * maxBlockSizeGrowthSpeedNumerator c) / maxBlockSizeGrowthSpeedDenominator c) in
  _ ← massert (maxBlockSizeInitial c <=? maxSize);
  Value maxSize.

(** [math::medianValue] *)
Definition medianValue (v : list Z) : Z :=
  match v with
  | [] => 0
  | [x] => x
  | _ =>
      let n := (length v / 2)%nat in
      let v := merge_sort Z.le v in
      if negb (length v mod 2 =? 0)%nat then v !!! n else u64 (v !!! (n - 1)%nat + v !!! n) / 2
  end.

(** [Blockchain::validate_miner_transaction], with the sizes of the last blocks. *)
Definition validate_miner_transaction (c : currency) (lastBlocksSizes : list Z) (b : block_t)
    (cumulativeBlockSize alreadyGeneratedCoins fee : Z) : Decoded (Z * Z) :=
  let minerReward := foldl (fun minerReward o => u64 (minerReward + out_amount o)) 0 (outputs (prefix (baseTransaction b))) in
  let blocksSizeMedian := medianValue lastBlocksSizes in
  '(reward, emissionChange) ← getBlockReward c blocksSizeMedian cumulativeBlockSize alreadyGeneratedCoins fee;
  if reward <? minerReward then Rejected
  else if minerReward <? reward then Rejected
  else Value (reward, emissionChange).

(** [Blockchain::prevalidate_miner_transaction] *)
Definition prevalidate_miner_transaction (c : currency) (b : block_t) (height : Z) : bool :=
  match inputs (prefix (baseTransaction b)) with
  | [base_input i] =>
      (blockIndex i =? height) && (unlockTime (prefix (baseTransaction b)) =? u64 (height + minedMoneyUnlockWindow c)) &&
      check_outs_overflow (prefix (baseTransaction b))
  | _ => false
  end.

(** ** Fusion transactions *)

(** 1, 2, ..., 9, 10, 20, ..., 9000000000000000000, 10000000000000000000 *)
Definition PRETTY_AMOUNTS : list Z :=
  mjoin ((fun p => (fun d => Z.of_nat d * 10 ^ Z.of_nat p) <$> seq 1 9) <$> seq 0 19) ++ [10000000000000000000].

Definition isFusionTransaction (c : currency) (inputsAmounts outputsAmounts : list Z) (size : Z) : bool :=
  if fusionTxMaxSize c <? size then false
  else if Z.of_nat (length inputsAmounts) <? fusionTxMinInputCount c then false
  else if Z.of_nat (length inputsAmounts) <? u64 (Z.of_nat (length outputsAmounts) * fusionTxMinInOutCountRatio c) then false
  else if existsb (fun amount => amount <? defaultDustThreshold c) inputsAmounts then false
  else
    let inputAmount := foldl (fun inputAmount amount => u64 (inputAmount + amount)) 0 inputsAmounts in
    let expectedOutputsAmounts := merge_sort Z.le (decomposeAmount inputAmount (defaultDustThreshold c) []) in
    bool_decide (expectedOutputsAmounts = outputsAmounts).

(** [std::lower_bound]: the position of the first amount not below. *)
Fixpoint lower_bound (l : list Z) (amount : Z) : nat :=
  match l with [] => O | x :: l => if x <? amount then S (lower_bound l amount) else O end.

(** Returns [amountPowerOfTen]. *)
Definition isAmountApplicableInFusionTransactionInput (c : currency) (amount threshold : Z) : option Z :=
  if threshold <=? amount then None
  else if amount <? defaultDustThreshold c then None
  else
    let it := lower_bound PRETTY_AMOUNTS amount in
    match PRETTY_AMOUNTS !! it with
    | None => None
    | Some a => if negb (amount =? a) then None else Some (u8 (Z.of_nat it / 9))
    end.

(** ** Amounts as text *)

(** [std::to_string] of a 64-bit number: twenty digits at most. *)
Fixpoint to_string (fuel : nat) (n : Z) : bytes :=
  match fuel with
  | O => []
  | S fuel => if n <? 10 then [48 + n] else to_string fuel (n / 10) ++ [48 + n mod 10]
  end.

Definition formatAmount (c : currency) (amount : Z) : bytes :=
  let s := to_string 20 amount in
  let s := if (length s <? numberOfDecimalPlaces c + 1)%nat then replicate (numberOfDecimalPlaces c + 1 - length s) 48 ++ s else s in
  let point := (length s - numberOfDecimalPlaces c)%nat in
  take point s ++ [46] ++ drop point s.

(** [formatAmount(int64_t)] *)
Definition formatAmount_signed (c : currency) (amount : Z) : bytes :=
  let s := formatAmount c (u64 (Z.abs amount)) in if amount <? 0 then 45 :: s else s.

Definition isspace (ch : Z) : bool := (ch =? 32) || ((9 <=? ch) && (ch <=? 13)).
Definition isdigit (ch : Z) : bool := (48 <=? ch) && (ch <=? 57).

Fixpoint trim_left (s : bytes) : bytes := match s with [] => [] | ch :: t => if isspace ch then trim_left t else s end.
Definition trim (s : bytes) : bytes := reverse (trim_left (reverse (trim_left s))).

Fixpoint find_first_of (ch : Z) (s : bytes) : option nat :=
  match s with [] => None | x :: s => if x =? ch then Some O else S <$> find_first_of ch s end.

(** The loop that drops zeros after the last place. *)
Fixpoint drop_zeros (fuel places : nat) (s : bytes) (fractionSize : nat) : bytes * nat :=
  match fuel with
  | O => (s, fractionSize)
  | S fuel =>
      if (places <? fractionSize)%nat && bool_decide (list.last s = Some 48) then drop_zeros fuel places (take (length s - 1) s) (fractionSize - 1)
      else (s, fractionSize)
  end.

(** [binary::is::from] on digits: the number, which must fit in 64 bits. *)
Definition number (s : bytes) : Z := foldl (fun v ch => 10 * v + (ch - 48)) 0 s.
Definition is_from (s : bytes) : option Z := if number s <? 2 ^ 64 then Some (number s) else None.

Definition parseAmount (c : currency) (str : bytes) : option Z :=
  let places := numberOfDecimalPlaces c in
  let strAmount := trim str in
  p ← match find_first_of 46 strAmount with
      | Some pointIndex =>
          let '(strAmount, fractionSize) := drop_zeros (length strAmount) places strAmount (length strAmount - pointIndex - 1) in
          if (places <? fractionSize)%nat then None else Some (take pointIndex strAmount ++ drop (pointIndex + 1) strAmount, fractionSize)
      | None => Some (strAmount, O)
      end;
  let '(strAmount, fractionSize) := p in
  match strAmount with
  | [] => None
  | _ =>
      if negb (forallb isdigit strAmount) then None
      else is_from (if (fractionSize <? places)%nat then strAmount ++ replicate (places - fractionSize) 48 else strAmount)
  end.

(** The sizes in bytes of the parts of a transaction. *)
Definition getApproximateMaximumInputCount (transactionSize outputCount mixinCount : Z) : Z :=
  let outputsSize := u64 (outputCount * (1 + 32 + 10)) in
  let headerSize := 1 + 8 + 1 + 32 in
  let inputSize := u64 (1 + 10 + 32 + 64 + 1 + 4 + mixinCount * (4 + 64)) in
  u64 (u64 (transactionSize - headerSize) - outputsSize) / inputSize.

(** ** Rewards are exact *)

Definition currency_ok (c : currency) : Prop :=
  2 <= moneySupply c < 2 ^ 63 /\ 0 < emissionSpeedFactor c < 64 /\ 0 <= blockGrantedFullRewardZone c < 2 ^ 32 /\ 0 <= fifth (moneySupply c) < 2 ^ 63.

Lemma builder_ok : currency_ok builder.
Proof. split_and!; vm_compute; congruence. Qed.

(** What a block of size [cur] keeps of an amount, for a median size [m]. *)
Definition penalized (m cur amount : Z) : Z := if cur <=? m then amount else amount * (cur * (2 * m - cur)) / (m * m).

Lemma penalized_bound m cur amount : 0 <= amount -> 0 <= m -> 0 <= cur <= 2 * m -> 0 <= penalized m cur amount <= amount.
Proof.
  intros Ha Hm Hc. unfold penalized. destruct (Z.leb_spec cur m); [lia|]. pose proof (penalty_factor cur m ltac:(lia) ltac:(lia)) as F.
  split; [apply Z.div_pos; nia|]. apply Z.div_le_upper_bound; [nia|]. nia.
Qed.

Lemma base_reward_bound c g : currency_ok c -> 0 <= g <= moneySupply c -> 0 <= base_reward c g /\ (base_reward c g = 0 \/ g + base_reward c g < moneySupply c).
Proof.
  intros (Hs & He & _ & Hf) Hg. unfold base_reward.
  assert (B : 0 <= u64 (moneySupply c - g) .>> emissionSpeedFactor c <= moneySupply c - g).
  { rewrite wrap_small by (unfold is_word; lia). rewrite Z.shiftr_div_pow2 by lia. split; [apply Z.div_pos; lia|]. apply Z.div_le_upper_bound; [lia|].
    assert (1 <= 2 ^ emissionSpeedFactor c) by lia. nia. }
  set (b := u64 _ .>> _) in *. clearbody b. destruct (Z.eqb_spec g 0) as [->|].
  - replace (0 =? 1) with false by done. rewrite wrap_small by done. destruct (Z.leb_spec (moneySupply c) (0 + 1)); lia.
  - destruct (Z.eqb_spec g 1) as [->|].
    + rewrite wrap_small by (unfold is_word; lia). destruct (Z.leb_spec (moneySupply c) (1 + fifth (moneySupply c))); lia.
    + rewrite wrap_small by (unfold is_word; lia). destruct (Z.leb_spec (moneySupply c) (g + b)); lia.
Qed.

Lemma reward_exact c median cur g fee : currency_ok c -> 0 <= median < 2 ^ 32 -> 0 <= cur < 2 ^ 32 -> 0 <= g <= moneySupply c -> 0 <= fee < 2 ^ 63 ->
  let m := Z.max median (blockGrantedFullRewardZone c) in
  getBlockReward c median cur g fee =
    if 2 * m <? cur then Rejected
    else let base := penalized m cur (base_reward c g) in let kept := penalized m cur fee in Value (base + kept, base - (fee - kept)).
Proof.
  intros Hc Hm Hcur Hg Hf m. pose proof (base_reward_bound c g Hc Hg) as B. destruct Hc as (Hs & He & Hz & _). unfold getBlockReward, massert.
  replace (g <=? moneySupply c) with true by lia. replace ((0 <? emissionSpeedFactor c) && (emissionSpeedFactor c <? 8 * 8)) with true by lia.
  cbn [mbind decoded_bind]. fold m. assert (Hm' : 0 <= m < 2 ^ 32) by lia. rewrite (wrap_small 64 (2 * m)) by (unfold is_word; lia).
  destruct (Z.ltb_spec (2 * m) cur); [done|]. rewrite !penalty_exact by (unfold is_word; lia). cbn [of_assert mbind decoded_bind].
  fold (penalized m cur (base_reward c g)) (penalized m cur fee). pose proof (penalized_bound m cur (base_reward c g) ltac:(lia) ltac:(lia) ltac:(lia)) as P1.
  pose proof (penalized_bound m cur fee ltac:(lia) ltac:(lia) ltac:(lia)) as P2. set (x := penalized m cur (base_reward c g)) in *. set (y := penalized m cur fee) in *.
  rewrite (wrap_small 64 (fee - y)) by (unfold is_word; lia). rewrite (wrap_small 64 (x + y)) by (unfold is_word; lia). do 2 f_equal.
  unfold swrap, wrap. rewrite Z.add_mod_idemp_l by lia. change (2 ^ (64 - 1)) with (2 ^ 63). rewrite Z.mod_small by lia. lia.
Qed.

(** C23: The block reward in exact integers.  For sizes below 2^32 and a state
    of the chain within the supply, [getBlockReward] passes every assertion;
    it rejects exactly the blocks above twice the median (or the granted
    zone); otherwise the miner gets the base reward and the fees, each less
    the quadratic penalty, no 64-bit operation wraps, and money is conserved:
    the miner receives the fees plus the change of the emission, and the new
    total is never above the supply. *)
Theorem block_reward_exact c median cur generated fee : currency_ok c -> 0 <= median < 2 ^ 32 -> 0 <= cur < 2 ^ 32 ->
  0 <= generated <= moneySupply c -> 0 <= fee < 2 ^ 63 ->
  let m := Z.max median (blockGrantedFullRewardZone c) in
  match getBlockReward c median cur generated fee with
  | Asserted => False
  | Rejected => 2 * m < cur
  | Value (reward, emissionChange) => cur <= 2 * m /\
      reward = penalized m cur (base_reward c generated) + penalized m cur fee /\ reward = fee + emissionChange /\
      (cur <= m -> emissionChange = base_reward c generated) /\ generated - fee <= generated + emissionChange <= moneySupply c
  end.
Proof.
  intros Hc Hm Hcur Hg Hf m. rewrite reward_exact by done. cbn zeta. fold m. destruct (Z.ltb_spec (2 * m) cur); [done|].
  assert (Hz : 0 <= m) by (unfold m; lia). pose proof (base_reward_bound c generated Hc Hg) as B.
  pose proof (penalized_bound m cur (base_reward c generated) ltac:(lia) Hz ltac:(lia)). pose proof (penalized_bound m cur fee ltac:(lia) Hz ltac:(lia)).
  split_and!; [lia|lia|lia| |lia|lia]. unfold penalized. intros. destruct (Z.leb_spec cur m); lia.
Qed.

Lemma block_reward_exact_witness :
  match getBlockReward builder 12000 15000 2000000000000001 700 with
  | Asserted => False
  | Rejected => 2 * 12000 < 15000
  | Value (reward, emissionChange) => 15000 <= 2 * 12000 /\
      reward = penalized 12000 15000 (base_reward builder 2000000000000001) + penalized 12000 15000 700 /\ reward = 700 + emissionChange /\
      (15000 <= 12000 -> emissionChange = base_reward builder 2000000000000001) /\ 2000000000000001 - 700 <= 2000000000000001 + emissionChange <= 10000000000000000
  end.
Proof. apply (block_reward_exact builder 12000 15000 2000000000000001 700); [apply builder_ok|cbn; lia..]. Defined.

(** ** The emission *)

(** The fees that the penalty of a block burns are covered by the coins
    generated up to and with this block.  No code checks this: it is a
    property of the transactions of the block, whose fees were generated
    before, and a block that is not penalised burns nothing. *)
Definition covered (c : currency) (sizes : list Z) (size generated fee : Z) : Prop :=
  let m := Z.max (medianValue sizes) (blockGrantedFullRewardZone c) in
  fee - penalized m size fee <= generated + penalized m size (base_reward c generated).

(** The coins generated by a chain of blocks: every block is validated on the
    total of the blocks before it, and the total stored with the block is the
    wrapped sum, as in [Blockchain::pushBlock]. *)
Inductive emitted (c : currency) : Z -> Prop :=
  | emitted_none : emitted c 0
  | emitted_block generated sizes b size fee reward change : emitted c generated ->
      Forall (fun s => 0 <= s < 2 ^ 32) sizes -> 0 <= size < 2 ^ 32 -> 0 <= fee < 2 ^ 63 -> covered c sizes size generated fee ->
      validate_miner_transaction c sizes b size generated fee = Value (reward, change) ->
      emitted c (u64 (generated + change)).

Lemma median_bound v : Forall (fun s => 0 <= s < 2 ^ 32) v -> 0 <= medianValue v < 2 ^ 32.
Proof.
  intros H. unfold medianValue. destruct v as [|x [|y v]]; [lia|by apply Forall_cons_1 in H as [? _]|].
  set (l := x :: y :: v) in *. assert (Hs : Forall (fun s => 0 <= s < 2 ^ 32) (merge_sort Z.le l)) by (by rewrite merge_sort_Permutation).
  assert (Hl : length (merge_sort Z.le l) = length l) by (apply Permutation_length, merge_sort_Permutation). rewrite Hl.
  assert (L2 : (2 <= length l)%nat) by (cbn; lia). assert (Hn : (length l / 2 < length l)%nat) by (apply Nat.div_lt; lia).
  rewrite list.Forall_forall in Hs. assert (A : forall i, (i < length l)%nat -> 0 <= merge_sort Z.le l !!! i < 2 ^ 32).
  { intros i Hi. apply Hs, list_elem_of_lookup_total_2. lia. }
  pose proof (A (length l / 2)%nat Hn) as A1. pose proof (A (length l / 2 - 1)%nat ltac:(lia)) as A2. destruct (negb _); [done|].
  rewrite wrap_small by (unfold is_word; lia). split; [apply Z.div_pos; lia|apply Z.div_lt_upper_bound; lia].
Qed.

(** What the change of the emission is, for any fees. *)
Lemma validated_change c sizes b size g fee reward change : currency_ok c -> Forall (fun s => 0 <= s < 2 ^ 32) sizes -> 0 <= size < 2 ^ 32 ->
  0 <= g <= moneySupply c -> 0 <= fee < 2 ^ 63 -> validate_miner_transaction c sizes b size g fee = Value (reward, change) ->
  - 2 ^ 63 < g + change <= moneySupply c /\ (covered c sizes size g fee <-> 0 <= g + change) /\
  (size <= Z.max (medianValue sizes) (blockGrantedFullRewardZone c) -> covered c sizes size g fee).
Proof.
  intros Hc Hsz Hsize Hg Hf E. unfold validate_miner_transaction in E. pose proof (median_bound sizes Hsz) as Hmed. rewrite reward_exact in E by done. cbn zeta in E.
  unfold covered. set (m := Z.max (medianValue sizes) (blockGrantedFullRewardZone c)) in *. destruct (Z.ltb_spec (2 * m) size); [done|]. cbn [mbind decoded_bind] in E.
  destruct (_ <? _); [done|]. destruct (_ <? _); [done|]. injection E as <- <-. pose proof (base_reward_bound c g Hc Hg) as B.
  pose proof (penalized_bound m size (base_reward c g) ltac:(lia) ltac:(lia) ltac:(lia)). pose proof (penalized_bound m size fee ltac:(lia) ltac:(lia) ltac:(lia)).
  split_and!; [lia|lia|lia|]. intros Hs. unfold penalized in *. replace (size <=? m) with true in * by lia. lia.
Qed.

Lemma emitted_bound c g : currency_ok c -> emitted c g -> 0 <= g <= moneySupply c.
Proof.
  intros Hc H. induction H as [|g sizes b size fee reward change H IH Hsz Hsize Hf Hv E]; [destruct Hc; lia|].
  destruct (validated_change c sizes b size g fee reward change Hc Hsz Hsize IH Hf E) as (B & K & _). apply K in Hv. destruct Hc. rewrite wrap_small by (unfold is_word; lia). lia.
Qed.


(** A block with one output, for the amount of the reward. *)
Definition paying (amount : Z) : block_t := mkblock (mkheader 1 0 0 0 []) (mktransaction (mkprefix 1 60 [] [mkoutput amount (key_output (mkkey_output []))] []) []) [].


(** ** Amounts as text are exact *)

Lemma number_app l k : number (l ++ k) = foldl (fun v ch => 10 * v + (ch - 48)) (number l) k.
Proof. unfold number. apply foldl_app. Qed.

Lemma to_string_ok fuel n : 0 <= n < 10 ^ Z.of_nat fuel -> forallb isdigit (to_string fuel n) = true /\ number (to_string fuel n) = n /\ ((0 < fuel)%nat -> to_string fuel n <> []).
Proof.
  revert n. induction fuel as [|fuel IH]; intros n Hn; [cbn in *; split_and!; [done|lia|lia]|]. cbn [to_string]. destruct (Z.ltb_spec n 10).
  - unfold number, isdigit. cbn. split_and!; [lia|lia|done].
  - rewrite Nat2Z.inj_succ, Z.pow_succ_r in Hn by lia. destruct (IH (n / 10)) as (D & V & _); [split; [apply Z.div_pos; lia|apply Z.div_lt_upper_bound; lia]|].
    pose proof (Z.mod_pos_bound n 10 ltac:(lia)). rewrite forallb_app, D, number_app, V. cbn. unfold isdigit. pose proof (Z.div_mod n 10).
    split_and!; [lia|lia|]. intros _ E. by apply app_nil in E as [_ ?].
Qed.

Lemma number_zeros n l : number (replicate n 48 ++ l) = number l.
Proof. induction n as [|n IH]; [done|]. exact IH. Qed.

Lemma find_point s t : forallb isdigit s = true -> find_first_of 46 (s ++ 46 :: t) = Some (length s).
Proof.
  induction s as [|x s IH]; [done|]. cbn [forallb app find_first_of length]. intros [Hx Hs]%andb_true_iff. unfold isdigit in Hx.
  destruct (Z.eqb_spec x 46); [lia|]. by rewrite IH.
Qed.

Lemma trim_none s : forallb (fun ch => negb (isspace ch)) s = true -> trim s = s.
Proof.
  intros H. assert (L : forall t, forallb (fun ch => negb (isspace ch)) t = true -> trim_left t = t).
  { intros [|ch t]; [done|]. cbn. destruct (isspace ch); [done|done]. }
  unfold trim. rewrite (L s H). rewrite L, reverse_involutive; [done|]. apply forallb_forall. rewrite forallb_forall in H. intros x Hx. apply H.
  apply list_elem_of_In, elem_of_reverse, list_elem_of_In. exact Hx.
Qed.

Lemma digits_trim s : forallb isdigit s = true -> forallb (fun ch => negb (isspace ch)) s = true.
Proof. rewrite !forallb_forall. intros H x Hx. specialize (H x Hx). unfold isdigit, isspace in *. lia. Qed.

Lemma drop_zeros_none fuel places s n : (n <= places)%nat -> drop_zeros fuel places s n = (s, n).
Proof. intros H. destruct fuel; [done|]. cbn [drop_zeros]. by replace (places <? n)%nat with false by lia. Qed.

(** An amount survives the way through text: [parseAmount] of what
    [formatAmount] prints is the amount, for every 64-bit amount and every
    number of decimal places, the leading zeros and the point included. *)
Theorem amount_text_roundtrip c amount : is_u64 amount -> parseAmount c (formatAmount c amount) = Some amount.
Proof.
  intros Ha. unfold is_word in Ha. destruct (to_string_ok 20 amount) as (D & V & N); [assert (2 ^ 64 < 10 ^ Z.of_nat 20) by reflexivity; lia|].
  unfold formatAmount. set (places := numberOfDecimalPlaces c). generalize dependent (to_string 20 amount). intros s0 D V N. specialize (N ltac:(lia)).
  set (s := if (length s0 <? places + 1)%nat then _ else s0). assert (Hs : forallb isdigit s = true /\ number s = amount /\ (places + 1 <= length s)%nat).
  { unfold s. destruct (Nat.ltb_spec (length s0) (places + 1)); [|done]. rewrite number_zeros, length_app, length_replicate, forallb_app, D, andb_true_r.
    split_and!; [|done|lia]. apply forallb_forall. intros x Hx%list_elem_of_In. apply elem_of_replicate in Hx as [-> _]. done. }
  clearbody s. destruct Hs as (Ds & Vs & Ls). set (k := (length s - places)%nat). cbn zeta.
  assert (Dk : forallb isdigit (take k s) = true /\ forallb isdigit (drop k s) = true) by (rewrite <- (take_drop k s), forallb_app in Ds; by apply andb_true_iff in Ds).
  destruct Dk as [D1 D2]. assert (Lk : length (take k s) = k) by (rewrite length_take; lia). assert (Ld : length (drop k s) = places) by (rewrite length_drop; lia).
  unfold parseAmount. fold places. rewrite trim_none by (rewrite !forallb_app, (digits_trim _ D1), (digits_trim _ D2); done). cbn [app].
  rewrite find_point by done. rewrite length_app, Lk. cbn [length]. rewrite Ld, drop_zeros_none by lia.
  replace (places <? k + S places - k - 1)%nat with false by lia.
  assert (E : take k (take k s ++ 46 :: drop k s) ++ drop (k + 1) (take k s ++ 46 :: drop k s) = s).
  { rewrite take_app_length' by done. rewrite <- drop_drop, drop_app_length' by done. cbn. by rewrite drop_0, take_drop. }
  rewrite E. cbn [mbind option_bind]. destruct s as [|x t]; [cbn in Ls; lia|]. rewrite Ds. cbn [negb].
  replace (k + S places - k - 1 <? places)%nat with false by lia. unfold is_from. rewrite Vs. by destruct (Z.ltb_spec amount (2 ^ 64)); [|lia].
Qed.

Lemma amount_text_roundtrip_witness : parseAmount builder (formatAmount builder 1234567) = Some 1234567.
Proof. apply (amount_text_roundtrip builder 1234567). by vm_compute. Defined.

(** ** Fusion *)

Lemma lower_bound_found l a i : lower_bound l a = i -> l !! i = Some a -> a ∈ l.
Proof. intros _ H. by eapply list_elem_of_lookup_2. Qed.

Fixpoint increasing (l : list Z) : bool := match l with x :: (y :: _) as t => (x <? y) && increasing t | _ => true end.

Lemma lower_bound_at l i a : increasing l = true -> l !! i = Some a -> lower_bound l a = i.
Proof.
  revert i. induction l as [|x l IH]; intros i Hs Hi; [done|]. destruct i as [|i].
  - injection Hi as ->. cbn. by rewrite Z.ltb_irrefl.
  - cbn [lookup list_lookup] in Hi. assert (Hx : forall l x, increasing (x :: l) = true -> forall j y, l !! j = Some y -> x < y).
    { clear. induction l as [|z l IH]; intros x Hs j y Hj; [done|]. cbn [increasing] in Hs. apply andb_true_iff in Hs as [H1 H2]. destruct j as [|j]; [injection Hj as ->; lia|].
      pose proof (IH z H2 j y Hj). lia. }
    cbn [lower_bound]. pose proof (Hx l x Hs i a Hi). destruct (Z.ltb_spec x a); [|lia]. f_equal. apply IH; [|done].
    destruct l; [done|]. cbn [increasing] in Hs. by apply andb_true_iff in Hs as [_ ?].
Qed.

(** The table: position [9 p + d - 1] holds [d] times the [p]-th power of ten. *)
Lemma pretty_table : increasing PRETTY_AMOUNTS = true /\
  forallb (fun i => match PRETTY_AMOUNTS !! i with Some a => a =? (Z.of_nat i mod 9 + 1) * 10 ^ (Z.of_nat i / 9) | None => false end) (seq 0 172) = true /\ length PRETTY_AMOUNTS = 172%nat.
Proof. split_and!; vm_compute; reflexivity. Qed.

Lemma pretty_at i : (i < 172)%nat -> PRETTY_AMOUNTS !! i = Some ((Z.of_nat i mod 9 + 1) * 10 ^ (Z.of_nat i / 9)).
Proof.
  intros Hi. destruct pretty_table as (_ & T & _). rewrite forallb_forall in T. specialize (T i ltac:(apply in_seq; lia)).
  destruct (PRETTY_AMOUNTS !! i); [|done]. apply Z.eqb_eq in T. by rewrite T.
Qed.

(** [isAmountApplicableInFusionTransactionInput] accepts exactly the
    amounts between the dust threshold and the given one that are a single
    decimal digit times a power of ten, and returns that power. *)
Theorem fusion_amount_exact c amount threshold p : is_u64 amount ->
  isAmountApplicableInFusionTransactionInput c amount threshold = Some p <->
  defaultDustThreshold c <= amount < threshold /\ 0 <= p /\ exists d, 1 <= d <= 9 /\ amount = d * 10 ^ p.
Proof.
  intros Ha. unfold isAmountApplicableInFusionTransactionInput. destruct pretty_table as (S & _ & L). split.
  - destruct (Z.leb_spec threshold amount); [done|]. destruct (Z.ltb_spec amount (defaultDustThreshold c)); [done|]. generalize (lower_bound PRETTY_AMOUNTS amount). intros i.
    destruct (PRETTY_AMOUNTS !! i) as [a|] eqn:E; [|done]. destruct (Z.eqb_spec amount a) as [->|]; [|done]. cbn [negb]. intros [= <-].
    assert (Hi : (i < 172)%nat) by (rewrite <- L; by apply lookup_lt_Some in E). rewrite pretty_at in E by done. injection E as <-.
    assert (Hq : 0 <= Z.of_nat i / 9 < 20) by (split; [apply Z.div_pos; lia|apply Z.div_lt_upper_bound; lia]). rewrite wrap_small by (unfold is_word; change (2 ^ 8) with 256; lia).
    split_and!; [lia|lia|lia|]. exists (Z.of_nat i mod 9 + 1). pose proof (Z.mod_pos_bound (Z.of_nat i) 9 ltac:(lia)). split; [lia|done].
  - intros ([H1 H2] & Hp & d & Hd & ->). replace (threshold <=? d * 10 ^ p) with false by lia. replace (d * 10 ^ p <? defaultDustThreshold c) with false by lia.
    assert (P20 : p < 20).
    { destruct (Z.lt_ge_cases p 20) as [|Hge]; [done|]. exfalso. assert (10 ^ 20 <= 10 ^ p) by (apply Z.pow_le_mono_r; lia). assert (2 ^ 64 < 10 ^ 20) by reflexivity.
      unfold is_word in Ha. nia. }
    assert (Pd : p = 19 -> d = 1).
    { intros ->. unfold is_word in Ha. assert (2 ^ 64 < 2 * 10 ^ 19) by reflexivity. nia. }
    set (i := Z.to_nat (9 * p + d - 1)). assert (Hi : (i < 172)%nat) by (unfold i; destruct (Z.eq_dec p 19); lia).
    assert (E : PRETTY_AMOUNTS !! i = Some (d * 10 ^ p)).
    { rewrite pretty_at by done. do 2 f_equal; unfold i; rewrite Z2Nat.id by lia; Z.to_euclidean_division_equations; [|f_equal]; lia. }
    rewrite (lower_bound_at _ i _ S E), E, Z.eqb_refl. cbn [negb]. f_equal. unfold i. rewrite Z2Nat.id by lia.
    replace ((9 * p + d - 1) / 9) with p by (Z.to_euclidean_division_equations; lia). apply wrap_small. unfold is_word. change (2 ^ 8) with 256. lia.
Qed.

Lemma fusion_amount_exact_witness : isAmountApplicableInFusionTransactionInput builder 7000 10000 = Some 3 <->
  defaultDustThreshold builder <= 7000 < 10000 /\ 0 <= 3 /\ exists d, 1 <= d <= 9 /\ 7000 = d * 10 ^ 3.
Proof. apply (fusion_amount_exact builder 7000 10000 3). by vm_compute. Defined.

(** A fusion transaction pays no fee: its outputs are the sorted digits of its inputs. *)
Lemma fusion_conserves c ins outs size : isFusionTransaction c ins outs size = true -> Forall is_u64 ins -> total ins < 2 ^ 64 -> 0 <= defaultDustThreshold c ->
  total outs = total ins /\ (exists parts, outs = merge_sort Z.le (part_amount <$> parts) /\ Forall (part_ok (defaultDustThreshold c)) parts).
Proof.
  unfold isFusionTransaction. intros E Hi Ht Hd. destruct (_ <? _); [done|]. destruct (_ <? _); [done|]. destruct (_ <? _); [done|]. destruct (existsb _ _); [done|].
  apply bool_decide_eq_true_1 in E. subst outs. assert (H0 : 0 <= total ins) by (apply total_nonneg; eapply list.Forall_impl; [exact Hi|intros ? [? _]; done]).
  pose proof (sum_eq (fun x => x) ins) as Es. rewrite list_fmap_id, wrap_small in Es by (unfold is_word; lia). rewrite Es.
  destruct (decompose_exact (total ins) (defaultDustThreshold c) ltac:(unfold is_word; lia) Hd) as (T & F & _). unfold decomposeAmount. cbn [app]. split.
  - rewrite <- T at 2. generalize (part_amount <$> decompose_amount_into_digits (total ins) (defaultDustThreshold c)). intros l.
    unfold total. apply (foldr_permutation_proper (=) Z.add 0); [intros; lia|apply merge_sort_Permutation].
  - eexists. split; [reflexivity|done].
Qed.
