(* ===== verification/BlockStore.v ===== *)
(** * Block storage: src/src/cryptonote/core/blockchain/block.hpp

    [BlockAccessor<T>]: a vector of items in a file, with an index file of item
    sizes and a cache of the items used last.  A file is its bytes; positions
    in files and counts of items are [nat].  The items are written and read by
    stream operators, which are arguments.

    The abstract component is a list.  While no more items are stored than the
    cache holds and the files are not opened again, every operation refines the
    one on lists, whatever the stream operators read back: every answer comes
    from the cache.  With operators that read back what they wrote
    ([Readable]) this holds for any number of items and across reopening.  The
    program stores [block_entry_t], whose operators do not read back what they
    wrote (see [stored_block_corrupted]): for it only the first part applies,
    to the [getPoolSize] first blocks of a chain. *)

From stdpp Require Import gmap.
From S2P Require Import Prelude Stream Types Currency StreamCodec.

(** [seekp(pos)] and a write, zeros filling a gap. *)
Definition file_write (file : bytes) (pos : nat) (data : bytes) : bytes :=
  let file := file ++ replicate (pos - length file) 0 in
  take pos file ++ data ++ drop (pos + length data) file.

Section Accessor.
Context {A : Type} (write : A -> option bytes) (read : Reader A) (m_poolSize : nat).

Record accessor := mkaccessor {
  m_itemsFile : bytes;
  m_indexes : bytes;
  m_offsets : list nat;
  m_itemsFileSize : nat;
  m_items : gmap nat A;
  m_cache : list nat;
  m_cacheHits : Z;
  m_cacheMisses : Z;
}.

(** ** Opening *)

(** [readItems]: the offsets and the size of the items file, from [count] sizes of 4 bytes. *)
Fixpoint readItems (count : nat) (fs : bytes) (itemsFileSize : nat) : list nat * nat :=
  match count with
  | O => ([], itemsFileSize)
  | S count =>
      let itemSize := Z.to_nat (le (take 4 fs)) in
      let '(offsets, size) := readItems count (drop 4 fs) (itemsFileSize + itemSize) in
      (itemsFileSize :: offsets, size)
  end.

(** [initIndex]: [None] for a file that does not exist; a result [None] when the file is too short. *)
Definition initIndex (indexes : option bytes) : option (bytes * list nat * nat) :=
  match indexes with
  | Some fs =>
      if (length fs <? 8)%nat then None
      else
        let count := le (take 8 fs) in
        if 8 + 4 * count <=? Z.of_nat (length fs) then
          let '(offsets, size) := readItems (Z.to_nat count) (drop 8 fs) 0 in Some (fs, offsets, size)
        else None
  | None => Some (le_bytes 8 0, [], 0%nat)
  end.

Definition init (itemsFile indexes : option bytes) : option accessor :=
  '(fs, offsets, size) ← initIndex indexes;
  Some (mkaccessor (default [] itemsFile) fs offsets size ∅ [] 0 0).

(** ** Access *)

Definition set_cache (s : accessor) (items : gmap nat A) (cache : list nat) : accessor :=
  mkaccessor (m_itemsFile s) (m_indexes s) (m_offsets s) (m_itemsFileSize s) items cache (m_cacheHits s) (m_cacheMisses s).
Definition hit (s : accessor) : accessor :=
  mkaccessor (m_itemsFile s) (m_indexes s) (m_offsets s) (m_itemsFileSize s) (m_items s) (m_cache s) (u64 (m_cacheHits s + 1)) (m_cacheMisses s).
Definition miss (s : accessor) : accessor :=
  mkaccessor (m_itemsFile s) (m_indexes s) (m_offsets s) (m_itemsFileSize s) (m_items s) (m_cache s) (m_cacheHits s) (u64 (m_cacheMisses s + 1)).

(** [prepare] and the assignment to the new item: the oldest entry leaves a full cache. *)
Definition prepare (s : accessor) (index : nat) (item : A) : accessor :=
  let '(items, cache) :=
    if (size (m_items s) =? m_poolSize)%nat then
      match m_cache s with
      | oldest :: cache => (delete oldest (m_items s), cache)
      | [] => (m_items s, [])
      end
    else (m_items s, m_cache s) in
  set_cache s (<[index := item]> items) (cache ++ [index]).

(** [operator[]]: [None] is the exception.  What a failed read leaves in the stream is not modelled. *)
Definition at_index (s : accessor) (index : nat) : option A * accessor :=
  match m_items s !! index with
  | Some item =>
      let cache := if bool_decide (list.last (m_cache s) = Some index) then m_cache s else filter (.≠ index) (m_cache s) ++ [index] in
      (Some item, hit (set_cache s (m_items s) cache))
  | None =>
      match m_offsets s !! index with
      | None => (None, s)
      | Some offset =>
          match read (drop offset (m_itemsFile s)) with
          | None => (None, s)
          | Some (item, _) => (Some item, miss (prepare s index item))
          end
      end
  end.

Definition front (s : accessor) : option A * accessor := at_index s 0.
(** On an empty storage [size() - 1] is no index. *)
Definition back (s : accessor) : option A * accessor :=
  match m_offsets s with [] => (None, s) | _ => at_index s (length (m_offsets s) - 1) end.
Definition empty (s : accessor) : bool := match m_offsets s with [] => true | _ => false end.
Definition store_size (s : accessor) : nat := length (m_offsets s).

(** ** Changes *)

Definition clear (s : accessor) : accessor :=
  mkaccessor (m_itemsFile s) (file_write (m_indexes s) 0 (le_bytes 8 0)) [] 0 ∅ [] (m_cacheHits s) (m_cacheMisses s).

(** [None]: the vector is empty, which the source leaves undefined. *)
Definition pop_back (s : accessor) : option accessor :=
  last_offset ← list.last (m_offsets s);
  let count := (length (m_offsets s) - 1)%nat in
  let indexes := file_write (m_indexes s) 0 (le_bytes 8 (Z.of_nat count)) in
  let offsets := take count (m_offsets s) in
  let '(items, cache) :=
    match m_items s !! count with
    | Some _ => (delete count (m_items s), filter (.≠ count) (m_cache s))
    | None => (m_items s, m_cache s)
    end in
  Some (mkaccessor (m_itemsFile s) indexes offsets last_offset items cache (m_cacheHits s) (m_cacheMisses s)).

(** [None]: the writer throws. *)
Definition push_back (s : accessor) (item : A) : option accessor :=
  data ← write item;
  let file := file_write (m_itemsFile s) (m_itemsFileSize s) data in
  let itemsFileSize := (m_itemsFileSize s + length data)%nat in
  let itemSize := u32 (Z.of_nat (itemsFileSize - m_itemsFileSize s)) in
  let n := length (m_offsets s) in
  let indexes := file_write (m_indexes s) (8 + 4 * n) (le_bytes 4 itemSize) in
  let indexes := file_write indexes 0 (le_bytes 8 (Z.of_nat (n + 1))) in
  let s := mkaccessor file indexes (m_offsets s ++ [m_itemsFileSize s]) itemsFileSize (m_items s) (m_cache s) (m_cacheHits s) (m_cacheMisses s) in
  Some (prepare s n item).

(** ** Runs *)

Inductive call := Push (item : A) | Pop | Get (index : nat) | Front | Back | Clear | Size | Reopen.
Inductive answer := Item (item : option A) | Count (n : nat) | Done.

Definition step (s : accessor) (c : call) : option (accessor * answer) :=
  match c with
  | Push item => s ← push_back s item; Some (s, Done)
  | Pop => s ← pop_back s; Some (s, Done)
  | Get index => let '(r, s) := at_index s index in Some (s, Item r)
  | Front => let '(r, s) := front s in Some (s, Item r)
  | Back => let '(r, s) := back s in Some (s, Item r)
  | Clear => Some (clear s, Done)
  | Size => Some (s, Count (store_size s))
  | Reopen => s ← init (Some (m_itemsFile s)) (Some (m_indexes s)); Some (s, Done)
  end.

Fixpoint run (s : accessor) (calls : list call) : option (list answer) :=
  match calls with
  | [] => Some []
  | c :: calls => '(s, a) ← step s c; l ← run s calls; Some (a :: l)
  end.

(** ** The abstract vector *)

Definition list_step (l : list A) (c : call) : list A * answer :=
  match c with
  | Push item => (l ++ [item], Done)
  | Pop => (take (length l - 1) l, Done)
  | Get index => (l, Item (l !! index))
  | Front => (l, Item (head l))
  | Back => (l, Item (list.last l))
  | Clear => ([], Done)
  | Size => (l, Count (length l))
  | Reopen => (l, Done)
  end.

Fixpoint list_run (l : list A) (calls : list call) : list answer :=
  match calls with
  | [] => []
  | c :: calls => let '(l, a) := list_step l c in a :: list_run l calls
  end.

(** The calls a client may make: items that fit the format, no [pop_back] of an empty vector. *)
Definition allowed (valid : A -> Prop) (l : list A) (c : call) : Prop :=
  match c with
  | Push item => valid item /\ (forall bs, write item = Some bs -> Z.of_nat (length bs) < 2 ^ 32) /\ Z.of_nat (length l) + 1 < 2 ^ 64
  | Pop => l <> []
  | _ => True
  end.

Fixpoint all_allowed (valid : A -> Prop) (l : list A) (calls : list call) : Prop :=
  match calls with
  | [] => True
  | c :: calls => allowed valid l c /\ all_allowed valid (list_step l c).1 calls
  end.

(** The calls while everything is in the cache: appending an item that can be
    written to fewer than [m_poolSize] items, no [pop_back] of an empty vector,
    no reopening. *)
Definition cacheable (l : list A) (c : call) : Prop :=
  match c with
  | Push item => is_Some (write item) /\ (length l < m_poolSize)%nat
  | Pop => l <> []
  | Reopen => False
  | _ => True
  end.

Fixpoint all_cacheable (l : list A) (calls : list call) : Prop :=
  match calls with
  | [] => True
  | c :: calls => cacheable l c /\ all_cacheable (list_step l c).1 calls
  end.
End Accessor.

Arguments accessor : clear implicits.
Arguments call : clear implicits.
Arguments answer : clear implicits.

(** ** Files *)

Lemma file_write_end p d junk : exists junk', file_write (p ++ junk) (length p) d = p ++ d ++ junk'.
Proof.
  unfold file_write. replace (length p - length (p ++ junk))%nat with 0%nat by (rewrite length_app; lia). cbn [replicate]. rewrite app_nil_r, take_app_length.
  by eexists.
Qed.

Lemma file_write_start a b d : length a = length d -> file_write (a ++ b) 0 d = d ++ b.
Proof. intros H. unfold file_write. cbn [Nat.sub replicate Nat.add take app]. rewrite app_nil_r, <- H. by rewrite drop_app_length. Qed.

(** The offsets of consecutive items. *)
Fixpoint offsets_of (base : nat) (encs : list bytes) : list nat :=
  match encs with [] => [] | b :: encs => base :: offsets_of (base + length b) encs end.

Definition sizes_of (encs : list bytes) : bytes := mjoin ((fun b => le_bytes 4 (Z.of_nat (length b))) <$> encs).

Lemma offsets_snoc base encs b : offsets_of base (encs ++ [b]) = offsets_of base encs ++ [(base + length (mjoin encs))%nat].
Proof.
  revert base. induction encs as [|a encs IH]; intros base; cbn [app offsets_of]; [cbn; by rewrite Nat.add_0_r|]. rewrite IH, mjoin_cons, length_app. cbn [app].
  do 3 f_equal. lia.
Qed.

Lemma length_offsets base encs : length (offsets_of base encs) = length encs.
Proof. revert base. induction encs as [|a encs IH]; intros base; [done|]. cbn. by rewrite IH. Qed.

Lemma offsets_lookup encs i b : encs !! i = Some b -> offsets_of 0 encs !! i = Some (length (mjoin (take i encs))).
Proof.
  intros H. assert (G : forall base, offsets_of base encs !! i = Some (base + length (mjoin (take i encs)))%nat); [|exact (G 0%nat)].
  revert i H. induction encs as [|a encs IH]; intros i H base; [done|]. destruct i as [|i]; [cbn; by rewrite Nat.add_0_r|]. cbn [offsets_of lookup list_lookup take].
  rewrite (IH i H), mjoin_cons, length_app. f_equal. lia.
Qed.

Lemma length_sizes encs : length (sizes_of encs) = (4 * length encs)%nat.
Proof. unfold sizes_of. induction encs as [|b encs IH]; [done|]. rewrite fmap_cons, mjoin_cons, length_app, length_le_bytes, IH. cbn [length]. lia. Qed.

Lemma sizes_snoc encs b : sizes_of (encs ++ [b]) = sizes_of encs ++ le_bytes 4 (Z.of_nat (length b)).
Proof. unfold sizes_of. by rewrite fmap_app, mjoin_app. Qed.

Lemma readItems_ok encs junk base : Forall (fun b => Z.of_nat (length b) < 2 ^ 32) encs ->
  readItems (length encs) (sizes_of encs ++ junk) base = (offsets_of base encs, (base + length (mjoin encs))%nat).
Proof.
  intros H. revert base. induction H as [|b encs Hb H IH]; intros base; [cbn; by rewrite Nat.add_0_r|]. cbn [length readItems].
  unfold sizes_of. rewrite fmap_cons, mjoin_cons, <- app_assoc. fold (sizes_of encs).
  rewrite take_app_length' by (by rewrite length_le_bytes). rewrite drop_app_length' by (by rewrite length_le_bytes).
  rewrite le_le_bytes. change (256 ^ Z.of_nat 4) with (2 ^ 32). rewrite Z.mod_small, Nat2Z.id by lia. rewrite IH. cbn [offsets_of]. rewrite mjoin_cons, length_app.
  f_equal. lia.
Qed.

Lemma mjoin_lookup (encs : list bytes) i b : encs !! i = Some b -> exists rest, mjoin encs = mjoin (take i encs) ++ b ++ rest.
Proof.
  intros H. exists (mjoin (drop (S i) encs)). rewrite <- (take_drop_middle encs i b H) at 1. by rewrite mjoin_app, mjoin_cons.
Qed.

Lemma destruct_or_snoc {A} (l : list A) : l = [] \/ exists l' x, l = l' ++ [x].
Proof. destruct l as [|x l' _] using rev_ind; [by left|]. right. by exists l', x. Qed.

(** ** Refinement *)

Section Refinement.
Context {A : Type} (write : A -> option bytes) (read : Reader A) (valid : A -> Prop) {F : Readable write read valid}.
Context (m_poolSize : nat) (pool_pos : (0 < m_poolSize)%nat).

(** The storage [s] holds the items [l], written as [encs]. *)
Record holds (s : accessor A) (l : list A) (encs : list bytes) : Prop := {
  h_encs : Forall2 (fun x b => valid x /\ write x = Some b /\ Z.of_nat (length b) < 2 ^ 32) l encs;
  h_file : exists junk, m_itemsFile s = mjoin encs ++ junk;
  h_size : m_itemsFileSize s = length (mjoin encs);
  h_offsets : m_offsets s = offsets_of 0 encs;
  h_index : exists junk, m_indexes s = le_bytes 8 (Z.of_nat (length encs)) ++ sizes_of encs ++ junk;
  h_count : Z.of_nat (length encs) < 2 ^ 64;
  h_items : forall i x, m_items s !! i = Some x -> l !! i = Some x;
  h_cache : NoDup (m_cache s);
  h_keys : forall i, i ∈ m_cache s <-> is_Some (m_items s !! i);
  h_pool : (size (m_items s) <= m_poolSize)%nat;
}.

Lemma holds_length s l encs : holds s l encs -> length l = length encs /\ length (m_offsets s) = length encs.
Proof using. intros []. split; [by apply Forall2_length in h_encs0|]. by rewrite h_offsets0, length_offsets. Qed.

(** The entry that leaves a full cache. *)
Lemma prepare_holds s l encs i x : holds s l encs -> m_items s !! i = None -> l !! i = Some x -> holds (prepare m_poolSize s i x) l encs.
Proof using pool_pos.
  intros H Hi Hx. unfold prepare. destruct H. destruct (Nat.eqb_spec (size (m_items s)) m_poolSize) as [E|E].
  - destruct (m_cache s) as [|o c] eqn:Ec.
    { exfalso. assert (m_items s = ∅) as Em; [|rewrite Em, map_size_empty in E; lia]. apply map_eq. intros j. rewrite lookup_empty.
      destruct (m_items s !! j) eqn:Ej; [|done]. assert (j ∈ []) as []%not_elem_of_nil by (apply h_keys0; by eexists). }
    apply list.NoDup_cons in h_cache0 as [Ho Hc]. assert (is_Some (m_items s !! o)) as [y Hy] by (apply h_keys0, list_elem_of_here).
    assert (Hoi : o <> i) by (intros ->; congruence).
    split; cbn [set_cache m_itemsFile m_indexes m_offsets m_itemsFileSize m_items m_cache]; try assumption.
    + intros j y' Hj. destruct (decide (i = j)) as [->|Hij]; [rewrite lookup_insert_eq in Hj; congruence|]. rewrite lookup_insert_ne in Hj by done.
      apply lookup_delete_Some in Hj as [_ Hj]. by apply h_items0.
    + apply list.NoDup_app. split_and!; [done| |apply NoDup_singleton]. intros j Hj ->%list_elem_of_singleton.
      assert (is_Some (m_items s !! i)) as [? ?] by (apply h_keys0; by apply list_elem_of_further). congruence.
    + intros j. rewrite elem_of_app, list_elem_of_singleton, lookup_insert_is_Some, lookup_delete_is_Some. rewrite <- h_keys0, elem_of_cons.
      destruct (decide (i = j)) as [->|Hij]; [tauto|]. split; [intros [Hj|Hj]; [|congruence]|intros [Hj|(_ & Hj1 & Hj2)]; [congruence|]].
      * right. split; [done|]. split; [by intros ->|by right].
      * destruct Hj2; [congruence|by left].
    + rewrite map_size_insert_None by (rewrite lookup_delete_ne by done; done). rewrite map_size_delete_Some by (by exists y). lia.
  - split; cbn [set_cache m_itemsFile m_indexes m_offsets m_itemsFileSize m_items m_cache]; try assumption.
    + intros j y' Hj. destruct (decide (i = j)) as [->|Hij]; [rewrite lookup_insert_eq in Hj; congruence|]. rewrite lookup_insert_ne in Hj by done. by apply h_items0.
    + apply list.NoDup_app. split_and!; [done| |apply NoDup_singleton]. intros j Hj ->%list_elem_of_singleton.
      apply h_keys0 in Hj as [? ?]. congruence.
    + intros j. rewrite elem_of_app, list_elem_of_singleton, lookup_insert_is_Some, <- h_keys0. destruct (decide (i = j)) as [->|Hij]; [tauto|].
      split; [intros [Hj|Hj]; [by right|congruence]|intros [Hj|[_ Hj]]; [congruence|by left]].
    + rewrite map_size_insert_None by done. lia.
Qed.

Lemma cached_holds s l encs cache : holds s l encs -> NoDup cache -> (forall i, i ∈ cache <-> i ∈ m_cache s) -> holds (set_cache s (m_items s) cache) l encs.
Proof using.
  intros [] Hn Hc. split; cbn [set_cache m_itemsFile m_indexes m_offsets m_itemsFileSize m_items m_cache]; try assumption. intros i. by rewrite Hc, h_keys0.
Qed.

Lemma touch_keys (cache : list nat) i : NoDup cache -> i ∈ cache -> NoDup (filter (.≠ i) cache ++ [i]) /\ forall j, j ∈ filter (.≠ i) cache ++ [i] <-> j ∈ cache.
Proof using.
  intros Hn Hi. split.
  - apply list.NoDup_app. split_and!; [by apply list.NoDup_filter| |apply NoDup_singleton]. intros j [Hj _]%list_elem_of_filter ->%list_elem_of_singleton. done.
  - intros j. rewrite elem_of_app, list_elem_of_filter, list_elem_of_singleton. destruct (decide (j = i)) as [->|]; [tauto|]. tauto.
Qed.

Lemma at_index_ok s l encs i : holds s l encs -> exists s', at_index read m_poolSize s i = (l !! i, s') /\ holds s' l encs.
Proof using F pool_pos.
  intros H. unfold at_index. destruct (m_items s !! i) as [x|] eqn:Ei.
  - rewrite (h_items _ _ _ H i x Ei). eexists. split; [reflexivity|].
    assert (Hi : i ∈ m_cache s) by (apply (h_keys _ _ _ H); by exists x). destruct (touch_keys (m_cache s) i (h_cache _ _ _ H) Hi) as [N K].
    destruct (cached_holds s l encs (if bool_decide (list.last (m_cache s) = Some i) then m_cache s else filter (.≠ i) (m_cache s) ++ [i]) H) as [];
      [by case_bool_decide; [apply (h_cache _ _ _ H)|]|by case_bool_decide|]. by split.
  - destruct (m_offsets s !! i) as [off|] eqn:Eo.
    + assert (Hl : (i < length encs)%nat) by (rewrite <- (proj2 (holds_length s l encs H)); by apply lookup_lt_Some in Eo).
      destruct (lookup_lt_is_Some_2 encs i Hl) as [b Eb]. destruct (Forall2_lookup_r _ _ _ _ _ (h_encs _ _ _ H) Eb) as (x & Ex & Vx & Wx & _).
      rewrite (h_offsets _ _ _ H), (offsets_lookup encs i b Eb) in Eo. injection Eo as <-. destruct (h_file _ _ _ H) as [junk Ef].
      destruct (mjoin_lookup encs i b Eb) as [rest Er]. rewrite Ef, Er, <- !app_assoc, drop_app_length. destruct (write_read x Vx) as (b' & Wb & _ & Rd).
      rewrite Wx in Wb. injection Wb as <-. rewrite Rd. rewrite Ex. eexists. split; [reflexivity|].
      destruct (prepare_holds s l encs i x H Ei Ex). by split.
    + assert (Hl : (length l <= i)%nat) by (destruct (holds_length s l encs H) as [-> <-]; by apply lookup_ge_None in Eo).
      rewrite (lookup_ge_None_2 l i Hl). by exists s.
Qed.

Lemma push_ok s l encs x b : holds s l encs -> valid x -> write x = Some b -> Z.of_nat (length b) < 2 ^ 32 -> Z.of_nat (length l) + 1 < 2 ^ 64 ->
  exists s', push_back write m_poolSize s x = Some s' /\ holds s' (l ++ [x]) (encs ++ [b]).
Proof using pool_pos.
  intros H Vx Wx Hb Hn. destruct (holds_length s l encs H) as [L1 L2]. unfold push_back. rewrite Wx. cbn [mbind option_bind]. eexists. split; [reflexivity|].
  assert (Hnone : m_items s !! length l = None).
  { destruct (m_items s !! length l) eqn:E; [|done]. apply (h_items _ _ _ H) in E. apply lookup_lt_Some in E. lia. }
  rewrite L2, <- L1. apply prepare_holds; [|exact Hnone|rewrite lookup_app_r, Nat.sub_diag by lia; done]. destruct H.
  split; cbn [m_itemsFile m_indexes m_offsets m_itemsFileSize m_items m_cache]; try assumption.
  - apply Forall2_app; [done|]. by repeat constructor.
  - destruct h_file0 as [junk ->]. rewrite h_size0. destruct (file_write_end (mjoin encs) b junk) as [junk' ->]. exists junk'.
    rewrite mjoin_app, <- app_assoc. cbn. by rewrite app_nil_r.
  - rewrite h_size0, mjoin_app, length_app. cbn. by rewrite app_nil_r.
  - by rewrite offsets_snoc, h_offsets0, h_size0.
  - destruct h_index0 as [junk ->]. rewrite app_assoc.
    replace (8 + 4 * length l)%nat with (length (le_bytes 8 (Z.of_nat (length encs)) ++ sizes_of encs)) by (rewrite length_app, length_le_bytes, length_sizes; lia).
    destruct (file_write_end (le_bytes 8 (Z.of_nat (length encs)) ++ sizes_of encs) (le_bytes 4 (u32 (Z.of_nat (m_itemsFileSize s + length b - m_itemsFileSize s)))) junk) as [junk' ->].
    exists junk'. rewrite <- app_assoc, file_write_start by (by rewrite !length_le_bytes). rewrite sizes_snoc, length_app, <- L1. cbn [length].
    replace (m_itemsFileSize s + length b - m_itemsFileSize s)%nat with (length b) by lia. rewrite (wrap_small 32) by (split; lia). by rewrite <- app_assoc.
  - rewrite length_app. cbn. lia.
  - intros i y Hy. rewrite lookup_app_l; [by apply h_items0|]. apply h_items0, lookup_lt_Some in Hy. done.
Qed.

Lemma pop_ok s l encs x b : holds s (l ++ [x]) (encs ++ [b]) -> exists s', pop_back s = Some s' /\ holds s' l encs.
Proof using pool_pos.
  intros H. destruct (holds_length _ _ _ H) as [L1 L2]. rewrite (length_app l), (length_app encs) in L1. rewrite (length_app encs) in L2. cbn [length] in L1, L2. unfold pop_back.
  assert (Eo : m_offsets s = offsets_of 0 encs ++ [length (mjoin encs)]) by (rewrite (h_offsets _ _ _ H); apply offsets_snoc).
  rewrite Eo, last_snoc. cbn [mbind option_bind]. rewrite length_app, length_offsets. cbn [length]. replace (length encs + 1 - 1)%nat with (length encs) by lia.
  rewrite take_app_length' by (by rewrite length_offsets). destruct H. rewrite length_app in h_count0. cbn [length] in h_count0.
  assert (Hitems : forall i y, i <> length encs -> m_items s !! i = Some y -> l !! i = Some y).
  { intros i y Hi Hy. apply h_items0 in Hy. assert (i < length l)%nat by (pose proof (lookup_lt_Some _ _ _ Hy) as Hlt; rewrite length_app in Hlt; cbn [length] in Hlt; lia).
    by rewrite lookup_app_l in Hy. }
  assert (Hencs : Forall2 (fun x b => valid x /\ write x = Some b /\ Z.of_nat (length b) < 2 ^ 32) l encs).
  { apply Forall2_app_inv in h_encs0 as [? _]; [done|lia]. }
  assert (Hfile : exists junk, m_itemsFile s = mjoin encs ++ junk) by (destruct h_file0 as [junk ->]; rewrite mjoin_app, <- app_assoc; by eexists).
  assert (Hindex : exists junk, file_write (m_indexes s) 0 (le_bytes 8 (Z.of_nat (length encs))) = le_bytes 8 (Z.of_nat (length encs)) ++ sizes_of encs ++ junk).
  { destruct h_index0 as [junk ->]. rewrite file_write_start by (by rewrite !length_le_bytes). rewrite sizes_snoc, <- app_assoc. by eexists. }
  destruct (m_items s !! length encs) as [y|] eqn:Ey; eexists; (split; [reflexivity|]);
    split; cbn [m_itemsFile m_indexes m_offsets m_itemsFileSize m_items m_cache]; try done; try lia.
  - intros i y' [Hi Hy]%lookup_delete_Some. apply Hitems; [congruence|done].
  - by apply list.NoDup_filter.
  - intros i. rewrite list_elem_of_filter, lookup_delete_is_Some, h_keys0. split; intros [? ?]; split; congruence || done.
  - rewrite map_size_delete_Some by (by exists y). lia.
  - intros i y Hy. apply Hitems; [congruence|done].
Qed.

Lemma clear_ok s l encs : holds s l encs -> holds (clear s) [] [].
Proof using pool_pos.
  intros []. split; cbn [clear m_itemsFile m_indexes m_offsets m_itemsFileSize m_items m_cache]; try done; try lia.
  - by eexists.
  - destruct h_index0 as [junk ->]. rewrite file_write_start by (by rewrite !length_le_bytes). by eexists.
  - constructor.
  - intros i. rewrite lookup_empty. split; [by intros ?%not_elem_of_nil|by intros [? ?]].
  - rewrite map_size_empty. lia.
Qed.

(** The files alone determine the list. *)
Lemma init_ok s l encs : holds s l encs -> exists s', init (Some (m_itemsFile s)) (Some (m_indexes s)) = Some s' /\ holds s' l encs.
Proof using pool_pos.
  intros []. unfold init, initIndex. destruct h_index0 as [junk E]. rewrite E. destruct (Nat.ltb_spec (length (le_bytes 8 (Z.of_nat (length encs)) ++ sizes_of encs ++ junk)) 8) as [Hl|_].
  { rewrite length_app, length_le_bytes in Hl. lia. }
  rewrite take_app_length' by (by rewrite length_le_bytes). rewrite drop_app_length' by (by rewrite length_le_bytes).
  rewrite le_le_bytes. change (256 ^ Z.of_nat 8) with (2 ^ 64). rewrite Z.mod_small by lia.
  replace (_ <=? _) with true by (rewrite !length_app, length_le_bytes, length_sizes; lia). rewrite Nat2Z.id, readItems_ok.
  2:{ apply list.Forall_forall. intros b [i Hb]%list_elem_of_lookup. destruct (Forall2_lookup_r _ _ _ _ _ h_encs0 Hb) as (x & _ & _ & _ & ?). done. }
  cbn [mbind option_bind default]. eexists. split; [reflexivity|]. split; cbn [m_itemsFile m_indexes m_offsets m_itemsFileSize m_items m_cache]; try done; try lia.
  - by exists junk.
  - constructor.
  - intros i. rewrite lookup_empty. split; [by intros ?%not_elem_of_nil|by intros [? ?]].
  - rewrite map_size_empty. lia.
Qed.

Lemma create_holds : exists s, init (A := A) None None = Some s /\ holds s [] [].
Proof using pool_pos.
  eexists. split; [reflexivity|]. split; cbn [m_itemsFile m_indexes m_offsets m_itemsFileSize m_items m_cache]; try done; try (cbn; lia).
  - by exists [].
  - exists []. by rewrite app_nil_r.
  - constructor.
  - intros i. rewrite lookup_empty. split; [by intros ?%not_elem_of_nil|by intros [? ?]].
  - rewrite map_size_empty. lia.
Qed.

Lemma step_ok s l encs c : holds s l encs -> allowed write valid l c ->
  exists s' encs', step write read m_poolSize s c = Some (s', (list_step l c).2) /\ holds s' (list_step l c).1 encs'.
Proof using F pool_pos.
  intros H Ha. destruct (holds_length s l encs H) as [L1 L2]. destruct c as [x| |i| | | | |]; cbn [step list_step fst snd].
  - destruct Ha as (Vx & Sx & Hn). destruct (write_read x Vx) as (b & Wx & _). destruct (push_ok s l encs x b H Vx Wx (Sx b Wx) Hn) as (s' & -> & H').
    by exists s', (encs ++ [b]).
  - destruct (destruct_or_snoc l) as [->|(l' & x & ->)]; [done|]. destruct (destruct_or_snoc encs) as [->|(encs' & b & ->)]; [rewrite length_app in L1; cbn in L1; lia|].
    destruct (pop_ok s l' encs' x b H) as (s' & -> & H'). exists s', encs'. split; [done|]. rewrite length_app. cbn [length].
    by rewrite Nat.add_sub, take_app_length.
  - destruct (at_index_ok s l encs i H) as (s' & -> & H'). by exists s', encs.
  - unfold front. destruct (at_index_ok s l encs 0 H) as (s' & -> & H'). exists s', encs. by rewrite head_lookup.
  - unfold back. destruct (m_offsets s) as [|o os] eqn:Eo.
    + exists s, encs. cbn in L2. destruct l; [done|cbn in L1; lia].
    + destruct (at_index_ok s l encs (length (o :: os) - 1) H) as (s' & -> & H'). exists s', encs. split; [|done]. rewrite last_lookup, L2, <- L1. by rewrite Nat.sub_1_r.
  - exists (clear s), []. split; [done|by apply (clear_ok s l encs)].
  - exists s, encs. unfold store_size. by rewrite L1, L2.
  - destruct (init_ok s l encs H) as (s' & -> & H'). by exists s', encs.
Qed.

Lemma run_ok calls s l encs : holds s l encs -> all_allowed write valid l calls -> run write read m_poolSize s calls = Some (list_run l calls).
Proof using F pool_pos.
  revert s l encs. induction calls as [|c calls IH]; intros s l encs H Ha; [done|]. destruct Ha as [Ha Hc]. cbn [run list_run].
  destruct (step_ok s l encs c H Ha) as (s' & encs' & -> & H'). cbn [mbind option_bind]. destruct (list_step l c) as [l' a]. cbn [fst snd] in *. by rewrite (IH s' l' encs' H' Hc).
Qed.
End Refinement.

(** ** Refinement in the cache *)

Section Cached.
Context {A : Type} (write : A -> option bytes) (read : Reader A) (m_poolSize : nat).

(** Every item of [l] is in the cache, and nothing else. *)
Record cached (s : accessor A) (l : list A) : Prop := {
  c_offsets : length (m_offsets s) = length l;
  c_items : forall i, m_items s !! i = l !! i;
  c_size : size (m_items s) = length l;
}.

Lemma at_index_cached s l i : cached s l -> exists s', at_index read m_poolSize s i = (l !! i, s') /\ cached s' l.
Proof.
  intros H. unfold at_index. rewrite (c_items _ _ H). destruct (l !! i) as [x|] eqn:E.
  - eexists. split; [reflexivity|]. destruct H. by split.
  - rewrite lookup_ge_None_2; [by exists s|]. rewrite (c_offsets _ _ H). by apply lookup_ge_None.
Qed.

Lemma push_cached s l x : cached s l -> is_Some (write x) -> (length l < m_poolSize)%nat -> exists s', push_back write m_poolSize s x = Some s' /\ cached s' (l ++ [x]).
Proof.
  intros [Ho Hi Hs] [data E] Hp. unfold push_back. rewrite E. cbn [mbind option_bind]. eexists. split; [reflexivity|]. unfold prepare. cbn [m_items m_cache].
  rewrite Hs. destruct (Nat.eqb_spec (length l) m_poolSize); [lia|]. split; cbn [set_cache m_offsets m_items].
  - rewrite !length_app. cbn. lia.
  - intros i. rewrite Ho. destruct (decide (i = length l)) as [->|Hne]; [by rewrite lookup_insert_eq, list_lookup_middle|]. rewrite lookup_insert_ne, Hi by done.
    destruct (Nat.lt_ge_cases i (length l)); [by rewrite lookup_app_l|]. rewrite !lookup_ge_None_2; rewrite ?length_app; cbn; [done|lia|lia].
  - rewrite Ho, map_size_insert_None, Hs, length_app; [cbn; lia|]. rewrite Hi. by apply lookup_ge_None_2.
Qed.

Lemma pop_cached (s : accessor A) l x : cached s (l ++ [x]) -> exists s', pop_back s = Some s' /\ cached s' l.
Proof.
  intros [Ho Hi Hs]. rewrite length_app in Ho, Hs. cbn [length] in Ho, Hs. unfold pop_back. destruct (destruct_or_snoc (m_offsets s)) as [En|(os & o & Eo)]; [rewrite En in Ho; cbn in Ho; lia|].
  rewrite Eo in Ho |- *. rewrite length_app in Ho |- *. cbn [length] in Ho |- *. rewrite last_snoc. cbn [mbind option_bind]. replace (length os + 1 - 1)%nat with (length l) by lia.
  rewrite Hi, list_lookup_middle by done. eexists. split; [reflexivity|]. split; cbn [m_offsets m_items].
  - rewrite take_app_length' by lia. lia.
  - intros i. rewrite lookup_delete. case_decide as E; [rewrite <- E; symmetry; by apply lookup_ge_None_2|]. rewrite Hi. destruct (Nat.lt_ge_cases i (length l)); [by rewrite lookup_app_l|].
    rewrite !lookup_ge_None_2; rewrite ?length_app; cbn; [done|lia|lia].
  - rewrite map_size_delete_Some, Hs; [lia|]. exists x. by rewrite Hi, list_lookup_middle.
Qed.

Lemma step_cached s l c : cached s l -> cacheable write m_poolSize l c ->
  exists s', step write read m_poolSize s c = Some (s', (list_step l c).2) /\ cached s' (list_step l c).1.
Proof.
  intros H Ha. destruct c as [x| |i| | | | |]; cbn [step list_step fst snd].
  - destruct Ha as [Wx Hp]. destruct (push_cached s l x H Wx Hp) as (s' & -> & H'). by exists s'.
  - destruct (destruct_or_snoc l) as [->|(l' & x & ->)]; [done|]. destruct (pop_cached s l' x H) as (s' & -> & H'). exists s'. split; [done|].
    rewrite length_app. cbn [length]. by rewrite Nat.add_sub, take_app_length.
  - destruct (at_index_cached s l i H) as (s' & -> & H'). by exists s'.
  - unfold front. destruct (at_index_cached s l 0 H) as (s' & -> & H'). exists s'. by rewrite head_lookup.
  - pose proof (c_offsets _ _ H) as L. unfold back. destruct (m_offsets s) as [|o os] eqn:Eo.
    + exists s. by destruct l.
    + destruct (at_index_cached s l (length (o :: os) - 1) H) as (s' & -> & H'). exists s'. split; [|done]. rewrite last_lookup, L. by rewrite Nat.sub_1_r.
  - exists (clear s). split; [done|]. split; [done| |apply map_size_empty]. intros i. cbn. by rewrite lookup_empty.
  - exists s. unfold store_size. by rewrite (c_offsets _ _ H).
  - done.
Qed.

Lemma run_cached calls s l : cached s l -> all_cacheable write m_poolSize l calls -> run write read m_poolSize s calls = Some (list_run l calls).
Proof.
  revert s l. induction calls as [|c calls IH]; intros s l H Ha; [done|]. destruct Ha as [Ha Hc]. cbn [run list_run].
  destruct (step_cached s l c H Ha) as (s' & -> & H'). cbn [mbind option_bind]. destruct (list_step l c) as [l' a]. cbn [fst snd] in *. by rewrite (IH s' l' H' Hc).
Qed.

Lemma create_cached : exists s, init (A := A) None None = Some s /\ cached s [].
Proof. eexists. split; [reflexivity|]. split; [done| |apply map_size_empty]. intros i. cbn. by rewrite lookup_empty. Qed.
End Cached.

(** C15: Block storage.  (1) Whatever the stream operators of the items read
    back, any calls (appending, removing, reading at an index, clearing) on a
    new storage that never holds more items than the cache does and is not
    reopened are answered as a list answers them; this is the part that applies
    to [block_entry_t], with a cache of [getPoolSize] blocks.  (2) If the items
    have a readable format, which [block_entry_t] has not, the same holds for a
    cache of any positive size, any number of items and with closing and opening
    again: what leaves the cache or survives in the files is what was appended. *)
Theorem block_accessor_refines {A} (write : A -> option bytes) (read : Reader A) (m_poolSize : nat) calls :
  (all_cacheable write m_poolSize [] calls -> exists s, init None None = Some s /\ run write read m_poolSize s calls = Some (list_run [] calls)) /\
  (forall valid, Readable write read valid -> (0 < m_poolSize)%nat -> all_allowed write valid [] calls ->
    exists s, init None None = Some s /\ run write read m_poolSize s calls = Some (list_run [] calls)).
Proof.
  split.
  - intros Ha. destruct (create_cached (A := A)) as (s & Hs & H). exists s. split; [done|]. by apply run_cached.
  - intros valid F Hp Ha. destruct (create_holds write valid m_poolSize Hp) as (s & Hs & H). exists s. split; [done|].
    by apply (run_ok write read valid m_poolSize Hp calls s [] []).
Qed.

(** The entry of a first block. *)
Definition stored_entry : block_entry_t :=
  let tx := mktransaction (mkprefix 1 60 [base_input (mkbase_input 0)] [mkoutput 1 (key_output (mkkey_output (replicate 32 3)))] []) [] in
  mkblock_entry (mkblock (mkheader 1 0 70 12 (replicate 32 0)) tx []) 0 100 1 1 [mkentry tx [0]].

Lemma block_accessor_refines_witness :
  (exists s, init None None = Some s /\ run put_block_entry (get_block_entry 0) (Z.to_nat getPoolSize) s [Push stored_entry; Back; Push stored_entry; Get 0; Pop; Size; Get 1] =
    Some [Done; Item (Some stored_entry); Done; Item (Some stored_entry); Done; Count 1; Item None]) /\
  (exists s, init None None = Some s /\ run write_string read_string 1 s [Push [1; 2]; Push [3]; Get 0; Reopen; Back; Pop; Size] =
    Some [Done; Done; Item (Some [1; 2]); Done; Item (Some [3]); Done; Count 1]).
Proof.
  assert (W : is_Some (put_block_entry stored_entry)) by (vm_compute; by eexists). split.
  - apply (block_accessor_refines put_block_entry (get_block_entry 0) (Z.to_nat getPoolSize) [Push stored_entry; Back; Push stored_entry; Get 0; Pop; Size; Get 1]).
    cbn [all_cacheable cacheable list_step fst app length]. split_and!; try done; unfold getPoolSize; lia.
  - apply (block_accessor_refines write_string read_string 1 [Push [1; 2]; Push [3]; Get 0; Reopen; Back; Pop; Size]) with (valid := fun l => is_bytes l /\ Z.of_nat (length l) < 2 ^ 64);
      [exact (format_readable (Format := string_format))|lia|].
    cbn. split_and!; try done; try lia; try (by apply bytes_forallb); intros bs [= <-]; cbn; lia.
Defined.
