(* ===== verification/ChainIndex.v ===== *)
(** * The indexes of the chain: cryptonote/core/blockchain.cpp, blockchain/indexing/payment.cpp

    [pushTransaction] enters a transaction in the map of transactions, the set
    of spent key images, the lists of outputs by amount and the index of
    payment ids; [popTransaction] takes it out.  An exception, an access out
    of range and a loop that does not end are [Thrown]. *)

From stdpp Require Import gmap.
From S2P Require Import Prelude Keccak Stream Types Binary TxExtra Amounts.

#[local] Opaque cn_fast_hash.

(** [BinaryArray::objectHash]: the fast hash of the binary form. *)
Definition NULL_HASH : bytes := replicate 32 0.
Definition objectHash {A} (write : A -> option bytes) (object : A) : bytes :=
  match write object with
  | Some ba => match cn_fast_hash ba with Done h => h | _ => NULL_HASH end
  | None => NULL_HASH
  end.

Record chain_indexes := mkindexes {
  m_transactionMap : gmap bytes transaction_index_t;
  m_spent_keys : gset bytes;
  m_outputs : gmap Z (list (transaction_index_t * Z));
  m_multisignatureOutputs : gmap Z (list multisignature_output_usage_t);
  m_paymentIdIndex : list (bytes * bytes);
}.

Definition no_indexes : chain_indexes := mkindexes ∅ ∅ ∅ ∅ [].

#[export] Instance transaction_index_eq_dec : EqDecision transaction_index_t.
Proof. solve_decision. Defined.

(** ** Payment ids *)

(** [BlockchainExplorerDataBuilder::getPaymentId] *)
Definition getPaymentId (tx : transaction_t) : option bytes :=
  nonce ← findNonce (parseTransactionExtra (extra (prefix tx))).2; getPaymentIdFromTransactionExtraNonce nonce.

(** A multimap is the list of its pairs. *)
Definition payment_add (index : list (bytes * bytes)) (tx : transaction_t) : list (bytes * bytes) :=
  match getPaymentId tx with Some paymentId => (paymentId, objectHash write_transaction tx) :: index | None => index end.

Fixpoint remove_pair (p : bytes * bytes) (index : list (bytes * bytes)) : list (bytes * bytes) :=
  match index with [] => [] | q :: index => if bool_decide (q = p) then index else q :: remove_pair p index end.
Definition payment_remove (index : list (bytes * bytes)) (tx : transaction_t) : list (bytes * bytes) :=
  match getPaymentId tx with Some paymentId => remove_pair (paymentId, objectHash write_transaction tx) index | None => index end.
Definition payment_find (index : list (bytes * bytes)) (paymentId : bytes) : list bytes :=
  snd <$> List.filter (fun p => bool_decide (p.1 = paymentId)) index.

(** ** Key images *)

Inductive spend_result := Spent (s : gset bytes) | DoubleSpend (s : gset bytes) | BadGet.

(** The rollback: [boost::get<key_input_t>] of an input of another type throws. *)
Fixpoint unspend (s : gset bytes) (l : list transaction_input_t) : option (gset bytes) :=
  match l with
  | [] => Some s
  | key_input i :: l => unspend (s ∖ {[keyImage i]}) l
  | _ => None
  end.

(** The loop over the inputs; [before] are those it has passed, the last first. *)
Fixpoint spend_loop (s : gset bytes) (before l : list transaction_input_t) : spend_result :=
  match l with
  | [] => Spent s
  | key_input i :: l =>
      if bool_decide (keyImage i ∈ s) then match unspend s before with Some s => DoubleSpend s | None => BadGet end
      else spend_loop ({[keyImage i]} ∪ s) (key_input i :: before) l
  | i :: l => spend_loop s (i :: before) l
  end.

Definition have_tx_keyimg_as_spent (st : chain_indexes) (key_im : bytes) : bool := bool_decide (key_im ∈ m_spent_keys st).
Definition haveTransactionKeyImagesAsSpent (st : chain_indexes) (tx : transaction_t) : bool :=
  existsb (fun i => match i with key_input i => have_tx_keyimg_as_spent st (keyImage i) | _ => false end) (inputs (prefix tx)).
Definition haveTransaction (st : chain_indexes) (id : bytes) : bool := match m_transactionMap st !! id with Some _ => true | None => false end.

(** ** Multisignature outputs *)

Definition set_used (b : bool) (u : multisignature_output_usage_t) : multisignature_output_usage_t := mkusage (usage_index u) (usage_output u) b.

(** [m_multisignatureOutputs[amount][outputIndex].isUsed = b] *)
Definition mark (b : bool) (m : gmap Z (list multisignature_output_usage_t)) (i : multi_signature_input_t) : option (gmap Z (list multisignature_output_usage_t)) :=
  v ← m !! multi_amount i;
  if (Z.to_nat (outputIndex i) <? length v)%nat then Some (<[multi_amount i := alter (set_used b) (Z.to_nat (outputIndex i)) v]> m) else None.

Fixpoint mark_loop (b : bool) (m : gmap Z (list multisignature_output_usage_t)) (l : list transaction_input_t) : option (gmap Z (list multisignature_output_usage_t)) :=
  match l with
  | [] => Some m
  | multi_signature_input i :: l => m ← mark b m i; mark_loop b m l
  | _ :: l => mark_loop b m l
  end.

(** ** Outputs *)

Definition amount_list {A} (m : gmap Z (list A)) (amount : Z) : list A := default [] (m !! amount).

(** The loop over the outputs from number [n] on; returns the global indexes too. *)
Fixpoint add_outputs (idx : transaction_index_t) (n : nat) (l : list transaction_output_t) (outs : gmap Z (list (transaction_index_t * Z)))
    (multis : gmap Z (list multisignature_output_usage_t)) : gmap Z (list (transaction_index_t * Z)) * gmap Z (list multisignature_output_usage_t) * list Z :=
  match l with
  | [] => (outs, multis, [])
  | o :: l =>
      match target o with
      | key_output _ =>
          let amountOutputs := amount_list outs (out_amount o) in
          let '(outs, multis, g) := add_outputs idx (S n) l (<[out_amount o := amountOutputs ++ [(idx, Z.of_nat n)]]> outs) multis in
          (outs, multis, u32 (Z.of_nat (length amountOutputs)) :: g)
      | multi_signature_output _ =>
          let amountOutputs := amount_list multis (out_amount o) in
          let '(outs, multis, g) := add_outputs idx (S n) l outs (<[out_amount o := amountOutputs ++ [mkusage idx (Z.of_nat n) false]]> multis) in
          (outs, multis, u32 (Z.of_nat (length amountOutputs)) :: g)
      end
  end.

Definition pop_back {A} (v : list A) : list A := take (length v - 1) v.

(** Removing output number [n]; every inconsistency is logged and skipped. *)
Definition remove_output (idx : transaction_index_t) (n : nat) (o : transaction_output_t)
    (outs : gmap Z (list (transaction_index_t * Z))) (multis : gmap Z (list multisignature_output_usage_t))
    : gmap Z (list (transaction_index_t * Z)) * gmap Z (list multisignature_output_usage_t) :=
  match target o with
  | key_output _ =>
      match outs !! out_amount o with
      | None => (outs, multis)
      | Some v =>
          match list.last v with
          | None => (outs, multis)
          | Some (i, m) =>
              if negb (bool_decide (i = idx)) then (outs, multis)
              else if negb (m =? Z.of_nat n) then (outs, multis)
              else match pop_back v with [] => (delete (out_amount o) outs, multis) | v' => (<[out_amount o := v']> outs, multis) end
          end
      end
  | multi_signature_output _ =>
      match multis !! out_amount o with
      | None => (outs, multis)
      | Some v =>
          match list.last v with
          | None => (outs, multis)
          | Some u =>
              if isUsed u then (outs, multis)
              else if negb (bool_decide (usage_index u = idx)) then (outs, multis)
              else if negb (usage_output u =? Z.of_nat n) then (outs, multis)
              else match pop_back v with [] => (outs, delete (out_amount o) multis) | v' => (outs, <[out_amount o := v']> multis) end
          end
      end
  end.

(** From the last output to the first. *)
Fixpoint remove_outputs (idx : transaction_index_t) (n : nat) (l : list transaction_output_t)
    (outs : gmap Z (list (transaction_index_t * Z))) (multis : gmap Z (list multisignature_output_usage_t))
    : gmap Z (list (transaction_index_t * Z)) * gmap Z (list multisignature_output_usage_t) :=
  match l with
  | [] => (outs, multis)
  | o :: l => let '(outs, multis) := remove_outputs idx (S n) l outs multis in remove_output idx n o outs multis
  end.

(** ** Push and pop *)

Inductive push_result := Pushed (st : chain_indexes) (m_global_output_indexes : list Z) | NotPushed (st : chain_indexes) | Thrown.

(** The counter of the outputs has 16 bits: with 65536 outputs the loop does not end. *)
Definition pushTransaction (st : chain_indexes) (tx : transaction_t) (transactionHash : bytes) (transactionIndex : transaction_index_t) : push_result :=
  match m_transactionMap st !! transactionHash with
  | Some _ => NotPushed st
  | None =>
      let map := <[transactionHash := transactionIndex]> (m_transactionMap st) in
      if negb (checkMultisignatureInputsDiff (prefix tx)) then
        NotPushed (mkindexes (delete transactionHash map) (m_spent_keys st) (m_outputs st) (m_multisignatureOutputs st) (m_paymentIdIndex st))
      else
        match spend_loop (m_spent_keys st) [] (inputs (prefix tx)) with
        | BadGet => Thrown
        | DoubleSpend s => NotPushed (mkindexes (delete transactionHash map) s (m_outputs st) (m_multisignatureOutputs st) (m_paymentIdIndex st))
        | Spent s =>
            match mark_loop true (m_multisignatureOutputs st) (inputs (prefix tx)) with
            | None => Thrown
            | Some multis =>
                if 65536 <=? Z.of_nat (length (outputs (prefix tx))) then Thrown
                else
                  let '(outs, multis, g) := add_outputs transactionIndex 0 (outputs (prefix tx)) (m_outputs st) multis in
                  Pushed (mkindexes map s outs multis (payment_add (m_paymentIdIndex st) tx)) g
            end
        end
  end.

Fixpoint erase_keys (s : gset bytes) (l : list transaction_input_t) : gset bytes :=
  match l with [] => s | key_input i :: l => erase_keys (s ∖ {[keyImage i]}) l | _ :: l => erase_keys s l end.

Definition popTransaction (st : chain_indexes) (tx : transaction_t) (transactionHash : bytes) : option chain_indexes :=
  transactionIndex ← m_transactionMap st !! transactionHash;
  let '(outs, multis) := remove_outputs transactionIndex 0 (outputs (prefix tx)) (m_outputs st) (m_multisignatureOutputs st) in
  multis ← mark_loop false multis (inputs (prefix tx));
  Some (mkindexes (delete transactionHash (m_transactionMap st)) (erase_keys (m_spent_keys st) (inputs (prefix tx))) outs multis
    (payment_remove (m_paymentIdIndex st) tx)).

(** ** Key images: spending and its undoing *)

Definition key_images (l : list transaction_input_t) : list bytes := omap (fun i => match i with key_input i => Some (keyImage i) | _ => None end) l.

Lemma spend_loop_spent s before l s' : spend_loop s before l = Spent s' ->
  NoDup (key_images l) /\ (forall k, k ∈ key_images l -> k ∉ s) /\ s' = s ∪ list_to_set (key_images l).
Proof.
  revert s before. induction l as [|i l IH]; intros s before E; cbn [spend_loop] in E.
  { injection E as <-. cbn. split_and!; [constructor|set_solver|set_solver]. }
  destruct i as [i|i|i]; cbn [key_images omap list_omap]; [by apply (IH s (base_input i :: before))| |by apply (IH s (multi_signature_input i :: before))].
  case_bool_decide as Hin; [by destruct (unspend s before)|]. destruct (IH _ _ E) as (N & D & ->). fold (key_images l). split_and!.
  - constructor; [|done]. intros Hk. apply (D _ Hk). set_solver.
  - intros k [->|Hk]%list.elem_of_cons; [done|]. specialize (D k Hk). set_solver.
  - cbn [list_to_set]. set_solver.
Qed.

(** A double spend is undone: the set is what it was. *)
Lemma spend_loop_double s0 s before l s' : s = s0 ∪ list_to_set (key_images before) -> NoDup (key_images before) -> (forall k, k ∈ key_images before -> k ∉ s0) ->
  spend_loop s before l = DoubleSpend s' -> s' = s0.
Proof.
  intros -> N D. revert before N D. induction l as [|i l IH]; intros before N D E; [done|]. cbn [spend_loop] in E. destruct i as [i|i|i]; [by apply (IH (base_input i :: before))| |by apply (IH (multi_signature_input i :: before))].
  case_bool_decide as Hin.
  - destruct (unspend _ before) as [u|] eqn:U; [|done]. injection E as <-. clear IH Hin. revert N D U. clear. induction before as [|b before IH]; intros N D U.
    + injection U as <-. cbn. set_solver.
    + destruct b as [b|b|b]; [done| |done]. cbn [unspend] in U. cbn [key_images omap list_omap] in N, D. fold (key_images before) in N, D.
      apply list.NoDup_cons in N as [Nb N]. apply IH; [done|intros k Hk; apply D; by right|]. rewrite <- U. f_equal. cbn [key_images omap list_omap list_to_set]. fold (key_images before).
      assert (Hb : keyImage b ∉ s0) by (apply D; by left). assert (Hl : keyImage b ∉ (list_to_set (key_images before) : gset bytes)) by (by rewrite elem_of_list_to_set). set_solver.
  - apply (IH (key_input i :: before)).
    + cbn [key_images omap list_omap]. fold (key_images before). constructor; [|done]. intros Hk. apply Hin. apply elem_of_union. right. by rewrite elem_of_list_to_set.
    + intros k. cbn [key_images omap list_omap]. fold (key_images before). intros [->|Hk]%list.elem_of_cons; [|by apply D]. intros Hk. apply Hin. set_solver.
    + rewrite <- E. f_equal. cbn [key_images omap list_omap list_to_set]. fold (key_images before). set_solver.
Qed.

Lemma erase_keys_eq s l : erase_keys s l = s ∖ list_to_set (key_images l).
Proof.
  revert s. induction l as [|i l IH]; intros s; [cbn; set_solver|]. destruct i as [i|i|i]; cbn [erase_keys key_images omap list_omap]; rewrite IH; [done| |done].
  cbn [list_to_set]. fold (key_images l). set_solver.
Qed.

(** ** Multisignature marks *)

Definition multi_pairs (l : list transaction_input_t) : list (Z * Z) :=
  omap (fun i => match i with multi_signature_input i => Some (multi_amount i, outputIndex i) | _ => None end) l.

Lemma multisignature_loop_nodup seen l : multisignature_loop seen l = true -> NoDup (multi_pairs l) /\ (forall p, p ∈ multi_pairs l -> p ∉ seen).
Proof.
  revert seen. induction l as [|i l IH]; intros seen E; [split; [constructor|by intros p ?%elem_of_nil]|].
  destruct i as [i|i|i]; cbn [multisignature_loop multi_pairs omap list_omap] in *; [by apply IH..|]. case_bool_decide; [done|].
  destruct (IH _ E) as [N D]. fold (multi_pairs l). split.
  - constructor; [|done]. intros Hk. apply (D _ Hk). by left.
  - intros p [->|Hp]%list.elem_of_cons; [done|]. intros Hs. apply (D p Hp). by right.
Qed.

(** An input names an output that exists and is not used. *)
Definition unused (m : gmap Z (list multisignature_output_usage_t)) (p : Z * Z) : Prop :=
  0 <= p.2 /\ exists v u, m !! p.1 = Some v /\ v !! Z.to_nat p.2 = Some u /\ isUsed u = false.

(** Marking as an update of the map. *)
Definition flip (b : bool) (p : Z * Z) (m : gmap Z (list multisignature_output_usage_t)) : gmap Z (list multisignature_output_usage_t) :=
  alter (alter (set_used b) (Z.to_nat p.2)) p.1 m.

Lemma mark_flip b m i v u : m !! multi_amount i = Some v -> v !! Z.to_nat (outputIndex i) = Some u ->
  mark b m i = Some (flip b (multi_amount i, outputIndex i) m).
Proof.
  intros Hv Hu. unfold mark, flip. rewrite Hv. cbn [mbind option_bind fst snd]. apply lookup_lt_Some in Hu.
  replace (Z.to_nat (outputIndex i) <? length v)%nat with true by (symmetry; by apply Nat.ltb_lt). f_equal.
  apply map_eq. intros k. destruct (decide (k = multi_amount i)) as [->|Hk].
  - rewrite lookup_insert_eq, lookup_alter_eq, Hv. done.
  - by rewrite lookup_insert_ne, lookup_alter_ne by done.
Qed.

Lemma flip_unused p q m : p <> q -> 0 <= q.2 -> unused m p -> unused (flip true q m) p.
Proof.
  intros Hne Hq (H0 & v & u & Hv & Hu & Hf). split; [done|]. unfold flip. destruct (decide (p.1 = q.1)) as [E|E].
  - exists (alter (set_used true) (Z.to_nat q.2) v), u. rewrite E, lookup_alter_eq, <- E, Hv. split_and!; [done| |done].
    rewrite list_lookup_alter_ne; [done|]. intros E2. apply Hne. destruct p, q. cbn in *. f_equal; lia.
  - exists v, u. by rewrite lookup_alter_ne.
Qed.

(** Unmarking one input after the others were marked. *)
Lemma flip_commute p q m : p <> q -> 0 <= p.2 -> 0 <= q.2 -> flip false p (flip true q m) = flip true q (flip false p m).
Proof.
  intros Hne Hp Hq. unfold flip. destruct (decide (p.1 = q.1)) as [E|E].
  - assert (E2 : Z.to_nat p.2 <> Z.to_nat q.2) by (intros E2; apply Hne; destruct p, q; cbn in *; f_equal; lia).
    rewrite E. apply map_eq. intros k. destruct (decide (k = q.1)) as [->|Hk]; [|by rewrite !lookup_alter_ne].
    rewrite !lookup_alter_eq. destruct (m !! q.1) as [v|]; [|done]. cbn. f_equal. apply list_eq. intros j. rewrite !list_lookup_alter. repeat case_decide; congruence.
  - apply map_eq. intros k. rewrite !lookup_alter. repeat case_decide; congruence.
Qed.

Lemma flip_back p m : unused m p -> flip false p (flip true p m) = m.
Proof.
  intros (H0 & v & u & Hv & Hu & Hf). unfold flip. apply map_eq. intros k. destruct (decide (k = p.1)) as [->|Hk]; [|by rewrite !lookup_alter_ne].
  rewrite !lookup_alter_eq, Hv. cbn. f_equal. apply list_eq. intros j. destruct (decide (j = Z.to_nat p.2)) as [->|Hj]; [|by rewrite !list_lookup_alter_ne].
  rewrite !list_lookup_alter_eq, Hu. cbn. f_equal. destruct u. cbn in *. by subst.
Qed.

Lemma mark_loop_flips m l : NoDup (multi_pairs l) -> Forall (unused m) (multi_pairs l) -> mark_loop true m l = Some (foldl (fun m p => flip true p m) m (multi_pairs l)).
Proof.
  revert m. induction l as [|i l IH]; intros m N U; [done|]. destruct i as [i|i|i]; cbn [mark_loop multi_pairs omap list_omap foldl] in *; [by apply IH..|].
  fold (multi_pairs l) in *. apply list.NoDup_cons in N as [Ni N]. apply Forall_cons_1 in U as [Ui U]. destruct Ui as (H0 & v & u & Hv & Hu & Hf).
  rewrite (mark_flip true m i v u Hv Hu). cbn [mbind option_bind]. apply IH; [done|]. rewrite list.Forall_forall in U |- *. intros p Hp.
  apply flip_unused; [intros ->; done|done|by apply U].
Qed.

Lemma flips_flip p m ps : p ∉ ps -> 0 <= p.2 -> Forall (fun q => 0 <= q.2) ps ->
  flip false p (foldl (fun m q => flip true q m) m ps) = foldl (fun m q => flip true q m) (flip false p m) ps.
Proof.
  intros Hn Hp Hq. revert m Hn. induction Hq as [|q ps Hq Hqs IH]; intros m Hn; [done|]. cbn [foldl]. rewrite IH by (intros H; apply Hn; by right).
  f_equal. apply flip_commute; [intros ->; apply Hn; by left|done|done].
Qed.

(** After the marks, every pair still names an output. *)
Lemma flips_lookup m ps p : unused m p -> exists v u, foldl (fun m q => flip true q m) m ps !! p.1 = Some v /\ v !! Z.to_nat p.2 = Some u.
Proof.
  intros (_ & v & u & Hv & Hu & _). assert (G : exists v u, m !! p.1 = Some v /\ v !! Z.to_nat p.2 = Some u) by eauto. clear v u Hv Hu. revert m G.
  induction ps as [|q ps IH]; intros m (v & u & Hv & Hu); [eauto|]. cbn [foldl]. apply IH. unfold flip. destruct (decide (q.1 = p.1)) as [E|E].
  - rewrite E, lookup_alter_eq, Hv. cbn. exists (alter (set_used true) (Z.to_nat q.2) v). rewrite list_lookup_alter. case_decide as E2; [rewrite E2|]; rewrite Hu; eauto.
  - rewrite lookup_alter_ne by done. eauto.
Qed.

Lemma unmark_marked m l : NoDup (multi_pairs l) -> Forall (unused m) (multi_pairs l) -> mark_loop false (foldl (fun m p => flip true p m) m (multi_pairs l)) l = Some m.
Proof.
  revert m. induction l as [|i l IH]; intros m N U; [done|]. destruct i as [i|i|i]; cbn [mark_loop multi_pairs omap list_omap] in *; [by apply IH..|].
  fold (multi_pairs l) in *. apply list.NoDup_cons in N as [Ni N]. apply Forall_cons_1 in U as [Ui U]. set (p := (multi_amount i, outputIndex i)) in *.
  destruct (flips_lookup m (p :: multi_pairs l) p Ui) as (v & u & Hv & Hu). rewrite (mark_flip false _ i v u Hv Hu). cbn [mbind option_bind foldl]. fold p.
  rewrite flips_flip; [|done|apply Ui|eapply list.Forall_impl; [exact U|intros q [H _]; exact H]]. rewrite flip_back by done. by apply IH.
Qed.

(** ** Outputs: adding and its undoing *)

(** No amount has an empty list. *)
Definition no_empty {A} (m : gmap Z (list A)) : Prop := forall a, m !! a <> Some [].

Lemma no_empty_add {A} (m : gmap Z (list A)) a x : no_empty m -> no_empty (<[a := amount_list m a ++ [x]]> m).
Proof.
  intros H k. destruct (decide (k = a)) as [->|]; [|by rewrite lookup_insert_ne]. rewrite lookup_insert_eq. intros [= E]. by destruct (amount_list m a).
Qed.

Lemma pop_back_app {A} (v : list A) x : pop_back (v ++ [x]) = v.
Proof. unfold pop_back. rewrite length_app. cbn. rewrite Nat.add_sub. apply take_app_length. Qed.

Lemma restore {A} (m : gmap Z (list A)) a x : no_empty m ->
  match amount_list m a with [] => delete a (<[a := amount_list m a ++ [x]]> m) | _ => <[a := amount_list m a]> (<[a := amount_list m a ++ [x]]> m) end = m.
Proof.
  intros H. unfold amount_list. destruct (m !! a) as [v|] eqn:E; cbn.
  - destruct v as [|y v]; [by destruct (H a)|]. rewrite insert_insert_eq. by apply insert_id.
  - apply delete_insert_id. done.
Qed.

Lemma remove_added idx n o outs multis : no_empty outs -> no_empty multis ->
  match target o with
  | key_output _ => remove_output idx n o (<[out_amount o := amount_list outs (out_amount o) ++ [(idx, Z.of_nat n)]]> outs) multis
  | multi_signature_output _ => remove_output idx n o outs (<[out_amount o := amount_list multis (out_amount o) ++ [mkusage idx (Z.of_nat n) false]]> multis)
  end = (outs, multis).
Proof.
  intros Ho Hm. unfold remove_output. destruct (target o).
  - rewrite lookup_insert_eq, last_snoc, bool_decide_true, Z.eqb_refl, pop_back_app by done. cbn [negb].
    pose proof (restore outs (out_amount o) (idx, Z.of_nat n) Ho) as R. by destruct (amount_list outs (out_amount o)); f_equal.
  - rewrite lookup_insert_eq, last_snoc. cbn [isUsed usage_index usage_output]. rewrite bool_decide_true, Z.eqb_refl, pop_back_app by done. cbn [negb].
    pose proof (restore multis (out_amount o) (mkusage idx (Z.of_nat n) false) Hm) as R. by destruct (amount_list multis (out_amount o)); f_equal.
Qed.

Lemma remove_outputs_added idx n l outs multis : no_empty outs -> no_empty multis ->
  let '(outs', multis', _) := add_outputs idx n l outs multis in no_empty outs' /\ no_empty multis' /\ remove_outputs idx n l outs' multis' = (outs, multis).
Proof.
  revert n outs multis. induction l as [|o l IH]; intros n outs multis Ho Hm; [done|]. cbn [add_outputs remove_outputs].
  pose proof (remove_added idx n o outs multis Ho Hm) as R. destruct (target o).
  - specialize (IH (S n) _ multis (no_empty_add outs (out_amount o) (idx, Z.of_nat n) Ho) Hm). destruct (add_outputs _ _ _ _ _) as [[outs' multis'] g].
    destruct IH as (H1 & H2 & ->). done.
  - specialize (IH (S n) outs _ Ho (no_empty_add multis (out_amount o) (mkusage idx (Z.of_nat n) false) Hm)). destruct (add_outputs _ _ _ _ _) as [[outs' multis'] g].
    destruct IH as (H1 & H2 & ->). done.
Qed.

Lemma flips_no_empty m ps : no_empty m -> no_empty (foldl (fun m p => flip true p m) m ps).
Proof.
  revert m. induction ps as [|p ps IH]; intros m H; [done|]. cbn [foldl]. apply IH. intros a. unfold flip. rewrite lookup_alter. case_decide as E; [|by apply H]. subst a.
  specialize (H p.1). destruct (m !! p.1) as [v|]; [|done]. cbn. intros [= E']. apply H. f_equal. apply (f_equal length) in E'. rewrite length_alter in E'. by destruct v.
Qed.

(** ** Payment ids *)

Lemma payment_remove_add index tx : payment_remove (payment_add index tx) tx = index.
Proof. unfold payment_remove, payment_add. destruct (getPaymentId tx); [|done]. cbn. by rewrite bool_decide_true. Qed.

(** ** Push and pop *)

Definition indexes_ok (st : chain_indexes) : Prop := no_empty (m_outputs st) /\ no_empty (m_multisignatureOutputs st).

(** What [validateInput] has checked of the multisignature inputs. *)
Definition inputs_unused (st : chain_indexes) (tx : transaction_t) : Prop := Forall (unused (m_multisignatureOutputs st)) (multi_pairs (inputs (prefix tx))).

Lemma push_pop st tx h idx st' g : indexes_ok st -> inputs_unused st tx -> pushTransaction st tx h idx = Pushed st' g ->
  indexes_ok st' /\ popTransaction st' tx h = Some st /\ m_spent_keys st' = m_spent_keys st ∪ list_to_set (key_images (inputs (prefix tx))) /\
  NoDup (key_images (inputs (prefix tx))) /\ (forall k, k ∈ key_images (inputs (prefix tx)) -> k ∉ m_spent_keys st) /\ m_transactionMap st' !! h = Some idx.
Proof.
  intros [Ho Hm] U E. unfold pushTransaction in E. destruct (m_transactionMap st !! h) as [?|] eqn:Eh; [done|]. destruct (checkMultisignatureInputsDiff _) eqn:Ed; [|done].
  cbn [negb] in E. destruct (multisignature_loop_nodup _ _ Ed) as [N _]. destruct (spend_loop _ _ _) as [s|?|] eqn:Es; [|done..].
  destruct (spend_loop_spent _ _ _ _ Es) as (Nk & Dk & ->). rewrite mark_loop_flips in E by done.
  destruct (65536 <=? _); [done|]. set (ms := foldl _ _ _) in E. assert (Hms : no_empty ms) by (by apply flips_no_empty).
  pose proof (remove_outputs_added idx 0 (outputs (prefix tx)) (m_outputs st) ms Ho Hms) as R. destruct (add_outputs _ _ _ _ _) as [[outs multis] gl].
  destruct R as (R1 & R2 & R3). injection E as <- <-. split_and!; [done| |done|done|done|apply lookup_insert_eq].
  unfold popTransaction. cbn [m_transactionMap m_outputs m_multisignatureOutputs m_spent_keys m_paymentIdIndex]. rewrite lookup_insert_eq. cbn [mbind option_bind]. rewrite R3.
  unfold ms. rewrite unmark_marked by done. cbn [mbind option_bind]. rewrite payment_remove_add, erase_keys_eq, delete_insert_id by done. destruct st as [a b c d e]. cbn in *. do 2 f_equal.
  set_unfold. intros x. specialize (Dk x). tauto.
Qed.
