(* ===== verification/Validate.v ===== *)
(** * Checking the inputs of a transaction: cryptonote/core/blockchain.cpp, blockchain.h

    The keys a ring refers to are looked up in the chain and the ring
    signature is checked against them; multisignature inputs are checked
    signature by signature.  [Value] is [true], [Rejected] is [false], and
    [Asserted] a failed assertion or an access out of range.  The current time
    is an argument. *)

From stdpp Require Import gmap.
From S2P Require Import Prelude Keccak Stream Types Binary Amounts Base58 Currency ChainIndex Crypto.

#[local] Opaque cn_fast_hash check_ring_signature check_signature.

(** [m_blocks] is a [BlockAccessor<block_entry_t>] in the source, with
    [getPoolSize] entries in memory and all of them in a file.  Here it is the
    list of entries pushed, which is what the accessor answers as long as the
    chain has no more than [getPoolSize] blocks (BlockStore.v). *)
Record chain := mkchain {
  chain_index : chain_indexes;
  m_blocks : list block_entry_t;
  m_is_in_checkpoint_zone : bool;
}.

Definition getHeight (ch : chain) : Z := u32 (Z.of_nat (length (m_blocks ch))).

(** A [signature_t] in a transaction. *)
Definition as_signature (b : bytes) : signature := mksig (take 32 b) (drop 32 b).

(** Results of the cryptographic functions. *)
Definition checked (r : result bool) : Decoded unit := match r with Ok true => Value tt | Ok false => Rejected | Stop _ => Asserted end.

(** The block index is compared in 32 bits plus a [size_t]. *)
Definition is_tx_spendtime_unlocked (c : currency) (ch : chain) (now unlock_time : Z) : bool :=
  if unlock_time <? maxBlockHeight c then unlock_time <=? u64 (u32 (getHeight ch - 1) + lockedTxAllowedDeltaBlocks c)
  else unlock_time <=? u64 (now + lockedTxAllowedDeltaSeconds c).

Definition transactionByIndex (ch : chain) (index : transaction_index_t) : Decoded transaction_entry_t :=
  match m_blocks ch !! Z.to_nat (index_block index) with
  | Some b => match transactions b !! Z.to_nat (index_transaction index) with Some tx => Value tx | None => Asserted end
  | None => Asserted
  end.

(** [outputs_visitor::handle_output] *)
Definition handle_output (c : currency) (ch : chain) (now : Z) (tx : transaction_t) (out : transaction_output_t) : Decoded bytes :=
  if negb (is_tx_spendtime_unlocked c ch now (unlockTime (prefix tx))) then Rejected
  else match target out with key_output o => Value (out_key o) | _ => Rejected end.

(** The loop over the absolute offsets; [pmax] is [*pmax_related_block_height]. *)
Fixpoint scan_loop (c : currency) (ch : chain) (now : Z) (amount_outs_vec : list (transaction_index_t * Z)) (offsets : list Z) (pmax : Z) : Decoded (list bytes * Z) :=
  match offsets with
  | [] => Value ([], pmax)
  | i :: offsets =>
      match amount_outs_vec !! Z.to_nat i with
      | None => Rejected
      | Some (index, n) =>
          tx ← transactionByIndex ch index;
          match outputs (prefix (entry_tx tx)) !! Z.to_nat n with
          | None => Rejected
          | Some out =>
              key ← handle_output c ch now (entry_tx tx) out;
              let pmax := match offsets with [] => if pmax <? index_block index then index_block index else pmax | _ => pmax end in
              '(keys, pmax) ← scan_loop c ch now amount_outs_vec offsets pmax;
              Value (key :: keys, pmax)
          end
      end
  end.

Definition scanOutputKeysForIndexes (c : currency) (ch : chain) (now : Z) (txin : key_input_t) (pmax : Z) : Decoded (list bytes * Z) :=
  match m_outputs (chain_index ch) !! key_amount txin with
  | None => Rejected
  | Some amount_outs_vec =>
      match outputIndexes txin with
      | [] => Rejected
      | _ => scan_loop c ch now amount_outs_vec (relative_output_offsets_to_absolute (outputIndexes txin)) pmax
      end
  end.

Definition check_tx_input (c : currency) (ch : chain) (now : Z) (txin : key_input_t) (tx_prefix_hash : bytes) (sig : list bytes) (pmax : Z) : Decoded Z :=
  '(output_keys, pmax) ← scanOutputKeysForIndexes c ch now txin pmax;
  if negb (length (outputIndexes txin) =? length output_keys)%nat then Rejected
  else if negb (length sig =? length output_keys)%nat then Rejected
  else if m_is_in_checkpoint_zone ch then Value pmax
  else _ ← checked (check_ring_signature tx_prefix_hash (keyImage txin) output_keys (as_signature <$> sig)); Value pmax.

(** The loop of [validateInput]: the signatures are matched with the keys in order. *)
Fixpoint match_signatures (transactionPrefixHash : bytes) (keys sigs : list bytes) : Decoded unit :=
  match sigs with
  | [] => Value tt
  | sig :: rest =>
      match keys with
      | [] => Rejected
      | key :: keys =>
          match check_signature transactionPrefixHash key (as_signature sig) with
          | Ok true => match_signatures transactionPrefixHash keys rest
          | Ok false => match_signatures transactionPrefixHash keys sigs
          | Stop _ => Asserted
          end
      end
  end.

Definition validateInput (c : currency) (ch : chain) (now : Z) (input : multi_signature_input_t) (transactionPrefixHash : bytes) (transactionSignatures : list bytes) : Decoded unit :=
  _ ← massert (signatureCount input =? Z.of_nat (length transactionSignatures));
  match m_multisignatureOutputs (chain_index ch) !! multi_amount input with
  | None => Rejected
  | Some amountOutputs =>
      match amountOutputs !! Z.to_nat (outputIndex input) with
      | None => Rejected
      | Some usage =>
          if isUsed usage then Rejected
          else
            outputTransaction ← transactionByIndex ch (usage_index usage);
            if negb (is_tx_spendtime_unlocked c ch now (unlockTime (prefix (entry_tx outputTransaction)))) then Rejected
            else
              match outputs (prefix (entry_tx outputTransaction)) !! Z.to_nat (usage_output usage) with
              | None => Asserted
              | Some out =>
                  _ ← massert (out_amount out =? multi_amount input);
                  match target out with
                  | key_output _ => Asserted
                  | multi_signature_output output =>
                      if negb (signatureCount input =? requiredSignatureCount output) then Rejected
                      else match_signatures transactionPrefixHash (out_keys output) transactionSignatures
                  end
              end
      end
  end.

(** The loop over the inputs. *)
Fixpoint check_inputs (c : currency) (ch : chain) (now : Z) (tx_prefix_hash : bytes) (l : list transaction_input_t) (signatures : list (list bytes)) (pmax : Z) : Decoded Z :=
  match l with
  | [] => Value pmax
  | txin :: l =>
      match signatures with
      | [] => Asserted
      | sig :: signatures =>
          match txin with
          | key_input i =>
              if match outputIndexes i with [] => true | _ => false end then Rejected
              else if have_tx_keyimg_as_spent (chain_index ch) (keyImage i) then Rejected
              else pmax ← check_tx_input c ch now i tx_prefix_hash sig pmax; check_inputs c ch now tx_prefix_hash l signatures pmax
          | multi_signature_input i =>
              _ ← validateInput c ch now i tx_prefix_hash sig; check_inputs c ch now tx_prefix_hash l signatures pmax
          | base_input _ => Rejected
          end
      end
  end.

(** [checkTransactionInputs]: the value is the highest block referred to. *)
Definition checkTransactionInputs (c : currency) (ch : chain) (now : Z) (tx : transaction_t) : Decoded Z :=
  let tx_prefix_hash := objectHash write_prefix (prefix tx) in
  check_inputs c ch now tx_prefix_hash (inputs (prefix tx)) (signatures tx) 0.

(** [check_block_timestamp_main] and [check_block_timestamp] *)
Definition check_block_timestamp (c : currency) (timestamps : list Z) (b : block_t) : bool :=
  if Z.of_nat (length timestamps) <? timestampCheckWindow c then true else negb (timestamp (header b) <? medianValue timestamps).
Definition check_block_timestamp_main (c : currency) (ch : chain) (now : Z) (b : block_t) : bool :=
  if u64 (now + blockFutureTimeLimit c) <? timestamp (header b) then false
  else
    let size := Z.of_nat (length (m_blocks ch)) in
    let offset := if size <=? timestampCheckWindow c then 0 else size - timestampCheckWindow c in
    check_block_timestamp c ((fun e => timestamp (header (bl e))) <$> drop (Z.to_nat offset) (m_blocks ch)) b.

Definition checkCumulativeBlockSize (c : currency) (cumulativeBlockSize height : Z) : Decoded unit :=
  maxSize ← maxBlockCumulativeSize c height;
  if maxSize <? cumulativeBlockSize then Rejected else Value tt.

(** ** What an accepted transaction spends *)

(** An accepted multisignature input names an output that is not used. *)
Lemma validateInput_unused c ch now i h sigs : 0 <= outputIndex i -> validateInput c ch now i h sigs = Value tt ->
  unused (m_multisignatureOutputs (chain_index ch)) (multi_amount i, outputIndex i).
Proof.
  intros H0 E. unfold validateInput in E. apply bind_Value in E as (? & _ & E). destruct (m_multisignatureOutputs _ !! _) as [v|] eqn:Ev; [|done].
  destruct (v !! _) as [u|] eqn:Eu; [|done]. destruct (isUsed u) eqn:Ef; [done|]. split; [done|]. by exists v, u.
Qed.

Lemma check_inputs_spends c ch now h l sigs pmax n : check_inputs c ch now h l sigs pmax = Value n ->
  Forall (fun i => match i with multi_signature_input i => 0 <= outputIndex i | _ => True end) l ->
  Forall (unused (m_multisignatureOutputs (chain_index ch))) (multi_pairs l) /\ (forall k, k ∈ key_images l -> k ∉ m_spent_keys (chain_index ch)).
Proof.
  revert sigs pmax. induction l as [|i l IH]; intros sigs pmax E V; [split; [constructor|by intros k ?%elem_of_nil]|]. apply Forall_cons_1 in V as [Vi V].
  cbn [check_inputs] in E. destruct sigs as [|sig sigs]; [done|]. destruct i as [i|i|i]; [done| |].
  - destruct (match outputIndexes i with [] => _ | _ => _ end); [done|]. unfold have_tx_keyimg_as_spent in E. case_bool_decide as Hk; [done|].
    apply bind_Value in E as (p & _ & E). destruct (IH sigs p E V) as [U K]. cbn [multi_pairs key_images omap list_omap]. split; [done|].
    intros k [->|Hin]%list.elem_of_cons; [done|by apply K].
  - apply bind_Value in E as ([] & Ev & E). destruct (IH sigs pmax E V) as [U K]. cbn [multi_pairs key_images omap list_omap]. split; [|done].
    constructor; [by eapply validateInput_unused|done].
Qed.

Lemma checked_unspent c ch now tx n : checkTransactionInputs c ch now tx = Value n -> Forall valid_input (inputs (prefix tx)) ->
  inputs_unused (chain_index ch) tx /\ (forall k, k ∈ key_images (inputs (prefix tx)) -> k ∉ m_spent_keys (chain_index ch)).
Proof.
  intros E V. eapply check_inputs_spends; [exact E|]. eapply list.Forall_impl; [exact V|]. intros [i|i|i] Hi; [done..|]. apply Hi.
Qed.
