(* ===== verification/ChainPush.v ===== *)
(** * Pushing a block: cryptonote/core/blockchain.cpp

    The part of [Blockchain::pushBlock] that changes the indexes: the miner
    transaction and the others are entered one by one, each checked on the
    state after those before it, then the size and the reward are checked and
    the block is appended.  The results of [pushTransaction] are ignored, as
    the source does; the checks before it (hash, previous block, timestamp,
    difficulty and proof of work) change nothing. *)

From stdpp Require Import gmap.
From S2P Require Import Prelude Keccak Stream Types Binary Amounts Base58 Currency ChainIndex Validate.

Inductive block_result := Accepted (ch : chain) | Refused (ch : chain) | Crashed.

(** [BinaryArray::size] and the size of [BinaryArray::to]. *)
Definition binary_size {A} (w : A -> option bytes) (x : A) : Z := match w x with Some ba => Z.of_nat (length ba) | None => 2 ^ 64 - 1 end.
Definition blob_size {A} (w : A -> option bytes) (x : A) : Z := match w x with Some ba => Z.of_nat (length ba) | None => 0 end.

Definition with_index (ch : chain) (ci : chain_indexes) : chain := mkchain ci (m_blocks ch) (m_is_in_checkpoint_zone ch).

(** [popTransactions]: the last transaction first, the miner transaction at the end. *)
Fixpoint popTransactions (ci : chain_indexes) (pushed : list (bytes * transaction_t)) : option chain_indexes :=
  match pushed with
  | [] => Some ci
  | (h, tx) :: pushed => ci ← popTransaction ci tx h; popTransactions ci pushed
  end.

(** [getBackwardBlocksSize] from the last block, [get_last_n_blocks_sizes]. *)
Definition get_last_n_blocks_sizes (ch : chain) (count : nat) : list Z :=
  block_cumulative_size <$> drop (length (m_blocks ch) - Nat.min (length (m_blocks ch)) count) (m_blocks ch).

(** [m_blocks.empty() ? 0 : m_blocks.back().already_generated_coins] *)
Definition coins_before (ch : chain) : Z := match list.last (m_blocks ch) with Some e => already_generated_coins e | None => 0 end.

(** The state of the loop: the indexes, the entries of the block, the sizes and fees. *)
Record progress := mkprogress { pr_index : chain_indexes; pr_pushed : list (bytes * transaction_t); pr_entries : list transaction_entry_t; pr_size : Z; pr_fee : Z }.

(** Pushing one transaction, whatever the result: [tx] is appended to the
    entries of the block, and [pushTransaction] enters the entry
    [block.transactions[transactionIndex.transaction]], whose index is a
    [uint16_t] that is one more for every transaction and wraps. *)
Definition push_step (block : Z) (p : progress) (tx : transaction_t) (h : bytes) (size fee : Z) : option progress :=
  let entries := pr_entries p ++ [mkentry tx []] in
  let k := u16 (Z.of_nat (length (pr_pushed p))) in
  transaction ← entries !! Z.to_nat k;
  match pushTransaction (pr_index p) (entry_tx transaction) h (mkindex block k) with
  | Pushed ci g =>
      Some (mkprogress ci ((h, tx) :: pr_pushed p) (<[Z.to_nat k := mkentry (entry_tx transaction) g]> entries) (u64 (pr_size p + size)) (u64 (pr_fee p + fee)))
  | NotPushed ci => Some (mkprogress ci ((h, tx) :: pr_pushed p) entries (u64 (pr_size p + size)) (u64 (pr_fee p + fee)))
  | Thrown => None
  end.

Section push.
Context (c : currency) (ch : chain) (now : Z).

Definition block_number : Z := u32 (Z.of_nat (length (m_blocks ch))).

(** The loop over the transactions of the block. *)
Fixpoint push_loop (p : progress) (l : list (bytes * transaction_t)) : block_result + progress :=
  match l with
  | [] => inr p
  | (tx_id, tx) :: l =>
      let fee := u64 (getInputAmount (prefix tx) - getOutputAmount (prefix tx)) in
      match checkTransactionInputs c (with_index ch (pr_index p)) now tx with
      | Asserted => inl Crashed
      | Rejected => inl (match popTransactions (pr_index p) (pr_pushed p) with Some ci => Refused (with_index ch ci) | None => Crashed end)
      | Value _ => match push_step block_number p tx tx_id (blob_size write_transaction tx) fee with Some p => push_loop p l | None => inl Crashed end
      end
  end.

Definition pushBlock (currentDifficulty : Z) (blockData : block_t) (transactions : list transaction_t) : block_result :=
  if negb (prevalidate_miner_transaction c blockData block_number) then Refused ch
  else
    let miner := baseTransaction blockData in
    let minerTransactionHash := objectHash write_transaction miner in
    match push_step block_number (mkprogress (chain_index ch) [] [] 0 0) miner minerTransactionHash (binary_size write_transaction miner) 0 with
    | None => Crashed
    | Some p =>
        match push_loop p (zip (transactionHashes blockData) transactions) with
        | inl r => r
        | inr p =>
            match checkCumulativeBlockSize c (pr_size p) (Z.of_nat (length (m_blocks ch))) with
            | Asserted => Crashed
            | Rejected => Refused (with_index ch (pr_index p))
            | Value _ =>
                let generated := coins_before ch in
                match validate_miner_transaction c (get_last_n_blocks_sizes ch (rewardBlocksWindow c)) blockData (pr_size p) generated (pr_fee p) with
                | Asserted => Crashed
                | Rejected => match popTransactions (pr_index p) (pr_pushed p) with Some ci => Refused (with_index ch ci) | None => Crashed end
                | Value (_, emissionChange) =>
                    let difficulty := match list.last (m_blocks ch) with Some e => u64 (currentDifficulty + cumulative_difficulty e) | None => currentDifficulty end in
                    let block := mkblock_entry blockData block_number (pr_size p) difficulty (u64 (generated + emissionChange)) (pr_entries p) in
                    Accepted (mkchain (pr_index p) (m_blocks ch ++ [block]) (m_is_in_checkpoint_zone ch))
                end
            end
        end
    end.
End push.

(** ** Transactions pushed one after the other *)

(** What the semantic checks of the pool and the format ensure of a transaction. *)
Definition pushable (tx : transaction_t) : Prop :=
  Forall valid_input (inputs (prefix tx)) /\ checkMultisignatureInputsDiff (prefix tx) = true /\ NoDup (key_images (inputs (prefix tx))) /\
  Z.of_nat (length (outputs (prefix tx))) < 65536.

Lemma spend_loop_total s before l : NoDup (key_images l) -> (forall k, k ∈ key_images l -> k ∉ s) -> exists s', spend_loop s before l = Spent s'.
Proof.
  revert s before. induction l as [|i l IH]; intros s before N D; [by eexists|]. destruct i as [i|i|i]; cbn [spend_loop key_images omap list_omap] in *; [by apply IH| |by apply IH].
  fold (key_images l) in *. apply list.NoDup_cons in N as [Ni N]. rewrite bool_decide_false by (apply D; by left). apply IH; [done|].
  intros k Hk. assert (k <> keyImage i) by (by intros ->). assert (k ∉ s) by (apply D; by right). set_solver.
Qed.

Lemma push_succeeds ci tx h idx : pushable tx -> m_transactionMap ci !! h = None -> inputs_unused ci tx ->
  (forall k, k ∈ key_images (inputs (prefix tx)) -> k ∉ m_spent_keys ci) -> exists ci' g, pushTransaction ci tx h idx = Pushed ci' g.
Proof.
  intros (_ & Hm & Hn & Ho) Hh Hu Hk. unfold pushTransaction. rewrite Hh, Hm. cbn [negb]. destruct (spend_loop_total (m_spent_keys ci) [] _ Hn Hk) as (s & ->).
  rewrite mark_loop_flips by (done || by apply (multisignature_loop_nodup [])). destruct (Z.leb_spec 65536 (Z.of_nat (length (outputs (prefix tx))))); [lia|].
  destruct (add_outputs _ _ _ _ _) as [[outs multis] g]. eauto.
Qed.

(** The transactions pushed on the indexes [ci0], the last first. *)
Inductive pushed_on (ci0 : chain_indexes) : list (bytes * transaction_t) -> chain_indexes -> Prop :=
  | pushed_nil : pushed_on ci0 [] ci0
  | pushed_cons l ci h tx idx ci' g : pushed_on ci0 l ci -> inputs_unused ci tx -> pushTransaction ci tx h idx = Pushed ci' g -> pushed_on ci0 ((h, tx) :: l) ci'.

Lemma push_map ci tx h idx ci' g : pushTransaction ci tx h idx = Pushed ci' g -> m_transactionMap ci' = <[h := idx]> (m_transactionMap ci).
Proof.
  unfold pushTransaction. destruct (m_transactionMap ci !! h); [done|]. destruct (negb _); [done|]. destruct (spend_loop _ _ _); [|done..]. destruct (mark_loop _ _ _); [|done].
  destruct (65536 <=? _); [done|]. destruct (add_outputs _ _ _ _ _) as [[outs multis] gl]. intros [= <- <-]. done.
Qed.

(** Everything pushed is in the indexes, and popping restores them. *)
Lemma pushed_on_facts ci0 l ci : indexes_ok ci0 -> pushed_on ci0 l ci -> indexes_ok ci /\ popTransactions ci l = Some ci0 /\
  (forall h, m_transactionMap ci !! h = None <-> m_transactionMap ci0 !! h = None /\ h ∉ l.*1) /\
  (forall h tx k, (h, tx) ∈ l -> k ∈ key_images (inputs (prefix tx)) -> k ∈ m_spent_keys ci) /\ m_spent_keys ci0 ⊆ m_spent_keys ci.
Proof.
  intros Hok H. induction H as [|l ci h tx idx ci' g H IH Hu E].
  { split_and!; [done|done| |by intros ? ? ? ?%elem_of_nil|done]. intros h. split; [intros; split; [done|by intros ?%elem_of_nil]|tauto]. }
  destruct IH as (Hok' & Hp & Hm & Hs & Hsub). destruct (push_pop ci tx h idx ci' g Hok' Hu E) as (Hok2 & Hpop & Hk & _ & _ & _). split_and!.
  - done.
  - cbn [popTransactions]. rewrite Hpop. cbn. done.
  - intros h'. rewrite (push_map _ _ _ _ _ _ E), lookup_insert_None, Hm. cbn. rewrite list.not_elem_of_cons. naive_solver.
  - intros h' tx' k [[= -> ->]|Hin]%list.elem_of_cons Hki; rewrite Hk; [apply elem_of_union; right; by rewrite elem_of_list_to_set|].
    apply elem_of_union. left. by eapply Hs.
  - rewrite Hk. set_solver.
Qed.

(** The key images of some transactions. *)
Definition images (l : list (bytes * transaction_t)) : list bytes := mjoin ((fun p => key_images (inputs (prefix p.2))) <$> l).

Lemma pushed_on_images ci0 l ci : indexes_ok ci0 -> pushed_on ci0 l ci ->
  NoDup (images l) /\ (forall k, k ∈ images l -> k ∉ m_spent_keys ci0) /\ m_spent_keys ci = m_spent_keys ci0 ∪ list_to_set (images l).
Proof.
  intros Hok H. induction H as [|l ci h tx idx ci' g H IH Hu E].
  { split_and!; [constructor|by intros ? ?%elem_of_nil|cbn; set_solver]. }
  destruct (pushed_on_facts ci0 l ci Hok H) as (Hok' & _). destruct (push_pop ci tx h idx ci' g Hok' Hu E) as (_ & _ & Hk & Nk & Dk & _). destruct IH as (N & D & S).
  unfold images. cbn [fmap list_fmap]. rewrite mjoin_cons. fold (images l). cbn [snd]. split_and!.
  - apply list.NoDup_app. split_and!; [done| |done]. intros k Hk1 Hk2. apply (Dk k Hk1). rewrite S. apply elem_of_union. right. by rewrite elem_of_list_to_set.
  - intros k [Hin|Hin]%elem_of_app; [|by apply D]. specialize (Dk k Hin). rewrite S in Dk. set_solver.
  - rewrite Hk, S, list_to_set_app_L. set_solver.
Qed.

(** The transactions of a block, as [pushBlock] enters them. *)
Definition block_transactions (b : block_t) (txs : list transaction_t) : list (bytes * transaction_t) :=
  (objectHash write_transaction (baseTransaction b), baseTransaction b) :: zip (transactionHashes b) txs.

(** A block of well-formed transactions with hashes that are new, at most 2^16
    of them with the miner's, so that the index of a transaction in the block
    does not wrap; and a chain that stays in the cache of the block storage. *)
Definition block_ok (ch : chain) (b : block_t) (txs : list transaction_t) : Prop :=
  Z.of_nat (length (block_transactions b txs)) <= 2 ^ 16 /\ Z.of_nat (length (m_blocks ch)) < getPoolSize /\
  indexes_ok (chain_index ch) /\ Forall (fun p => pushable p.2) (block_transactions b txs) /\ NoDup (block_transactions b txs).*1 /\
  (forall h, h ∈ (block_transactions b txs).*1 -> m_transactionMap (chain_index ch) !! h = None).

(** The size and the fees of a block, as [pushBlock] sums them up. *)
Definition add_sizes (s : Z) (l : list (bytes * transaction_t)) : Z := foldl (fun s q => u64 (s + blob_size write_transaction q.2)) s l.
Definition add_fees (f : Z) (l : list (bytes * transaction_t)) : Z := foldl (fun f q => u64 (f + u64 (getInputAmount (prefix q.2) - getOutputAmount (prefix q.2)))) f l.
Definition block_size (b : block_t) (txs : list transaction_t) : Z := add_sizes (u64 (binary_size write_transaction (baseTransaction b))) (zip (transactionHashes b) txs).
Definition block_fee (b : block_t) (txs : list transaction_t) : Z := add_fees 0 (zip (transactionHashes b) txs).

(** The entries of the block are the transactions pushed. *)
Definition entries_ok (p : progress) : Prop := entry_tx <$> pr_entries p = (reverse (pr_pushed p)).*2.

Section proofs.
Context (c : currency) (ch : chain) (now : Z).

(** As long as the index has not wrapped, the transaction pushed is [tx]. *)
Lemma push_step_index n p tx h size fee : entries_ok p -> Z.of_nat (length (pr_pushed p)) < 2 ^ 16 ->
  push_step n p tx h size fee = match pushTransaction (pr_index p) tx h (mkindex n (Z.of_nat (length (pr_pushed p)))) with
    | Pushed ci g => Some (mkprogress ci ((h, tx) :: pr_pushed p) (pr_entries p ++ [mkentry tx g]) (u64 (pr_size p + size)) (u64 (pr_fee p + fee)))
    | NotPushed ci => Some (mkprogress ci ((h, tx) :: pr_pushed p) (pr_entries p ++ [mkentry tx []]) (u64 (pr_size p + size)) (u64 (pr_fee p + fee)))
    | Thrown => None
    end.
Proof.
  intros He Hn. assert (L : length (pr_entries p) = length (pr_pushed p)) by (apply (f_equal length) in He; by rewrite !length_fmap, length_reverse in He).
  unfold push_step. rewrite wrap_small, Nat2Z.id, <- L, list_lookup_middle by (unfold is_word; lia). cbn [mbind option_bind entry_tx].
  destruct (pushTransaction _ _ _ _); [|done..]. by rewrite insert_app_r_alt, Nat.sub_diag by lia.
Qed.

Lemma push_step_pushed n p tx h size fee ci0 : entries_ok p -> Z.of_nat (length (pr_pushed p)) < 2 ^ 16 -> indexes_ok ci0 -> pushed_on ci0 (pr_pushed p) (pr_index p) -> pushable tx -> inputs_unused (pr_index p) tx ->
  (forall k, k ∈ key_images (inputs (prefix tx)) -> k ∉ m_spent_keys (pr_index p)) -> m_transactionMap ci0 !! h = None -> h ∉ (pr_pushed p).*1 ->
  exists p', push_step n p tx h size fee = Some p' /\ pushed_on ci0 (pr_pushed p') (pr_index p') /\ pr_pushed p' = (h, tx) :: pr_pushed p /\
    pr_size p' = u64 (pr_size p + size) /\ pr_fee p' = u64 (pr_fee p + fee) /\ entries_ok p'.
Proof.
  intros He Hl Hok H Hp Hu Hk Hh Hn. destruct (pushed_on_facts _ _ _ Hok H) as (_ & _ & Hm & _).
  destruct (push_succeeds (pr_index p) tx h (mkindex n (Z.of_nat (length (pr_pushed p)))) Hp (proj2 (Hm h) (conj Hh Hn)) Hu Hk) as (ci' & g & E).
  rewrite push_step_index, E by done. eexists. split; [done|]. split_and!; [by eapply pushed_cons|done..|]. unfold entries_ok. cbn [pr_entries pr_pushed].
  by rewrite reverse_cons, !fmap_app, He.
Qed.

Lemma push_loop_ok ci0 p l : entries_ok p -> Z.of_nat (length l + length (pr_pushed p)) <= 2 ^ 16 -> indexes_ok ci0 -> pushed_on ci0 (pr_pushed p) (pr_index p) -> Forall (fun q => pushable q.2) l -> NoDup l.*1 ->
  (forall h, h ∈ l.*1 -> m_transactionMap ci0 !! h = None /\ h ∉ (pr_pushed p).*1) ->
  match push_loop c ch now p l with
  | inl (Refused ch') => ch' = with_index ch ci0
  | inl (Accepted _) => False
  | inl Crashed => exists l1 q l2 ci, l = l1 ++ q :: l2 /\ pushed_on ci0 (reverse l1 ++ pr_pushed p) ci /\ checkTransactionInputs c (with_index ch ci) now q.2 = Asserted
  | inr p' => pushed_on ci0 (pr_pushed p') (pr_index p') /\ pr_pushed p' = reverse l ++ pr_pushed p /\ pr_size p' = add_sizes (pr_size p) l /\ pr_fee p' = add_fees (pr_fee p) l /\ entries_ok p'
  end.
Proof.
  intros He Hl Hok. revert p He Hl. induction l as [|[h tx] l IH]; intros p He Hl H Hp Hn Hf; [done|]. cbn [length] in Hl. apply Forall_cons_1 in Hp as [Ht Hp]. cbn in Hn. apply list.NoDup_cons in Hn as [Hh Hn].
  cbn [push_loop]. destruct (pushed_on_facts _ _ _ Hok H) as (_ & Hpop & _). destruct (checkTransactionInputs _ _ _ _) as [v| |] eqn:E.
  - destruct (checked_unspent _ _ _ _ _ E (proj1 Ht)) as [Hu Hk]. destruct (Hf h ltac:(by left)) as [F1 F2].
    destruct (push_step_pushed (block_number ch) p tx h (blob_size write_transaction tx) (u64 (getInputAmount (prefix tx) - getOutputAmount (prefix tx))) ci0 He ltac:(lia) Hok H Ht Hu Hk F1 F2) as (p' & -> & H' & Ep & Es & Ef & He').
    specialize (IH p' He' ltac:(rewrite Ep; cbn [length]; lia) H' Hp Hn). rewrite Ep in IH. cbn [fmap list_fmap fst] in IH.
    assert (Hf' : forall h', h' ∈ l.*1 -> m_transactionMap ci0 !! h' = None /\ h' ∉ h :: (pr_pushed p).*1).
    { intros h' Hin. destruct (Hf h' ltac:(by right)) as [? ?]. split; [done|]. intros [->|?]%list.elem_of_cons; done. }
    specialize (IH Hf'). destruct (push_loop c ch now p' l) as [[?|?|]|p'']; [done|done| |].
    + destruct IH as (l1 & q & l2 & ci & -> & Hq & Eq). exists ((h, tx) :: l1), q, l2, ci. rewrite reverse_cons, <- app_assoc. done.
    + rewrite reverse_cons, <- app_assoc. destruct IH as (? & ? & Is & If & ?). rewrite Is, If, Es, Ef. done.
  - by rewrite Hpop.
  - exists [], (h, tx), l, (pr_index p). done.
Qed.

(** The miner transaction spends nothing. *)
Lemma miner_spends_nothing b n : prevalidate_miner_transaction c b n = true ->
  multi_pairs (inputs (prefix (baseTransaction b))) = [] /\ key_images (inputs (prefix (baseTransaction b))) = [].
Proof. unfold prevalidate_miner_transaction. destruct (inputs (prefix (baseTransaction b))) as [|[] [|? ?]]; done. Qed.

Lemma miner_pushed b txs : block_ok ch b txs -> prevalidate_miner_transaction c b (block_number ch) = true -> exists p,
  push_step (block_number ch) (mkprogress (chain_index ch) [] [] 0 0) (baseTransaction b) (objectHash write_transaction (baseTransaction b)) (binary_size write_transaction (baseTransaction b)) 0 = Some p /\
  pushed_on (chain_index ch) (pr_pushed p) (pr_index p) /\ pr_pushed p = [(objectHash write_transaction (baseTransaction b), baseTransaction b)] /\
  pr_size p = u64 (binary_size write_transaction (baseTransaction b)) /\ pr_fee p = 0 /\ entries_ok p.
Proof.
  intros (_ & _ & Hok & Hp & Hn & Hf) Hm. destruct (miner_spends_nothing b _ Hm) as [M1 M2]. apply Forall_cons_1 in Hp as [Hp _].
  apply push_step_pushed; [done|done|done|constructor|exact Hp| | |apply Hf; by left|by intros ?%elem_of_nil].
  - unfold inputs_unused. rewrite M1. constructor.
  - rewrite M2. by intros k ?%elem_of_nil.
Qed.

(** The check of a transaction fails an assertion on the state after those before it. *)
Definition inputs_crash (b : block_t) (txs : list transaction_t) : Prop := exists l1 q l2 ci, block_transactions b txs = l1 ++ q :: l2 /\
  pushed_on (chain_index ch) (reverse l1) ci /\ checkTransactionInputs c (with_index ch ci) now q.2 = Asserted.

(** The loop on a block whose miner transaction is in. *)
Lemma block_loop b txs p : block_ok ch b txs -> pushed_on (chain_index ch) (pr_pushed p) (pr_index p) -> pr_pushed p = [(objectHash write_transaction (baseTransaction b), baseTransaction b)] ->
  pr_size p = u64 (binary_size write_transaction (baseTransaction b)) -> pr_fee p = 0 -> entries_ok p ->
  match push_loop c ch now p (zip (transactionHashes b) txs) with
  | inl (Refused ch') => ch' = ch
  | inl (Accepted _) => False
  | inl Crashed => inputs_crash b txs
  | inr p' => pushed_on (chain_index ch) (pr_pushed p') (pr_index p') /\ pr_pushed p' = reverse (block_transactions b txs) /\ pr_size p' = block_size b txs /\ pr_fee p' = block_fee b txs /\ entries_ok p'
  end.
Proof.
  intros (Hl & _ & Hok & Hp & Hn & Hf) H Ep Es Ef He. apply Forall_cons_1 in Hp as [_ Hp]. cbn in Hn. apply list.NoDup_cons in Hn as [Hh Hn].
  cbn [block_transactions length] in Hl.
  pose proof (push_loop_ok (chain_index ch) p (zip (transactionHashes b) txs) He ltac:(rewrite Ep; cbn [length]; lia) Hok H Hp Hn) as L. rewrite Ep in L. cbn [fmap list_fmap fst] in L.
  assert (Hf' : forall h, h ∈ (zip (transactionHashes b) txs).*1 -> m_transactionMap (chain_index ch) !! h = None /\ h ∉ [objectHash write_transaction (baseTransaction b)]).
  { intros h Hin. split; [apply Hf; by right|]. intros ->%list_elem_of_singleton. done. }
  specialize (L Hf'). destruct (push_loop _ _ _ _ _) as [[?|?|]|p']; [done| | |].
  - rewrite L. by destruct ch.
  - destruct L as (l1 & q & l2 & ci & El & Hq & Eq). exists ((objectHash write_transaction (baseTransaction b), baseTransaction b) :: l1), q, l2, ci.
    rewrite reverse_cons. unfold block_transactions. rewrite El. done.
  - unfold block_transactions, block_size, block_fee. rewrite reverse_cons, <- Es, <- Ef. done.
Qed.

(** The outcomes of [pushBlock]. *)
Lemma push_block_facts difficulty b txs : block_ok ch b txs ->
  match pushBlock c ch now difficulty b txs with
  | Accepted ch' => prevalidate_miner_transaction c b (block_number ch) = true /\
      pushed_on (chain_index ch) (reverse (block_transactions b txs)) (chain_index ch') /\ m_is_in_checkpoint_zone ch' = m_is_in_checkpoint_zone ch /\
      exists e, m_blocks ch' = m_blocks ch ++ [e] /\ bl e = b /\ (entry_tx <$> transactions e) = (block_transactions b txs).*2 /\
      cumulative_difficulty e = match list.last (m_blocks ch) with Some e => u64 (difficulty + cumulative_difficulty e) | None => difficulty end
  | Refused ch' => ch' = ch \/ checkCumulativeBlockSize c (block_size b txs) (Z.of_nat (length (m_blocks ch))) = Rejected /\
      exists ci, ch' = with_index ch ci /\ pushed_on (chain_index ch) (reverse (block_transactions b txs)) ci
  | Crashed => inputs_crash b txs \/ checkCumulativeBlockSize c (block_size b txs) (Z.of_nat (length (m_blocks ch))) = Asserted \/
      validate_miner_transaction c (get_last_n_blocks_sizes ch (rewardBlocksWindow c)) b (block_size b txs) (coins_before ch) (block_fee b txs) = Asserted
  end.
Proof.
  intros Hb. unfold pushBlock. destruct (prevalidate_miner_transaction c b (block_number ch)) eqn:Em; cbn [negb]; [|by left].
  destruct (miner_pushed b txs Hb Em) as (p & Ep0 & H & Ep & Es & Ef & He). rewrite Ep0. pose proof (block_loop b txs p Hb H Ep Es Ef He) as L.
  destruct (push_loop c ch now p _) as [[?|?|]|p'] eqn:El; [done|by left|by left|]. destruct L as (H' & Ep' & Es' & Ef' & He'). rewrite Es', Ef'.
  destruct (checkCumulativeBlockSize _ _ _) as [[]| |] eqn:Ec; [|right; split; [done|]; exists (pr_index p'); by rewrite <- Ep'|right; by left].
  destruct Hb as (_ & _ & Hok & _). destruct (pushed_on_facts _ _ _ Hok H') as (_ & Hpop & _). destruct (validate_miner_transaction _ _ _ _ _ _) as [[r e]| |] eqn:Ev.
  - split_and!; [done|by rewrite <- Ep'|done|]. eexists. split_and!; [done|done| |done]. cbn [transactions].
    rewrite He', Ep'. by rewrite reverse_involutive.
  - rewrite Hpop. left. by destruct ch.
  - right. by right.
Qed.
End proofs.


(** C25: A block refused for its size is not undone: when every input of the
    block, of at most 2^16 transactions, is valid and only its cumulative size is too large, [pushBlock]
    returns without popping what it has pushed.  The block is not in the
    chain, but its transactions stay indexed and their key images spent, so
    that the same transactions are refused from then on. *)
Theorem oversize_block_leaks c ch now difficulty b txs p p' : block_ok ch b txs -> prevalidate_miner_transaction c b (block_number ch) = true ->
  push_step (block_number ch) (mkprogress (chain_index ch) [] [] 0 0) (baseTransaction b) (objectHash write_transaction (baseTransaction b))
    (binary_size write_transaction (baseTransaction b)) 0 = Some p ->
  push_loop c ch now p (zip (transactionHashes b) txs) = inr p' ->
  checkCumulativeBlockSize c (block_size b txs) (Z.of_nat (length (m_blocks ch))) = Rejected ->
  exists ch', pushBlock c ch now difficulty b txs = Refused ch' /\ m_blocks ch' = m_blocks ch /\ chain_index ch' <> chain_index ch /\
    (forall h tx, (h, tx) ∈ block_transactions b txs -> haveTransaction (chain_index ch') h = true) /\
    (forall k, k ∈ images (block_transactions b txs) -> have_tx_keyimg_as_spent (chain_index ch') k = true).
Proof.
  intros Hb Em Ep El Ec. unfold pushBlock. rewrite Em, Ep, El. cbn [negb]. destruct (miner_pushed c ch b txs Hb Em) as (q & Eq & H & Eqp & Es & Ef & He).
  rewrite Ep in Eq. injection Eq as <-. pose proof (block_loop c ch now b txs p Hb H Eqp Es Ef He) as L. rewrite El in L. destruct L as (H' & Ep' & -> & _). rewrite Ec.
  eexists. split; [done|]. destruct Hb as (_ & _ & Hok & _ & _ & Hf). destruct (pushed_on_facts _ _ _ Hok H') as (_ & _ & Hm & _). destruct (pushed_on_images _ _ _ Hok H') as (_ & _ & S).
  rewrite Ep' in Hm, S. cbn [chain_index with_index m_blocks].
  assert (Hin : forall h tx, (h, tx) ∈ block_transactions b txs -> m_transactionMap (pr_index p') !! h <> None).
  { intros h tx Hin E. apply Hm in E as [_ E]. apply E. rewrite fmap_reverse. apply elem_of_reverse. apply list_elem_of_fmap. by exists (h, tx). }
  split_and!; [done| | |].
  - intros E. apply (Hin (objectHash write_transaction (baseTransaction b)) (baseTransaction b)); [by left|]. rewrite E. apply Hf. by left.
  - intros h tx Hi. unfold haveTransaction. specialize (Hin h tx Hi). by destruct (m_transactionMap (pr_index p') !! h).
  - intros k Hk. unfold have_tx_keyimg_as_spent. apply bool_decide_eq_true_2. rewrite S. apply elem_of_union. right. rewrite elem_of_list_to_set.
    unfold images in *. by rewrite reverse_Permutation.
Qed.

(** A first block with only a miner transaction, and a currency with small blocks. *)
Definition sample_block : block_t :=
  mkblock (mkheader 1 0 70 0 (replicate 32 0)) (mktransaction (mkprefix 1 60 [base_input (mkbase_input 0)] [mkoutput 1 (key_output (mkkey_output (replicate 32 3)))] []) [[]]) [].
Definition empty_chain : chain := mkchain no_indexes [] false.
Definition small_blocks : currency :=
  {| moneySupply := 10000000000000000; emissionSpeedFactor := 18; blockGrantedFullRewardZone := 10000; minedMoneyUnlockWindow := 60;
     maxBlockHeight := 500000000; lockedTxAllowedDeltaBlocks := 1; lockedTxAllowedDeltaSeconds := 120; timestampCheckWindow := 60; blockFutureTimeLimit := 7200;
     rewardBlocksWindow := 100; numberOfDecimalPlaces := 8; defaultDustThreshold := 100; maxBlockSizeInitial := 10; maxBlockSizeGrowthSpeedNumerator := 1;
     maxBlockSizeGrowthSpeedDenominator := 1; fusionTxMaxSize := 3000; fusionTxMinInputCount := 12; fusionTxMinInOutCountRatio := 4 |}.

Lemma sample_ok : block_ok empty_chain sample_block [].
Proof.
  split_and!; [done|done| |..].
  - split; intros a; cbn; by rewrite lookup_empty.
  - constructor; [|constructor]. split_and!; [constructor; [by vm_compute|constructor]|reflexivity|constructor|by vm_compute].
  - cbn. apply list.NoDup_singleton.
  - intros h _. apply lookup_empty.
Qed.


Lemma oversize_block_leaks_witness : exists ch', pushBlock small_blocks empty_chain 0 1 sample_block [] = Refused ch' /\ m_blocks ch' = [] /\
  chain_index ch' <> chain_index empty_chain /\
  (forall h tx, (h, tx) ∈ block_transactions sample_block [] -> haveTransaction (chain_index ch') h = true) /\
  (forall k, k ∈ images (block_transactions sample_block []) -> have_tx_keyimg_as_spent (chain_index ch') k = true).
Proof.
  destruct (miner_pushed small_blocks empty_chain sample_block [] sample_ok eq_refl) as (p & E & _).
  apply (oversize_block_leaks small_blocks empty_chain 0 1 sample_block [] p p sample_ok eq_refl E eq_refl). vm_compute. reflexivity.
Defined.
