(* ===== verification/TxBuild.v ===== *)
(** * Building a transaction: cryptonote/core/CryptoNoteFormatUtils.cpp, key.cpp

    [constructTransaction] derives the keys of the outputs it spends and of
    those it makes, and signs every input with a ring signature.  It draws
    from the random generator, so it lives in [rand]; [None] is the result
    [false].  [std::sort] leaves the order of destinations of equal amount
    open: it is an argument. *)

From stdpp Require Import sorting gmap.
From S2P Require Import Prelude Keccak KeccakProofs Random CInt BitField Fe FeProofs FeField Sc ScProofs Ge GeProofs EdAssoc EdGroup GeMult GeMultProofs GeCodec GeSpec GeData GeDataProofs GeHash GroupOrder Crypto CryptoProofs RingProofs Stream Types Binary TxExtra Amounts Base58 Currency ChainIndex Validate.

#[local] Opaque cn_fast_hash generate_key_derivation derive_public_key derive_secret_key generate_key_image generate_ring_signature check_ring_signature generate_keys.

Record transaction_source_entry_t := mksource {
  src_outputs : list (Z * bytes);
  realOutput : nat;
  realTransactionPublicKey : bytes;
  realOutputIndexInTransaction : Z;
  src_amount : Z;
}.
Record transaction_destination_entry_t := mkdestination { dst_amount : Z; dst_addr : account_public_address_t }.

(** [Key::generate] *)
Definition key_generate : rand key_pair_t := '(pub, sec) ← generate_keys; mret (mkpair pub sec).

(** Both results are asserted. *)
Definition generate_key_image_helper (ack : account_keys_t) (tx_public_key : bytes) (real_output_index : Z) : result (key_pair_t * bytes) :=
  recv_derivation ← generate_key_derivation tx_public_key (viewSecretKey ack);
  recv_derivation ← Crypto.of_assert recv_derivation;
  pub ← derive_public_key recv_derivation real_output_index (spendPublicKey (address ack));
  pub ← Crypto.of_assert pub;
  sec ← derive_secret_key recv_derivation real_output_index (spendSecretKey ack);
  ki ← generate_key_image pub sec;
  Ok (mkpair pub sec, ki).

(** The loop over the sources: the inputs with their contexts, and the sum. *)
Fixpoint build_inputs (ack : account_keys_t) (sources : list transaction_source_entry_t) (summary_inputs_money : Z)
    : result (option (list (key_input_t * key_pair_t) * Z)) :=
  match sources with
  | [] => Ok (Some ([], summary_inputs_money))
  | s :: sources =>
      if (length (src_outputs s) <=? realOutput s)%nat then Ok None
      else
        let summary_inputs_money := u64 (summary_inputs_money + src_amount s) in
        '(in_ephemeral, img) ← generate_key_image_helper ack (realTransactionPublicKey s) (realOutputIndexInTransaction s);
        if negb (bool_decide (Some (publicKey in_ephemeral) = (src_outputs s).*2 !! realOutput s)) then Ok None
        else
          let input_to_key := mkkey_input (src_amount s) (absolute_output_offsets_to_relative (src_outputs s).*1) img in
          r ← build_inputs ack sources summary_inputs_money;
          Ok (match r with Some (l, sum) => Some ((input_to_key, in_ephemeral) :: l, sum) | None => None end)
  end.

(** The loop over the destinations, from [output_index] on. *)
Fixpoint build_outputs (tx_secret : bytes) (output_index : nat) (dsts : list transaction_destination_entry_t) (summary_outs_money : Z)
    : result (option (list transaction_output_t * Z)) :=
  match dsts with
  | [] => Ok (Some ([], summary_outs_money))
  | d :: dsts =>
      if negb (0 <? dst_amount d) then Ok None
      else
        derivation ← generate_key_derivation (viewPublicKey (dst_addr d)) tx_secret;
        match derivation with
        | None => Ok None
        | Some derivation =>
            key ← derive_public_key derivation (Z.of_nat output_index) (spendPublicKey (dst_addr d));
            match key with
            | None => Ok None
            | Some key =>
                r ← build_outputs tx_secret (S output_index) dsts (u64 (summary_outs_money + dst_amount d));
                Ok (match r with Some (l, sum) => Some (mkoutput (dst_amount d) (key_output (mkkey_output key)) :: l, sum) | None => None end)
            end
        end
  end.

(** The bytes of a [signature_t]. *)
Definition signature_bytes (s : signature) : bytes := sig_c s ++ sig_r s.

(** The loop that signs; the signatures start as zeros. *)
Fixpoint sign_inputs (tx_prefix_hash : bytes) (l : list (transaction_source_entry_t * (key_input_t * key_pair_t))) : rand (list (list bytes)) :=
  match l with
  | [] => mret []
  | (s, (i, kp)) :: l =>
      sigs ← generate_ring_signature tx_prefix_hash (keyImage i) (src_outputs s).*2 (secretKey kp) (realOutput s)
        (replicate (length (src_outputs s)) (mksig (replicate 32 0) (replicate 32 0)));
      rest ← sign_inputs tx_prefix_hash l;
      mret ((signature_bytes <$> sigs) :: rest)
  end.

Section construct.
Context (sort : list transaction_destination_entry_t -> list transaction_destination_entry_t).

Definition constructTransaction (major : Z) (sender : account_keys_t) (sources : list transaction_source_entry_t)
    (destinations : list transaction_destination_entry_t) (extra : bytes) (unlock_time : Z) : rand (option transaction_t) :=
  txkey ← key_generate;
  let extra := addTransactionPublicKeyToExtra extra (publicKey txkey) in
  ins ← lift (build_inputs sender sources 0);
  match ins with
  | None => mret None
  | Some (ins, summary_inputs_money) =>
      outs ← lift (build_outputs (secretKey txkey) 0 (sort destinations) 0);
      match outs with
      | None => mret None
      | Some (outs, summary_outs_money) =>
          if summary_inputs_money <? summary_outs_money then mret None
          else
            let p := mkprefix major unlock_time ((fun x => key_input x.1) <$> ins) outs extra in
            let tx_prefix_hash := objectHash write_prefix p in
            sigs ← sign_inputs tx_prefix_hash (zip sources ins);
            mret (Some (mktransaction p sigs))
      end
  end.
End construct.

(** ** Receiving *)

(** A function that fails leaves its output as it was: [uninit], any bytes. *)
Definition is_out_to_acc (acc : account_keys_t) (out_key derivation : bytes) (keyIndex : Z) (uninit : bytes) : result bool :=
  pk ← derive_public_key derivation keyIndex (spendPublicKey (address acc));
  Ok (bool_decide (default uninit pk = out_key)).

(** The loop of [lookup_acc_outs]: the positions found and the money. *)
Fixpoint lookup_loop (acc : account_keys_t) (derivation uninit : bytes) (l : list transaction_output_t) (keyIndex outputIndex : nat) (outs : list nat) (money : Z)
    : result (list nat * Z) :=
  match l with
  | [] => Ok (outs, money)
  | o :: l =>
      match target o with
      | key_output k =>
          b ← is_out_to_acc acc (out_key k) derivation (Z.of_nat keyIndex) uninit;
          if (b : bool) then lookup_loop acc derivation uninit l (S keyIndex) (S outputIndex) (outs ++ [outputIndex]) (u64 (money + out_amount o))
          else lookup_loop acc derivation uninit l (S keyIndex) (S outputIndex) outs money
      | multi_signature_output m => lookup_loop acc derivation uninit l (keyIndex + length (out_keys m)) (S outputIndex) outs money
      end
  end.

Definition lookup_acc_outs (acc : account_keys_t) (tx : transaction_t) (tx_pub_key uninit : bytes) : result (list nat * Z) :=
  derivation ← generate_key_derivation tx_pub_key (viewSecretKey acc);
  lookup_loop acc (default uninit derivation) uninit (outputs (prefix tx)) 0 0 [] 0.

(** [None] is [false]: no public key in the extra. *)
Definition lookup_acc_outs_extra (acc : account_keys_t) (tx : transaction_t) (uninit : bytes) : result (option (list nat * Z)) :=
  let transactionPublicKey := getTransactionPublicKeyFromExtra (extra (prefix tx)) in
  if bool_decide (transactionPublicKey = replicate 32 0) then Ok None
  else r ← lookup_acc_outs acc tx transactionPublicKey uninit; Ok (Some r).

(** ** Owned outputs *)

(** The keys of an account belong together. *)
Definition account_ok (a : account_keys_t) : Prop :=
  is_b32 (spendSecretKey a) /\ secret_key_to_public_key (spendSecretKey a) = Some (spendPublicKey (address a)) /\
  is_b32 (viewSecretKey a) /\ secret_key_to_public_key (viewSecretKey a) = Some (viewPublicKey (address a)).

Lemma secret_canon s p : is_b32 s -> secret_key_to_public_key s = Some p -> canon s /\ p = pub_of (le s).
Proof. intros Hs. rewrite secret_key_value by done. destruct (Z.ltb_spec (le s) l_order) as [H|]; [|done]. intros [= <-]. done. Qed.

(** The real output of a source was sent to the account. *)
Definition owned (a : account_keys_t) (s : transaction_source_entry_t) (px : bytes) : Prop :=
  (src_outputs s).*2 !! realOutput s = Some px /\
  exists d, generate_key_derivation (realTransactionPublicKey s) (viewSecretKey a) = Ok (Some d) /\
    derive_public_key d (realOutputIndexInTransaction s) (spendPublicKey (address a)) = Ok (Some px).

Lemma helper_ok a s px : account_ok a -> owned a s px -> exists x image, canon x /\ px = pub_of (le x) /\
  generate_key_image px x = Ok image /\ image = encode_point (int_mul (le x) (hp (pub_of (le x)))) /\
  generate_key_image_helper a (realTransactionPublicKey s) (realOutputIndexInTransaction s) = Ok (mkpair px x, image).
Proof.
  intros (Hss & Es & Hv & Ev) (_ & d & Ed & Ep). destruct (secret_canon _ _ Hss Es) as [Cs Eps]. rewrite Eps in Ep. unfold pub_of in Ep.
  set (i := realOutputIndexInTransaction s) in *. destruct (derive_secret_value d i [] 0 ltac:(lia) _ Cs) as [Ex _]. set (t := Hs (take 32 d ++ VARINT_WRITE i)) in *.
  rewrite derive_public_value in Ep. fold t in Ep. rewrite <- pub_add in Ep. injection Ep as <-. set (n := (le (spendSecretKey a) + t) mod l_order) in *.
  assert (Cx : canon (scalar n)) by apply canon_scalar. assert (Ln : le (scalar n) = n) by apply le_scalar_mod.
  destruct (key_image_value (pub_of n) (scalar n) Cx) as (f & Hf & Ef). destruct (hp_value (pub_of n)) as (_ & _ & _ & Hp). rewrite (hash_point_unique _ _ _ Hf Hp) in Ef.
  exists (scalar n), (encode_point (int_mul n (hp (pub_of n)))). rewrite Ln in Ef. rewrite Ln. split_and!; [done|done|done|done|].
  unfold generate_key_image_helper. rewrite Ed. cbn [mbind result_bind Crypto.of_assert]. rewrite Eps. unfold pub_of at 1. rewrite derive_public_value. fold t. rewrite <- pub_add. fold n.
  cbn [mbind result_bind Crypto.of_assert]. rewrite Ex. fold n. cbn [mbind result_bind]. rewrite Ef. done.
Qed.

(** ** Inputs *)

(** The input made for a source. *)
Definition made (a : account_keys_t) (s : transaction_source_entry_t) (p : key_input_t * key_pair_t) : Prop :=
  exists px x image, owned a s px /\ canon x /\ px = pub_of (le x) /\ generate_key_image px x = Ok image /\
    image = encode_point (int_mul (le x) (hp (pub_of (le x)))) /\
    p = (mkkey_input (src_amount s) (absolute_output_offsets_to_relative (src_outputs s).*1) image, mkpair px x).

Lemma build_inputs_ok a sources z : account_ok a -> Forall (fun s => exists px, owned a s px) sources -> exists ins,
  build_inputs a sources (u64 z) = Ok (Some (ins, u64 (z + total (src_amount <$> sources)))) /\ Forall2 (made a) sources ins.
Proof.
  intros Ha H. revert z. induction H as [|s sources [px Ho] Hs IH]; intros z.
  { exists []. cbn. rewrite Z.add_0_r. split; [done|constructor]. }
  destruct (helper_ok a s px Ha Ho) as (x & image & Cx & Ex & Ei & Ev & Eh). destruct (IH (z + src_amount s)) as (ins & E & F).
  pose proof (proj1 Ho) as Hl. pose proof (lookup_lt_Some _ _ _ Hl) as Hlt. rewrite length_fmap in Hlt.
  exists ((mkkey_input (src_amount s) (absolute_output_offsets_to_relative (src_outputs s).*1) image, mkpair px x) :: ins). split.
  - cbn [build_inputs]. replace (length (src_outputs s) <=? realOutput s)%nat with false by (symmetry; apply Nat.leb_gt; lia). cbn zeta.
    rewrite Eh. cbn [mbind result_bind publicKey]. rewrite bool_decide_true by done. cbn [negb]. rewrite wrap_add_l, E. cbn [mbind result_bind].
    do 4 f_equal. cbn [fmap list_fmap total foldr]. unfold total. lia.
  - constructor; [|done]. exists px, x, image. done.
Qed.

(** ** Outputs *)

(** A destination that can be paid. *)
Definition payable (d : transaction_destination_entry_t) : Prop :=
  0 < dst_amount d /\ is_b32 (viewPublicKey (dst_addr d)) /\ check_key (viewPublicKey (dst_addr d)) = true /\
  is_b32 (spendPublicKey (dst_addr d)) /\ check_key (spendPublicKey (dst_addr d)) = true.

(** The outputs made for destinations with the transaction's secret key. *)
Fixpoint sent (sec : bytes) (n : nat) (dsts : list transaction_destination_entry_t) (outs : list transaction_output_t) : Prop :=
  match dsts, outs with
  | [], [] => True
  | d :: dsts, o :: outs =>
      (exists dv key, generate_key_derivation (viewPublicKey (dst_addr d)) sec = Ok (Some dv) /\ derive_public_key dv (Z.of_nat n) (spendPublicKey (dst_addr d)) = Ok (Some key) /\
         o = mkoutput (dst_amount d) (key_output (mkkey_output key))) /\ sent sec (S n) dsts outs
  | _, _ => False
  end.

Lemma build_outputs_ok sec n dsts z : canon sec -> Forall payable dsts -> exists outs,
  build_outputs sec n dsts (u64 z) = Ok (Some (outs, u64 (z + total (dst_amount <$> dsts)))) /\ sent sec n dsts outs.
Proof.
  intros Hc H. revert n z. induction H as [|d dsts (Ha & Hv & Kv & Hs & Ks) Hd IH]; intros n z.
  { exists []. cbn. by rewrite Z.add_0_r. }
  apply check_key_spec in Kv as [ev Ev]; [|done]. apply check_key_spec in Ks as [es Es]; [|done].
  destruct (IH (S n) (z + dst_amount d)) as (outs & E & S). eexists (_ :: outs). split.
  - cbn [build_outputs]. replace (0 <? dst_amount d) with true by lia. cbn [negb]. rewrite Ev, derivation_value by done. cbn [mbind result_bind].
    rewrite Es, derive_public_value. cbn [mbind result_bind]. rewrite wrap_add_l, E. cbn [mbind result_bind]. do 4 f_equal. cbn [fmap list_fmap total foldr]. unfold total. lia.
  - cbn [sent]. split; [|done]. eexists _, _. rewrite Ev, derivation_value by done. split; [done|]. rewrite Es, derive_public_value. done.
Qed.

(** ** Signatures *)

(** The keys of a ring decode. *)
Definition ring_keys (s : transaction_source_entry_t) : Prop := Forall (fun k => is_b32 k /\ check_key k = true) (src_outputs s).*2.

Lemma ring_points s : ring_keys s -> exists es, (src_outputs s).*2 = encode_point <$> es.
Proof.
  unfold ring_keys. generalize (src_outputs s).*2. intros l H. induction H as [|k l [Hk Kk] Hl [es IH]]; [by exists []|].
  apply check_key_spec in Kk as [e ->]; [|done]. exists (e :: es). by rewrite IH.
Qed.

Lemma as_signature_bytes g : sig_canon g -> as_signature (signature_bytes g) = g.
Proof.
  intros [[[_ Lc] _] [[_ Lr] _]]. unfold as_signature, signature_bytes. rewrite take_app_length', drop_app_length' by done. by destruct g.
Qed.

(** The signatures of an input are accepted. *)
Definition signed (h : bytes) (s : transaction_source_entry_t) (p : key_input_t * key_pair_t) (sigs : list bytes) : Prop :=
  length sigs = length (src_outputs s) /\ check_ring_signature h (keyImage p.1) (src_outputs s).*2 (as_signature <$> sigs) = Ok true.

Lemma sign_ok a h s p st : is_b32 h -> made a s p -> ring_keys s -> ready st -> exists sigs st',
  generate_ring_signature h (keyImage p.1) (src_outputs s).*2 (secretKey p.2) (realOutput s) (replicate (length (src_outputs s)) (mksig (replicate 32 0) (replicate 32 0))) st = Ok (sigs, st') /\
  ready st' /\ signed h s p (signature_bytes <$> sigs).
Proof.
  intros Hh (px & x & image & Ho & Cx & Ex & Ei & Ev & ->) Hr Hst. destruct (ring_points s Hr) as [es Es]. cbn [fst snd keyImage secretKey].
  destruct Ho as [Hl _]. rewrite Es in Hl. rewrite list_lookup_fmap in Hl. apply fmap_Some in Hl as (e & He & Ee). rewrite Ex in Ee. unfold pub_of in Ee. apply encode_point_inj in Ee as <-.
  assert (Ll : length (src_outputs s) = length es) by (rewrite <- (length_fmap snd (src_outputs s)), Es, length_fmap; done).
  destruct (ring_accepted h x es (realOutput s) (replicate (length (src_outputs s)) (mksig (replicate 32 0) (replicate 32 0))) st Hh Cx He) as (sigs & st' & E & R & L & C & K);
    [by rewrite length_replicate|done|].
  exists sigs, st'. rewrite Es, Ev. split; [exact E|]. split; [done|]. unfold signed. cbn [fst keyImage]. rewrite length_fmap, L, Es. split; [done|].
  rewrite <- list_fmap_compose. replace ((as_signature ∘ signature_bytes) <$> sigs) with sigs; [exact K|]. rewrite <- (list_fmap_id sigs) at 1. apply list_fmap_ext.
  intros i g Hg. rewrite list.Forall_forall in C. cbn. symmetry. apply as_signature_bytes, C. by eapply list_elem_of_lookup_2.
Qed.

Lemma sign_inputs_ok a h sources ins st : is_b32 h -> Forall2 (made a) sources ins -> Forall ring_keys sources -> ready st -> exists sigs st',
  sign_inputs h (zip sources ins) st = Ok (sigs, st') /\ ready st' /\ Forall2 (fun q sg => signed h q.1 q.2 sg) (zip sources ins) sigs.
Proof.
  intros Hh H. revert st. induction H as [|s p sources ins Hm Hms IH]; intros st Hr Hst; [exists [], st; split; [done|]; split; [done|constructor]|].
  apply Forall_cons_1 in Hr as [Hr Hrs]. destruct (sign_ok a h s p st Hh Hm Hr Hst) as (sg & st1 & E1 & R1 & S1). destruct (IH st1 Hrs R1) as (sigs & st2 & E2 & R2 & S2).
  exists ((signature_bytes <$> sg) :: sigs), st2. split; [|split; [done|by constructor]]. destruct p as [i kp]. cbn [zip zip_with sign_inputs].
  rewrite (bind_rand _ _ _ _ _ E1). fold (zip sources ins). rewrite (bind_rand _ _ _ _ _ E2). done.
Qed.

(** ** The inputs on the chain *)

(** The outputs of the source are on the chain, unlocked, in order. *)
Definition on_chain (c : currency) (ch : chain) (now : Z) (s : transaction_source_entry_t) : Prop :=
  Sorted Z.le (src_outputs s).*1 /\ Forall is_u32 (src_outputs s).*1 /\
  exists v, m_outputs (chain_index ch) !! src_amount s = Some v /\
    Forall (fun o => exists ti n e out, v !! Z.to_nat o.1 = Some (ti, n) /\ transactionByIndex ch ti = Value e /\
      outputs (prefix (entry_tx e)) !! Z.to_nat n = Some out /\ target out = key_output (mkkey_output o.2) /\
      is_tx_spendtime_unlocked c ch now (unlockTime (prefix (entry_tx e))) = true) (src_outputs s).

Lemma scan_loop_ok c ch now v l pmax : Forall (fun o : Z * bytes => exists ti n e out, v !! Z.to_nat o.1 = Some (ti, n) /\ transactionByIndex ch ti = Value e /\
      outputs (prefix (entry_tx e)) !! Z.to_nat n = Some out /\ target out = key_output (mkkey_output o.2) /\
      is_tx_spendtime_unlocked c ch now (unlockTime (prefix (entry_tx e))) = true) l ->
  exists m, scan_loop c ch now v l.*1 pmax = Value (l.*2, m).
Proof.
  intros H. revert pmax. induction H as [|[i k] l (ti & n & e & out & E1 & E2 & E3 & E4 & E5) Hl IH]; intros pmax; [by eexists|].
  cbn [fmap list_fmap fst snd scan_loop] in *. rewrite E1, E2. cbn [mbind decoded_bind]. rewrite E3. unfold handle_output. rewrite E5, E4. cbn [negb mbind decoded_bind out_key].
  destruct (IH (match l.*1 with [] => if pmax <? index_block ti then index_block ti else pmax | _ => pmax end)) as [m Em].
  exists m. unfold fmap in *. rewrite Em. done.
Qed.

Lemma input_accepted c ch now a s p h sigs pmax : on_chain c ch now s -> made a s p -> signed h s p sigs -> m_is_in_checkpoint_zone ch = false ->
  exists m, check_tx_input c ch now p.1 h sigs pmax = Value m.
Proof.
  intros (Hs & Hu & v & Ev & Hc) (px & x & image & Ho & _ & _ & _ & _ & ->) [Ls Hk] Hz. cbn [fst keyImage] in *. unfold check_tx_input, scanOutputKeysForIndexes.
  cbn [fst key_amount outputIndexes keyImage]. rewrite Ev.
  assert (Hn : absolute_output_offsets_to_relative (src_outputs s).*1 <> []).
  { intros E. destruct Ho as [Ho _]. apply lookup_lt_Some in Ho. rewrite length_fmap in Ho. rewrite absolute_eq, sort_sorted in E by done. destruct (src_outputs s); [cbn in Ho; lia|done]. }
  assert (Ea : relative_output_offsets_to_absolute (absolute_output_offsets_to_relative (src_outputs s).*1) = (src_outputs s).*1).
  { rewrite relative_eq, absolute_eq, sort_sorted by done. destruct ((src_outputs s).*1) as [|y l]; [done|]. apply Forall_cons_1 in Hu as [Hy Hl]. by rewrite sums_differences. }
  assert (El : length (absolute_output_offsets_to_relative (src_outputs s).*1) = length (src_outputs s)).
  { rewrite absolute_eq, sort_sorted by done. rewrite <- (length_fmap fst (src_outputs s)). destruct ((src_outputs s).*1) as [|y l]; [done|]. cbn. f_equal. clear. revert y.
    induction l; intros; cbn; [done|]. by f_equal. }
  destruct (scan_loop_ok c ch now v (src_outputs s) pmax Hc) as [m Em]. exists m.
  destruct (absolute_output_offsets_to_relative (src_outputs s).*1) as [|y l] eqn:Er; [done|]. rewrite Ea, Em. cbn [mbind decoded_bind].
  rewrite El, length_fmap, Ls, Nat.eqb_refl. cbn [negb]. rewrite Hz, Hk. done.
Qed.

(** The key image of a source is not spent. *)
Definition unspent (ch : chain) (a : account_keys_t) (s : transaction_source_entry_t) : Prop :=
  forall kp image, generate_key_image_helper a (realTransactionPublicKey s) (realOutputIndexInTransaction s) = Ok (kp, image) -> image ∉ m_spent_keys (chain_index ch).

Lemma made_helper a s p : account_ok a -> made a s p -> generate_key_image_helper a (realTransactionPublicKey s) (realOutputIndexInTransaction s) = Ok (p.2, keyImage p.1) /\ outputIndexes p.1 <> [].
Proof.
  intros Ha (px & x & image & Ho & Cx & Ex & Ei & Ev & ->). cbn [fst snd keyImage outputIndexes]. split.
  - destruct (helper_ok a s px Ha Ho) as (x' & image' & Cx' & Ex' & Ei' & Ev' & Eh). rewrite Eh. rewrite Ex in Ex'.
    assert (x' = x) as ->.
    { apply pub_of_inj in Ex'; [|by apply canon_range..]. destruct Cx' as [[Bx' Lx'] _], Cx as [[Bx Lx] _]. apply le_inj; congruence. }
    rewrite Ei in Ei'. congruence.
  - destruct Ho as [Ho _]. apply lookup_lt_Some in Ho. rewrite absolute_eq. pose proof (Permutation_length (merge_sort_Permutation Z.le (src_outputs s).*1)) as P.
    destruct (merge_sort Z.le (src_outputs s).*1); [|done]. rewrite length_fmap in Ho. pose proof (length_fmap fst (src_outputs s)) as L. cbn [length] in P. exfalso. lia.
Qed.

Lemma check_inputs_accepted c ch now a h sources ins sigs pmax : account_ok a -> m_is_in_checkpoint_zone ch = false ->
  Forall2 (made a) sources ins -> Forall (on_chain c ch now) sources -> Forall (unspent ch a) sources -> Forall2 (fun q sg => signed h q.1 q.2 sg) (zip sources ins) sigs ->
  exists m, check_inputs c ch now h ((fun x => key_input x.1) <$> ins) sigs pmax = Value m.
Proof.
  intros Ha Hz H. revert sigs pmax. induction H as [|s p sources ins Hm Hms IH]; intros sigs pmax Hc Hn Hs; [by eexists|].
  apply Forall_cons_1 in Hc as [Hc Hcs], Hn as [Hn Hns]. cbn [zip zip_with] in Hs. fold (zip sources ins) in Hs. apply Forall2_cons_inv_l in Hs as (sg & sgs & Hg & Hgs & ->).
  cbn [fst snd] in Hg. destruct (made_helper a s p Ha Hm) as [Eh Ho]. cbn [fmap list_fmap check_inputs].
  destruct (outputIndexes p.1) as [|y l] eqn:Eo; [done|]. unfold have_tx_keyimg_as_spent. rewrite bool_decide_false by (by eapply Hn).
  destruct (input_accepted c ch now a s p h sg pmax Hc Hm Hg Hz) as [m ->]. cbn [mbind decoded_bind]. by apply IH.
Qed.

(** ** The whole transaction *)

Lemma object_hash_b32 {A} (w : A -> option bytes) x : is_b32 (objectHash w x).
Proof.
  unfold objectHash. destruct (w x) as [ba|]; [|by apply bytes_check_n]. destruct (cn_fast_hash_squeeze ba) as (st & tail & _ & -> & Hl). split; [|exact Hl].
  apply state_bytes_are_bytes.
Qed.

Lemma key_generate_ok st : ready st -> exists x st', key_generate st = Ok (mkpair (pub_of (le x)) x, st') /\ canon x /\ ready st'.
Proof.
  intros Hst. destruct (random_scalar_value st Hst) as (n & st' & En & Hn & Hst'). exists (scalar n), st'.
  assert (Cn : canon (scalar n)) by (rewrite <- (Z.mod_small n l_order) by done; apply canon_scalar).
  assert (Eg : generate_keys st = Ok ((pub_of (le (scalar n)), scalar n), st')).
  { Transparent generate_keys. unfold generate_keys. rewrite (bind_rand _ _ _ _ _ En). unfold mret, rand_ret. by rewrite base_bytes. }
  split_and!; [|done|done]. unfold key_generate. by rewrite (bind_rand _ _ _ _ _ Eg).
Qed.
#[local] Opaque generate_keys.

Section construct_proofs.
Context (sort : list transaction_destination_entry_t -> list transaction_destination_entry_t).
Context (sort_perm : forall l, sort l ≡ₚ l).

(** The request: sources that are owned, on the chain and unspent, with rings of
    keys that decode, and destinations that can be paid out of them. *)
Record request_ok (c : currency) (ch : chain) (now : Z) (a : account_keys_t) (sources : list transaction_source_entry_t) (dsts : list transaction_destination_entry_t) : Prop := {
  request_account : account_ok a;
  request_owned : Forall (fun s => exists px, owned a s px) sources;
  request_chain : Forall (on_chain c ch now) sources;
  request_unspent : Forall (unspent ch a) sources;
  request_rings : Forall ring_keys sources;
  request_payable : Forall payable dsts;
  request_amounts : Forall (fun s => 0 <= src_amount s) sources;
  request_money : total (dst_amount <$> dsts) <= total (src_amount <$> sources) < 2 ^ 64;
}.

Lemma sort_total dsts : total (dst_amount <$> sort dsts) = total (dst_amount <$> dsts).
Proof using sort_perm. unfold total. apply (foldr_permutation_proper (=) Z.add 0); [intros; lia|]. by rewrite sort_perm. Qed.

Lemma construct_value c ch now a sources dsts major ex unlock st : request_ok c ch now a sources dsts -> ready st -> exists x ins outs sigs st' st1,
  constructTransaction sort major a sources dsts ex unlock st =
    Ok (Some (mktransaction (mkprefix major unlock ((fun p => key_input p.1) <$> ins) outs (addTransactionPublicKeyToExtra ex (pub_of (le x)))) sigs), st') /\
  key_generate st = Ok (mkpair (pub_of (le x)) x, st1) /\ canon x /\ ready st' /\ Forall2 (made a) sources ins /\ sent x 0 (sort dsts) outs /\
  Forall2 (fun q sg => signed (objectHash write_prefix (mkprefix major unlock ((fun p => key_input p.1) <$> ins) outs (addTransactionPublicKeyToExtra ex (pub_of (le x))))) q.1 q.2 sg)
    (zip sources ins) sigs.
Proof using sort_perm.
  intros R Hst. destruct (key_generate_ok st Hst) as (x & st1 & Ek & Cx & Hst1). destruct (build_inputs_ok a sources 0 (request_account _ _ _ _ _ _ R) (request_owned _ _ _ _ _ _ R)) as (ins & Ei & Fi).
  assert (Hp : Forall payable (sort dsts)) by (rewrite sort_perm; apply (request_payable _ _ _ _ _ _ R)).
  destruct (build_outputs_ok x 0 (sort dsts) 0 Cx Hp) as (outs & Eo & So). rewrite sort_total in Eo.
  set (p := mkprefix major unlock ((fun p => key_input p.1) <$> ins) outs (addTransactionPublicKeyToExtra ex (pub_of (le x)))).
  destruct (sign_inputs_ok a (objectHash write_prefix p) sources ins st1 (object_hash_b32 _ _) Fi (request_rings _ _ _ _ _ _ R) Hst1) as (sigs & st2 & Es & Hst2 & Ss).
  exists x, ins, outs, sigs, st2, st1. split_and!; [|done|done|done|done|done|done].
  pose proof (request_money _ _ _ _ _ _ R) as M. assert (Md : 0 <= total (dst_amount <$> dsts)).
  { apply total_nonneg. apply Forall_fmap. eapply list.Forall_impl; [apply (request_payable _ _ _ _ _ _ R)|]. intros d [Hd _]. cbn. lia. }
  change (u64 0) with 0 in Ei, Eo. rewrite Z.add_0_l, wrap_small in Ei, Eo by (unfold is_word; lia).
  unfold constructTransaction. rewrite (bind_rand _ _ _ _ _ Ek). cbn [publicKey secretKey]. rewrite (bind_lift _ _ _ _ Ei). rewrite (bind_lift _ _ _ _ Eo).
  destruct (Z.ltb_spec (total (src_amount <$> sources)) (total (dst_amount <$> dsts))); [lia|]. fold p. rewrite (bind_rand _ _ _ _ _ Es). done.
Qed.
End construct_proofs.

Lemma made_amounts a sources ins : Forall2 (made a) sources ins -> input_amount <$> ((fun p => key_input p.1) <$> ins) = src_amount <$> sources.
Proof. induction 1 as [|s p sources ins Hm Hms IH]; [done|]. cbn [fmap list_fmap]. f_equal; [|exact IH]. destruct Hm as (px & x & image & _ & _ & _ & _ & _ & ->). done. Qed.

Lemma sent_amounts sec n dsts outs : sent sec n dsts outs -> out_amount <$> outs = dst_amount <$> dsts.
Proof. revert n outs. induction dsts as [|d dsts IH]; intros n [|o outs] H; [done..|]. cbn in H. destruct H as [(dv & key & _ & _ & ->) H]. cbn. f_equal. by eapply IH. Qed.

(** C2: A transaction built by the wallet is accepted by the chain.  For
    sources that belong to the sender, are on the chain, unlocked and unspent,
    with rings whose keys decode, and destinations that can be paid,
    [constructTransaction] passes every assertion and returns a transaction;
    [checkTransactionInputs] accepts it on that chain: the offsets lead to the
    ring's keys, the key images are new and every ring signature verifies;
    and its fee is the difference of the sums. *)
Theorem constructed_transaction_accepted sort c ch now a sources dsts major ex unlock st : (forall l, sort l ≡ₚ l) ->
  request_ok c ch now a sources dsts -> m_is_in_checkpoint_zone ch = false -> ready st ->
  exists tx st' n, constructTransaction sort major a sources dsts ex unlock st = Ok (Some tx, st') /\ ready st' /\
    checkTransactionInputs c ch now tx = Value n /\
    get_tx_fee (prefix tx) = Some (total (src_amount <$> sources) - total (dst_amount <$> dsts)).
Proof.
  intros Hp R Hz Hst. destruct (construct_value sort Hp c ch now a sources dsts major ex unlock st R Hst) as (x & ins & outs & sigs & st' & st1 & E & _ & _ & Hst' & Fi & So & Ss).
  set (p := mkprefix _ _ _ _ _) in *. destruct (check_inputs_accepted c ch now a (objectHash write_prefix p) sources ins sigs 0 (request_account _ _ _ _ _ _ R) Hz Fi
    (request_chain _ _ _ _ _ _ R) (request_unspent _ _ _ _ _ _ R) Ss) as [n En].
  exists (mktransaction p sigs), st', n. split_and!; [done|done|exact En|]. unfold get_tx_fee. rewrite !sum_eq. cbn [prefix]. unfold p. cbn [inputs outputs].
  rewrite (made_amounts a sources ins Fi), (sent_amounts _ _ _ _ So), sort_total by done. pose proof (request_money _ _ _ _ _ _ R) as M.
  assert (Md : 0 <= total (dst_amount <$> dsts)).
  { apply total_nonneg. apply Forall_fmap. eapply list.Forall_impl; [apply (request_payable _ _ _ _ _ _ R)|]. intros d [Hd _]. cbn. lia. }
  rewrite !wrap_small by (unfold is_word; lia). destruct (Z.leb_spec (total (dst_amount <$> dsts)) (total (src_amount <$> sources))); [|lia]. cbn [negb]. f_equal.
Qed.

(** ** The receiver *)

Lemma ok_some_inj {A} {x y : A} : Ok (Some x) = Ok (Some y) -> x = y.
Proof. congruence. Qed.

Lemma mul_swap u v : int_mul 8 (int_mul u (int_mul v eB)) = int_mul 8 (int_mul v (int_mul u eB)).
Proof. assert (E : forall a b, int_mul 8 (int_mul a (int_mul b eB)) = int_mul (8 * (a * b)) eB) by (intros; by rewrite <- !int_mul_mul, Z.mul_assoc). rewrite !E. by rewrite (Z.mul_comm u). Qed.

Lemma lookup_found acc uninit sec x dsts outs n o0 m0 : account_ok acc -> canon sec -> x = encode_point (int_mul 8 (int_mul (le (viewSecretKey acc)) (int_mul (le sec) eB))) ->
  sent sec n dsts outs -> exists o m, lookup_loop acc x uninit outs n n o0 m0 = Ok (o, m) /\ (forall k, k ∈ o0 -> k ∈ o) /\
    forall i d, dsts !! i = Some d -> dst_addr d = address acc -> (n + i)%nat ∈ o.
Proof.
  intros Ha Cs Ex. destruct Ha as (Hss & Es & Hv & Ev). destruct (secret_canon _ _ Hss Es) as [Css Eps]. destruct (secret_canon _ _ Hv Ev) as [Cv Epv].
  revert n outs o0 m0. induction dsts as [|d dsts IH]; intros n [|out outs] o0 m0 H; [|done..|].
  { exists o0, m0. split_and!; [done|done|]. intros i d Hd. by rewrite lookup_nil in Hd. }
  cbn [sent] in H. destruct H as [(dv & key & E1 & E2 & ->) H]. cbn [lookup_loop target out_key out_amount]. unfold is_out_to_acc. rewrite Eps. unfold pub_of.
  rewrite derive_public_value. cbn [mbind result_bind default]. case_bool_decide as Ek.
  - destruct (IH (S n) outs (o0 ++ [n]) (u64 (m0 + dst_amount d)) H) as (o & m & E & Hk & Hi). exists o, m. split_and!; [exact E|intros k Hk0; apply Hk, elem_of_app; left; exact Hk0|].
    intros [|i] d' Hd Hadr; [rewrite Nat.add_0_r; apply Hk, elem_of_app; right; apply list_elem_of_here|]. replace (n + S i)%nat with (S n + i)%nat by lia. exact (Hi i d' Hd Hadr).
  - destruct (IH (S n) outs o0 m0 H) as (o & m & E & Hk & Hi). exists o, m. split_and!; [exact E|exact Hk|].
    intros [|i] d' Hd Hadr; [|replace (n + S i)%nat with (S n + i)%nat by lia; exact (Hi i d' Hd Hadr)]. exfalso. injection Hd as <-. apply Ek.
    rewrite Hadr, Epv in E1. unfold pub_of in E1. rewrite derivation_value in E1 by done. apply ok_some_inj in E1.
    rewrite Hadr, Eps in E2. unfold pub_of in E2. rewrite derive_public_value in E2. apply ok_some_inj in E2. rewrite <- E2, <- E1, Ex.
    by rewrite (mul_swap (le sec)).
Qed.

(** C12: The receiver finds its outputs.  In a transaction built by
    [constructTransaction], whose extra had no key and no padding, the key in
    the extra is the transaction's public key, and [lookup_acc_outs] with it
    finds every output that pays the account, in the sorted order of the
    destinations, with the account's view key alone on the receiving side. *)
Theorem transaction_received sort c ch now a sources dsts major ex fields unlock st acc uninit : (forall l, sort l ≡ₚ l) ->
  request_ok c ch now a sources dsts -> ready st -> account_ok acc ->
  is_bytes ex -> parseTransactionExtra ex = (true, fields) -> existsb is_padding fields = false -> findPublicKey fields = None ->
  exists tx st' outs money, constructTransaction sort major a sources dsts ex unlock st = Ok (Some tx, st') /\
    lookup_acc_outs acc tx (getTransactionPublicKeyFromExtra (extra (prefix tx))) uninit = Ok (outs, money) /\
    forall i d, sort dsts !! i = Some d -> dst_addr d = address acc -> i ∈ outs.
Proof.
  intros Hp R Hst Ha Hb Hx Hpad Hnk. destruct (construct_value sort Hp c ch now a sources dsts major ex unlock st R Hst) as (x & ins & outs & sigs & st' & st1 & E & _ & Cx & _ & _ & So & _).
  set (p := mkprefix _ _ _ _ _) in *. assert (Ek : getTransactionPublicKeyFromExtra (extra p) = pub_of (le x)).
  { unfold p. cbn [extra]. unfold getTransactionPublicKeyFromExtra.
    change (addTransactionPublicKeyToExtra ex (pub_of (le x))) with (ex ++ field_bytes (transaction_extra_public_key_t (pub_of (le x)))).
    rewrite (parse_append ex fields) by (done || apply encode_point_b32). cbn [snd]. by rewrite findPublicKey_app, Hnk. }
  destruct Ha as (Hss & Es & Hv & Ev). destruct (secret_canon _ _ Hv Ev) as [Cv _].
  destruct (lookup_found acc uninit x _ (sort dsts) outs 0 [] 0 (conj Hss (conj Es (conj Hv Ev))) Cx eq_refl So) as (o & m & El & _ & Hi).
  exists (mktransaction p sigs), st', o, m. split_and!; [done| |exact Hi]. cbn [prefix]. rewrite Ek. unfold lookup_acc_outs. unfold pub_of.
  rewrite derivation_value by done. cbn [mbind result_bind default prefix]. exact El.
Qed.

(** ** A sample request: one owned output, paid back to its owner *)

Definition sample_account : account_keys_t := mkaccount (mkaddress (pub_of (le (scalar 5))) (pub_of (le (scalar 5)))) (scalar 5) (scalar 5).
Definition sample_derivation : bytes := encode_point (int_mul 8 (int_mul (le (scalar 5)) (int_mul (le (scalar 5)) eB))).
Definition sample_key : bytes := encode_point (plus (int_mul (le (scalar 5)) eB) (int_mul (Hs (take 32 sample_derivation ++ VARINT_WRITE 0)) eB)).
Definition sample_source : transaction_source_entry_t := mksource [(0, sample_key)] 0 (pub_of (le (scalar 5))) 0 100.
Definition sample_entry : transaction_entry_t :=
  mkentry (mktransaction (mkprefix 1 0 [] [mkoutput 100 (key_output (mkkey_output sample_key))] []) []) [0].
Definition sample_chain : chain :=
  mkchain (mkindexes ∅ ∅ {[100 := [(mkindex 0 0, 0)]]} ∅ []) [mkblock_entry (mkblock (mkheader 1 0 0 0 []) (entry_tx sample_entry) []) 0 0 0 0 [sample_entry]] false.
Definition sample_destination : transaction_destination_entry_t := mkdestination 90 (address sample_account).

Lemma sample_account_ok : account_ok sample_account.
Proof. split_and!; [apply scalar_b32|apply (canon_pub _ canon_5)|apply scalar_b32|apply (canon_pub _ canon_5)]. Qed.

Lemma sample_request : request_ok builder sample_chain 0 sample_account [sample_source] [sample_destination].
Proof.
  split.
  - apply sample_account_ok.
  - constructor; [|constructor]. exists sample_key. split; [reflexivity|]. exists sample_derivation. cbn [realTransactionPublicKey sample_source viewSecretKey sample_account realOutputIndexInTransaction spendPublicKey address].
    split; [unfold pub_of; by rewrite (derivation_value _ _ canon_5)|]. unfold pub_of. by rewrite derive_public_value.
  - constructor; [|constructor]. split; [repeat constructor|]. split; [constructor; [by split|constructor]|]. exists [(mkindex 0 0, 0)]. split; [apply lookup_singleton_eq|].
    constructor; [|constructor]. exists (mkindex 0 0), 0, sample_entry, (mkoutput 100 (key_output (mkkey_output sample_key))). split_and!; reflexivity.
  - constructor; [|constructor]. intros kp image _. cbn. apply not_elem_of_empty.
  - constructor; [|constructor]. constructor; [|constructor]. split; [apply encode_point_b32|apply check_key_encode].
  - constructor; [|constructor]. split_and!; [reflexivity|apply encode_point_b32|apply check_key_encode|apply encode_point_b32|apply check_key_encode].
  - constructor; [cbn; lia|constructor].
  - cbn. lia.
Qed.

Lemma constructed_transaction_accepted_witness : exists tx st' n,
  constructTransaction (fun l => l) 1 sample_account [sample_source] [sample_destination] [] 0 ready_start = Ok (Some tx, st') /\ ready st' /\
  checkTransactionInputs builder sample_chain 0 tx = Value n /\ get_tx_fee (prefix tx) = Some (total (src_amount <$> [sample_source]) - total (dst_amount <$> [sample_destination])).
Proof.
  exact (constructed_transaction_accepted (fun l => l) builder sample_chain 0 sample_account [sample_source] [sample_destination] 1 [] 0 ready_start
    (fun l => Permutation_refl l) sample_request eq_refl ready_start_ok).
Defined.

Lemma transaction_received_witness : exists tx st' outs money,
  constructTransaction (fun l => l) 1 sample_account [sample_source] [sample_destination] [] 0 ready_start = Ok (Some tx, st') /\
  lookup_acc_outs sample_account tx (getTransactionPublicKeyFromExtra (extra (prefix tx))) [] = Ok (outs, money) /\
  forall i d, [sample_destination] !! i = Some d -> dst_addr d = address sample_account -> i ∈ outs.
Proof.
  exact (transaction_received (fun l => l) builder sample_chain 0 sample_account [sample_source] [sample_destination] 1 [] [] 0 ready_start sample_account []
    (fun l => Permutation_refl l) sample_request ready_start_ok sample_account_ok (List.Forall_nil _) eq_refl eq_refl eq_refl).
Defined.
