(* ===== verification/Account.v ===== *)
(** * Accounts: cryptonote/core/account.cpp

    The address of an account as text, and its parsing. *)

From S2P Require Import Prelude Random Keccak Stream Types Binary Base58 GeSpec Crypto CryptoProofs.

(** [Account::generate]; the time of creation is an argument. *)
Record account := mkaccount_state { m_keys : account_keys_t; m_creation_timestamp : Z }.
Definition account_generate (now : Z) : rand account :=
  '(spend, spend_secret) ← generate_keys;
  '(view, view_secret) ← generate_keys;
  mret (mkaccount_state (mkaccount (mkaddress spend view) spend_secret view_secret) now).

(** [Account::getAddress] and [Account::toAddress] *)
Definition getAddress (adr : account_public_address_t) (prefix : Z) : Decoded bytes :=
  match to write_address adr with Some ba => encode_addr prefix ba | None => Asserted end.

(** [Account::parseAddress(prefix, adr, str)] *)
Definition parseAddress (str : bytes) : Decoded (Z * account_public_address_t) :=
  '(prefix, data) ← decode_addr str;
  match from read_address data with
  | None => Rejected
  | Some adr => if check_key (spendPublicKey adr) && check_key (viewPublicKey adr) then Value (prefix, adr) else Rejected
  end.

(** [Account::parseAddress(str, addr, prefixExpected)] *)
Definition parseAddress_expected (str : bytes) (prefixExpected : Z) : Decoded account_public_address_t :=
  '(prefix, addr) ← parseAddress str;
  if negb (prefix =? prefixExpected) then Rejected else Value addr.

Lemma address_binary adr : is_b32 (spendPublicKey adr) -> is_b32 (viewPublicKey adr) -> exists ba,
  to write_address adr = Some ba /\ is_bytes ba /\ ba <> [] /\ from read_address ba = Some adr.
Proof.
  intros Hs Hv. destruct (write_read (write := write_address) (read := read_address) adr) as (bs & E & Hb & R); [done|].
  exists bs. unfold to, from. split_and!; [done|done| |].
  - intros ->. by apply (write_nonempty (write := write_address) (read := read_address) adr).
  - rewrite <- (app_nil_r bs), R. done.
Qed.

(** Data that parses is the binary form of what it parses to. *)
Lemma address_parsed ba adr : is_bytes ba -> from read_address ba = Some adr -> to write_address adr = Some ba /\ is_b32 (spendPublicKey adr) /\ is_b32 (viewPublicKey adr).
Proof.
  intros Hb E. unfold from in E. destruct (read_address ba) as [[a rest]|] eqn:Er; [|done]. cbn [mbind option_bind] in E. destruct rest; [|done]. injection E as ->.
  destruct (read_write (write := write_address) (read := read_address) ba adr [] Hb Er) as ([H1 H2] & _ & bs & Ew & ->). rewrite app_nil_r. done.
Qed.

(** C22: Addresses as text are canonical.  The address of valid keys is
    printed and parsed back with its prefix; and a text that parses is the
    one printed for the address it gives, so two different texts never stand
    for the same address; with an expected prefix, any other is refused. *)
Theorem account_address_roundtrip adr prefix str : is_b32 (spendPublicKey adr) -> is_b32 (viewPublicKey adr) -> is_u64 prefix -> is_bytes str ->
  check_key (spendPublicKey adr) = true -> check_key (viewPublicKey adr) = true ->
  (exists text, getAddress adr prefix = Value text /\ parseAddress text = Value (prefix, adr) /\
     forall other, parseAddress_expected text other = if prefix =? other then Value adr else Rejected) /\
  (parseAddress str = Value (prefix, adr) <-> getAddress adr prefix = Value str).
Proof.
  intros Hs Hv Hp Hstr Ks Kv. destruct (address_binary adr Hs Hv) as (ba & Ew & Hb & Hne & Er). unfold getAddress. rewrite Ew.
  destruct (address_facts prefix ba str Hp Hb Hstr) as ((text & Et & Ed) & _ & Hiff). specialize (Hiff Hne).
  assert (P : parseAddress text = Value (prefix, adr)) by (unfold parseAddress; rewrite Ed; cbn [mbind decoded_bind]; rewrite Er, Ks, Kv; done). split.
  - exists text. split_and!; [done|done|]. intros other. unfold parseAddress_expected. rewrite P. cbn [mbind decoded_bind]. by destruct (prefix =? other).
  - split.
    + unfold parseAddress. destruct (decode_addr str) as [[p data]| |] eqn:Edec; [|done..]. cbn [mbind decoded_bind]. destruct (from read_address data) as [adr'|] eqn:Ef; [|done].
      destruct (_ && _); [|done]. intros [= -> ->]. assert (Hd : is_bytes data).
      { destruct (decode_addr_inv str prefix data Hstr Edec) as (buf & h & n & _ & _ & Hbuf & _ & _ & ->). by apply Forall_drop. }
      destruct (address_parsed data adr Hd Ef) as (Ew' & _). rewrite Ew in Ew'. injection Ew' as <-. by apply Hiff.
    + intros E. apply Hiff in E. unfold parseAddress. rewrite E. cbn [mbind decoded_bind]. rewrite Er, Ks, Kv. done.
Qed.

Lemma account_address_roundtrip_witness :
  let adr := mkaddress (pub_of (le (scalar 5))) (pub_of (le (scalar 7))) in
  (exists text, getAddress adr 18 = Value text /\ parseAddress text = Value (18, adr) /\
     forall other, parseAddress_expected text other = if 18 =? other then Value adr else Rejected) /\
  (parseAddress [49; 49] = Value (18, adr) <-> getAddress adr 18 = Value [49; 49]).
Proof.
  intros adr. apply (account_address_roundtrip adr 18 [49; 49]); [apply encode_point_b32|apply encode_point_b32|by split|by apply bytes_forallb|apply check_key_encode..].
Defined.
