(* ===== verification/Checkpoints.v ===== *)
(** * Checkpoints and hard forks: cryptonote/core/checkpoints.cpp, hardfork.cpp

    The checkpoints are a map from heights to hashes; the hard forks a list
    of heights and versions. *)

From stdpp Require Import gmap sorting.
From S2P Require Import Prelude Hex.

Definition checkpoints := gmap Z bytes.

(** [Checkpoints::add]: [None] is [false]. *)
Definition checkpoints_add (m_points : checkpoints) (height : Z) (hash_str : bytes) : option checkpoints :=
  let '(r, h) := podFrom hash_str (replicate 32 0) in
  if negb r then None
  else match m_points !! height with Some _ => None | None => Some (<[height := h]> m_points) end.

(** The keys in order: a [std::map] iterates over them so. *)
Definition heights (m_points : checkpoints) : list Z := merge_sort Z.le (map_to_list m_points).*1.

(** [Checkpoints::isCheckpoint]: not above the last height. *)
Definition isCheckpoint (m_points : checkpoints) (height : Z) : bool :=
  match list.last (heights m_points) with None => false | Some last => height <=? last end.

(** [Checkpoints::check]: the result and [is_a_checkpoint]. *)
Definition check (m_points : checkpoints) (height : Z) (h : bytes) : bool * bool :=
  match m_points !! height with
  | None => (true, false)
  | Some p => (bool_decide (p = h), true)
  end.

(** [Checkpoints::isAllowed]: [upper_bound], then the element before it. *)
Definition isAllowed (m_points : checkpoints) (blockchain_height block_height : Z) : bool :=
  if 0 =? block_height then false
  else
    match list.last (List.filter (fun k => k <=? blockchain_height) (heights m_points)) with
    | None => true
    | Some checkpoint_height => checkpoint_height <? block_height
    end.

(** [HardFork::getMajorVersion]: forks of a height and a version, in the order of the configuration. *)
Fixpoint version_loop (m_hardforks : list (Z * Z)) (height version : Z) : Z :=
  match m_hardforks with
  | [] => version
  | (h, v) :: rest => if height <? h then version else version_loop rest height v
  end.
Definition getMajorVersion (m_hardforks : list (Z * Z)) (height : Z) : Z := version_loop m_hardforks height 1.
Definition getMinorVersion (m_hardforks : list (Z * Z)) (height : Z) : Z := 0.

(** ** Heights *)

Lemma heights_elem m k : k ∈ heights m <-> is_Some (m !! k).
Proof.
  unfold heights. rewrite merge_sort_Permutation, list_elem_of_fmap. split.
  - intros ([k' v] & -> & H%elem_of_map_to_list). by exists v.
  - intros [v H]. exists (k, v). split; [done|by apply elem_of_map_to_list].
Qed.

Lemma heights_sorted m : StronglySorted Z.le (heights m).
Proof. apply (StronglySorted_merge_sort _). Qed.

Lemma sorted_last (l : list Z) x : StronglySorted Z.le l -> list.last l = Some x -> x ∈ l /\ forall y, y ∈ l -> y <= x.
Proof.
  intros Hs. induction Hs as [|a l Hs IH Ha]; [done|]. destruct l as [|b l].
  - intros [= ->]. split; [by left|]. intros y ->%list_elem_of_singleton. lia.
  - intros E. destruct (IH E) as [Hx Hy]. split; [by right|]. intros y [->|Hin]%list.elem_of_cons; [|by apply Hy].
    rewrite list.Forall_forall in Ha. by apply Ha.
Qed.

Lemma filter_sorted (P : Z -> bool) (l : list Z) : StronglySorted Z.le l -> StronglySorted Z.le (List.filter P l).
Proof.
  induction 1 as [|a l Hs IH Ha]; [constructor|]. cbn. destruct (P a); [|done]. constructor; [done|].
  apply list.Forall_forall. intros x Hx%list_elem_of_In. apply filter_In in Hx as [Hx _]. rewrite list.Forall_forall in Ha. by apply Ha, list_elem_of_In.
Qed.

Lemma last_none {A} (l : list A) : list.last l = None <-> l = [].
Proof. by rewrite last_None. Qed.

(** Checkpoints do what they promise: [check] refuses exactly a block
    whose hash differs from the one set for its height; the last checkpoint
    and everything below it is in the zone; and a block may only be attached
    (at a height other than zero) above every checkpoint that the chain has
    reached. *)
Theorem checkpoints_correct (m : checkpoints) height h chain_height block_height :
  ((check m height h).1 = false <-> exists p, m !! height = Some p /\ p <> h) /\
  (isCheckpoint m height = true <-> exists k, is_Some (m !! k) /\ height <= k) /\
  (isAllowed m chain_height block_height = true <-> block_height <> 0 /\ forall k, is_Some (m !! k) -> k <= chain_height -> k < block_height).
Proof.
  split_and!.
  - unfold check. destruct (m !! height) as [p|]; cbn; [|naive_solver]. case_bool_decide; naive_solver.
  - unfold isCheckpoint. destruct (list.last (heights m)) as [x|] eqn:E.
    + destruct (sorted_last _ _ (heights_sorted m) E) as [Hx Hy]. rewrite Z.leb_le. split; [intros; exists x; split; [by apply heights_elem|done]|].
      intros (k & Hk%heights_elem & Hle). specialize (Hy k Hk). lia.
    + apply last_none in E. split; [done|]. intros (k & Hk%heights_elem & _). rewrite E in Hk. by apply elem_of_nil in Hk.
  - unfold isAllowed. destruct (Z.eqb_spec 0 block_height) as [<-|Hb]; [split; [done|intros [? _]; done]|].
    destruct (list.last _) as [x|] eqn:E.
    + destruct (sorted_last _ _ (filter_sorted _ _ (heights_sorted m)) E) as [Hx Hy]. apply list_elem_of_In, filter_In in Hx as [Hx Hc]. rewrite Z.ltb_lt. split.
      * intros Hlt. split; [done|]. intros k Hk%heights_elem Hle. specialize (Hy k). rewrite list_elem_of_In, filter_In in Hy. specialize (Hy (conj (proj1 (list_elem_of_In _ _) Hk) (proj2 (Z.leb_le _ _) Hle))). lia.
      * intros [_ H]. apply H; [by apply heights_elem, list_elem_of_In|lia].
    + apply last_none in E. split; [|done]. intros _. split; [done|]. intros k Hk%heights_elem Hle. exfalso.
      assert (Hin : In k (List.filter (fun k => k <=? chain_height) (heights m))) by (apply filter_In; split; [by apply list_elem_of_In|lia]). rewrite E in Hin. done.
Qed.

(** The version is that of the last fork whose height is reached, for forks in the order of their heights. *)
Lemma version_reached forks height v : StronglySorted Z.le forks.*1 ->
  version_loop forks height v = match list.last (List.filter (fun f => f.1 <=? height) forks) with Some f => f.2 | None => v end.
Proof.
  revert v. induction forks as [|[h w] forks IH]; intros v Hs; [done|]. cbn in Hs. apply StronglySorted_inv in Hs as [Hs Ha]. cbn [version_loop List.filter fst].
  destruct (Z.ltb_spec height h) as [Hlt|Hle].
  - replace (h <=? height) with false by lia. replace (List.filter (fun f => f.1 <=? height) forks) with (@nil (Z * Z)); [done|]. symmetry.
    clear IH Hs. induction forks as [|[h' w'] forks IH]; [done|]. apply Forall_cons_1 in Ha as [Hh Ha]. cbn in Hh |- *. replace (h' <=? height) with false by lia. by apply IH.
  - replace (h <=? height) with true by lia. rewrite IH by done. destruct (List.filter _ forks) as [|f l]; [done|].
    change (list.last ((h, w) :: f :: l)) with (list.last (f :: l)). destruct (list.last (f :: l)) eqn:E; [done|]. by apply last_none in E.
Qed.
