(* ===== verification/Block.v ===== *)
(** * Blocks: cryptonote/structures/block_entry.cpp, CryptoNoteFormatUtils.cpp

    The blob of a block is its header, the root of the tree of its
    transactions and their number; its hash is the fast hash of the blob with
    its length. *)

From S2P Require Import Prelude Difficulty Keccak KeccakProofs TreeHash Random Stream Types Binary Base58 Hex ChainIndex.
Import CnTree.

#[local] Opaque cn_fast_hash.

(** [get_tx_tree_hash(b)]: [None] is a failed assertion of [tree_hash]. *)
Definition get_tx_tree_hash (b : block_t) : option bytes :=
  let txs_ids := objectHash write_transaction (baseTransaction b) :: transactionHashes b in
  cn_tree_hash txs_ids.

Definition getBlob (b : block_t) : option bytes :=
  ba ← to write_header (header b);
  treeRootHash ← get_tx_tree_hash b;
  let size := u64 (Z.of_nat (length (transactionHashes b)) + 1) in
  Some (ba ++ treeRootHash ++ fromVarint size).

(** [BinaryArray::to] of a binary array writes it as a string. *)
Definition getHash (b : block_t) : option bytes :=
  ba ← getBlob b;
  Some (objectHash write_string ba).

Definition getCNVariant (b : block_t) : Z := if 7 <=? majorVersion (header b) then majorVersion (header b) - 6 else 0.

(** [Block::getLongHash] and [Block::checkProofOfWork] over a slow hash, at a variant and without a prehashed
    state; [None] is a hash that ends the process. *)
Definition getLongHash (cn_slow_hash : Z -> bytes -> option bytes) (b : block_t) : option bytes :=
  bd ← getBlob b;
  cn_slow_hash (getCNVariant b) bd.

Definition checkProofOfWork (cn_slow_hash : Z -> bytes -> option bytes) (b : block_t) (currentDiffic : Z) : option (bool * bytes) :=
  proofOfWork ← getLongHash cn_slow_hash b;
  Some (check_hash proofOfWork currentDiffic, proofOfWork).

(** [Block::genesis] from the text of the configuration; [None] is the exception. *)
Definition genesis (genesis_coinbase_tx_hex : bytes) (major minor : Z) : option block_t :=
  let '(r, minerTxBlob) := append_from genesis_coinbase_tx_hex [] in
  if negb r then None
  else
    baseTransaction ← from read_transaction minerTxBlob;
    Some (mkblock (mkheader major minor 70 0 (replicate 32 0)) baseTransaction []).

(** ** Binding *)

Abbreviation collision64 := (collision cn_fast_hash64).

Lemma objectHash_digest {A} (w : A -> option bytes) x ba : w x = Some ba -> objectHash w x = cn_fast_hash64 ba.
Proof. intros E. unfold objectHash, cn_fast_hash64. rewrite E. by destruct (cn_fast_hash_squeeze ba) as (st & tail & _ & -> & _). Qed.

(** Equal hashes are of equal objects, or a collision. *)
Lemma objectHash_inj {A} (w : A -> option bytes) (r : Reader A) valid {F : Readable w r valid} x y : valid x -> valid y ->
  objectHash w x = objectHash w y -> x = y \/ collision64.
Proof.
  intros Hx Hy E. destruct (write_read (write := w) (read := r) x Hx) as (bx & Ex & _ & Rx), (write_read (write := w) (read := r) y Hy) as (by_ & Ey & _ & Ry).
  rewrite (objectHash_digest _ _ _ Ex), (objectHash_digest _ _ _ Ey) in E. destruct (fast_hash_inj cn_fast_hash64 _ _ E) as [->|]; [|by right].
  left. specialize (Rx []). specialize (Ry []). congruence.
Qed.

Lemma objectHash_width {A} (w : A -> option bytes) x : length (objectHash w x) = 32%nat.
Proof.
  unfold objectHash. destruct (w x) as [ba|]; [|done]. by destruct (cn_fast_hash_squeeze ba) as (st & tail & _ & -> & Hl).
Qed.

Lemma tree_width l root : width32 l -> cn_tree_hash l = Some root -> length root = 32%nat.
Proof.
  intros W E. unfold cn_tree_hash, tree_hash in E. destruct l as [|a [|b [|c l]]]; [done|..].
  - cbn in E. assert (root = a) as -> by congruence. by inversion_clear W.
  - cbn -[cn_fast_hash64] in E. assert (root = cn_fast_hash64 (a ++ b)) as -> by congruence. apply length_cn_fast_hash64.
  - cbn [length Nat.eqb] in E. destruct (tree_hash_cnt _); [|done]. cbv zeta in E. destruct (pair_loop _ _ _ _ _) as [ints i].
    destruct (negb _); [done|]. destruct (level_loop _ _ _) as [l'|]; [|done]. 
    assert (root = cn_fast_hash64 (l' !!! 0%nat ++ l' !!! 1%nat)) as -> by congruence. apply length_cn_fast_hash64.
Qed.

Lemma tree_total l : (1 <= length l)%nat -> Z.of_nat (length l) <= 2 ^ 28 -> exists root, cn_tree_hash l = Some root.
Proof.
  intros H1 Hm. destruct (decide (3 <= length l)%nat) as [H3|H3].
  - destruct (tree_hash_merkle cn_fast_hash64 l H3 Hm) as (k & Hk & E). eexists. exact E.
  - destruct l as [|a [|b [|]]]; simpl in *; try lia; by eexists.
Qed.

(** The leaves of a block. *)
Definition leaves (b : block_t) : list bytes := objectHash write_transaction (baseTransaction b) :: transactionHashes b.

Lemma leaves_width b : valid_block b -> width32 (leaves b).
Proof.
  intros (_ & _ & H & _). constructor; [apply objectHash_width|]. eapply list.Forall_impl; [exact H|]. by intros x [].
Qed.

Lemma writeVarint_length x : (length (writeVarint x) <= 10)%nat.
Proof.
  unfold writeVarint. generalize (u64 x). change 10%nat with (S 9). generalize 9%nat. intros n. induction n as [|n IH]; intros v; [done|].
  cbn [writeVarint_loop]. destruct (_ <=? _); cbn [length]; [specialize (IH (v .>> 7))|]; lia.
Qed.

Lemma header_length h ba : valid_header h -> write_header h = Some ba -> (length ba <= 66)%nat.
Proof.
  intros (_ & _ & _ & [_ Hp] & _) E. unfold write_header in E. cbn -[writeVarint le_bytes] in E. apply (f_equal (fmap length)) in E. cbn -[writeVarint le_bytes] in E.
  rewrite !length_app in E. pose proof (writeVarint_length (majorVersion h)). pose proof (writeVarint_length (minorVersion h)).
  pose proof (writeVarint_length (timestamp h)). change (length (le_bytes 4 (nonce h))) with 4%nat in E. assert (forall a b : nat, Some a = Some b -> a = b) as I by congruence.
  apply I in E. cbn [length] in E. lia.
Qed.

(** The parts of the blob. *)
Lemma blob_parts b : valid_block b -> Z.of_nat (length (leaves b)) <= 2 ^ 28 -> exists ba root,
  getBlob b = Some (ba ++ root ++ writeVarint (Z.of_nat (length (leaves b)))) /\
  (forall rest, read_header (ba ++ rest) = Some (header b, rest)) /\ cn_tree_hash (leaves b) = Some root /\
  length root = 32%nat /\ (length ba <= 66)%nat.
Proof.
  intros Hv Hm. destruct (write_read (write := write_header) (read := read_header) (header b) ltac:(apply Hv)) as (ba & Eb & _ & R).
  destruct (tree_total (leaves b) ltac:(cbn [leaves length]; lia) Hm) as [root Er]. exists ba, root. split_and!; [|done|done| |].
  - unfold getBlob, to, get_tx_tree_hash. fold (leaves b). rewrite Eb, Er. cbn -[fromVarint writeVarint u64]. rewrite fromVarint_write.
    unfold leaves in Hm |- *. cbn [length] in Hm |- *. rewrite (wrap_small 64) by (unfold is_word; lia). by replace (Z.of_nat (length (transactionHashes b)) + 1) with (Z.of_nat (S (length (transactionHashes b)))) by lia.
  - eapply tree_width; [by apply leaves_width|done].
  - eapply header_length; [apply Hv|done].
Qed.

Lemma write_string_inj s1 s2 : Z.of_nat (length s1) < 2 ^ 64 -> Z.of_nat (length s2) < 2 ^ 64 ->
  write_string s1 = write_string s2 -> s1 = s2.
Proof.
  intros H1 H2 E. unfold write_string in E. assert (forall a b : bytes, Some a = Some b -> a = b) as I by congruence. apply I in E.
  apply (f_equal (readVarint uint64_t)) in E. rewrite !readVarint_write in E by (cbn; unfold has_type; cbn; lia). cbn [bits] in E.
  rewrite !(wrap_small 64), !(proj2 (Z.ltb_lt _ _)) in E by (unfold is_word; lia). congruence.
Qed.

Lemma varint_count_inj m n : 0 <= m < 2 ^ 64 -> 0 <= n < 2 ^ 64 -> writeVarint m = writeVarint n -> m = n.
Proof.
  intros H1 H2 E. apply (f_equal (fun s => readVarint uint64_t (s ++ []))) in E. rewrite !readVarint_write in E by (cbn; unfold has_type; cbn; lia).
  cbn [bits] in E. rewrite !(wrap_small 64), !(proj2 (Z.ltb_lt _ _)) in E by (unfold is_word; lia). congruence.
Qed.

(** The work of a block is checked on the slow hash of its blob. *)
Lemma proof_of_work_exact cn_slow_hash b blob h d : getBlob b = Some blob -> cn_slow_hash (getCNVariant b) blob = Some h -> is_b32 h -> is_u64 d ->
  checkProofOfWork cn_slow_hash b d = Some (le h * d <? 2 ^ 256, h).
Proof.
  intros Eb Eh [Hb Hl] Hd. unfold checkProofOfWork, getLongHash. rewrite Eb. cbn [mbind option_bind]. rewrite Eh. cbn [mbind option_bind].
  by rewrite (check_hash_spec h d Hb Hl Hd).
Qed.

(** C13: the hash of a block ([Block::getHash]) commits to the whole block.  It exists for every well-formed block
    of at most 2^28 - 1 transactions, and two such blocks with the same hash are the same block, header, base
    transaction and transaction hashes, or exhibit a collision of [cn_fast_hash]. *)
Theorem block_hash_binding b1 b2 :
  valid_block b1 -> valid_block b2 ->
  Z.of_nat (length (transactionHashes b1)) < 2 ^ 28 -> Z.of_nat (length (transactionHashes b2)) < 2 ^ 28 ->
  is_Some (getHash b1) /\ (getHash b1 = getHash b2 -> b1 = b2 \/ collision64).
Proof.
  intros V1 V2 L1 L2.
  destruct (blob_parts b1 V1) as (ba1 & root1 & E1 & R1 & T1 & W1 & B1); [cbn [leaves length]; lia|].
  destruct (blob_parts b2 V2) as (ba2 & root2 & E2 & R2 & T2 & W2 & B2); [cbn [leaves length]; lia|].
  unfold getHash. rewrite E1, E2. cbn [mbind option_bind]. split; [by eexists|]. intros E.
  assert (forall a b : bytes, Some a = Some b -> a = b) as I by congruence. apply I in E.
  rewrite !(objectHash_digest write_string _ _ eq_refl) in E. destruct (fast_hash_inj cn_fast_hash64 _ _ E) as [Es|]; [|by right].
  pose proof (writeVarint_length (Z.of_nat (length (leaves b1)))) as X1. pose proof (writeVarint_length (Z.of_nat (length (leaves b2)))) as X2.
  apply (f_equal Some), write_string_inj in Es; [|rewrite !length_app; lia..].
  assert (forall (h1 h2 : block_header_t) (s1 s2 : bytes), Some (h1, s1) = Some (h2, s2) -> h1 = h2 /\ s1 = s2) as J by (intros ???? [=]; done).
  pose proof (f_equal read_header Es) as Er. rewrite R1, R2 in Er. apply J in Er as [Eh Er].
  apply app_inj_1 in Er as [-> Ev]; [|congruence]. apply varint_count_inj in Ev; [|cbn [leaves length]; lia..].
  destruct (tree_hash_binds (leaves b1) (leaves b2)) as [El|]; [lia|cbn [leaves length]; lia|cbn [leaves length]; lia|by apply leaves_width..|congruence| |by right].
  unfold leaves in El. assert (forall (a b : bytes) l m, a :: l = b :: m -> a = b /\ l = m) as K by (intros ???? [=]; done).
  apply K in El as [Eb Et]. destruct (objectHash_inj write_transaction read_transaction valid_transaction _ _ ltac:(apply V1) ltac:(apply V2) Eb) as [Ex|]; [|by right].
  left. destruct b1, b2. cbn in *. congruence.
Qed.

Lemma block_hash_binding_witness : is_Some (getHash sample_block) /\ (getHash sample_block = getHash sample_block -> sample_block = sample_block \/ collision64).
Proof. apply (block_hash_binding sample_block sample_block); [apply sample_block_valid..|cbn; lia|cbn; lia]. Defined.
