(* ===== verification/BlockIndex.v ===== *)
(** * The indexes of blocks: cryptonote/core/blockchain/serializer/block_index, indexing/

    The hashes of the main chain in order ([BlockIndex]), the blocks by time
    ([TimestampBlocksIndex]), the number of transactions up to a height
    ([GeneratedTransactionsIndex]) and the blocks beside the chain by height
    ([OrphanBlocksIndex]).  [None] is a failed assertion, an exception or an
    access out of range. *)

From stdpp Require Import gmap sorting.
From S2P Require Import Prelude Keccak Stream Types Binary ChainIndex Block.

(** ** BlockIndex *)

(** The container is a sequence without repetitions. *)
Abbreviation block_ids := (list bytes).

Definition hasBlock (m_container : block_ids) (h : bytes) : bool := bool_decide (h ∈ m_container).

(** [BlockIndex::push]: the second component is [false] when the hash exists. *)
Definition ids_push (m_container : block_ids) (h : bytes) : block_ids * bool :=
  if hasBlock m_container h then (m_container, false) else (m_container ++ [h], true).

Definition ids_pop (m_container : block_ids) : option block_ids :=
  match m_container with [] => None | _ => Some (pop_back m_container) end.

(** The distance from the beginning to the element found. *)
Fixpoint position (h : bytes) (l : block_ids) : option nat :=
  match l with [] => None | x :: l => if bool_decide (x = h) then Some 0%nat else S <$> position h l end.
Definition getBlockHeight (m_container : block_ids) (h : bytes) : option Z := (fun i => u32 (Z.of_nat i)) <$> position h m_container.

Definition ids_size (m_container : block_ids) : Z := u32 (Z.of_nat (length m_container)).

Definition getBlockId (m_container : block_ids) (height : Z) : option bytes := m_container !! Z.to_nat height.

Definition getBlockIds (m_container : block_ids) (startBlockIndex maxCount : Z) : block_ids :=
  let start := Z.to_nat startBlockIndex in
  if (length m_container <=? start)%nat then []
  else take (Nat.min (Z.to_nat maxCount) (length m_container - start)) (drop start m_container).

(** [findSupplement]: the offset, or [None] for [false]. *)
Fixpoint findSupplement (m_container : block_ids) (ids : list bytes) : option Z :=
  match ids with
  | [] => None
  | id :: ids => match getBlockHeight m_container id with Some offset => Some offset | None => findSupplement m_container ids end
  end.

(** The loop of [buildSparseChain]: [i] doubles up to [sparseChainEnd], which has 32 bits. *)
Fixpoint sparse_loop (fuel : nat) (m_container : block_ids) (sparseChainEnd i : nat) : option (list bytes) :=
  match fuel with
  | O => None
  | S fuel =>
      if (i <=? sparseChainEnd)%nat then
        x ← m_container !! (sparseChainEnd - i)%nat; l ← sparse_loop fuel m_container sparseChainEnd (i * 2); Some (x :: l)
      else Some []
  end.

Definition buildSparseChain (m_container : block_ids) (startBlockId : bytes) : option (list bytes) :=
  startBlockHeight ← getBlockHeight m_container startBlockId;
  let sparseChainEnd := Z.to_nat (u32 (startBlockHeight + 1)) in
  result ← sparse_loop 33 m_container sparseChainEnd 1;
  back ← list.last result;
  front ← m_container !! 0%nat;
  Some (if negb (bool_decide (back = front)) then result ++ [front] else result).

Definition ids_tail (m_container : block_ids) : option bytes := list.last m_container.

(** ** TimestampBlocksIndex *)

(** A multimap in the order of its keys: a new element goes behind the equal ones. *)
Fixpoint timestamp_add (timestamp : Z) (hash : bytes) (index : list (Z * bytes)) : list (Z * bytes) :=
  match index with
  | [] => [(timestamp, hash)]
  | (t, h) :: rest => if timestamp <? t then (timestamp, hash) :: index else (t, h) :: timestamp_add timestamp hash rest
  end.

(** The first element of the equal range with this hash is erased. *)
Fixpoint timestamp_remove (timestamp : Z) (hash : bytes) (index : list (Z * bytes)) : list (Z * bytes) * bool :=
  match index with
  | [] => ([], false)
  | (t, h) :: rest =>
      if (t =? timestamp) && bool_decide (h = hash) then (rest, true)
      else let '(rest, found) := timestamp_remove timestamp hash rest in ((t, h) :: rest, found)
  end.

(** The result, the hashes found and [hashesNumberWithinTimestamps] where it is set. *)
Definition timestamp_find (index : list (Z * bytes)) (timestampBegin timestampEnd hashesNumberLimit : Z) : bool * list bytes * option Z :=
  if timestampEnd <? timestampBegin then (false, [], None)
  else
    let range := List.filter (fun p => (timestampBegin <=? p.1) && (p.1 <=? timestampEnd)) index in
    let hashes := take (Z.to_nat hashesNumberLimit) range.*2 in
    (negb (length hashes =? 0)%nat, hashes, Some (u32 (Z.of_nat (length range)))).

(** ** GeneratedTransactionsIndex *)

Record generated_index := mkgenerated { gen_index : gmap Z Z; lastGeneratedTxNumber : Z }.

(** [boost::get<base_input_t>(block.baseTransaction.inputs.front()).blockIndex] *)
Definition front_height (block : block_t) : option Z :=
  match inputs (prefix (baseTransaction block)) with base_input i :: _ => Some (blockIndex i) | _ => None end.

Definition generated_add (g : generated_index) (block : block_t) : option (generated_index * bool) :=
  blockHeight ← front_height block;
  if negb (Z.of_nat (size (gen_index g)) =? blockHeight) then Some (g, false)
  else match gen_index g !! blockHeight with
  | Some _ => Some (g, false)
  | None =>
      let n := u64 (lastGeneratedTxNumber g + Z.of_nat (length (transactionHashes block)) + 1) in
      Some (mkgenerated (<[blockHeight := n]> (gen_index g)) n, true)
  end.

Definition generated_remove (g : generated_index) (block : block_t) : option (generated_index * bool) :=
  blockHeight ← front_height block;
  if negb (blockHeight =? u64 (Z.of_nat (size (gen_index g)) - 1)) then Some (g, false)
  else
    _ ← gen_index g !! blockHeight;
    let index := delete blockHeight (gen_index g) in
    if negb (blockHeight =? 0) then
      n ← index !! (blockHeight - 1);
      Some (mkgenerated index n, true)
    else Some (mkgenerated index 0, true).

Definition generated_find (g : generated_index) (height : Z) : option Z := gen_index g !! height.

(** ** OrphanBlocksIndex *)

Definition orphan_add (index : list (Z * bytes)) (block : block_t) : option (list (Z * bytes)) :=
  blockHash ← getHash block; blockHeight ← front_height block; Some (timestamp_add blockHeight blockHash index).

Definition orphan_remove (index : list (Z * bytes)) (block : block_t) : option (list (Z * bytes) * bool) :=
  blockHash ← getHash block; blockHeight ← front_height block; Some (timestamp_remove blockHeight blockHash index).

Definition orphan_find (index : list (Z * bytes)) (height : Z) : list bytes := (List.filter (fun p => p.1 =? height) index).*2.

(** ** Adding and removing *)

Lemma position_Some h l i : position h l = Some i <-> l !! i = Some h /\ h ∉ take i l.
Proof.
  revert i. induction l as [|x l IH]; intros i; cbn [position]; [by split; [|intros [? _]]|]. case_bool_decide as E.
  - subst x. destruct i as [|i]; [by split; [intros; split; [done|by intros ?%elem_of_nil]|]|]. split; [done|]. intros [_ H]. destruct H. by left.
  - destruct i as [|i].
    + split; [by destruct (position h l)|]. intros [[= ?] _]. done.
    + cbn [lookup list_lookup take]. rewrite list.not_elem_of_cons, fmap_Some. split.
      * intros (j & [Hj Hn]%IH & [= <-]). by split; [|split; [by intros ->|]].
      * intros (Hl & _ & Hn). exists i. split; [by apply IH|done].
Qed.

Lemma position_None h l : position h l = None <-> h ∉ l.
Proof.
  induction l as [|x l IH]; cbn [position]; [split; [by intros _ ?%elem_of_nil|done]|]. rewrite list.not_elem_of_cons. case_bool_decide as E.
  - split; [done|]. by intros [? _].
  - rewrite fmap_None, IH. split; [by intros; split; [by intros ->|]|by intros [_ ?]].
Qed.

Lemma ids_push_pop m h : h ∉ m -> exists m', ids_push m h = (m', true) /\ ids_pop m' = Some m.
Proof.
  intros H. unfold ids_push, hasBlock. rewrite bool_decide_false by done. eexists. split; [done|]. unfold ids_pop.
  destruct (m ++ [h]) eqn:E; [by destruct m|]. rewrite <- E. by rewrite pop_back_app.
Qed.

(** Removing what was added, if it was not there. *)
Lemma timestamp_remove_add t h index : (t, h) ∉ index -> timestamp_remove t h (timestamp_add t h index) = (index, true).
Proof.
  induction index as [|[t' h'] rest IH]; intros H; cbn [timestamp_add timestamp_remove].
  { by rewrite Z.eqb_refl, bool_decide_true. }
  apply list.not_elem_of_cons in H as [Hne H]. destruct (t <? t') eqn:E; cbn [timestamp_remove].
  - by rewrite Z.eqb_refl, bool_decide_true.
  - destruct (Z.eqb_spec t' t) as [->|]; [|by rewrite IH]. rewrite bool_decide_false by (intros ->; done). cbn. by rewrite IH.
Qed.

Lemma timestamp_add_elem t h index p : p ∈ timestamp_add t h index <-> p = (t, h) \/ p ∈ index.
Proof.
  induction index as [|[t' h'] rest IH]; cbn [timestamp_add]; [by rewrite list_elem_of_singleton, elem_of_nil; naive_solver|].
  destruct (t <? t'); rewrite !list.elem_of_cons; [done|]. rewrite IH. naive_solver.
Qed.

Lemma timestamp_add_sorted t h index : StronglySorted (fun p q => p.1 <= q.1) index -> StronglySorted (fun p q => p.1 <= q.1) (timestamp_add t h index).
Proof.
  induction 1 as [|[t' h'] rest S IH F]; cbn [timestamp_add]; [repeat constructor|]. destruct (Z.ltb_spec t t').
  - constructor; [by constructor|]. constructor; [cbn; lia|]. eapply list.Forall_impl; [exact F|]. cbn. lia.
  - constructor; [done|]. rewrite list.Forall_forall in F |- *. intros p [->|Hp]%timestamp_add_elem; [done|by apply F].
Qed.

(** ** Sparse chains and supplements *)

(** The hashes listed by the loop. *)
Lemma sparse_loop_value fuel m e k : (e <= length m)%nat -> (e < 2 ^ (fuel + k - 1))%nat -> (1 <= fuel)%nat ->
  exists n, sparse_loop fuel m e (2 ^ k) = Some ((fun j => m !!! (e - 2 ^ (k + j))%nat) <$> seq 0 n) /\
    (forall j, (j < n)%nat -> (2 ^ (k + j) <= e)%nat) /\ (e < 2 ^ (k + n))%nat.
Proof.
  revert k. induction fuel as [|fuel IH]; intros k Hl Hf H1; [lia|]. cbn [sparse_loop]. destruct (Nat.leb_spec (2 ^ k) e) as [H|H].
  - destruct (lookup_lt_is_Some_2 m (e - 2 ^ k)) as [x Hx]. { pose proof (Nat.pow_nonzero 2 k ltac:(lia)). lia. }
    rewrite Hx. cbn [mbind option_bind]. assert (Hf1 : (1 <= fuel)%nat).
    { destruct fuel; [|lia]. cbn [Nat.add Nat.sub] in Hf. rewrite Nat.sub_0_r in Hf. lia. }
    replace (2 ^ k * 2)%nat with (2 ^ S k)%nat by (cbn; lia). destruct (IH (S k) Hl) as (n & -> & Hn & He); [by replace (fuel + S k - 1)%nat with (S fuel + k - 1)%nat by lia|done|].
    exists (S n). cbn [mbind option_bind]. split_and!.
    + cbn [seq fmap list_fmap]. rewrite <- seq_shift. f_equal. f_equal.
      * rewrite Nat.add_0_r. symmetry. by apply list_lookup_total_correct.
      * change (list_fmap ?A ?B ?f ?l) with (f <$> l). rewrite <- list_fmap_compose. apply list_fmap_ext. intros i j _. cbn. by rewrite Nat.add_succ_r.
    + intros [|j] Hj; [by rewrite Nat.add_0_r|]. rewrite Nat.add_succ_r. apply (Hn j). lia.
    + by rewrite Nat.add_succ_r.
  - exists 0%nat. split_and!; [done|lia|by rewrite Nat.add_0_r].
Qed.

Lemma position_nodup h l i : NoDup l -> l !! i = Some h -> position h l = Some i.
Proof.
  intros N H. apply position_Some. split; [done|]. intros (j & Hj)%list_elem_of_lookup_1. apply lookup_take_Some in Hj as [Hj Hlt].
  pose proof (NoDup_lookup l i j h N H Hj). lia.
Qed.

(** Only common blocks are found, by their position. *)
Lemma supplement_first P B' ids (pos : nat -> nat) n x : NoDup (P ++ B') -> Z.of_nat (length (P ++ B')) < 2 ^ 32 ->
  (forall j h, (j < n)%nat -> ids !! j = Some h -> h ∉ P ++ B') -> ids !! n = Some x -> P !! pos n = Some x ->
  findSupplement (P ++ B') ids = Some (Z.of_nat (pos n)).
Proof.
  intros N L. revert n pos. induction ids as [|id ids IH]; intros n pos Hj Hn Hp; [done|]. cbn [findSupplement]. destruct n as [|n].
  - injection Hn as ->. unfold getBlockHeight. rewrite (position_nodup x (P ++ B') (pos 0%nat)); [|done|by apply lookup_app_l_Some].
    cbn. rewrite wrap_small; [done|]. apply lookup_lt_Some in Hp. rewrite length_app in L. unfold is_word. lia.
  - unfold getBlockHeight. rewrite (proj2 (position_None id (P ++ B'))) by (by apply (Hj 0%nat); [lia|]). cbn [fmap option_fmap option_map].
    apply (IH n (fun i => pos (S i))); [|done|done]. intros j h Hlt Hh. apply (Hj (S j)); [lia|done].
Qed.

Lemma least_power a : exists k, (a < 2 ^ k)%nat /\ forall j, (j < k)%nat -> (2 ^ j <= a)%nat.
Proof.
  destruct (decide (a = 0)%nat) as [->|H]; [exists 0%nat; split; [cbn; lia|lia]|]. exists (S (Nat.log2 a)). destruct (Nat.log2_spec a ltac:(lia)) as [H1 H2].
  split; [done|]. intros j Hj. transitivity (2 ^ Nat.log2 a)%nat; [apply Nat.pow_le_mono_r; lia|done].
Qed.

(** What [buildSparseChain] lists from the last block. *)
Lemma sparse_chain_value m x : list.last m = Some x -> NoDup m -> Z.of_nat (length m) < 2 ^ 32 -> exists cnt front,
  m !! 0%nat = Some front /\ (1 <= cnt)%nat /\ (forall j, (j < cnt)%nat -> (2 ^ j <= length m)%nat) /\ (length m < 2 ^ cnt)%nat /\
  let result := (fun j => m !!! (length m - 2 ^ j)%nat) <$> seq 0 cnt in
  buildSparseChain m x = Some (if negb (bool_decide (m !!! (length m - 2 ^ (cnt - 1))%nat = front)) then result ++ [front] else result).
Proof.
  intros Hx N L. destruct m as [|front m']; [done|]. set (m := front :: m') in *. rewrite last_lookup in Hx.
  destruct (sparse_loop_value 33 m (length m) 0) as (cnt & E & Hc & He); [lia|apply Nat2Z.inj_lt; rewrite Nat2Z.inj_pow; exact L|lia|].
  exists cnt, front. assert (Hc1 : (1 <= cnt)%nat). { destruct cnt; [|lia]. cbn in He. unfold m in He. cbn in He. lia. }
  split_and!; [done|done|by intros j Hj; apply (Hc j)|done|]. cbv zeta. unfold buildSparseChain, getBlockHeight. rewrite (position_nodup x m (pred (length m)) N Hx).
  cbn [fmap option_fmap option_map mbind option_bind]. rewrite (wrap_small 32 (Z.of_nat (pred _))) by (unfold is_word; lia).
  replace (Z.of_nat (pred (length m)) + 1) with (Z.of_nat (length m)) by (unfold m; cbn [length pred]; lia). rewrite wrap_small by (unfold is_word; lia).
  rewrite Nat2Z.id. change (2 ^ 0)%nat with 1%nat in E. rewrite E. cbn [mbind option_bind]. rewrite last_lookup, length_fmap, length_seq, list_lookup_fmap.
  rewrite lookup_seq_lt by lia. cbn [fmap option_fmap option_map mbind option_bind Nat.add]. replace (pred cnt) with (cnt - 1)%nat by lia. done.
Qed.

(** C16: synchronisation starts at a common block close to the fork.  For two
    chains that share the blocks [P], at least the first one, and no others,
    the sparse chain built from the tail of one leads the other to a common
    block: [findSupplement] returns a height inside [P], not further below
    the fork than the first chain reaches above it (and the last common block
    itself when it does not). *)
Theorem sparse_chain_supplement (P A' B' : list bytes) x : (0 < length P)%nat -> NoDup (P ++ A' ++ B') -> list.last (P ++ A') = Some x ->
  Z.of_nat (length (P ++ A')) < 2 ^ 32 -> Z.of_nat (length (P ++ B')) < 2 ^ 32 ->
  exists ids offset, buildSparseChain (P ++ A') x = Some ids /\ findSupplement (P ++ B') ids = Some offset /\
    0 <= offset < Z.of_nat (length P) /\ Z.of_nat (length P) - offset <= Z.max 1 (Z.of_nat (length A')).
Proof.
  intros HP N Hx LA LB. apply list.NoDup_app in N as (NP & DP & (NA & DA & NB)%list.NoDup_app).
  assert (NPA : NoDup (P ++ A')) by (apply list.NoDup_app; split_and!; [done|intros y ??; apply (DP y); [done|apply elem_of_app; by left]|done]).
  assert (NPB : NoDup (P ++ B')) by (apply list.NoDup_app; split_and!; [done|intros y ??; apply (DP y); [done|apply elem_of_app; by right]|done]).
  destruct (sparse_chain_value (P ++ A') x Hx NPA LA) as (cnt & front & Hfront & Hc1 & Hc & He & E). set (n := length (P ++ A')) in *.
  assert (En : n = (length P + length A')%nat) by (unfold n; by rewrite length_app).
  set (result := _ <$> seq 0 cnt) in E. destruct (least_power (length A')) as (k & Hk & Hkj).
  assert (Hr : forall j, (j < cnt)%nat -> result !! j = Some ((P ++ A') !!! (n - 2 ^ j)%nat)).
  { intros j Hj. unfold result. by rewrite list_lookup_fmap, lookup_seq_lt. }
  assert (Hfar : forall j, (j < cnt)%nat -> (j < k)%nat -> (P ++ A') !!! (n - 2 ^ j)%nat ∈ A').
  { intros j Hj Hjk. specialize (Hc j Hj). specialize (Hkj j Hjk). pose proof (Nat.pow_nonzero 2 j ltac:(lia)).
    rewrite lookup_total_app_r by lia. apply list_elem_of_lookup_total_2. lia. }
  assert (Hout : forall y, y ∈ A' -> y ∉ P ++ B').
  { intros y Hy [H|H]%elem_of_app; [apply (DP y H); apply elem_of_app; by left|by apply (DA y)]. }
  assert (HfP : P !! 0%nat = Some front) by (by rewrite lookup_app_l in Hfront).
  pose proof (Nat.pow_nonzero 2 k ltac:(lia)) as Hnz. assert (H2a : k <> 0%nat -> (2 ^ k <= 2 * length A')%nat).
  { intros Hk0. specialize (Hkj (k - 1)%nat ltac:(lia)). replace k with (S (k - 1)) by lia. rewrite Nat.pow_succ_r'. lia. }
  destruct (decide (k < cnt)%nat) as [Hlt|Hge].
  - specialize (Hc k Hlt). eexists _, (Z.of_nat (n - 2 ^ k)). split; [exact E|].
    assert (S : forall tail, findSupplement (P ++ B') (result ++ tail) = Some (Z.of_nat (n - 2 ^ k))).
    { intros tail. apply (supplement_first P B' (result ++ tail) (fun j => (n - 2 ^ j)%nat) k ((P ++ A') !!! (n - 2 ^ k)%nat) NPB LB).
      - intros j h Hj Hh. rewrite lookup_app_l in Hh by (unfold result; rewrite length_fmap, length_seq; lia). rewrite Hr in Hh by lia.
        injection Hh as <-. apply Hout, Hfar; lia.
      - rewrite lookup_app_l by (unfold result; rewrite length_fmap, length_seq; lia). by apply Hr.
      - rewrite lookup_total_app_l by lia. apply list_lookup_lookup_total_lt. lia. }
    split; [destruct (negb _); [apply S|rewrite <- (app_nil_r result); apply S]|]. destruct (decide (k = 0)%nat) as [->|Hk0]; [cbn in *; lia|]. specialize (H2a Hk0). lia.
  - assert (Hback : (P ++ A') !!! (n - 2 ^ (cnt - 1))%nat <> front).
    { intros Eq. apply (Hout front); [rewrite <- Eq; apply Hfar; lia|]. apply elem_of_app. left. by eapply list_elem_of_lookup_2. }
    rewrite bool_decide_false in E by done. eexists _, 0. split; [exact E|]. split.
    + apply (supplement_first P B' (result ++ [front]) (fun _ => 0%nat) cnt front NPB LB); [| |done].
      * intros j h Hj Hh. rewrite lookup_app_l in Hh by (unfold result; rewrite length_fmap, length_seq; lia). rewrite Hr in Hh by lia.
        injection Hh as <-. apply Hout, Hfar; lia.
      * rewrite lookup_app_r by (unfold result; rewrite length_fmap, length_seq; lia). unfold result. rewrite length_fmap, length_seq. by rewrite Nat.sub_diag.
    + assert ((2 ^ cnt <= 2 ^ k)%nat) by (apply Nat.pow_le_mono_r; lia). specialize (H2a ltac:(lia)). lia.
Qed.

Lemma sparse_chain_supplement_witness : exists ids offset, buildSparseChain ([[1]; [2]; [3]] ++ [[4]; [5]; [6]]) [6] = Some ids /\
  findSupplement ([[1]; [2]; [3]] ++ [[7]]) ids = Some offset /\ 0 <= offset < 3 /\ 3 - offset <= Z.max 1 3.
Proof.
  apply (sparse_chain_supplement [[1]; [2]; [3]] [[4]; [5]; [6]] [[7]] [6]); [cbn; lia| |reflexivity|cbn; lia|cbn; lia].
  apply (bool_decide_unpack _). vm_compute. exact I.
Defined.
