(* ===== verification/ChainState.v ===== *)
(** * The main chain: cryptonote/core/blockchain.cpp

    [Blockchain] with its indexes: a block is pushed after all its checks and
    popped again when the chain is reorganised.  [None] is a failed assertion,
    an exception or an access out of range, anywhere in a call.  The time, the
    slow hash and the parameters of the difficulty are arguments; the
    transactions that a popped block gives back to the pool are not kept.

    The blocks are a list: what the block storage answers while the chain has
    at most [getPoolSize] blocks, all pushed since the storage was created
    ([block_accessor_refines]).  Beyond that the storage reads entries back
    from its file, changed ([stored_block_corrupted]); [block_ok] leaves such
    chains out. *)

From stdpp Require Import gmap.
From S2P Require Import Prelude Difficulty Keccak KeccakProofs TreeHash Stream Types Binary Amounts Base58 StreamCodec Currency ChainIndex Validate ChainPush Checkpoints Block BlockIndex.

#[local] Opaque cn_fast_hash.

Record blockchain := mkblockchain {
  bc_chain : chain;
  m_blockIndex : block_ids;
  m_timestampIndex : list (Z * bytes);
  m_generatedTransactionsIndex : generated_index;
  m_current_block_cumul_sz_limit : Z;
}.

(** What does not change: the currency and its difficulty parameters, the checkpoints, the slow hash. *)
Record setting := mksetting { set_currency : currency; set_difficulty : difficulty_config; m_checkpoints : checkpoints; slow_hash : Z -> bytes -> option bytes }.

(** Returned [true] or [false] with the new state. *)
Inductive push_outcome := Added (bc : blockchain) | NotAdded (bc : blockchain).

Definition with_chain (bc : blockchain) (ch : chain) : blockchain :=
  mkblockchain ch (m_blockIndex bc) (m_timestampIndex bc) (m_generatedTransactionsIndex bc) (m_current_block_cumul_sz_limit bc).

Definition getTailId (bc : blockchain) : option bytes :=
  match m_blocks (bc_chain bc) with [] => Some NULL_HASH | _ => ids_tail (m_blockIndex bc) end.

Section blockchain.
Context `{QSort} (s : setting) (now : Z).
#[local] Abbreviation c := (set_currency s).

(** The timestamps and cumulative difficulties of the last blocks, without the first of the chain. *)
Definition getDifficultyForNextBlock (ch : chain) : option Z :=
  let size := length (m_blocks ch) in
  let count := Z.to_nat (window (set_difficulty s) + lag (set_difficulty s)) in
  let offset := (size - Nat.min size count)%nat in
  let offset := if (offset =? 0)%nat then 1%nat else offset in
  let blocks := drop offset (m_blocks ch) in
  fst <$> next_difficulty ((fun e => timestamp (header (bl e))) <$> blocks) (u16 (Z.of_nat (length blocks))) (cumulative_difficulty <$> blocks) (set_difficulty s).

(** [update_next_comulative_size_limit] *)
Definition size_limit (ch : chain) : Z :=
  let median := medianValue (get_last_n_blocks_sizes ch (rewardBlocksWindow c)) in
  let median := if median <=? blockGrantedFullRewardZone c then blockGrantedFullRewardZone c else median in
  u64 (median * 2).

(** [pushBlock(block_entry_t &)], when the entry is the last one of [ch]: it
    is written to the file of blocks, where the writer may throw. *)
Definition push_entry (bc : blockchain) (ch : chain) (b : block_t) : option blockchain :=
  blockHash ← getHash b;
  block ← list.last (m_blocks ch);
  _ ← put_block_entry block;
  let ids := fst (ids_push (m_blockIndex bc) blockHash) in
  let times := timestamp_add (timestamp (header b)) blockHash (m_timestampIndex bc) in
  '(generated, _) ← generated_add (m_generatedTransactionsIndex bc) b;
  if negb (ids_size ids =? Z.of_nat (length (m_blocks ch))) then None
  else Some (mkblockchain ch ids times generated (m_current_block_cumul_sz_limit bc)).

(** [pushBlock(blockData, transactions, bvc)] after the checks that change nothing. *)
Definition push_checked (bc : blockchain) (currentDifficulty : Z) (b : block_t) (txs : list transaction_t) : option push_outcome :=
  match pushBlock c (bc_chain bc) now currentDifficulty b txs with
  | Crashed => None
  | Refused ch => Some (NotAdded (with_chain bc ch))
  | Accepted ch =>
      bc ← push_entry bc ch b;
      Some (Added (mkblockchain (bc_chain bc) (m_blockIndex bc) (m_timestampIndex bc) (m_generatedTransactionsIndex bc) (size_limit ch)))
  end.

(** The proof of work, or the checkpoint of the height. *)
Definition work_ok (bc : blockchain) (blockHash : bytes) (currentDifficulty : Z) (b : block_t) : option bool :=
  let height := getHeight (bc_chain bc) in
  if isCheckpoint (m_checkpoints s) height then Some (fst (check (m_checkpoints s) height blockHash))
  else fst <$> checkProofOfWork (slow_hash s) b currentDifficulty.

Definition push_block (bc : blockchain) (b : block_t) (txs : list transaction_t) : option push_outcome :=
  blockHash ← getHash b;
  if hasBlock (m_blockIndex bc) blockHash then Some (NotAdded bc)
  else
    tail ← getTailId bc;
    if negb (bool_decide (previousBlockHash (header b) = tail)) then Some (NotAdded bc)
    else if negb (check_block_timestamp_main c (bc_chain bc) now b) then Some (NotAdded bc)
    else
      currentDifficulty ← getDifficultyForNextBlock (bc_chain bc);
      if currentDifficulty =? 0 then Some (NotAdded bc)
      else
        ok ← work_ok bc blockHash currentDifficulty b;
        if negb ok then Some (NotAdded bc) else push_checked bc currentDifficulty b txs.
End blockchain.

(** [popBlock]: the transactions of the last block, the last one first, are
    popped, then the block is taken out of the other indexes. *)
Definition entry_transactions (e : block_entry_t) : list (bytes * transaction_t) :=
  (objectHash write_transaction (baseTransaction (bl e)), baseTransaction (bl e)) :: zip (transactionHashes (bl e)) (entry_tx <$> tail (transactions e)).

Definition popBlock (bc : blockchain) (blockHash : bytes) : option blockchain :=
  match list.last (m_blocks (bc_chain bc)) with
  | None => Some bc
  | Some e =>
      if (length (transactions e) =? 0)%nat || (length (transactionHashes (bl e)) <? length (transactions e) - 1)%nat then None
      else
        ci ← popTransactions (chain_index (bc_chain bc)) (reverse (entry_transactions e));
        let times := fst (timestamp_remove (timestamp (header (bl e))) blockHash (m_timestampIndex bc)) in
        '(generated, _) ← generated_remove (m_generatedTransactionsIndex bc) (bl e);
        let blocks := pop_back (m_blocks (bc_chain bc)) in
        ids ← ids_pop (m_blockIndex bc);
        if negb (ids_size ids =? Z.of_nat (length blocks)) then None
        else Some (mkblockchain (mkchain ci blocks (m_is_in_checkpoint_zone (bc_chain bc))) ids times generated (m_current_block_cumul_sz_limit bc))
  end.

(** ** The invariant *)

(** The transactions up to the last of some blocks, the miners' included, as the index counts them. *)
Definition generated_count (blocks : list block_entry_t) : Z :=
  foldl (fun n e => u64 (n + Z.of_nat (length (transactionHashes (bl e))) + 1)) 0 blocks.

(** What a block [e] of number [i] and hash [h] has: a cumulative difficulty
    that adds a difficulty other than zero to the one before; above the last
    checkpoint, a slow hash that satisfies this difficulty; up to the last
    checkpoint no work is asked for, only that the hash is the one of the
    checkpoint if there is one at this very height. *)
Definition worked (s : setting) (blocks : list block_entry_t) (i : nat) (e : block_entry_t) (h : bytes) : Prop := exists d, d <> 0 /\
  cumulative_difficulty e = match blocks !! (i - 1)%nat with Some e' => if (i =? 0)%nat then d else u64 (d + cumulative_difficulty e') | None => d end /\
  if isCheckpoint (m_checkpoints s) (Z.of_nat i) then forall point, m_checkpoints s !! Z.of_nat i = Some point -> point = h
  else exists pow, getLongHash (slow_hash s) (bl e) = Some pow /\ check_hash pow d = true.

Record chain_ok (s : setting) (bc : blockchain) : Prop := {
  ok_indexes : indexes_ok (chain_index (bc_chain bc));
  ok_length : Z.of_nat (length (m_blocks (bc_chain bc))) <= getPoolSize;
  ok_ids : Forall2 (fun e h => getHash (bl e) = Some h) (m_blocks (bc_chain bc)) (m_blockIndex bc);
  ok_distinct : NoDup (m_blockIndex bc);
  ok_linked i e : m_blocks (bc_chain bc) !! i = Some e ->
    previousBlockHash (header (bl e)) = match i with O => NULL_HASH | S j => m_blockIndex bc !!! j end;
  ok_heights i e : m_blocks (bc_chain bc) !! i = Some e -> front_height (bl e) = Some (Z.of_nat i);
  ok_times : m_timestampIndex bc ≡ₚ zip ((fun e => timestamp (header (bl e))) <$> m_blocks (bc_chain bc)) (m_blockIndex bc);
  ok_generated : size (gen_index (m_generatedTransactionsIndex bc)) = length (m_blocks (bc_chain bc)) /\
    (forall i, (i < length (m_blocks (bc_chain bc)))%nat -> gen_index (m_generatedTransactionsIndex bc) !! Z.of_nat i = Some (generated_count (take (S i) (m_blocks (bc_chain bc))))) /\
    (forall k, is_Some (gen_index (m_generatedTransactionsIndex bc) !! k) -> 0 <= k < Z.of_nat (length (m_blocks (bc_chain bc)))) /\
    lastGeneratedTxNumber (m_generatedTransactionsIndex bc) = generated_count (m_blocks (bc_chain bc));
  ok_work i e h : m_blocks (bc_chain bc) !! i = Some e -> m_blockIndex bc !! i = Some h -> worked s (m_blocks (bc_chain bc)) i e h;
}.

Definition empty_blockchain : blockchain := mkblockchain (mkchain no_indexes [] false) [] [] (mkgenerated ∅ 0) 0.

(** The calls on the chain: pushing a block of well-formed transactions, at any
    time, and popping the last block; [block_ok] bounds the number of
    transactions by 2^16 and the chain by the cache of the block storage. *)
Inductive chain_step `{QSort} (s : setting) (bc : blockchain) : blockchain -> Prop :=
  | step_added now b txs bc' : block_ok (bc_chain bc) b txs -> push_block s now bc b txs = Some (Added bc') -> chain_step s bc bc'
  | step_refused now b txs bc' : block_ok (bc_chain bc) b txs -> push_block s now bc b txs = Some (NotAdded bc') -> chain_step s bc bc'
  | step_popped e h bc' : list.last (m_blocks (bc_chain bc)) = Some e -> getHash (bl e) = Some h -> popBlock bc h = Some bc' -> chain_step s bc bc'.

(** ** Popping keeps the indexes in order *)

Lemma no_empty_delete {A} (m : gmap Z (list A)) a : no_empty m -> no_empty (delete a m).
Proof. intros H k. rewrite lookup_delete. case_decide; [done|apply H]. Qed.

Lemma no_empty_insert {A} (m : gmap Z (list A)) a v : v <> [] -> no_empty m -> no_empty (<[a := v]> m).
Proof. intros Hv H k. rewrite lookup_insert. case_decide; [by intros [=]|apply H]. Qed.

Lemma remove_output_ok idx n o outs multis : no_empty outs -> no_empty multis ->
  no_empty (remove_output idx n o outs multis).1 /\ no_empty (remove_output idx n o outs multis).2.
Proof.
  intros Ho Hm. unfold remove_output. destruct (target o).
  - destruct (outs !! _) as [v|]; [|done]. destruct (list.last v) as [[i m]|]; [|done]. destruct (negb _); [done|]. destruct (negb _); [done|].
    destruct (pop_back v) eqn:E; cbn [fst snd]; split; try done; [by apply no_empty_delete|by apply no_empty_insert].
  - destruct (multis !! _) as [v|]; [|done]. destruct (list.last v) as [u|]; [|done]. destruct (isUsed u); [done|]. destruct (negb _); [done|]. destruct (negb _); [done|].
    destruct (pop_back v) eqn:E; cbn [fst snd]; split; try done; [by apply no_empty_delete|by apply no_empty_insert].
Qed.

Lemma remove_outputs_ok idx n l outs multis : no_empty outs -> no_empty multis ->
  no_empty (remove_outputs idx n l outs multis).1 /\ no_empty (remove_outputs idx n l outs multis).2.
Proof.
  revert n outs multis. induction l as [|o l IH]; intros n outs multis Ho Hm; [done|]. cbn [remove_outputs]. specialize (IH (S n) outs multis Ho Hm).
  destruct (remove_outputs idx (S n) l outs multis) as [o' m']. destruct IH as [I1 I2]. exact (remove_output_ok idx n o o' m' I1 I2).
Qed.

Lemma mark_loop_no_empty b m l m' : no_empty m -> mark_loop b m l = Some m' -> no_empty m'.
Proof.
  revert m. induction l as [|i l IH]; intros m H E; [by injection E as <-|]. destruct i as [i|i|i]; cbn [mark_loop] in E; [by eapply IH..|].
  unfold mark in E. destruct (m !! _) as [v|] eqn:Ev; [|done]. cbn [mbind option_bind] in E. destruct (_ <? _)%nat; [|done]. cbn [mbind option_bind] in E.
  eapply IH; [|exact E]. apply no_empty_insert; [|done]. intros E'. apply (H (multi_amount i)). rewrite Ev. f_equal.
  apply (f_equal length) in E'. rewrite length_alter in E'. by destruct v.
Qed.

Lemma pop_transactions_ok l ci ci' : indexes_ok ci -> popTransactions ci l = Some ci' -> indexes_ok ci'.
Proof.
  revert ci. induction l as [|[h tx] l IH]; intros ci H E; cbn [popTransactions] in E; [by injection E as <-|].
  destruct (popTransaction ci tx h) as [ci1|] eqn:E1; [|done]. eapply IH; [|exact E]. unfold popTransaction in E1.
  destruct (m_transactionMap ci !! h) as [idx|]; [|done]. cbn [mbind option_bind] in E1. destruct H as [Ho Hm].
  pose proof (remove_outputs_ok idx 0 (outputs (prefix tx)) _ _ Ho Hm) as R. destruct (remove_outputs _ _ _ _ _) as [outs multis]. destruct R as [Ro Rm].
  destruct (mark_loop false multis _) as [multis'|] eqn:Em; [|done]. injection E1 as <-. split; [done|]. by eapply mark_loop_no_empty.
Qed.

(** ** The invariant under a push *)

Lemma ids_length s bc : chain_ok s bc -> length (m_blockIndex bc) = length (m_blocks (bc_chain bc)).
Proof. intros Hc. symmetry. eapply list.Forall2_length, ok_ids, Hc. Qed.

Lemma generated_count_app blocks e : generated_count (blocks ++ [e]) = u64 (generated_count blocks + Z.of_nat (length (transactionHashes (bl e))) + 1).
Proof. unfold generated_count. by rewrite foldl_app. Qed.

Lemma generated_added s bc e : chain_ok s bc -> front_height (bl e) = Some (Z.of_nat (length (m_blocks (bc_chain bc)))) ->
  let n := generated_count (m_blocks (bc_chain bc) ++ [e]) in
  let g := m_generatedTransactionsIndex bc in
  let g' := mkgenerated (<[Z.of_nat (length (m_blocks (bc_chain bc))) := n]> (gen_index g)) n in
  gen_index g !! Z.of_nat (length (m_blocks (bc_chain bc))) = None /\ generated_add g (bl e) = Some (g', true).
Proof.
  intros Hc Hf n g g'. destruct (ok_generated s bc Hc) as (Hs & _ & Hk & Hl).
  assert (Hn : gen_index g !! Z.of_nat (length (m_blocks (bc_chain bc))) = None).
  { destruct (gen_index g !! _) eqn:E; [|done]. pose proof (Hk _ (mk_is_Some _ _ E)). lia. }
  split; [done|]. unfold generated_add. rewrite Hf. cbn [mbind option_bind]. fold g in Hs, Hl. rewrite Hs, Z.eqb_refl. cbn [negb]. rewrite Hn.
  unfold g', n. rewrite generated_count_app, Hl. done.
Qed.

(** What a successful [push_entry] does to a good chain. *)
Lemma push_entry_value s bc ch e h bc' : chain_ok s bc -> m_blocks ch = m_blocks (bc_chain bc) ++ [e] -> getHash (bl e) = Some h -> h ∉ m_blockIndex bc ->
  front_height (bl e) = Some (Z.of_nat (length (m_blocks (bc_chain bc)))) -> push_entry bc ch (bl e) = Some bc' ->
  Z.of_nat (length (m_blocks ch)) < 2 ^ 32 /\ bc' = mkblockchain ch (m_blockIndex bc ++ [h]) (timestamp_add (timestamp (header (bl e))) h (m_timestampIndex bc))
    (mkgenerated (<[Z.of_nat (length (m_blocks (bc_chain bc))) := generated_count (m_blocks ch)]> (gen_index (m_generatedTransactionsIndex bc))) (generated_count (m_blocks ch)))
    (m_current_block_cumul_sz_limit bc).
Proof.
  intros Hc Eb Hh Hn Hf E. unfold push_entry in E. rewrite Hh, Eb, list.last_snoc in E. cbn [mbind option_bind] in E.
  destruct (put_block_entry e); [|done]. cbn [mbind option_bind] in E. rewrite <- Eb in E. unfold ids_push, hasBlock in E. rewrite bool_decide_false in E by done.
  destruct (generated_added s bc e Hc Hf) as [_ Eg]. rewrite Eg in E. cbn [mbind option_bind fst] in E. destruct (Z.eqb_spec (ids_size (m_blockIndex bc ++ [h])) (Z.of_nat (length (m_blocks ch)))) as [El|]; [|done].
  cbn [negb] in E. injection E as <-. rewrite Eb. split; [|done]. rewrite <- Eb, <- El. unfold ids_size. apply Z.mod_pos_bound. lia.
Qed.

Lemma chain_ok_limit s bc n : chain_ok s bc -> chain_ok s (mkblockchain (bc_chain bc) (m_blockIndex bc) (m_timestampIndex bc) (m_generatedTransactionsIndex bc) n).
Proof. intros [? ? ? ? ? ? ? ? ?]. by constructor. Qed.

Lemma timestamp_add_perm t h index : timestamp_add t h index ≡ₚ (t, h) :: index.
Proof.
  induction index as [|[t' h'] rest IH]; cbn [timestamp_add]; [done|]. destruct (t <? t'); [done|]. rewrite IH. apply Permutation_swap.
Qed.

Lemma worked_app s blocks rest i e h : (i < length blocks)%nat -> worked s blocks i e h <-> worked s (blocks ++ rest) i e h.
Proof. intros Hi. unfold worked. by rewrite lookup_app_l by lia. Qed.

Lemma generated_push (g : gmap Z Z) blocks e : size g = length blocks -> (forall i, (i < length blocks)%nat -> g !! Z.of_nat i = Some (generated_count (take (S i) blocks))) ->
  (forall k, is_Some (g !! k) -> 0 <= k < Z.of_nat (length blocks)) ->
  let g' := <[Z.of_nat (length blocks) := generated_count (blocks ++ [e])]> g in
  size g' = length (blocks ++ [e]) /\ (forall i, (i < length (blocks ++ [e]))%nat -> g' !! Z.of_nat i = Some (generated_count (take (S i) (blocks ++ [e])))) /\
  (forall k, is_Some (g' !! k) -> 0 <= k < Z.of_nat (length (blocks ++ [e]))).
Proof.
  intros Hs Hv Hk g'. assert (Hn : g !! Z.of_nat (length blocks) = None).
  { destruct (g !! _) eqn:E; [|done]. pose proof (Hk _ (mk_is_Some _ _ E)). lia. }
  rewrite length_app. cbn [length]. split_and!.
  - unfold g'. rewrite map_size_insert_None by done. lia.
  - intros i Hi. unfold g'. destruct (decide (i = length blocks)) as [->|].
    + rewrite lookup_insert_eq. rewrite take_ge; [done|]. rewrite length_app. cbn. lia.
    + rewrite lookup_insert_ne by lia. rewrite Hv by lia. by rewrite take_app_le by lia.
  - intros k. unfold g'. rewrite lookup_insert. case_decide; [lia|]. intros Hx. specialize (Hk k Hx). lia.
Qed.

(** A block that fits at the end of the chain. *)
Lemma chain_ok_push s bc ch e h : chain_ok s bc -> indexes_ok (chain_index ch) -> m_blocks ch = m_blocks (bc_chain bc) ++ [e] -> Z.of_nat (length (m_blocks ch)) <= getPoolSize ->
  getHash (bl e) = Some h -> h ∉ m_blockIndex bc -> front_height (bl e) = Some (Z.of_nat (length (m_blocks (bc_chain bc)))) ->
  previousBlockHash (header (bl e)) = match length (m_blocks (bc_chain bc)) with O => NULL_HASH | S j => m_blockIndex bc !!! j end ->
  worked s (m_blocks ch) (length (m_blocks (bc_chain bc))) e h ->
  chain_ok s (mkblockchain ch (m_blockIndex bc ++ [h]) (timestamp_add (timestamp (header (bl e))) h (m_timestampIndex bc))
    (mkgenerated (<[Z.of_nat (length (m_blocks (bc_chain bc))) := generated_count (m_blocks ch)]> (gen_index (m_generatedTransactionsIndex bc))) (generated_count (m_blocks ch)))
    (m_current_block_cumul_sz_limit bc)).
Proof.
  intros Hc Hi Eb Hl Hh Hn Hf Hp Hw. pose proof (ids_length s bc Hc) as Li.
  assert (Hcase : forall i e', m_blocks ch !! i = Some e' -> m_blocks (bc_chain bc) !! i = Some e' \/ i = length (m_blocks (bc_chain bc)) /\ e' = e).
  { intros i e'. rewrite Eb. intros [?|[? [? ?]%list_lookup_singleton_Some]]%lookup_app_Some; [by left|right; split; [lia|done]]. }
  constructor; cbn [bc_chain m_blockIndex m_timestampIndex m_generatedTransactionsIndex gen_index lastGeneratedTxNumber].
  - done.
  - done.
  - rewrite Eb. apply Forall2_app; [apply Hc|]. by constructor.
  - apply list.NoDup_app. split_and!; [apply Hc|by intros x Hx ->%list_elem_of_singleton|apply list.NoDup_singleton].
  - intros i e' He. destruct (Hcase i e' He) as [Ho|[-> ->]].
    + rewrite (ok_linked s bc Hc i e' Ho). destruct i as [|j]; [done|]. rewrite lookup_total_app_l; [done|]. apply lookup_lt_Some in Ho. lia.
    + rewrite Hp. destruct (length (m_blocks (bc_chain bc))) as [|j] eqn:El; [reflexivity|]. rewrite lookup_total_app_l by lia. reflexivity.
  - intros i e' He. destruct (Hcase i e' He) as [Ho|[-> ->]]; [by apply Hc|done].
  - rewrite timestamp_add_perm, (ok_times s bc Hc), Eb, fmap_app, zip_with_app by (by rewrite length_fmap). cbn. apply Permutation_cons_append.
  - destruct (ok_generated s bc Hc) as (Gs & Gv & Gk & _). rewrite Eb. destruct (generated_push _ _ e Gs Gv Gk) as (? & ? & ?). done.
  - intros i e' h' He Hh'. destruct (Hcase i e' He) as [Ho|[-> ->]].
    + rewrite Eb. apply worked_app; [by apply lookup_lt_Some in Ho|]. apply (ok_work s bc Hc); [done|].
      rewrite lookup_app_l in Hh'; [done|]. apply lookup_lt_Some in Ho. lia.
    + rewrite lookup_app_r, Li, Nat.sub_diag in Hh' by lia. injection Hh' as <-. done.
Qed.

Lemma tail_value s bc tail : chain_ok s bc -> getTailId bc = Some tail ->
  tail = match length (m_blocks (bc_chain bc)) with O => NULL_HASH | S j => m_blockIndex bc !!! j end.
Proof.
  intros Hc E. pose proof (ids_length s bc Hc) as Li. unfold getTailId in E. destruct (m_blocks (bc_chain bc)) as [|e l] eqn:Eb; [by injection E as <-|].
  unfold ids_tail in E. rewrite last_lookup, Li in E. cbn [length pred] in E |- *. symmetry. by apply list_lookup_total_correct.
Qed.

Lemma prevalidated_height cu b n : prevalidate_miner_transaction cu b n = true -> front_height b = Some n.
Proof.
  unfold prevalidate_miner_transaction, front_height. destruct (inputs (prefix (baseTransaction b))) as [|[i| |] [|? ?]]; try done.
  intros [[E%Z.eqb_eq _]%andb_prop _]%andb_prop. by rewrite E.
Qed.

Section invariant.
Context `{QSort} (s : setting) (now : Z).

(** What is known when a block is added. *)
Lemma push_block_added bc b txs bc' : chain_ok s bc -> block_ok (bc_chain bc) b txs -> push_block s now bc b txs = Some (Added bc') ->
  exists h e ch, bl e = b /\ getHash b = Some h /\ (h ∉ m_blockIndex bc) /\ m_blocks ch = m_blocks (bc_chain bc) ++ [e] /\
    pushed_on (chain_index (bc_chain bc)) (reverse (block_transactions b txs)) (chain_index ch) /\
    m_is_in_checkpoint_zone ch = m_is_in_checkpoint_zone (bc_chain bc) /\ (entry_tx <$> transactions e) = (block_transactions b txs).*2 /\
    front_height b = Some (Z.of_nat (length (m_blocks (bc_chain bc)))) /\
    previousBlockHash (header b) = match length (m_blocks (bc_chain bc)) with O => NULL_HASH | S j => m_blockIndex bc !!! j end /\
    worked s (m_blocks ch) (length (m_blocks (bc_chain bc))) e h /\
    exists bc1, push_entry bc ch b = Some bc1 /\
      bc' = mkblockchain (bc_chain bc1) (m_blockIndex bc1) (m_timestampIndex bc1) (m_generatedTransactionsIndex bc1) (size_limit s ch).
Proof.
  intros Hc Hb E. unfold push_block in E. destruct (getHash b) as [h|] eqn:Eh; [|done]. cbn [mbind option_bind] in E.
  unfold hasBlock in E. case_bool_decide as Hn; [done|]. destruct (getTailId bc) as [tl|] eqn:Et; [|done]. cbn [mbind option_bind] in E.
  case_bool_decide as Ep; [|done]. cbn [negb] in E. destruct (check_block_timestamp_main _ _ _ _); [|done]. cbn [negb] in E.
  destruct (getDifficultyForNextBlock s (bc_chain bc)) as [d|]; [|done]. cbn [mbind option_bind] in E. destruct (Z.eqb_spec d 0) as [|Hd]; [done|].
  destruct (work_ok s bc h d b) as [[]|] eqn:Ew; [|done..]. cbn [mbind option_bind negb] in E. unfold push_checked in E.
  pose proof (push_block_facts (set_currency s) (bc_chain bc) now d b txs Hb) as F.
  destruct (pushBlock (set_currency s) (bc_chain bc) now d b txs) as [ch|ch|]; [|done..]. destruct F as (Hv & Hp & Hz & e & Eb & Ee & Et2 & Ec).
  destruct (push_entry bc ch b) as [bc1|] eqn:E1; [|done]. cbn [mbind option_bind] in E. assert (I : forall x y, Some (Added x) = Some (Added y) -> x = y) by congruence. apply I in E.
  pose proof (ok_length s bc Hc) as Ln. unfold getPoolSize in Ln. assert (En : block_number (bc_chain bc) = Z.of_nat (length (m_blocks (bc_chain bc)))) by (unfold block_number; apply wrap_small; unfold is_word; lia).
  exists h, e, ch. split_and!; [done|done|done|done|done|done|done| | | |].
  - rewrite <- En. by eapply prevalidated_height.
  - rewrite Ep. by apply (tail_value s bc).
  - exists d. split; [done|]. split.
    + rewrite Ec, Eb, last_lookup. destruct (m_blocks (bc_chain bc)) as [|e0 l] eqn:El; [done|]. cbn [length pred Nat.eqb]. rewrite Nat.sub_succ, Nat.sub_0_r.
      rewrite lookup_app_l by (cbn; lia). by destruct ((e0 :: l) !! length l).
    + unfold work_ok, getHeight in Ew. rewrite wrap_small in Ew by (unfold is_word; lia). destruct (isCheckpoint _ _).
      { intros point Hpt. unfold check in Ew. rewrite Hpt in Ew. injection Ew as Ew. by apply bool_decide_eq_true in Ew. }
     
      unfold checkProofOfWork in Ew. rewrite Ee. destruct (getLongHash (slow_hash s) b) as [pow|]; [|done]. cbn -[check_hash] in Ew. exists pow. split; [done|]. by injection Ew.
  - exists bc1. split; [done|]. by symmetry.
Qed.

Lemma added_ok bc b txs bc' : chain_ok s bc -> block_ok (bc_chain bc) b txs -> push_block s now bc b txs = Some (Added bc') -> chain_ok s bc'.
Proof.
  intros Hc Hb E. destruct (push_block_added bc b txs bc' Hc Hb E) as (h & e & ch & <- & Eh & Hn & Eb & Hp & _ & _ & Hf & Hprev & Hw & bc1 & E1 & ->).
  destruct (push_entry_value s bc ch e h bc1 Hc Eb Eh Hn Hf E1) as [_ ->]. apply chain_ok_limit.
  assert (Hl : Z.of_nat (length (m_blocks ch)) <= getPoolSize) by (destruct Hb as (_ & Hl & _); rewrite Eb, length_app; cbn [length]; lia).
  destruct (pushed_on_facts _ _ _ (ok_indexes s bc Hc) Hp) as [Hi _]. by apply chain_ok_push.
Qed.

Lemma refused_ok bc b txs bc' : chain_ok s bc -> block_ok (bc_chain bc) b txs -> push_block s now bc b txs = Some (NotAdded bc') -> chain_ok s bc'.
Proof.
  intros Hc Hb E. unfold push_block in E. assert (I : forall x y, Some (NotAdded x) = Some (NotAdded y) -> x = y) by congruence.
  destruct (getHash b) as [h|]; [|done]. cbn [mbind option_bind] in E. destruct (hasBlock _ _); [by rewrite <- (I _ _ E)|].
  destruct (getTailId bc) as [tl|]; [|done]. cbn [mbind option_bind] in E. destruct (negb _); [by rewrite <- (I _ _ E)|]. destruct (negb _); [by rewrite <- (I _ _ E)|].
  destruct (getDifficultyForNextBlock s (bc_chain bc)) as [d|]; [|done]. cbn [mbind option_bind] in E. destruct (d =? 0); [by rewrite <- (I _ _ E)|].
  destruct (work_ok s bc h d b) as [ok|]; [|done]. cbn [mbind option_bind] in E. destruct (negb ok); [by rewrite <- (I _ _ E)|]. unfold push_checked in E.
  pose proof (push_block_facts (set_currency s) (bc_chain bc) now d b txs Hb) as F.
  destruct (pushBlock (set_currency s) (bc_chain bc) now d b txs) as [ch|ch|]; [by destruct (push_entry bc ch b)| |done]. apply I in E as <-.
  destruct F as [->|(_ & ci & -> & Hp)]; [by destruct bc|]. destruct (pushed_on_facts _ _ _ (ok_indexes s bc Hc) Hp) as [Hi _].
  destruct Hc as [? ? ? ? ? ? ? ? ?]. by constructor.
Qed.
End invariant.

(** ** The invariant under a pop *)

Lemma timestamp_remove_perm t h index : (t, h) ∈ index -> exists rest, timestamp_remove t h index = (rest, true) /\ index ≡ₚ (t, h) :: rest.
Proof.
  induction index as [|[t' h'] index IH]; intros Hin; [by apply elem_of_nil in Hin|]. cbn [timestamp_remove].
  destruct ((t' =? t) && bool_decide (h' = h)) eqn:E.
  - apply andb_prop in E as [->%Z.eqb_eq ->%bool_decide_eq_true]. by exists index.
  - apply list.elem_of_cons in Hin as [[= <- <-]|Hin]; [by rewrite Z.eqb_refl, bool_decide_true in E|]. destruct (IH Hin) as (rest & -> & P).
    exists ((t', h') :: rest). split; [done|]. rewrite P. apply Permutation_swap.
Qed.

(** The generated index of [blocks ++ [e]] without the last. *)
Lemma generated_pop g blocks e g' r : size (gen_index g) = S (length blocks) ->
  (forall i, (i < S (length blocks))%nat -> gen_index g !! Z.of_nat i = Some (generated_count (take (S i) (blocks ++ [e])))) ->
  (forall k, is_Some (gen_index g !! k) -> 0 <= k < Z.of_nat (S (length blocks))) -> front_height (bl e) = Some (Z.of_nat (length blocks)) -> Z.of_nat (length blocks) < 2 ^ 32 ->
  generated_remove g (bl e) = Some (g', r) ->
  g' = mkgenerated (delete (Z.of_nat (length blocks)) (gen_index g)) (generated_count blocks).
Proof.
  intros Hs Hv Hk Hf Hl E. unfold generated_remove in E. rewrite Hf in E. cbn [mbind option_bind] in E. rewrite Hs in E.
  replace (Z.of_nat (S (length blocks)) - 1) with (Z.of_nat (length blocks)) in E by lia. rewrite wrap_small, Z.eqb_refl in E by (unfold is_word; lia). cbn [negb] in E.
  rewrite Hv in E by lia. cbn [mbind option_bind] in E. destruct (Z.eqb_spec (Z.of_nat (length blocks)) 0) as [E0|E0]; cbn [negb] in E.
  - destruct blocks; [|cbn in E0; lia]. by injection E as <- _.
  - rewrite lookup_delete_ne in E by lia. replace (Z.of_nat (length blocks) - 1) with (Z.of_nat (length blocks - 1)) in E by lia. rewrite Hv in E by lia. cbn [mbind option_bind] in E.
    injection E as <- _. replace (S (length blocks - 1)) with (length blocks) by lia. by rewrite take_app_length.
Qed.

Lemma popped_ok s bc e h bc' : chain_ok s bc -> list.last (m_blocks (bc_chain bc)) = Some e -> getHash (bl e) = Some h -> popBlock bc h = Some bc' -> chain_ok s bc'.
Proof.
  intros Hc He Hh E. unfold popBlock in E. rewrite He in E. apply list.last_Some in He as [blocks Eb]. destruct (_ || _); [done|].
  destruct (popTransactions _ _) as [ci|] eqn:Ei; [|done]. cbn [mbind option_bind] in E. apply (pop_transactions_ok _ _ _ (ok_indexes s bc Hc)) in Ei.
  destruct (generated_remove _ _) as [[g r]|] eqn:Eg; [|done]. cbn [mbind option_bind] in E. rewrite Eb, pop_back_app in E.
  pose proof (ok_length s bc Hc) as Ln. unfold getPoolSize in Ln. pose proof (ok_ids s bc Hc) as Hi. rewrite Eb in Ln, Hi. apply list.Forall2_app_inv_l in Hi as (ids & [|h' l] & Hi & Hx & Eids); [by inversion Hx|].
  inversion Hx as [|? ? ? ? Eh' Hnil]; subst. inversion Hnil; subst. rewrite Hh in Eh'. injection Eh' as <-. pose proof (list.Forall2_length _ _ _ Hi) as Li.
  unfold ids_pop in E. rewrite Eids, pop_back_app in E. destruct (ids ++ [h]) as [|? ?] eqn:Enil; [by destruct ids|]. rewrite <- Enil in *. clear Enil. cbn [mbind option_bind] in E.
  destruct (negb _); [done|]. injection E as <-. rewrite length_app in Ln. cbn [length] in Ln.
  assert (Hold : forall i e', blocks !! i = Some e' -> m_blocks (bc_chain bc) !! i = Some e' /\ (i < length blocks)%nat).
  { intros i e' Hi'. rewrite Eb. split; [by apply lookup_app_l_Some|by apply lookup_lt_Some in Hi']. }
  constructor; cbn [bc_chain m_blocks chain_index m_blockIndex m_timestampIndex m_generatedTransactionsIndex].
  - done.
  - unfold getPoolSize. lia.
  - done.
  - pose proof (ok_distinct s bc Hc) as N. rewrite Eids in N. by apply list.NoDup_app in N as [? _].
  - intros i e' [Ho Hlt]%Hold. rewrite (ok_linked s bc Hc i e' Ho). destruct i as [|j]; [done|]. rewrite Eids, lookup_total_app_l by lia. done.
  - intros i e' [Ho _]%Hold. by apply (ok_heights s bc Hc).
  - pose proof (ok_times s bc Hc) as T. rewrite Eb, Eids, fmap_app, zip_with_app in T by (by rewrite length_fmap). cbn in T. rewrite <- Permutation_cons_append in T.
    destruct (timestamp_remove_perm (timestamp (header (bl e))) h (m_timestampIndex bc)) as (rest & -> & P); [rewrite T; by left|]. rewrite P in T. by apply Permutation_cons_inv in T.
  - destruct (ok_generated s bc Hc) as (Gs & Gv & Gk & _). assert (En : length (m_blocks (bc_chain bc)) = S (length blocks)) by (rewrite Eb, length_app; cbn; lia).
    rewrite En in Gs, Gv, Gk. rewrite Eb in Gv. assert (Hf : front_height (bl e) = Some (Z.of_nat (length blocks))).
    { apply (ok_heights s bc Hc). rewrite Eb. by rewrite lookup_app_r, Nat.sub_diag. }
    rewrite (generated_pop _ blocks e g r Gs Gv Gk Hf ltac:(lia) Eg). cbn [gen_index lastGeneratedTxNumber]. split_and!; [| | |done].
    + rewrite map_size_delete, (Gv (length blocks) ltac:(lia)), Gs. done.
    + intros i Hlt. rewrite lookup_delete_ne by lia. rewrite Gv by lia. by rewrite take_app_le by lia.
    + intros k. rewrite lookup_delete. case_decide; [by intros [? ?]|]. intros Hk. apply Gk in Hk. lia.
  - intros i e' h' [Ho Hlt]%Hold Hh'. apply (worked_app s blocks [e]); [done|]. rewrite <- Eb. apply (ok_work s bc Hc); [done|]. rewrite Eids. by apply lookup_app_l_Some.
Qed.

Lemma generated_remove_added s bc e n : chain_ok s bc -> front_height (bl e) = Some (Z.of_nat (length (m_blocks (bc_chain bc)))) ->
  let g := m_generatedTransactionsIndex bc in
  generated_remove (mkgenerated (<[Z.of_nat (length (m_blocks (bc_chain bc))) := n]> (gen_index g)) n) (bl e) = Some (g, true).
Proof.
  intros Hc Hf g. destruct (generated_added s bc e Hc Hf) as [Hn _]. fold g in Hn. destruct (ok_generated s bc Hc) as (Gs & Gv & _ & Gl). fold g in Gs, Gv, Gl.
  pose proof (ok_length s bc Hc) as Ln. unfold getPoolSize in Ln. set (blocks := m_blocks (bc_chain bc)) in *. unfold generated_remove. rewrite Hf. cbn [mbind option_bind gen_index].
  rewrite map_size_insert_None, Gs by done. replace (Z.of_nat (S (length blocks)) - 1) with (Z.of_nat (length blocks)) by lia.
  rewrite wrap_small, Z.eqb_refl by (unfold is_word; lia). cbn [negb]. rewrite lookup_insert_eq. cbn [mbind option_bind]. rewrite delete_insert_id by done.
  destruct (Z.eqb_spec (Z.of_nat (length blocks)) 0) as [E0|E0]; cbn [negb].
  - destruct blocks; [|cbn in E0; lia]. destruct g as [gi gl]. cbn in Gl |- *. by rewrite Gl.
  - replace (Z.of_nat (length blocks) - 1) with (Z.of_nat (length blocks - 1)) by lia. rewrite Gv by lia. cbn [mbind option_bind].
    replace (S (length blocks - 1)) with (length blocks) by lia. rewrite take_ge by lia. destruct g as [gi gl]. cbn in Gl |- *. by rewrite Gl.
Qed.

Lemma zip_snd {A B} (k : list A) (l : list B) : zip k (zip k l).*2 = zip k l.
Proof. revert l. induction k as [|x k IH]; intros [|y l]; [done..|]. cbn. f_equal. apply IH. Qed.

(** The transactions that [popBlock] pops are those that were pushed. *)
Lemma entry_transactions_pushed e txs : (entry_tx <$> transactions e) = (block_transactions (bl e) txs).*2 ->
  entry_transactions e = block_transactions (bl e) txs /\
  (length (transactions e) =? 0)%nat || (length (transactionHashes (bl e)) <? length (transactions e) - 1)%nat = false.
Proof.
  intros E. unfold block_transactions in E |- *. cbn [fmap list_fmap snd] in E. destruct (transactions e) as [|e0 l] eqn:El; [done|]. cbn [fmap list_fmap] in E.
  assert (I : forall (x y : transaction_t) a b, x :: a = y :: b -> a = b) by (intros ???? [=]; done). apply I in E. clear I.
  change (list_fmap _ _ entry_tx l) with (entry_tx <$> l) in E. change (list_fmap _ _ snd ?z) with (z.*2) in E. split.
  - unfold entry_transactions. rewrite El. cbn [tail]. rewrite E, zip_snd. done.
  - assert (Hl : length l = length (zip (transactionHashes (bl e)) txs)) by (apply (f_equal length) in E; by rewrite !length_fmap in E).
    rewrite length_zip_with in Hl. cbn [length Nat.eqb orb]. apply Nat.ltb_ge. lia.
Qed.

Lemma empty_ok s : chain_ok s empty_blockchain.
Proof.
  constructor; [by split; intros a; cbn; rewrite lookup_empty|done|constructor|constructor|by intros|by intros|done| |by intros].
    split_and!; [done|by intros i Hi; cbn in Hi; lia|by intros k [? Hk]; cbn in Hk; rewrite lookup_empty in Hk|done].
Qed.

(** C3: the invariant of the main chain.  In every state reached from the
    empty chain by pushing blocks, refused or added, and popping the last
    block, in any order and at any times, where a block pushed has at most 2^16
    well-formed transactions with new hashes and is pushed on fewer than
    [getPoolSize] blocks, those that the block storage holds in memory: the
    block index holds the distinct hashes of the blocks in order, every block
    names the hash of the one before it (the first the null hash) and states
    its height in the miner transaction; its cumulative difficulty adds a
    non-zero difficulty to the one before; above the last checkpoint its slow
    hash satisfies this difficulty, while up to the last checkpoint no work is
    required and the hash is that of the checkpoint at its height if there is
    one; and the timestamp and transaction-count indexes hold exactly the
    blocks of the chain. *)
Theorem chain_invariant `{QSort} s bc : rtc (chain_step s) empty_blockchain bc -> chain_ok s bc.
Proof.
  pose proof (empty_ok s) as H0.
  revert H0. generalize empty_blockchain. intros bc0 H0 R. induction R as [|bc1 bc2 bc3 S R IH]; [done|]. apply IH.
  destruct S as [now b txs bc' Hb E|now b txs bc' Hb E|e h bc' He Hh E]; [by eapply added_ok|by eapply refused_ok|by eapply popped_ok].
Qed.


(** ** A first block *)

Definition sample_setting : setting :=
  mksetting builder (Build_difficulty_config 120 60 15 720) ∅ (fun _ _ => Some (replicate 32 0)).

Lemma sample_hash : exists h, getHash sample_block = Some h.
Proof. eexists. unfold getHash, getBlob, get_tx_tree_hash. reflexivity. Qed.

Lemma sample_accepted : exists ch, pushBlock builder empty_chain 0 1 sample_block [] = Accepted ch.
Proof.
  pose proof (push_block_facts builder empty_chain 0 1 sample_block [] sample_ok) as F. unfold pushBlock in F |- *.
  change (prevalidate_miner_transaction builder sample_block (block_number empty_chain)) with true in F |- *. cbn [negb] in F |- *.
  destruct (miner_pushed builder empty_chain sample_block [] sample_ok eq_refl) as (p & E & _ & _ & Es & Ef & _). rewrite E in F |- *. cbn [transactionHashes sample_block zip zip_with push_loop] in F |- *.
  rewrite Es, Ef in F |- *. assert (Ec : checkCumulativeBlockSize builder (u64 (binary_size write_transaction (baseTransaction sample_block))) (Z.of_nat (length (m_blocks empty_chain))) = Value tt) by (vm_compute; reflexivity).
  rewrite Ec in F |- *. assert (Ev : validate_miner_transaction builder (get_last_n_blocks_sizes empty_chain (rewardBlocksWindow builder)) sample_block
    (u64 (binary_size write_transaction (baseTransaction sample_block))) (coins_before empty_chain) 0 = Value (1, 1)) by (vm_compute; reflexivity).
  rewrite Ev. by eexists.
Qed.

(** Only transactions may fail to be written. *)
Lemma entry_written e : is_Some (put_transaction (baseTransaction (bl e))) -> Forall (fun t => is_Some (put_transaction (entry_tx t))) (transactions e) -> is_Some (put_block_entry e).
Proof.
  assert (V : forall {A} (w : A -> option bytes) l, Forall (fun x => is_Some (w x)) l -> is_Some (write_items w l)).
  { intros A w l F. induction F as [|x l [a Ea] F [r Er]]; [by eexists|]. cbn. rewrite Ea. cbn. rewrite Er. cbn. by eexists. }
  intros [a Ea] F. destruct (V _ write_pod (transactionHashes (bl e))) as [hs Eh]; [apply list.Forall_forall; by eexists|].
  destruct (V _ put_entry (transactions e)) as [ts Et].
  { eapply list.Forall_impl; [exact F|]. intros t [x Ex]. destruct (V _ write_int (m_global_output_indexes t)) as [g Eg]; [apply list.Forall_forall; by eexists|].
    unfold put_entry, write_vector. cbn [cat]. rewrite Ex, Eg. cbn. by eexists. }
  unfold put_block_entry, put_block, put_header, write_vector. cbn [cat]. rewrite Ea, Eh, Et. cbn. by eexists.
Qed.

Lemma sample_added : exists bc, push_block sample_setting 0 empty_blockchain sample_block [] = Some (Added bc).
Proof.
  destruct sample_hash as [h Eh], sample_accepted as [ch Ea]. unfold push_block. rewrite Eh. cbn [mbind option_bind].
  change (hasBlock (m_blockIndex empty_blockchain) h) with false. cbv iota. change (getTailId empty_blockchain) with (Some NULL_HASH). cbn [mbind option_bind].
  rewrite bool_decide_true by reflexivity. cbn [negb]. change (check_block_timestamp_main (set_currency sample_setting) (bc_chain empty_blockchain) 0 sample_block) with true. cbn [negb].
  change (getDifficultyForNextBlock sample_setting (bc_chain empty_blockchain)) with (Some 1). cbn [mbind option_bind Z.eqb].
  unfold work_ok, checkProofOfWork, getLongHash. change (isCheckpoint (m_checkpoints sample_setting) (getHeight (bc_chain empty_blockchain))) with false. cbv iota.
  unfold getHash in Eh. destruct (getBlob sample_block) as [blob|] eqn:Eb; [|done]. cbn [mbind option_bind slow_hash sample_setting fmap option_fmap option_map fst].
  change (check_hash (replicate 32 0) 1) with true. cbn [negb]. unfold push_checked. change (bc_chain empty_blockchain) with empty_chain. change (set_currency sample_setting) with builder.
  rewrite Ea. pose proof (push_block_facts builder empty_chain 0 1 sample_block [] sample_ok) as F. rewrite Ea in F. destruct F as (_ & _ & _ & e & El & Ee & Et & _).
  destruct (entry_written e) as [data Ed]; [rewrite Ee; by eexists|rewrite <- list.Forall_fmap with (f := entry_tx) (P := fun t => is_Some (put_transaction t)), Et; by repeat econstructor|].
  unfold push_entry, getHash. rewrite Eb, El, list.last_snoc. cbn [mbind option_bind]. rewrite Ed. cbn [mbind option_bind]. change (generated_add (m_generatedTransactionsIndex empty_blockchain) sample_block) with
    (Some (mkgenerated (<[0 := 1]> ∅) 1, true)). cbn [mbind option_bind fst]. by eexists.
Qed.

Lemma sample_blocks bc : push_block sample_setting 0 empty_blockchain sample_block [] = Some (Added bc) -> length (m_blocks (bc_chain bc)) = 1%nat.
Proof.
  intros E. destruct (push_block_added sample_setting 0 _ _ _ _ (empty_ok _) sample_ok E) as (h & e & ch & <- & Eh & Hn & Eb & _ & _ & _ & Hf & _ & _ & bc1 & E1 & ->).
  destruct (push_entry_value sample_setting _ ch e h bc1 (empty_ok _) Eb Eh Hn Hf E1) as [_ ->]. cbn [bc_chain]. by rewrite Eb.
Qed.

Lemma chain_invariant_witness : exists bc, rtc (chain_step sample_setting) empty_blockchain bc /\ length (m_blocks (bc_chain bc)) = 1%nat /\ chain_ok sample_setting bc.
Proof.
  destruct sample_added as [bc E]. assert (R : rtc (chain_step sample_setting) empty_blockchain bc) by (eapply rtc_once, step_added; [apply sample_ok|exact E]).
  exists bc. split; [exact R|]. split; [by apply sample_blocks|]. exact (chain_invariant sample_setting bc R).
Defined.

