(* ===== verification/MinerTx.v ===== *)
(** * The miner's transaction: cryptonote/core/currency.cpp

    [Currency::constructMinerTx] pays the block reward to the miner's address
    in decimal parts, at most [maxOuts] of them. *)

From stdpp Require Import gmap.
From S2P Require Import Prelude Keccak Random CInt BitField Fe FeProofs FeField Sc ScProofs Ge GeProofs EdAssoc EdGroup GeMult GeMultProofs GeCodec GeSpec GeData GeDataProofs GeHash GroupOrder Crypto CryptoProofs RingProofs Stream Types Binary TxExtra Amounts Base58 Currency ChainIndex Validate TxBuild.

#[local] Opaque cn_fast_hash generate_key_derivation derive_public_key generate_keys.

(** [outAmounts[size - 2] += outAmounts.back(); outAmounts.resize(size - 1)] *)
Definition merge_last (outAmounts : list Z) : list Z :=
  match reverse outAmounts with x :: y :: rest => reverse (u64 (y + x) :: rest) | _ => outAmounts end.

(** The loop ends with [maxOuts] elements: every turn removes one. *)
Fixpoint merge_outs (fuel maxOuts : nat) (outAmounts : list Z) : list Z :=
  match fuel with
  | O => outAmounts
  | S fuel => if (maxOuts <? length outAmounts)%nat then merge_outs fuel maxOuts (merge_last outAmounts) else outAmounts
  end.

(** The loop over the amounts, from output [no] on. *)
Fixpoint miner_outputs (minerAddress : account_public_address_t) (tx_secret : bytes) (no : nat) (outAmounts : list Z) (summaryAmounts : Z)
    : result (option (list transaction_output_t * Z)) :=
  match outAmounts with
  | [] => Ok (Some ([], summaryAmounts))
  | a :: outAmounts =>
      derivation ← generate_key_derivation (viewPublicKey minerAddress) tx_secret;
      match derivation with
      | None => Ok None
      | Some derivation =>
          key ← derive_public_key derivation (Z.of_nat no) (spendPublicKey minerAddress);
          match key with
          | None => Ok None
          | Some key =>
              r ← miner_outputs minerAddress tx_secret (S no) outAmounts (u64 (summaryAmounts + a));
              Ok (match r with Some (l, sum) => Some (mkoutput a (key_output (mkkey_output key)) :: l, sum) | None => None end)
          end
      end
  end.

(** The extra: the key and the nonce, if any; [None] is a nonce too long. *)
Definition miner_extra (pub extraNonce : bytes) : option bytes :=
  let extra := addTransactionPublicKeyToExtra [] pub in
  match extraNonce with [] => Some extra | _ => addExtraNonceToTransactionExtra extra extraNonce end.

(** A failed assertion ends the process. *)
Definition of_decoded {A} (d : Decoded A) : result (option A) :=
  match d with Value x => Ok (Some x) | Rejected => Ok None | Asserted => Stop AssertFailed end.

(** [old] is the transaction passed in, whose signatures stay; [major] is the configured version. *)
Definition constructMinerTx (c : currency) (major height medianSize alreadyGeneratedCoins currentBlockSize fee : Z) (minerAddress : account_public_address_t)
    (old : transaction_t) (extraNonce : bytes) (maxOuts : nat) : rand (option transaction_t) :=
  txkey ← key_generate;
  match miner_extra (publicKey txkey) extraNonce with
  | None => mret None
  | Some extra =>
      reward ← lift (of_decoded (getBlockReward c medianSize currentBlockSize alreadyGeneratedCoins fee));
      match reward with
      | None => mret None
      | Some (blockReward, _) =>
          let outAmounts := part_amount <$> decompose_amount_into_digits blockReward (defaultDustThreshold c) in
          if (maxOuts =? 0)%nat then mret None
          else
            let outAmounts := merge_outs (length outAmounts) maxOuts outAmounts in
            outs ← lift (miner_outputs minerAddress (secretKey txkey) 0 outAmounts 0);
            match outs with
            | None => mret None
            | Some (outs, summaryAmounts) =>
                if negb (summaryAmounts =? blockReward) then mret None
                else mret (Some (mktransaction (mkprefix major (u64 (height + minedMoneyUnlockWindow c)) [base_input (mkbase_input height)] outs extra) (signatures old)))
            end
      end
  end.

(** ** Merging keeps the sum *)

Lemma merge_last_sum l : (2 <= length l)%nat -> Forall (Z.le 0) l -> total l < 2 ^ 64 ->
  length (merge_last l) = (length l - 1)%nat /\ Forall (Z.le 0) (merge_last l) /\ total (merge_last l) = total l.
Proof.
  intros Hl Hp Ht. unfold merge_last. destruct (reverse l) as [|x [|y rest]] eqn:E; [apply (f_equal length) in E; rewrite length_reverse in E; cbn in E; lia..|].
  assert (El : l = reverse rest ++ [y; x]). { rewrite <- (reverse_involutive l), E, !reverse_cons, <- app_assoc. done. }
  clear E. subst l. rewrite Forall_app in Hp. destruct Hp as [Hr [Hy [Hx _]%Forall_cons_1]%Forall_cons_1].
  assert (T : forall a b, total (a ++ b) = total a + total b) by (intros a b; unfold total; induction a as [|z a IH]; cbn; [done|rewrite IH; lia]).
  rewrite T in Ht |- *. change (total [y; x]) with (y + (x + 0)) in *. assert (0 <= total (reverse rest)) by (by apply total_nonneg).
  rewrite wrap_small by (unfold is_word; lia). rewrite reverse_cons, T, !length_app. cbn [length]. change (total [y + x]) with (y + x + 0). split_and!; [lia| |lia].
  apply Forall_app. split; [done|]. constructor; [lia|constructor].
Qed.

Lemma merge_outs_sum fuel maxOuts l : (1 <= maxOuts)%nat -> (length l <= fuel + maxOuts)%nat -> Forall (Z.le 0) l -> total l < 2 ^ 64 ->
  (length (merge_outs fuel maxOuts l) <= maxOuts)%nat /\ Forall (Z.le 0) (merge_outs fuel maxOuts l) /\ total (merge_outs fuel maxOuts l) = total l.
Proof.
  intros H1. revert l. induction fuel as [|fuel IH]; intros l Hl Hp Ht; [done|]. cbn [merge_outs]. destruct (Nat.ltb_spec maxOuts (length l)); [|done].
  destruct (merge_last_sum l ltac:(lia) Hp Ht) as (L & P & T). destruct (IH (merge_last l) ltac:(lia) P ltac:(lia)) as (? & ? & ?). split_and!; [done|done|lia].
Qed.

(** ** The outputs *)

(** The amounts as destinations. *)
Definition to_miner (minerAddress : account_public_address_t) (outAmounts : list Z) : list transaction_destination_entry_t := (fun a => mkdestination a minerAddress) <$> outAmounts.

Lemma miner_outputs_ok addr sec n l z : canon sec -> is_b32 (viewPublicKey addr) -> check_key (viewPublicKey addr) = true ->
  is_b32 (spendPublicKey addr) -> check_key (spendPublicKey addr) = true -> exists outs,
  miner_outputs addr sec n l (u64 z) = Ok (Some (outs, u64 (z + total l))) /\ sent sec n (to_miner addr l) outs.
Proof.
  intros Hc Hv Kv Hs Ks. apply check_key_spec in Kv as [ev Ev]; [|done]. apply check_key_spec in Ks as [es Es]; [|done].
  revert n z. induction l as [|a l IH]; intros n z.
  { exists []. cbn. by rewrite Z.add_0_r. }
  destruct (IH (S n) (z + a)) as (outs & E & S). eexists (_ :: outs). split.
  - cbn [miner_outputs]. rewrite Ev, derivation_value by done. cbn [mbind result_bind]. rewrite Es, derive_public_value. cbn [mbind result_bind].
    rewrite wrap_add_l, E. cbn [mbind result_bind]. do 4 f_equal. cbn [total foldr]. unfold total. lia.
  - cbn [to_miner fmap list_fmap sent dst_addr dst_amount]. split; [|done]. eexists _, _. rewrite Ev, derivation_value by done. split; [done|]. rewrite Es, derive_public_value. done.
Qed.

(** ** The extra *)

Lemma miner_extra_ok pub nonce : is_b32 pub -> is_bytes nonce -> (length nonce <= 255)%nat -> exists ex, miner_extra pub nonce = Some ex /\
  getTransactionPublicKeyFromExtra ex = pub.
Proof.
  intros Hp Hn Hl. unfold miner_extra, addTransactionPublicKeyToExtra. cbn [app].
  destruct nonce as [|x nonce'].
  - eexists. split; [done|]. unfold getTransactionPublicKeyFromExtra. rewrite parseTransactionExtra_loop.
    pose proof (parse_written [transaction_extra_public_key_t pub] [] ltac:(by constructor) eq_refl) as W. cbn [fmap list_fmap mjoin list_join field_bytes] in W.
    rewrite app_nil_r in W. change ([TX_EXTRA_TAG_PUBKEY] ++ pub) with (TX_EXTRA_TAG_PUBKEY :: pub). by rewrite W.
  - set (nonce := x :: nonce') in *. pose proof (visit_bytes (TX_EXTRA_TAG_PUBKEY :: pub) (transaction_extra_nonce_t nonce) (conj Hn Hl)) as V. cbn [visit] in V.
    eexists. split; [exact V|]. unfold getTransactionPublicKeyFromExtra. rewrite parseTransactionExtra_loop.
    pose proof (parse_written [transaction_extra_public_key_t pub; transaction_extra_nonce_t nonce] [] ltac:(constructor; [done|constructor; [done|constructor]]) eq_refl) as W.
    cbn [fmap list_fmap] in W. rewrite !mjoin_cons in W. cbn [mjoin list_join] in W. rewrite app_nil_r in W. cbn [field_bytes app] in W |- *. by rewrite W.
Qed.

(** A request of the miner that the chain allows: sizes, coins and fees in
    range, a block not above twice the median, an address that can be paid. *)
Record mining_ok (c : currency) (sizes : list Z) (generated size fee : Z) (addr : account_public_address_t) : Prop := {
  mining_currency : currency_ok c;
  mining_dust : 0 <= defaultDustThreshold c;
  mining_sizes : Forall (fun s => 0 <= s < 2 ^ 32) sizes;
  mining_size : 0 <= size < 2 ^ 32;
  mining_fits : size <= 2 * Z.max (medianValue sizes) (blockGrantedFullRewardZone c);
  mining_generated : 0 <= generated <= moneySupply c;
  mining_fee : 0 <= fee < 2 ^ 63;
  mining_view : is_b32 (viewPublicKey addr) /\ check_key (viewPublicKey addr) = true;
  mining_spend : is_b32 (spendPublicKey addr) /\ check_key (spendPublicKey addr) = true;
}.

Lemma part_nonneg t p : part_ok t p -> 0 <= part_amount p.
Proof. destruct p; cbn; [|lia]. intros (d & j & Hd & Hj & ->). apply Z.mul_nonneg_nonneg; [lia|]. apply Z.pow_nonneg. lia. Qed.

(** The transaction that is made. *)
Lemma miner_value c major height sizes generated size fee addr old nonce maxOuts st : mining_ok c sizes generated size fee addr -> is_bytes nonce -> (length nonce <= 255)%nat ->
  (1 <= maxOuts)%nat -> ready st -> exists x ex outs amounts reward change st', canon x /\ ready st' /\ getTransactionPublicKeyFromExtra ex = pub_of (le x) /\
    getBlockReward c (medianValue sizes) size generated fee = Value (reward, change) /\ 0 <= reward < 2 ^ 64 /\ (length outs <= maxOuts)%nat /\
    Forall (Z.le 0) amounts /\ total amounts = reward /\ sent x 0 (to_miner addr amounts) outs /\
    constructMinerTx c major height (medianValue sizes) generated size fee addr old nonce maxOuts st =
      Ok (Some (mktransaction (mkprefix major (u64 (height + minedMoneyUnlockWindow c)) [base_input (mkbase_input height)] outs ex) (signatures old)), st').
Proof.
  intros M Hn Hl Hm Hst. destruct (key_generate_ok st Hst) as (x & st' & Ek & Cx & Hst').
  destruct (miner_extra_ok (pub_of (le x)) nonce (encode_point_b32 _) Hn Hl) as (ex & Ex & Ep).
  pose proof (median_bound sizes (mining_sizes _ _ _ _ _ _ M)) as Hmed.
  pose proof (reward_exact c (medianValue sizes) size generated fee (mining_currency _ _ _ _ _ _ M) Hmed (mining_size _ _ _ _ _ _ M) (mining_generated _ _ _ _ _ _ M) (mining_fee _ _ _ _ _ _ M)) as R.
  cbv zeta in R. set (m := Z.max _ _) in R. pose proof (mining_fits _ _ _ _ _ _ M) as Hf. fold m in Hf. destruct (Z.ltb_spec (2 * m) size); [lia|].
  pose proof (mining_currency _ _ _ _ _ _ M) as (Hsup & _ & Hz & _). pose proof (base_reward_bound c generated (mining_currency _ _ _ _ _ _ M) (mining_generated _ _ _ _ _ _ M)) as B.
  pose proof (penalized_bound m size (base_reward c generated) ltac:(lia) ltac:(lia) ltac:(pose proof (mining_size _ _ _ _ _ _ M); lia)) as P1.
  pose proof (penalized_bound m size fee ltac:(pose proof (mining_fee _ _ _ _ _ _ M); lia) ltac:(lia) ltac:(pose proof (mining_size _ _ _ _ _ _ M); lia)) as P2.
  pose proof (mining_generated _ _ _ _ _ _ M) as G. pose proof (mining_fee _ _ _ _ _ _ M) as F.
  set (reward := penalized m size (base_reward c generated) + penalized m size fee) in *. set (change := _ - _) in R. assert (Hr : 0 <= reward < 2 ^ 64) by lia.
  destruct (decompose_exact reward (defaultDustThreshold c) Hr (mining_dust _ _ _ _ _ _ M)) as (T & Ok & _). set (parts := part_amount <$> _) in T.
  assert (Hp : Forall (Z.le 0) parts). { unfold parts. apply Forall_fmap. eapply list.Forall_impl; [exact Ok|]. apply part_nonneg. }
  destruct (merge_outs_sum (length parts) maxOuts parts Hm ltac:(lia) Hp ltac:(lia)) as (Lm & Pm & Tm). set (amounts := merge_outs _ _ _) in *.
  destruct (miner_outputs_ok addr x 0 amounts 0 Cx (proj1 (mining_view _ _ _ _ _ _ M)) (proj2 (mining_view _ _ _ _ _ _ M)) (proj1 (mining_spend _ _ _ _ _ _ M)) (proj2 (mining_spend _ _ _ _ _ _ M))) as (outs & Eo & So).
  change (u64 0) with 0 in Eo. rewrite Z.add_0_l, wrap_small in Eo by (unfold is_word; lia).
  exists x, ex, outs, amounts, reward, change, st'. split_and!; [done|done|done|done|lia|lia| |done|lia|done|].
  - pose proof (f_equal length (sent_amounts _ _ _ _ So)) as Q. unfold to_miner in Q. rewrite !length_fmap in Q. lia.
  - unfold constructMinerTx. rewrite (bind_rand _ _ _ _ _ Ek). cbn [publicKey secretKey]. rewrite Ex, R. rewrite (bind_lift _ _ _ (Some (reward, change))) by done.
    destruct (Nat.eqb_spec maxOuts 0); [lia|]. cbv zeta. fold parts. fold amounts. rewrite (bind_lift _ _ _ _ Eo). replace (total amounts =? reward) with true by lia. done.
Qed.

Lemma bounded_parts l : Forall (Z.le 0) l -> total l < 2 ^ 64 -> Forall is_u64 l.
Proof.
  intros H. induction H as [|x l Hx Hl IH]; intros T; [constructor|]. change (total (x :: l)) with (x + total l) in T. pose proof (total_nonneg l Hl).
  constructor; [split; [done|change (2 ^ 64) with (2 ^ 64); lia]|apply IH; lia].
Qed.

(** C11: the transaction made for a miner is accepted and received.  For a
    block that is not above twice the median, coins within the supply and an
    address whose keys decode, [constructMinerTx] passes every assertion and
    returns a transaction of at most [maxOuts] outputs; in a block of that
    height, size and fees it passes [prevalidate_miner_transaction] and
    [validate_miner_transaction] (it pays exactly the reward), and the owner
    of the address finds every one of its outputs with [lookup_acc_outs]. *)
Theorem miner_transaction_accepted c major height sizes generated size fee acc old nonce maxOuts st uninit : mining_ok c sizes generated size fee (address acc) ->
  is_bytes nonce -> (length nonce <= 255)%nat -> (1 <= maxOuts)%nat -> ready st -> account_ok acc ->
  exists tx st' reward change, constructMinerTx c major height (medianValue sizes) generated size fee (address acc) old nonce maxOuts st = Ok (Some tx, st') /\
    (length (outputs (prefix tx)) <= maxOuts)%nat /\
    (forall b, baseTransaction b = tx -> prevalidate_miner_transaction c b height = true /\
       validate_miner_transaction c sizes b size generated fee = Value (reward, change)) /\
    exists outs money, lookup_acc_outs acc tx (getTransactionPublicKeyFromExtra (extra (prefix tx))) uninit = Ok (outs, money) /\
      forall i, (i < length (outputs (prefix tx)))%nat -> i ∈ outs.
Proof.
  intros M Hn Hl Hm Hst Ha. destruct (miner_value c major height sizes generated size fee (address acc) old nonce maxOuts st M Hn Hl Hm Hst)
    as (x & ex & outs & amounts & reward & change & st' & Cx & Hst' & Ek & R & Hr & Lo & Pa & Ta & So & E).
  pose proof (sent_amounts _ _ _ _ So) as Eo. assert (Ea : out_amount <$> outs = amounts).
  { rewrite Eo. unfold to_miner. rewrite <- list_fmap_compose. apply list_fmap_id. }
  eexists _, st', reward, change. split; [exact E|]. cbn [prefix outputs extra]. split; [done|]. split.
  - intros b Eb. unfold prevalidate_miner_transaction, validate_miner_transaction. rewrite Eb. cbn [prefix inputs outputs blockIndex unlockTime].
    rewrite !Z.eqb_refl. cbn [andb]. unfold check_outs_overflow. cbn [outputs]. rewrite sum_eq, Ea, Ta, R. cbn [mbind decoded_bind]. rewrite wrap_small by done.
    rewrite overflow_loop_ok, Ta by (by split || (eapply bounded_parts; [exact Pa|lia])). rewrite Z.add_0_l. split; [lia|]. by rewrite Z.ltb_irrefl.
  - destruct (lookup_found acc uninit x _ (to_miner (address acc) amounts) outs 0 [] 0 Ha Cx eq_refl So) as (o & m & El & _ & Hi). exists o, m.
    rewrite Ek. destruct Ha as (_ & _ & Hv & Ev). destruct (secret_canon _ _ Hv Ev) as [Cv _]. split.
    + unfold lookup_acc_outs, pub_of. rewrite derivation_value by done. cbn [mbind result_bind default prefix outputs]. exact El.
    + intros i Hlt. rewrite <- (length_fmap out_amount), Ea in Hlt. destruct (lookup_lt_is_Some_2 amounts i Hlt) as [a Hai].
      apply (Hi i (mkdestination a (address acc))); [|done]. unfold to_miner. by rewrite list_lookup_fmap, Hai.
Qed.

Lemma sample_mining : mining_ok builder [] 0 100 0 (address sample_account).
Proof.
  split; [apply builder_ok|cbn; lia|constructor|lia|cbn; lia|cbn; lia|lia| |]; (split; [apply encode_point_b32|apply check_key_encode]).
Qed.

Lemma miner_transaction_accepted_witness : exists tx st' reward change,
  constructMinerTx builder 1 7 (medianValue []) 0 100 0 (address sample_account) (mktransaction (mkprefix 0 0 [] [] []) []) [] 1 ready_start = Ok (Some tx, st') /\
  (length (outputs (prefix tx)) <= 1)%nat /\
  (forall b, baseTransaction b = tx -> prevalidate_miner_transaction builder b 7 = true /\ validate_miner_transaction builder [] b 100 0 0 = Value (reward, change)) /\
  exists outs money, lookup_acc_outs sample_account tx (getTransactionPublicKeyFromExtra (extra (prefix tx))) [] = Ok (outs, money) /\
    forall i, (i < length (outputs (prefix tx)))%nat -> i ∈ outs.
Proof.
  exact (miner_transaction_accepted builder 1 7 [] 0 100 0 sample_account (mktransaction (mkprefix 0 0 [] [] []) []) [] 1 ready_start []
    sample_mining (List.Forall_nil _) ltac:(cbn; lia) ltac:(lia) ready_start_ok sample_account_ok).
Defined.
