(* ===== verification/Semantic.v ===== *)
(** * The checks on a transaction alone: cryptonote/core/core.cpp, CryptoNoteFormatUtils.cpp

    [core::check_tx_semantic] looks at a transaction without the chain. *)

From stdpp Require Import gmap.
From S2P Require Import Prelude EdGroup GeSpec Crypto CryptoProofs Stream Types Binary Amounts ChainIndex Validate ChainPush.

#[local] Opaque check_key.

(** The body of the loop of [check_outs_valid]; there are no other targets. *)
Definition check_out (o : transaction_output_t) : bool :=
  match target o with
  | key_output k => if out_amount o =? 0 then false else check_key (out_key k)
  | multi_signature_output m => if Z.of_nat (length (out_keys m)) <? requiredSignatureCount m then false else forallb check_key (out_keys m)
  end.
Definition check_outs_valid (tx : transaction_prefix_t) : bool := forallb check_out (outputs tx).

(** [ki] is the set of the images seen. *)
Fixpoint images_diff (ki : gset bytes) (l : list transaction_input_t) : bool :=
  match l with
  | [] => true
  | key_input i :: l => if bool_decide (keyImage i ∈ ki) then false else images_diff ({[keyImage i]} ∪ ki) l
  | _ :: l => images_diff ki l
  end.
Definition check_tx_inputs_keyimages_diff (tx : transaction_prefix_t) : bool := images_diff ∅ (inputs tx).

Definition check_tx_semantic (tx : transaction_prefix_t) : bool :=
  if (length (inputs tx) =? 0)%nat then false
  else if negb (check_inputs_types_supported tx) then false
  else if negb (check_outs_valid tx) then false
  else if negb (check_money_overflow tx) then false
  else
    let amount_in := get_inputs_money_amount tx in
    let amount_out := get_outs_money_amount tx in
    if amount_in <? amount_out then false
    else if negb (check_tx_inputs_keyimages_diff tx) then false
    else if negb (checkMultisignatureInputsDiff tx) then false
    else true.

(** ** What the checks decide *)

Lemma images_diff_spec ki l : images_diff ki l = true <-> NoDup (key_images l) /\ forall k, k ∈ key_images l -> k ∉ ki.
Proof.
  revert ki. induction l as [|i l IH]; intros ki; [split; [intros _; split; [constructor|by intros k ?%elem_of_nil]|done]|].
  destruct i as [i|i|i]; cbn [images_diff key_images omap list_omap]; fold (key_images l); [apply IH| |apply IH]. case_bool_decide as Hin.
  - split; [done|]. intros [_ H]. destruct (H (keyImage i)); [by left|done].
  - rewrite IH, list.NoDup_cons. split.
    + intros [N D]. split_and!; [|done|]; [|intros k [->|Hk]%list.elem_of_cons; [done|]].
      * intros Hi. apply (D (keyImage i) Hi). set_solver.
      * specialize (D k Hk). set_solver.
    + intros [[Ni N] D]. split; [done|]. intros k Hk Hu. apply elem_of_union in Hu as [->%elem_of_singleton|Hu]; [done|]. apply (D k); [by right|done].
Qed.

Lemma multi_diff_spec seen l : multisignature_loop seen l = true <-> NoDup (multi_pairs l) /\ forall p, p ∈ multi_pairs l -> p ∉ seen.
Proof.
  split; [apply multisignature_loop_nodup|]. revert seen. induction l as [|i l IH]; intros seen [N D]; [done|].
  destruct i as [i|i|i]; cbn [multisignature_loop multi_pairs omap list_omap] in *; fold (multi_pairs l) in *; [by apply IH..|]. apply list.NoDup_cons in N as [Ni N].
  rewrite bool_decide_false by (apply D; by left). apply IH. split; [done|]. intros p Hp [->|Hs]%list.elem_of_cons; [done|]. apply (D p); [by right|done].
Qed.

Lemma sum_money tx : valid_prefix tx -> check_money_overflow tx = ((total (input_amount <$> inputs tx) <? 2 ^ 64) && (total (out_amount <$> outputs tx) <? 2 ^ 64)) /\
  (check_money_overflow tx = true -> get_inputs_money_amount tx = total (input_amount <$> inputs tx) /\ get_outs_money_amount tx = total (out_amount <$> outputs tx)).
Proof.
  intros Hv. destruct (amounts_u64 tx Hv) as [Hi Ho].
  assert (E : check_money_overflow tx = ((total (input_amount <$> inputs tx) <? 2 ^ 64) && (total (out_amount <$> outputs tx) <? 2 ^ 64))).
  { unfold check_money_overflow, check_inputs_overflow, check_outs_overflow. by rewrite !overflow_loop_ok by (done || (split; [lia|done])). }
  split; [done|]. rewrite E. intros [H1 H2]%andb_prop.
  assert (Hin : 0 <= total (input_amount <$> inputs tx)) by (apply total_nonneg; eapply list.Forall_impl; [exact Hi|intros ? [? _]; done]).
  assert (Hout : 0 <= total (out_amount <$> outputs tx)) by (apply total_nonneg; eapply list.Forall_impl; [exact Ho|intros ? [? _]; done]).
  unfold get_inputs_money_amount, get_outs_money_amount. rewrite !sum_eq, !wrap_small by (unfold is_word; lia). done.
Qed.

(** An output that can be spent: a positive amount and keys that decode. *)
Definition spendable (o : transaction_output_t) : Prop :=
  match target o with
  | key_output k => out_amount o <> 0 /\ check_key (out_key k) = true
  | multi_signature_output m => requiredSignatureCount m <= Z.of_nat (length (out_keys m)) /\ Forall (fun k => check_key k = true) (out_keys m)
  end.

Lemma check_out_spec o : check_out o = true <-> spendable o.
Proof.
  unfold check_out, spendable. destruct (target o) as [k|m].
  - destruct (Z.eqb_spec (out_amount o) 0); [by split; [|intros [? _]]|by split; [|intros [_ ?]]].
  - destruct (Z.ltb_spec (Z.of_nat (length (out_keys m))) (requiredSignatureCount m)); [split; [done|lia]|].
    rewrite List.forallb_forall, List.Forall_forall. split; [intros; split; [lia|done]|by intros [_ ?]].
Qed.

Lemma types_spec tx : check_inputs_types_supported tx = true <-> Forall (fun i => forall h, i <> base_input h) (inputs tx).
Proof.
  unfold check_inputs_types_supported. rewrite List.forallb_forall, List.Forall_forall. split; intros H i Hi; specialize (H i Hi); destruct i; try done. by destruct (H i).
Qed.

Lemma outs_spec tx : check_outs_valid tx = true <-> Forall spendable (outputs tx).
Proof.
  unfold check_outs_valid. rewrite List.forallb_forall, List.Forall_forall. split; intros H o Ho; [by apply check_out_spec, H|by apply check_out_spec, H].
Qed.

Lemma semantic_spec p : valid_prefix p ->
  check_tx_semantic p = true <-> inputs p <> [] /\ Forall (fun i => forall h, i <> base_input h) (inputs p) /\ Forall spendable (outputs p) /\
    total (out_amount <$> outputs p) <= total (input_amount <$> inputs p) < 2 ^ 64 /\ NoDup (key_images (inputs p)) /\ NoDup (multi_pairs (inputs p)).
Proof.
  intros Hv. destruct (sum_money p Hv) as [Eo Es]. rewrite <- types_spec, <- outs_spec.
  assert (Hk : check_tx_inputs_keyimages_diff p = true <-> NoDup (key_images (inputs p))).
  { unfold check_tx_inputs_keyimages_diff. rewrite images_diff_spec. split; [by intros [? _]|]. intros N. split; [done|]. set_solver. }
  assert (Hm : checkMultisignatureInputsDiff p = true <-> NoDup (multi_pairs (inputs p))).
  { unfold checkMultisignatureInputsDiff. rewrite multi_diff_spec. split; [by intros [? _]|]. intros N. split; [done|]. by intros q _ ?%elem_of_nil. }
  rewrite <- Hk, <- Hm. unfold check_tx_semantic. destruct (inputs p) as [|i l] eqn:Ei; [split; [done|by intros [? _]]|]. rewrite <- Ei in *. replace (length (inputs p) =? 0)%nat with false by (by rewrite Ei).
  destruct (check_inputs_types_supported p); [|split; [done|by intros (_ & ? & _)]]. destruct (check_outs_valid p); [|split; [done|by intros (_ & _ & ? & _)]]. cbn [negb].
  destruct (check_money_overflow p) eqn:E; cbn [negb].
  - destruct (Es eq_refl) as [-> ->]. symmetry in Eo. apply andb_prop in Eo as [E1%Z.ltb_lt E2%Z.ltb_lt].
    destruct (Z.ltb_spec (total (input_amount <$> inputs p)) (total (out_amount <$> outputs p))); [split; [done|intros (_ & _ & _ & ? & _); lia]|].
    assert (inputs p <> []) by (by rewrite Ei). destruct (check_tx_inputs_keyimages_diff p), (checkMultisignatureInputsDiff p); cbn [negb]; split; try done; intros; by split_and?; destruct_and?.
  - split; [done|]. intros (_ & _ & _ & ? & _). symmetry in Eo. apply andb_false_iff in Eo. lia.
Qed.

(** C20: the checks on a transaction alone are exact, and what the chain relies
    on.  [check_tx_semantic] accepts a transaction exactly when it has inputs
    and no base input, every output can be spent, the true sums fit in 64 bits
    and the outputs do not exceed the inputs, and no key image and no
    multisignature output is used twice; such a transaction with less than
    65536 outputs can be pushed. *)
Theorem semantic_checks_exact tx : valid_prefix (prefix tx) ->
  let p := prefix tx in
  (check_tx_semantic p = true <-> inputs p <> [] /\ Forall (fun i => forall h, i <> base_input h) (inputs p) /\ Forall spendable (outputs p) /\
     total (out_amount <$> outputs p) <= total (input_amount <$> inputs p) < 2 ^ 64 /\ NoDup (key_images (inputs p)) /\ NoDup (multi_pairs (inputs p))) /\
  (check_tx_semantic p = true -> Z.of_nat (length (outputs p)) < 65536 -> pushable tx).
Proof.
  intros Hv p. assert (X := semantic_spec p Hv). split; [done|]. intros E%X L. destruct E as (_ & _ & _ & _ & N & D). split_and!; [apply Hv| |done|done].
  apply multi_diff_spec. split; [done|]. by intros q _ ?%elem_of_nil.
Qed.

(** A payment of 3 out of 5 to the key that is the base point. *)
Definition sample_payment : transaction_t :=
  mktransaction (mkprefix 1 0 [key_input (mkkey_input 5 [0] (replicate 32 7))] [mkoutput 3 (key_output (mkkey_output (encode_point eB)))] []) [[]].

Lemma semantic_checks_exact_witness : check_tx_semantic (prefix sample_payment) = true /\ pushable sample_payment.
Proof.
  assert (Hv : valid_prefix (prefix sample_payment)).
  { split_and!; [split; cbn; lia|split; cbn; lia| |cbn; lia| |cbn; lia|constructor|cbn; lia].
    - constructor; [|constructor]. split_and!; [split; cbn; lia|constructor; [split; cbn; lia|constructor]|cbn; lia|by apply (bytes_check_n 32)].
    - constructor; [|constructor]. split; [change (is_u64 3); split; lia|apply encode_point_b32]. }
  destruct (semantic_checks_exact sample_payment Hv) as [X Y]. assert (E : check_tx_semantic (prefix sample_payment) = true).
  { apply X. split_and!; [done|constructor; [by intros h|constructor]| |by vm_compute|by vm_compute|apply list.NoDup_singleton|constructor].
    constructor; [|constructor]. split; [done|apply check_key_encode]. }
  split; [exact E|]. refine (Y E _). reflexivity.
Defined.
